(* ===== verification/_CoqProject ===== *)
-Q . S2P
Prelude.v
BigMath.v
GoHeap.v
KeccakF.v
Keccak.v
KeccakTheorems.v
RlpEncode.v
RlpDecode.v
RlpCodec.v
RlpTheorems.v
RlpRaw.v
Storage.v
IstanbulTypes.v
ValidatorSet.v
KeccakCrypto.v
Hex.v
Base58.v
Curve.v
TrieNode.v
Trie.v
TrieTree.v
TrieRep.v
TrieTheorems.v
TrieRoot.v
TrieProof.v
TrieClaims.v
ValidatorProps.v
RoundState.v
Backlog.v
IstanbulCore.v
CoreInv.v
CoreTheorems.v
CoreWitness.v
IstanbulHeader.v
Snapshot.v
HeaderHash.v
Transaction.v
RingSign.v
TransactionSigning.v
DeriveSha.v
TxList.v
TxListProps.v
TxListTheorems.v
PricedTheorems.v
TxOrder.v
StateDB.v
StateSpec.v
StateTheorems.v
SecureTrie.v
StateCommit.v
StateFinalise.v
StateClaims.v
VmProg.v
VmData.v
Abi.v
Ota.v
VmCore.v
VmInterp.v
VmJump.v
VmInv.v
VmExec.v
VmStep.v
VmSafe.v
VmLoop.v
VmTable.v
VmClaims.v
Native.v
NativeLaws.v
NativeClaims.v
Receipt.v
StateTransition.v
TransitionClaims.v
SnapshotProps.v
Engine.v
BackendOps.v
EngineInv.v
EngineTheorems.v
EngineWitness.v
