(* ===== verification/Prelude.v ===== *)
(** * Verification of go-wanchain: Istanbul consensus, state, virtual machine and transactions

    The program is an Ethereum node whose blocks are agreed on by the Istanbul
    Byzantine fault tolerant consensus.  This development models the consensus
    as a whole, from the bytes on the wire to the accepted block, and the data
    structures and algorithms below it (serialization, Keccak, the Merkle
    Patricia trie, signed transactions, the lists of the transaction pool, the
    journaled account state, the virtual machine, the privacy contracts with their
    ring signatures), and proves the properties that make them correct, or shows
    where the code misses them.
    File names below are relative to
    [src/src/github.com/wanchain/go-wanchain/].

    ** Parts of the program and how they interact

    - [rlp]: the serialization of every message, header, trie node, transaction
      and hash input.
    - [crypto/sha3], [crypto]: the Keccak permutation, the sponge and the hash
      functions.  Everything else uses them through the class [Crypto].
    - [ethdb]: key-value stores, the class [Database].
    - [trie]: authenticated maps.  Nodes are loaded from the database when they
      are needed, hashes are cached in the nodes, a commit writes what is new
      and unloads what was not used lately; Merkle proofs.
    - [core/types]: headers, whose extra data carries the validators, the seal
      of the proposer and the committed seals (the block hash leaves the
      committed seals out); transactions with signatures and caches; the root
      of a list of transactions, computed with a trie.
    - [core] (transaction lists) and [container/heap]: the lists of one account
      sorted by nonce, the heap of prices over all accounts.
    - [core/state]: the account state of a block.  Account objects are cached
      over a trie of accounts with a trie of slots each; every change is
      journaled, a snapshot is reverted by undoing the journal, and at the end
      of a transaction the dirty objects are written to the tries.
    - [core/vm]: the virtual machine.  The interpreter runs the code of a
      contract instruction by instruction, charging gas, and calls itself for
      the contracts that are called; calls take a snapshot of the state and
      revert to it when they fail.  [common/math] has its 256-bit arithmetic.
      Native contracts are called the same way; two of them sell one-time accounts
      and pay them back to who proves with a ring signature to own one of several,
      without saying which.
    - [crypto], [accounts/abi], [common/hexutil]: ring signatures and one-time keys
      over [crypto/secp256k1]; the arguments of contract methods; hexadecimal text.
    - [consensus/istanbul] and [istanbul/core]: the state machine of one
      validator.  Events (messages, requests, time-outs, new chain heads) are
      handled one at a time; handlers change the round state, send signed
      messages and finally call [Commit] of the backend with the committed
      seals of a quorum.
    - [istanbul/validator]: validator sets, proposer selection, the fault
      bound [F].
    - [istanbul/backend]: the engine.  It verifies headers, tracks the votes
      that add and remove validators (snapshots, cached in memory and on disk),
      prepares and seals blocks, and gossips messages.

    ** Files

    - [Prelude]: machine integers, results of Go calls ([outcome]: a value, an
      error or a panic), byte strings, tactics and hint databases.
    - [KeccakF]: [crypto/sha3/keccakf.go], the four unrolled rounds line by
      line, and the permutation of the standard.  [Keccak]: [sha3.go],
      [hashes.go], [shake.go], [xor_generic.go], [xor_unaligned.go] and
      [crypto.Keccak256]; the sponge has its buffer as a window into its
      storage.  [KeccakProps], [KeccakTheorems]: the reference [sponge] and
      the claims.  [KeccakCrypto]: the hash function as an instance of [Crypto].
    - [Hex]: [common/hexutil/hexutil.go] and the hexadecimal text of
      [common/bytes.go].  [Base58]: the base-58 text of [crypto/crypto.go].
      [Curve]: [crypto/secp256k1/curve.go], the arithmetic of points in Jacobian
      coordinates.  [RingSign]: keys, ring signatures and one-time keys of
      [crypto/crypto.go].
    - [RlpEncode]: [rlp/encode.go].  Values are tagged with the kinds the
      encoder dispatches on; [encbuf] and the two-pass output as in the source;
      [rlp_enc] is the recursive reference encoding.
    - [RlpDecode], [RlpCodec]: [rlp/decode.go].  [Stream] with its stack of
      lists and input limit in a state and error monad; [codec_ok] is the
      contract of a decoder with an encoder, closed under the struct and list
      combinators.
    - [RlpTheorems], [RlpRaw]: theorems on both directions; [rlp/raw.go].
    - [Storage]: the class [Database], [ethdb/memory_database.go] with batches.
    - [TrieEncoding], [TrieNode], [Trie], [TrieHasher], [TrieProof]:
      [trie/encoding.go], [node.go], [trie.go], [hasher.go] and [proof.go].
      [TrieTree]: trees without caches and unloaded parts, their contents and
      canonical form.  [TrieRep]: when a node in memory, with the database,
      represents a tree.  [TrieRefine], [TrieTheorems]: the operations against
      trees and finite maps.  [TrieCommit], [TrieRoot]: hashing and
      committing.  [TrieClaims]: the claims, and runs of operations.
    - [IstanbulTypes]: views, subjects, proposals (the class [Proposal]),
      messages with payload and signature ([istanbul/types.go],
      [core/types.go]).
    - [ValidatorSet], [ValidatorProps]: [validator/default.go] with pointers of
      validators made explicit, [common.Address.Hex], signature checks.
    - [RoundState]: [core/message_set.go], [core/roundstate.go] and the sets of
      [core/roundchange.go]; [GoRange] is the unknown order of a range loop
      over a map.
    - [Backlog]: [core/backlog.go] and the queue of [core/request.go];
      priorities are exact [float32] values.
    - [IstanbulCore]: all handlers of [istanbul/core] in the monad [CM] (state,
      effects, panics); one iteration of [handleEvents] is [handleEvent].
    - [CoreInv]: weakest preconditions of [CM] and the invariant [core_inv],
      preserved by every handler.
    - [CoreTheorems], [CoreWitness]: reachable states and the claims; a run of
      four validators.
    - [IstanbulHeader], [HeaderHash]: [types.Header], [core/types/istanbul.go],
      [sigHash], [prepareExtra], [writeSeal], [writeCommittedSeals]; the codec
      of headers and what a block hash binds.
    - [Transaction], [TransactionProps], [TransactionSigning]:
      [core/types/transaction.go] and [transaction_signing.go]; the caches of
      a transaction are state.  [DeriveSha]: [core/types/derive_sha.go].
    - [GoHeap]: [container/heap] over a slice.  [TxList]: [core/tx_list.go];
      [TxListProps], [TxListTheorems], [PricedTheorems]: the lists against
      finite maps, the price heap against multisets.  [TxOrder]:
      [TransactionsByPriceAndNonce] of [core/types/transaction.go].
    - [StateDB]: [core/state/statedb.go], [state_object.go], [journal.go]; the
      objects of the cache are shared by reference with the journal.
      [StateSpec]: worlds without caches and journal, snapshots are copies.
      [StateProps], [StateTheorems]: the simulation.  [SecureTrie]:
      [trie/secure_trie.go], [core/state/database.go], the instances of the
      classes [StateTrie] and [StateDatabase].  [StateCommit], [StateFinalise],
      [StateClaims]: writing to the tries, copies, and the claims.
    - [BigMath]: [common/math/big.go] and [integer.go].
    - [VmProg]: what the machine asks of its state is an event; programs are
      trees of events ([prog]) with a weakest precondition, run by a handler
      ([run_prog]); the handler of the state database is proved against the
      worlds of [StateSpec].  [VmData]: memory, gas and stack tables, opcodes,
      the analysis of jump destinations and contracts.  [VmCore]: instructions
      in the monad [IM] (frame, machine, events).  [VmCalls]: [evm.go], and the
      instructions that call.  [VmInterp]: [gas_table.go], [memory_table.go],
      [jump_table.go] and [interpreter.go].
    - [VmJump], [VmArith]: destinations and arithmetic against specifications.
      [VmInv]: the invariants of state, machine and frame.  [VmExec], [VmStep]:
      instructions and iterations keep them.  [VmSafe], [VmRun]: calls and
      creations.  [VmLoop], [VmTable]: instructions that call, every entry of
      the table, the loop.  [VmClaims]: the claims.
    - [Abi]: [accounts/abi]: packing and unpacking of arguments.  [Ota]:
      [core/vm/ota_storage.go], the accounts and key images in the storage, and the
      choice of a mixing set.  [Native]: [core/vm/contracts.go] and the table of
      native contracts; the privacy contracts are programs over the events of
      [VmProg].  [NativeProps], [NativeLaws]: what each request reads and does, and
      the instance of [PrecompileLaws].  [NativeClaims]: the claims.
    - [Snapshot], [SnapshotProps]: [backend/snapshot.go] and [ecrecover]; the
      specification [ballot] has no tally and recounts the votes.
    - [Engine], [BackendOps]: [backend/engine.go], [backend/backend.go] and
      [backend/handler.go] in the monad [EM] (caches, database, errors,
      panics).
    - [EngineProps], [EngineInv], [EngineTheorems], [EngineWitness]: the
      canonical replay from the genesis block, soundness of all caches, and
      the claims; a chain of four headers.

    ** What the theorems show

    - Core, safety: a block is delivered only with COMMIT messages of more than
      [2F] distinct validators ([commit_certified]); no event causes a nil
      dereference ([core_never_panics]); a lock stays until the sequence
      advances ([lock_persists]); views never decrease
      ([view_never_decreases]); two conflicting certificates expose more than
      [F] validators ([conflicting_commits_accountable]).  Liveness of the last
      step: a quorum of COMMITs delivers the block ([quorum_commits]).
    - Core, limits of the code: quorums are safe exactly for [3F + 1]
      validators ([quorum_intersection_iff]), the claimed sender of a message
      is not the checked one ([forged_sender_accepted]), priorities and
      time-outs outside their range ([toPriority_collision],
      [round_timeout_backoff]), a nil head ([nil_head_panics]).
    - Engine: an accepted header is certified by the validators of the
      canonical replay ([accepted_header_certified]); snapshots equal that
      replay whatever the caches hold ([snapshot_canonical]) and are always
      found ([snapshot_complete]); the tally is always the number of votes
      ([apply_refines]); only a majority changes the validators
      ([validator_change_majority]); a committed block verifies exactly when
      its seals are a certificate ([commit_verifies], [committed_seals_iff]).
    - Trie: every run of operations, commits included, behaves as a finite map
      ([trie_refines_map]); the root hash is a function of the entries and
      binds them ([trie_root_binds]); a committed trie is loaded back
      ([commit_reload]); proofs are sound and complete ([VerifyProof_sound],
      [Prove_complete]); key encodings ([key_encodings_roundtrip]).
    - Keccak: the permutation is the one of the standard ([keccakF1600_spec]),
      the hash functions are the sponge over all that was written
      ([hash_functions_spec], [shake_stream], [keccak256_type]); a defect of
      [clone] ([clone_position]).
    - Transactions: encoding ([transaction_roundtrip]), what is signed
      ([sighash_binds]), signing and recovering ([sign_sender]), replays
      ([replay_protection]), malleability ([sender_not_malleable]), caches
      ([tx_caches_sound]), a defect for chain id zero ([chain_zero_mismatch]);
      the root of a list ([tx_root_binds]).
    - Transaction lists: a list behaves as a map from nonces with replacement
      rules ([txList_refines], [strict_list_contiguous]); the price heap
      discards the cheapest transactions ([Discard_takes_cheapest],
      [Cap_removes_cheap], [Underpriced_exact], [Removed_rebuilds]); blocks are
      filled by price within the order of nonces ([price_nonce_order]).
    - State: a run of operations, snapshots and reverts behaves as copies of a
      world ([state_refines]), reverting restores everything observable
      ([revert_restores]), finalisation writes exactly the dirty objects
      ([Finalise_writes], [dirty_objects_live]); defects
      ([touch_revert_loses_update], [revert_leaves_nonempty],
      [copy_shares_trie], [istanbul_root_mismatch]).
    - Virtual machine: on the state database, every call and creation ends when
      the fuel is more than the gas, never panics, and leaves at most its gas
      ([evm_Call_total], [evm_Create_total]); what fails changes nothing
      ([failed_call_reverts]); read-only calls write nothing
      ([static_call_pure]); instructions compute on words
      ([arithmetic_exact]), jumps reach instructions only
      ([jump_destinations_exact]), memory has its quadratic price up to a limit
      ([memory_price_exact]) below the one of the code
      ([memory_price_overflows]).
    - Privacy contracts: a key image is paid once ([no_double_spend]); what is bought
      is paid for and what is paid back was recorded ([buying_conserves],
      [refund_conserves]); ring signatures verify ([ring_sign_verifies]); one-time
      keys are found and spent by their receiver ([one_time_key_spendable]); the
      choice of a mixing set ends ([GetOTASet_total]); requests are unpacked
      ([abi_roundtrip]).  Defects: native contracts act in read-only and delegated
      calls ([static_call_pays], [delegate_call_takes]), [modexp_overflows],
      [array_offset], [negative_int256].
    - Curve and text: addition and doubling are the chord and the tangent
      ([curve_law], also for equal points, where the code is wrong); numbers and
      their hexadecimal text ([quantity_exact]), base 58 ([base58_roundtrip],
      [otaAddress_constant]).
    - Data of the consensus: what a block hash binds ([header_Hash_binds]), the
      life of the extra data ([seal_lifecycle]), the database ([store_load]),
      payloads of messages ([FromPayload_exact], [PayloadNoSig_injective],
      [body_roundtrip]), validator sets as finite sets
      ([validator_set_refines], [newDefaultSet_order], [roundRobin_fair]),
      counting of messages ([PrepareOrCommit_union], [MaxRound_spec],
      [roundChange_count]) and backlogs ([drain_backlog_spec],
      [toPriority_order]).
    - RLP: the two-pass encoder computes the encoding
      ([EncodeToBytes_correct]), decoding inverts it ([rlp_roundtrip]), accepts
      canonical input only ([rlp_canonical]) and terminates
      ([rlp_decode_terminates]); [Split] and [CountValues] are exact
      ([Split_exact], [CountValues_items]); two defects
      ([byteArray1_zero_undecodable], [Split_panics]).

    ** Interfaces and assumptions

    Code outside of the repository's own sources, and components seen by their
    clients, are classes with laws, each with an instance: [Crypto] (Keccak and
    public-key recovery; [KeccakCrypto] implements the hash), [Ecdsa] (the C
    library for elliptic curves), [EllipticCurve] (multiplication by it, with the group
    laws [CurveLaws]), [NativeLib] and [Bn256] (SHA-256, RIPEMD-160, modular inversion
    and the pairing curve), [GoRange] (iteration order), [Prque]
    (priority queue), [ARCCache] (a cache may forget, but returns only what was
    added), [SnapshotCodec] (JSON), [Database] (a read returns what was last
    written; [DatabaseKeeps]: what was written is kept), [TxRoot] (the root of
    a list of transactions), [StateTrie] and [StateDatabase] (the tries below the
    account state, with the laws [StateStoreLaws] and [StateTrieMaps], both
    discharged by the secure trie), [Precompiles] (the native contracts of the
    virtual machine, with [PrecompileLaws]: they keep the state sound and do not
    panic below a price; [byzantium_laws] proves them for the contracts of the
    repository and prices below [2 ^ 62]).  A proposal is a [Proposal] with [ProposalLaws];
    the backend of the core is the record [Backend] of its answers, which may
    differ from event to event.  Keccak is assumed not to collide on the values
    in play ([collision_free], [map_known]), never to be injective; runs of the
    machine may end in an [accident]: two byte strings with one hash, or one whose
    hash is no scalar of the curve.

    ** Bounds and fuel

    Integers are [Z]; operations on [uint64], [int64], [uint16] and bytes wrap
    where the source does.  The loops with fuel are: [intsize] (eight
    iterations exhaust 64 bits), list decoding (every element takes a byte, so
    the number of input bytes left is enough, see [rlp_decode_terminates]),
    nesting of interface values (the length of the input), the draining of
    backlogs (the size of the queue), the search of [snapshot] ([number + 1]
    steps, see [snapshot_complete]) and its recursion through the genesis
    header (one level, since a header of number zero needs no snapshot), the
    descent into a trie ([key_fuel]: every second step takes an element of the
    key, see [trie_refines_map]), the decoding of embedded nodes (the length of
    the buffer), the loops of the sponge (the number of bytes), the sifting of
    a heap (its length), binary search (the length of the interval), the
    analysis of code (its length) and the interpreter: [run_loop] spends fuel on
    every iteration and every nested call, all of which cost gas, so that more
    fuel than gas is enough ([evm_Call_total]).

    ** Not modelled, and the plan

    Go reflection and its type cache, logging, metrics, locks and goroutines
    (events posted from goroutines are effects without an order), [Finalize],
    the RPC interface, multiplication on elliptic curves (C code), AES and RSA, and the parts of the node around the
    consensus: block execution, the transaction pool above its lists, network
    and accounts.  Of the secure trie, the key cache after a failed deletion and
    the cache of code sizes are not modelled.  Of the virtual machine, numbers
    are values: the pool that recycles integers, and instructions that share
    one integer, are not modelled, nor is tracing.  Of the interfaces of
    contracts, their JSON and Go structs are not modelled.  Next are the
    transition of a transaction, the clique engine (the same voting scheme), the
    iterators of tries, and bit and run-length codecs. *)
From stdpp Require Export prelude list gmap sorting.
From Stdlib Require Export ZArith Lia.
#[global] Open Scope Z_scope.

(** ** Machine integers

    Go's fixed-width integers are [Z] values; every operation that can leave
    the range of its type is wrapped explicitly. *)

Definition u8 (x : Z) : Z := x `mod` 2 ^ 8.
Definition u64 (x : Z) : Z := x `mod` 2 ^ 64.

(** Conversion of an integer to [int64]: two's complement of its low 64 bits. *)
Definition i64 (x : Z) : Z :=
  let y := u64 x in if y <? 2 ^ 63 then y else y - 2 ^ 64.

Definition is_byte (b : Z) : Prop := 0 <= b < 256.
Definition is_u64 (x : Z) : Prop := 0 <= x < 2 ^ 64.

Abbreviation bytes := (list Z).
Abbreviation bytes_ok := (Forall is_byte).

Definition zlen {A} (l : list A) : Z := Z.of_nat (length l).

(** ** Results of Go calls: a value, an error value, or a run-time panic. *)

Inductive outcome (E A : Type) : Type :=
| Ok (a : A)
| Err (e : E)
| Panic.
Arguments Ok {E A} a.
Arguments Err {E A} e.
Arguments Panic {E A}.

Definition obind {E A B} (x : outcome E A) (f : A -> outcome E B) : outcome E B :=
  match x with Ok a => f a | Err e => Err e | Panic => Panic end.

Declare Scope go_scope.
Delimit Scope go_scope with go.
Notation "'let!' x ':=' c 'in' k" := (obind c (fun x => k))
  (at level 10, x pattern, c at level 100, k at level 200) : go_scope.
#[global] Open Scope go_scope.

(** ** Automation *)

Create HintDb bytes_db.
Create Rewrite HintDb bytes_db.
Create HintDb rlp_db.

(** Turn boolean comparisons of the source into the propositions they decide. *)
Ltac zbool :=
  repeat match goal with
  | H : (_ <? _) = true |- _ => apply Z.ltb_lt in H
  | H : (_ <? _) = false |- _ => apply Z.ltb_ge in H
  | H : (_ <=? _) = true |- _ => apply Z.leb_le in H
  | H : (_ <=? _) = false |- _ => apply Z.leb_gt in H
  | H : (_ =? _) = true |- _ => apply Z.eqb_eq in H
  | H : (_ =? _) = false |- _ => apply Z.eqb_neq in H
  | H : (_ >? _) = true |- _ => rewrite Z.gtb_ltb in H
  | H : (_ >? _) = false |- _ => rewrite Z.gtb_ltb in H
  | H : (_ >=? _) = true |- _ => rewrite Z.geb_leb in H
  | H : (_ >=? _) = false |- _ => rewrite Z.geb_leb in H
  | H : (_ && _)%bool = true |- _ => apply andb_true_iff in H; destruct H
  | H : (_ || _)%bool = false |- _ => apply orb_false_iff in H; destruct H
  | H : negb _ = true |- _ => apply negb_true_iff in H
  | H : negb _ = false |- _ => apply negb_false_iff in H
  end.

(** Case analysis on the tests of a goal, in program order. *)
Ltac zcase :=
  match goal with
  | |- context [if ?b then _ else _] =>
      lazymatch type of b with bool => destruct b eqn:?; zbool end
  end.

Ltac zcases := repeat (zcase; try lia).

(** ** Byte strings *)

Lemma zlen_app {A} (l1 l2 : list A) : zlen (l1 ++ l2) = zlen l1 + zlen l2.
Proof. unfold zlen. rewrite length_app. lia. Qed.

Lemma zlen_cons {A} (x : A) l : zlen (x :: l) = 1 + zlen l.
Proof. unfold zlen. simpl. lia. Qed.

Lemma zlen_nil {A} : zlen (@nil A) = 0.
Proof. reflexivity. Qed.

Lemma zlen_nonneg {A} (l : list A) : 0 <= zlen l.
Proof. unfold zlen. lia. Qed.

Lemma zlen_map_length {A B} (f : A -> B) (l : list A) : zlen (map f l) = zlen l.
Proof. unfold zlen. by rewrite length_map. Qed.

Lemma lookup_map {A B} (f : A -> B) (l : list A) i : map f l !! i = f <$> l !! i.
Proof. revert i. induction l as [|x l IH]; intros [|i]; simpl; auto. Qed.

Lemma zlen_0_inv {A} (l : list A) : zlen l = 0 -> l = [].
Proof. destruct l; [done|]. rewrite zlen_cons. pose proof (zlen_nonneg l). lia. Qed.

Lemma take_zlen_app {A} (l1 l2 : list A) : take (Z.to_nat (zlen l1)) (l1 ++ l2) = l1.
Proof. unfold zlen. by rewrite Nat2Z.id, take_app_length. Qed.

Lemma drop_zlen_app {A} (l1 l2 : list A) : drop (Z.to_nat (zlen l1)) (l1 ++ l2) = l2.
Proof. unfold zlen. by rewrite Nat2Z.id, drop_app_length. Qed.

#[export] Hint Rewrite @zlen_app @zlen_cons @zlen_nil : bytes_db.
#[export] Hint Resolve zlen_nonneg : bytes_db.

(** Solve a goal about lengths of byte strings. *)
Ltac zlen_lia :=
  autorewrite with bytes_db in *;
  repeat match goal with
  | |- context [zlen ?l] =>
      lazymatch goal with
      | _ : 0 <= zlen l |- _ => fail
      | _ => pose proof (zlen_nonneg l)
      end
  | _ : context [zlen ?l] |- _ =>
      lazymatch goal with
      | _ : 0 <= zlen l |- _ => fail
      | _ => pose proof (zlen_nonneg l)
      end
  end; lia.

Lemma u8_byte x : is_byte (u8 x).
Proof. unfold u8, is_byte. apply (Z.mod_pos_bound x 256). lia. Qed.

Lemma u8_id x : is_byte x -> u8 x = x.
Proof. unfold u8, is_byte. intros. by apply Z.mod_small. Qed.

Lemma u64_id x : is_u64 x -> u64 x = x.
Proof. unfold u64, is_u64. intros. by apply Z.mod_small. Qed.

Lemma u64_range x : is_u64 (u64 x).
Proof. apply Z.mod_pos_bound. lia. Qed.

#[export] Hint Resolve u8_byte u64_range : bytes_db.

(** *** Big-endian integers: [big.Int.SetBytes] and [big.Int.Bytes] *)

Fixpoint be_acc (acc : Z) (b : bytes) : Z :=
  match b with [] => acc | x :: b' => be_acc (acc * 256 + x) b' end.

Definition be_value (b : bytes) : Z := be_acc 0 b.

(** The low [k] bytes of [n], most significant first. *)
Fixpoint be_pad (k : nat) (n : Z) : bytes :=
  match k with
  | O => []
  | S k' => be_pad k' (n / 256) ++ [n `mod` 256]
  end.

(** Number of bytes of the shortest representation of [n]. *)
Definition byte_len (n : Z) : nat :=
  if n <=? 0 then O else Z.to_nat (Z.log2 n / 8 + 1).

Definition be_bytes (n : Z) : bytes := be_pad (byte_len n) n.

Lemma be_acc_split acc b : be_acc acc b = acc * 256 ^ zlen b + be_value b.
Proof.
  unfold be_value. revert acc. induction b as [|x b IH]; intros acc; simpl.
  - rewrite zlen_nil. lia.
  - rewrite IH, (IH (0 * 256 + x)), zlen_cons, Z.pow_add_r by zlen_lia. lia.
Qed.

Lemma be_value_app b1 b2 : be_value (b1 ++ b2) = be_value b1 * 256 ^ zlen b2 + be_value b2.
Proof.
  unfold be_value at 1.
  enough (E : forall acc, be_acc acc (b1 ++ b2) = be_acc (be_acc acc b1) b2)
    by (rewrite E, be_acc_split; done).
  induction b1 as [|x b1 IH]; intros acc; simpl; [done|apply IH].
Qed.

Lemma be_value_bound b : bytes_ok b -> 0 <= be_value b < 256 ^ zlen b.
Proof.
  induction b as [|x b IH] using rev_ind; intros Hb.
  - vm_compute. split; congruence.
  - apply Forall_app in Hb as [Hb Hx]. inversion_clear Hx. specialize (IH Hb).
    rewrite be_value_app, zlen_app. change (zlen [x]) with 1.
    rewrite Z.pow_add_r by zlen_lia. change (256 ^ 1) with 256.
    unfold be_value at 2 4. simpl. unfold is_byte in *. nia.
Qed.

Lemma length_be_pad k n : length (be_pad k n) = k.
Proof. revert n. induction k; intros n; simpl; [done|]. rewrite length_app, IHk. simpl. lia. Qed.

Lemma zlen_be_pad k n : zlen (be_pad k n) = Z.of_nat k.
Proof. unfold zlen. by rewrite length_be_pad. Qed.

Lemma be_pad_ok k n : bytes_ok (be_pad k n).
Proof.
  revert n. induction k; intros n; simpl; [done|].
  apply Forall_app; split; [apply IHk|]. constructor; [|done].
  apply Z.mod_pos_bound. lia.
Qed.

Lemma be_value_pad k n : 0 <= n -> be_value (be_pad k n) = n `mod` 256 ^ Z.of_nat k.
Proof.
  revert n. induction k as [|k IH]; intros n Hn.
  - simpl. by rewrite Z.mod_1_r.
  - simpl be_pad. rewrite be_value_app, IH by (apply Z.div_pos; lia).
    change (zlen [n `mod` 256]) with 1. change (256 ^ 1) with 256.
    replace (Z.of_nat (S k)) with (1 + Z.of_nat k) by lia.
    rewrite Z.pow_add_r, Z.rem_mul_r by lia. change (256 ^ 1) with 256.
    unfold be_value. simpl. lia.
Qed.

Lemma be_pad_value b : bytes_ok b -> be_pad (length b) (be_value b) = b.
Proof.
  induction b as [|x b IH] using rev_ind; intros Hb; [done|].
  apply Forall_app in Hb as [Hb Hx]. inversion_clear Hx as [|? ? Hx' _].
  rewrite length_app, Nat.add_comm. simpl. rewrite be_value_app.
  change (256 ^ zlen [x]) with 256. change (be_value [x]) with x.
  unfold is_byte in Hx'.
  replace ((be_value b * 256 + x) / 256) with (be_value b)
    by (rewrite Z.div_add_l, Z.div_small by lia; lia).
  replace ((be_value b * 256 + x) `mod` 256) with x
    by (rewrite Z.add_comm, Z_mod_plus_full, Z.mod_small; lia).
  by rewrite IH.
Qed.

(** [byte_len] is the least width that holds [n]. *)
Lemma byte_len_bounds n :
  0 < n -> 256 ^ (Z.of_nat (byte_len n) - 1) <= n < 256 ^ Z.of_nat (byte_len n).
Proof.
  intros Hn. unfold byte_len. destruct (n <=? 0) eqn:E; zbool; [lia|].
  pose proof (Z.log2_nonneg n) as H0. pose proof (Z.log2_spec n Hn) as [H1 H2].
  pose proof (Z.div_mod (Z.log2 n) 8 ltac:(lia)) as D.
  pose proof (Z.mod_pos_bound (Z.log2 n) 8 ltac:(lia)) as M.
  assert (0 <= Z.log2 n / 8) by (apply Z.div_pos; lia).
  rewrite Z2Nat.id by lia. change 256 with (2 ^ 8).
  rewrite <- !Z.pow_mul_r by lia. split.
  - etrans; [|exact H1]. apply Z.pow_le_mono_r; lia.
  - eapply Z.lt_le_trans; [exact H2|]. apply Z.pow_le_mono_r; lia.
Qed.

Lemma byte_len_unique n k :
  (0 < k)%nat -> 256 ^ (Z.of_nat k - 1) <= n < 256 ^ Z.of_nat k -> byte_len n = k.
Proof.
  intros Hk Hn. assert (0 < n) by (pose proof (Z.pow_pos_nonneg 256 (Z.of_nat k - 1)); lia).
  pose proof (byte_len_bounds n ltac:(done)) as Hb.
  assert (byte_len n <> O) by (intros E; rewrite E in Hb; simpl in Hb; lia).
  destruct (Nat.lt_trichotomy (byte_len n) k) as [L|[E|L]]; [|done|].
  - pose proof (Z.pow_le_mono_r 256 (Z.of_nat (byte_len n)) (Z.of_nat k - 1)). lia.
  - pose proof (Z.pow_le_mono_r 256 (Z.of_nat k) (Z.of_nat (byte_len n) - 1)). lia.
Qed.

Lemma be_bytes_ok n : bytes_ok (be_bytes n).
Proof. apply be_pad_ok. Qed.

Lemma be_value_bytes n : 0 <= n -> be_value (be_bytes n) = n.
Proof.
  intros Hn. unfold be_bytes. rewrite be_value_pad by done.
  destruct (Z.eq_dec n 0) as [->|]; [done|].
  apply Z.mod_small. pose proof (byte_len_bounds n). lia.
Qed.

(** A byte string without a leading zero is the shortest encoding of its value. *)
Lemma be_bytes_value x b : bytes_ok (x :: b) -> x <> 0 -> be_bytes (be_value (x :: b)) = x :: b.
Proof.
  intros Hb Hx. unfold be_bytes.
  rewrite (byte_len_unique _ (length (x :: b))); [by apply be_pad_value|simpl; lia|].
  change (Z.of_nat (length (x :: b))) with (zlen (x :: b)).
  pose proof (be_value_bound _ Hb) as H1. split; [|lia].
  change (x :: b) with ([x] ++ b). rewrite be_value_app, zlen_app.
  change (zlen [x]) with 1. change (be_value [x]) with x.
  replace (1 + zlen b - 1) with (zlen b) by lia.
  inversion_clear Hb as [|? ? Hx' Hb']. pose proof (be_value_bound _ Hb').
  unfold is_byte in Hx'. nia.
Qed.

Lemma be_bytes_head n x b : 0 < n -> be_bytes n = x :: b -> x <> 0.
Proof.
  intros Hn E ->. pose proof (be_value_bytes n ltac:(lia)) as V.
  pose proof (be_bytes_ok n) as Hok. pose proof (byte_len_bounds n Hn) as B.
  assert (L : zlen (be_bytes n) = Z.of_nat (byte_len n)) by apply zlen_be_pad.
  rewrite E in *. inversion_clear Hok as [|? ? _ Hb]. pose proof (be_value_bound _ Hb) as B2.
  change (0 :: b) with ([0] ++ b) in V. rewrite be_value_app in V.
  change (be_value [0]) with 0 in V. rewrite zlen_cons in L.
  replace (Z.of_nat (byte_len n) - 1) with (zlen b) in B by lia. lia.
Qed.

#[export] Hint Resolve be_pad_ok be_bytes_ok : bytes_db.

(** Byte strings in range, decided. *)
Definition byteb (b : Z) : bool := (0 <=? b) && (b <? 256).
Definition bytesb (l : bytes) (n : Z) : bool := forallb byteb l && (zlen l =? n).

Lemma bytesb_ok l n : bytesb l n = true -> bytes_ok l /\ zlen l = n.
Proof.
  unfold bytesb. intros E. zbool. split; [|done]. rewrite forallb_forall in H.
  apply Forall_forall. intros x Hx%list_elem_of_In. specialize (H x Hx). unfold byteb in H. zbool.
  unfold is_byte. lia.
Qed.

(** Copying into a slice: [storage[off:off+len(b)] = b], in place. *)
Definition store_at (off : nat) (b storage : bytes) : bytes :=
  take off storage ++ b ++ drop (off + length b) storage.

Lemma store_at_length off b s : (off + length b <= length s)%nat -> length (store_at off b s) = length s.
Proof. intros Hl. unfold store_at. rewrite !length_app, length_take, length_drop. lia. Qed.

Lemma store_at_take off b s : (off <= length s)%nat ->
  take (off + length b) (store_at off b s) = take off s ++ b.
Proof.
  intros Hl. unfold store_at. rewrite app_assoc, take_app_le by (rewrite length_app, length_take; lia).
  apply take_ge. rewrite length_app, length_take. lia.
Qed.

(** Iteration over a Go map visits the entries in an unspecified order. *)
Class GoRange := { go_range {A} : list A -> list A }.
Class GoRangeLaws `{GoRange} := { go_range_perm {A} (l : list A) : go_range l ≡ₚ l }.

(** ** Lists *)

Lemma filter_all {A} (P : A -> Prop) `{forall x, Decision (P x)} (l : list A) : Forall P l -> filter P l = l.
Proof. induction 1; [done|]. rewrite filter_cons_True by done. by f_equal. Qed.

Lemma filter_none {A} (P : A -> Prop) `{forall x, Decision (P x)} (l : list A) : Forall (fun x => ~ P x) l -> filter P l = [].
Proof. induction 1 as [|x l Hx _ IH]; [done|]. by rewrite filter_cons_False. Qed.
