(* ===== verification/BigMath.v ===== *)
(** Integers of the standard library and of [common/math]: [common/math/big.go]
    and [common/math/integer.go].

    A [*big.Int] is a [Z].  Functions that write into their argument return what
    they leave in it. *)
From S2P Require Import Prelude.

(** ** [big.Int] *)

(** [big.Int.Uint64] and [big.Int.Int64]: the low 64 bits of the magnitude. *)
Definition big_Uint64 (x : Z) : Z := u64 (Z.abs x).
Definition big_Int64 (x : Z) : Z := i64 (Z.sgn x * i64 (Z.abs x)).

Definition big_BitLen (x : Z) : Z := if x =? 0 then 0 else Z.log2 (Z.abs x) + 1.

Definition wordBits : nat := 64.
Definition wordBytes : nat := 8.

(** The words of [x], least significant first. *)
Fixpoint words_of (n : nat) (x : Z) : list Z :=
  match n with O => [] | S n' => x `mod` 2 ^ 64 :: words_of n' (x / 2 ^ 64) end.

(** [big.Int.Bits] *)
Definition big_Bits (x : Z) : list Z := words_of (Z.to_nat ((big_BitLen x + 63) / 64)) (Z.abs x).

(** ** [common/math/big.go] *)

Definition tt255 : Z := 2 ^ 255.
Definition tt256 : Z := 2 ^ 256.
Definition tt256m1 : Z := tt256 - 1.
Definition MaxBig256 : Z := tt256m1.
Definition MaxBig63 : Z := 2 ^ 63 - 1.

Definition BigPow (a b : Z) : Z := a ^ b.
Definition BigMax (x y : Z) : Z := if x <? y then y else x.
Definition BigMin (x y : Z) : Z := if x >? y then y else x.

Definition FirstBitSet (v : Z) : Z :=
  (fix loop (n : nat) (i : Z) : Z :=
     match n with
     | O => big_BitLen v
     | S n' => if Z.testbit v i then i else loop n' (i + 1)
     end) (Z.to_nat (big_BitLen v)) 0.

(** One word of [ReadBits]: [i] bytes of the buffer are left to fill. *)
Fixpoint read_word (j : nat) (d : Z) (i : nat) (buf : bytes) : nat * bytes :=
  match j, i with
  | S j', S i' => read_word j' (Z.shiftr d 8) i' (<[i' := u8 d]> buf)
  | _, _ => (i, buf)
  end.

Fixpoint read_words (ws : list Z) (i : nat) (buf : bytes) : bytes :=
  match ws with
  | [] => buf
  | d :: ws' => let '(i, buf) := read_word wordBytes d i buf in read_words ws' i buf
  end.

Definition ReadBits (bigint : Z) (buf : bytes) : bytes := read_words (big_Bits bigint) (length buf) buf.

Definition PaddedBigBytes (bigint : Z) (n : Z) : bytes :=
  if big_BitLen bigint / 8 >=? n then be_bytes (Z.abs bigint) else ReadBits bigint (replicate (Z.to_nat n) 0).

Definition bigEndianByteAt (bigint : Z) (n : Z) : Z :=
  match big_Bits bigint !! Z.to_nat (n / 8) with
  | None => 0
  | Some word => u8 (Z.shiftr word (8 * (n `mod` 8)))
  end.

Definition Byte (bigint padlength n : Z) : Z :=
  if n >=? padlength then 0 else bigEndianByteAt bigint (padlength - 1 - n).

Definition U256 (x : Z) : Z := Z.land x tt256m1.

Definition S256 (x : Z) : Z := if x <? tt255 then x else x - tt256.

(** One word of the exponent: the result and the base. *)
Fixpoint exp_word (i : nat) (word result base : Z) : Z * Z :=
  match i with
  | O => (result, base)
  | S i' =>
      let result := if Z.land word 1 =? 1 then U256 (result * base) else result in
      exp_word i' (Z.shiftr word 1) result (U256 (base * base))
  end.

Fixpoint exp_words (ws : list Z) (result base : Z) : Z * Z :=
  match ws with
  | [] => (result, base)
  | w :: ws' => let '(result, base) := exp_word wordBits w result base in exp_words ws' result base
  end.

(** [Exp]: the result, and what is left in the base. *)
Definition Exp (base exponent : Z) : Z * Z := exp_words (big_Bits exponent) 1 base.

(** ** [common/math/integer.go] *)

Definition MaxUint64 : Z := 2 ^ 64 - 1.

Definition SafeSub (x y : Z) : Z * bool := (u64 (x - y), x <? y).
Definition SafeAdd (x y : Z) : Z * bool := (u64 (x + y), y >? MaxUint64 - x).
Definition SafeMul (x y : Z) : Z * bool :=
  if (x =? 0) || (y =? 0) then (0, false) else (u64 (x * y), y >? MaxUint64 / x).

(** ** Lemmas *)

Lemma big_BitLen_bound x n : 0 <= n -> big_BitLen x <= n -> Z.abs x < 2 ^ n.
Proof.
  intros Hn. unfold big_BitLen. destruct (Z.eqb_spec x 0) as [->|]; [intros; simpl; lia|].
  intros Hl. apply Z.log2_lt_pow2; lia.
Qed.

Lemma big_BitLen_ge x n : 0 <= n -> n < big_BitLen x -> 2 ^ n <= Z.abs x.
Proof.
  intros Hn. unfold big_BitLen. destruct (Z.eqb_spec x 0) as [->|]; [lia|].
  intros Hl. apply Z.log2_le_pow2; lia.
Qed.

Lemma big_BitLen_nonneg x : 0 <= big_BitLen x.
Proof. unfold big_BitLen. destruct (x =? 0); [lia|]. pose proof (Z.log2_nonneg (Z.abs x)). lia. Qed.

Lemma big_BitLen_le x n : 0 <= n -> Z.abs x < 2 ^ n -> big_BitLen x <= n.
Proof. intros Hn Hx. destruct (Z.le_gt_cases (big_BitLen x) n) as [|Hl]; [done|]. apply big_BitLen_ge in Hl; lia. Qed.

Lemma big_Uint64_id x : is_u64 x -> big_Uint64 x = x.
Proof. intros Hx. unfold big_Uint64. rewrite Z.abs_eq by (unfold is_u64 in Hx; lia). by apply u64_id. Qed.

Lemma i64_id x : 0 <= x < 2 ^ 63 -> i64 x = x.
Proof.
  intros Hx. unfold i64. assert (2 ^ 63 < 2 ^ 64) by reflexivity. rewrite u64_id by (unfold is_u64; lia).
  destruct (Z.ltb_spec x (2 ^ 63)); [done|lia].
Qed.

Lemma big_Int64_id x : 0 <= x < 2 ^ 63 -> big_Int64 x = x.
Proof.
  intros Hx. unfold big_Int64. rewrite Z.abs_eq, (i64_id x) by lia.
  replace (Z.sgn x * x) with x by (destruct (Z.eq_dec x 0) as [->|]; [done|]; rewrite (proj2 (Z.sgn_pos_iff x)) by lia; lia). by apply i64_id.
Qed.

(** The value of words. *)
Fixpoint le_value (ws : list Z) : Z := match ws with [] => 0 | w :: ws' => w + 2 ^ 64 * le_value ws' end.

Lemma le_value_words n : forall x, 0 <= x -> le_value (words_of n x) = x `mod` 2 ^ (64 * Z.of_nat n).
Proof.
  induction n as [|n IH]; intros x Hx.
  - simpl. by rewrite Z.mod_1_r.
  - cbn [words_of le_value]. rewrite IH by (apply Z.div_pos; lia).
    replace (64 * Z.of_nat (S n)) with (64 + 64 * Z.of_nat n) by lia.
    rewrite Z.pow_add_r by lia. rewrite Z.rem_mul_r by lia. done.
Qed.

Lemma words_of_range n : forall x, Forall is_u64 (words_of n x).
Proof. induction n; intros x; simpl; constructor; auto. apply Z.mod_pos_bound. lia. Qed.

Lemma le_value_Bits x : 0 <= x -> le_value (big_Bits x) = x.
Proof.
  intros Hx. unfold big_Bits. rewrite Z.abs_eq, le_value_words by done.
  pose proof (big_BitLen_nonneg x). rewrite Z2Nat.id by (apply Z.div_pos; lia).
  apply Z.mod_small. split; [done|]. rewrite <- (Z.abs_eq x) at 1 by done.
  eapply Z.lt_le_trans; [apply (big_BitLen_bound x (big_BitLen x)); lia|].
  apply Z.pow_le_mono_r; [lia|]. pose proof (Z.div_mod (big_BitLen x + 63) 64). pose proof (Z.mod_pos_bound (big_BitLen x + 63) 64). lia.
Qed.

(** *** Byte buffers *)

Lemma be_pad_mod k : forall n m, n `mod` 256 ^ Z.of_nat k = m `mod` 256 ^ Z.of_nat k -> be_pad k n = be_pad k m.
Proof.
  induction k as [|k IH]; intros n m H; [done|].
  replace (Z.of_nat (S k)) with (1 + Z.of_nat k) in H by lia.
  rewrite !Z.pow_add_r, !Z.rem_mul_r in H by lia. change (256 ^ 1) with 256 in H.
  pose proof (Z.mod_pos_bound n 256). pose proof (Z.mod_pos_bound m 256).
  pose proof (Z.mod_pos_bound (n / 256) (256 ^ Z.of_nat k)). pose proof (Z.mod_pos_bound (m / 256) (256 ^ Z.of_nat k)).
  simpl. f_equal; [apply IH; lia|]. f_equal. lia.
Qed.

Lemma be_pad_app b : forall a n, be_pad (a + b) n = be_pad a (n / 256 ^ Z.of_nat b) ++ be_pad b n.
Proof.
  induction b as [|b IH]; intros a n.
  - rewrite Nat.add_0_r. simpl. by rewrite Z.div_1_r, app_nil_r.
  - rewrite Nat.add_succ_r. simpl. rewrite IH, <- app_assoc. f_equal. f_equal.
    rewrite Z.div_div by (try apply Z.pow_pos_nonneg; lia). f_equal.
    replace (Z.of_nat (S b)) with (1 + Z.of_nat b) by lia. by rewrite Z.pow_add_r by lia.
Qed.

Lemma be_pad_0 k : be_pad k 0 = replicate k 0.
Proof. induction k as [|k IH]; [done|]. simpl be_pad. change (0 / 256) with 0. change (0 `mod` 256) with 0. by rewrite IH, replicate_S_end. Qed.

Lemma read_word_ok j : forall d i pre suf, length pre = i ->
  read_word j d i (pre ++ suf) = ((i - Nat.min j i)%nat, take (i - Nat.min j i) pre ++ be_pad (Nat.min j i) d ++ suf).
Proof.
  induction j as [|j IH]; intros d i pre suf Hl; [simpl; rewrite Nat.sub_0_r, firstn_all2 by lia; done|].
  destruct i as [|i]; [simpl; by destruct pre|].
  destruct pre as [|x pre _] using rev_ind; [done|]. rewrite length_app in Hl. simpl in Hl.
  cbn [read_word]. rewrite <- app_assoc, insert_app_r_alt by lia. replace (i - length pre)%nat with O by lia. simpl.
  rewrite IH by lia. f_equal. rewrite take_app_le by lia. f_equal. rewrite <- !app_assoc. simpl.
  by rewrite Z.shiftr_div_pow2 by lia.
Qed.

Lemma read_words_ok ws : forall i suf, Forall is_u64 ws -> read_words ws i (replicate i 0 ++ suf) = be_pad i (le_value ws) ++ suf.
Proof.
  induction ws as [|w ws IH]; intros i suf Hw; [simpl; by rewrite be_pad_0|].
  inversion_clear Hw as [|? ? Hx Hws]. cbn [read_words le_value].
  rewrite read_word_ok by apply length_replicate. rewrite take_replicate, (Nat.min_l (i - _)) by lia. rewrite IH by done.
  rewrite app_assoc. f_equal. unfold wordBytes. destruct (Nat.le_gt_cases 8 i) as [Hi|Hi].
  - rewrite Nat.min_l by lia. replace i with ((i - 8) + 8)%nat at 2 by lia. rewrite be_pad_app.
    change (256 ^ Z.of_nat 8) with (2 ^ 64). unfold is_u64 in Hx.
    replace ((w + 2 ^ 64 * le_value ws) / 2 ^ 64) with (le_value ws)
      by (rewrite Z.add_comm, Z.mul_comm, Z.div_add_l, Z.div_small; lia).
    f_equal. apply be_pad_mod. change (256 ^ Z.of_nat 8) with (2 ^ 64). by rewrite Z.mul_comm, Z_mod_plus_full.
  - rewrite Nat.min_r, Nat.sub_diag by lia. simpl. apply be_pad_mod.
    replace (2 ^ 64) with (256 ^ (8 - Z.of_nat i) * 256 ^ Z.of_nat i) by (rewrite <- Z.pow_add_r by lia; by replace (8 - Z.of_nat i + Z.of_nat i) with 8 by lia).
    rewrite <- Z.mul_assoc, (Z.mul_comm (256 ^ Z.of_nat i)), Z.mul_assoc. by rewrite Z_mod_plus_full.
Qed.

(** The padded bytes of an integer that fits are its big-endian digits. *)
Lemma PaddedBigBytes_ok x n : 0 <= n -> 0 <= x < 256 ^ n -> PaddedBigBytes x n = be_pad (Z.to_nat n) x.
Proof.
  intros Hn Hx. unfold PaddedBigBytes. destruct (big_BitLen x / 8 >=? n) eqn:E; zbool.
  - unfold be_bytes. rewrite Z.abs_eq by lia. f_equal.
    destruct (Z.eq_dec n 0) as [->|]; [simpl in Hx; by replace x with 0 by lia|].
    pose proof (Z.mul_div_le (big_BitLen x) 8). apply byte_len_unique; [lia|].
    assert (8 * n - 1 < big_BitLen x) as Hb by lia. apply big_BitLen_ge in Hb; [|lia].
    rewrite Z2Nat.id by lia. rewrite Z.abs_eq in Hb by lia. split; [|lia].
    etrans; [|exact Hb]. change 256 with (2 ^ 8). rewrite <- Z.pow_mul_r by lia. apply Z.pow_le_mono_r; lia.
  - unfold ReadBits. rewrite <- (app_nil_r (replicate _ _)) at 2. rewrite length_replicate, read_words_ok by apply words_of_range.
    by rewrite le_value_Bits, app_nil_r by lia.
Qed.

(** *** Words of 256 bits *)

Definition is_word (x : Z) : Prop := 0 <= x < 2 ^ 256.

Lemma U256_mod x : U256 x = x `mod` 2 ^ 256.
Proof. unfold U256, tt256m1, tt256. change (2 ^ 256 - 1) with (Z.ones 256). by rewrite Z.land_ones by lia. Qed.

Lemma U256_word x : is_word (U256 x).
Proof. rewrite U256_mod. apply Z.mod_pos_bound. lia. Qed.

Lemma U256_id x : is_word x -> U256 x = x.
Proof. intros. rewrite U256_mod. by apply Z.mod_small. Qed.

Lemma S256_range x : is_word x -> - 2 ^ 255 <= S256 x < 2 ^ 255.
Proof. unfold is_word, S256, tt255, tt256. intros. change (2 ^ 256) with (2 * 2 ^ 255) in *. zcases. Qed.

(** Encoding and reading a signed word are inverse. *)
Lemma U256_S256 x : is_word x -> U256 (S256 x) = x.
Proof.
  intros Hx. rewrite U256_mod. unfold S256, tt256. destruct (x <? tt255); [by apply Z.mod_small|].
  replace (x - 2 ^ 256) with (x + (-1) * 2 ^ 256) by lia. rewrite Z_mod_plus_full. by apply Z.mod_small.
Qed.

Lemma S256_U256 x : - 2 ^ 255 <= x < 2 ^ 255 -> S256 (U256 x) = x.
Proof.
  intros Hx. rewrite U256_mod. assert (2 ^ 256 = 2 * 2 ^ 255) as E by reflexivity. unfold S256, tt255, tt256.
  destruct (Z.le_gt_cases 0 x).
  - rewrite Z.mod_small by lia. zcases.
  - replace x with (x + 2 ^ 256 + (-1) * 2 ^ 256) by lia. rewrite Z_mod_plus_full, Z.mod_small by lia. zcases.
Qed.

(** *** Exponentiation *)

Lemma exp_word_ok i : forall w r b, 0 <= w -> is_word r ->
  exists b', exp_word i w r b = ((r * b ^ (w `mod` 2 ^ Z.of_nat i)) `mod` 2 ^ 256, b') /\ b' `mod` 2 ^ 256 = b ^ (2 ^ Z.of_nat i) `mod` 2 ^ 256.
Proof.
  induction i as [|i IH]; intros w r b Hw Hr.
  - exists b. simpl. rewrite Z.mod_1_r, Z.pow_0_r, Z.mul_1_r, Z.pow_1_r, Z.mod_small by done. done.
  - cbn [exp_word]. assert (Z.land w 1 = w `mod` 2) as -> by (apply (Z.land_ones w 1); lia).
    rewrite Z.shiftr_div_pow2 by lia. change (2 ^ 1) with 2.
    assert (0 <= w / 2) by (apply Z.div_pos; lia). pose proof (Z.mod_pos_bound w 2).
    set (r' := if w `mod` 2 =? 1 then _ else _).
    assert (r' = (r * b ^ (w `mod` 2)) `mod` 2 ^ 256 /\ is_word r') as [Er Hr'].
    { subst r'. destruct (Z.eqb_spec (w `mod` 2) 1) as [->|].
      - rewrite Z.pow_1_r. split; [apply U256_mod|apply U256_word].
      - replace (w `mod` 2) with 0 by lia. rewrite Z.pow_0_r, Z.mul_1_r. split; [symmetry; by apply Z.mod_small|done]. }
    destruct (IH (w / 2) r' (U256 (b * b)) ltac:(done) Hr') as (b' & E & Eb). exists b'.
    assert (forall k, 0 <= k -> (U256 (b * b)) ^ k `mod` 2 ^ 256 = b ^ (2 * k) `mod` 2 ^ 256) as P.
    { intros k Hk. rewrite U256_mod, Z.mod_pow_l.
      by rewrite Z.pow_mul_r, Z.pow_2_r by lia. }
    replace (Z.of_nat (S i)) with (1 + Z.of_nat i) by lia. rewrite Z.pow_add_r by lia. change (2 ^ 1) with 2. split.
    + rewrite E. f_equal. rewrite Z.mul_mod, P, Er by (try apply Z.mod_pos_bound; lia). rewrite Z.mod_mod, <- Z.mul_mod by lia.
      rewrite <- Z.mul_assoc, <- Z.pow_add_r by (pose proof (Z.mod_pos_bound (w / 2) (2 ^ Z.of_nat i)); lia).
      by rewrite Z.rem_mul_r by lia.
    + rewrite Eb, P by lia. done.
Qed.

Lemma exp_words_ok ws : forall r b, Forall is_u64 ws -> is_word r -> (exp_words ws r b).1 = (r * b ^ le_value ws) `mod` 2 ^ 256.
Proof.
  induction ws as [|w ws IH]; intros r b Hw Hr.
  - simpl. rewrite Z.pow_0_r, Z.mul_1_r. symmetry. by apply Z.mod_small.
  - inversion_clear Hw as [|? ? Hx Hws]. unfold is_u64 in Hx. cbn [exp_words le_value].
    assert (0 <= le_value ws) as HL by (clear -Hws; induction Hws; simpl; unfold is_u64 in *; lia).
    assert (w `mod` 2 ^ 64 = w) as Ew by (by apply Z.mod_small).
    assert (b ^ (w + 2 ^ 64 * le_value ws) = b ^ w * (b ^ 2 ^ 64) ^ le_value ws) as ->
      by (rewrite Z.pow_add_r, Z.pow_mul_r by (done || lia); done).
    destruct (exp_word_ok wordBits w r b ltac:(lia) Hr) as (b' & -> & Eb).
    change (2 ^ Z.of_nat wordBits) with (2 ^ 64) in *. rewrite Ew. generalize dependent (b ^ 2 ^ 64). intros B Eb.
    rewrite IH; [|exact Hws|by apply Z.mod_pos_bound].
    rewrite Z.mul_mod_idemp_l, Z.mul_assoc by lia.
    rewrite (Z.mul_mod _ (b' ^ _)), (Z.mul_mod _ (B ^ _)) by lia. do 2 f_equal.
    by rewrite <- Z.mod_pow_l, Eb, Z.mod_pow_l.
Qed.

(** Exponentiation by squaring computes the power modulo [2^256]. *)
Lemma Exp_ok b e : 0 <= e -> (Exp b e).1 = b ^ e `mod` 2 ^ 256.
Proof. intros He. unfold Exp. rewrite exp_words_ok, le_value_Bits, Z.mul_1_l by (done || apply words_of_range || (unfold is_word; lia)). done. Qed.

(** *** Bytes of a word *)

Lemma words_lookup n : forall x i, (i < n)%nat -> words_of n x !! i = Some ((x / 2 ^ (64 * Z.of_nat i)) `mod` 2 ^ 64).
Proof.
  induction n as [|n IH]; intros x i Hi; [lia|]. destruct i as [|i]; [simpl; by rewrite Z.div_1_r|].
  cbn [words_of lookup list_lookup]. rewrite (IH (x / 2 ^ 64)) by lia. rewrite Z.div_div by (try apply Z.pow_pos_nonneg; lia).
  rewrite <- Z.pow_add_r by lia. do 4 f_equal. lia.
Qed.

Lemma length_words_of n x : length (words_of n x) = n.
Proof. revert x. induction n; intros; simpl; auto. Qed.

Lemma bigEndianByteAt_ok x n : 0 <= x -> 0 <= n -> bigEndianByteAt x n = (x / 256 ^ n) `mod` 256.
Proof.
  intros Hx Hn. unfold bigEndianByteAt, big_Bits. rewrite Z.abs_eq by done. pose proof (big_BitLen_nonneg x).
  set (k := Z.to_nat ((big_BitLen x + 63) / 64)). pose proof (Z.div_mod n 8). pose proof (Z.mod_pos_bound n 8).
  assert (0 <= n / 8) by (apply Z.div_pos; lia). change 256 with (2 ^ 8).
  destruct (Nat.lt_ge_cases (Z.to_nat (n / 8)) k) as [Hk|Hk].
  - rewrite words_lookup by done. rewrite Z2Nat.id by done. unfold u8. rewrite Z.shiftr_div_pow2 by lia.
    apply Z.bits_inj'. intros j Hj. rewrite <- Z.pow_mul_r by lia. rewrite <- !Z.shiftr_div_pow2 by lia.
    rewrite <- !Z.land_ones by lia. rewrite !Z.land_spec. destruct (Z.lt_ge_cases j 8).
    + rewrite !Z.shiftr_spec, Z.land_spec, !Z.shiftr_spec by lia. rewrite (Z.ones_spec_low 64), andb_true_r by lia. do 2 f_equal. lia.
    + by rewrite !Z.ones_spec_high, !andb_false_r by lia.
  - rewrite lookup_ge_None_2 by (by rewrite length_words_of). rewrite Z.div_small; [done|]. split; [done|].
    rewrite <- (Z.abs_eq x) at 1 by done. eapply Z.lt_le_trans; [apply (big_BitLen_bound x (big_BitLen x)); lia|].
    rewrite <- Z.pow_mul_r by lia. apply Z.pow_le_mono_r; [lia|]. subst k.
    pose proof (Z.div_mod (big_BitLen x + 63) 64). pose proof (Z.mod_pos_bound (big_BitLen x + 63) 64). lia.
Qed.

(** *** Checked arithmetic *)

Lemma SafeAdd_ok x y : is_u64 x -> is_u64 y -> SafeAdd x y = if x + y <? 2 ^ 64 then (x + y, false) else (x + y - 2 ^ 64, true).
Proof.
  unfold is_u64, SafeAdd, MaxUint64. intros. destruct (Z.ltb_spec (x + y) (2 ^ 64)).
  - rewrite u64_id by (unfold is_u64; lia). f_equal. rewrite Z.gtb_ltb. apply Z.ltb_ge. lia.
  - f_equal; [|rewrite Z.gtb_ltb; apply Z.ltb_lt; lia]. unfold u64.
    replace (x + y) with (x + y - 2 ^ 64 + 1 * 2 ^ 64) at 1 by lia. rewrite Z_mod_plus_full. apply Z.mod_small. lia.
Qed.

Lemma SafeMul_ok x y : is_u64 x -> is_u64 y -> SafeMul x y = (u64 (x * y), 2 ^ 64 <=? x * y).
Proof.
  unfold is_u64, SafeMul, MaxUint64. intros. destruct (Z.eqb_spec x 0) as [->|]; [done|].
  destruct (Z.eqb_spec y 0) as [->|]; [by rewrite Z.mul_0_r|]. simpl. f_equal. rewrite Z.gtb_ltb.
  apply eq_true_iff_eq. rewrite Z.ltb_lt, Z.leb_le.
  pose proof (Z.div_mod (2 ^ 64 - 1) x). pose proof (Z.mod_pos_bound (2 ^ 64 - 1) x). split; nia.
Qed.
