(* ===== verification/GoHeap.v ===== *)
(** Binary heaps: [container/heap] of the Go library over a slice type with the
    usual methods, which [core/tx_list.go] and [core/types/transaction.go] use.

    A heap is a list; [Less(i, j)] of the slice type is [less] of the elements.
    [up] and [down] are loops with an index that moves towards the root or away
    from it; the length of the slice bounds both. *)
From S2P Require Import Prelude.

Section Heap.
Context {A : Type} (less : A -> A -> bool).

Definition less_at (h : list A) (i j : nat) : bool :=
  match h !! i, h !! j with Some x, Some y => less x y | _, _ => false end.

Definition Swap (i j : nat) (h : list A) : list A :=
  match h !! i, h !! j with Some x, Some y => <[i := y]> (<[j := x]> h) | _, _ => h end.

Fixpoint up (fuel : nat) (h : list A) (j : nat) : list A :=
  match fuel with
  | O => h
  | S fuel' =>
      let i := ((j - 1) / 2)%nat in
      if (i =? j)%nat || negb (less_at h j i) then h else up fuel' (Swap i j h) i
  end.

(** [down]: the heap and the index where it stopped. *)
Fixpoint down_loop (fuel : nat) (h : list A) (i n : nat) : list A * nat :=
  match fuel with
  | O => (h, i)
  | S fuel' =>
      let j1 := (2 * i + 1)%nat in
      if (n <=? j1)%nat then (h, i)
      else
        let j2 := (j1 + 1)%nat in
        let j := if (j2 <? n)%nat && less_at h j2 j1 then j2 else j1 in
        if negb (less_at h j i) then (h, i) else down_loop fuel' (Swap i j h) j n
  end.

Definition down (h : list A) (i0 n : nat) : list A * bool :=
  let '(h, i) := down_loop n h i0 n in (h, (i0 <? i)%nat).

Fixpoint Init_loop (k : nat) (h : list A) : list A :=
  match k with
  | O => h
  | S i => Init_loop i (down h i (length h)).1
  end.

Definition Init (h : list A) : list A := Init_loop (length h / 2) h.

Definition Push (x : A) (h : list A) : list A := let h := h ++ [x] in up (length h) h (length h - 1).

(** The method [Pop] of the slice types: the last element is cut off. *)
Definition cut {E} (h : list A) : outcome E (A * list A) :=
  match last h with Some x => Ok (x, take (length h - 1) h) | None => Panic end.

Definition Pop {E} (h : list A) : outcome E (A * list A) :=
  match h with
  | [] => Panic
  | _ =>
      let n := (length h - 1)%nat in
      cut (down (Swap 0 n h) 0 n).1
  end.

(** An index out of range panics in [Swap]. *)
Definition Remove {E} (h : list A) (i : nat) : outcome E (A * list A) :=
  let n := (length h - 1)%nat in
  if (length h <=? i)%nat then Panic
  else if (n =? i)%nat then cut h
  else
    let '(h, moved) := down (Swap i n h) i n in
    cut (if moved then h else up (length h) h i).

Definition Fix (h : list A) (i : nat) : list A :=
  let '(h', moved) := down h i (length h) in
  if moved then h' else up (length h') h' i.

(** ** Heap order *)

Definition le (x y : A) : Prop := less y x = false.
Definition kid (p c : nat) : Prop := (c = 2 * p + 1 \/ c = 2 * p + 2)%nat.

(** All edges from [k] on are in order, but the ones that lead to [i]. *)
Definition order_but (i : option nat) (k : nat) (h : list A) (n : nat) : Prop :=
  forall p c x y, kid p c -> (k <= p)%nat -> (c < n)%nat -> Some c <> i -> h !! p = Some x -> h !! c = Some y -> le x y.

Definition heap_from (k : nat) (h : list A) (n : nat) : Prop := order_but None k h n.
Definition heap (h : list A) : Prop := heap_from 0 h (length h).

(** What is above [i] is in order with what is below it. *)
Definition bridged (k : nat) (h : list A) (n i : nat) : Prop :=
  forall p c x y, kid p i -> kid i c -> (k <= p)%nat -> (c < n)%nat -> h !! p = Some x -> h !! c = Some y -> le x y.

(** The element at [i] is anything, the rest is in order around it. *)
Definition hole (k : nat) (h : list A) (n i : nat) : Prop :=
  (forall p c x y, kid p c -> (k <= p)%nat -> (c < n)%nat -> p <> i -> c <> i -> h !! p = Some x -> h !! c = Some y -> le x y) /\
  bridged k h n i.

Lemma kid_parent p c : kid p c <-> p = ((c - 1) / 2)%nat /\ (0 < c)%nat.
Proof.
  unfold kid. pose proof (Nat.div_mod (c - 1) 2 ltac:(lia)). pose proof (Nat.mod_upper_bound (c - 1) 2 ltac:(lia)). lia.
Qed.

Lemma kid_lt p c : kid p c -> (p < c)%nat.
Proof. unfold kid. lia. Qed.

Lemma Swap_lookup i j h x y : h !! i = Some x -> h !! j = Some y ->
  forall k, Swap i j h !! k = if decide (k = i) then Some y else if decide (k = j) then Some x else h !! k.
Proof.
  intros Hi Hj k. unfold Swap. rewrite Hi, Hj. pose proof (lookup_lt_Some _ _ _ Hi). pose proof (lookup_lt_Some _ _ _ Hj).
  destruct (decide (k = i)) as [->|]; [by apply list_lookup_insert_eq; rewrite length_insert|].
  rewrite list_lookup_insert_ne by done. destruct (decide (k = j)) as [->|]; [by apply list_lookup_insert_eq|].
  by rewrite list_lookup_insert_ne.
Qed.

Lemma Swap_length i j h : length (Swap i j h) = length h.
Proof. unfold Swap. repeat case_match; by rewrite ?length_insert. Qed.

Lemma Swap_perm i j h : Swap i j h ≡ₚ h.
Proof.
  unfold Swap. destruct (h !! i) as [x|] eqn:Ei; [|done]. destruct (h !! j) as [y|] eqn:Ej; [|done].
  destruct (decide (i = j)) as [->|Hne].
  - rewrite Ei in Ej. injection Ej as <-. rewrite list_insert_insert_eq. by rewrite list_insert_id.
  - assert (G : forall i j x y, (i < j)%nat -> h !! i = Some x -> h !! j = Some y -> <[i := y]> (<[j := x]> h) ≡ₚ h).
    { clear. intros i j x y Hlt Ei Ej. pose proof (lookup_lt_Some _ _ _ Ej) as Hj.
      assert (Ej' : drop (S i) h !! (j - S i)%nat = Some y) by (rewrite lookup_drop, <- Ej; f_equal; lia).
      pose proof (take_drop_middle h i x Ei) as Eh. pose proof (take_drop_middle (drop (S i) h) (j - S i) y Ej') as Ed.
      revert Eh. rewrite <- Ed. generalize (drop (S (j - S i)) (drop (S i) h)) as l3.
      pose proof (length_take_le h i ltac:(lia)) as L1. pose proof (length_take_le (drop (S i) h) (j - S i) ltac:(rewrite length_drop; lia)) as L2.
      revert L1 L2. generalize (take i h) as l1, (take (j - S i) (drop (S i) h)) as l2. intros l1 l2 L1 L2 l3 <-.
      rewrite (insert_app_r_alt l1) by lia. replace (j - length l1)%nat with (S (j - S i)) by lia. simpl.
      rewrite (insert_app_r_alt l2) by lia. rewrite L2, Nat.sub_diag. simpl.
      rewrite (insert_app_r_alt l1) by lia. rewrite L1, Nat.sub_diag. simpl. f_equiv.
      rewrite <- !Permutation_middle. apply Permutation_swap. }
    destruct (decide (i < j)%nat); [by apply G|]. rewrite list_insert_insert_ne by done. apply G; [lia|done..].
Qed.
(** ** The loops restore the order *)

Context (less_asym : forall x y, less x y = true -> less y x = false)
  (le_trans : forall x y z, le x y -> le y z -> le x z).

Lemma le_refl x : le x x.
Proof. unfold le. destruct (less x x) eqn:E; [|done]. by rewrite (less_asym _ _ E) in E. Qed.

Lemma less_at_true h i j : less_at h i j = true -> exists x y, h !! i = Some x /\ h !! j = Some y /\ less x y = true.
Proof. unfold less_at. destruct (h !! i), (h !! j); eauto; done. Qed.

Lemma less_at_false h i j x y : less_at h i j = false -> h !! i = Some x -> h !! j = Some y -> le y x.
Proof. unfold less_at. intros E Ex Ey. by rewrite Ex, Ey in E. Qed.

(** One step up: the hole moves to the parent. *)
Lemma up_step h n i j : kid i j -> (j < n)%nat -> less_at h j i = true ->
  order_but (Some j) 0 h n -> bridged 0 h n j ->
  order_but (Some i) 0 (Swap i j h) n /\ bridged 0 (Swap i j h) n i.
Proof.
  intros Hk Hj Hl Ho Hb. apply less_at_true in Hl as (y & p & Ey & Ep & Hl).
  pose proof (less_asym _ _ Hl) as Hle. pose proof (Swap_lookup i j h p y Ep Ey) as HS.
  assert (Hup : forall q z, kid q i -> h !! q = Some z -> le z p).
  { intros q z Hq Eq. pose proof (kid_lt _ _ Hk). apply (Ho q i z p); try done; [lia..|congruence]. }
  assert (Hdown : forall c z, kid i c -> (c < n)%nat -> c <> j -> h !! c = Some z -> le p z).
  { intros c z Hc Hcn Hne Ec. apply (Ho i c p z); try done; [lia|congruence]. }
  split.
  - intros q c x z Hq _ Hcn Hne Eq Ec. rewrite HS in Eq, Ec. assert (c <> i) by congruence.
    pose proof (kid_lt _ _ Hq). pose proof (kid_lt _ _ Hk).
    rewrite decide_False in Ec by done. destruct (decide (q = i)) as [->|Hqi].
    + injection Eq as <-. destruct (decide (c = j)) as [->|Hcj]; [injection Ec as <-; done|].
      apply (le_trans _ p); [done|]. by eapply Hdown.
    + destruct (decide (q = j)) as [->|Hqj].
      * injection Eq as <-. rewrite decide_False in Ec by lia. by apply (Hb i c p z); try lia.
      * destruct (decide (c = j)) as [->|Hcj].
        { exfalso. apply Hqi. apply kid_parent in Hq as [-> _]. apply kid_parent in Hk as [-> _]. done. }
        apply (Ho q c x z); try done; [lia|congruence].
  - intros q c x z Hq Hc _ Hcn Eq Ec. rewrite HS in Eq, Ec. pose proof (kid_lt _ _ Hq). pose proof (kid_lt _ _ Hc).
    pose proof (kid_lt _ _ Hk). rewrite !decide_False in Eq by lia. rewrite (decide_False (P := c = i)) in Ec by lia.
    destruct (decide (c = j)) as [->|Hcj]; [injection Ec as <-; by eapply Hup|].
    apply (le_trans _ p); [by eapply Hup|by eapply Hdown].
Qed.

Lemma order_but_root k h n : order_but (Some 0%nat) k h n -> heap_from k h n.
Proof. intros Ho p c x y Hk Hp Hc _. apply (Ho p c x y Hk Hp Hc). intros [= ->]. by apply kid_lt in Hk as ?; lia. Qed.

Lemma up_ok n fuel : forall h j, (j < fuel)%nat -> (j < n)%nat -> (n <= length h)%nat ->
  order_but (Some j) 0 h n -> bridged 0 h n j ->
  heap_from 0 (up fuel h j) n /\ up fuel h j ≡ₚ h /\ length (up fuel h j) = length h /\ drop n (up fuel h j) = drop n h.
Proof.
  induction fuel as [|fuel IH]; intros h j Hf Hj Hn Ho Hb; [lia|]. cbn [up].
  set (i := ((j - 1) / 2)%nat).
  assert (Hroot : j = 0%nat \/ kid i j) by (destruct j; [by left|right; apply kid_parent; split; [done|lia]]).
  destruct (Nat.eqb_spec i j) as [Eij|Hne]; cbn [orb].
  { destruct Hroot as [->|Hk]; [|apply kid_lt in Hk; lia]. split_and!; try done. by apply order_but_root. }
  destruct Hroot as [->|Hk]; [done|].
  destruct (less_at h j i) eqn:El; cbn [negb].
  - destruct (up_step h n i j Hk Hj El Ho Hb) as [Ho' Hb']. pose proof (kid_lt _ _ Hk).
    destruct (IH (Swap i j h) i ltac:(lia) ltac:(lia) ltac:(by rewrite Swap_length) Ho' Hb') as (H1 & H2 & H3 & H4).
    rewrite Swap_length in H3. split_and!; [done|by rewrite H2, Swap_perm|done|]. rewrite H4. unfold Swap.
    repeat case_match; try done. by rewrite !drop_insert_lt by lia.
  - split_and!; try done. intros p c x y Hp _ Hc _ Ep Ec. destruct (decide (c = j)) as [->|Hcj].
    + assert (p = i) as -> by (apply kid_parent in Hp as [-> _]; done). by eapply less_at_false.
    + apply (Ho p c x y); try done; [lia|congruence].
Qed.

Lemma hole_kids k h n i x : (forall c y, kid i c -> (c < n)%nat -> h !! c = Some y -> le x y) -> h !! i = Some x ->
  hole k h n i -> order_but (Some i) k h n.
Proof.
  intros Hx Ei [Ho _] p c a b Hp Hk Hc Hne Ep Ec. destruct (decide (p = i)) as [->|Hpi].
  - rewrite Ei in Ep. injection Ep as <-. by apply (Hx c b).
  - apply (Ho p c a b); try done. congruence.
Qed.

(** The child that [down] compares with is the smaller one. *)
Lemma smaller_kid h n i j : (2 * i + 1 < n)%nat ->
  j = (if (2 * i + 1 + 1 <? n)%nat && less_at h (2 * i + 1 + 1) (2 * i + 1) then 2 * i + 1 + 1 else 2 * i + 1)%nat ->
  kid i j /\ (j < n)%nat /\ forall c x y, kid i c -> (c < n)%nat -> h !! j = Some x -> h !! c = Some y -> le x y.
Proof.
  intros Hn ->. destruct (Nat.ltb_spec (2 * i + 1 + 1) n) as [H2|H2]; cbn [andb]; [destruct (less_at h (2 * i + 1 + 1) (2 * i + 1)) eqn:E|].
  - split; [unfold kid; lia|]. split; [done|]. intros c x y Hc Hcn Ej Ec. apply less_at_true in E as (a & b & Ea & Eb & Hab).
    rewrite Ea in Ej. injection Ej as <-. destruct Hc as [->| ->]; [rewrite Eb in Ec; injection Ec as <-; by apply less_asym|].
    replace (2 * i + 2)%nat with (2 * i + 1 + 1)%nat in Ec by lia. rewrite Ea in Ec. injection Ec as <-. apply le_refl.
  - split; [unfold kid; lia|]. split; [done|]. intros c x y Hc Hcn Ej Ec. destruct Hc as [->| ->].
    + rewrite Ej in Ec. injection Ec as <-. apply le_refl.
    + replace (2 * i + 2)%nat with (2 * i + 1 + 1)%nat in Ec by lia. by eapply less_at_false.
  - split; [unfold kid; lia|]. split; [done|]. intros c x y Hc Hcn Ej Ec. destruct Hc as [->| ->]; [|lia].
    rewrite Ej in Ec. injection Ec as <-. apply le_refl.
Qed.

(** One step down: the hole moves to the smaller child, and what is above it is in order. *)
Lemma down_step k h n i j : (k <= i)%nat -> kid i j -> (j < n)%nat -> less_at h j i = true ->
  (forall c x y, kid i c -> (c < n)%nat -> h !! j = Some x -> h !! c = Some y -> le x y) ->
  hole k h n i -> hole k (Swap i j h) n j /\
  (forall p y z, kid p j -> (k <= p)%nat -> Swap i j h !! p = Some y -> Swap i j h !! j = Some z -> le y z).
Proof.
  intros Hki Hk Hj Hl Hmin [Ho Hb]. apply less_at_true in Hl as (y & x & Ey & Ex & Hl).
  pose proof (less_asym _ _ Hl) as Hle. pose proof (Swap_lookup i j h x y Ex Ey) as HS. pose proof (kid_lt _ _ Hk) as Hij.
  split; [split|].
  - intros p c a b Hp Hkp Hc Hpj Hcj Ep Ec. rewrite HS in Ep, Ec. rewrite (decide_False (P := c = j)) in Ec by done.
    rewrite (decide_False (P := p = j)) in Ep by done. pose proof (kid_lt _ _ Hp).
    destruct (decide (p = i)) as [->|Hpi].
    + injection Ep as <-. rewrite decide_False in Ec by lia. by apply (Hmin c).
    + destruct (decide (c = i)) as [->|Hci]; [injection Ec as <-; by apply (Hb p j)|]. by apply (Ho p c a b).
  - intros p c a b Hp Hc Hkp Hcn Ep Ec. rewrite HS in Ep, Ec. pose proof (kid_lt _ _ Hp). pose proof (kid_lt _ _ Hc).
    assert (p = i) as -> by (apply kid_parent in Hp as [-> _]; apply kid_parent in Hk as [-> _]; done).
    rewrite decide_True in Ep by done. injection Ep as <-. rewrite !decide_False in Ec by lia.
    apply (Ho j c y b); try done; lia.
  - intros p a b Hp Hkp Ep Ej. rewrite HS in Ep, Ej.
    assert (p = i) as -> by (apply kid_parent in Hp as [-> _]; apply kid_parent in Hk as [-> _]; done).
    rewrite decide_True in Ep by done. rewrite (decide_False (P := j = i)), decide_True in Ej by lia. by simplify_eq.
Qed.

Lemma down_loop_ok k n fuel : forall h i, (n <= i + fuel)%nat -> (i < n)%nat -> (n <= length h)%nat -> (k <= i)%nat -> hole k h n i ->
  let '(h', i') := down_loop fuel h i n in
  h' ≡ₚ h /\ length h' = length h /\ drop n h' = drop n h /\ (i <= i')%nat /\
  (i' = i -> h' = h) /\ order_but (Some i) k h' n /\ ((i < i')%nat -> heap_from k h' n) /\
  (forall q, (q < i)%nat -> h' !! q = h !! q).
Proof.
  induction fuel as [|fuel IH]; intros h i Hf Hi Hn Hk Hh; [lia|]. cbn [down_loop].
  destruct (lookup_lt_is_Some_2 h i ltac:(lia)) as [x Ex].
  destruct (Nat.leb_spec n (2 * i + 1)) as [Hb|Hb].
  { split_and!; try done; [|lia]. apply (hole_kids k h n i x); try done. intros c y Hc Hcn. unfold kid in Hc. lia. }
  match goal with |- context [less_at h ?e i] => set (j := e) end.
  destruct (smaller_kid h n i j ltac:(lia) eq_refl) as (Hkj & Hjn & Hmin).
  destruct (less_at h j i) eqn:El; cbn [negb].
  - destruct (down_step k h n i j Hk Hkj Hjn El Hmin Hh) as [Hh' Hpar]. pose proof (kid_lt _ _ Hkj).
    specialize (IH (Swap i j h) j ltac:(lia) Hjn ltac:(by rewrite Swap_length) ltac:(lia) Hh').
    destruct (down_loop fuel (Swap i j h) j n) as [h' i']. destruct IH as (H1 & H2 & H3 & H4 & H5 & H6 & H7 & H8).
    assert (Hall : heap_from k h' n).
    { destruct (decide (i' = j)) as [->|]; [|apply H7; lia]. specialize (H5 eq_refl). subst h'.
      intros p c a b Hp Hkp Hc _ Ep Ec. destruct (decide (c = j)) as [->|]; [by apply (Hpar p)|].
      apply (H6 p c a b); try done. congruence. }
    split_and!; [by rewrite H1, Swap_perm|by rewrite H2, Swap_length| |lia|lia|by intros p c a b ? ? ? _; apply Hall|done|].
    + rewrite H3. unfold Swap. repeat case_match; try done. by rewrite !drop_insert_lt by lia.
    + intros q Hq. rewrite H8 by lia. unfold Swap. repeat case_match; try done. by rewrite !list_lookup_insert_ne by lia.
  - split_and!; try done; [|lia]. apply (hole_kids k h n i x); try done. intros c y Hc Hcn Ec.
    destruct (lookup_lt_is_Some_2 h j ltac:(lia)) as [z Ez]. apply (le_trans _ z); [by eapply less_at_false|by eapply Hmin].
Qed.

(** ** The operations *)

Lemma down_ok k h i n : (i < n)%nat -> (n <= length h)%nat -> (k <= i)%nat -> hole k h n i ->
  let '(h', moved) := down h i n in
  h' ≡ₚ h /\ length h' = length h /\ drop n h' = drop n h /\ order_but (Some i) k h' n /\
  (if moved then heap_from k h' n else h' = h) /\ (forall q, (q < i)%nat -> h' !! q = h !! q).
Proof.
  intros Hi Hn Hk Hh. unfold down. pose proof (down_loop_ok k n n h i ltac:(lia) Hi Hn Hk Hh) as D.
  destruct (down_loop n h i n) as [h' i']. destruct D as (H1 & H2 & H3 & H4 & H5 & H6 & H7 & H8).
  split_and!; try done. destruct (Nat.ltb_spec i i'); [by apply H7|]. apply H5. lia.
Qed.

(** From the index where the order starts, [down] alone suffices. *)
Lemma order_but_from k h n : order_but (Some k) k h n -> heap_from k h n.
Proof.
  intros Ho p c x y Hp Hk Hc _. apply (Ho p c x y Hp Hk Hc). intros [= ->]. apply kid_lt in Hp. lia.
Qed.

Lemma hole_from k h n : heap_from (S k) h n -> hole k h n k.
Proof.
  intros Hh. split.
  - intros p c x y Hp Hkp Hc Hpk _. apply (Hh p c x y Hp); [lia|done|done].
  - intros p c x y Hp _ Hkp. apply kid_lt in Hp. lia.
Qed.

Lemma Init_loop_ok k : forall h, (k <= length h)%nat -> heap_from k h (length h) ->
  heap (Init_loop k h) /\ Init_loop k h ≡ₚ h.
Proof.
  induction k as [|k IH]; intros h Hk Hh; [by split|]. cbn [Init_loop].
  pose proof (down_ok k h k (length h) ltac:(lia) ltac:(lia) ltac:(lia) (hole_from _ _ _ Hh)) as D.
  destruct (down h k (length h)) as [h' b]. destruct D as (H1 & H2 & _ & H4 & _). cbn [fst].
  destruct (IH h') as [H5 H6]; [lia|rewrite H2; by apply order_but_from|]. split; [done|]. by rewrite H6.
Qed.

Lemma Init_ok h : heap (Init h) /\ Init h ≡ₚ h.
Proof.
  apply Init_loop_ok; [apply Nat.Div0.div_le_upper_bound; lia|].
  intros p c x y Hp Hk Hc. exfalso. pose proof (Nat.mul_succ_div_gt (length h) 2 ltac:(lia)). unfold kid in Hp. lia.
Qed.

Lemma Push_ok x h : heap h -> heap (Push x h) /\ Push x h ≡ₚ x :: h.
Proof.
  intros Hh. unfold Push. rewrite length_app. cbn [length]. rewrite Nat.add_sub.
  assert (Hlook : forall q y, (q < length h)%nat -> (h ++ [x]) !! q = Some y -> h !! q = Some y).
  { intros q y Hq. by rewrite lookup_app_l. }
  destruct (up_ok (length h + 1) (length h + 1) (h ++ [x]) (length h)) as (H1 & H2 & H3 & _); try (rewrite ?length_app; simpl; lia).
  - intros p c a b Hp _ Hc Hne Ep Ec. pose proof (kid_lt _ _ Hp). assert (c <> length h) by congruence.
    apply (Hh p c a b); try done; try lia; apply Hlook; done || lia.
  - intros p c a b Hp Hc _ Hcn. apply kid_lt in Hc. lia.
  - split; [unfold heap; rewrite H3, length_app; exact H1|]. rewrite H2. by rewrite Permutation_app_comm.
Qed.

(** The root is least. *)
Lemma heap_root h x : heap h -> h !! 0%nat = Some x -> forall i y, h !! i = Some y -> le x y.
Proof.
  intros Hh Ex i. induction i as [i IH] using lt_wf_ind. intros y Ey. destruct (decide (i = 0)%nat) as [->|Hi].
  - rewrite Ex in Ey. injection Ey as <-. apply le_refl.
  - assert (Hk : kid ((i - 1) / 2) i) by (apply kid_parent; split; [done|lia]). pose proof (kid_lt _ _ Hk).
    pose proof (lookup_lt_Some _ _ _ Ey). destruct (lookup_lt_is_Some_2 h ((i - 1) / 2) ltac:(lia)) as [z Ez].
    apply (le_trans _ z); [by eapply IH|]. apply (Hh _ _ _ _ Hk); try done; lia.
Qed.

Lemma cut_ok {E} h x n : length h = S n -> drop n h = [x] -> @cut E h = Ok (x, take n h).
Proof.
  intros Hl Hd. unfold cut. rewrite Hl. replace (S n - 1)%nat with n by lia.
  rewrite <- (take_drop n h) at 1. rewrite Hd, last_snoc. done.
Qed.

(** A heap order on a prefix is one on the prefix alone. *)
Lemma heap_take h n : (n <= length h)%nat -> heap_from 0 h n -> heap (take n h).
Proof.
  intros Hn Hh p c x y Hp _ Hc _ Ep Ec. rewrite length_take_le in Hc by lia. pose proof (kid_lt _ _ Hp).
  rewrite lookup_take_lt in Ep, Ec by lia. apply (Hh p c x y); try done. lia.
Qed.

Lemma Swap_last h i x y n : length h = S n -> h !! i = Some x -> h !! n = Some y ->
  drop n (Swap i n h) = [x].
Proof.
  intros Hl Ei En. apply list_eq. intros q. rewrite lookup_drop, (Swap_lookup i n h x y Ei En).
  pose proof (lookup_lt_Some _ _ _ Ei). destruct q as [|q].
  - rewrite Nat.add_0_r. destruct (decide (n = i)) as [<-|]; [rewrite Ei in En; by simplify_eq|]. by rewrite decide_True.
  - rewrite !decide_False by lia. simpl. rewrite lookup_nil. apply lookup_ge_None. lia.
Qed.

(** The order around an index after its element was exchanged with the last one. *)
Lemma Swap_hole h i x y n : heap h -> length h = S n -> (i < n)%nat -> h !! i = Some x -> h !! n = Some y ->
  hole 0 (Swap i n h) n i.
Proof.
  intros Hh Hl Hi Ei En. pose proof (Swap_lookup i n h x y Ei En) as HS. split.
  - intros p c a b Hp _ Hc Hpi Hci Ep Ec. pose proof (kid_lt _ _ Hp). rewrite HS, !decide_False in Ep by lia.
    rewrite HS, !decide_False in Ec by lia. apply (Hh p c a b); try done; lia.
  - intros p c a b Hp Hc _ Hcn Ep Ec. pose proof (kid_lt _ _ Hp). pose proof (kid_lt _ _ Hc).
    rewrite HS, !decide_False in Ep by lia. rewrite HS, !decide_False in Ec by lia.
    apply (le_trans _ x); [apply (Hh p i a x); try done; lia|apply (Hh i c x b); try done; lia].
Qed.

Lemma Pop_ok {E} h x : heap h -> h !! 0%nat = Some x ->
  exists h', @Pop E h = Ok (x, h') /\ h ≡ₚ x :: h' /\ heap h' /\ Forall (le x) h'.
Proof.
  intros Hh Ex. destruct h as [|x0 h0] eqn:Eh; [done|]. rewrite <- Eh in *. remember (length h - 1)%nat as n eqn:En.
  assert (Hl : length h = S n) by (rewrite Eh in *; simpl in *; lia).
  destruct (lookup_lt_is_Some_2 h n ltac:(lia)) as [y Ey].
  assert (G : forall h', h ≡ₚ x :: h' -> Forall (le x) h').
  { intros h' Hp. assert (Hf : Forall (le x) h) by (apply Forall_lookup; intros i z; by apply heap_root).
    rewrite Hp in Hf. by inversion Hf. }
  assert (EP : @Pop E h = cut (down (Swap 0 n h) 0 n).1) by (rewrite Eh in *; simpl; simpl in En; by rewrite <- ?En).
  rewrite EP. clear EP. pose proof (Swap_last h 0 x y n Hl Ex Ey) as Hd.
  destruct (decide (n = 0)%nat) as [->|Hn].
  - assert (Hc : (down (Swap 0 0 h) 0 0).1 = Swap 0 0 h) by done. rewrite Hc, (cut_ok _ x 0); [|by rewrite Swap_length|done].
    assert (h ≡ₚ [x]) by (rewrite <- (Swap_perm 0 0 h); change (Swap 0 0 h) with (drop 0 (Swap 0 0 h)); by rewrite Hd).
    exists []. by split_and!.
  - pose proof (down_ok 0 (Swap 0 n h) 0 n ltac:(lia) ltac:(rewrite Swap_length; lia) ltac:(lia)
      (Swap_hole h 0 x y n Hh Hl ltac:(lia) Ex Ey)) as D.
    destruct (down (Swap 0 n h) 0 n) as [h' b]. destruct D as (H1 & H2 & H3 & H4 & _). cbn [fst].
    rewrite Swap_length in H2. rewrite (cut_ok h' x n); [|lia|by rewrite H3].
    assert (Hp : h ≡ₚ x :: take n h').
    { rewrite <- (Swap_perm 0 n h), <- H1, <- (take_drop n h') at 1. rewrite H3, Hd. by rewrite Permutation_app_comm. }
    exists (take n h'). split_and!; [done|done| |by apply G]. apply heap_take; [lia|]. by apply order_but_from.
Qed.

Lemma Remove_ok {E} h i x : heap h -> h !! i = Some x ->
  exists h', @Remove E h i = Ok (x, h') /\ h ≡ₚ x :: h' /\ heap h'.
Proof.
  intros Hh Ex. pose proof (lookup_lt_Some _ _ _ Ex) as Hi. unfold Remove.
  destruct (Nat.leb_spec (length h) i); [lia|]. remember (length h - 1)%nat as n eqn:En. assert (Hl : length h = S n) by lia.
  destruct (lookup_lt_is_Some_2 h n ltac:(lia)) as [y Ey]. destruct (Nat.eqb_spec n i) as [<-|Hne].
  - rewrite (cut_ok h x n); [|done|]. 2: { rewrite (drop_S _ x) by done. f_equal. apply drop_ge. lia. }
    exists (take n h). split_and!; [done| |].
    + rewrite <- (take_drop n h) at 1. rewrite (drop_S _ x), (drop_ge h) by (done || lia). by rewrite Permutation_app_comm.
    + apply heap_take; [lia|]. intros p c a b Hp _ Hc _. apply (Hh p c a b Hp); lia || done.
  - pose proof (Swap_last h i x y n Hl Ex Ey) as Hd. pose proof (Swap_hole h i x y n Hh Hl ltac:(lia) Ex Ey) as Hho.
    pose proof (down_ok 0 (Swap i n h) i n ltac:(lia) ltac:(rewrite Swap_length; lia) ltac:(lia) Hho) as D.
    destruct (down (Swap i n h) i n) as [h1 b]. destruct D as (H1 & H2 & H3 & H4 & H5 & _). rewrite Swap_length in H2.
    assert (exists h2, (if b then h1 else up (length h1) h1 i) = h2 /\ heap_from 0 h2 n /\ h2 ≡ₚ h1 /\
      length h2 = length h1 /\ drop n h2 = drop n h1) as (h2 & -> & G1 & G2 & G3 & G4).
    { destruct b; [by eexists|]. subst h1. rewrite Swap_length in *.
      destruct (up_ok n (length h) (Swap i n h) i) as (U1 & U2 & U3 & U4); try (rewrite ?Swap_length; lia); [done|apply Hho|].
      eexists. split; [done|]. rewrite Swap_length in U3. by split_and!. }
    rewrite (cut_ok h2 x n); [|lia|by rewrite G4, H3]. exists (take n h2). split_and!; [done| |apply heap_take; [lia|done]].
    rewrite <- (Swap_perm i n h), <- H1, <- G2, <- (take_drop n h2) at 1. rewrite G4, H3, Hd. by rewrite Permutation_app_comm.
Qed.

(** After the element at an index was replaced. *)
Lemma Fix_ok h i x : heap h -> (i < length h)%nat ->
  let h1 := <[i := x]> h in heap (Fix h1 i) /\ Fix h1 i ≡ₚ h1 /\ length (Fix h1 i) = length h.
Proof.
  intros Hh Hi h1. destruct (lookup_lt_is_Some_2 h i Hi) as [x0 Ex0].
  assert (L1 : length h1 = length h) by apply length_insert.
  assert (Hho : hole 0 h1 (length h1) i).
  { split.
    - intros p c a b Hp _ Hc Hpi Hci Ep Ec. subst h1. rewrite list_lookup_insert_ne in Ep, Ec by done.
      apply (Hh p c a b); try done; lia.
    - intros p c a b Hp Hc _ Hcn Ep Ec. pose proof (kid_lt _ _ Hp). pose proof (kid_lt _ _ Hc). subst h1.
      rewrite list_lookup_insert_ne in Ep, Ec by lia.
      apply (le_trans _ x0); [apply (Hh p i a x0); try done; lia|apply (Hh i c x0 b); try done; lia]. }
  unfold Fix. pose proof (down_ok 0 h1 i (length h1) ltac:(lia) ltac:(lia) ltac:(lia) Hho) as D.
  destruct (down h1 i (length h1)) as [h2 b]. destruct D as (H1 & H2 & _ & H4 & H5 & _). destruct b.
  - split_and!; [unfold heap; by rewrite H2|done|lia].
  - subst h2. destruct (up_ok (length h1) (length h1) h1 i) as (U1 & U2 & U3 & _); try lia; [done|apply Hho|].
    split_and!; [unfold heap; by rewrite U3|done|lia].
Qed.

Lemma heap_nil : heap [].
Proof. intros p c x y _ _ Hc. simpl in Hc. lia. Qed.

End Heap.
