(* ===== verification/KeccakF.v ===== *)
(** The Keccak-f[1600] permutation: [crypto/sha3/keccakf.go].

    The source unrolls four rounds and keeps the lanes in place, at positions
    that move from round to round; every round is a definition of its own here,
    statement by statement.  The reference is the permutation of FIPS 202: the
    steps theta, rho, pi, chi and iota, with the rotation offsets and the round
    constants computed from their definitions. *)
From S2P Require Import Prelude.
From Stdlib Require Import Btauto.

Abbreviation lanes := (list Z).

Declare Scope keccak_scope.
Delimit Scope keccak_scope with keccak.
#[local] Open Scope keccak_scope.
Notation "a .[ i ]" := (nth i%nat a 0) (at level 1, i at level 200, format "a .[ i ]") : keccak_scope.
Infix "^^" := Z.lxor (at level 50, left associativity) : keccak_scope.

(** [x<<n | x>>(64-n)] of a [uint64]. *)
Definition rol64 (x n : Z) : Z := Z.lor (u64 (Z.shiftl x n)) (Z.shiftr x (64 - n)).

Definition rc : list Z :=
  [ 0x0000000000000001; 0x0000000000008082; 0x800000000000808A; 0x8000000080008000;
    0x000000000000808B; 0x0000000080000001; 0x8000000080008081; 0x8000000000008009;
    0x000000000000008A; 0x0000000000000088; 0x0000000080008009; 0x000000008000000A;
    0x000000008000808B; 0x800000000000008B; 0x8000000000008089; 0x8000000000008003;
    0x8000000000008002; 0x8000000000000080; 0x000000000000800A; 0x800000008000000A;
    0x8000000080008081; 0x8000000000008080; 0x0000000080000001; 0x8000000080008008 ].

(** Round 1 of the loop body. *)
Definition keccakF_round1 (a : lanes) (rci : Z) : lanes :=
  let bc0 := a.[0] ^^ a.[5] ^^ a.[10] ^^ a.[15] ^^ a.[20] in
  let bc1 := a.[1] ^^ a.[6] ^^ a.[11] ^^ a.[16] ^^ a.[21] in
  let bc2 := a.[2] ^^ a.[7] ^^ a.[12] ^^ a.[17] ^^ a.[22] in
  let bc3 := a.[3] ^^ a.[8] ^^ a.[13] ^^ a.[18] ^^ a.[23] in
  let bc4 := a.[4] ^^ a.[9] ^^ a.[14] ^^ a.[19] ^^ a.[24] in
  let d0 := bc4 ^^ rol64 bc1 1 in
  let d1 := bc0 ^^ rol64 bc2 1 in
  let d2 := bc1 ^^ rol64 bc3 1 in
  let d3 := bc2 ^^ rol64 bc4 1 in
  let d4 := bc3 ^^ rol64 bc0 1 in
  let bc0 := a.[0] ^^ d0 in
  let t := a.[6] ^^ d1 in
  let bc1 := rol64 t 44 in
  let t := a.[12] ^^ d2 in
  let bc2 := rol64 t 43 in
  let t := a.[18] ^^ d3 in
  let bc3 := rol64 t 21 in
  let t := a.[24] ^^ d4 in
  let bc4 := rol64 t 14 in
  let a := <[0%nat := bc0 ^^ (Z.ldiff bc2 bc1) ^^ rci]> a in
  let a := <[6%nat := bc1 ^^ (Z.ldiff bc3 bc2)]> a in
  let a := <[12%nat := bc2 ^^ (Z.ldiff bc4 bc3)]> a in
  let a := <[18%nat := bc3 ^^ (Z.ldiff bc0 bc4)]> a in
  let a := <[24%nat := bc4 ^^ (Z.ldiff bc1 bc0)]> a in
  let t := a.[10] ^^ d0 in
  let bc2 := rol64 t 3 in
  let t := a.[16] ^^ d1 in
  let bc3 := rol64 t 45 in
  let t := a.[22] ^^ d2 in
  let bc4 := rol64 t 61 in
  let t := a.[3] ^^ d3 in
  let bc0 := rol64 t 28 in
  let t := a.[9] ^^ d4 in
  let bc1 := rol64 t 20 in
  let a := <[10%nat := bc0 ^^ (Z.ldiff bc2 bc1)]> a in
  let a := <[16%nat := bc1 ^^ (Z.ldiff bc3 bc2)]> a in
  let a := <[22%nat := bc2 ^^ (Z.ldiff bc4 bc3)]> a in
  let a := <[3%nat := bc3 ^^ (Z.ldiff bc0 bc4)]> a in
  let a := <[9%nat := bc4 ^^ (Z.ldiff bc1 bc0)]> a in
  let t := a.[20] ^^ d0 in
  let bc4 := rol64 t 18 in
  let t := a.[1] ^^ d1 in
  let bc0 := rol64 t 1 in
  let t := a.[7] ^^ d2 in
  let bc1 := rol64 t 6 in
  let t := a.[13] ^^ d3 in
  let bc2 := rol64 t 25 in
  let t := a.[19] ^^ d4 in
  let bc3 := rol64 t 8 in
  let a := <[20%nat := bc0 ^^ (Z.ldiff bc2 bc1)]> a in
  let a := <[1%nat := bc1 ^^ (Z.ldiff bc3 bc2)]> a in
  let a := <[7%nat := bc2 ^^ (Z.ldiff bc4 bc3)]> a in
  let a := <[13%nat := bc3 ^^ (Z.ldiff bc0 bc4)]> a in
  let a := <[19%nat := bc4 ^^ (Z.ldiff bc1 bc0)]> a in
  let t := a.[5] ^^ d0 in
  let bc1 := rol64 t 36 in
  let t := a.[11] ^^ d1 in
  let bc2 := rol64 t 10 in
  let t := a.[17] ^^ d2 in
  let bc3 := rol64 t 15 in
  let t := a.[23] ^^ d3 in
  let bc4 := rol64 t 56 in
  let t := a.[4] ^^ d4 in
  let bc0 := rol64 t 27 in
  let a := <[5%nat := bc0 ^^ (Z.ldiff bc2 bc1)]> a in
  let a := <[11%nat := bc1 ^^ (Z.ldiff bc3 bc2)]> a in
  let a := <[17%nat := bc2 ^^ (Z.ldiff bc4 bc3)]> a in
  let a := <[23%nat := bc3 ^^ (Z.ldiff bc0 bc4)]> a in
  let a := <[4%nat := bc4 ^^ (Z.ldiff bc1 bc0)]> a in
  let t := a.[15] ^^ d0 in
  let bc3 := rol64 t 41 in
  let t := a.[21] ^^ d1 in
  let bc4 := rol64 t 2 in
  let t := a.[2] ^^ d2 in
  let bc0 := rol64 t 62 in
  let t := a.[8] ^^ d3 in
  let bc1 := rol64 t 55 in
  let t := a.[14] ^^ d4 in
  let bc2 := rol64 t 39 in
  let a := <[15%nat := bc0 ^^ (Z.ldiff bc2 bc1)]> a in
  let a := <[21%nat := bc1 ^^ (Z.ldiff bc3 bc2)]> a in
  let a := <[2%nat := bc2 ^^ (Z.ldiff bc4 bc3)]> a in
  let a := <[8%nat := bc3 ^^ (Z.ldiff bc0 bc4)]> a in
  let a := <[14%nat := bc4 ^^ (Z.ldiff bc1 bc0)]> a in
  a.

(** Round 2 of the loop body. *)
Definition keccakF_round2 (a : lanes) (rci : Z) : lanes :=
  let bc0 := a.[0] ^^ a.[5] ^^ a.[10] ^^ a.[15] ^^ a.[20] in
  let bc1 := a.[1] ^^ a.[6] ^^ a.[11] ^^ a.[16] ^^ a.[21] in
  let bc2 := a.[2] ^^ a.[7] ^^ a.[12] ^^ a.[17] ^^ a.[22] in
  let bc3 := a.[3] ^^ a.[8] ^^ a.[13] ^^ a.[18] ^^ a.[23] in
  let bc4 := a.[4] ^^ a.[9] ^^ a.[14] ^^ a.[19] ^^ a.[24] in
  let d0 := bc4 ^^ rol64 bc1 1 in
  let d1 := bc0 ^^ rol64 bc2 1 in
  let d2 := bc1 ^^ rol64 bc3 1 in
  let d3 := bc2 ^^ rol64 bc4 1 in
  let d4 := bc3 ^^ rol64 bc0 1 in
  let bc0 := a.[0] ^^ d0 in
  let t := a.[16] ^^ d1 in
  let bc1 := rol64 t 44 in
  let t := a.[7] ^^ d2 in
  let bc2 := rol64 t 43 in
  let t := a.[23] ^^ d3 in
  let bc3 := rol64 t 21 in
  let t := a.[14] ^^ d4 in
  let bc4 := rol64 t 14 in
  let a := <[0%nat := bc0 ^^ (Z.ldiff bc2 bc1) ^^ rci]> a in
  let a := <[16%nat := bc1 ^^ (Z.ldiff bc3 bc2)]> a in
  let a := <[7%nat := bc2 ^^ (Z.ldiff bc4 bc3)]> a in
  let a := <[23%nat := bc3 ^^ (Z.ldiff bc0 bc4)]> a in
  let a := <[14%nat := bc4 ^^ (Z.ldiff bc1 bc0)]> a in
  let t := a.[20] ^^ d0 in
  let bc2 := rol64 t 3 in
  let t := a.[11] ^^ d1 in
  let bc3 := rol64 t 45 in
  let t := a.[2] ^^ d2 in
  let bc4 := rol64 t 61 in
  let t := a.[18] ^^ d3 in
  let bc0 := rol64 t 28 in
  let t := a.[9] ^^ d4 in
  let bc1 := rol64 t 20 in
  let a := <[20%nat := bc0 ^^ (Z.ldiff bc2 bc1)]> a in
  let a := <[11%nat := bc1 ^^ (Z.ldiff bc3 bc2)]> a in
  let a := <[2%nat := bc2 ^^ (Z.ldiff bc4 bc3)]> a in
  let a := <[18%nat := bc3 ^^ (Z.ldiff bc0 bc4)]> a in
  let a := <[9%nat := bc4 ^^ (Z.ldiff bc1 bc0)]> a in
  let t := a.[15] ^^ d0 in
  let bc4 := rol64 t 18 in
  let t := a.[6] ^^ d1 in
  let bc0 := rol64 t 1 in
  let t := a.[22] ^^ d2 in
  let bc1 := rol64 t 6 in
  let t := a.[13] ^^ d3 in
  let bc2 := rol64 t 25 in
  let t := a.[4] ^^ d4 in
  let bc3 := rol64 t 8 in
  let a := <[15%nat := bc0 ^^ (Z.ldiff bc2 bc1)]> a in
  let a := <[6%nat := bc1 ^^ (Z.ldiff bc3 bc2)]> a in
  let a := <[22%nat := bc2 ^^ (Z.ldiff bc4 bc3)]> a in
  let a := <[13%nat := bc3 ^^ (Z.ldiff bc0 bc4)]> a in
  let a := <[4%nat := bc4 ^^ (Z.ldiff bc1 bc0)]> a in
  let t := a.[10] ^^ d0 in
  let bc1 := rol64 t 36 in
  let t := a.[1] ^^ d1 in
  let bc2 := rol64 t 10 in
  let t := a.[17] ^^ d2 in
  let bc3 := rol64 t 15 in
  let t := a.[8] ^^ d3 in
  let bc4 := rol64 t 56 in
  let t := a.[24] ^^ d4 in
  let bc0 := rol64 t 27 in
  let a := <[10%nat := bc0 ^^ (Z.ldiff bc2 bc1)]> a in
  let a := <[1%nat := bc1 ^^ (Z.ldiff bc3 bc2)]> a in
  let a := <[17%nat := bc2 ^^ (Z.ldiff bc4 bc3)]> a in
  let a := <[8%nat := bc3 ^^ (Z.ldiff bc0 bc4)]> a in
  let a := <[24%nat := bc4 ^^ (Z.ldiff bc1 bc0)]> a in
  let t := a.[5] ^^ d0 in
  let bc3 := rol64 t 41 in
  let t := a.[21] ^^ d1 in
  let bc4 := rol64 t 2 in
  let t := a.[12] ^^ d2 in
  let bc0 := rol64 t 62 in
  let t := a.[3] ^^ d3 in
  let bc1 := rol64 t 55 in
  let t := a.[19] ^^ d4 in
  let bc2 := rol64 t 39 in
  let a := <[5%nat := bc0 ^^ (Z.ldiff bc2 bc1)]> a in
  let a := <[21%nat := bc1 ^^ (Z.ldiff bc3 bc2)]> a in
  let a := <[12%nat := bc2 ^^ (Z.ldiff bc4 bc3)]> a in
  let a := <[3%nat := bc3 ^^ (Z.ldiff bc0 bc4)]> a in
  let a := <[19%nat := bc4 ^^ (Z.ldiff bc1 bc0)]> a in
  a.

(** Round 3 of the loop body. *)
Definition keccakF_round3 (a : lanes) (rci : Z) : lanes :=
  let bc0 := a.[0] ^^ a.[5] ^^ a.[10] ^^ a.[15] ^^ a.[20] in
  let bc1 := a.[1] ^^ a.[6] ^^ a.[11] ^^ a.[16] ^^ a.[21] in
  let bc2 := a.[2] ^^ a.[7] ^^ a.[12] ^^ a.[17] ^^ a.[22] in
  let bc3 := a.[3] ^^ a.[8] ^^ a.[13] ^^ a.[18] ^^ a.[23] in
  let bc4 := a.[4] ^^ a.[9] ^^ a.[14] ^^ a.[19] ^^ a.[24] in
  let d0 := bc4 ^^ rol64 bc1 1 in
  let d1 := bc0 ^^ rol64 bc2 1 in
  let d2 := bc1 ^^ rol64 bc3 1 in
  let d3 := bc2 ^^ rol64 bc4 1 in
  let d4 := bc3 ^^ rol64 bc0 1 in
  let bc0 := a.[0] ^^ d0 in
  let t := a.[11] ^^ d1 in
  let bc1 := rol64 t 44 in
  let t := a.[22] ^^ d2 in
  let bc2 := rol64 t 43 in
  let t := a.[8] ^^ d3 in
  let bc3 := rol64 t 21 in
  let t := a.[19] ^^ d4 in
  let bc4 := rol64 t 14 in
  let a := <[0%nat := bc0 ^^ (Z.ldiff bc2 bc1) ^^ rci]> a in
  let a := <[11%nat := bc1 ^^ (Z.ldiff bc3 bc2)]> a in
  let a := <[22%nat := bc2 ^^ (Z.ldiff bc4 bc3)]> a in
  let a := <[8%nat := bc3 ^^ (Z.ldiff bc0 bc4)]> a in
  let a := <[19%nat := bc4 ^^ (Z.ldiff bc1 bc0)]> a in
  let t := a.[15] ^^ d0 in
  let bc2 := rol64 t 3 in
  let t := a.[1] ^^ d1 in
  let bc3 := rol64 t 45 in
  let t := a.[12] ^^ d2 in
  let bc4 := rol64 t 61 in
  let t := a.[23] ^^ d3 in
  let bc0 := rol64 t 28 in
  let t := a.[9] ^^ d4 in
  let bc1 := rol64 t 20 in
  let a := <[15%nat := bc0 ^^ (Z.ldiff bc2 bc1)]> a in
  let a := <[1%nat := bc1 ^^ (Z.ldiff bc3 bc2)]> a in
  let a := <[12%nat := bc2 ^^ (Z.ldiff bc4 bc3)]> a in
  let a := <[23%nat := bc3 ^^ (Z.ldiff bc0 bc4)]> a in
  let a := <[9%nat := bc4 ^^ (Z.ldiff bc1 bc0)]> a in
  let t := a.[5] ^^ d0 in
  let bc4 := rol64 t 18 in
  let t := a.[16] ^^ d1 in
  let bc0 := rol64 t 1 in
  let t := a.[2] ^^ d2 in
  let bc1 := rol64 t 6 in
  let t := a.[13] ^^ d3 in
  let bc2 := rol64 t 25 in
  let t := a.[24] ^^ d4 in
  let bc3 := rol64 t 8 in
  let a := <[5%nat := bc0 ^^ (Z.ldiff bc2 bc1)]> a in
  let a := <[16%nat := bc1 ^^ (Z.ldiff bc3 bc2)]> a in
  let a := <[2%nat := bc2 ^^ (Z.ldiff bc4 bc3)]> a in
  let a := <[13%nat := bc3 ^^ (Z.ldiff bc0 bc4)]> a in
  let a := <[24%nat := bc4 ^^ (Z.ldiff bc1 bc0)]> a in
  let t := a.[20] ^^ d0 in
  let bc1 := rol64 t 36 in
  let t := a.[6] ^^ d1 in
  let bc2 := rol64 t 10 in
  let t := a.[17] ^^ d2 in
  let bc3 := rol64 t 15 in
  let t := a.[3] ^^ d3 in
  let bc4 := rol64 t 56 in
  let t := a.[14] ^^ d4 in
  let bc0 := rol64 t 27 in
  let a := <[20%nat := bc0 ^^ (Z.ldiff bc2 bc1)]> a in
  let a := <[6%nat := bc1 ^^ (Z.ldiff bc3 bc2)]> a in
  let a := <[17%nat := bc2 ^^ (Z.ldiff bc4 bc3)]> a in
  let a := <[3%nat := bc3 ^^ (Z.ldiff bc0 bc4)]> a in
  let a := <[14%nat := bc4 ^^ (Z.ldiff bc1 bc0)]> a in
  let t := a.[10] ^^ d0 in
  let bc3 := rol64 t 41 in
  let t := a.[21] ^^ d1 in
  let bc4 := rol64 t 2 in
  let t := a.[7] ^^ d2 in
  let bc0 := rol64 t 62 in
  let t := a.[18] ^^ d3 in
  let bc1 := rol64 t 55 in
  let t := a.[4] ^^ d4 in
  let bc2 := rol64 t 39 in
  let a := <[10%nat := bc0 ^^ (Z.ldiff bc2 bc1)]> a in
  let a := <[21%nat := bc1 ^^ (Z.ldiff bc3 bc2)]> a in
  let a := <[7%nat := bc2 ^^ (Z.ldiff bc4 bc3)]> a in
  let a := <[18%nat := bc3 ^^ (Z.ldiff bc0 bc4)]> a in
  let a := <[4%nat := bc4 ^^ (Z.ldiff bc1 bc0)]> a in
  a.

(** Round 4 of the loop body. *)
Definition keccakF_round4 (a : lanes) (rci : Z) : lanes :=
  let bc0 := a.[0] ^^ a.[5] ^^ a.[10] ^^ a.[15] ^^ a.[20] in
  let bc1 := a.[1] ^^ a.[6] ^^ a.[11] ^^ a.[16] ^^ a.[21] in
  let bc2 := a.[2] ^^ a.[7] ^^ a.[12] ^^ a.[17] ^^ a.[22] in
  let bc3 := a.[3] ^^ a.[8] ^^ a.[13] ^^ a.[18] ^^ a.[23] in
  let bc4 := a.[4] ^^ a.[9] ^^ a.[14] ^^ a.[19] ^^ a.[24] in
  let d0 := bc4 ^^ rol64 bc1 1 in
  let d1 := bc0 ^^ rol64 bc2 1 in
  let d2 := bc1 ^^ rol64 bc3 1 in
  let d3 := bc2 ^^ rol64 bc4 1 in
  let d4 := bc3 ^^ rol64 bc0 1 in
  let bc0 := a.[0] ^^ d0 in
  let t := a.[1] ^^ d1 in
  let bc1 := rol64 t 44 in
  let t := a.[2] ^^ d2 in
  let bc2 := rol64 t 43 in
  let t := a.[3] ^^ d3 in
  let bc3 := rol64 t 21 in
  let t := a.[4] ^^ d4 in
  let bc4 := rol64 t 14 in
  let a := <[0%nat := bc0 ^^ (Z.ldiff bc2 bc1) ^^ rci]> a in
  let a := <[1%nat := bc1 ^^ (Z.ldiff bc3 bc2)]> a in
  let a := <[2%nat := bc2 ^^ (Z.ldiff bc4 bc3)]> a in
  let a := <[3%nat := bc3 ^^ (Z.ldiff bc0 bc4)]> a in
  let a := <[4%nat := bc4 ^^ (Z.ldiff bc1 bc0)]> a in
  let t := a.[5] ^^ d0 in
  let bc2 := rol64 t 3 in
  let t := a.[6] ^^ d1 in
  let bc3 := rol64 t 45 in
  let t := a.[7] ^^ d2 in
  let bc4 := rol64 t 61 in
  let t := a.[8] ^^ d3 in
  let bc0 := rol64 t 28 in
  let t := a.[9] ^^ d4 in
  let bc1 := rol64 t 20 in
  let a := <[5%nat := bc0 ^^ (Z.ldiff bc2 bc1)]> a in
  let a := <[6%nat := bc1 ^^ (Z.ldiff bc3 bc2)]> a in
  let a := <[7%nat := bc2 ^^ (Z.ldiff bc4 bc3)]> a in
  let a := <[8%nat := bc3 ^^ (Z.ldiff bc0 bc4)]> a in
  let a := <[9%nat := bc4 ^^ (Z.ldiff bc1 bc0)]> a in
  let t := a.[10] ^^ d0 in
  let bc4 := rol64 t 18 in
  let t := a.[11] ^^ d1 in
  let bc0 := rol64 t 1 in
  let t := a.[12] ^^ d2 in
  let bc1 := rol64 t 6 in
  let t := a.[13] ^^ d3 in
  let bc2 := rol64 t 25 in
  let t := a.[14] ^^ d4 in
  let bc3 := rol64 t 8 in
  let a := <[10%nat := bc0 ^^ (Z.ldiff bc2 bc1)]> a in
  let a := <[11%nat := bc1 ^^ (Z.ldiff bc3 bc2)]> a in
  let a := <[12%nat := bc2 ^^ (Z.ldiff bc4 bc3)]> a in
  let a := <[13%nat := bc3 ^^ (Z.ldiff bc0 bc4)]> a in
  let a := <[14%nat := bc4 ^^ (Z.ldiff bc1 bc0)]> a in
  let t := a.[15] ^^ d0 in
  let bc1 := rol64 t 36 in
  let t := a.[16] ^^ d1 in
  let bc2 := rol64 t 10 in
  let t := a.[17] ^^ d2 in
  let bc3 := rol64 t 15 in
  let t := a.[18] ^^ d3 in
  let bc4 := rol64 t 56 in
  let t := a.[19] ^^ d4 in
  let bc0 := rol64 t 27 in
  let a := <[15%nat := bc0 ^^ (Z.ldiff bc2 bc1)]> a in
  let a := <[16%nat := bc1 ^^ (Z.ldiff bc3 bc2)]> a in
  let a := <[17%nat := bc2 ^^ (Z.ldiff bc4 bc3)]> a in
  let a := <[18%nat := bc3 ^^ (Z.ldiff bc0 bc4)]> a in
  let a := <[19%nat := bc4 ^^ (Z.ldiff bc1 bc0)]> a in
  let t := a.[20] ^^ d0 in
  let bc3 := rol64 t 41 in
  let t := a.[21] ^^ d1 in
  let bc4 := rol64 t 2 in
  let t := a.[22] ^^ d2 in
  let bc0 := rol64 t 62 in
  let t := a.[23] ^^ d3 in
  let bc1 := rol64 t 55 in
  let t := a.[24] ^^ d4 in
  let bc2 := rol64 t 39 in
  let a := <[20%nat := bc0 ^^ (Z.ldiff bc2 bc1)]> a in
  let a := <[21%nat := bc1 ^^ (Z.ldiff bc3 bc2)]> a in
  let a := <[22%nat := bc2 ^^ (Z.ldiff bc4 bc3)]> a in
  let a := <[23%nat := bc3 ^^ (Z.ldiff bc0 bc4)]> a in
  let a := <[24%nat := bc4 ^^ (Z.ldiff bc1 bc0)]> a in
  a.

(** One iteration of the loop: four rounds. *)
Definition keccakF_iter (a : lanes) (i : nat) : lanes :=
  keccakF_round4 (keccakF_round3 (keccakF_round2 (keccakF_round1 a rc.[i]) rc.[i + 1]) rc.[i + 2]) rc.[i + 3].

Definition keccakF1600 (a : lanes) : lanes := fold_left keccakF_iter [0; 4; 8; 12; 16; 20]%nat a.

(** ** Reference permutation (FIPS 202, section 3) *)

(** Lane [(x, y)] of the five by five array. *)
Definition lane (a : lanes) (x y : nat) : Z := a.[(x mod 5) + 5 * (y mod 5)].

Definition by_lanes (f : nat -> nat -> Z) : lanes :=
  map (fun i => f (i mod 5) (i / 5))%nat (seq 0 25).

(** Parities of the five columns. *)
Definition columns (a : lanes) : lanes :=
  map (fun x => lane a x 0 ^^ lane a x 1 ^^ lane a x 2 ^^ lane a x 3 ^^ lane a x 4) (seq 0 5).

Definition theta_with (c a : lanes) : lanes :=
  by_lanes (fun x y => lane a x y ^^ (c.[(x + 4) mod 5] ^^ rol64 c.[(x + 1) mod 5] 1)).

Definition theta (a : lanes) : lanes := theta_with (columns a) a.

(** The walk that assigns the rotation offsets: lane [(0, 0)] is not rotated. *)
Fixpoint rho_walk (fuel : nat) (t : Z) (x y : nat) (off : lanes) : lanes :=
  match fuel with
  | O => off
  | S fuel' =>
      rho_walk fuel' (t + 1) y ((2 * x + 3 * y) mod 5)%nat
        (<[(x + 5 * y)%nat := ((t + 1) * (t + 2) / 2) `mod` 64]> off)
  end.

Definition rho_offsets : lanes := rho_walk 24 0 1 0 (replicate 25 0).

Definition rot (x n : Z) : Z := if n =? 0 then x else rol64 x n.

Definition rho (a : lanes) : lanes := by_lanes (fun x y => rot (lane a x y) (lane rho_offsets x y)).

Definition pi_step (a : lanes) : lanes := by_lanes (fun x y => lane a (x + 3 * y) x).

Definition chi (a : lanes) : lanes :=
  by_lanes (fun x y => lane a x y ^^ Z.ldiff (lane a (x + 2) y) (lane a (x + 1) y)).

Definition iota (a : lanes) (rci : Z) : lanes := <[0%nat := a.[0] ^^ rci]> a.

Definition keccak_round (a : lanes) (rci : Z) : lanes := iota (chi (pi_step (rho (theta a)))) rci.

(** The linear feedback shift register behind the round constants: its state
    is a list of eight bits. *)
Definition lfsr_step (r : list bool) : list bool :=
  match r with
  | [r0; r1; r2; r3; r4; r5; r6; r7] =>
      [r7; r0; r1; r2; xorb r3 r7; xorb r4 r7; xorb r5 r7; r6]
  | _ => r
  end.

Definition rc_bit (t : nat) : bool :=
  hd false (Nat.iter (t mod 255) lfsr_step [true; false; false; false; false; false; false; false]).

Definition round_constant (ir : nat) : Z :=
  fold_left (fun acc j => if rc_bit (j + 7 * ir) then Z.lor acc (Z.shiftl 1 (2 ^ Z.of_nat j - 1)) else acc)
    (seq 0 7) 0.

Definition keccak_f (a : lanes) : lanes := fold_left (fun a ir => keccak_round a (round_constant ir)) (seq 0 24) a.

(** ** The unrolled rounds *)

(** Where round [k] leaves lane [j] of the reference. *)
Definition sigma : list nat :=
  [0; 6; 12; 18; 24; 10; 16; 22; 3; 9; 20; 1; 7; 13; 19; 5; 11; 17; 23; 4; 15; 21; 2; 8; 14]%nat.

Definition place (k j : nat) : nat := Nat.iter k (fun j => nth j sigma 0%nat) j.

Definition view (k : nat) (a : lanes) : lanes := map (fun j => a.[place k j]) (seq 0 25).

Ltac lanes25 a :=
  do 25 (destruct a as [|? a]; [discriminate|]); destruct a; [|discriminate].

(** Moving the lanes permutes every column within itself. *)
Lemma columns_view k a : (k < 4)%nat -> length a = 25%nat -> columns (view k a) = columns a.
Proof.
  intros Hk Hl. lanes25 a. clear Hl.
  do 4 (destruct k as [|k]; [cbv -[Z.lxor]; repeat apply (f_equal2 (@cons Z));
    try reflexivity; apply Z.bits_inj'; intros n Hn; rewrite !Z.lxor_spec; btauto|]). lia.
Qed.

(** Symbolic evaluation of one round on 25 unknown lanes. *)
Ltac keccak_round_tac a :=
  intros Hl; unfold keccak_round, theta; rewrite columns_view by (done || lia);
  lanes25 a; clear Hl; cbv -[Z.lxor Z.ldiff rol64]; reflexivity.

Lemma round1_ref a rci : length a = 25%nat -> view 1 (keccakF_round1 a rci) = keccak_round (view 0 a) rci.
Proof. keccak_round_tac a. Qed.

Lemma round2_ref a rci : length a = 25%nat -> view 2 (keccakF_round2 a rci) = keccak_round (view 1 a) rci.
Proof. keccak_round_tac a. Qed.

Lemma round3_ref a rci : length a = 25%nat -> view 3 (keccakF_round3 a rci) = keccak_round (view 2 a) rci.
Proof. keccak_round_tac a. Qed.

Lemma round4_ref a rci : length a = 25%nat -> view 4 (keccakF_round4 a rci) = keccak_round (view 3 a) rci.
Proof. keccak_round_tac a. Qed.

Lemma view_0 a : length a = 25%nat -> view 0 a = a.
Proof. intros Hl. lanes25 a. reflexivity. Qed.

(** After four rounds every lane is back in its place. *)
Lemma view_4 a : length a = 25%nat -> view 4 a = a.
Proof. intros Hl. lanes25 a. reflexivity. Qed.

Lemma length_round1 a rci : length a = 25%nat -> length (keccakF_round1 a rci) = 25%nat.
Proof. intros Hl. lanes25 a. cbv -[Z.lxor Z.ldiff rol64]. reflexivity. Qed.

Lemma length_round2 a rci : length a = 25%nat -> length (keccakF_round2 a rci) = 25%nat.
Proof. intros Hl. lanes25 a. cbv -[Z.lxor Z.ldiff rol64]. reflexivity. Qed.

Lemma length_round3 a rci : length a = 25%nat -> length (keccakF_round3 a rci) = 25%nat.
Proof. intros Hl. lanes25 a. cbv -[Z.lxor Z.ldiff rol64]. reflexivity. Qed.

Lemma length_round4 a rci : length a = 25%nat -> length (keccakF_round4 a rci) = 25%nat.
Proof. intros Hl. lanes25 a. cbv -[Z.lxor Z.ldiff rol64]. reflexivity. Qed.

Lemma keccak_round_length a rci : length (keccak_round a rci) = 25%nat.
Proof. unfold keccak_round, iota. by rewrite length_insert. Qed.

#[local] Opaque keccakF_round1 keccakF_round2 keccakF_round3 keccakF_round4 keccak_round view.

Lemma keccakF_iter_ref a i : length a = 25%nat ->
  keccakF_iter a i = keccak_round (keccak_round (keccak_round (keccak_round a rc.[i]) rc.[i + 1]) rc.[i + 2]) rc.[i + 3].
Proof.
  intros Hl. unfold keccakF_iter.
  assert (L1 := length_round1 a rc.[i] Hl). assert (L2 := length_round2 _ rc.[i + 1] L1).
  assert (L3 := length_round3 _ rc.[i + 2] L2). assert (L4 := length_round4 _ rc.[i + 3] L3).
  rewrite <- (view_4 _ L4), (round4_ref _ _ L3), (round3_ref _ _ L2), (round2_ref _ _ L1), (round1_ref _ _ Hl).
  by rewrite (view_0 _ Hl).
Qed.

(** The table of the source holds the round constants. *)
Lemma rc_constants : rc = map round_constant (seq 0 24).
Proof. vm_compute. reflexivity. Qed.

Lemma keccakF_iter_length a i : length a = 25%nat -> length (keccakF_iter a i) = 25%nat.
Proof. intros Hl. rewrite (keccakF_iter_ref a i Hl). apply keccak_round_length. Qed.

Lemma keccakF1600_length a : length a = 25%nat -> length (keccakF1600 a) = 25%nat.
Proof. intros Hl. unfold keccakF1600. cbn [fold_left]. by do 6 apply keccakF_iter_length. Qed.

Lemma keccakF1600_ref a : length a = 25%nat -> keccakF1600 a = keccak_f a.
Proof.
  intros Hl. unfold keccakF1600, keccak_f. cbn [fold_left seq].
  do 6 (rewrite keccakF_iter_ref by (repeat apply keccakF_iter_length; exact Hl)).
  assert (C : forall n, (n < 24)%nat -> rc.[n] = round_constant n).
  { intros n Hn. rewrite rc_constants. do 24 (destruct n as [|n]; [reflexivity|]). lia. }
  cbn [Nat.add]. by rewrite !C by lia.
Qed.
