(* ===== verification/Keccak.v ===== *)
(** The Keccak sponge: [crypto/sha3/sha3.go], [hashes.go], [shake.go] and the
    two implementations of [xorIn] and [copyOut] ([xor_generic.go],
    [xor_unaligned.go]); [Keccak256] and [Keccak512] of [crypto/crypto.go].

    The buffer of the state is a slice of its [storage] array: it is given by
    its bounds, since [clone] computes with the capacity of the slice. *)
From S2P Require Import Prelude KeccakF.

(** ** Little-endian words *)

Fixpoint le_value (b : bytes) : Z :=
  match b with [] => 0 | x :: b' => x + 256 * le_value b' end.

Fixpoint le_pad (k : nat) (n : Z) : bytes :=
  match k with O => [] | S k' => n `mod` 256 :: le_pad k' (n / 256) end.

(** ** Words in and out of the lanes *)

Fixpoint xorIn_loop (n : nat) (a : lanes) (buf : bytes) : lanes :=
  match n, a with
  | S n', x :: a' => Z.lxor x (le_value (take 8 buf)) :: xorIn_loop n' a' (drop 8 buf)
  | _, _ => a
  end.

Definition xorInGeneric (a : lanes) (buf : bytes) : lanes := xorIn_loop (length buf / 8) a buf.

(** [d.a[i] ^= bw[i]] for the indices from [lo] to [hi]. *)
Definition xor_words (lo hi : nat) (buf : bytes) (a : lanes) : lanes :=
  fold_left (fun a i => <[i := Z.lxor (nth i a 0) (le_value (take 8 (drop (8 * i) buf)))]> a)
    (seq lo (S hi - lo)) a.

Definition xorInUnaligned (a : lanes) (buf : bytes) : lanes :=
  let n := zlen buf in
  let a := if n >=? 72 then xor_words 0 8 buf a else a in
  let a := if n >=? 104 then xor_words 9 12 buf a else a in
  let a := if n >=? 136 then xor_words 13 16 buf a else a in
  let a := if n >=? 144 then xor_words 17 17 buf a else a in
  if n >=? 168 then xor_words 18 20 buf a else a.

(** The bytes written into a buffer of [n] bytes. *)
Definition copyOutGeneric (a : lanes) (n : nat) : bytes := concat (map (le_pad 8) (take (n / 8) a)).

Definition maxRate : nat := 168.

Definition copyOutUnaligned (a : lanes) (n : nat) : bytes :=
  take n (take maxRate (concat (map (le_pad 8) a))).

(** ** The state *)

Inductive spongeDirection := spongeAbsorbing | spongeSqueezing.

Record state := mkState {
  st_a : lanes;
  st_buf : option (nat * nat);       (* bounds of the slice in [storage]; nil *)
  st_rate : nat;
  st_dsbyte : Z;
  st_storage : bytes;
  st_outputLen : nat;
  st_state : spongeDirection
}.

Definition set_sponge (d : state) (a : lanes) (buf : nat * nat) (storage : bytes) (dir : spongeDirection) : state :=
  mkState a (Some buf) (st_rate d) (st_dsbyte d) storage (st_outputLen d) dir.

Definition buf_bounds (d : state) : nat * nat := default (0, 0)%nat (st_buf d).
Definition buf_len (d : state) : nat := let '(lo, hi) := buf_bounds d in (hi - lo)%nat.
Definition buf_bytes (d : state) : bytes :=
  let '(lo, hi) := buf_bounds d in take (hi - lo) (drop lo (st_storage d)).

Definition Sponge_Reset (d : state) : state :=
  set_sponge d (replicate 25 0) (0, 0)%nat (st_storage d) spongeAbsorbing.

(** [clone]: a slice expression with bounds out of order or out of range panics.
    The capacity of a slice of the storage is what is left of it. *)
Definition Sponge_clone {E} (d : state) : outcome E state :=
  match st_state d with
  | spongeAbsorbing => Ok (set_sponge d (st_a d) (0, buf_len d)%nat (st_storage d) (st_state d))
  | spongeSqueezing =>
      let cap := match st_buf d with Some (lo, _) => (maxRate - lo)%nat | None => O end in
      if (st_rate d <? cap)%nat then Panic
      else Ok (set_sponge d (st_a d) (st_rate d - cap, st_rate d)%nat (st_storage d) (st_state d))
  end.

Definition permute (d : state) : state :=
  match st_state d with
  | spongeAbsorbing =>
      set_sponge d (keccakF1600 (xorInGeneric (st_a d) (buf_bytes d))) (0, 0)%nat (st_storage d) (st_state d)
  | spongeSqueezing =>
      let a := keccakF1600 (st_a d) in
      set_sponge d a (0, st_rate d)%nat (store_at 0 (copyOutGeneric a (st_rate d)) (st_storage d)) (st_state d)
  end.

(** [append(d.buf, b...)] within the capacity of the storage. *)
Definition append_buf (d : state) (b : bytes) : state :=
  let '(lo, hi) := buf_bounds d in
  set_sponge d (st_a d) (lo, hi + length b)%nat (store_at hi b (st_storage d)) (st_state d).

Definition padAndPermute (dsbyte : Z) (d : state) : state :=
  let d := append_buf d [dsbyte] in
  let zerosStart := buf_len d in
  let storage := store_at zerosStart (replicate (st_rate d - zerosStart) 0) (st_storage d) in
  let storage := <[(st_rate d - 1)%nat := Z.lxor (nth (st_rate d - 1) storage 0) 0x80]> storage in
  let d := permute (set_sponge d (st_a d) (0, st_rate d)%nat storage (st_state d)) in
  set_sponge d (st_a d) (0, st_rate d)%nat
    (store_at 0 (copyOutGeneric (st_a d) (st_rate d)) (st_storage d)) spongeSqueezing.

(** The loop of [Write]: every iteration takes at least one byte of [p]. *)
Fixpoint Write_loop (fuel : nat) (d : state) (p : bytes) : state :=
  match fuel with
  | O => d
  | S fuel' =>
      if (0 <? length p)%nat then
        if (buf_len d =? 0)%nat && (st_rate d <=? length p)%nat then
          let a := keccakF1600 (xorInGeneric (st_a d) (take (st_rate d) p)) in
          Write_loop fuel' (set_sponge d a (buf_bounds d) (st_storage d) (st_state d)) (drop (st_rate d) p)
        else
          let todo := (st_rate d - buf_len d)%nat in
          let todo := if (length p <? todo)%nat then length p else todo in
          let d := append_buf d (take todo p) in
          let d := if (buf_len d =? st_rate d)%nat then permute d else d in
          Write_loop fuel' d (drop todo p)
      else d
  end.

(** [Write] returns the number of bytes written, always all. *)
Definition Sponge_Write {E} (d : state) (p : bytes) : outcome E (state * Z) :=
  match st_state d with
  | spongeSqueezing => Panic
  | spongeAbsorbing => Ok (Write_loop (length p) (set_sponge d (st_a d) (buf_bounds d) (st_storage d) (st_state d)) p, zlen p)
  end.

(** The loop of [Read] for [n] bytes of output. *)
Fixpoint Read_loop (fuel : nat) (d : state) (n : nat) : state * bytes :=
  match fuel with
  | O => (d, [])
  | S fuel' =>
      if (0 <? n)%nat then
        let out := take n (buf_bytes d) in
        let '(lo, hi) := buf_bounds d in
        let d := set_sponge d (st_a d) (lo + length out, hi)%nat (st_storage d) (st_state d) in
        let d := if (buf_len d =? 0)%nat then permute d else d in
        let '(d, rest) := Read_loop fuel' d (n - length out) in
        (d, out ++ rest)
      else (d, [])
  end.

Definition Sponge_Read (d : state) (n : nat) : state * bytes :=
  let d := match st_state d with spongeAbsorbing => padAndPermute (st_dsbyte d) d | spongeSqueezing => d end in
  Read_loop n d n.

Definition Sponge_Sum {E} (d : state) (inp : bytes) : outcome E bytes :=
  let! dup := Sponge_clone d in
  Ok (inp ++ (Sponge_Read dup (st_outputLen dup)).2).

(** ** Instances *)

(** A composite literal: everything else is zero. *)
Definition new_state (rate outputLen : nat) (dsbyte : Z) : state :=
  mkState (replicate 25 0) None rate dsbyte (replicate maxRate 0) outputLen spongeAbsorbing.

Definition NewKeccak256 : state := new_state 136 32 0x01.
Definition NewKeccak512 : state := new_state 72 64 0x01.
Definition New224 : state := new_state 144 28 0x06.
Definition New256 : state := new_state 136 32 0x06.
Definition New384 : state := new_state 104 48 0x06.
Definition New512 : state := new_state 72 64 0x06.
Definition NewShake128 : state := new_state 168 0 0x1f.
Definition NewShake256 : state := new_state 136 0 0x1f.

(** [Write] of several slices, one after the other. *)
Fixpoint Write_all {E} (d : state) (data : list bytes) : outcome E state :=
  match data with
  | [] => Ok d
  | b :: data' => let! (d, _) := Sponge_Write d b in Write_all d data'
  end.

Definition hash_of {E} (d : state) (data : list bytes) : outcome E bytes :=
  let! d := Write_all d data in Sponge_Sum d [].

Definition crypto_Keccak256 {E} (data : list bytes) : outcome E bytes := hash_of NewKeccak256 data.
Definition crypto_Keccak512 {E} (data : list bytes) : outcome E bytes := hash_of NewKeccak512 data.

Definition Sum224 {E} (data : bytes) : outcome E bytes := hash_of New224 [data].
Definition Sum256 {E} (data : bytes) : outcome E bytes := hash_of New256 [data].
Definition Sum384 {E} (data : bytes) : outcome E bytes := hash_of New384 [data].
Definition Sum512 {E} (data : bytes) : outcome E bytes := hash_of New512 [data].

(** [ShakeSum128] and [ShakeSum256] fill a slice of [n] bytes. *)
Definition ShakeSum {E} (d : state) (n : nat) (data : bytes) : outcome E bytes :=
  let! (d, _) := Sponge_Write d data in Ok (Sponge_Read d n).2.
Definition ShakeSum128 {E} (n : nat) (data : bytes) : outcome E bytes := ShakeSum NewShake128 n data.
Definition ShakeSum256 {E} (n : nat) (data : bytes) : outcome E bytes := ShakeSum NewShake256 n data.
