(* ===== verification/KeccakTheorems.v ===== *)
(** The sponge of the source is the sponge construction of FIPS 202, whatever
    the division of the message into calls of [Write].

    Claims on the hash functions of [crypto/sha3] and [crypto/crypto.go]. *)
From S2P Require Import Prelude KeccakF Keccak.

(** ** Reference sponge (FIPS 202, section 4) *)

(** The state xored with a block followed by zeros. *)
Definition xor_block (a : lanes) (b : bytes) : lanes :=
  imap (fun i x => Z.lxor x (le_value (take 8 (drop (8 * i) b)))) a.

Section Sponge.
Context (rate : nat).

Fixpoint chunks (fuel : nat) (m : bytes) : list bytes :=
  match fuel, m with
  | S fuel', _ :: _ => take rate m :: chunks fuel' (drop rate m)
  | _, _ => []
  end.

(** Multi-rate padding; [ds] carries the domain separation and the first bit of the padding. *)
Definition pad (ds : Z) (m : bytes) : bytes :=
  match (rate - length m mod rate)%nat with
  | 1%nat => m ++ [Z.lxor ds 0x80]
  | q => m ++ ds :: replicate (q - 2) 0 ++ [0x80]
  end.

Definition absorb_block (a : lanes) (b : bytes) : lanes := keccak_f (xor_block a b).

Definition absorb (m : bytes) : lanes := fold_left absorb_block (chunks (length m) m) (replicate 25 0).

Definition rate_bytes (a : lanes) : bytes := take rate (concat (map (le_pad 8) a)).

Fixpoint squeeze (fuel n : nat) (a : lanes) : bytes :=
  match fuel with
  | O => []
  | S fuel' =>
      if (n <=? rate)%nat then take n (rate_bytes a)
      else rate_bytes a ++ squeeze fuel' (n - rate) (keccak_f a)
  end.

Definition sponge (ds : Z) (n : nat) (m : bytes) : bytes := squeeze n n (absorb (pad ds m)).

End Sponge.

(** The rates in use. *)
Definition rate_ok (rate : nat) : Prop := (0 < rate <= maxRate)%nat /\ (rate mod 8 = 0)%nat.

(** ** Words *)

Lemma le_pad_length k n : length (le_pad k n) = k.
Proof. revert n. induction k as [|k IH]; intros n; simpl; [done|]. by rewrite IH. Qed.

Lemma le_pad_ok k n : bytes_ok (le_pad k n).
Proof.
  revert n. induction k as [|k IH]; intros n; simpl; constructor; [|apply IH].
  apply Z.mod_pos_bound. lia.
Qed.

#[local] Arguments le_pad : simpl never.
#[local] Arguments Nat.mul : simpl never.
#[local] Arguments Nat.leb : simpl never.

Lemma drop_8_nil (b : bytes) i : (length b <= 8 * i)%nat -> le_value (take 8 (drop (8 * i) b)) = 0.
Proof. intros Hl. by rewrite drop_ge by lia. Qed.

Lemma xor_block_nil a b : length b = 0%nat -> xor_block a b = a.
Proof.
  intros Hl. unfold xor_block. apply nil_length_inv in Hl as ->.
  apply list_eq. intros i. rewrite list_lookup_imap, drop_nil. destruct (a !! i); simpl; [|done].
  f_equal. apply Z.lxor_0_r.
Qed.

Lemma xor_block_cons x a b : xor_block (x :: a) b = Z.lxor x (le_value (take 8 b)) :: xor_block a (drop 8 b).
Proof.
  unfold xor_block. cbn [imap]. f_equal. apply imap_ext. intros i y _. unfold compose.
  rewrite drop_drop. by replace (8 + 8 * i)%nat with (8 * S i)%nat by lia.
Qed.

Lemma xorIn_loop_block n : forall a b, length b = (8 * n)%nat -> xorIn_loop n a b = xor_block a b.
Proof.
  induction n as [|n IH]; intros a b Hl; simpl.
  - rewrite xor_block_nil; [done|lia].
  - destruct a as [|x a]; [done|]. rewrite xor_block_cons. f_equal. apply IH. rewrite length_drop. lia.
Qed.

Lemma xorInGeneric_block a b : (length b mod 8 = 0)%nat -> xorInGeneric a b = xor_block a b.
Proof.
  intros Hm. unfold xorInGeneric. apply xorIn_loop_block. apply Nat.Div0.div_exact in Hm. lia.
Qed.

Lemma xor_block_length a b : length (xor_block a b) = length a.
Proof. unfold xor_block. apply length_imap. Qed.

Lemma concat_le_length (a : lanes) : length (concat (map (le_pad 8) a)) = (8 * length a)%nat.
Proof. induction a as [|x a IH]; cbn [map concat length]; [done|]. rewrite length_app, le_pad_length, IH. lia. Qed.

Lemma take_concat_le n (a : lanes) : (n <= length a)%nat ->
  concat (map (le_pad 8) (take n a)) = take (8 * n) (concat (map (le_pad 8) a)).
Proof.
  revert n. induction a as [|x a IH]; intros [|n] Hn; try done; cbn [length] in Hn; try lia.
  cbn [take map concat length] in *. rewrite IH by lia. rewrite take_app, le_pad_length, (take_ge (le_pad 8 x)) by (rewrite le_pad_length; lia).
  by replace (8 * S n - 8)%nat with (8 * n)%nat by lia.
Qed.

Lemma copyOutGeneric_rate rate a : rate_ok rate -> length a = 25%nat -> copyOutGeneric a rate = rate_bytes rate a.
Proof.
  intros [[_ Hr] Hm] Hl. unfold copyOutGeneric, rate_bytes, maxRate in *.
  apply Nat.Div0.div_exact in Hm. rewrite take_concat_le by (rewrite Hl; lia). by rewrite <- Hm.
Qed.

Lemma rate_bytes_length rate a : rate_ok rate -> length a = 25%nat -> length (rate_bytes rate a) = rate.
Proof.
  intros [[_ Hr] _] Hl. unfold rate_bytes, maxRate in *. rewrite length_take, concat_le_length. lia.
Qed.

Lemma rate_bytes_ok rate a : bytes_ok (rate_bytes rate a).
Proof.
  unfold rate_bytes. apply Forall_take. induction a as [|x a IH]; cbn [map concat]; [constructor|].
  apply Forall_app. split; [apply le_pad_ok|done].
Qed.

(** The variant that reads the buffer as an array of words does the same for the rates of the package. *)
Lemma xor_words_lookup lo hi b a i : (hi < length a)%nat ->
  xor_words lo hi b a !! i = (fun x => if (lo <=? i)%nat && (i <=? hi)%nat
    then Z.lxor x (le_value (take 8 (drop (8 * i) b))) else x) <$> a !! i.
Proof.
  unfold xor_words. remember (S hi - lo)%nat as n eqn:En. revert lo a En.
  induction n as [|n IH]; intros lo a En Hh; simpl.
  - destruct (Nat.leb_spec lo i), (Nat.leb_spec i hi); simpl; try lia; by destruct (a !! i).
  - rewrite IH by (rewrite ?length_insert; lia). destruct (decide (i = lo)) as [->|Hne].
    + destruct (lookup_lt_is_Some_2 a lo ltac:(lia)) as [x Ex]. rewrite list_lookup_insert_eq by lia.
      rewrite (nth_lookup_Some _ _ _ _ Ex), Ex.
      cbn [fmap option_fmap option_map]. rewrite (proj2 (Nat.leb_gt (S lo) lo)) by lia.
      rewrite (proj2 (Nat.leb_le lo lo)), (proj2 (Nat.leb_le lo hi)) by lia. done.
    + rewrite list_lookup_insert_ne by done. destruct (a !! i); [|done]. cbn [fmap option_fmap option_map]. f_equal.
      destruct (Nat.leb_spec (S lo) i), (Nat.leb_spec lo i); simpl; done || lia.
Qed.

Lemma xorInUnaligned_block a b : length a = 25%nat -> length b ∈ [72; 104; 136; 144; 168]%nat ->
  xorInUnaligned a b = xor_block a b.
Proof.
  intros Ha Hb. apply list_eq. intros i. unfold xor_block. rewrite list_lookup_imap. unfold xorInUnaligned, zlen.
  assert (L : forall lo hi a', length (xor_words lo hi b a') = length a').
  { intros lo hi a'. unfold xor_words. generalize (S hi - lo)%nat as n. intros n. revert lo a'.
    induction n as [|n IH]; intros lo a'; simpl; [done|]. by rewrite IH, length_insert. }
  assert (Z : forall x, (length b <= 8 * i)%nat -> Z.lxor x (le_value (take 8 (drop (8 * i) b))) = x)
    by (intros x Hx; by rewrite drop_8_nil, Z.lxor_0_r).
  rewrite !elem_of_cons, elem_of_nil in Hb. destruct Hb as [Hb|[Hb|[Hb|[Hb|[Hb|[]]]]]]; rewrite Hb; simpl;
    rewrite !xor_words_lookup by (rewrite ?L; lia); destruct (a !! i) as [x|]; try done; simpl; f_equal;
    repeat (match goal with |- context [Nat.leb ?u ?v] => destruct (Nat.leb_spec u v) end; simpl; try lia; try done);
    symmetry; apply Z; lia.
Qed.

(** ** Absorbing *)

#[local] Opaque keccak_f keccakF1600.

Section Absorb.
Context (rate : nat) (Hrate : rate_ok rate).

#[local] Abbreviation step := (fun a b => keccak_f (xor_block a b)).

(** A state with lanes [a] that has [t] pending. *)
Definition absorbing (d : state) (a : lanes) (t : bytes) : Prop :=
  st_state d = spongeAbsorbing /\ st_rate d = rate /\ st_a d = a /\ length a = 25%nat /\
  buf_bounds d = (0, length t)%nat /\ take (length t) (st_storage d) = t /\
  length (st_storage d) = maxRate /\ (length t < rate)%nat.

(** The message [m] read so far: complete blocks, and the pending rest. *)
Definition absorbed (m : bytes) (a : lanes) (t : bytes) : Prop :=
  exists bs, m = concat bs ++ t /\ Forall (fun b => length b = rate) bs /\
    a = fold_left (absorb_block) bs (replicate 25 0).

Lemma absorbing_buf d a t : absorbing d a t -> buf_len d = length t /\ buf_bytes d = t.
Proof.
  intros (_ & _ & _ & _ & Hb & Ht & _). unfold buf_len, buf_bytes. rewrite Hb, Nat.sub_0_r. by rewrite drop_0.
Qed.

(** The permutation applied to a block, as the source and as the reference do it. *)
Lemma permute_block a b : length a = 25%nat -> length b = rate ->
  keccakF1600 (xorInGeneric a b) = absorb_block a b /\ length (absorb_block a b) = 25%nat.
Proof.
  intros Ha Hb. destruct Hrate as [_ Hm]. unfold absorb_block. rewrite xorInGeneric_block by (by rewrite Hb).
  assert (L : length (xor_block a b) = 25%nat) by (by rewrite xor_block_length).
  rewrite <- (keccakF1600_ref _ L). split; [done|]. by apply keccakF1600_length.
Qed.

(** One more block. *)
Lemma absorbed_block m a t b p : absorbed m a t -> t ++ p = b -> length b = rate ->
  absorbed (m ++ p) (absorb_block a b) [].
Proof.
  intros (bs & -> & Hbs & ->) <- Hl. exists (bs ++ [t ++ p]). rewrite concat_app, fold_left_app. simpl.
  rewrite !app_nil_r, app_assoc. split_and!; [done| |done]. apply Forall_app. split; [done|]. by constructor.
Qed.

Lemma absorbed_more m a t p : absorbed m a t -> absorbed (m ++ p) a (t ++ p).
Proof. intros (bs & -> & Hbs & ->). exists bs. by rewrite <- app_assoc. Qed.

Lemma append_buf_absorbing d a t b : absorbing d a t -> (length t + length b <= rate)%nat ->
  let d' := append_buf d b in
  st_state d' = spongeAbsorbing /\ st_rate d' = rate /\ st_a d' = a /\
  buf_bounds d' = (0, length (t ++ b))%nat /\ take (length (t ++ b)) (st_storage d') = t ++ b /\
  length (st_storage d') = maxRate /\ buf_len d' = length (t ++ b) /\ buf_bytes d' = t ++ b.
Proof.
  intros (H1 & H2 & H3 & H4 & H5 & H6 & H7 & H8) Hl. destruct Hrate as [[_ Hr] _].
  unfold append_buf. rewrite H5. cbv zeta.
  assert (Ht : take (length (t ++ b)) (store_at (length t) b (st_storage d)) = t ++ b).
  { rewrite length_app, store_at_take by lia. by rewrite H6. }
  unfold set_sponge, buf_len, buf_bytes, buf_bounds. simpl. rewrite <- length_app, Nat.sub_0_r, drop_0.
  split_and!; try done. rewrite store_at_length; lia.
Qed.

Lemma Write_loop_ok fuel : forall d m a t p, absorbing d a t -> absorbed m a t -> (length p <= fuel)%nat ->
  exists a' t', absorbing (Write_loop fuel d p) a' t' /\ absorbed (m ++ p) a' t'.
Proof.
  induction fuel as [|fuel IH]; intros d m a t p Hd Hm Hf.
  { destruct p; [|simpl in Hf; lia]. rewrite app_nil_r. eauto. }
  cbn [Write_loop]. destruct (Nat.ltb_spec 0 (length p)) as [Hp|Hp].
  2: { destruct p; [|simpl in Hp; lia]. rewrite app_nil_r. eauto. }
  destruct (absorbing_buf _ _ _ Hd) as [Hbl Hbb]. rewrite Hbl.
  pose proof Hd as (H1 & H2 & H3 & H4 & H5 & H6 & H7 & H8). rewrite H2.
  destruct ((length t =? 0)%nat && (rate <=? length p)%nat) eqn:Fast.
  - apply andb_true_iff in Fast as [Ft Fp]. apply Nat.eqb_eq, nil_length_inv in Ft as ->. apply Nat.leb_le in Fp.
    assert (Lb : length (take rate p) = rate) by (rewrite length_take; lia).
    destruct (permute_block a (take rate p) H4 Lb) as [Ep Lp]. rewrite H3, Ep.
    assert (Em : m ++ p = (m ++ take rate p) ++ drop rate p) by (by rewrite <- app_assoc, take_drop). rewrite Em.
    apply (IH _ _ (absorb_block a (take rate p)) []).
    + unfold absorbing, buf_bounds, set_sponge. simpl. unfold buf_bounds in H5. rewrite H5. by split_and!.
    + by apply (absorbed_block m a []).
    + rewrite length_drop. lia.
  - assert (Slow : exists todo, (if (length p <? rate - length t)%nat then length p else (rate - length t)%nat) = todo /\
      (0 < todo <= length p)%nat /\ (length t + todo <= rate)%nat /\ (length t + todo = rate \/ todo = length p)%nat).
    { destruct (Nat.ltb_spec (length p) (rate - length t)); eexists; split; [done|lia|done|lia]. }
    destruct Slow as (todo & -> & Ht1 & Ht2 & Ht3).
    assert (Lt : length (take todo p) = todo) by (rewrite length_take; lia).
    destruct (append_buf_absorbing d a t (take todo p) Hd) as (A1 & A2 & A3 & A4 & A5 & A6 & A7 & A8); [lia|].
    rewrite A2, A7, length_app, Lt.
    assert (Em : m ++ p = (m ++ take todo p) ++ drop todo p) by (by rewrite <- app_assoc, take_drop). rewrite Em.
    destruct (Nat.eqb_spec (length t + todo) rate) as [Full|Part].
    + assert (Lb : length (t ++ take todo p) = rate) by (rewrite length_app; lia).
      destruct (permute_block a (t ++ take todo p) H4 Lb) as [Ep Lp].
      apply (IH _ _ (absorb_block a (t ++ take todo p)) []); [|by eapply absorbed_block|rewrite length_drop; lia].
      unfold permute. rewrite A1, A3, A8, Ep. unfold absorbing, buf_bounds, set_sponge.
      cbn [st_state st_rate st_a st_buf st_storage default length].
      split_and!; [done|exact A2|reflexivity|exact Lp|reflexivity|by rewrite take_0|exact A6|lia].
    + apply (IH _ _ a (t ++ take todo p)); [|by apply absorbed_more|rewrite length_drop; lia].
      rewrite length_app, Lt in A4. unfold absorbing. rewrite !length_app, Lt in *. split_and!; try done; lia.
Qed.

Lemma append_buf_const d b : st_dsbyte (append_buf d b) = st_dsbyte d /\ st_outputLen (append_buf d b) = st_outputLen d.
Proof. unfold append_buf. by destruct (buf_bounds d). Qed.

Lemma permute_const d : st_dsbyte (permute d) = st_dsbyte d /\ st_outputLen (permute d) = st_outputLen d.
Proof. unfold permute. by destruct (st_state d). Qed.

Lemma Write_loop_const fuel : forall d p,
  st_dsbyte (Write_loop fuel d p) = st_dsbyte d /\ st_outputLen (Write_loop fuel d p) = st_outputLen d.
Proof.
  induction fuel as [|fuel IH]; intros d p; [done|]. cbn [Write_loop]. cbv zeta.
  destruct (0 <? length p)%nat; [|done]. destruct (_ && _); [by rewrite !(proj1 (IH _ _)), !(proj2 (IH _ _))|].
  match goal with |- context [append_buf d ?b] => destruct (append_buf_const d b) as [<- <-] end.
  destruct (_ =? _)%nat; [|apply IH].
  match goal with |- context [permute ?e] => destruct (permute_const e) as [<- <-] end. apply IH.
Qed.

Lemma Write_ok {E} d m a t p : absorbing d a t -> absorbed m a t ->
  exists d' a' t', @Sponge_Write E d p = Ok (d', zlen p) /\ absorbing d' a' t' /\ absorbed (m ++ p) a' t' /\
    st_dsbyte d' = st_dsbyte d /\ st_outputLen d' = st_outputLen d.
Proof.
  intros Hd Hm. unfold Sponge_Write. pose proof Hd as (H1 & H2 & H3 & H4 & H5 & H6 & H7 & H8). rewrite H1.
  assert (Hd' : absorbing (set_sponge d (st_a d) (buf_bounds d) (st_storage d) spongeAbsorbing) a t).
  { unfold absorbing, set_sponge, buf_bounds. simpl. unfold buf_bounds in H5. rewrite H5. by split_and!. }
  destruct (Write_loop_ok (length p) _ m a t p Hd' Hm ltac:(lia)) as (a' & t' & Ha & Hb).
  eexists _, a', t'. split; [done|]. split; [done|]. split; [done|].
  exact (Write_loop_const (length p) (set_sponge d (st_a d) (buf_bounds d) (st_storage d) spongeAbsorbing) p).
Qed.

(** ** Padding *)

Definition pad_block (ds : Z) (t : bytes) : bytes :=
  match (rate - length t)%nat with
  | 1%nat => t ++ [Z.lxor ds 0x80]
  | q => t ++ ds :: replicate (q - 2) 0 ++ [0x80]
  end.

Lemma pad_block_length ds t : (length t < rate)%nat -> length (pad_block ds t) = rate.
Proof.
  intros Hl. unfold pad_block. destruct (rate - length t)%nat as [|[|q]] eqn:E; [lia| |];
    rewrite length_app; cbn [length]; rewrite ?length_app, ?length_replicate; cbn [length]; lia.
Qed.

Lemma concat_length_mod (bs : list bytes) : Forall (fun b => length b = rate) bs ->
  length (concat bs) = (length bs * rate)%nat.
Proof. induction 1 as [|b bs Hb _ IH]; cbn [concat length]; [done|]. rewrite length_app, Hb, IH. lia. Qed.

Lemma pad_split ds m a t : absorbed m a t -> (length t < rate)%nat -> exists bs,
  pad rate ds m = concat bs ++ pad_block ds t /\ Forall (fun b => length b = rate) bs /\
  a = fold_left absorb_block bs (replicate 25 0).
Proof.
  intros (bs & -> & Hbs & ->) Ht. exists bs. split; [|done]. unfold pad, pad_block.
  rewrite length_app, (concat_length_mod bs Hbs), Nat.add_comm, Nat.Div0.mod_add, (Nat.mod_small _ _ Ht).
  destruct (rate - length t)%nat as [|[|q]]; by rewrite <- app_assoc.
Qed.

Lemma chunks_blocks (bs : list bytes) fuel : Forall (fun b => length b = rate) bs ->
  (length (concat bs) <= fuel)%nat -> chunks rate fuel (concat bs) = bs.
Proof.
  intros Hbs. revert fuel. destruct Hrate as [[Hr _] _].
  induction Hbs as [|b bs Hb _ IH]; intros fuel Hf; [by destruct fuel|].
  cbn [concat] in *. rewrite length_app in Hf. destruct fuel as [|fuel]; [lia|].
  destruct (b ++ concat bs) as [|x l] eqn:E; [apply app_eq_nil in E as [-> _]; simpl in Hb; lia|].
  cbn [chunks]. rewrite <- E, <- Hb, take_app_length, drop_app_length, Hb. f_equal. apply IH. lia.
Qed.

(** Absorbing the padded message is absorbing the pending rest with its padding. *)
Lemma absorb_pad ds m a t : absorbed m a t -> (length t < rate)%nat ->
  absorb rate (pad rate ds m) = absorb_block a (pad_block ds t).
Proof.
  intros Hm Ht. destruct (pad_split ds m a t Hm Ht) as (bs & E & Hbs & ->).
  assert (E' : pad rate ds m = concat (bs ++ [pad_block ds t])) by (rewrite concat_app; simpl; by rewrite app_nil_r).
  unfold absorb. rewrite E', chunks_blocks; [by rewrite fold_left_app| |done].
  apply Forall_app. split; [done|]. constructor; [by apply pad_block_length|constructor].
Qed.

(** ** Squeezing *)

(** A state with lanes [a] that has the output [s] left, starting at [lo] of the storage. *)
Definition squeezing (d : state) (a : lanes) (lo : nat) (s : bytes) : Prop :=
  st_state d = spongeSqueezing /\ st_rate d = rate /\ st_a d = a /\ length a = 25%nat /\
  st_buf d = Some (lo, rate) /\ buf_bytes d = s /\ (lo < rate)%nat /\
  length (st_storage d) = maxRate.

Lemma squeezing_len d a lo s : squeezing d a lo s -> length s = (rate - lo)%nat /\ buf_len d = (rate - lo)%nat.
Proof.
  intros (_ & _ & _ & _ & Hb & <- & Hlo & Hs). destruct Hrate as [[_ Hr] _].
  unfold buf_bytes, buf_len, buf_bounds. rewrite Hb. simpl. rewrite length_take, length_drop. lia.
Qed.

Lemma padded_storage t ds st : length st = maxRate -> take (length t) st = t -> (length t < rate)%nat ->
  let st1 := store_at (length t) [ds] st in
  let st2 := store_at (S (length t)) (replicate (rate - S (length t)) 0) st1 in
  let st3 := <[(rate - 1)%nat := Z.lxor (nth (rate - 1) st2 0) 0x80]> st2 in
  take rate st3 = pad_block ds t /\ length st3 = maxRate.
Proof.
  intros Hl Ht Hr. destruct Hrate as [[_ Hrm] _]. cbv zeta.
  assert (Ht1 : take (S (length t)) (store_at (length t) [ds] st) = t ++ [ds]).
  { rewrite <- (Nat.add_1_r (length t)). change 1%nat with (length [ds]) at 1. rewrite store_at_take by lia. by rewrite Ht. }
  assert (Hl1 : length (store_at (length t) [ds] st) = maxRate) by (rewrite store_at_length; simpl; lia).
  set (st1 := store_at (length t) [ds] st) in *.
  assert (Hl2 : length (store_at (S (length t)) (replicate (rate - S (length t)) 0) st1) = maxRate)
    by (rewrite store_at_length; rewrite ?length_replicate; lia).
  assert (Ht2 : take rate (store_at (S (length t)) (replicate (rate - S (length t)) 0) st1) =
    (t ++ [ds]) ++ replicate (rate - S (length t)) 0).
  { pose proof (store_at_take (S (length t)) (replicate (rate - S (length t)) 0) st1 ltac:(lia)) as Es.
    rewrite length_replicate in Es. replace (S (length t) + (rate - S (length t)))%nat with rate in Es by lia.
    by rewrite Es, Ht1. }
  set (st2 := store_at _ _ st1) in *. split; [|by rewrite length_insert].
  rewrite take_insert_lt by lia. rewrite Ht2.
  assert (En : nth (rate - 1) st2 0 = nth (rate - 1) ((t ++ [ds]) ++ replicate (rate - S (length t)) 0) 0).
  { rewrite <- Ht2, nth_firstn. by rewrite (proj2 (Nat.ltb_lt _ _)) by lia. }
  rewrite En. clear -Hr. unfold pad_block. destruct (rate - length t)%nat as [|[|q]] eqn:Eq; [lia| |].
  - replace (rate - S (length t))%nat with 0%nat by lia. replace (rate - 1)%nat with (length t) by lia.
    cbn [replicate]. rewrite app_nil_r, nth_middle. by rewrite insert_app_r_alt, Nat.sub_diag by lia.
  - replace (rate - S (length t))%nat with (q + 1)%nat by lia. rewrite replicate_add. cbn [replicate].
    replace (rate - 1)%nat with (length ((t ++ [ds]) ++ replicate q 0))
      by (rewrite !length_app, length_replicate; cbn [length]; lia).
    rewrite app_assoc, nth_middle, insert_app_r_alt, Nat.sub_diag by lia. simpl. rewrite Nat.sub_0_r, <- !app_assoc.
    done.
Qed.

Lemma padAndPermute_ok d m a t : absorbing d a t -> absorbed m a t ->
  squeezing (padAndPermute (st_dsbyte d) d) (absorb rate (pad rate (st_dsbyte d) m)) 0
    (rate_bytes rate (absorb rate (pad rate (st_dsbyte d) m))) /\
  st_outputLen (padAndPermute (st_dsbyte d) d) = st_outputLen d.
Proof.
  intros Hd Hm. pose proof Hd as (H1 & H2 & H3 & H4 & H5 & H6 & H7 & H8).
  rewrite (absorb_pad (st_dsbyte d) m a t Hm H8). set (ds := st_dsbyte d).
  pose proof (pad_block_length ds t H8) as Lb. destruct (permute_block a (pad_block ds t) H4 Lb) as [Ep Lp].
  destruct (padded_storage t ds (st_storage d) H7 H6 H8) as [Hp Hl]. cbv zeta in Hp, Hl.
  unfold padAndPermute. cbv zeta.
  assert (Ea : append_buf d [ds] = set_sponge d a (0, S (length t))%nat (store_at (length t) [ds] (st_storage d)) spongeAbsorbing).
  { unfold append_buf. rewrite H5, H1, H3. cbn [length]. by rewrite Nat.add_1_r. }
  rewrite Ea. clear Ea. unfold buf_len, buf_bounds. cbn [st_buf set_sponge default id st_rate st_storage st_a st_state].
  rewrite ?Nat.sub_0_r, H2. set (st3 := <[_ := _]> _) in *.
  unfold permute. cbn [st_state set_sponge st_a st_storage st_rate]. unfold buf_bytes, buf_bounds.
  cbn [st_buf set_sponge default id st_storage]. rewrite Nat.sub_0_r, drop_0, Hp, Ep, H2.
  rewrite copyOutGeneric_rate by done. split; [|done]. destruct Hrate as [[Hr0 Hrm] _].
  assert (Lr : length (rate_bytes rate (absorb_block a (pad_block ds t))) = rate) by by apply rate_bytes_length.
  unfold squeezing. cbn [st_buf set_sponge st_storage st_state st_rate st_a].
  split_and!; [done|exact H2|done|exact Lp|done| |lia|].
  - unfold buf_bytes, buf_bounds. cbn [st_buf set_sponge default id st_storage]. rewrite Nat.sub_0_r, drop_0.
    unfold store_at. rewrite take_0, app_nil_l. by apply take_app_length'.
  - rewrite store_at_length; [exact Hl|]. rewrite Hl, Lr. lia.
Qed.

(** [n] bytes of output from a state with [s] left. *)
Definition outputs (n : nat) (a : lanes) (s : bytes) : bytes :=
  if (n <=? length s)%nat then take n s else s ++ squeeze rate n (n - length s) (keccak_f a).

Lemma squeeze_fuel f1 : forall f2 n a, (n <= f1)%nat -> (n <= f2)%nat -> (0 < n)%nat ->
  squeeze rate f1 n a = squeeze rate f2 n a.
Proof.
  destruct Hrate as [[Hr _] _].
  induction f1 as [|f1 IH]; intros [|f2] n a H1 H2 H0; try lia. cbn [squeeze].
  destruct (Nat.leb_spec n rate); [done|]. f_equal. apply IH; lia.
Qed.

Lemma squeeze_outputs f n a : length a = 25%nat -> (0 < n <= f)%nat -> squeeze rate f n a = outputs n a (rate_bytes rate a).
Proof.
  intros Ha Hf. destruct f as [|f]; [lia|]. unfold outputs. rewrite rate_bytes_length by done. cbn [squeeze].
  destruct (Nat.leb_spec n rate); [done|]. f_equal. destruct Hrate as [[Hr _] _]. apply squeeze_fuel; lia.
Qed.

Lemma keccak_f_length a : length a = 25%nat -> length (keccak_f a) = 25%nat.
Proof. intros Ha. rewrite <- (keccakF1600_ref a Ha). by apply keccakF1600_length. Qed.

(** When the buffer runs dry, the output goes on with the next permutation. *)
Lemma outputs_dry n a s : length a = 25%nat -> (length s <= n)%nat ->
  outputs n a s = s ++ outputs (n - length s) (keccak_f a) (rate_bytes rate (keccak_f a)).
Proof.
  intros Ha Hn. unfold outputs at 1. destruct (Nat.leb_spec n (length s)).
  - replace (n - length s)%nat with 0%nat by lia. rewrite take_ge by lia.
    unfold outputs. rewrite (proj2 (Nat.leb_le 0 _)) by lia. by rewrite take_0, app_nil_r.
  - f_equal. apply squeeze_outputs; [by apply keccak_f_length|lia].
Qed.

Lemma outputs_split n k a s : length a = 25%nat -> (n < length s)%nat ->
  outputs (n + k) a s = take n s ++ outputs k a (drop n s).
Proof.
  intros Ha Hn. unfold outputs. rewrite length_drop.
  destruct (Nat.leb_spec (n + k) (length s)), (Nat.leb_spec k (length s - n)); try lia.
  - by rewrite take_take_drop.
  - rewrite app_assoc, take_drop. f_equal. replace (n + k - length s)%nat with (k - (length s - n))%nat by lia.
    apply squeeze_fuel; lia.
Qed.

Lemma Read_step d a lo s n : squeezing d a lo s -> (0 < n)%nat ->
  let out := take n s in
  let d1 := set_sponge d (st_a d) (lo + length out, rate)%nat (st_storage d) (st_state d) in
  (n < length s /\ squeezing d1 a (lo + n) (drop n s) /\ buf_len d1 <> 0)%nat \/
  (length s <= n /\ buf_len d1 = 0)%nat /\ out = s /\
    squeezing (permute d1) (keccak_f a) 0 (rate_bytes rate (keccak_f a)).
Proof.
  intros Hd Hn. destruct (squeezing_len _ _ _ _ Hd) as [Ls _]. destruct Hrate as [[Hr0 Hrm] _].
  destruct Hd as (H1 & H2 & H3 & H4 & H5 & H6 & H7 & H8). cbv zeta. rewrite length_take.
  unfold buf_len, buf_bounds. cbn [st_buf set_sponge default id].
  destruct (Nat.lt_ge_cases n (length s)) as [L|L]; [left|right].
  - replace (n `min` length s)%nat with n by lia. split; [done|]. split; [|lia].
    unfold squeezing. cbn [st_buf set_sponge st_storage st_state st_rate st_a].
    split_and!; [done|done|done|done|done| |lia|done].
    unfold buf_bytes, buf_bounds in *. rewrite H5 in H6. cbn [st_buf set_sponge default id st_storage] in *.
    rewrite <- H6, skipn_firstn_comm, drop_drop. f_equal. lia.
  - replace (n `min` length s)%nat with (length s) by lia. split; [lia|]. split; [by apply take_ge|].
    unfold permute. cbn [st_state set_sponge st_a st_rate st_storage]. rewrite H1, H2, H3.
    assert (La := keccak_f_length a H4). rewrite (keccakF1600_ref a H4), copyOutGeneric_rate by done.
    assert (Lr : length (rate_bytes rate (keccak_f a)) = rate) by by apply rate_bytes_length.
    unfold squeezing. cbn [st_buf set_sponge st_storage st_state st_rate st_a].
    split_and!; [done|done|done|exact La|done| |lia|].
    + unfold buf_bytes, buf_bounds. cbn [st_buf set_sponge default id st_storage]. rewrite Nat.sub_0_r, drop_0.
      unfold store_at. rewrite take_0, app_nil_l. by apply take_app_length'.
    + rewrite store_at_length; [done|]. rewrite H8, Lr. lia.
Qed.

Lemma Read_loop_ok fuel : forall d a lo s n, squeezing d a lo s -> (n <= fuel)%nat ->
  exists a' lo' s', (Read_loop fuel d n).2 = outputs n a s /\ squeezing (Read_loop fuel d n).1 a' lo' s' /\
    (forall k, outputs (n + k) a s = outputs n a s ++ outputs k a' s') /\ lo' = ((lo + n) mod rate)%nat.
Proof.
  assert (Zero : forall d a lo s, squeezing d a lo s -> exists a' lo' s',
    [] = outputs 0 a s /\ squeezing d a' lo' s' /\ (forall k, outputs (0 + k) a s = outputs 0 a s ++ outputs k a' s') /\
    lo' = ((lo + 0) mod rate)%nat).
  { intros d a lo s Hd. exists a, lo, s. pose proof Hd as (_ & _ & _ & _ & _ & _ & Hlo & _).
    split_and!; [|done| |by rewrite Nat.add_0_r, Nat.mod_small]; unfold outputs; by rewrite (proj2 (Nat.leb_le 0 _)) by lia. }
  induction fuel as [|fuel IH]; intros d a lo s n Hd Hf.
  { assert (n = 0%nat) as -> by lia. by apply Zero. }
  cbn [Read_loop]. destruct (Nat.ltb_spec 0 n) as [Hn|Hn].
  2: { assert (n = 0%nat) as -> by lia. by apply Zero. }
  pose proof (Read_step d a lo s n Hd Hn) as St. pose proof Hd as (_ & _ & _ & Ha & H5 & H6 & _).
  assert (Hb : buf_bounds d = (lo, rate)) by (unfold buf_bounds; by rewrite H5).
  rewrite H6, Hb. cbv zeta in *. destruct (squeezing_len _ _ _ _ Hd) as [Ls _].
  pose proof Hd as (_ & _ & _ & _ & _ & _ & Hlo & _). destruct St as [(L & Hd1 & Hl)|[[L Hl] [Eo Hd1]]].
  - rewrite (proj2 (Nat.eqb_neq _ _)) by done.
    replace (n - length (take n s))%nat with 0%nat by (rewrite length_take; lia).
    destruct (IH _ _ _ _ 0%nat Hd1 ltac:(lia)) as (a' & lo' & s' & E & Hd' & Hk & Hm).
    destruct (Read_loop fuel _ 0) as [d2 rest]. simpl in E, Hd' |- *. subst rest.
    exists a', lo', s'. split_and!; [|done| |by rewrite Hm, Nat.add_0_r].
    + rewrite <- outputs_split by done. by rewrite Nat.add_0_r.
    + intros k. rewrite outputs_split by done. specialize (Hk k). rewrite Nat.add_0_l in Hk. rewrite Hk.
      rewrite app_assoc. f_equal. symmetry. rewrite <- (Nat.add_0_r n) at 1. by apply outputs_split.
  - rewrite Hl, Eo. cbn [Nat.eqb]. rewrite Eo in Hd1.
    destruct (IH _ _ _ _ (n - length s)%nat Hd1 ltac:(lia)) as (a' & lo' & s' & E & Hd' & Hk & Hm).
    destruct (Read_loop fuel _ (n - length s)) as [d2 rest]. simpl in E, Hd' |- *. subst rest.
    exists a', lo', s'. split_and!; [|done| |].
    + by rewrite <- outputs_dry.
    + intros k. rewrite (outputs_dry (n + k) a s), (outputs_dry n a s) by (done || lia). rewrite <- app_assoc. f_equal.
      rewrite <- Hk. f_equal. lia.
    + rewrite Hm, Nat.add_0_l. rewrite <- (Nat.Div0.mod_add (n - length s) 1 rate). f_equal. lia.
Qed.

End Absorb.

(** ** Whole computations *)

Lemma squeeze_all rate n a : rate_ok rate -> length a = 25%nat -> squeeze rate n n a = outputs rate n a (rate_bytes rate a).
Proof.
  intros Hr Ha. destruct n as [|n]; [|apply squeeze_outputs; [done|done|lia]].
  unfold outputs. by rewrite (proj2 (Nat.leb_le 0 _)) by lia.
Qed.

Lemma new_state_absorbing rate n ds : rate_ok rate ->
  absorbing rate (new_state rate n ds) (replicate 25 0) [] /\ absorbed rate [] (replicate 25 0) [].
Proof.
  intros [[Hr _] _]. split; [|by exists []].
  unfold absorbing, new_state. cbn [st_state st_rate st_a st_storage length]. by split_and!.
Qed.

Lemma Write_all_ok {E} rate d m a t data : rate_ok rate -> absorbing rate d a t -> absorbed rate m a t ->
  exists d' a' t', @Write_all E d data = Ok d' /\ absorbing rate d' a' t' /\ absorbed rate (m ++ concat data) a' t' /\
    st_dsbyte d' = st_dsbyte d /\ st_outputLen d' = st_outputLen d.
Proof.
  intros Hr. revert d m a t. induction data as [|b data IH]; intros d m a t Hd Hm; cbn [Write_all concat].
  { rewrite app_nil_r. by exists d, a, t. }
  destruct (Write_ok (E:=E) rate Hr d m a t b Hd Hm) as (d1 & a1 & t1 & -> & Hd1 & Hm1 & E1 & E2). cbn [obind].
  destruct (IH d1 _ a1 t1 Hd1 Hm1) as (d2 & a2 & t2 & -> & Hd2 & Hm2 & E3 & E4).
  exists d2, a2, t2. rewrite <- app_assoc in Hm2. split_and!; [done|done|done|by rewrite E3|by rewrite E4].
Qed.

(** Reading from a state that has absorbed [m]. *)
Lemma Read_absorbed rate d m a t n : rate_ok rate -> absorbing rate d a t -> absorbed rate m a t ->
  exists a' lo' s', (Sponge_Read d n).2 = sponge rate (st_dsbyte d) n m /\
    squeezing rate (Sponge_Read d n).1 a' lo' s' /\
    (forall k, sponge rate (st_dsbyte d) (n + k) m = sponge rate (st_dsbyte d) n m ++ outputs rate k a' s') /\
    lo' = (n mod rate)%nat.
Proof.
  intros Hr Hd Hm. pose proof Hd as (H1 & _). unfold Sponge_Read. rewrite H1.
  destruct (padAndPermute_ok rate Hr d m a t Hd Hm) as [Hs _].
  destruct (Read_loop_ok rate Hr n _ _ _ _ n Hs ltac:(lia)) as (a' & lo' & s' & E & Hd' & Hk & Hlo).
  pose proof Hs as (_ & _ & _ & La & _). exists a', lo', s'. unfold sponge. rewrite E.
  split_and!; [by rewrite squeeze_all|done| |done]. intros k. rewrite !squeeze_all by done. apply Hk.
Qed.

(** Reading on from a squeezing state. *)
Lemma Read_squeezing rate d a lo s n : rate_ok rate -> squeezing rate d a lo s ->
  (Sponge_Read d n).2 = outputs rate n a s.
Proof.
  intros Hr Hd. pose proof Hd as (H1 & _). unfold Sponge_Read. rewrite H1.
  by destruct (Read_loop_ok rate Hr n d a lo s n Hd ltac:(lia)) as (a' & lo' & s' & -> & _).
Qed.

Lemma clone_absorbing {E} rate d a t : absorbing rate d a t ->
  exists d', @Sponge_clone E d = Ok d' /\ absorbing rate d' a t /\ st_dsbyte d' = st_dsbyte d /\
    st_outputLen d' = st_outputLen d.
Proof.
  intros Hd. destruct (absorbing_buf rate d a t Hd) as [Hl _]. destruct Hd as (H1 & H2 & H3 & H4 & H5 & H6 & H7 & H8).
  unfold Sponge_clone. rewrite H1. eexists. split; [done|]. split; [|done].
  unfold absorbing, buf_bounds. cbn [st_buf set_sponge default id st_storage st_state st_rate st_a].
  rewrite Hl. by split_and!.
Qed.

Lemma hash_of_ok {E} rate n ds data : rate_ok rate ->
  @hash_of E (new_state rate n ds) data = Ok (sponge rate ds n (concat data)).
Proof.
  intros Hr. destruct (new_state_absorbing rate n ds Hr) as [Hd Hm]. unfold hash_of.
  destruct (Write_all_ok (E:=E) rate _ [] _ [] data Hr Hd Hm) as (d1 & a1 & t1 & -> & Hd1 & Hm1 & E1 & E2). cbn [obind].
  unfold Sponge_Sum. destruct (clone_absorbing (E:=E) rate d1 a1 t1 Hd1) as (d2 & -> & Hd2 & E3 & E4). cbn [obind].
  destruct (Read_absorbed rate d2 _ a1 t1 (st_outputLen d2) Hr Hd2 Hm1) as (_ & _ & _ & -> & _).
  by rewrite E3, E1, E4, E2.
Qed.

Lemma rates_ok : Forall rate_ok [72; 104; 136; 144; 168]%nat.
Proof. repeat constructor; unfold maxRate; lia. Qed.

Lemma squeeze_length rate f n a : rate_ok rate -> length a = 25%nat -> (n <= f)%nat ->
  length (squeeze rate f n a) = n /\ bytes_ok (squeeze rate f n a).
Proof.
  intros Hr. revert n a. induction f as [|f IH]; intros n a Ha Hn; cbn [squeeze].
  - split; [simpl; lia|constructor].
  - pose proof (rate_bytes_length rate a Hr Ha) as L. pose proof (rate_bytes_ok rate a) as Ho.
    destruct (Nat.leb_spec n rate); [split; [rewrite length_take; lia|by apply Forall_take]|].
    destruct Hr as [[Hr0 Hr1] Hr2]. destruct (IH (n - rate)%nat (keccak_f a)) as [L2 O2]; [by apply keccak_f_length|lia|].
    rewrite length_app, L, L2. split; [lia|]. by apply Forall_app.
Qed.

Lemma absorb_length rate m : rate_ok rate -> length (absorb rate m) = 25%nat.
Proof.
  intros Hr. unfold absorb. generalize (chunks rate (length m) m). intros l.
  assert (L : length (replicate 25 0) = 25%nat) by done. revert L. generalize (replicate 25 0).
  induction l as [|b l IH]; intros a Ha; cbn [fold_left]; [done|]. apply IH. unfold absorb_block.
  apply keccak_f_length. by rewrite xor_block_length.
Qed.

Lemma sponge_ok rate ds n m : rate_ok rate -> length (sponge rate ds n m) = n /\ bytes_ok (sponge rate ds n m).
Proof. intros Hr. apply squeeze_length; [done|by apply absorb_length|lia]. Qed.

#[local] Opaque keccak_f keccakF1600.

(** C33: the unrolled in-place permutation of [keccakf.go] is Keccak-f[1600] of
    FIPS 202: on every state of 25 lanes it equals 24 rounds of theta, rho, pi,
    chi and iota, with the rotation offsets and the round constants computed
    from their definitions. *)
Theorem keccakF1600_spec (a : lanes) : length a = 25%nat -> keccakF1600 a = keccak_f a.
Proof. apply keccakF1600_ref. Qed.

(** every hash function is the sponge construction over the concatenation
    of its arguments, so the division of a message into writes does not matter;
    none of them panics, whatever the message. *)
Theorem hash_functions_spec (data : list bytes) (b : bytes) :
  @crypto_Keccak256 unit data = Ok (sponge 136 0x01 32 (concat data)) /\
  @crypto_Keccak512 unit data = Ok (sponge 72 0x01 64 (concat data)) /\
  @Sum224 unit b = Ok (sponge 144 0x06 28 b) /\ @Sum256 unit b = Ok (sponge 136 0x06 32 b) /\
  @Sum384 unit b = Ok (sponge 104 0x06 48 b) /\ @Sum512 unit b = Ok (sponge 72 0x06 64 b).
Proof.
  pose proof rates_ok as R. rewrite !Forall_cons in R. destruct R as (R1 & R2 & R3 & R4 & R5 & _).
  unfold crypto_Keccak256, crypto_Keccak512, Sum224, Sum256, Sum384, Sum512,
    NewKeccak256, NewKeccak512, New224, New256, New384, New512.
  rewrite !hash_of_ok by done. cbn [concat]. by rewrite !app_nil_r.
Qed.

(** extendable output: after any writes, reading [n] bytes and then [k]
    bytes gives the first [n + k] bytes of the sponge, and writing to a sponge
    that was read from panics. *)
Theorem shake_stream (rate out n k : nat) (ds : Z) (data : list bytes) (p : bytes) :
  rate ∈ [72; 104; 136; 144; 168]%nat ->
  exists d1 d2 o1, @Write_all unit (new_state rate out ds) data = Ok d1 /\ Sponge_Read d1 n = (d2, o1) /\
    o1 ++ (Sponge_Read d2 k).2 = sponge rate ds (n + k) (concat data) /\ @Sponge_Write unit d2 p = Panic.
Proof.
  intros Hin. pose proof rates_ok as R. rewrite Forall_forall in R. specialize (R _ Hin).
  destruct (new_state_absorbing rate out ds R) as [Hd Hm].
  destruct (Write_all_ok (E:=unit) rate _ [] _ [] data R Hd Hm) as (d1 & a1 & t1 & E & Hd1 & Hm1 & Eds & _).
  destruct (Read_absorbed rate d1 _ a1 t1 n R Hd1 Hm1) as (a' & lo & s & E1 & Hs & Hk & _).
  exists d1. destruct (Sponge_Read d1 n) as [d2 o1]. cbn [fst snd] in *. exists d2, o1.
  rewrite (Read_squeezing rate d2 a' lo s k R Hs), E1. rewrite Eds in *. change (st_dsbyte (new_state rate out ds)) with ds in *.
  rewrite Hk. split_and!; [done|done|done|]. destruct Hs as (H1 & _). unfold Sponge_Write. by rewrite H1.
Qed.

(** [clone] in the squeezing direction computes the position from the
    capacity of the buffer, which is counted from the maximal rate: it panics
    while fewer than [168 - rate] bytes of the current block have been read, and
    otherwise its copy continues [168 - rate] bytes before the original.  It is
    right for SHAKE128 only, whose rate is maximal. *)
Theorem clone_position (rate out n : nat) (ds : Z) (data : list bytes) :
  rate ∈ [72; 104; 136; 144; 168]%nat ->
  exists d1, @Write_all unit (new_state rate out ds) data = Ok d1 /\
    st_buf (Sponge_Read d1 n).1 = Some (n mod rate, rate)%nat /\
    match @Sponge_clone unit (Sponge_Read d1 n).1 with
    | Ok c => (168 - rate <= n mod rate)%nat /\ st_buf c = Some (n mod rate - (168 - rate), rate)%nat
    | Err _ => False
    | Panic => (n mod rate < 168 - rate)%nat
    end.
Proof.
  intros Hin. pose proof rates_ok as R. rewrite Forall_forall in R. specialize (R _ Hin).
  destruct (new_state_absorbing rate out ds R) as [Hd Hm].
  destruct (Write_all_ok (E:=unit) rate _ [] _ [] data R Hd Hm) as (d1 & a1 & t1 & E & Hd1 & Hm1 & _).
  destruct (Read_absorbed rate d1 _ a1 t1 n R Hd1 Hm1) as (a' & lo & s & _ & Hs & _ & ->).
  exists d1. split; [done|]. destruct Hs as (H1 & H2 & _ & _ & H5 & _ & Hlo & _). split; [done|].
  destruct R as [[Hr0 Hr1] _]. unfold maxRate in Hr1. unfold Sponge_clone. rewrite H1, H2, H5. unfold maxRate.
  destruct (Nat.ltb_spec rate (168 - n mod rate)); [lia|]. cbn [st_buf set_sponge]. split; [lia|]. do 2 f_equal. lia.
Qed.


(** ** Witnesses *)

Lemma keccakF1600_spec_witness : keccakF1600 (replicate 25 0) = keccak_f (replicate 25 0).
Proof. apply (keccakF1600_spec (replicate 25 0)). reflexivity. Defined.

Lemma shake_stream_witness :
  exists d1 d2 o1, @Write_all unit (new_state 136 0 0x1f) [[1]; [2; 3]] = Ok d1 /\ Sponge_Read d1 10 = (d2, o1) /\
    o1 ++ (Sponge_Read d2 200).2 = sponge 136 0x1f (10 + 200) [1; 2; 3] /\ @Sponge_Write unit d2 [4] = Panic.
Proof. apply (shake_stream 136 0 10 200 0x1f [[1]; [2; 3]] [4]). set_solver. Defined.

Lemma clone_position_witness :
  exists d1, @Write_all unit (new_state 136 0 0x1f) [[1]] = Ok d1 /\
    st_buf (Sponge_Read d1 10).1 = Some (10, 136)%nat /\ @Sponge_clone unit (Sponge_Read d1 10).1 = Panic.
Proof.
  destruct (clone_position 136 0 10 0x1f [[1]]) as (d1 & E & Hb & Hc); [set_solver|].
  exists d1. split; [exact E|]. split; [exact Hb|].
  destruct (Sponge_clone (Sponge_Read d1 10).1) as [c|e|]; [|destruct Hc|reflexivity].
  exfalso. destruct Hc as [Hc _]. revert Hc. vm_compute. lia.
Defined.
