(* ===== verification/RlpEncode.v ===== *)
(** RLP encoder: [rlp/encode.go].

    [value] lists the kinds of Go values [makeWriter] dispatches on.  The
    encoder is the source's two-pass [encbuf]: string data is accumulated in
    one buffer, list headers in another, and [toBytes] interleaves them.
    [rlp_enc] is the reference (recursive) definition of the encoding; the
    file proves that the two-pass encoder computes it. *)
From S2P Require Import Prelude.

(** Errors of package [rlp]; [decodeError] keeps the message kind and drops the
    reflect type and the context path, which only feed [Error()]. *)
Inductive decode_msg :=
| MsgCanonInt | MsgCanonSize | MsgExpectedList | MsgExpectedString
| MsgTooLong | MsgTooShort | MsgTooMany | MsgTooFew.

Inductive rlp_err :=
| EOL | ErrExpectedString | ErrExpectedList | ErrCanonInt | ErrCanonSize
| ErrElemTooLarge | ErrValueTooLarge | ErrMoreThanOneValue
| errNotInList | errNotAtEOL | errUintOverflow
| io_EOF | io_ErrUnexpectedEOF
| errNegativeBigInt | errInvalidBool (n : Z)
| decodeError (m : decode_msg)
| customError (n : nat)            (* of a DecodeRLP method *)
| errOutOfFuel.

#[export] Instance decode_msg_eq_dec : EqDecision decode_msg.
Proof. solve_decision. Defined.
#[export] Instance rlp_err_eq_dec : EqDecision rlp_err.
Proof. solve_decision. Defined.

(** ** Headers *)

(** [putint]: the bytes written at the beginning of the buffer. *)
Definition putint (i : Z) : bytes :=
  let b k := u8 (Z.shiftr i k) in
  if i <? Z.shiftl 1 8 then [b 0]
  else if i <? Z.shiftl 1 16 then [b 8; b 0]
  else if i <? Z.shiftl 1 24 then [b 16; b 8; b 0]
  else if i <? Z.shiftl 1 32 then [b 24; b 16; b 8; b 0]
  else if i <? Z.shiftl 1 40 then [b 32; b 24; b 16; b 8; b 0]
  else if i <? Z.shiftl 1 48 then [b 40; b 32; b 24; b 16; b 8; b 0]
  else if i <? Z.shiftl 1 56 then [b 48; b 40; b 32; b 24; b 16; b 8; b 0]
  else [b 56; b 48; b 40; b 32; b 24; b 16; b 8; b 0].

(** [intsize]: the loop shifts a [uint64] right by eight until it is zero, so
    eight iterations reach the end; [fuel] bounds them. *)
Fixpoint intsize_loop (fuel : nat) (size i : Z) : Z :=
  let i := Z.shiftr i 8 in
  match fuel with
  | O => size
  | S fuel' => if i =? 0 then size else intsize_loop fuel' (size + 1) i
  end.

Definition intsize (i : Z) : Z := intsize_loop 8 1 i.

Definition headsize (size : Z) : Z :=
  if size <? 56 then 1 else 1 + intsize size.

Definition puthead (smalltag largetag size : Z) : bytes :=
  if size <? 56 then [u8 (smalltag + u8 size)]
  else let b := putint size in u8 (largetag + u8 (zlen b)) :: b.

(** ** The encoding buffer *)

Record listhead := { lh_offset : Z; lh_size : Z }.

Record encbuf := { eb_str : bytes; eb_lheads : list listhead; eb_lhsize : Z }.

Definition listhead_encode (h : listhead) : bytes := puthead 0xC0 0xF7 (u64 (lh_size h)).

Definition encbuf_reset : encbuf := {| eb_str := []; eb_lheads := []; eb_lhsize := 0 |}.

(** [Write] (and every [w.str = append(w.str, ...)]). *)
Definition encbuf_Write (b : bytes) (w : encbuf) : encbuf :=
  {| eb_str := eb_str w ++ b; eb_lheads := eb_lheads w; eb_lhsize := eb_lhsize w |}.

Definition encodeStringHeader (size : Z) (w : encbuf) : encbuf :=
  if size <? 56 then encbuf_Write [u8 (0x80 + u8 size)] w
  else let b := putint size in encbuf_Write (u8 (0xB7 + u8 (zlen b)) :: b) w.

Definition encodeString (b : bytes) (w : encbuf) : encbuf :=
  match b with
  | [x] => if x <=? 0x7F then encbuf_Write [x] w
           else encbuf_Write b (encodeStringHeader (zlen b) w)
  | _ => encbuf_Write b (encodeStringHeader (zlen b) w)
  end.

(** [list] returns a pointer to the new head: here its index in [lheads]. *)
Definition encbuf_list (w : encbuf) : encbuf * nat :=
  ({| eb_str := eb_str w;
      eb_lheads := eb_lheads w ++ [{| lh_offset := zlen (eb_str w); lh_size := eb_lhsize w |}];
      eb_lhsize := eb_lhsize w |},
   length (eb_lheads w)).

Definition encbuf_size (w : encbuf) : Z := zlen (eb_str w) + eb_lhsize w.

Definition encbuf_listEnd (lh : nat) (w : encbuf) : encbuf :=
  match eb_lheads w !! lh with
  | None => w
  | Some h =>
      let size := encbuf_size w - lh_offset h - lh_size h in
      {| eb_str := eb_str w;
         eb_lheads := <[lh := {| lh_offset := lh_offset h; lh_size := size |}]> (eb_lheads w);
         eb_lhsize := eb_lhsize w + (if size <? 56 then 1 else 1 + intsize (u64 size)) |}
  end.

Fixpoint toBytes_loop (str : bytes) (lheads : list listhead) (strpos : Z) : bytes :=
  match lheads with
  | [] => drop (Z.to_nat strpos) str
  | head :: rest =>
      take (Z.to_nat (lh_offset head - strpos)) (drop (Z.to_nat strpos) str)
      ++ listhead_encode head ++ toBytes_loop str rest (lh_offset head)
  end.

Definition encbuf_toBytes (w : encbuf) : bytes := toBytes_loop (eb_str w) (eb_lheads w) 0.

(** ** Writers *)

Inductive value :=
| VUint (n : Z)                   (* uint, uint8 ... uint64 *)
| VBool (b : bool)
| VBigInt (n : option Z)          (* *big.Int, nil included *)
| VBytes (b : bytes)              (* []byte, [n]byte and string *)
| VRawValue (b : bytes)
| VNilInterface
| VNilByteArrayPtr                (* nil *[n]byte *)
| VNilStructPtr                   (* nil pointer to a struct or an array *)
| VSlice (l : list value)         (* slices and arrays, []interface{} *)
| VTail (l : list value)          (* slice field with the tag tail *)
| VStruct (l : list value).       (* public fields in order *)

Definition writer := encbuf -> option rlp_err * encbuf.

Definition writeRawValue (b : bytes) : writer := fun w => (None, encbuf_Write b w).

Definition writeUint (i : Z) : writer := fun w =>
  if i =? 0 then (None, encbuf_Write [0x80] w)
  else if i <? 128 then (None, encbuf_Write [u8 i] w)
  else let s := putint i in (None, encbuf_Write (u8 (0x80 + u8 (zlen s)) :: s) w).

Definition writeBool (b : bool) : writer := fun w =>
  (None, encbuf_Write [if b then 0x01 else 0x80] w).

Definition writeBigInt (i : Z) : writer := fun w =>
  if i <? 0 then (Some errNegativeBigInt, w)
  else if i =? 0 then (None, encbuf_Write [0x80] w)
  else (None, encodeString (be_bytes i) w).

Definition writeBigIntPtr (p : option Z) : writer := fun w =>
  match p with
  | None => (None, encbuf_Write [0x80] w)
  | Some i => writeBigInt i w
  end.

Definition writeBytes (b : bytes) : writer := fun w => (None, encodeString b w).

Definition writeNilInterface : writer := fun w => (None, encbuf_Write [0xC0] w).

Section Composite.
Context (elemw : value -> writer).

(** The element loop shared by the slice and the struct writers. *)
Fixpoint write_elems (l : list value) : writer := fun w =>
  match l with
  | [] => (None, w)
  | v :: l' =>
      match elemw v w with
      | (Some e, w') => (Some e, w')
      | (None, w') => write_elems l' w'
      end
  end.

(** [defer w.listEnd(w.list())] also runs when an element fails. *)
Definition makeSliceWriter (tail : bool) (l : list value) : writer := fun w =>
  if tail then write_elems l w
  else
    let '(w1, lh) := encbuf_list w in
    let '(e, w2) := write_elems l w1 in
    (e, encbuf_listEnd lh w2).

Definition makeStructWriter (l : list value) : writer := fun w =>
  let '(w1, lh) := encbuf_list w in
  match write_elems l w1 with
  | (Some e, w2) => (Some e, w2)
  | (None, w2) => (None, encbuf_listEnd lh w2)
  end.

End Composite.

(** [nilfunc] of [makePtrWriter] for byte arrays and for structs and arrays. *)
Definition writeNilPtr (byteArray : bool) : writer := fun w =>
  if byteArray then (None, encbuf_Write [0x80] w)
  else let '(w1, lh) := encbuf_list w in (None, encbuf_listEnd lh w1).

Fixpoint makeWriter (v : value) : writer :=
  match v with
  | VRawValue b => writeRawValue b
  | VNilInterface => writeNilInterface
  | VBigInt p => writeBigIntPtr p
  | VUint i => writeUint i
  | VBool b => writeBool b
  | VBytes b => writeBytes b
  | VSlice l => makeSliceWriter makeWriter false l
  | VTail l => makeSliceWriter makeWriter true l
  | VStruct l => makeStructWriter makeWriter l
  | VNilByteArrayPtr => writeNilPtr true
  | VNilStructPtr => writeNilPtr false
  end.

Definition EncodeToBytes (v : value) : outcome rlp_err bytes :=
  match makeWriter v encbuf_reset with
  | (Some e, _) => Err e
  | (None, eb) => Ok (encbuf_toBytes eb)
  end.

(** ** Reference encoding *)

(** Header of a payload of [n] bytes with tag base [tag] (0x80 or 0xC0). *)
Definition rlp_head (tag n : Z) : bytes :=
  if n <? 56 then [tag + n] else (tag + 55 + Z.of_nat (byte_len n)) :: be_bytes n.

Definition rlp_str (b : bytes) : bytes :=
  match b with
  | [x] => if x <? 128 then [x] else rlp_head 0x80 (zlen b) ++ b
  | _ => rlp_head 0x80 (zlen b) ++ b
  end.

Definition rlp_list (payload : bytes) : bytes := rlp_head 0xC0 (zlen payload) ++ payload.

Fixpoint rlp_enc (v : value) : bytes :=
  match v with
  | VRawValue b => b
  | VUint i => rlp_str (be_bytes i)
  | VBool b => rlp_str (if b then [1] else [])
  | VBigInt p => rlp_str (be_bytes (default 0 p))
  | VBytes b => rlp_str b
  | VNilByteArrayPtr => rlp_str []
  | VNilInterface | VNilStructPtr => rlp_list []
  | VSlice l | VStruct l => rlp_list (concat (map rlp_enc l))
  | VTail l => concat (map rlp_enc l)
  end.

(** Values the encoder accepts: integers of their Go type, no negative big integers. *)
Inductive value_ok : value -> Prop :=
| ok_uint n : is_u64 n -> value_ok (VUint n)
| ok_bool b : value_ok (VBool b)
| ok_big_nil : value_ok (VBigInt None)
| ok_big n : 0 <= n -> value_ok (VBigInt (Some n))
| ok_bytes b : bytes_ok b -> value_ok (VBytes b)
| ok_raw b : bytes_ok b -> value_ok (VRawValue b)
| ok_nil_interface : value_ok VNilInterface
| ok_nil_byte_array : value_ok VNilByteArrayPtr
| ok_nil_struct : value_ok VNilStructPtr
| ok_slice l : Forall value_ok l -> value_ok (VSlice l)
| ok_tail l : Forall value_ok l -> value_ok (VTail l)
| ok_struct l : Forall value_ok l -> value_ok (VStruct l).

(** ** Header lemmas *)

Lemma byte_len_small i : 0 < i < 256 -> byte_len i = 1%nat.
Proof. intros H. apply byte_len_unique; [lia|]. simpl. lia. Qed.

Lemma byte_len_div i : 256 <= i -> byte_len i = S (byte_len (i / 256)).
Proof.
  intros H. assert (0 < i / 256) by (apply Z.div_str_pos; lia).
  pose proof (byte_len_bounds (i / 256) ltac:(lia)) as [B1 B2].
  assert (byte_len (i / 256) <> O) by (intros E; rewrite E in B2; simpl in B2; lia).
  pose proof (Z.div_mod i 256 ltac:(lia)) as D.
  pose proof (Z.mod_pos_bound i 256 ltac:(lia)) as M.
  set (k := Z.of_nat (byte_len (i / 256))) in *.
  apply byte_len_unique; [lia|].
  replace (Z.of_nat (S (byte_len (i / 256)))) with (k + 1) by lia.
  replace (k + 1 - 1) with ((k - 1) + 1) by lia.
  rewrite !Z.pow_add_r by lia. change (256 ^ 1) with 256. nia.
Qed.

Lemma intsize_loop_len fuel s i :
  0 < i < 256 ^ (Z.of_nat fuel + 1) -> intsize_loop fuel s i = s + Z.of_nat (byte_len i) - 1.
Proof.
  revert s i. induction fuel as [|fuel IH]; intros s i Hi; simpl.
  - rewrite byte_len_small; [lia|]. simpl in Hi. lia.
  - rewrite Z.shiftr_div_pow2 by lia. change (2 ^ 8) with 256.
    destruct (Z.eqb_spec (i / 256) 0) as [E|E].
    + rewrite byte_len_small; [lia|]. split; [lia|].
      apply Z.div_small_iff in E; lia.
    + assert (256 <= i) by (destruct (Z.lt_ge_cases i 256); [rewrite Z.div_small in E; lia|lia]).
      replace (Z.of_nat (S fuel) + 1) with (1 + (Z.of_nat fuel + 1)) in Hi by lia.
      rewrite Z.pow_add_r in Hi by lia.
      rewrite IH, (byte_len_div i); [lia|lia|].
      split; [apply Z.div_str_pos; lia|]. apply Z.div_lt_upper_bound; lia.
Qed.

Lemma intsize_byte_len i : 0 < i < 2 ^ 64 -> intsize i = Z.of_nat (byte_len i).
Proof.
  intros H. unfold intsize. rewrite intsize_loop_len; [lia|].
  split; [lia|]. etrans; [apply H|]. reflexivity.
Qed.

Lemma be_pad_S k n : be_pad (S k) n = be_pad k (n / 256) ++ [n `mod` 256].
Proof. reflexivity. Qed.

(** The unrolled [switch] of [putint] writes the shortest big-endian form. *)
Lemma putint_be i : 0 < i < 2 ^ 64 -> putint i = be_bytes i.
Proof.
  intros H. unfold putint, be_bytes.
  assert (S : forall k, 0 <= k -> Z.shiftr i k = i / 2 ^ k) by (intros; by apply Z.shiftr_div_pow2).
  rewrite !S, !Z.shiftl_mul_pow2 by lia.
  assert (E : forall k, (0 < k)%nat -> 256 ^ (Z.of_nat k - 1) <= i < 256 ^ Z.of_nat k ->
                be_pad (byte_len i) i = be_pad k i)
    by (intros k ? ?; by rewrite (byte_len_unique i k)).
  zcases;
    match goal with |- ?l = _ => rewrite (E (length l)) by (simpl length; simpl Z.of_nat; lia) end;
    simpl length; rewrite !be_pad_S, ?Z.div_div by lia; simpl be_pad; simpl app;
    unfold u8; change (i / 2 ^ 0) with (i / 1); rewrite ?Z.div_1_r; reflexivity.
Qed.

Lemma byte_len_le i k : 0 <= i < 256 ^ Z.of_nat k -> (byte_len i <= k)%nat.
Proof.
  intros H. destruct (Z.eq_dec i 0) as [->|]; [cbv; lia|].
  pose proof (byte_len_bounds i ltac:(lia)) as [B _].
  destruct (Nat.le_gt_cases (byte_len i) k) as [|G]; [done|].
  pose proof (Z.pow_le_mono_r 256 (Z.of_nat k) (Z.of_nat (byte_len i) - 1)). lia.
Qed.

Lemma puthead_ref small n :
  0 <= small -> small + 63 < 256 -> 0 <= n < 2 ^ 64 ->
  puthead small (small + 55) n = rlp_head small n.
Proof.
  intros Hs Hs' Hn. unfold puthead, rlp_head. zcase.
  - rewrite !u8_id; unfold is_byte; first [done|lia|rewrite u8_id; unfold is_byte; lia].
  - assert (L : (byte_len n <= 8)%nat) by (apply byte_len_le; change (256 ^ Z.of_nat 8) with (2 ^ 64); lia).
    cbv zeta. rewrite putint_be by lia.
    assert (Z8 : zlen (be_bytes n) = Z.of_nat (byte_len n)) by apply zlen_be_pad.
    rewrite Z8, (u8_id (Z.of_nat _)) by (unfold is_byte; lia).
    rewrite u8_id; [done|unfold is_byte; lia].
Qed.

Lemma zlen_rlp_head tag n : 0 <= n < 2 ^ 64 -> zlen (rlp_head tag n) = headsize n.
Proof.
  intros H. unfold rlp_head, headsize. zcase; [done|].
  rewrite zlen_cons, intsize_byte_len by lia. unfold be_bytes. by rewrite zlen_be_pad.
Qed.

(** ** Layout of an encoded value in the two buffers *)

Definition value_elems (v : value) : list value :=
  match v with VSlice l | VTail l | VStruct l => l | _ => [] end.

(** Induction over [value] with the hypothesis for every element of a list. *)
Section ValueInd.
Context (P : value -> Prop).
Hypothesis step : forall v, Forall P (value_elems v) -> P v.

Lemma value_ind_elems : forall v, P v.
Proof.
  fix IH 1. intros v. apply step.
  assert (L : forall l, Forall P l) by (fix L 1; intros [|x l]; constructor; [apply IH|apply L]).
  destruct v; simpl; solve [constructor | apply L].
Qed.
End ValueInd.

(** The string data of a value, without list headers. *)
Fixpoint strs (v : value) : bytes :=
  match v with
  | VSlice l | VTail l | VStruct l => concat (map strs l)
  | VNilStructPtr => []
  | _ => rlp_enc v
  end.

Definition shift_head (n : Z) (h : listhead) : listhead :=
  {| lh_offset := n + lh_offset h; lh_size := lh_size h |}.

Section LayoutElems.
Context (hd : value -> list listhead).
Fixpoint elems_heads (n : Z) (l : list value) : list listhead :=
  match l with
  | [] => []
  | v :: l' => map (shift_head n) (hd v) ++ elems_heads (n + zlen (strs v)) l'
  end.
End LayoutElems.

(** The list headers of a value, in the order they are opened, with offsets
    relative to the start of its string data. *)
Fixpoint heads (v : value) : list listhead :=
  match v with
  | VSlice l | VStruct l =>
      {| lh_offset := 0; lh_size := zlen (concat (map rlp_enc l)) |} :: elems_heads heads 0 l
  | VTail l => elems_heads heads 0 l
  | VNilStructPtr => [{| lh_offset := 0; lh_size := 0 |}]
  | _ => []
  end.

(** Bytes taken by the headers. *)
Definition hsize (v : value) : Z := zlen (rlp_enc v) - zlen (strs v).

(** The buffer after a value has been written. *)
Definition extend (w : encbuf) (s : bytes) (hs : list listhead) (n : Z) : encbuf :=
  {| eb_str := eb_str w ++ s;
     eb_lheads := eb_lheads w ++ map (shift_head (zlen (eb_str w))) hs;
     eb_lhsize := eb_lhsize w + n |}.

Lemma extend_nil w : extend w [] [] 0 = w.
Proof. destruct w. unfold extend. simpl. by rewrite !app_nil_r, Z.add_0_r. Qed.

Lemma shift_shift a b hs : map (shift_head a) (map (shift_head b) hs) = map (shift_head (a + b)) hs.
Proof.
  rewrite map_map. apply map_ext. intros [o s]. unfold shift_head. simpl. f_equal. lia.
Qed.

Lemma shift_0 hs : map (shift_head 0) hs = hs.
Proof. induction hs as [|[o s] hs IH]; simpl; [done|]. by rewrite IH. Qed.

Lemma elems_heads_shift hd a n l :
  map (shift_head a) (elems_heads hd n l) = elems_heads hd (a + n) l.
Proof.
  revert n. induction l as [|v l IH]; intros n; simpl; [done|].
  by rewrite map_app, shift_shift, IH, Z.add_assoc.
Qed.

Lemma extend_extend w s1 h1 n1 s2 h2 n2 :
  extend (extend w s1 h1 n1) s2 h2 n2 =
  extend w (s1 ++ s2) (h1 ++ map (shift_head (zlen s1)) h2) (n1 + n2).
Proof.
  unfold extend. simpl. rewrite <- !app_assoc, map_app, shift_shift, zlen_app.
  f_equal. lia.
Qed.

Lemma encbuf_Write_extend b w : encbuf_Write b w = extend w b [] 0.
Proof. unfold encbuf_Write, extend. simpl. by rewrite app_nil_r, Z.add_0_r. Qed.

Lemma encodeStringHeader_ref n w :
  0 <= n < 2 ^ 64 -> encodeStringHeader n w = encbuf_Write (rlp_head 0x80 n) w.
Proof.
  intros H. rewrite <- (puthead_ref 0x80 n) by lia. unfold encodeStringHeader, puthead.
  by zcase.
Qed.

Lemma encodeString_ref b w :
  zlen b < 2 ^ 64 -> encodeString b w = extend w (rlp_str b) [] 0.
Proof.
  intros H. pose proof (zlen_nonneg b).
  assert (E : encbuf_Write b (encodeStringHeader (zlen b) w)
              = extend w (rlp_head 0x80 (zlen b) ++ b) [] 0).
  { rewrite encodeStringHeader_ref by lia. unfold encbuf_Write, extend. simpl.
    by rewrite app_nil_r, Z.add_0_r, app_assoc. }
  unfold encodeString, rlp_str. destruct b as [|x [|y b]]; [exact E| |exact E].
  zcases; [|exact E]. apply encbuf_Write_extend.
Qed.

(** Closing the list opened in [w] fixes its size to the bytes written since. *)
Lemma list_listEnd w s hs n :
  0 <= zlen s + n < 2 ^ 64 ->
  encbuf_listEnd (length (eb_lheads w)) (extend (encbuf_list w).1 s hs n) =
  extend w s ({| lh_offset := 0; lh_size := zlen s + n |} :: hs) (n + headsize (zlen s + n)).
Proof.
  intros H. unfold encbuf_listEnd, encbuf_list, extend, headsize. simpl.
  rewrite <- app_assoc, lookup_app_r, Nat.sub_diag by lia. simpl.
  unfold encbuf_size. simpl. rewrite zlen_app.
  replace (zlen (eb_str w) + zlen s + (eb_lhsize w + n) - zlen (eb_str w) - eb_lhsize w)
    with (zlen s + n) by lia.
  rewrite u64_id by (unfold is_u64; lia).
  rewrite insert_app_r_alt, Nat.sub_diag by lia. simpl.
  f_equal; [|lia]. unfold shift_head at 2. simpl. by rewrite Z.add_0_r.
Qed.

Lemma write_elems_layout l :
  Forall (fun v => forall w, makeWriter v w = (None, extend w (strs v) (heads v) (hsize v))) l ->
  forall w, write_elems makeWriter l w =
    (None, extend w (concat (map strs l)) (elems_heads heads 0 l)
             (zlen (concat (map rlp_enc l)) - zlen (concat (map strs l)))).
Proof.
  induction 1 as [|v l Hv _ IH]; intros w; simpl.
  - by rewrite extend_nil.
  - rewrite Hv, IH, extend_extend, shift_0, elems_heads_shift, Z.add_0_r, Z.add_0_l.
    do 2 f_equal. unfold hsize. rewrite !zlen_app. lia.
Qed.

Lemma zlen_concat_elem (l : list value) v :
  v ∈ l -> zlen (rlp_enc v) <= zlen (concat (map rlp_enc l)).
Proof.
  induction 1 as [v l|v v' l _ IH]; simpl; zlen_lia.
Qed.

Lemma zlen_rlp_list p : zlen p < 2 ^ 64 -> zlen (rlp_list p) = headsize (zlen p) + zlen p.
Proof. intros H. unfold rlp_list. rewrite zlen_app, zlen_rlp_head; [done|]. split; [zlen_lia|done]. Qed.

Lemma zlen_rlp_head_pos tag n : 0 < zlen (rlp_head tag n).
Proof. unfold rlp_head. zcase; zlen_lia. Qed.

Lemma zlen_rlp_list_ge p : zlen p < zlen (rlp_list p).
Proof. unfold rlp_list. rewrite zlen_app. pose proof (zlen_rlp_head_pos 0xC0 (zlen p)). lia. Qed.

Lemma zlen_rlp_str_ge b : zlen b <= zlen (rlp_str b).
Proof.
  unfold rlp_str. destruct b as [|x [|y b]]; [|zcase|]; rewrite ?zlen_app;
    match goal with |- context [rlp_head ?t ?n] => pose proof (zlen_rlp_head_pos t n) | _ => idtac end; zlen_lia.
Qed.

Lemma writeUint_ref n w : is_u64 n -> writeUint n w = (None, extend w (rlp_str (be_bytes n)) [] 0).
Proof.
  intros H. unfold is_u64 in H. rewrite <- encbuf_Write_extend. unfold writeUint.
  destruct (Z.eqb_spec n 0) as [->|]; [done|].
  assert (L : zlen (be_bytes n) = Z.of_nat (byte_len n)) by apply zlen_be_pad.
  assert (L8 : (byte_len n <= 8)%nat) by (apply byte_len_le; change (256 ^ Z.of_nat 8) with (2 ^ 64); lia).
  zcase.
  - unfold be_bytes. rewrite byte_len_small by lia. unfold u8. simpl.
    change (2 ^ 8) with 256. rewrite Z.mod_small by lia. by zcase; [|lia].
  - cbv zeta. rewrite putint_be by lia. do 2 f_equal. unfold rlp_str.
    assert (E : u8 (0x80 + u8 (zlen (be_bytes n))) :: be_bytes n
                = rlp_head 0x80 (zlen (be_bytes n)) ++ be_bytes n).
    { unfold rlp_head. zcase; [|lia]. rewrite !u8_id; unfold is_byte; try lia; [done|].
      rewrite u8_id; unfold is_byte; lia. }
    destruct (be_bytes n) as [|x [|y b]] eqn:Eb; [exact E| |exact E].
    zcase; [|exact E]. pose proof (be_value_bytes n ltac:(lia)) as V. rewrite Eb in V.
    unfold be_value in V. simpl in V. lia.
Qed.

(** Closing a list after its elements gives the layout of the whole list. *)
Lemma list_close_layout l w :
  zlen (concat (map rlp_enc l)) < 2 ^ 64 ->
  encbuf_listEnd (length (eb_lheads w))
    (extend (encbuf_list w).1 (concat (map strs l)) (elems_heads heads 0 l)
       (zlen (concat (map rlp_enc l)) - zlen (concat (map strs l)))) =
  extend w (strs (VSlice l)) (heads (VSlice l)) (hsize (VSlice l)).
Proof.
  intros H. rewrite list_listEnd by zlen_lia. unfold hsize. simpl.
  rewrite zlen_rlp_list by done.
  replace (zlen (concat (map strs l)) +
           (zlen (concat (map rlp_enc l)) - zlen (concat (map strs l))))
    with (zlen (concat (map rlp_enc l))) by lia.
  f_equal. lia.
Qed.

(** Writing a value appends its string data and its headers to the buffers. *)
Lemma makeWriter_layout v :
  value_ok v -> zlen (rlp_enc v) < 2 ^ 64 ->
  forall w, makeWriter v w = (None, extend w (strs v) (heads v) (hsize v)).
Proof.
  induction v as [v IH] using value_ind_elems. intros Hok Hlen w.
  assert (Hrec : forall w', Forall value_ok (value_elems v) ->
      zlen (concat (map rlp_enc (value_elems v))) < 2 ^ 64 ->
      write_elems makeWriter (value_elems v) w' = (None, extend w' (concat (map strs (value_elems v)))
        (elems_heads heads 0 (value_elems v))
        (zlen (concat (map rlp_enc (value_elems v))) - zlen (concat (map strs (value_elems v)))))).
  { intros w' Hl Hc. apply write_elems_layout. rewrite Forall_forall in IH, Hl |- *.
    intros x Hx. apply IH; auto. pose proof (zlen_concat_elem _ _ Hx). lia. }
  inversion Hok; subst; simpl in Hlen, Hrec |- *; clear Hok;
    try (unfold hsize; simpl; rewrite ?Z.sub_diag;
         first [apply encbuf_Write_extend | by rewrite <- encbuf_Write_extend]).
  - unfold hsize. simpl. rewrite Z.sub_diag. by apply writeUint_ref.
  - unfold hsize. simpl. rewrite Z.sub_diag. by destruct b; rewrite <- encbuf_Write_extend.
  - unfold hsize. simpl. rewrite Z.sub_diag. unfold writeBigInt. zcases.
    + by subst n; rewrite <- encbuf_Write_extend.
    + rewrite encodeString_ref; [done|]. pose proof (zlen_rlp_str_ge (be_bytes n)). lia.
  - unfold hsize. simpl. rewrite Z.sub_diag. unfold writeBytes.
    rewrite encodeString_ref; [done|]. pose proof (zlen_rlp_str_ge b). lia.
  - pose proof (list_close_layout [] w) as E. simpl in E. rewrite extend_nil in E.
    unfold writeNilPtr. simpl. rewrite E by done. done.
  - pose proof (zlen_rlp_list_ge (concat (map rlp_enc l))). 
    change (makeSliceWriter makeWriter false l w) with
      (let '(e, w2) := write_elems makeWriter l (encbuf_list w).1 in
       (e, encbuf_listEnd (length (eb_lheads w)) w2)).
    rewrite Hrec, list_close_layout by (done || lia). done.
  - unfold makeSliceWriter. by rewrite Hrec.
  - pose proof (zlen_rlp_list_ge (concat (map rlp_enc l))). 
    change (makeStructWriter makeWriter l w) with
      (match write_elems makeWriter l (encbuf_list w).1 with
       | (Some e, w2) => (Some e, w2)
       | (None, w2) => (None, encbuf_listEnd (length (eb_lheads w)) w2)
       end).
    rewrite Hrec, list_close_layout by (done || lia). done.
Qed.

(** ** Interleaving the buffers gives the reference encoding *)

Definition heads_in (lo hi : Z) (hs : list listhead) : Prop :=
  Forall (fun h => lo <= lh_offset h <= hi) hs.

Lemma heads_in_shift n lo hi hs :
  heads_in lo hi hs -> heads_in (n + lo) (n + hi) (map (shift_head n) hs).
Proof. intros H. apply Forall_map. eapply Forall_impl; [exact H|]. simpl. lia. Qed.

Lemma heads_in_weaken lo hi lo' hi' hs :
  heads_in lo hi hs -> lo' <= lo -> hi <= hi' -> heads_in lo' hi' hs.
Proof. intros H ??. eapply Forall_impl; [exact H|]. simpl. lia. Qed.

Lemma elems_heads_in l n :
  Forall (fun v => heads_in 0 (zlen (strs v)) (heads v)) l ->
  heads_in n (n + zlen (concat (map strs l))) (elems_heads heads n l).
Proof.
  intros H. revert n. induction H as [|v l Hv _ IH]; intros n; simpl; [constructor|].
  rewrite zlen_app. apply Forall_app; split.
  - eapply heads_in_weaken; [apply heads_in_shift, Hv|lia|zlen_lia].
  - eapply heads_in_weaken; [apply IH|zlen_lia|lia].
Qed.

Lemma heads_within v : heads_in 0 (zlen (strs v)) (heads v).
Proof.
  induction v as [v IH] using value_ind_elems.
  destruct v; simpl in *; try solve [constructor];
    try (constructor; [simpl; zlen_lia|]); try solve [constructor];
    apply (elems_heads_in _ 0 IH).
Qed.

Lemma toBytes_loop_split str hs p q :
  0 <= p <= q -> q <= zlen str -> heads_in q (zlen str) hs ->
  toBytes_loop str hs p =
  take (Z.to_nat (q - p)) (drop (Z.to_nat p) str) ++ toBytes_loop str hs q.
Proof.
  intros Hp Hq Hh. unfold zlen in *.
  assert (D : forall a b, 0 <= a -> 0 <= b -> drop (Z.to_nat a) (drop (Z.to_nat b) str) = drop (Z.to_nat (a + b)) str)
    by (intros; rewrite drop_drop; f_equal; lia).
  destruct hs as [|h hs]; simpl.
  - replace (Z.to_nat q) with (Z.to_nat ((q - p) + p)) by (f_equal; lia).
    rewrite <- D by lia. by rewrite take_drop.
  - inversion_clear Hh. rewrite (app_assoc (take (Z.to_nat (q - p)) _)). f_equal.
    replace (drop (Z.to_nat q) str) with (drop (Z.to_nat (q - p)) (drop (Z.to_nat p) str))
      by (rewrite D by lia; do 2 f_equal; lia).
    rewrite take_take_drop, <- Z2Nat.inj_add by lia. do 2 f_equal. lia.
Qed.

Lemma take_drop_middle_seg {A} (pre mid post : list A) :
  take (Z.to_nat (zlen mid)) (drop (Z.to_nat (zlen pre)) (pre ++ mid ++ post)) = mid.
Proof.
  unfold zlen. rewrite !Nat2Z.id, drop_app_length, take_app_length. done.
Qed.

(** A value without list headers is copied verbatim. *)
Lemma render_no_heads pre s post hs :
  heads_in (zlen pre + zlen s) (zlen (pre ++ s ++ post)) hs ->
  toBytes_loop (pre ++ s ++ post) hs (zlen pre) =
  s ++ toBytes_loop (pre ++ s ++ post) hs (zlen pre + zlen s).
Proof.
  intros H. rewrite (toBytes_loop_split _ _ (zlen pre) (zlen pre + zlen s)) by (done || zlen_lia).
  f_equal. replace (zlen pre + zlen s - zlen pre) with (zlen s) by lia.
  apply take_drop_middle_seg.
Qed.

Definition renders (v : value) : Prop := forall pre post hs,
  heads_in (zlen pre + zlen (strs v)) (zlen (pre ++ strs v ++ post)) hs ->
  toBytes_loop (pre ++ strs v ++ post) (map (shift_head (zlen pre)) (heads v) ++ hs) (zlen pre) =
  rlp_enc v ++ toBytes_loop (pre ++ strs v ++ post) hs (zlen pre + zlen (strs v)).

Lemma render_elems l :
  Forall renders l -> forall pre post hs,
  heads_in (zlen pre + zlen (concat (map strs l))) (zlen (pre ++ concat (map strs l) ++ post)) hs ->
  toBytes_loop (pre ++ concat (map strs l) ++ post) (elems_heads heads (zlen pre) l ++ hs) (zlen pre) =
  concat (map rlp_enc l) ++
  toBytes_loop (pre ++ concat (map strs l) ++ post) hs (zlen pre + zlen (concat (map strs l))).
Proof.
  induction 1 as [|v l Hv Hl IH]; intros pre post hs Hh; simpl in *.
  - by rewrite Z.add_0_r.
  - rewrite <- !app_assoc. rewrite <- !app_assoc, zlen_app in Hh.
    rewrite Hv.
    + f_equal. rewrite (app_assoc pre), <- zlen_app. rewrite IH; rewrite <- ?app_assoc, ?zlen_app.
      * by rewrite Z.add_assoc.
      * eapply heads_in_weaken; [exact Hh|lia|zlen_lia].
    + apply Forall_app; split.
      * eapply heads_in_weaken; [apply elems_heads_in|..].
        -- apply Forall_forall. intros x _. apply heads_within.
        -- lia.
        -- zlen_lia.
      * eapply heads_in_weaken; [exact Hh|zlen_lia|lia].
Qed.

Lemma render_value v : value_ok v -> zlen (rlp_enc v) < 2 ^ 64 -> renders v.
Proof.
  induction v as [v IH] using value_ind_elems. intros Hok Hlen.
  assert (Hrec : Forall value_ok (value_elems v) ->
      zlen (concat (map rlp_enc (value_elems v))) < 2 ^ 64 -> Forall renders (value_elems v)).
  { intros Hl Hc. rewrite Forall_forall in IH, Hl |- *. intros x Hx. apply IH; auto.
    pose proof (zlen_concat_elem _ _ Hx). lia. }
  assert (Hlist : forall l, value_elems v = l -> Forall value_ok l ->
      zlen (rlp_list (concat (map rlp_enc l))) < 2 ^ 64 -> renders (VSlice l)).
  { intros l <- Hl Hc pre post hs Hh. simpl in *.
    pose proof (zlen_rlp_list_ge (concat (map rlp_enc (value_elems v)))).
    rewrite Z.add_0_r, Z.sub_diag, elems_heads_shift, Z.add_0_r. simpl.
    rewrite render_elems by auto with lia. unfold listhead_encode, rlp_list. simpl.
    rewrite u64_id, (puthead_ref 0xC0) by (unfold is_u64; zlen_lia).
    by rewrite app_assoc. }
  inversion Hok; subst; simpl in *; try solve [intros pre post hs Hh; apply render_no_heads, Hh].
  - apply (Hlist []); auto. 
  - by apply Hlist.
  - intros pre post hs Hh. simpl in *. rewrite elems_heads_shift, Z.add_0_r.
    apply render_elems; auto.
  - by apply (Hlist l).
Qed.

(** The size computed for the output buffer is the length of what is written
    into it, so the copies of [toBytes] fill it exactly. *)
Lemma toBytes_size v w' :
  value_ok v -> zlen (rlp_enc v) < 2 ^ 64 ->
  makeWriter v encbuf_reset = (None, w') ->
  encbuf_toBytes w' = rlp_enc v /\ encbuf_size w' = zlen (rlp_enc v).
Proof.
  intros Hok Hlen E. rewrite makeWriter_layout in E by done. injection E as <-.
  unfold encbuf_toBytes, encbuf_size, extend. simpl. split.
  - pose proof (render_value v Hok Hlen [] [] []) as R.
    change (zlen (@nil Z)) with 0 in *.
    simpl in R. rewrite !app_nil_r in R. rewrite R by constructor. rewrite Z.add_0_l.
    unfold zlen. rewrite Nat2Z.id, drop_all. by rewrite app_nil_r.
  - unfold hsize. lia.
Qed.

Lemma EncodeToBytes_ref v :
  value_ok v -> zlen (rlp_enc v) < 2 ^ 64 -> EncodeToBytes v = Ok (rlp_enc v).
Proof.
  intros Hok Hlen. unfold EncodeToBytes. destruct (makeWriter v encbuf_reset) as [e w'] eqn:E.
  pose proof (makeWriter_layout v Hok Hlen encbuf_reset) as L. rewrite L in E. injection E as <- <-.
  f_equal. by eapply (toBytes_size v).
Qed.
