(* ===== verification/RlpDecode.v ===== *)
(** RLP decoder: the [Stream] of [rlp/decode.go] and the decoders
    [makeDecoder] builds from it.

    A [Stream] reads from a [bytes.Reader], which is what [DecodeBytes] gives
    it; [s_r] is the part of the input not read yet.  Decoders are functions
    from a stream to a result and the stream after the call. *)
From S2P Require Import Prelude RlpEncode.

(** ** The stream *)

Inductive Kind := Byte | String | List.

#[export] Instance Kind_eq_dec : EqDecision Kind.
Proof. solve_decision. Defined.

Record listpos := { lp_pos : Z; lp_size : Z }.

(** [s_kind = None] is the source's [kind = -1]: no value header is cached.
    The stack has its top first. *)
Record Stream := {
  s_r : bytes;
  s_remaining : Z;
  s_limited : bool;
  s_kind : option Kind;
  s_size : Z;
  s_byteval : Z;
  s_kinderr : option rlp_err;
  s_stack : list listpos
}.

Definition set_kind (k : option Kind) (s : Stream) : Stream :=
  {| s_r := s_r s; s_remaining := s_remaining s; s_limited := s_limited s; s_kind := k;
     s_size := s_size s; s_byteval := s_byteval s; s_kinderr := s_kinderr s; s_stack := s_stack s |}.
Definition set_size (n : Z) (s : Stream) : Stream :=
  {| s_r := s_r s; s_remaining := s_remaining s; s_limited := s_limited s; s_kind := s_kind s;
     s_size := n; s_byteval := s_byteval s; s_kinderr := s_kinderr s; s_stack := s_stack s |}.
Definition set_byteval (b : Z) (s : Stream) : Stream :=
  {| s_r := s_r s; s_remaining := s_remaining s; s_limited := s_limited s; s_kind := s_kind s;
     s_size := s_size s; s_byteval := b; s_kinderr := s_kinderr s; s_stack := s_stack s |}.
Definition set_kinderr (e : option rlp_err) (s : Stream) : Stream :=
  {| s_r := s_r s; s_remaining := s_remaining s; s_limited := s_limited s; s_kind := s_kind s;
     s_size := s_size s; s_byteval := s_byteval s; s_kinderr := e; s_stack := s_stack s |}.
Definition set_stack (st : list listpos) (s : Stream) : Stream :=
  {| s_r := s_r s; s_remaining := s_remaining s; s_limited := s_limited s; s_kind := s_kind s;
     s_size := s_size s; s_byteval := s_byteval s; s_kinderr := s_kinderr s; s_stack := st |}.
Definition set_remaining (n : Z) (s : Stream) : Stream :=
  {| s_r := s_r s; s_remaining := n; s_limited := s_limited s; s_kind := s_kind s;
     s_size := s_size s; s_byteval := s_byteval s; s_kinderr := s_kinderr s; s_stack := s_stack s |}.
Definition set_r (r : bytes) (s : Stream) : Stream :=
  {| s_r := r; s_remaining := s_remaining s; s_limited := s_limited s; s_kind := s_kind s;
     s_size := s_size s; s_byteval := s_byteval s; s_kinderr := s_kinderr s; s_stack := s_stack s |}.

(** Results of stream operations: a value or an error, and the new stream. *)
Definition SM (A : Type) := Stream -> (rlp_err + A) * Stream.

Definition sret {A} (a : A) : SM A := fun s => (inr a, s).
Definition serr {A} (e : rlp_err) : SM A := fun s => (inl e, s).
Definition sbind {A B} (m : SM A) (f : A -> SM B) : SM B := fun s =>
  match m s with
  | (inl e, s') => (inl e, s')
  | (inr a, s') => f a s'
  end.

Notation "'let*' x ':=' c 'in' k" := (sbind c (fun x => k))
  (at level 10, x pattern, c at level 100, k at level 200) : go_scope.

(** [NewStream] / [Reset] on a [bytes.Reader]: a zero limit is replaced by the
    length of the data, so the stream is always limited. *)
Definition NewStream (b : bytes) (inputLimit : Z) : Stream :=
  {| s_r := b;
     s_remaining := if inputLimit >? 0 then inputLimit else zlen b;
     s_limited := true; s_kind := None; s_size := 0; s_byteval := 0;
     s_kinderr := None; s_stack := [] |}.

(** [uint64] subtraction [tos.size - tos.pos]. *)
Definition lp_left (tos : listpos) : Z := u64 (lp_size tos - lp_pos tos).

Definition lp_advance (n : Z) (tos : listpos) : listpos :=
  {| lp_pos := u64 (lp_pos tos + n); lp_size := lp_size tos |}.

Definition willRead (n : Z) : SM unit := fun s =>
  let s := set_kind None s in
  match s_stack s with
  | tos :: rest =>
      if n >? lp_left tos then (inl ErrElemTooLarge, s)
      else
        let s := set_stack (lp_advance n tos :: rest) s in
        if s_limited s then
          if n >? s_remaining s then (inl ErrValueTooLarge, s)
          else (inr tt, set_remaining (s_remaining s - n) s)
        else (inr tt, s)
  | [] =>
      if s_limited s then
        if n >? s_remaining s then (inl ErrValueTooLarge, s)
        else (inr tt, set_remaining (s_remaining s - n) s)
      else (inr tt, s)
  end.

Definition readByte : SM Z :=
  let* _ := willRead 1 in
  fun s => match s_r s with
           | [] => (inl io_ErrUnexpectedEOF, s)
           | b :: r => (inr b, set_r r s)
           end.

(** [readFull] into a buffer of [n] bytes: the read loop of the source takes
    what the reader has and fails when it ends early. *)
Definition readFull (n : Z) : SM bytes :=
  let* _ := willRead n in
  fun s =>
    if n <=? zlen (s_r s)
    then (inr (take (Z.to_nat n) (s_r s)), set_r (drop (Z.to_nat n) (s_r s)) s)
    else (inl io_ErrUnexpectedEOF, set_r [] s).

(** [readUint]: [size] is at most 8; the result of [BigEndian.Uint64] on the
    zero-extended [uintbuf] is the value of the bytes read. *)
Definition readUint (size : Z) : SM Z :=
  if size =? 0 then fun s => (inr 0, set_kind None s)
  else if size =? 1 then readByte
  else
    let* b := readFull size in
    if default 0 (head b) =? 0 then serr ErrCanonSize else sret (be_value b).

Definition readKind_long (k : Kind) (n : Z) : SM (Kind * Z * option rlp_err) := fun s =>
  match readUint n s with
  | (inl e, s') => (inr (k, 0, Some e), s')
  | (inr size, s') => (inr (k, size, if size <? 56 then Some ErrCanonSize else None), s')
  end.

(** [readKind] returns a kind and a size even with an error: the caller stores
    all three. *)
Definition readKind : SM (Kind * Z * option rlp_err) := fun s =>
  match readByte s with
  | (inl err, s') =>
      let err := match s_stack s with
                 | [] => match err with
                         | io_ErrUnexpectedEOF | ErrValueTooLarge => io_EOF
                         | _ => err
                         end
                 | _ => err
                 end in
      (inr (Byte, 0, Some err), s')
  | (inr b, s') =>
      let s' := set_byteval 0 s' in
      if b <? 0x80 then (inr (Byte, 0, None), set_byteval b s')
      else if b <? 0xB8 then (inr (String, u8 (b - 0x80), None), s')
      else if b <? 0xC0 then readKind_long String (u8 (b - 0xB7)) s'
      else if b <? 0xF8 then (inr (List, u8 (b - 0xC0), None), s')
      else readKind_long List (u8 (b - 0xF7)) s'
  end.

(** The value just announced must fit into the input or into its list. *)
Definition size_check (size : Z) (s : Stream) : option rlp_err :=
  match head (s_stack s) with
  | None => if s_limited s && (size >? s_remaining s) then Some ErrValueTooLarge else None
  | Some tos => if size >? lp_left tos then Some ErrElemTooLarge else None
  end.

(** [Stream.Kind]: reads and caches the next header; errors stick until the
    header is consumed. *)
Definition Kind_of : SM (Kind * Z) := fun s =>
  let ret s := match s_kinderr s with
               | Some e => (inl e, s)
               | None => (inr (default Byte (s_kind s), s_size s), s)
               end in
  match s_kind s with
  | Some _ => ret s
  | None =>
      let s := set_kinderr None s in
      let tos := head (s_stack s) in
      if match tos with Some t => lp_pos t =? lp_size t | None => false end
      then (inl EOL, s)
      else
        match readKind s with
        | (inl e, s') => (inl e, s')
        | (inr (k, size, kerr), s') =>
            let kerr := match kerr with Some e => Some e | None => size_check size s' end in
            ret (set_kinderr kerr (set_size size (set_kind (Some k) s')))
        end
  end.

Definition rearm : SM unit := fun s => (inr tt, set_kind None s).
Definition get_byteval : SM Z := fun s => (inr (s_byteval s), s).

Definition Stream_Bytes : SM bytes :=
  let* (kind, size) := Kind_of in
  match kind with
  | Byte => let* _ := rearm in let* b := get_byteval in sret [b]
  | String =>
      let* b := readFull size in
      if (size =? 1) && (default 0 (head b) <? 128) then serr ErrCanonSize else sret b
  | List => serr ErrExpectedString
  end.

(** [Raw] puts a new header in front of the content. *)
Definition Stream_Raw : SM bytes :=
  let* (kind, size) := Kind_of in
  match kind with
  | Byte => let* _ := rearm in let* b := get_byteval in sret [b]
  | String => let* b := readFull size in sret (puthead 0x80 0xB7 size ++ b)
  | List => let* b := readFull size in sret (puthead 0xC0 0xF7 size ++ b)
  end.

Definition Stream_uint (maxbits : Z) : SM Z :=
  let* (kind, size) := Kind_of in
  match kind with
  | Byte =>
      let* b := get_byteval in
      if b =? 0 then serr ErrCanonInt else let* _ := rearm in sret b
  | String =>
      if size >? maxbits / 8 then serr errUintOverflow
      else fun s =>
        match readUint size s with
        | (inl ErrCanonSize, s') => (inl ErrCanonInt, s')
        | (inl e, s') => (inl e, s')
        | (inr v, s') => if (size >? 0) && (v <? 128) then (inl ErrCanonSize, s') else (inr v, s')
        end
  | List => serr ErrExpectedString
  end.

Definition Stream_Uint : SM Z := Stream_uint 64.

Definition Stream_Bool : SM bool :=
  let* num := Stream_uint 8 in
  if num =? 0 then sret false else if num =? 1 then sret true else serr (errInvalidBool num).

Definition Stream_List : SM Z :=
  let* (kind, size) := Kind_of in
  match kind with
  | List => fun s =>
      (inr size, set_size 0 (set_kind None
         (set_stack ({| lp_pos := 0; lp_size := size |} :: s_stack s) s)))
  | _ => serr ErrExpectedList
  end.

Definition Stream_ListEnd : SM unit := fun s =>
  match s_stack s with
  | [] => (inl errNotInList, s)
  | tos :: rest =>
      if negb (lp_pos tos =? lp_size tos) then (inl errNotAtEOL, s)
      else
        let rest := match rest with
                    | [] => []
                    | up :: rest' => lp_advance (lp_size tos) up :: rest'
                    end in
        (inr tt, set_size 0 (set_kind None (set_stack rest s)))
  end.

(** ** Decoders *)

Definition wrapStreamError (e : rlp_err) : rlp_err :=
  match e with
  | ErrCanonInt => decodeError MsgCanonInt
  | ErrCanonSize => decodeError MsgCanonSize
  | ErrExpectedList => decodeError MsgExpectedList
  | ErrExpectedString => decodeError MsgExpectedString
  | errUintOverflow => decodeError MsgTooLong
  | errNotAtEOL => decodeError MsgTooMany
  | _ => e
  end.

Definition wrapping {A} (m : SM A) : SM A := fun s =>
  match m s with
  | (inl e, s') => (inl (wrapStreamError e), s')
  | (inr a, s') => (inr a, s')
  end.

Definition decodeRawValue : SM bytes := Stream_Raw.

Definition decodeUint (bits : Z) : SM Z := wrapping (Stream_uint bits).

Definition decodeBool : SM bool := wrapping Stream_Bool.

Definition decodeString : SM bytes := wrapping Stream_Bytes.

Definition decodeBigInt : SM Z :=
  let* b := wrapping Stream_Bytes in
  if match b with x :: _ => x =? 0 | [] => false end
  then serr (wrapStreamError ErrCanonInt) else sret (be_value b).

Definition decodeByteSlice : SM bytes := wrapping Stream_Bytes.

(** [decodeByteArray] into [vlen] bytes; the error of [s.Uint()] is dropped
    in the source ([bv, _ := s.Uint()]). *)
Definition decodeByteArray (vlen : Z) : SM bytes :=
  let* (kind, size) := Kind_of in
  match kind with
  | Byte =>
      if vlen =? 0 then serr (decodeError MsgTooLong)
      else if vlen >? 1 then serr (decodeError MsgTooShort)
      else fun s => match Stream_Uint s with
                    | (inl _, s') => (inr [0], s')
                    | (inr bv, s') => (inr [u8 bv], s')
                    end
  | String =>
      if vlen <? size then serr (decodeError MsgTooLong)
      else if vlen >? size then serr (decodeError MsgTooShort)
      else
        let* slice := readFull vlen in
        if (size =? 1) && (default 0 (head slice) <? 128)
        then serr (wrapStreamError ErrCanonSize) else sret slice
  | List => serr (wrapStreamError ErrExpectedString)
  end.

Section ListDecoders.
Context {A : Type} (elemdec : SM A).

(** The loop of [decodeSliceElems] ends at the end of the list; [fuel] bounds
    the number of elements. *)
Fixpoint decodeSliceElems (fuel : nat) : SM (list A) := fun s =>
  match fuel with
  | O => (inl errOutOfFuel, s)
  | S fuel' =>
      match elemdec s with
      | (inl EOL, s') => (inr [], s')
      | (inl e, s') => (inl e, s')
      | (inr a, s') =>
          match decodeSliceElems fuel' s' with
          | (inr l, s'') => (inr (a :: l), s'')
          | (inl e, s'') => (inl e, s'')
          end
      end
  end.

(** One more iteration than there are input bytes left is enough: every
    element takes at least one byte (see [slice_codec]). *)
Definition slice_fuel (s : Stream) : nat := S (length (s_r s)).

Definition decodeListSlice : SM (list A) :=
  let* size := wrapping Stream_List in
  if size =? 0 then let* _ := Stream_ListEnd in sret []
  else
    let* l := (fun s => decodeSliceElems (slice_fuel s) s) in
    let* _ := Stream_ListEnd in sret l.

Fixpoint decodeArrayElems (vlen : nat) : SM (list A) := fun s =>
  match vlen with
  | O => (inr [], s)
  | S vlen' =>
      match elemdec s with
      | (inl EOL, s') => (inl (decodeError MsgTooFew), s')
      | (inl e, s') => (inl e, s')
      | (inr a, s') =>
          match decodeArrayElems vlen' s' with
          | (inr l, s'') => (inr (a :: l), s'')
          | (inl e, s'') => (inl e, s'')
          end
      end
  end.

Definition decodeListArray (vlen : nat) : SM (list A) :=
  let* _ := wrapping Stream_List in
  let* l := decodeArrayElems vlen in
  let* _ := wrapping Stream_ListEnd in sret l.

(** [makeOptionalPtrDecoder]: fields with the tag nil. *)
Definition decodeOptionalPtr : SM (option A) := fun s =>
  match Kind_of s with
  | (inl e, s') => (inl e, set_kind None s')
  | (inr (kind, size), s') =>
      if (size =? 0) && negb (bool_decide (kind = Byte))
      then (inr None, set_kind None s')
      else match elemdec s' with
           | (inl e, s'') => (inl e, s'')
           | (inr a, s'') => (inr (Some a), s'')
           end
  end.

End ListDecoders.

(** One field of a struct: running out of elements is an error of the struct. *)
Definition struct_field {A} (d : SM A) : SM A := fun s =>
  match d s with
  | (inl EOL, s') => (inl (decodeError MsgTooFew), s')
  | r => r
  end.

(** The field loop of [makeStructDecoder], one field at a time. *)
Definition field_cons {A B} (d : SM A) (rest : SM B) : SM (A * B) :=
  let* a := struct_field d in let* b := rest in sret (a, b).
Definition field_nil : SM unit := sret tt.

Definition makeStructDecoder {A} (fields : SM A) : SM A :=
  let* _ := wrapping Stream_List in
  let* a := fields in
  let* _ := wrapping Stream_ListEnd in sret a.

(** [decodeInterface] into an empty interface: strings give [[]byte], lists
    give [[]interface{}].  [fuel] bounds the number of nested lists. *)
Inductive item := IBytes (b : bytes) | IList (l : list item).

Fixpoint decodeInterface (fuel : nat) : SM item :=
  let* (kind, _) := Kind_of in
  match kind with
  | List =>
      match fuel with
      | O => serr errOutOfFuel
      | S fuel' => let* l := decodeListSlice (decodeInterface fuel') in sret (IList l)
      end
  | _ => let* b := Stream_Bytes in sret (IBytes b)
  end.

(** [DecodeBytes]: exactly one value and nothing after it. *)
Definition DecodeBytes {A} (d : SM A) (b : bytes) : outcome rlp_err A :=
  match d (NewStream b (zlen b)) with
  | (inl e, _) => Err e
  | (inr a, s') => if zlen (s_r s') >? 0 then Err ErrMoreThanOneValue else Ok a
  end.

(** Decoding into an [interface{}]: a value of [n] bytes nests at most [n] lists. *)
Definition DecodeBytes_interface (b : bytes) : outcome rlp_err item :=
  DecodeBytes (decodeInterface (length b)) b.

Fixpoint item_value (i : item) : value :=
  match i with
  | IBytes b => VBytes b
  | IList l => VSlice (map item_value l)
  end.

Example decode_nested :
  DecodeBytes_interface [0xC8; 0x83; 99; 97; 116; 0x83; 100; 111; 103]
  = Ok (IList [IBytes [99; 97; 116]; IBytes [100; 111; 103]]).
Proof. reflexivity. Qed.

Example decode_noncanonical : DecodeBytes_interface [0x81; 0x05] = Err ErrCanonSize.
Proof. reflexivity. Qed.
