(* ===== verification/RlpCodec.v ===== *)
(** Laws of the RLP decoder.

    [stream_at s r st]: the stream is between two values, [r] is the input
    left and [st] the stack of open lists.  A decoder [d] and an encoding
    [enc] form a codec ([codec_ok]) when [d] reads exactly the bytes [enc a]
    for every [a], returns only values whose encoding is what it has read, and
    reports EOL exactly at the end of the current list.  Codecs compose
    through slices and structs. *)
From S2P Require Import Prelude RlpEncode RlpDecode.

#[global] Arguments rlp_str : simpl never.
#[global] Arguments rlp_head : simpl never.

(** ** Stream positions *)

(** Open lists, innermost first: the list that is read fits into what is left
    of the one around it. *)
Fixpoint stack_ok (st : list listpos) : Prop :=
  match st with
  | [] => True
  | t :: rest =>
      0 <= lp_pos t <= lp_size t /\ lp_size t < 2 ^ 64 /\
      match rest with [] => True | u :: _ => lp_size t <= lp_size u - lp_pos u end /\
      stack_ok rest
  end.

Definition fits (n : Z) (st : list listpos) : Prop :=
  match st with [] => True | t :: _ => n <= lp_size t - lp_pos t end.

Definition advance (n : Z) (st : list listpos) : list listpos :=
  match st with
  | [] => []
  | t :: rest => {| lp_pos := lp_pos t + n; lp_size := lp_size t |} :: rest
  end.

Definition at_end (st : list listpos) : Prop :=
  match st with [] => False | t :: _ => lp_pos t = lp_size t end.

#[export] Instance at_end_dec st : Decision (at_end st).
Proof. destruct st; simpl; apply _. Defined.

(** Input position, whatever header is cached. *)
Definition pos_at (s : Stream) (r : bytes) (st : list listpos) : Prop :=
  s_r s = r /\ s_remaining s = zlen r /\ s_limited s = true /\ s_stack s = st.

Definition stream_at (s : Stream) (r : bytes) (st : list listpos) : Prop :=
  pos_at s r st /\ s_kind s = None.

(** A header has been read and is cached. *)
Definition cached (s : Stream) (k : Kind) (n bv : Z) (r : bytes) (st : list listpos) : Prop :=
  pos_at s r st /\ s_kind s = Some k /\ s_size s = n /\ s_byteval s = bv /\ s_kinderr s = None.

Definition input_ok (r : bytes) : Prop := bytes_ok r /\ zlen r < 2 ^ 64.

Lemma stack_ok_top t rest :
  stack_ok (t :: rest) -> 0 <= lp_pos t <= lp_size t /\ lp_size t < 2 ^ 64.
Proof. simpl. tauto. Qed.

Lemma advance_ok n st : 0 <= n -> fits n st -> stack_ok st -> stack_ok (advance n st).
Proof. destruct st as [|t rest]; simpl; [done|]. intuition lia. Qed.

Lemma advance_0 st : advance 0 st = st.
Proof. destruct st as [|[p z] rest]; simpl; [done|]. by rewrite Z.add_0_r. Qed.

Lemma advance_add a b st : advance b (advance a st) = advance (a + b) st.
Proof. destruct st; simpl; [done|]. do 2 f_equal. lia. Qed.

Lemma fits_advance a b st : fits b (advance a st) <-> fits (a + b) st.
Proof. destruct st; simpl; [done|]. lia. Qed.

Lemma fits_weaken a b st : fits b st -> a <= b -> fits a st.
Proof. destruct st; simpl; [done|]. lia. Qed.

Lemma lp_left_ok t rest : stack_ok (t :: rest) -> lp_left t = lp_size t - lp_pos t.
Proof. intros H%stack_ok_top. apply u64_id. unfold is_u64. lia. Qed.

Lemma lp_advance_ok n t rest :
  stack_ok (t :: rest) -> 0 <= n -> fits n (t :: rest) ->
  lp_advance n t = {| lp_pos := lp_pos t + n; lp_size := lp_size t |}.
Proof.
  intros H%stack_ok_top Hn Hf. simpl in Hf. unfold lp_advance. f_equal.
  apply u64_id. unfold is_u64. lia.
Qed.

Lemma input_ok_app r1 r2 : input_ok (r1 ++ r2) <-> bytes_ok r1 /\ input_ok r2 /\ zlen (r1 ++ r2) < 2 ^ 64.
Proof.
  unfold input_ok. rewrite Forall_app, zlen_app. split; [|tauto].
  intros [[? ?] ?]. pose proof (zlen_nonneg r1). repeat split; auto. lia.
Qed.

#[export] Hint Resolve advance_ok : rlp_db.

(** ** Reading bytes *)

Lemma willRead_ok n s r st :
  pos_at s r st -> stack_ok st -> 0 <= n -> n <= zlen r -> fits n st ->
  exists s', willRead n s = (inr tt, s') /\
    s_r s' = r /\ s_remaining s' = zlen r - n /\ s_limited s' = true /\
    s_stack s' = advance n st /\ s_kind s' = None.
Proof.
  intros (Hr & Hm & Hl & Hs) Hst Hn Hle Hf. unfold willRead. simpl. rewrite Hs.
  destruct st as [|t rest].
  - simpl. rewrite Hl, Hm. zcases. eexists; split; [done|]. simpl. auto.
  - rewrite (lp_left_ok _ _ Hst), (lp_advance_ok n t rest) by auto. simpl in Hf |- *.
    rewrite Hl, Hm. zcases. eexists; split; [done|]. simpl. auto.
Qed.

Lemma willRead_inv n s r st s' :
  pos_at s r st -> stack_ok st -> willRead n s = (inr tt, s') -> n <= zlen r /\ fits n st.
Proof.
  intros (Hr & Hm & Hl & Hs) Hst. unfold willRead. simpl. rewrite Hs.
  destruct st as [|t rest]; simpl; rewrite ?Hl, ?Hm.
  - zcases; done.
  - rewrite (lp_left_ok _ _ Hst). by zcases.
Qed.

Lemma willRead_err n s e s' : willRead n s = (inl e, s') -> e <> EOL.
Proof.
  unfold willRead. destruct (s_stack _); repeat case_match; intros; simplify_eq; congruence.
Qed.

Lemma readByte_ok s b r st :
  pos_at s (b :: r) st -> stack_ok st -> fits 1 st ->
  exists s', readByte s = (inr b, s') /\ stream_at s' r (advance 1 st).
Proof.
  intros Hp Hst Hf. pose proof (zlen_nonneg r).
  destruct (willRead_ok 1 s (b :: r) st) as (s1 & E & Er & Em & El & Es & Ek); auto; [lia|zlen_lia|].
  exists (set_r r s1). unfold readByte, sbind. rewrite E, Er. split; [done|].
  split; [|done]. repeat split; simpl; auto. rewrite Em. zlen_lia.
Qed.

Lemma readByte_inv s r st b s' :
  pos_at s r st -> stack_ok st -> readByte s = (inr b, s') ->
  exists r', r = b :: r' /\ fits 1 st /\ stream_at s' r' (advance 1 st).
Proof.
  intros Hp Hst E. unfold readByte, sbind in E.
  destruct (willRead 1 s) as [[e|[]] s1] eqn:W; [done|].
  destruct (willRead_inv _ _ _ _ _ Hp Hst W) as [H1 H2].
  destruct r as [|b' r']; [by rewrite zlen_nil in H1|].
  destruct (readByte_ok s b' r' st) as (s2 & E2 & A2); auto.
  unfold readByte, sbind in E2. rewrite W in E2. rewrite E2 in E. simplify_eq. eauto.
Qed.

Lemma readByte_err s e s' : readByte s = (inl e, s') -> e <> EOL.
Proof.
  unfold readByte, sbind. destruct (willRead 1 s) as [[e'|[]] s1] eqn:W.
  - intros. simplify_eq. by eapply willRead_err.
  - case_match; intros; simplify_eq. done.
Qed.

Lemma readFull_ok n s r st :
  pos_at s r st -> stack_ok st -> 0 <= n -> n <= zlen r -> fits n st ->
  exists s', readFull n s = (inr (take (Z.to_nat n) r), s') /\
    stream_at s' (drop (Z.to_nat n) r) (advance n st).
Proof.
  intros Hp Hst Hn Hle Hf.
  destruct (willRead_ok n s r st) as (s1 & E & Er & Em & El & Es & Ek); auto.
  exists (set_r (drop (Z.to_nat n) r) s1). unfold readFull, sbind. rewrite E, Er. zcases.
  split; [done|]. split; [|done]. repeat split; simpl; auto.
  rewrite Em. unfold zlen in *. rewrite length_drop. lia.
Qed.

Lemma readFull_inv n s r st b s' :
  pos_at s r st -> stack_ok st -> 0 <= n -> readFull n s = (inr b, s') ->
  exists r', r = b ++ r' /\ zlen b = n /\ fits n st /\ stream_at s' r' (advance n st).
Proof.
  intros Hp Hst Hn E. unfold readFull, sbind in E.
  destruct (willRead n s) as [[e|[]] s1] eqn:W; [done|].
  destruct (willRead_inv _ _ _ _ _ Hp Hst W) as [H1 H2].
  destruct (readFull_ok n s r st) as (s2 & E2 & A2); auto.
  unfold readFull, sbind in E2. rewrite W in E2. rewrite E2 in E. simplify_eq.
  exists (drop (Z.to_nat n) r). split; [by rewrite take_drop|].
  split; [unfold zlen in *; rewrite length_take; lia|done].
Qed.

Lemma readFull_err n s e s' : readFull n s = (inl e, s') -> e <> EOL.
Proof.
  unfold readFull, sbind. destruct (willRead n s) as [[e'|[]] s1] eqn:W.
  - intros. simplify_eq. by eapply willRead_err.
  - case_match; intros; simplify_eq. done.
Qed.

(** ** Headers *)

Lemma readUint_ok v s r st :
  0 < v < 2 ^ 64 -> pos_at s (be_bytes v ++ r) st -> stack_ok st -> fits (Z.of_nat (byte_len v)) st ->
  exists s', readUint (Z.of_nat (byte_len v)) s = (inr v, s') /\
    stream_at s' r (advance (Z.of_nat (byte_len v)) st).
Proof.
  intros Hv Hp Hst Hf. unfold readUint.
  assert (L : zlen (be_bytes v) = Z.of_nat (byte_len v)) by apply zlen_be_pad.
  pose proof (be_value_bytes v ltac:(lia)) as V. pose proof (be_bytes_head v) as Hd.
  destruct (be_bytes v) as [|x b] eqn:Eb.
  { unfold be_value in V. simpl in V. lia. }
  specialize (Hd x b ltac:(lia) eq_refl). rewrite zlen_cons in L.
  zcase; [zlen_lia|]. zcase.
  - destruct b; [|rewrite zlen_cons in L; zlen_lia]. simpl in Hp.
    assert (x = v) by (unfold be_value in V; simpl in V; lia). subst x.
    rewrite Heqb1. by apply readByte_ok; [| |rewrite <- Heqb1].
  - destruct (readFull_ok (Z.of_nat (byte_len v)) s ((x :: b) ++ r) st) as (s1 & E & A);
      auto; [lia|zlen_lia|].
    unfold sbind. rewrite E.
    assert (T : Z.to_nat (Z.of_nat (byte_len v)) = length (x :: b))
      by (rewrite Nat2Z.id; unfold zlen in L; simpl; lia).
    rewrite T, take_app_length. rewrite T, drop_app_length in A. simpl.
    rewrite (proj2 (Z.eqb_neq x 0)) by done. unfold sret. rewrite V. eauto.
Qed.

Lemma readUint_inv k s r st v s' :
  1 <= k <= 8 -> input_ok r -> pos_at s r st -> stack_ok st -> readUint k s = (inr v, s') -> 0 < v ->
  exists r', r = be_bytes v ++ r' /\ k = Z.of_nat (byte_len v) /\ v < 2 ^ 64 /\ fits k st /\
    stream_at s' r' (advance k st).
Proof.
  intros Hk [Hb _] Hp Hst E Hv. unfold readUint in E.
  destruct (k =? 0) eqn:K0; zbool; [lia|]. destruct (k =? 1) eqn:K1; zbool.
  - subst k. destruct (readByte_inv _ _ _ _ _ Hp Hst E) as (r' & -> & Hf & A).
    inversion_clear Hb as [|? ? Hx _]. unfold is_byte in Hx. exists r'.
    assert (byte_len v = 1%nat) as L by (apply byte_len_small; lia).
    split; [|rewrite L; split_and!; [done|lia|done|apply A..]].
    unfold be_bytes. rewrite L. simpl. by rewrite Z.mod_small by lia.
  - unfold sbind in E. destruct (readFull k s) as [[e|b] s1] eqn:F; [done|].
    destruct (readFull_inv k _ _ _ _ _ Hp Hst ltac:(lia) F) as (r' & -> & Lb & Hf & A).
    destruct b as [|x b]; [by rewrite zlen_nil in Lb; lia|]. simpl in E.
    destruct (x =? 0) eqn:X0; [done|]. zbool. unfold sret in E. simplify_eq.
    apply Forall_app in Hb as [Hb _]. pose proof (be_value_bound _ Hb).
    exists r'. rewrite (be_bytes_value x b) by done.
    assert (L : zlen (be_bytes (be_value (x :: b))) = Z.of_nat (byte_len (be_value (x :: b))))
      by apply zlen_be_pad.
    rewrite be_bytes_value in L by done. split_and!; [done|lia| |done|apply A..].
    eapply Z.lt_le_trans; [apply H|]. change (2 ^ 64) with (256 ^ 8).
    apply Z.pow_le_mono_r; lia.
Qed.

Lemma readUint_err k s e s' : readUint k s = (inl e, s') -> e <> EOL.
Proof.
  unfold readUint. repeat case_match; try done; [apply readByte_err|].
  unfold sbind. destruct (readFull k s) as [[e'|b] s1] eqn:F.
  - intros. simplify_eq. by eapply readFull_err.
  - case_match; intros E; unfold serr, sret in E; by simplify_eq.
Qed.

(** The header [h] announces a value of kind [k] with [n] content bytes. *)
Definition header (k : Kind) (n bv : Z) (h : bytes) : Prop :=
  match k with
  | Byte => n = 0 /\ h = [bv] /\ 0 <= bv < 128
  | String => h = rlp_head 0x80 n /\ 0 <= n < 2 ^ 64
  | List => h = rlp_head 0xC0 n /\ 0 <= n < 2 ^ 64
  end.

Lemma header_nonempty k n bv h : header k n bv h -> 0 < zlen h.
Proof.
  destruct k; simpl; intros H.
  - destruct H as (_ & -> & _). done.
  - destruct H as [-> _]. apply zlen_rlp_head_pos.
  - destruct H as [-> _]. apply zlen_rlp_head_pos.
Qed.

(** The two tag ranges are handled alike. *)
Lemma readKind_head k tag n s r st :
  (k = String /\ tag = 0x80 \/ k = List /\ tag = 0xC0) -> 0 <= n < 2 ^ 64 ->
  pos_at s (rlp_head tag n ++ r) st -> stack_ok st -> fits (zlen (rlp_head tag n)) st ->
  exists s', readKind s = (inr (k, n, None), s') /\
    stream_at s' r (advance (zlen (rlp_head tag n)) st).
Proof.
  intros Hk Hn Hp Hst Hf. unfold rlp_head in *. destruct (n <? 56) eqn:N; zbool.
  - destruct (readByte_ok s (tag + n) r st) as (s1 & E & A); auto.
    unfold readKind. rewrite E.
    exists (set_byteval 0 s1). split; [|apply A].
    destruct Hk as [[-> ->]|[-> ->]]; zcases;
      (match goal with |- context [u8 ?x] =>
         replace (u8 x) with n by (rewrite u8_id; unfold is_byte; lia) end; done).
  - set (L := Z.of_nat (byte_len n)) in *.
    assert (HL : (byte_len n <= 8)%nat) by (apply byte_len_le; change (256 ^ Z.of_nat 8) with (2 ^ 64); lia).
    assert (H1 : (1 <= byte_len n)%nat).
    { pose proof (byte_len_bounds n ltac:(lia)). destruct (byte_len n); [simpl in *; lia|lia]. }
    assert (Hz : zlen (tag + 55 + L :: be_bytes n) = 1 + L)
      by (rewrite zlen_cons; unfold be_bytes; by rewrite zlen_be_pad).
    rewrite Hz in Hf |- *.
    destruct (readByte_ok s (tag + 55 + L) (be_bytes n ++ r) st) as (s1 & E & A);
      auto; [eapply fits_weaken; [exact Hf|lia]|].
    destruct (readUint_ok n (set_byteval 0 s1) r (advance 1 st)) as (s2 & E2 & A2);
      [lia|apply A|apply advance_ok; auto; [lia|eapply fits_weaken; [exact Hf|lia]]|by apply fits_advance|].
    exists s2. rewrite advance_add in A2. split; [|done]. unfold readKind. rewrite E.
    destruct Hk as [[-> ->]|[-> ->]]; zcases;
      rewrite u8_id by (unfold is_byte; lia); unfold readKind_long;
      match goal with |- context [readUint ?x _] => replace x with L by lia end;
      unfold L; rewrite E2; by zcases.
Qed.

Lemma readKind_byte s b r st :
  0 <= b < 128 -> pos_at s (b :: r) st -> stack_ok st -> fits 1 st ->
  exists s', readKind s = (inr (Byte, 0, None), s') /\
    stream_at s' r (advance 1 st) /\ s_byteval s' = b.
Proof.
  intros Hb Hp Hst Hf. destruct (readByte_ok s b r st) as (s1 & E & A); auto.
  exists (set_byteval b (set_byteval 0 s1)). unfold readKind. rewrite E. zcases.
  by repeat split; try apply A.
Qed.

Lemma readKind_long_inv k tag L s r st n s' :
  1 <= L <= 8 -> input_ok r -> pos_at s r st -> stack_ok st ->
  readKind_long k L s = (inr (k, n, None), s') ->
  exists r', (tag + 55 + L) :: r = rlp_head tag n ++ r' /\ 0 <= n < 2 ^ 64 /\
    fits L st /\ stream_at s' r' (advance L st) /\ zlen (rlp_head tag n) = 1 + L.
Proof.
  intros HL Hi Hp Hst E. unfold readKind_long in E.
  destruct (readUint L s) as [[e|size] s1] eqn:U; [done|].
  destruct (size <? 56) eqn:S; zbool; [done|]. simplify_eq.
  destruct (readUint_inv _ _ _ _ _ _ HL Hi Hp Hst U) as (r' & -> & EL & Hlt & Hf & A); [lia|].
  exists r'. unfold rlp_head. zcases. rewrite <- EL. repeat split; try done; try lia; try apply A.
  rewrite zlen_cons. unfold be_bytes. rewrite zlen_be_pad. lia.
Qed.

Lemma readKind_inv s r st k n s' :
  input_ok r -> pos_at s r st -> stack_ok st -> readKind s = (inr (k, n, None), s') ->
  exists h r', r = h ++ r' /\ header k n (s_byteval s') h /\ fits (zlen h) st /\
    stream_at s' r' (advance (zlen h) st).
Proof.
  intros Hi Hp Hst E. unfold readKind in E.
  destruct (readByte s) as [[e|b] s1] eqn:B; [done|].
  destruct (readByte_inv _ _ _ _ _ Hp Hst B) as (r1 & -> & Hf & A).
  apply (input_ok_app [b]) in Hi as (Hb & Hi & _). inversion_clear Hb as [|? ? Hb' _].
  unfold is_byte in Hb'.
  assert (Hlong : forall k' tag L, 1 <= L <= 8 -> b = tag + 55 + L ->
     readKind_long k' L (set_byteval 0 s1) = (inr (k, n, None), s') ->
     k' = k /\ exists r', b :: r1 = rlp_head tag n ++ r' /\ 0 <= n < 2 ^ 64 /\
       fits (zlen (rlp_head tag n)) st /\ stream_at s' r' (advance (zlen (rlp_head tag n)) st)).
  { intros k' tag L HL -> EL.
    assert (k' = k) as ->.
    { unfold readKind_long in EL. destruct (readUint _ _) as [[]]; by simplify_eq. }
    split; [done|].
    destruct (readKind_long_inv k tag L (set_byteval 0 s1) r1 (advance 1 st) n s')
      as (r' & Er & Hn & Hf2 & A2 & Hz); auto with rlp_db lia; [apply A|].
    exists r'. rewrite Hz. rewrite advance_add in A2. by apply fits_advance in Hf2. }
  destruct (b <? 0x80) eqn:C1; zbool.
  { simplify_eq. exists [b], r1. split; [done|]. split; [by simpl; split_and!; auto with lia|]. split; [done|]. apply A. }
  destruct (b <? 0xB8) eqn:C2; zbool.
  { simplify_eq. rewrite u8_id by (unfold is_byte; lia). exists [b], r1.
    split; [done|]. split; [|split; [done|apply A]]. simpl. unfold rlp_head. zcases.
    split; [f_equal; lia|lia]. }
  destruct (b <? 0xC0) eqn:C3; zbool.
  { rewrite u8_id in E by (unfold is_byte; lia).
    destruct (Hlong String 0x80 (b - 0xB7)) as (<- & r' & Er & Hn & Hf2 & A2); try lia; [done|].
    exists (rlp_head 0x80 n), r'. by simpl. }
  destruct (b <? 0xF8) eqn:C4; zbool.
  { simplify_eq. rewrite u8_id by (unfold is_byte; lia). exists [b], r1.
    split; [done|]. split; [|split; [done|apply A]]. simpl. unfold rlp_head. zcases.
    split; [f_equal; lia|lia]. }
  rewrite u8_id in E by (unfold is_byte; lia).
  destruct (Hlong List 0xC0 (b - 0xF7)) as (<- & r' & Er & Hn & Hf2 & A2); try lia; [done|].
  exists (rlp_head 0xC0 n), r'. by simpl.
Qed.

Lemma readKind_no_EOL s k n s' : readKind s = (inr (k, n, Some EOL), s') -> False.
Proof.
  unfold readKind. destruct (readByte s) as [[e|b] s1] eqn:B.
  - apply readByte_err in B. intros. simplify_eq. repeat case_match; simplify_eq.
  - intros E. repeat case_match; simplify_eq; unfold readKind_long in E;
      destruct (readUint _ _) as [[e|size] s2] eqn:U; simplify_eq;
      try (by apply readUint_err in U); by case_match.
Qed.

(** [Kind] at the end of a list reports EOL and leaves the position alone. *)
Lemma Kind_at_end s r st :
  stream_at s r st -> at_end st -> Kind_of s = (inl EOL, set_kinderr None s).
Proof.
  intros [(_ & _ & _ & Hs) Hk] He. unfold Kind_of. rewrite Hk. simpl. rewrite Hs.
  destruct st as [|t rest]; [done|]. simpl in *. rewrite He, Z.eqb_refl. done.
Qed.

Definition after_header (n : Z) (r : bytes) (st : list listpos) : Prop :=
  match st with [] => n <= zlen r | t :: _ => n <= lp_size t - lp_pos t end.

Lemma Kind_not_at_end s r st :
  stream_at s r st -> ~ at_end st ->
  Kind_of s =
    match readKind (set_kinderr None s) with
    | (inl e, s') => (inl e, s')
    | (inr (k, size, kerr), s') =>
        let kerr := match kerr with Some e => Some e | None => size_check size s' end in
        let s' := set_kinderr kerr (set_size size (set_kind (Some k) s')) in
        match kerr with Some e => (inl e, s') | None => (inr (k, size), s') end
    end.
Proof.
  intros [(_ & _ & _ & Hs) Hk] He. unfold Kind_of. rewrite Hk. simpl. rewrite Hs.
  destruct st as [|t rest]; simpl in *; [done|]. by rewrite (proj2 (Z.eqb_neq _ _) He).
Qed.

(** The header is cached and the value it announces fits where it stands. *)
Lemma Kind_ok k n bv h s r st :
  header k n bv h -> stream_at s (h ++ r) st -> stack_ok st -> fits (zlen h) st ->
  after_header n r (advance (zlen h) st) ->
  exists s', Kind_of s = (inr (k, n), s') /\
    cached s' k n (if bool_decide (k = Byte) then bv else s_byteval s') r (advance (zlen h) st).
Proof.
  intros Hh Hp Hst Hf Ha. pose proof (header_nonempty _ _ _ _ Hh) as Hpos.
  assert (He : ~ at_end st) by (destruct st; simpl in *; [tauto|lia]).
  rewrite (Kind_not_at_end _ _ _ Hp He).
  assert (exists s1, readKind (set_kinderr None s) = (inr (k, n, None), s1) /\
    stream_at s1 r (advance (zlen h) st) /\ (k = Byte -> s_byteval s1 = bv)) as (s1 & E & A & Hbv).
  { destruct Hp as [Hp _]. destruct k; simpl in Hh.
    - destruct Hh as (-> & -> & Hbv). change (zlen [bv]) with 1 in *.
      destruct (readKind_byte (set_kinderr None s) bv r st) as (s1 & ? & ? & ?); auto.
      by exists s1.
    - destruct Hh as [-> Hn].
      destruct (readKind_head String 0x80 n (set_kinderr None s) r st) as (s1 & ? & ?);
        auto. by exists s1.
    - destruct Hh as [-> Hn].
      destruct (readKind_head List 0xC0 n (set_kinderr None s) r st) as (s1 & ? & ?);
        auto. by exists s1. }
  rewrite E. destruct A as [(Ar & Am & Al & As) Ak]. cbv zeta.
  assert (Herr : size_check n s1 = None).
  { unfold size_check. rewrite As. pose proof (advance_ok (zlen h) st ltac:(lia) Hf Hst) as Hst'.
    destruct (advance (zlen h) st) as [|t rest]; simpl in Ha |- *.
    - rewrite Al, Am. simpl. by zcases.
    - rewrite (lp_left_ok _ _ Hst'). by zcases. }
  rewrite Herr. eexists; split; [done|]. unfold cached, pos_at. simpl.
  repeat split; auto. case_bool_decide; auto.
Qed.

Lemma Kind_inv s r st k n s' :
  input_ok r -> stream_at s r st -> stack_ok st -> Kind_of s = (inr (k, n), s') ->
  exists h r', r = h ++ r' /\ header k n (s_byteval s') h /\ fits (zlen h) st /\
    after_header n r' (advance (zlen h) st) /\ cached s' k n (s_byteval s') r' (advance (zlen h) st).
Proof.
  intros Hi Hp Hst E.
  destruct (decide (at_end st)) as [He|He].
  { by rewrite (Kind_at_end _ _ _ Hp He) in E. }
  rewrite (Kind_not_at_end _ _ _ Hp He) in E.
  destruct (readKind (set_kinderr None s)) as [[e|[[k' n'] kerr]] s1] eqn:R; [done|].
  destruct kerr as [e|]; [done|]. cbv zeta in E.
  destruct (size_check n' s1) as [e|] eqn:Herr; [done|].
  simplify_eq. destruct Hp as [Hp _].
  destruct (readKind_inv (set_kinderr None s) r st k n s1) as (h & r' & -> & Hh & Hf & A); auto.
  exists h, r'. simpl. destruct A as [(Ar & Am & Al & As) Ak].
  split; [done|]. split; [done|]. split; [done|]. split.
  - unfold size_check in Herr. rewrite As in Herr. pose proof (header_nonempty _ _ _ _ Hh).
    pose proof (advance_ok (zlen h) st ltac:(lia) Hf Hst) as Hst'.
    destruct (advance (zlen h) st) as [|t rest]; simpl in Herr |- *.
    + rewrite Al, Am in Herr. simpl in Herr. case_match; zbool; [done|lia].
    + rewrite (lp_left_ok _ _ Hst') in Herr. case_match; zbool; [done|lia].
  - by unfold cached, pos_at.
Qed.

Lemma Kind_EOL s r st s' :
  stream_at s r st -> Kind_of s = (inl EOL, s') -> at_end st.
Proof.
  intros Hp E. destruct (decide (at_end st)) as [He|He]; [done|exfalso].
  rewrite (Kind_not_at_end _ _ _ Hp He) in E.
  destruct (readKind (set_kinderr None s)) as [[e|[[k' n'] kerr]] s1] eqn:R.
  { unfold readKind, readKind_long in R. repeat case_match; simplify_eq. }
  cbv zeta in E. destruct kerr as [e|].
  - simplify_eq. by eapply readKind_no_EOL.
  - unfold size_check in E. repeat case_match; simplify_eq.
Qed.

(** ** Codecs *)

Record codec_ok {A} (enc : A -> bytes) (d : SM A) (wf : A -> Prop) : Prop := {
  codec_complete a s r st :
    wf a -> input_ok (enc a ++ r) -> stream_at s (enc a ++ r) st -> stack_ok st ->
    fits (zlen (enc a)) st ->
    exists s', d s = (inr a, s') /\ stream_at s' r (advance (zlen (enc a)) st);
  codec_sound s r st a s' :
    input_ok r -> stream_at s r st -> stack_ok st -> d s = (inr a, s') ->
    wf a /\ fits (zlen (enc a)) st /\
    exists r', r = enc a ++ r' /\ stream_at s' r' (advance (zlen (enc a)) st);
  codec_end s r st :
    stream_at s r st -> at_end st -> exists s', d s = (inl EOL, s') /\ stream_at s' r st;
  codec_EOL s r st s' :
    input_ok r -> stream_at s r st -> stack_ok st -> d s = (inl EOL, s') -> at_end st;
  codec_nonempty a : 0 < zlen (enc a)
}.

(** Decoders that look at the next header first. *)
Lemma kind_first_end {A} (f : Kind * Z -> SM A) s r st :
  stream_at s r st -> at_end st ->
  exists s', sbind Kind_of f s = (inl EOL, s') /\ stream_at s' r st.
Proof.
  intros Hp He. exists (set_kinderr None s). unfold sbind.
  rewrite (Kind_at_end _ _ _ Hp He). done.
Qed.

Lemma kind_first_EOL {A} (f : Kind * Z -> SM A) s r st s' :
  stream_at s r st ->
  (forall k n s1 s2, Kind_of s = (inr (k, n), s1) -> f (k, n) s1 = (inl EOL, s2) -> False) ->
  sbind Kind_of f s = (inl EOL, s') -> at_end st.
Proof.
  intros Hp Hf E. unfold sbind in E.
  destruct (Kind_of s) as [[e|[k n]] s1] eqn:K.
  - simplify_eq. by eapply Kind_EOL.
  - exfalso. eauto.
Qed.

Lemma wrapStreamError_EOL e : wrapStreamError e = EOL <-> e = EOL.
Proof. destruct e; simpl; done. Qed.

Lemma codec_wrapping {A} (enc : A -> bytes) d wf :
  codec_ok enc d wf -> codec_ok enc (wrapping d) wf.
Proof.
  intros [C S E L N]. unfold wrapping. constructor; auto.
  - intros a s r st H1 H2 H3 H4 H5. destruct (C a s r st) as (s' & -> & ?); eauto.
  - intros s r st a s' H1 H2 H3 H4. destruct (d s) as [[e|b] s1] eqn:D; simplify_eq. eauto.
  - intros s r st H1 H2. destruct (E s r st) as (s' & -> & ?); eauto.
  - intros s r st s' H1 H2 H3 H4. destruct (d s) as [[e|b] s1] eqn:D; simplify_eq.
    eapply (L s r st _); auto. rewrite D. do 2 f_equal. by apply wrapStreamError_EOL.
Qed.

(** Post-processing of a decoded value by a partial inverse of [g]. *)
Lemma codec_refine {A B} (enc : A -> bytes) d (wf : A -> Prop) (f : A -> rlp_err + B) (g : B -> A)
    (wf' : B -> Prop) :
  codec_ok enc d wf ->
  (forall b, wf' b -> wf (g b) /\ f (g b) = inr b) ->
  (forall a b, wf a -> f a = inr b -> wf' b /\ g b = a) ->
  (forall a, f a <> inl EOL) ->
  codec_ok (fun b => enc (g b))
    (let* a := d in match f a with inl e => serr e | inr b => sret b end) wf'.
Proof.
  intros [C S E L N] Hg Hf Hn. unfold sbind. constructor; auto.
  - intros b s r st H1 H2 H3 H4 H5. destruct (Hg b H1) as [H6 H7].
    destruct (C (g b) s r st) as (s' & -> & ?); auto. rewrite H7. by exists s'.
  - intros s r st b s' H1 H2 H3 H4. destruct (d s) as [[e|a] s1] eqn:D; [done|].
    destruct (f a) as [e|b'] eqn:F; unfold serr, sret in H4; simplify_eq.
    destruct (S s r st a s') as (H5 & H6); auto. by destruct (Hf a b H5 F) as [H7 ->].
  - intros s r st H1 H2. destruct (E s r st) as (s' & -> & ?); eauto.
  - intros s r st s' H1 H2 H3 H4. destruct (d s) as [[e|a] s1] eqn:D; simplify_eq; [by eauto|].
    specialize (Hn a). destruct (f a) as [e|b'] eqn:F; unfold serr, sret in H4; simplify_eq.
Qed.

Lemma codec_iso {A B} (enc : A -> bytes) d (wf : A -> Prop) (f : A -> B) (g : B -> A) (wf' : B -> Prop) :
  codec_ok enc d wf ->
  (forall b, wf' b -> wf (g b) /\ f (g b) = b) ->
  (forall a, wf a -> wf' (f a) /\ g (f a) = a) ->
  codec_ok (fun b => enc (g b)) (let* a := d in sret (f a)) wf'.
Proof.
  intros Hc Hg Hf. apply (codec_refine enc d wf (fun a => inr (f a)) g wf'); auto.
  - intros b Hb. destruct (Hg b Hb) as [? ->]. done.
  - intros a b Ha [= <-]. auto.
Qed.

Lemma codec_ext {A} (enc enc' : A -> bytes) d (wf : A -> Prop) :
  (forall a, enc a = enc' a) -> codec_ok enc d wf -> codec_ok enc' d wf.
Proof.
  intros He [C S E L N]. constructor; auto.
  - intros a s r st. rewrite <- He. apply C.
  - intros s r st a s' H1 H2 H3 H4. rewrite <- He. eauto.
  - intros a. rewrite <- He. apply N.
Qed.

Lemma codec_ext_dec {A} (enc : A -> bytes) d d' (wf : A -> Prop) :
  (forall s, d s = d' s) -> codec_ok enc d wf -> codec_ok enc d' wf.
Proof.
  intros He [C S E L N]. constructor; auto.
  - intros a s r st. rewrite <- He. apply C.
  - intros s r st a s'. rewrite <- He. apply S.
  - intros s r st. rewrite <- He. apply E.
  - intros s r st s'. rewrite <- He. apply L.
Qed.

(** *** Strings *)

(** How a string is laid out: a lone small byte, or a header and the content. *)
Lemma rlp_str_cases b :
  (exists x, b = [x] /\ x < 128 /\ rlp_str b = [x]) \/
  (rlp_str b = rlp_head 0x80 (zlen b) ++ b /\ (zlen b = 1 -> 128 <= default 0 (head b))).
Proof.
  unfold rlp_str. destruct b as [|x [|y b]]; simpl; [by right| |right; split; [done|zlen_lia]].
  zcase; [left; eauto|right]. split; [done|lia].
Qed.

Lemma rlp_str_long b :
  ~ (exists x, b = [x] /\ x < 128) -> rlp_str b = rlp_head 0x80 (zlen b) ++ b.
Proof.
  intros H. destruct (rlp_str_cases b) as [(x & -> & ? & ?)|[-> _]]; [|done].
  exfalso. eauto.
Qed.

Lemma rlp_str_nonempty b : 0 < zlen (rlp_str b).
Proof.
  destruct (rlp_str_cases b) as [(x & _ & _ & ->)|[-> _]]; [done|].
  rewrite zlen_app. pose proof (zlen_rlp_head_pos 0x80 (zlen b)). zlen_lia.
Qed.

Lemma zlen_rlp_str_lt b r : zlen (rlp_str b ++ r) < 2 ^ 64 -> zlen b < 2 ^ 64.
Proof. pose proof (zlen_rlp_str_ge b). zlen_lia. Qed.

Lemma cached_rearm s k n bv r st : cached s k n bv r st -> stream_at (set_kind None s) r st.
Proof. intros (H & _). done. Qed.

(** The header in front of an encoded string. *)
Lemma Kind_str b s r st :
  bytes_ok b -> input_ok (rlp_str b ++ r) -> stream_at s (rlp_str b ++ r) st -> stack_ok st ->
  fits (zlen (rlp_str b)) st ->
  (exists x s1, b = [x] /\ 0 <= x < 128 /\ rlp_str b = [x] /\
     Kind_of s = (inr (Byte, 0), s1) /\ cached s1 Byte 0 x r (advance 1 st)) \/
  (exists s1 h, rlp_str b = h ++ b /\ (zlen b = 1 -> 128 <= default 0 (head b)) /\
     Kind_of s = (inr (String, zlen b), s1) /\ pos_at s1 (b ++ r) (advance (zlen h) st) /\
     stack_ok (advance (zlen h) st) /\ fits (zlen b) (advance (zlen h) st)).
Proof.
  intros Hb Hi Hp Hst Hf. destruct (rlp_str_cases b) as [(x & -> & Hx & E)|[E Hx]].
  - left. rewrite E in *. inversion_clear Hb as [|? ? Hx' _]. unfold is_byte in Hx'.
    destruct (Kind_ok Byte 0 x [x] s r st) as (s1 & K & C); auto.
    { simpl. auto with lia. }
    { destruct st; simpl in *; zlen_lia. }
    exists x, s1. rewrite bool_decide_true in C by done. auto with lia.
  - right. pose proof (zlen_nonneg b). destruct Hi as [_ Hlt].
    pose proof (zlen_rlp_str_lt _ _ Hlt). rewrite E, <- ?app_assoc in *. rewrite zlen_app in Hf.
    set (h := rlp_head 0x80 (zlen b)) in *.
    assert (Hh : fits (zlen h) st) by (eapply fits_weaken; [exact Hf|lia]).
    assert (Hb' : fits (zlen b) (advance (zlen h) st)) by (by apply fits_advance).
    destruct (Kind_ok String (zlen b) 0 h s (b ++ r) st) as (s1 & K & C); auto.
    { split; [done|lia]. }
    { destruct st; simpl in *; [zlen_lia|lia]. }
    exists s1, h. split; [done|]. split; [done|]. split; [done|]. split; [apply C|].
    split; [|done]. apply advance_ok; auto. zlen_lia.
Qed.

Lemma bytes_codec : codec_ok rlp_str Stream_Bytes bytes_ok.
Proof.
  constructor.
  - intros b s r st Hb Hi Hp Hst Hf. unfold Stream_Bytes, sbind.
    destruct (Kind_str b s r st) as [(x & s1 & -> & Hx & E & -> & C)|(s1 & h & E & Hx & -> & P & S & F)]; auto.
    + exists (set_kind None s1). unfold rearm, get_byteval, sret. simpl. rewrite E.
      destruct C as (P & _ & _ & -> & _). done.
    + destruct (readFull_ok (zlen b) s1 (b ++ r) (advance (zlen h) st)) as (s2 & -> & A); auto; [zlen_lia..|].
      rewrite drop_zlen_app in A. rewrite take_zlen_app. exists s2. rewrite E, zlen_app, <- advance_add.
      split; [|done]. destruct (zlen b =? 1) eqn:Z1; zbool; simpl; [|done].
      specialize (Hx Z1). by rewrite (proj2 (Z.ltb_ge _ _) Hx).
  - intros s r st b s' Hi Hp Hst E. unfold Stream_Bytes, sbind in E.
    destruct (Kind_of s) as [[e|[k n]] s1] eqn:K; [done|].
    destruct (Kind_inv _ _ _ _ _ _ Hi Hp Hst K) as (h & r' & -> & Hh & Hf & Ha & C).
    apply input_ok_app in Hi as (Hbh & [Hbr _] & _).
    destruct k; [| |done].
    + destruct Hh as (-> & -> & Hbv). unfold rearm, get_byteval, sret in E. simplify_eq. simpl in *.
      unfold rlp_str. zcases. split; [repeat constructor; unfold is_byte; lia|]. split; [done|].
      exists r'. split; [done|]. by eapply cached_rearm.
    + destruct Hh as (-> & Hn). destruct C as (P & _).
      destruct (readFull n s1) as [[e|b'] s2] eqn:F; [done|].
      destruct (readFull_inv n s1 r' (advance (zlen (rlp_head 0x80 n)) st) b' s2)
        as (r2 & -> & Hz & Hf2 & A); auto; [apply advance_ok; auto with bytes_db|lia|].
      apply Forall_app in Hbr as [Hbr _].
      destruct ((n =? 1) && (default 0 (head b') <? 128)) eqn:T; [done|]. unfold sret in E. simplify_eq.
      assert (Es : rlp_str b = rlp_head 0x80 (zlen b) ++ b).
      { apply rlp_str_long. intros (x & -> & Hx). simpl in T. zbool. by apply Z.ltb_ge in T; lia. }
      rewrite Es, zlen_app, <- advance_add. split; [done|]. split; [by apply fits_advance|].
      exists r2. by rewrite <- app_assoc.
  - intros s r st. apply kind_first_end.
  - intros s r st s' Hi Hp Hst. apply (kind_first_EOL _ s r); [done|].
    intros k n s1 s2 K E. destruct k; [done| |done].
    unfold sbind in E. destruct (readFull n s1) as [[e|b] s3] eqn:F.
    + simplify_eq. by eapply readFull_err.
    + case_match; unfold serr, sret in E; simplify_eq.
  - apply rlp_str_nonempty.
Qed.

Lemma byteSlice_codec : codec_ok rlp_str decodeByteSlice bytes_ok.
Proof. apply codec_wrapping, bytes_codec. Qed.

(** *** Integers *)

Lemma bigInt_codec : codec_ok (fun n => rlp_str (be_bytes n)) decodeBigInt (fun n => 0 <= n).
Proof.
  pose (f b := if match b with x :: _ => x =? 0 | [] => false end
               then inl (wrapStreamError ErrCanonInt) else inr (be_value b) : rlp_err + Z).
  apply (codec_ext_dec _
     (let* b := wrapping Stream_Bytes in match f b with inl e => serr e | inr n => sret n end)).
  { intros s. unfold decodeBigInt, f, sbind. repeat case_match; simplify_eq; done. }
  apply (codec_refine rlp_str (wrapping Stream_Bytes) bytes_ok f be_bytes (fun n => 0 <= n)
    (codec_wrapping _ _ _ bytes_codec)).
  - intros n Hn. split; [auto with bytes_db|]. unfold f.
    destruct (be_bytes n) as [|x b] eqn:Eb.
    + by rewrite <- (be_value_bytes n Hn), Eb.
    + assert (0 < n). { destruct (Z.eq_dec n 0) as [->|]; [done|lia]. }
      pose proof (be_bytes_head n x b ltac:(done) Eb). zcases.
      by rewrite <- Eb, be_value_bytes.
  - intros b n Hb F. unfold f in F. destruct b as [|x b]; [by simplify_eq|].
    destruct (x =? 0) eqn:X; zbool; simplify_eq.
    pose proof (be_value_bound _ Hb). split; [lia|]. by apply be_bytes_value.
  - intros b. unfold f. case_match; done.
Qed.

(** *** Fixed-size byte arrays (addresses and hashes) *)

Lemma byteArray_codec vlen :
  1 < vlen -> codec_ok rlp_str (decodeByteArray vlen) (fun b => bytes_ok b /\ zlen b = vlen).
Proof.
  intros Hv. constructor.
  - intros b s r st [Hb Hz] Hi Hp Hst Hf. unfold decodeByteArray, sbind.
    destruct (Kind_str b s r st) as [(x & s1 & -> & Hx & E & -> & C)|(s1 & h & E & Hx & -> & P & S & F)]; auto.
    { exfalso. change (zlen [x]) with 1 in Hz. lia. }
    zcases. rewrite <- Hz.
    destruct (readFull_ok (zlen b) s1 (b ++ r) (advance (zlen h) st)) as (s2 & -> & A); auto; [zlen_lia..|].
    rewrite drop_zlen_app in A. rewrite take_zlen_app. exists s2. rewrite E, zlen_app, <- advance_add.
    split; [|done]. destruct (zlen b =? 1) eqn:Z1; zbool; simpl; [lia|done].
  - intros s r st b s' Hi Hp Hst E. unfold decodeByteArray, sbind in E.
    destruct (Kind_of s) as [[e|[k n]] s1] eqn:K; [done|].
    destruct (Kind_inv _ _ _ _ _ _ Hi Hp Hst K) as (h & r' & -> & Hh & Hf & Ha & C).
    apply input_ok_app in Hi as (Hbh & [Hbr _] & _).
    destruct k; [by repeat case_match; zbool; simplify_eq; lia| |done].
    destruct Hh as (-> & Hn). destruct C as (P & _).
    destruct (vlen <? n) eqn:V1; zbool; [done|]. destruct (vlen >? n) eqn:V2; zbool; [done|].
    assert (n = vlen) as -> by lia.
    destruct (readFull vlen s1) as [[e|b'] s2] eqn:F; [done|].
    destruct (readFull_inv vlen s1 r' (advance (zlen (rlp_head 0x80 vlen)) st) b' s2)
      as (r2 & -> & Hz & Hf2 & A); auto; [apply advance_ok; auto with bytes_db|lia|].
    apply Forall_app in Hbr as [Hbr _].
    case_match; unfold serr, sret in E; simplify_eq.
    assert (Es : rlp_str b = rlp_head 0x80 (zlen b) ++ b).
    { apply rlp_str_long. intros (x & -> & Hx). change (zlen [x]) with 1 in *. lia. }
    rewrite Es, zlen_app, <- advance_add. split; [done|]. split; [by apply fits_advance|].
    exists r2. by rewrite <- app_assoc.
  - intros s r st. apply kind_first_end.
  - intros s r st s' Hi Hp Hst. apply (kind_first_EOL _ s r); [done|].
    intros k n s1 s2 K E. destruct k; [| |done].
    + repeat case_match; unfold serr in E; by simplify_eq.
    + destruct (vlen <? n); [done|]. destruct (vlen >? n); [done|].
      unfold sbind in E. destruct (readFull vlen s1) as [[e|b] s3] eqn:F.
      * simplify_eq. by eapply readFull_err.
      * case_match; unfold serr, sret in E; simplify_eq.
  - apply rlp_str_nonempty.
Qed.

(** *** Unsigned integers of [8 * w] bits *)

Lemma Stream_uint_codec w :
  1 <= w <= 8 ->
  codec_ok (fun n => rlp_str (be_bytes n)) (Stream_uint (8 * w)) (fun n => 0 <= n < 256 ^ w).
Proof.
  intros Hw. assert (D : 8 * w / 8 = w) by (rewrite Z.mul_comm; by apply Z.div_mul).
  assert (P8 : 256 ^ w <= 2 ^ 64) by (change (2 ^ 64) with (256 ^ 8); apply Z.pow_le_mono_r; lia).
  constructor.
  - intros n s r st Hn Hi Hp Hst Hf. unfold Stream_uint, sbind. rewrite D.
    pose proof (be_value_bytes n ltac:(lia)) as V.
    assert (L : zlen (be_bytes n) = Z.of_nat (byte_len n)) by apply zlen_be_pad.
    destruct (Kind_str (be_bytes n) s r st)
      as [(x & s1 & Eb & Hx & E & -> & C)|(s1 & h & E & Hx & -> & P & S & F)]; auto with bytes_db.
    + rewrite Eb in V. unfold be_value in V. simpl in V. assert (x = n) by lia. subst x.
      exists (set_kind None s1). unfold get_byteval, rearm, sret. simpl.
      destruct C as (P & _ & _ & -> & _). rewrite E.
      destruct (Z.eqb_spec n 0) as [->|]; [done|]. done.
    + assert (Hle : Z.of_nat (byte_len n) <= w).
      { assert (byte_len n <= Z.to_nat w)%nat by (apply byte_len_le; rewrite Z2Nat.id by lia; lia). lia. }
      rewrite L in *. zcases. rewrite E, zlen_app, L, <- advance_add.
      destruct (Z.eq_dec n 0) as [->|].
      { change (byte_len 0) with O in *. change (be_bytes 0) with (@nil Z) in *.
        rewrite advance_0. unfold readUint. simpl. eexists; split; [done|]. split; [apply P|done]. }
      destruct (readUint_ok n s1 r (advance (zlen h) st)) as (s2 & -> & A); auto; [lia|].
      exists s2. split; [|done]. rewrite (proj2 (Z.ltb_ge n 128)), andb_false_r; [done|].
      destruct (Z.lt_ge_cases n 256); [|lia].
      assert (byte_len n = 1%nat) as L1 by (apply byte_len_small; lia).
      specialize (Hx ltac:(rewrite L1; done)). unfold be_bytes in Hx. rewrite L1 in Hx. simpl in Hx.
      rewrite Z.mod_small in Hx; lia.
  - intros s r st n s' Hi Hp Hst E. unfold Stream_uint, sbind in E. rewrite D in E.
    destruct (Kind_of s) as [[e|[k m]] s1] eqn:K; [done|].
    destruct (Kind_inv _ _ _ _ _ _ Hi Hp Hst K) as (h & r' & -> & Hh & Hf & Ha & C).
    apply input_ok_app in Hi as (Hbh & Hir & _).
    destruct k; [| |done].
    + destruct Hh as (-> & -> & Hbv). unfold get_byteval, serr in E. simpl in E.
      destruct (s_byteval s1 =? 0) eqn:B0; zbool; [done|]. unfold rearm, sret in E. simplify_eq.
      assert (Eb : be_bytes (s_byteval s1) = [s_byteval s1]).
      { unfold be_bytes. rewrite byte_len_small by lia. simpl. by rewrite Z.mod_small by lia. }
      assert (Es : rlp_str (be_bytes (s_byteval s1)) = [s_byteval s1])
        by (rewrite Eb; unfold rlp_str; by zcases).
      rewrite Es. split; [|split; [done|]].
      * pose proof (Z.pow_le_mono_r 256 1 w). lia.
      * exists r'. split; [done|]. by eapply cached_rearm.
    + destruct Hh as (-> & Hm). destruct C as (P & _).
      destruct (m >? w) eqn:M; zbool; [done|].
      destruct (readUint m s1) as [[e|v] s2] eqn:U; [by destruct e|].
      destruct (Z.eq_dec m 0) as [->|].
      { unfold readUint in U. simpl in U. simplify_eq. simpl in E. simplify_eq.
        split; [lia|]. change (rlp_str (be_bytes 0)) with (rlp_head 0x80 0).
        split; [done|]. exists r'. split; [done|]. split; [apply P|done]. }
      rewrite Z.gtb_ltb, (proj2 (Z.ltb_lt 0 m)) in E by lia. simpl in E.
      destruct (v <? 128) eqn:V; zbool; [done|]. simplify_eq.
      destruct (readUint_inv m s1 r' (advance (zlen (rlp_head 0x80 m)) st) n s')
        as (r2 & -> & EL & Hlt & Hf2 & A); auto; [lia|apply advance_ok; auto with bytes_db|lia|].
      assert (Lz : zlen (be_bytes n) = m) by (rewrite EL; apply zlen_be_pad).
      assert (Es : rlp_str (be_bytes n) = rlp_head 0x80 m ++ be_bytes n).
      { rewrite <- Lz. apply rlp_str_long. intros (x & Ex & Hx).
        pose proof (be_value_bytes n ltac:(lia)) as Vn. rewrite Ex in Vn.
        unfold be_value in Vn. simpl in Vn. lia. }
      rewrite Es, zlen_app, Lz, <- advance_add. split; [|split; [by apply fits_advance|]].
      * split; [lia|]. eapply Z.lt_le_trans; [apply byte_len_bounds; lia|].
        rewrite <- EL. apply Z.pow_le_mono_r; lia.
      * exists r2. by rewrite <- app_assoc.
  - intros s r st. apply kind_first_end.
  - intros s r st s' Hi Hp Hst. apply (kind_first_EOL _ s r); [done|].
    intros k n s1 s2 K E. destruct k; [| |done].
    + unfold get_byteval, sbind in E. case_match; unfold serr in E; by simplify_eq.
    + case_match; [by unfold serr in E; simplify_eq|].
      destruct (readUint n s1) as [[e|v] s3] eqn:U.
      * apply readUint_err in U. destruct e; by simplify_eq.
      * case_match; simplify_eq.
  - intros n. apply rlp_str_nonempty.
Qed.

Lemma uint64_codec : codec_ok (fun n => rlp_str (be_bytes n)) (decodeUint 64) is_u64.
Proof. apply codec_wrapping. apply (Stream_uint_codec 8). lia. Qed.

(** *** Lists *)

Definition open_list (n : Z) (st : list listpos) : list listpos :=
  {| lp_pos := 0; lp_size := n |} :: st.

Lemma open_list_ok n st : 0 <= n < 2 ^ 64 -> fits n st -> stack_ok st -> stack_ok (open_list n st).
Proof. intros Hn Hf Hst. simpl. destruct st; simpl in *; intuition lia. Qed.

Lemma List_ok p s r st :
  input_ok (rlp_list p ++ r) -> stream_at s (rlp_list p ++ r) st -> stack_ok st ->
  fits (zlen (rlp_list p)) st ->
  exists s' h, rlp_list p = h ++ p /\ Stream_List s = (inr (zlen p), s') /\
    stream_at s' (p ++ r) (open_list (zlen p) (advance (zlen h) st)) /\
    stack_ok (open_list (zlen p) (advance (zlen h) st)).
Proof.
  intros [_ Hlt] Hp Hst Hf. pose proof (zlen_nonneg p). pose proof (zlen_rlp_list_ge p).
  assert (zlen p < 2 ^ 64) by zlen_lia.
  unfold rlp_list in *. rewrite <- ?app_assoc in *. rewrite zlen_app in Hf.
  set (h := rlp_head 0xC0 (zlen p)) in *.
  assert (Hh : fits (zlen h) st) by (eapply fits_weaken; [exact Hf|lia]).
  assert (Hb : fits (zlen p) (advance (zlen h) st)) by (by apply fits_advance).
  destruct (Kind_ok List (zlen p) 0 h s (p ++ r) st) as (s1 & K & (P & _)); auto.
  { split; [done|lia]. }
  { destruct st; simpl in *; [zlen_lia|lia]. }
  unfold Stream_List, sbind. rewrite K. eexists _, h. split; [done|]. split; [done|].
  split; [|apply open_list_ok; auto; apply advance_ok; auto with bytes_db].
  destruct P as (Pr & Pm & Pl & Ps). split; [|done]. unfold pos_at, open_list. simpl. by rewrite Ps.
Qed.

Lemma List_inv s r st n s' :
  input_ok r -> stream_at s r st -> stack_ok st -> Stream_List s = (inr n, s') ->
  exists h r', r = h ++ r' /\ h = rlp_head 0xC0 n /\ 0 <= n < 2 ^ 64 /\ fits (zlen h) st /\
    fits n (advance (zlen h) st) /\ input_ok r' /\
    stream_at s' r' (open_list n (advance (zlen h) st)) /\
    stack_ok (open_list n (advance (zlen h) st)).
Proof.
  intros Hi Hp Hst E. unfold Stream_List, sbind in E.
  destruct (Kind_of s) as [[e|[k m]] s1] eqn:K; [done|].
  destruct (Kind_inv _ _ _ _ _ _ Hi Hp Hst K) as (h & r' & -> & Hh & Hf & Ha & (P & _)).
  destruct k; [done|done|]. simplify_eq. destruct Hh as [-> Hn].
  apply input_ok_app in Hi as (_ & Hi & _).
  assert (Hfn : fits n (advance (zlen (rlp_head 0xC0 n)) st))
    by (destruct (advance _ st); [done|exact Ha]).
  assert (stack_ok (advance (zlen (rlp_head 0xC0 n)) st)) by (apply advance_ok; auto with bytes_db).
  eexists _, r'. split_and!; try done; try lia; [|by apply open_list_ok..].
  split; [|done]. destruct P as (Pr & Pm & Pl & Ps). unfold pos_at, open_list. simpl. by rewrite Ps.
Qed.

Lemma ListEnd_ok n s r st :
  stream_at s r ({| lp_pos := n; lp_size := n |} :: st) ->
  stack_ok ({| lp_pos := n; lp_size := n |} :: st) ->
  exists s', Stream_ListEnd s = (inr tt, s') /\ stream_at s' r (advance n st).
Proof.
  intros [(Hr & Hm & Hl & Hs) _] Hst. unfold Stream_ListEnd. rewrite Hs. simpl. rewrite Z.eqb_refl. simpl.
  eexists; split; [done|]. split; [|done]. unfold pos_at. simpl. split_and!; auto.
  destruct st as [|t rest]; [done|]. simpl in *. f_equal.
  apply (lp_advance_ok n t rest); [simpl; tauto|lia|simpl; lia].
Qed.

Lemma ListEnd_inv s r t st u s' :
  stream_at s r (t :: st) -> Stream_ListEnd s = (inr u, s') -> lp_pos t = lp_size t.
Proof.
  intros [(_ & _ & _ & Hs) _] E. unfold Stream_ListEnd in E. rewrite Hs in E.
  destruct (lp_pos t =? lp_size t) eqn:P; zbool; done.
Qed.

Lemma ListEnd_not_EOL s s' : Stream_ListEnd s = (inl EOL, s') -> False.
Proof. unfold Stream_ListEnd. repeat case_match; intros; simplify_eq. Qed.

Lemma wrapping_inr {A} (d : SM A) s a s' : wrapping d s = (inr a, s') <-> d s = (inr a, s').
Proof. unfold wrapping. repeat case_match; naive_solver. Qed.

Lemma wrapping_EOL {A} (d : SM A) s s' : wrapping d s = (inl EOL, s') <-> d s = (inl EOL, s').
Proof.
  unfold wrapping. destruct (d s) as [[e|a] s1]; [|naive_solver].
  split; intros; simplify_eq; [|done]. do 2 f_equal. by apply wrapStreamError_EOL.
Qed.

Lemma List_end s r st :
  stream_at s r st -> at_end st ->
  exists s', wrapping Stream_List s = (inl EOL, s') /\ stream_at s' r st.
Proof.
  intros Hp He. destruct (kind_first_end (fun '(k, n) => match k with
     | List => fun s => (inr n, set_size 0 (set_kind None
         (set_stack ({| lp_pos := 0; lp_size := n |} :: s_stack s) s)))
     | _ => serr ErrExpectedList end) s r st) as (s' & E & A); auto.
  exists s'. split; [|done]. apply wrapping_EOL. exact E.
Qed.

Lemma List_EOL s r st s' :
  stream_at s r st -> wrapping Stream_List s = (inl EOL, s') -> at_end st.
Proof.
  intros Hp E. apply (proj1 (wrapping_EOL _ _ _)) in E.
  eapply kind_first_EOL; [exact Hp| |exact E].
  intros k n s1 s2 _. by destruct k.
Qed.

(** ** Decoders that read back every encoding

    The half of [codec_ok] that a decoder accepting more than one encoding of
    a value still satisfies. *)

Definition decodes {A} (enc : A -> bytes) (d : SM A) (wf : A -> Prop) : Prop :=
  forall a s r st,
    wf a -> input_ok (enc a ++ r) -> stream_at s (enc a ++ r) st -> stack_ok st ->
    fits (zlen (enc a)) st ->
    exists s', d s = (inr a, s') /\ stream_at s' r (advance (zlen (enc a)) st).

Lemma codec_decodes {A} (enc : A -> bytes) d wf : codec_ok enc d wf -> decodes enc d wf.
Proof. intros H. exact (codec_complete _ _ _ H). Qed.

Lemma field_nil_decodes : decodes (fun _ => []) field_nil (fun _ => True).
Proof.
  intros [] s r st _ _ Hp _ _. exists s. rewrite zlen_nil, advance_0. done.
Qed.

Lemma field_cons_decodes {A B} (e1 : A -> bytes) (e2 : B -> bytes) d1 d2 w1 w2 :
  decodes e1 d1 w1 -> decodes e2 d2 w2 ->
  decodes (fun p => e1 p.1 ++ e2 p.2) (field_cons d1 d2) (fun p => w1 p.1 /\ w2 p.2).
Proof.
  intros C1 C2 [a b] s r st [Ha Hb] Hi Hp Hst Hf. simpl in *. rewrite <- app_assoc in *.
  rewrite zlen_app in Hf |- *. pose proof (zlen_nonneg (e1 a)). pose proof (zlen_nonneg (e2 b)).
  assert (F1 : fits (zlen (e1 a)) st) by (eapply fits_weaken; [exact Hf|lia]).
  destruct (C1 a s (e2 b ++ r) st) as (s1 & E1 & A1); auto.
  apply input_ok_app in Hi as (_ & Hi & _).
  destruct (C2 b s1 r (advance (zlen (e1 a)) st)) as (s2 & E2 & A2); auto with rlp_db.
  { by apply fits_advance. }
  exists s2. rewrite advance_add in A2. split; [|done].
  unfold field_cons, struct_field, sbind. by rewrite E1, E2.
Qed.

Lemma struct_decodes {A} (enc : A -> bytes) d wf :
  decodes enc d wf -> decodes (fun a => rlp_list (enc a)) (makeStructDecoder d) wf.
Proof.
  intros C a s r st Ha Hi Hp Hst Hf. unfold makeStructDecoder, sbind.
  destruct (List_ok (enc a) s r st) as (s1 & h & Eh & E1 & A1 & K1); auto.
  apply (proj2 (wrapping_inr _ _ _ _)) in E1. rewrite E1. rewrite Eh, <- app_assoc in Hi.
  apply input_ok_app in Hi as (_ & Hi & _).
  destruct (C a s1 r (open_list (zlen (enc a)) (advance (zlen h) st))) as (s2 & -> & A2); auto.
  { simpl. lia. }
  unfold open_list in A2. simpl in A2.
  destruct (ListEnd_ok (zlen (enc a)) s2 r (advance (zlen h) st)) as (s3 & E3 & A3); auto.
  { simpl in *. intuition lia. }
  apply (proj2 (wrapping_inr _ _ _ _)) in E3. rewrite E3. exists s3. by rewrite Eh, zlen_app, <- advance_add.
Qed.

Lemma decodes_iso {A B} (enc : A -> bytes) d (wf : A -> Prop) (f : A -> B) (g : B -> A) (wf' : B -> Prop) :
  decodes enc d wf -> (forall b, wf' b -> wf (g b) /\ f (g b) = b) ->
  decodes (fun b => enc (g b)) (let* a := d in sret (f a)) wf'.
Proof.
  intros C Hg b s r st H1 H2 H3 H4 H5. destruct (Hg b H1) as [H6 H7]. unfold sbind.
  destruct (C (g b) s r st) as (s' & -> & ?); auto. rewrite H7. by exists s'.
Qed.

(** *** Structs *)

(** A sequence of fields: reads exactly its encoding and never reports EOL. *)
Record body_ok {A} (enc : A -> bytes) (d : SM A) (wf : A -> Prop) : Prop := {
  body_complete a s r st :
    wf a -> input_ok (enc a ++ r) -> stream_at s (enc a ++ r) st -> stack_ok st ->
    fits (zlen (enc a)) st ->
    exists s', d s = (inr a, s') /\ stream_at s' r (advance (zlen (enc a)) st);
  body_sound s r st a s' :
    input_ok r -> stream_at s r st -> stack_ok st -> d s = (inr a, s') ->
    wf a /\ fits (zlen (enc a)) st /\
    exists r', r = enc a ++ r' /\ stream_at s' r' (advance (zlen (enc a)) st);
  body_no_EOL s s' : d s = (inl EOL, s') -> False
}.

Lemma field_nil_body : body_ok (fun _ => []) field_nil (fun _ => True).
Proof.
  constructor; [exact field_nil_decodes|intros s r st [] s' _ Hp Hst E|done].
  - unfold field_nil, sret in E. simplify_eq. rewrite zlen_nil, advance_0. split; [done|].
    split; [|by exists r]. destruct st; simpl in *; [done|lia].
Qed.

Lemma field_cons_body {A B} (e1 : A -> bytes) (e2 : B -> bytes) d1 d2 w1 w2 :
  codec_ok e1 d1 w1 -> body_ok e2 d2 w2 ->
  body_ok (fun p => e1 p.1 ++ e2 p.2) (field_cons d1 d2) (fun p => w1 p.1 /\ w2 p.2).
Proof.
  intros [C1 S1 N1 L1 M1] [C2 S2 L2]. constructor.
  - by apply field_cons_decodes.
  - intros s r st [a b] s' Hi Hp Hst E. unfold field_cons, struct_field, sbind in E.
    destruct (d1 s) as [[e|a'] s1] eqn:D1; [by destruct e|].
    destruct (d2 s1) as [[e|b'] s2] eqn:D2; [done|]. unfold sret in E. simplify_eq. simpl.
    destruct (S1 s r st a s1) as (Ha & F1 & r1 & -> & A1); auto.
    apply input_ok_app in Hi as (_ & Hi & _).
    destruct (S2 s1 r1 (advance (zlen (e1 a)) st) b s') as (Hb & F2 & r2 & -> & A2); auto.
    { apply advance_ok; auto with bytes_db. }
    rewrite zlen_app, <- advance_add. split; [done|]. split; [by apply fits_advance|].
    exists r2. by rewrite <- app_assoc.
  - intros s s' E. unfold field_cons, struct_field, sbind in E.
    destruct (d1 s) as [[e|a] s1] eqn:D1; [by destruct e|].
    destruct (d2 s1) as [[e|b] s2] eqn:D2; [|done]. simplify_eq. eauto.
Qed.

Lemma struct_codec {A} (enc : A -> bytes) d wf :
  body_ok enc d wf -> codec_ok (fun a => rlp_list (enc a)) (makeStructDecoder d) wf.
Proof.
  intros [C S L]. constructor.
  - by apply struct_decodes.
  - intros s r st a s' Hi Hp Hst E. unfold makeStructDecoder, sbind in E.
    destruct (wrapping Stream_List s) as [[e|n] s1] eqn:E1; [done|]. apply (proj1 (wrapping_inr _ _ _ _)) in E1.
    destruct (List_inv s r st n s1) as (h & r1 & -> & Eh & Hn & Fh & Fn & Hi1 & A1 & K1); auto.
    destruct (d s1) as [[e|a'] s2] eqn:D; [done|].
    destruct (S s1 r1 _ a' s2 Hi1 A1 K1 D) as (Ha & F2 & r2 & -> & A2). unfold open_list in A2. simpl in A2.
    destruct (wrapping Stream_ListEnd s2) as [[e|u] s3] eqn:E3; [done|].
    unfold sret in E. simplify_eq. apply (proj1 (wrapping_inr _ _ _ _)) in E3.
    pose proof (ListEnd_inv _ _ _ _ _ _ A2 E3) as En. simpl in En. subst n.
    destruct (ListEnd_ok (zlen (enc a)) s2 r2 (advance (zlen (rlp_head 0xC0 (zlen (enc a)))) st))
      as (s4 & E4 & A4); [done|simpl in *; intuition lia|].
    rewrite E4 in E3. simplify_eq. unfold rlp_list. rewrite zlen_app, <- advance_add.
    split; [done|]. split; [by apply fits_advance|]. exists r2. by rewrite <- app_assoc.
  - intros s r st Hp He. destruct (List_end s r st Hp He) as (s' & E & As). exists s'.
    unfold makeStructDecoder, sbind. by rewrite E.
  - intros s r st s' Hi Hp Hst E. unfold makeStructDecoder, sbind in E.
    destruct (wrapping Stream_List s) as [[e|n] s1] eqn:E1.
    { simplify_eq. by eapply List_EOL. }
    destruct (d s1) as [[e|a'] s2] eqn:D; [simplify_eq; exfalso; eauto|].
    destruct (wrapping Stream_ListEnd s2) as [[e|u] s3] eqn:E3; [|done]. simplify_eq.
    apply (proj1 (wrapping_EOL _ _ _)) in E3. by apply ListEnd_not_EOL in E3.
  - intros a. pose proof (zlen_rlp_list_ge (enc a)). zlen_lia.
Qed.
