(* ===== verification/RlpTheorems.v ===== *)
(** Slices, dynamically typed values and whole inputs: the round-trip
    theorems of package [rlp]. *)
From S2P Require Import Prelude RlpEncode RlpDecode RlpCodec.

(** ** Slices *)

Section Slice.
Context {A : Type} {enc : A -> bytes} {d : SM A} {wf : A -> Prop} (Hd : codec_ok enc d wf).

Abbreviation encs l := (concat (map enc l)).

Lemma zlen_encs_ge l : zlen l <= zlen (encs l).
Proof.
  induction l as [|a l IH]; simpl; [done|].
  pose proof (codec_nonempty _ _ _ Hd a). zlen_lia.
Qed.

(** The elements up to the end of the list. *)
Lemma elems_complete l : forall fuel s r t st,
  Forall wf l -> (length l < fuel)%nat -> input_ok (encs l ++ r) ->
  stream_at s (encs l ++ r) (t :: st) -> stack_ok (t :: st) ->
  lp_pos t + zlen (encs l) = lp_size t ->
  exists s', decodeSliceElems d fuel s = (inr l, s') /\
    stream_at s' r (advance (zlen (encs l)) (t :: st)).
Proof.
  destruct Hd as [C S E L N].
  induction l as [|a l IH]; intros fuel s r t st Hl Hfuel Hi Hp Hst Hz;
    destruct fuel as [|fuel]; simpl in Hfuel; try lia; simpl in *.
  - destruct (E s r (t :: st)) as (s' & -> & A1); auto; [simpl; zlen_lia|].
    exists s'. by rewrite zlen_nil, Z.add_0_r; destruct t.
  - inversion_clear Hl as [|? ? Ha Hl']. rewrite <- app_assoc in *. rewrite zlen_app in Hz.
    pose proof (zlen_nonneg (encs l)). pose proof (zlen_nonneg (enc a)).
    destruct (C a s (encs l ++ r) (t :: st)) as (s1 & -> & A1); auto; [simpl; lia|].
    apply input_ok_app in Hi as (_ & Hi & _).
    destruct (IH fuel s1 r {| lp_pos := lp_pos t + zlen (enc a); lp_size := lp_size t |} st)
      as (s2 & -> & A2); auto; [lia|simpl; intuition lia|simpl; lia|].
    exists s2. split; [done|]. simpl in A2. by rewrite zlen_app, Z.add_assoc.
Qed.

Lemma elems_sound fuel : forall s r t st l s',
  input_ok r -> stream_at s r (t :: st) -> stack_ok (t :: st) ->
  decodeSliceElems d fuel s = (inr l, s') ->
  Forall wf l /\ lp_pos t + zlen (encs l) = lp_size t /\
  exists r', r = encs l ++ r' /\ stream_at s' r' (advance (zlen (encs l)) (t :: st)).
Proof.
  destruct Hd as [C S E L N].
  induction fuel as [|fuel IH]; intros s r t st l s' Hi Hp Hst D; simpl in D; [done|].
  destruct (d s) as [[e|a] s1] eqn:D1.
  - destruct e; try done. simplify_eq. pose proof (L s r (t :: st) s' Hi Hp Hst D1) as He.
    destruct (E s r (t :: st) Hp He) as (s2 & E2 & A2). rewrite E2 in D1. simplify_eq.
    simpl. rewrite zlen_nil, Z.add_0_r. split; [done|]. split; [exact He|].
    exists r. by destruct t.
  - destruct (decodeSliceElems d fuel s1) as [[e|l'] s2] eqn:D2; [done|]. simplify_eq.
    destruct (S s r (t :: st) a s1) as (Ha & F1 & r1 & -> & A1); auto.
    apply input_ok_app in Hi as (_ & Hi & _).
    pose proof (zlen_nonneg (enc a)). simpl in F1, A1.
    destruct (IH s1 r1 {| lp_pos := lp_pos t + zlen (enc a); lp_size := lp_size t |} st l' s')
      as (Hl & Hz & r2 & -> & A2); auto; [simpl in *; intuition lia|].
    simpl in *. rewrite zlen_app. split; [by constructor|]. split; [lia|].
    exists r2. rewrite <- app_assoc, Z.add_assoc. done.
Qed.

Lemma elems_not_EOL fuel : forall s s', decodeSliceElems d fuel s = (inl EOL, s') -> False.
Proof.
  induction fuel as [|fuel IH]; intros s s' E; simpl in E; [done|].
  destruct (d s) as [[e|a] s1]; [by destruct e|].
  destruct (decodeSliceElems d fuel s1) as [[e|l] s2] eqn:D; [|done]. simplify_eq. eauto.
Qed.

Lemma slice_complete l s r st :
  Forall wf l -> input_ok (rlp_list (encs l) ++ r) -> stream_at s (rlp_list (encs l) ++ r) st ->
  stack_ok st -> fits (zlen (rlp_list (encs l))) st ->
  exists s', decodeListSlice d s = (inr l, s') /\
    stream_at s' r (advance (zlen (rlp_list (encs l))) st).
Proof.
  intros Hl Hi Hp Hst Hf. unfold decodeListSlice, sbind.
  destruct (List_ok (encs l) s r st) as (s1 & h & Eh & E1 & A1 & K1); auto.
  apply (proj2 (wrapping_inr _ _ _ _)) in E1. rewrite E1. rewrite Eh, <- app_assoc in Hi.
  apply input_ok_app in Hi as (_ & Hi & _). rewrite Eh, zlen_app, <- advance_add.
  assert (End : forall s2, stream_at s2 r (advance (zlen (encs l)) (open_list (zlen (encs l)) (advance (zlen h) st))) ->
     exists s3, Stream_ListEnd s2 = (inr tt, s3) /\ stream_at s3 r (advance (zlen (encs l)) (advance (zlen h) st))).
  { intros s2 A2. apply ListEnd_ok; [exact A2|]. simpl in *. intuition lia. }
  destruct (zlen (encs l) =? 0) eqn:Z0; zbool.
  - assert (l = []) as ->. { apply zlen_0_inv. pose proof (zlen_encs_ge l). zlen_lia. }
    destruct (End s1) as (s3 & -> & A3); [by simpl in *|]. by exists s3.
  - destruct (elems_complete l (slice_fuel s1) s1 r {| lp_pos := 0; lp_size := zlen (encs l) |} (advance (zlen h) st))
      as (s2 & -> & A2); auto.
    { unfold slice_fuel. destruct A1 as [(-> & _) _]. pose proof (zlen_encs_ge l).
      unfold zlen in *. rewrite length_app. lia. }
    destruct (End s2 A2) as (s3 & -> & A3). by exists s3.
Qed.

Lemma slice_sound s r st l s' :
  input_ok r -> stream_at s r st -> stack_ok st -> decodeListSlice d s = (inr l, s') ->
  Forall wf l /\ fits (zlen (rlp_list (encs l))) st /\
  exists r', r = rlp_list (encs l) ++ r' /\ stream_at s' r' (advance (zlen (rlp_list (encs l))) st).
Proof.
  intros Hi Hp Hst E. unfold decodeListSlice, sbind in E.
  destruct (wrapping Stream_List s) as [[e|n] s1] eqn:E1; [done|].
  apply (proj1 (wrapping_inr _ _ _ _)) in E1.
  destruct (List_inv s r st n s1) as (h & r1 & -> & Eh & Hn & Fh & Fn & Hi1 & A1 & K1); auto.
  assert (Fin : forall s2 r2 l0, Forall wf l0 -> r1 = encs l0 ++ r2 -> zlen (encs l0) = n ->
     stream_at s2 r2 (advance n (open_list n (advance (zlen h) st))) ->
     (let* _ := Stream_ListEnd in sret l0) s2 = (inr l, s') ->
     Forall wf l /\ fits (zlen (rlp_list (encs l))) st /\
     exists r', h ++ r1 = rlp_list (encs l) ++ r' /\ stream_at s' r' (advance (zlen (rlp_list (encs l))) st)).
  { intros s2 r2 l0 Hl -> Hz A2 D. unfold sbind in D.
    destruct (ListEnd_ok n s2 r2 (advance (zlen h) st)) as (s3 & E3 & A3);
      [exact A2|simpl in *; intuition lia|].
    rewrite E3 in D. unfold sret in D. simplify_eq. unfold rlp_list.
    rewrite zlen_app, <- advance_add. split; [done|]. split; [by apply fits_advance|].
    exists r2. by rewrite <- app_assoc. }
  destruct (n =? 0) eqn:Z0; zbool.
  - subst n. apply (Fin s1 r1 []); auto.
  - destruct (decodeSliceElems d (slice_fuel s1) s1) as [[e|l'] s2] eqn:D; [done|].
    destruct (elems_sound _ s1 r1 _ _ l' s2 Hi1 A1 K1 D) as (Hl & Hz & r2 & Er & A2).
    simpl in Hz. rewrite Z.add_0_l in Hz. rewrite Hz in A2. by apply (Fin s2 r2 l').
Qed.

Lemma slice_codec : codec_ok (fun l => rlp_list (encs l)) (decodeListSlice d) (Forall wf).
Proof.
  constructor.
  - exact slice_complete.
  - exact slice_sound.
  - intros s r st Hp He. destruct (List_end s r st Hp He) as (s' & E & A1). exists s'.
    unfold decodeListSlice, sbind. by rewrite E.
  - intros s r st s' Hi Hp Hst E. unfold decodeListSlice, sbind in E.
    destruct (wrapping Stream_List s) as [[e|n] s1] eqn:E1.
    { simplify_eq. by eapply List_EOL. }
    exfalso. destruct (n =? 0).
    + destruct (Stream_ListEnd s1) as [[e|u] s3] eqn:E3; [|done]. simplify_eq.
      by eapply ListEnd_not_EOL.
    + destruct (decodeSliceElems d (slice_fuel s1) s1) as [[e|l] s2] eqn:D.
      { simplify_eq. by eapply elems_not_EOL. }
      destruct (Stream_ListEnd s2) as [[e|u] s3] eqn:E3; [|done]. simplify_eq.
      by eapply ListEnd_not_EOL.
  - intros l. pose proof (zlen_rlp_list_ge (encs l)). zlen_lia.
Qed.
End Slice.

(** ** Dynamically typed values *)

(** Items with at most [f] nested lists. *)
Inductive item_in : nat -> item -> Prop :=
| item_in_bytes f b : bytes_ok b -> item_in f (IBytes b)
| item_in_list f l : Forall (item_in f) l -> item_in (S f) (IList l).

Definition item_enc (i : item) : bytes := rlp_enc (item_value i).

Lemma item_enc_list l : item_enc (IList l) = rlp_list (concat (map item_enc l)).
Proof. unfold item_enc. simpl. by rewrite map_map. Qed.

Lemma Kind_again s x s1 : Kind_of s = (inr x, s1) -> Kind_of s1 = (inr x, s1).
Proof.
  unfold Kind_of. intros E. destruct (s_kind s) as [k|] eqn:K.
  - destruct (s_kinderr s) eqn:Ke; [done|]. injection E as <- <-. rewrite Ke, K. done.
  - simpl in E. destruct (match head (s_stack s) with Some _ => _ | None => _ end); [done|].
    destruct (readKind (set_kinderr None s)) as [[e|[[k n] kerr]] s2]; [done|].
    destruct kerr as [e|]; simpl in E; [done|].
    destruct (size_check n s2); simpl in E; [done|]. by injection E as <- <-.
Qed.

(** A decoder that starts with [Kind] ignores that the header is cached. *)
Lemma bind_Kind_again {A} (f : Kind * Z -> SM A) s x s1 :
  Kind_of s = (inr x, s1) -> sbind Kind_of f s1 = sbind Kind_of f s.
Proof. intros E. unfold sbind. by rewrite (Kind_again _ _ _ E), E. Qed.

Lemma Bytes_again s x s1 : Kind_of s = (inr x, s1) -> Stream_Bytes s1 = Stream_Bytes s.
Proof. apply bind_Kind_again. Qed.

Lemma ListSlice_again {A} (d : SM A) s x s1 :
  Kind_of s = (inr x, s1) -> decodeListSlice d s1 = decodeListSlice d s.
Proof.
  intros E. unfold decodeListSlice, sbind at 1 4, wrapping.
  unfold Stream_List. by rewrite (bind_Kind_again _ _ _ _ E).
Qed.

(** What [decodeInterface] does, by the kind of the next value. *)
Lemma decodeInterface_cases f s :
  decodeInterface f s =
  match Kind_of s with
  | (inl e, s1) => (inl e, s1)
  | (inr (List, _), s1) =>
      match f with
      | O => (inl errOutOfFuel, s1)
      | S f' => (let* l := decodeListSlice (decodeInterface f') in sret (IList l)) s
      end
  | (inr (_, _), s1) => (let* b := Stream_Bytes in sret (IBytes b)) s
  end.
Proof.
  destruct f as [|f]; simpl; unfold sbind at 1; destruct (Kind_of s) as [[e|[k n]] s1] eqn:K;
    try done; destruct k; try done; unfold sbind;
    rewrite ?(Bytes_again _ _ _ K), ?(ListSlice_again _ _ _ _ K); done.
Qed.

Lemma Bytes_kind s b s' : Stream_Bytes s = (inr b, s') -> exists k n s1, Kind_of s = (inr (k, n), s1) /\ k <> List.
Proof.
  unfold Stream_Bytes, sbind. destruct (Kind_of s) as [[e|[k n]] s1]; [done|].
  intros E. exists k, n, s1. split; [done|]. by destruct k.
Qed.

Lemma ListSlice_kind {A} (d : SM A) s l s' :
  decodeListSlice d s = (inr l, s') -> exists n s1, Kind_of s = (inr (List, n), s1).
Proof.
  unfold decodeListSlice, wrapping, Stream_List, sbind.
  destruct (Kind_of s) as [[e|[k n]] s1]; [done|]. destruct k; try done. eauto.
Qed.

Lemma smap_inr {A B} (d : SM A) (g : A -> B) s a s' :
  d s = (inr a, s') -> (let* x := d in sret (g x)) s = (inr (g a), s').
Proof. intros E. unfold sbind. by rewrite E. Qed.

Lemma smap_inv {A B} (d : SM A) (g : A -> B) s b s' :
  (let* x := d in sret (g x)) s = (inr b, s') -> exists a, b = g a /\ d s = (inr a, s').
Proof. unfold sbind. destruct (d s) as [[e|a] s1]; [done|]. intros [= <- <-]. eauto. Qed.

Lemma item_codec f : codec_ok item_enc (decodeInterface f) (item_in f).
Proof.
  induction f as [f IH] using lt_wf_ind.
  assert (IHf : forall f', f = S f' -> codec_ok (fun l => rlp_list (concat (map item_enc l)))
     (decodeListSlice (decodeInterface f')) (Forall (item_in f'))).
  { intros f' ->. apply slice_codec, IH. lia. }
  pose proof bytes_codec as HB. constructor.
  - intros i s r st Hwf Hi Hp Hst Hf. inversion Hwf; subst.
    + destruct (codec_complete _ _ _ HB b s r st) as (s' & E & A); auto.
      exists s'. split; [|done]. rewrite decodeInterface_cases.
      destruct (Bytes_kind _ _ _ E) as (k & n & s1 & -> & Hk). destruct k; try done; by apply smap_inr.
    + rewrite item_enc_list in *.
      destruct (codec_complete _ _ _ (IHf f0 eq_refl) l s r st) as (s' & E & A); auto.
      exists s'. split; [|done]. rewrite decodeInterface_cases.
      destruct (ListSlice_kind _ _ _ _ E) as (n & s1 & ->). by apply smap_inr.
  - intros s r st i s' Hi Hp Hst E. rewrite decodeInterface_cases in E.
    destruct (Kind_of s) as [[e|[k n]] s1] eqn:K; [done|].
    assert (HBy : (let* b := Stream_Bytes in sret (IBytes b)) s = (inr i, s') ->
      item_in f i /\ fits (zlen (item_enc i)) st /\
      exists r', r = item_enc i ++ r' /\ stream_at s' r' (advance (zlen (item_enc i)) st)).
    { intros E2. apply smap_inv in E2 as (b & -> & E2).
      destruct (codec_sound _ _ _ HB s r st b s') as (Hb & ?); auto. split; [by constructor|done]. }
    destruct k; auto. destruct f as [|f']; [done|]. apply smap_inv in E as (l & -> & E).
    rewrite item_enc_list.
    destruct (codec_sound _ _ _ (IHf f' eq_refl) s r st l s') as (Hl & ?); auto.
    split; [by constructor|done].
  - intros s r st Hp He. rewrite decodeInterface_cases, (Kind_at_end _ _ _ Hp He).
    by exists (set_kinderr None s).
  - intros s r st s' Hi Hp Hst E. rewrite decodeInterface_cases in E.
    destruct (Kind_of s) as [[e|[k n]] s1] eqn:K; [simplify_eq; by eapply Kind_EOL|].
    unfold sbind in E. destruct k.
    1,2: destruct (Stream_Bytes s) as [[e|b] s2] eqn:D; [|done]; simplify_eq;
         by eapply (codec_EOL _ _ _ HB).
    destruct f as [|f']; [done|].
    destruct (decodeListSlice _ s) as [[e|l] s2] eqn:D; [|done]. simplify_eq.
    by eapply (codec_EOL _ _ _ (IHf f' eq_refl)).
  - intros [b|l]; [apply rlp_str_nonempty|]. rewrite item_enc_list.
    pose proof (zlen_rlp_list_ge (concat (map item_enc l))). zlen_lia.
Qed.

(** ** Encodings are byte strings *)

Lemma rlp_head_ok tag n : 0 <= tag <= 0xC0 -> 0 <= n < 2 ^ 64 -> bytes_ok (rlp_head tag n).
Proof.
  intros Ht Hn. unfold rlp_head. zcase.
  - repeat constructor; unfold is_byte; lia.
  - assert (byte_len n <= 8)%nat by (apply byte_len_le; change (256 ^ Z.of_nat 8) with (2 ^ 64); lia).
    constructor; [unfold is_byte; lia|auto with bytes_db].
Qed.

Lemma rlp_str_ok b : bytes_ok b -> zlen b < 2 ^ 64 -> bytes_ok (rlp_str b).
Proof.
  intros Hb Hl. destruct (rlp_str_cases b) as [(x & -> & _ & ->)|[-> _]]; [done|].
  apply Forall_app; split; [|done]. apply rlp_head_ok; [lia|]. pose proof (zlen_nonneg b). lia.
Qed.

Lemma rlp_list_ok p : bytes_ok p -> zlen p < 2 ^ 64 -> bytes_ok (rlp_list p).
Proof.
  intros Hb Hl. apply Forall_app; split; [|done]. apply rlp_head_ok; [lia|].
  pose proof (zlen_nonneg p). lia.
Qed.

Lemma rlp_enc_ok v : value_ok v -> zlen (rlp_enc v) < 2 ^ 64 -> bytes_ok (rlp_enc v).
Proof.
  induction v as [v IH] using value_ind_elems. intros Hok Hlen.
  assert (Hrec : Forall value_ok (value_elems v) ->
      zlen (concat (map rlp_enc (value_elems v))) < 2 ^ 64 ->
      bytes_ok (concat (map rlp_enc (value_elems v)))).
  { intros Hl Hc. apply Forall_concat, Forall_map. rewrite Forall_forall in IH, Hl |- *.
    intros x Hx. apply IH; auto. pose proof (zlen_concat_elem _ _ Hx). lia. }
  inversion Hok; subst; simpl in *;
    try match goal with |- bytes_ok (rlp_str ?b) =>
      pose proof (zlen_rlp_str_ge b); apply rlp_str_ok; [auto with bytes_db|lia] end;
    try match goal with H : zlen (rlp_list ?p) < _ |- _ =>
      pose proof (zlen_rlp_list_ge p); apply rlp_list_ok; [auto with lia|lia] end; auto.
  all: destruct b; repeat constructor; unfold is_byte; lia.
Qed.

(** ** Whole inputs *)

Lemma NewStream_at b : stream_at (NewStream b (zlen b)) b [].
Proof.
  unfold stream_at, pos_at, NewStream. simpl. split; [|done]. split; [done|]. split; [|done].
  zcase; [done|]. done.
Qed.

Lemma DecodeBytes_decodes {A} (enc : A -> bytes) d wf a :
  decodes enc d wf -> wf a -> input_ok (enc a) -> DecodeBytes d (enc a) = Ok a.
Proof.
  intros Hd Ha Hi. unfold DecodeBytes.
  destruct (Hd a (NewStream (enc a) (zlen (enc a))) [] [])
    as (s' & -> & [(-> & _) _]); rewrite ?app_nil_r; auto using NewStream_at.
  all: done.
Qed.

Section Whole.
Context {A : Type} {enc : A -> bytes} {d : SM A} {wf : A -> Prop} (Hd : codec_ok enc d wf).

Lemma DecodeBytes_complete a : wf a -> input_ok (enc a) -> DecodeBytes d (enc a) = Ok a.
Proof. eapply DecodeBytes_decodes, codec_decodes, Hd. Qed.

Lemma DecodeBytes_sound b a : input_ok b -> DecodeBytes d b = Ok a -> wf a /\ b = enc a.
Proof.
  intros Hi E. unfold DecodeBytes in E.
  destruct (d (NewStream b (zlen b))) as [[e|a'] s'] eqn:D; [done|].
  destruct (zlen (s_r s') >? 0) eqn:Z0; zbool; [done|]. simplify_eq.
  destruct (codec_sound _ _ _ Hd _ b [] a s' Hi (NewStream_at b)) as (Ha & _ & r' & -> & [(Hr & _) _]);
    [done|done|].
  split; [done|]. rewrite Hr in Z0. rewrite (zlen_0_inv r'); [by rewrite app_nil_r|zlen_lia].
Qed.

Lemma codec_inj a a' : wf a -> wf a' -> input_ok (enc a) -> enc a = enc a' -> a = a'.
Proof.
  intros Ha Ha' Hi E. pose proof (DecodeBytes_complete a Ha Hi) as D.
  rewrite E in D, Hi. rewrite (DecodeBytes_complete a' Ha' Hi) in D. by injection D.
Qed.
End Whole.

(** A codec of a serializable type, through [EncodeToBytes] and [DecodeBytes]. *)
Lemma encode_decodes {A} (val : A -> value) (d : SM A) wf a b :
  decodes (fun a => rlp_enc (val a)) d wf -> wf a -> value_ok (val a) ->
  zlen (rlp_enc (val a)) < 2 ^ 64 -> EncodeToBytes (val a) = Ok b -> DecodeBytes d b = Ok a.
Proof.
  intros Hd Ha Hv Hz E. rewrite EncodeToBytes_ref in E by done. injection E as <-.
  eapply (DecodeBytes_decodes (fun a => rlp_enc (val a))); [done|done|]. split; [by apply rlp_enc_ok|done].
Qed.

(** ** Fuel *)

(** The loop bounds of the model are never reached: no operation of the stream
    reports [errOutOfFuel], and the bounds of the two loops are large enough. *)
Lemma willRead_fuel n s s' : willRead n s <> (inl errOutOfFuel, s').
Proof. unfold willRead. repeat case_match; intros ?; simplify_eq. Qed.

Lemma readByte_fuel s s' : readByte s <> (inl errOutOfFuel, s').
Proof.
  unfold readByte, sbind. pose proof (willRead_fuel 1 s).
  repeat case_match; intros ?; simplify_eq; naive_solver.
Qed.

Lemma readFull_fuel n s s' : readFull n s <> (inl errOutOfFuel, s').
Proof.
  unfold readFull, sbind. pose proof (willRead_fuel n s).
  repeat case_match; intros ?; simplify_eq; naive_solver.
Qed.

Lemma readUint_fuel n s s' : readUint n s <> (inl errOutOfFuel, s').
Proof.
  unfold readUint. pose proof (readByte_fuel s s'). pose proof (readFull_fuel n s) as F.
  case_match; [done|]. case_match; [done|]. unfold sbind, serr, sret.
  destruct (readFull n s) as [[e|b] s1]; [|case_match; done]. intros ?. simplify_eq. by eapply F.
Qed.

Lemma Kind_fuel s r st s' : stream_at s r st -> Kind_of s <> (inl errOutOfFuel, s').
Proof.
  intros Hp E. destruct (decide (at_end st)) as [He|He].
  { by rewrite (Kind_at_end _ _ _ Hp He) in E. }
  rewrite (Kind_not_at_end _ _ _ Hp He) in E. unfold readKind, readKind_long in E.
  pose proof (readByte_fuel (set_kinderr None s)) as B.
  destruct (readByte (set_kinderr None s)) as [[e|b] s1].
  - simpl in E. repeat case_match; simplify_eq; by eapply B.
  - unfold size_check in E.
    assert (U : forall n s2, readUint n s2 <> (inl errOutOfFuel, (readUint n s2).2)) by (intros; apply readUint_fuel).
    repeat case_match; simplify_eq;
      match goal with H : readUint ?n ?x = _ |- _ => specialize (U n x); rewrite H in U; done end.
Qed.

Lemma Bytes_fuel s r st s' : stream_at s r st -> Stream_Bytes s <> (inl errOutOfFuel, s').
Proof.
  intros Hp E. unfold Stream_Bytes, sbind in E.
  destruct (Kind_of s) as [[e|[k n]] s1] eqn:K; [simplify_eq; by eapply Kind_fuel|].
  destruct k; [done| |done]. pose proof (readFull_fuel n s1) as F.
  destruct (readFull n s1) as [[e|b] s2]; [simplify_eq; by eapply F|].
  case_match; unfold serr, sret in E; simplify_eq.
Qed.

Section FuelList.
Context {A : Type} (enc : A -> bytes) (d : SM A) (wf : A -> Prop) (Hd : codec_ok enc d wf).
Context (bound : nat).
Hypothesis d_fuel : forall s r st s', (length r <= bound)%nat -> input_ok r ->
  stream_at s r st -> stack_ok st -> d s <> (inl errOutOfFuel, s').

Lemma elems_fuel fuel : forall s r st s', (length r <= bound)%nat -> (length r < fuel)%nat ->
  input_ok r -> stream_at s r st -> stack_ok st ->
  decodeSliceElems d fuel s <> (inl errOutOfFuel, s').
Proof.
  induction fuel as [|fuel IH]; intros s r st s' Hb Hl Hi Hp Hst E; [lia|]. simpl in E.
  destruct (d s) as [[e|a] s1] eqn:D.
  { destruct e; simplify_eq. by eapply d_fuel. }
  destruct (codec_sound _ _ _ Hd s r st a s1) as (_ & F & r1 & -> & A1); auto.
  pose proof (codec_nonempty _ _ _ Hd a). unfold zlen in *. rewrite length_app in *.
  apply input_ok_app in Hi as (_ & Hi & _).
  destruct (decodeSliceElems d fuel s1) as [[e|l] s2] eqn:D2; [|done]. simplify_eq.
  eapply (IH s1 r1 _ s'); eauto; [lia..|]. apply advance_ok; auto. lia.
Qed.

Lemma slice_fuel_ok s r st s' : (length r <= S bound)%nat -> input_ok r ->
  stream_at s r st -> stack_ok st -> decodeListSlice d s <> (inl errOutOfFuel, s').
Proof.
  intros Hb Hi Hp Hst E. unfold decodeListSlice, sbind in E.
  destruct (wrapping Stream_List s) as [[e|n] s1] eqn:E1.
  { simplify_eq. unfold wrapping, Stream_List, sbind in E1.
    destruct (Kind_of s) as [[e|[k n]] s1] eqn:K; [|destruct k; unfold serr in E1; by simplify_eq].
    destruct e; simplify_eq. by eapply Kind_fuel. }
  apply (proj1 (wrapping_inr _ _ _ _)) in E1.
  destruct (List_inv s r st n s1) as (h & r1 & -> & Eh & Hn & Fh & Fn & Hi1 & A1 & K1); auto.
  assert (0 < zlen h) by (subst h; apply zlen_rlp_head_pos).
  assert (LE : forall s2 s3, Stream_ListEnd s2 <> (inl errOutOfFuel, s3))
    by (intros s2 s3; unfold Stream_ListEnd; repeat case_match; intros ?; simplify_eq).
  destruct (n =? 0).
  { destruct (Stream_ListEnd s1) as [[e|u] s3] eqn:E3; [|done]. simplify_eq. by eapply LE. }
  destruct (decodeSliceElems d (slice_fuel s1) s1) as [[e|l] s2] eqn:D.
  - simplify_eq. eapply (elems_fuel (slice_fuel s1) s1 r1 _ s'); eauto.
    + unfold zlen in *. rewrite length_app in *. lia.
    + unfold slice_fuel. destruct A1 as [(-> & _) _]. lia.
  - destruct (Stream_ListEnd s2) as [[e|u] s3] eqn:E3; [|done]. simplify_eq. by eapply LE.
Qed.
End FuelList.

Lemma interface_fuel f : forall s r st s', (length r <= f)%nat -> input_ok r ->
  stream_at s r st -> stack_ok st -> decodeInterface f s <> (inl errOutOfFuel, s').
Proof.
  induction f as [|f IH]; intros s r st s' Hl Hi Hp Hst E; rewrite decodeInterface_cases in E;
    (destruct (Kind_of s) as [[e|[k n]] s1] eqn:K; [simplify_eq; by eapply Kind_fuel|]);
    unfold sbind in E; destruct k;
    try (destruct (Stream_Bytes s) as [[e|b] s2] eqn:D; [|done]; simplify_eq; by eapply Bytes_fuel).
  - destruct (Kind_inv _ _ _ _ _ _ Hi Hp Hst K) as (h & r' & -> & Hh & _).
    pose proof (header_nonempty _ _ _ _ Hh). unfold zlen in *. rewrite length_app in Hl. lia.
  - destruct (decodeListSlice _ s) as [[e|l] s2] eqn:D; [|done]. simplify_eq.
    eapply (slice_fuel_ok item_enc (decodeInterface f) _ (item_codec f) f IH s r); eauto.
Qed.

(** An item never nests deeper than its encoding is long. *)
Lemma item_in_mono f g i : (f <= g)%nat -> item_in f i -> item_in g i.
Proof.
  revert g i. induction f as [|f IH]; intros g i Hg Hi; inversion Hi as [|? ? Hl]; subst; [by constructor..|].
  destruct g as [|g]; [lia|]. constructor. eapply Forall_impl; [exact Hl|].
  intros x Hx. apply IH; [lia|done].
Qed.

Lemma item_in_length f i : item_in f i -> item_in (length (item_enc i)) i.
Proof.
  revert i. induction f as [|f IH]; intros i Hi; inversion Hi as [|? l Hl]; subst; [by constructor..|].
  rewrite item_enc_list. pose proof (zlen_rlp_list_ge (concat (map item_enc l))) as G. unfold zlen in G.
  destruct (length (rlp_list _)) as [|m]; [lia|]. constructor.
  rewrite Forall_forall in Hl |- *. intros x Hx. eapply item_in_mono; [|by apply IH, Hl].
  assert (length (item_enc x) <= length (concat (map item_enc l)))%nat; [|lia].
  clear -Hx. induction Hx; simpl; rewrite length_app; lia.
Qed.

Lemma item_value_ok f i : item_in f i -> value_ok (item_value i).
Proof.
  revert i. induction f as [|f IH]; intros i Hi; inversion Hi as [|? l Hl]; subst; simpl; [by constructor..|].
  constructor. apply Forall_map. eapply Forall_impl; [exact Hl|]. apply IH.
Qed.
Lemma item_input_ok f i : item_in f i -> zlen (item_enc i) < 2 ^ 64 -> input_ok (item_enc i).
Proof. intros Hi Hl. split; [|done]. apply rlp_enc_ok; [by eapply item_value_ok|done]. Qed.

(** ** Claims *)

(** the two-pass encoder of [encode.go] computes the RLP encoding: for every
    serializable value whose encoding is shorter than 2^64 bytes,
    [EncodeToBytes] succeeds with the reference encoding, and the buffer it
    allocates has exactly the length of the output. *)
Theorem EncodeToBytes_correct (v : value) :
  value_ok v -> zlen (rlp_enc v) < 2 ^ 64 ->
  EncodeToBytes v = Ok (rlp_enc v) /\
  encbuf_size (makeWriter v encbuf_reset).2 = zlen (rlp_enc v).
Proof.
  intros Hok Hlen. split; [by apply EncodeToBytes_ref|].
  destruct (makeWriter v encbuf_reset) as [e w] eqn:E.
  pose proof (makeWriter_layout v Hok Hlen encbuf_reset) as L. rewrite L in E.
  injection E as <- <-. by apply (toBytes_size v).
Qed.

(** C35: every RLP item (a byte string or a nested list of items) survives the
    round trip: [DecodeBytes] into an [interface{}] gives back exactly the
    encoded item, whatever its nesting depth. *)
Theorem rlp_roundtrip (f : nat) (i : item) (b : bytes) :
  item_in f i -> zlen (item_enc i) < 2 ^ 64 ->
  EncodeToBytes (item_value i) = Ok b -> DecodeBytes_interface b = Ok i.
Proof.
  intros Hi Hl E. rewrite EncodeToBytes_ref in E; [|by eapply item_value_ok|done]. injection E as <-.
  apply (DecodeBytes_complete (item_codec _)); [by eapply item_in_length|by eapply item_input_ok].
Qed.

(** C36: the decoder is strict.  Whatever input it accepts is the canonical
    encoding of the value it returns, so two different inputs never decode to
    the same item. *)
Theorem rlp_canonical (b : bytes) (i : item) :
  bytes_ok b -> zlen b < 2 ^ 64 ->
  DecodeBytes_interface b = Ok i -> EncodeToBytes (item_value i) = Ok b.
Proof.
  intros Hb Hl E.
  destruct (DecodeBytes_sound (item_codec _) b i ltac:(done) E) as [Hi ->].
  apply EncodeToBytes_ref; [by eapply item_value_ok|done].
Qed.

(** decoding terminates: on every input the loops of the decoder end before
    the bounds of the model, which therefore never show in a result. *)
Theorem rlp_decode_terminates (b : bytes) :
  bytes_ok b -> zlen b < 2 ^ 64 -> DecodeBytes_interface b <> Err errOutOfFuel.
Proof.
  intros Hb Hl. unfold DecodeBytes_interface, DecodeBytes.
  pose proof (interface_fuel (length b) (NewStream b (zlen b)) b []) as F.
  destruct (decodeInterface _ _) as [[e|i] s']; [|case_match; done].
  intros [= ->]. apply (F s'); auto using NewStream_at; done.
Qed.

(** [decodeByteArray] drops the error of [s.Uint()] for a zero byte and
    leaves the value unconsumed: the encoding of [struct { A [1]byte; B uint64 }]
    with [A = {0}] is never decodable, although it is what the encoder produces. *)
Theorem byteArray1_zero_undecodable (n : Z) (b : bytes) :
  is_u64 n -> EncodeToBytes (VStruct [VBytes [0]; VUint n]) = Ok b ->
  DecodeBytes (makeStructDecoder (field_cons (decodeByteArray 1)
                 (field_cons (decodeUint 64) field_nil))) b = Err (decodeError MsgCanonInt).
Proof.
  intros Hn E. pose proof (byte_len_le n 8 ltac:(apply Hn)) as L8.
  set (v := VStruct [VBytes [0]; VUint n]) in *. set (p := 0 :: rlp_str (be_bytes n)).
  assert (Ev : rlp_enc v = rlp_list p) by (simpl; by rewrite app_nil_r).
  assert (Lp : zlen p <= 10).
  { unfold p. rewrite zlen_cons. assert (zlen (be_bytes n) = Z.of_nat (byte_len n)) by apply zlen_be_pad.
    destruct (rlp_str_cases (be_bytes n)) as [(x & _ & _ & ->)|[-> _]]; [done|].
    rewrite zlen_app. unfold rlp_head. zcases. change (zlen [_]) with 1. lia. }
  assert (Hv : value_ok v).
  { apply ok_struct. apply Forall_cons; split; [|apply Forall_singleton; by apply ok_uint].
    apply ok_bytes. apply Forall_singleton. unfold is_byte. lia. }
  assert (Hz : zlen (rlp_enc v) < 2 ^ 64).
  { rewrite Ev. unfold rlp_list, rlp_head. zcases. rewrite zlen_app. change (zlen [_]) with 1. lia. }
  assert (b = rlp_list p) as -> by (rewrite EncodeToBytes_ref in E by done; congruence).
  unfold DecodeBytes, makeStructDecoder, sbind at 1.
  destruct (List_ok p (NewStream (rlp_list p) (zlen (rlp_list p))) [] []) as (s1 & h & _ & E1 & A1 & K1);
    rewrite ?app_nil_r; [rewrite <- Ev; by split; [apply rlp_enc_ok|]|apply NewStream_at|done|done|].
  apply (proj2 (wrapping_inr _ _ _ _)) in E1. rewrite E1. rewrite app_nil_r in A1.
  destruct (Kind_ok Byte 0 0 [0] s1 (rlp_str (be_bytes n)) _ ltac:(by simpl) A1 K1) as (s2 & E2 & C2);
    [simpl; pose proof (rlp_str_nonempty (be_bytes n)); unfold p; zlen_lia..|].
  destruct C2 as (_ & Hk & Hs & Hb & He). rewrite bool_decide_true in Hb by done.
  unfold field_cons, struct_field, sbind, decodeByteArray, sbind. rewrite E2. simpl.
  unfold Stream_Uint, decodeUint, wrapping, Stream_uint, sbind, Kind_of. rewrite Hk, He. simpl.
  unfold get_byteval. rewrite Hb. simpl. rewrite Hk, He. simpl. by rewrite Hb.
Qed.

(** ** Witnesses *)

Definition sample_item : item :=
  IList [IBytes [7]; IBytes (replicate 60 200); IList [IList []; IBytes []]].

Lemma sample_item_in : item_in 3 sample_item.
Proof. repeat constructor; unfold is_byte; lia. Qed.

Lemma EncodeToBytes_correct_witness :
  EncodeToBytes (VStruct [VUint 1024; VBigInt None; VSlice [VBool true; VTail [VBytes [1; 2]]]])
  = Ok [0xC9; 0x82; 4; 0; 0x80; 0xC4; 1; 0x82; 1; 2].
Proof.
  apply (EncodeToBytes_correct
    (VStruct [VUint 1024; VBigInt None; VSlice [VBool true; VTail [VBytes [1; 2]]]])).
  - repeat constructor; unfold is_byte; lia.
  - reflexivity.
Defined.

Lemma rlp_roundtrip_witness : DecodeBytes_interface (item_enc sample_item) = Ok sample_item.
Proof.
  apply (rlp_roundtrip 3 sample_item (item_enc sample_item) sample_item_in); reflexivity.
Defined.

Lemma rlp_canonical_witness :
  EncodeToBytes (item_value (IList [IBytes [5]; IBytes [200]])) = Ok [0xC3; 5; 0x81; 200].
Proof.
  apply (rlp_canonical [0xC3; 5; 0x81; 200] (IList [IBytes [5]; IBytes [200]])).
  - repeat constructor; unfold is_byte; lia.
  - reflexivity.
  - reflexivity.
Defined.

Lemma rlp_decode_terminates_witness : DecodeBytes_interface [0xF9; 0; 0; 1] <> Err errOutOfFuel.
Proof.
  apply (rlp_decode_terminates [0xF9; 0; 0; 1]).
  - repeat constructor; unfold is_byte; lia.
  - reflexivity.
Defined.

Lemma byteArray1_zero_undecodable_witness :
  DecodeBytes (makeStructDecoder (field_cons (decodeByteArray 1)
     (field_cons (decodeUint 64) field_nil))) [0xC2; 0; 5] = Err (decodeError MsgCanonInt).
Proof. apply (byteArray1_zero_undecodable 5 [0xC2; 0; 5]); [split; [discriminate|reflexivity]|reflexivity]. Defined.
