(* ===== verification/RlpRaw.v ===== *)
(** Splitting raw RLP data: [rlp/raw.go].

    These functions index the input slice directly, so an access out of range
    is a run-time panic: the results are [outcome]s. *)
From S2P Require Import Prelude RlpEncode RlpDecode RlpCodec RlpTheorems.

(** [b[0]<<(8*(n-1)) | ... | b[n-1]]: one case of the [switch] of [readSize]
    for every length [n] from 1 to 8. *)
Fixpoint or_shifted (b : bytes) : Z :=
  match b with
  | [] => 0
  | x :: b' => Z.lor (Z.shiftl x (8 * zlen b')) (or_shifted b')
  end.

Definition raw_readSize (b : bytes) (slen : Z) : outcome rlp_err Z :=
  if slen >? zlen b then Err io_ErrUnexpectedEOF
  else
    let s := if (1 <=? slen) && (slen <=? 8) then or_shifted (take (Z.to_nat slen) b) else 0 in
    if s <? 56 then Err ErrCanonSize
    else match b with
         | [] => Panic
         | b0 :: _ => if b0 =? 0 then Err ErrCanonSize else Ok s
         end.

(** [readKind] of raw.go: kind, tag size, content size. *)
Definition raw_readKind (buf : bytes) : outcome rlp_err (Kind * Z * Z) :=
  match buf with
  | [] => Err io_ErrUnexpectedEOF
  | b :: tl =>
      let! (k, tagsize, contentsize) :=
        if b <? 0x80 then Ok (Byte, 0, 1)
        else if b <? 0xB8 then
          let contentsize := u8 (b - 0x80) in
          if contentsize =? 1 then
            match tl with
            | [] => Panic
            | b1 :: _ => if b1 <? 128 then Err ErrCanonSize else Ok (String, 1, contentsize)
            end
          else Ok (String, 1, contentsize)
        else if b <? 0xC0 then
          let! contentsize := raw_readSize tl (u8 (b - 0xB7)) in
          Ok (String, u8 (b - 0xB7) + 1, contentsize)
        else if b <? 0xF8 then Ok (List, 1, u8 (b - 0xC0))
        else
          let! contentsize := raw_readSize tl (u8 (b - 0xF7)) in
          Ok (List, u8 (b - 0xF7) + 1, contentsize) in
      if contentsize >? u64 (zlen buf - tagsize) then Err ErrValueTooLarge
      else Ok (k, tagsize, contentsize)
  end.

(** [b[lo:hi]] for offsets within the slice. *)
Definition subslice (lo hi : Z) (b : bytes) : bytes :=
  take (Z.to_nat (hi - lo)) (drop (Z.to_nat lo) b).

Definition Split (b : bytes) : outcome rlp_err (Kind * bytes * bytes) :=
  let! (k, ts, cs) := raw_readKind b in
  Ok (k, subslice ts (ts + cs) b, drop (Z.to_nat (ts + cs)) b).

Definition SplitString (b : bytes) : outcome rlp_err (bytes * bytes) :=
  let! (k, content, rest) := Split b in
  if bool_decide (k = List) then Err ErrExpectedString else Ok (content, rest).

Definition SplitList (b : bytes) : outcome rlp_err (bytes * bytes) :=
  let! (k, content, rest) := Split b in
  if negb (bool_decide (k = List)) then Err ErrExpectedList else Ok (content, rest).

(** [CountValues]: every iteration drops at least one byte, so the length of
    the input bounds the loop. *)
Fixpoint CountValues_loop (fuel : nat) (i : Z) (b : bytes) : outcome rlp_err Z :=
  if 0 <? zlen b then
    match fuel with
    | O => Err errOutOfFuel
    | S fuel' =>
        let! (_, tagsize, size) := raw_readKind b in
        CountValues_loop fuel' (i + 1) (drop (Z.to_nat (tagsize + size)) b)
    end
  else Ok i.

Definition CountValues (b : bytes) : outcome rlp_err Z := CountValues_loop (length b) 0 b.

Definition ListSize (contentSize : Z) : Z := u64 (headsize contentSize + contentSize).

(** ** Lemmas *)

Lemma lor_shift_add x y k : 0 <= k -> 0 <= y < 2 ^ k -> Z.lor (Z.shiftl x k) y = x * 2 ^ k + y.
Proof.
  intros Hk Hy. rewrite <- Z.shiftl_mul_pow2 by done. symmetry. apply Z.add_nocarry_lor.
  apply Z.bits_inj'. intros n Hn. rewrite Z.land_spec, Z.testbit_0_l.
  destruct (Z.lt_ge_cases n k); [by rewrite Z.shiftl_spec_low|].
  assert (Z.testbit y n = false) as ->; [|by rewrite andb_false_r].
  destruct (Z.eq_dec y 0) as [->|]; [apply Z.testbit_0_l|].
  apply Z.bits_above_log2; [lia|]. apply Z.lt_le_trans with k; [|done].
  apply Z.log2_lt_pow2; lia.
Qed.

Lemma or_shifted_value b : bytes_ok b -> or_shifted b = be_value b.
Proof.
  induction 1 as [|x b Hx Hb IH]; [done|]. simpl. rewrite IH.
  pose proof (be_value_bound b Hb) as B. pose proof (zlen_nonneg b).
  assert (E : 256 ^ zlen b = 2 ^ (8 * zlen b)) by (change 256 with (2 ^ 8); by rewrite <- Z.pow_mul_r by lia).
  rewrite E in B. rewrite lor_shift_add by lia.
  change (x :: b) with ([x] ++ b). rewrite be_value_app, E. reflexivity.
Qed.

(** A long header read from a slice. *)
Lemma raw_readSize_ok n r : 56 <= n < 2 ^ 64 ->
  raw_readSize (be_bytes n ++ r) (Z.of_nat (byte_len n)) = Ok n.
Proof.
  intros Hn. assert (L : zlen (be_bytes n) = Z.of_nat (byte_len n)) by apply zlen_be_pad.
  assert (L8 : (byte_len n <= 8)%nat) by (apply byte_len_le; change (256 ^ Z.of_nat 8) with (2 ^ 64); lia).
  pose proof (be_value_bytes n ltac:(lia)) as V. pose proof (be_bytes_head n) as Hd.
  unfold raw_readSize. rewrite <- L, take_zlen_app, or_shifted_value, V by auto with bytes_db.
  destruct (be_bytes n) as [|x b]; [unfold be_value in V; simpl in V; lia|].
  specialize (Hd x b ltac:(lia) eq_refl). simpl app.
  zcase; [zlen_lia|]. rewrite (proj2 (Z.leb_le 1 _)), (proj2 (Z.leb_le _ 8)) by zlen_lia. simpl.
  by zcases.
Qed.

Lemma raw_readSize_inv b slen n : bytes_ok b -> 1 <= slen <= 8 -> raw_readSize b slen = Ok n ->
  56 <= n < 2 ^ 64 /\ slen = Z.of_nat (byte_len n) /\ exists r, b = be_bytes n ++ r.
Proof.
  intros Hb Hs E. unfold raw_readSize in E.
  destruct (slen >? zlen b) eqn:C; zbool; [done|].
  rewrite (proj2 (Z.leb_le 1 _)), (proj2 (Z.leb_le _ 8)) in E by lia. simpl in E.
  pose proof (take_drop (Z.to_nat slen) b) as D. rewrite <- D in Hb. apply Forall_app in Hb as [Ht _].
  rewrite or_shifted_value in E by done.
  destruct (_ <? 56) eqn:C2 in E; zbool; [done|]. destruct b as [|x b]; [done|].
  destruct (x =? 0) eqn:X; zbool; [done|]. injection E as <-.
  assert (Lt : zlen (take (Z.to_nat slen) (x :: b)) = slen)
    by (unfold zlen in *; rewrite length_take; lia).
  assert (exists b', take (Z.to_nat slen) (x :: b) = x :: b') as [b' Eb].
  { destruct (Z.to_nat slen) eqn:N; [lia|]. simpl. eauto. }
  pose proof (be_value_bound _ Ht) as B. rewrite Lt in B.
  pose proof (Z.pow_le_mono_r 256 slen 8 ltac:(lia) ltac:(lia)) as P. change (256 ^ 8) with (2 ^ 64) in P.
  rewrite Eb in *. pose proof (be_bytes_value x b' Ht X) as V.
  split; [lia|]. split; [|exists (drop (Z.to_nat slen) (x :: b)); by rewrite V].
  rewrite <- Lt. rewrite <- V at 1. apply zlen_be_pad.
Qed.

(** The bytes a value of kind [k] with content [c] occupies. *)
Definition raw_enc (k : Kind) (c : bytes) : bytes :=
  match k with List => rlp_list c | _ => rlp_str c end.

Definition kind_ok (k : Kind) (c : bytes) : Prop :=
  match k with
  | Byte => exists x, c = [x] /\ x < 128
  | String => ~ exists x, c = [x] /\ x < 128
  | List => True
  end.

Lemma raw_readKind_head k tag n b1 r :
  (k = String /\ tag = 0x80 \/ k = List /\ tag = 0xC0) ->
  0 <= n <= zlen r -> zlen (rlp_head tag n ++ r) < 2 ^ 64 ->
  (k = String -> n = 1 -> head r = Some b1 /\ 128 <= b1) ->
  raw_readKind (rlp_head tag n ++ r) = Ok (k, zlen (rlp_head tag n), n).
Proof.
  intros Hk Hn Hl H1. pose proof (zlen_nonneg r).
  assert (Hfit : forall h, zlen (h ++ r) < 2 ^ 64 -> n <= u64 (zlen (h ++ r) - zlen h)).
  { intros h Hh. rewrite zlen_app in *. replace (zlen h + zlen r - zlen h) with (zlen r) by lia.
    rewrite u64_id by (unfold is_u64; zlen_lia). lia. }
  specialize (Hfit _ Hl). unfold rlp_head in *. destruct (n <? 56) eqn:N; zbool.
  - change (zlen [tag + n]) with 1 in *. unfold raw_readKind. simpl app in Hfit |- *. cbv zeta.
    destruct Hk as [[-> ->]|[-> ->]].
    + assert (u8 (0x80 + n - 0x80) = n) as -> by (rewrite u8_id; unfold is_byte; lia).
      do 2 (zcase; try lia). destruct (n =? 1) eqn:N1; zbool; [subst n|simpl; by zcases].
      destruct (H1 eq_refl eq_refl) as [Er Hb]. destruct r as [|x r]; [done|]. injection Er as ->.
      zcase; [lia|]. simpl in *. by zcases.
    + assert (u8 (0xC0 + n - 0xC0) = n) as -> by (rewrite u8_id; unfold is_byte; lia).
      do 4 (zcase; try lia). simpl. by zcases.
  - assert (Hh : zlen (tag + 55 + Z.of_nat (byte_len n) :: be_bytes n) = 1 + Z.of_nat (byte_len n))
      by (rewrite zlen_cons; unfold be_bytes; by rewrite zlen_be_pad).
    rewrite Hh in Hfit |- *. set (L := Z.of_nat (byte_len n)) in *.
    assert (Hn64 : n < 2 ^ 64) by zlen_lia.
    assert (HL : (byte_len n <= 8)%nat) by (apply byte_len_le; change (256 ^ Z.of_nat 8) with (2 ^ 64); lia).
    assert (H0 : (1 <= byte_len n)%nat).
    { pose proof (byte_len_bounds n ltac:(lia)). destruct (byte_len n); [simpl in *; lia|lia]. }
    unfold raw_readKind. simpl app. cbv zeta. simpl app in Hfit. rewrite (Z.add_comm 1 L) in *.
    destruct Hk as [[-> ->]|[-> ->]]; repeat (zcase; try lia; []);
      match goal with |- context [u8 ?x] => replace (u8 x) with L by (rewrite u8_id; unfold is_byte; lia) end;
      unfold L at 1; rewrite raw_readSize_ok by lia; simpl; by zcases.
Qed.

(** A header of either form, from what the cases of [raw_readKind] establish. *)
Lemma raw_long_inv tag x tl slen ts cs :
  bytes_ok tl -> zlen (x :: tl) < 2 ^ 64 -> x = tag + 55 + slen -> 1 <= slen <= 8 ->
  raw_readSize tl slen = Ok cs -> ts = slen + 1 -> cs <= u64 (zlen (x :: tl) - ts) ->
  exists c rest, x :: tl = rlp_head tag cs ++ c ++ rest /\ 56 <= cs /\ cs = zlen c /\
    ts = zlen (rlp_head tag cs).
Proof.
  intros Htl Hl Hxt Hs R -> C. destruct (raw_readSize_inv _ _ _ Htl Hs R) as (Hcs & Es & r & ->).
  assert (Hz : zlen (be_bytes cs) = Z.of_nat (byte_len cs)) by apply zlen_be_pad.
  rewrite zlen_cons, zlen_app in C, Hl. pose proof (zlen_nonneg r). pose proof (zlen_nonneg (be_bytes cs)).
  rewrite u64_id in C by (unfold is_u64; lia).
  exists (take (Z.to_nat cs) r), (drop (Z.to_nat cs) r). rewrite take_drop. unfold rlp_head. zcases.
  rewrite <- Es, Hxt. split; [done|]. split; [lia|].
  split; [unfold zlen in *; rewrite length_take; lia|]. rewrite zlen_cons. lia.
Qed.

Lemma raw_short_inv tag x tl cs :
  zlen (x :: tl) < 2 ^ 64 -> 0 <= cs < 56 -> x = tag + cs -> cs <= u64 (zlen (x :: tl) - 1) ->
  exists c rest, tl = c ++ rest /\ cs = zlen c /\ [x] = rlp_head tag cs.
Proof.
  intros Hl Hcs -> C. rewrite zlen_cons in C, Hl. pose proof (zlen_nonneg tl).
  rewrite u64_id in C by (unfold is_u64; lia).
  exists (take (Z.to_nat cs) tl), (drop (Z.to_nat cs) tl). rewrite take_drop. split; [done|].
  split; [unfold zlen in *; rewrite length_take; lia|]. unfold rlp_head. by zcases.
Qed.

(** The layout a raw header describes. *)
Definition raw_layout (k : Kind) (ts cs : Z) (b : bytes) : Prop :=
  exists c rest, b = raw_enc k c ++ rest /\ kind_ok k c /\ cs = zlen c /\
    ts + cs = zlen (raw_enc k c) /\ 0 <= ts.

Lemma raw_layout_list c rest b : b = rlp_list c ++ rest ->
  raw_layout List (zlen (rlp_head 0xC0 (zlen c))) (zlen c) b.
Proof. intros ->. exists c, rest. simpl. unfold rlp_list. split_and!; try done; zlen_lia. Qed.

Lemma raw_layout_str c rest b :
  ~ (exists x, c = [x] /\ x < 128) -> b = rlp_head 0x80 (zlen c) ++ c ++ rest ->
  raw_layout String (zlen (rlp_head 0x80 (zlen c))) (zlen c) b.
Proof.
  intros H ->. exists c, rest. simpl. rewrite (rlp_str_long c H), <- app_assoc.
  split_and!; try done; zlen_lia.
Qed.

Lemma raw_readKind_inv b k ts cs :
  input_ok b -> raw_readKind b = Ok (k, ts, cs) -> raw_layout k ts cs b.
Proof.
  intros [Hb Hl] E. unfold raw_readKind in E. destruct b as [|x tl]; [done|].
  inversion_clear Hb as [|? ? Hx Htl]. unfold is_byte in Hx. cbv zeta in E.
  set (hdr := if x <? 0x80 then _ else _) in E.
  destruct hdr as [[[k' ts'] cs']| |] eqn:Eh; subst hdr; try done. simpl in E.
  destruct (cs' >? u64 (zlen (x :: tl) - ts')) eqn:C; zbool; [done|]. simplify_eq.
  destruct (x <? 0x80) eqn:C1; zbool.
  { simplify_eq. exists [x], tl. simpl. unfold rlp_str. zcases. split_and!; try done; try lia. eauto. }
  destruct (x <? 0xB8) eqn:C2; zbool.
  { rewrite (u8_id (x - 0x80)) in Eh by (unfold is_byte; lia).
    assert (k = String /\ ts = 1 /\ cs = x - 0x80 /\ (cs = 1 -> exists b1 tl', tl = b1 :: tl' /\ 128 <= b1))
      as (-> & -> & -> & H1).
    { destruct (x - 0x80 =? 1) eqn:X1; zbool; [|simplify_eq; split_and!; try done; lia].
      destruct tl as [|b1 tl']; [done|]. destruct (b1 <? 128) eqn:B1; zbool; [done|]. simplify_eq.
      split_and!; try done. intros _. eauto. }
    destruct (raw_short_inv 0x80 x tl (x - 0x80)) as (c & rest & -> & Hc & Hx2); [lia..|].
    rewrite Hc in *. change 1 with (zlen [x]). rewrite Hx2. apply (raw_layout_str c rest).
    - intros (y & -> & Hy). destruct (H1 eq_refl) as (b1 & tl' & [= <- _] & ?). lia.
    - by rewrite <- Hx2. }
  destruct (x <? 0xC0) eqn:C3; zbool.
  { rewrite u8_id in Eh by (unfold is_byte; lia).
    destruct (raw_readSize tl (x - 0xB7)) as [cs'| |] eqn:R; try done. simpl in Eh. simplify_eq.
    destruct (raw_long_inv 0x80 x tl (x - 0xB7) (x - 183 + 1) cs) as (c & rest & Eb & Hcs & Hc & Hts); try lia; auto.
    rewrite Hts, Hc in *. apply (raw_layout_str c rest); [|done].
    intros (y & -> & _). change (zlen [y]) with 1 in Hcs. lia. }
  destruct (x <? 0xF8) eqn:C4; zbool.
  { rewrite u8_id in Eh by (unfold is_byte; lia). simplify_eq.
    destruct (raw_short_inv 0xC0 x tl (x - 0xC0)) as (c & rest & -> & Hc & Hx2); [lia..|].
    rewrite Hc in *. change 1 with (zlen [x]). rewrite Hx2. apply (raw_layout_list c rest).
    unfold rlp_list. by rewrite <- Hx2. }
  rewrite u8_id in Eh by (unfold is_byte; lia).
  destruct (raw_readSize tl (x - 0xF7)) as [cs'| |] eqn:R; try done. simpl in Eh. simplify_eq.
  destruct (raw_long_inv 0xC0 x tl (x - 0xF7) (x - 247 + 1) cs) as (c & rest & Eb & Hcs & Hc & Hts); try lia; auto.
  rewrite Hts, Hc in *. apply (raw_layout_list c rest). unfold rlp_list. by rewrite Eb, <- app_assoc.
Qed.

Lemma raw_readKind_ok k c rest :
  input_ok (raw_enc k c ++ rest) -> kind_ok k c ->
  exists ts, raw_readKind (raw_enc k c ++ rest) = Ok (k, ts, zlen c) /\
    ts + zlen c = zlen (raw_enc k c) /\ 0 <= ts.
Proof.
  intros [Hb Hl] Hk. pose proof (zlen_nonneg c). pose proof (zlen_nonneg rest).
  destruct k; simpl in *.
  - destruct Hk as (x & -> & Hx). unfold rlp_str in *. rewrite (proj2 (Z.ltb_lt x 128)) in * by done.
    simpl app in *. exists 0. split; [|done]. unfold raw_readKind. cbv zeta.
    rewrite (proj2 (Z.ltb_lt x 128)) by done. simpl. rewrite zlen_cons in *.
    rewrite u64_id by (unfold is_u64; lia). zcases. done.
  - rewrite (rlp_str_long c Hk), <- app_assoc in *.
    exists (zlen (rlp_head 0x80 (zlen c))). rewrite (raw_readKind_head String 0x80 _ (default 0 (head c)));
      [split; [done|zlen_lia]|by left|zlen_lia|done|].
    intros _ H1. destruct c as [|x [|y c]]; [done| |zlen_lia]. simpl. split; [done|].
    destruct (Z.lt_ge_cases x 128); [exfalso; eauto|lia].
  - unfold rlp_list in *. rewrite <- app_assoc in *.
    exists (zlen (rlp_head 0xC0 (zlen c))). rewrite (raw_readKind_head List 0xC0 _ 0);
      [split; [done|zlen_lia]|by right|zlen_lia|done|done].
Qed.

Lemma raw_enc_content k c ts : ts + zlen c = zlen (raw_enc k c) -> 0 <= ts -> kind_ok k c ->
  drop (Z.to_nat ts) (raw_enc k c) = c.
Proof.
  intros E Hts Hk.
  assert (exists h, raw_enc k c = h ++ c) as [h Eh].
  { destruct k; simpl in *; [|eexists; by apply rlp_str_long|by eexists].
    destruct Hk as (x & -> & Hx). exists []. unfold rlp_str. by rewrite (proj2 (Z.ltb_lt x 128)). }
  rewrite Eh in *. rewrite zlen_app in E. replace ts with (zlen h) by lia. apply drop_zlen_app.
Qed.

Lemma Split_layout k c rest ts :
  ts + zlen c = zlen (raw_enc k c) -> 0 <= ts -> kind_ok k c ->
  subslice ts (ts + zlen c) (raw_enc k c ++ rest) = c /\
  drop (Z.to_nat (ts + zlen c)) (raw_enc k c ++ rest) = rest.
Proof.
  intros E Hts Hk. split.
  - unfold subslice. replace (ts + zlen c - ts) with (zlen c) by lia. pose proof (zlen_nonneg c).
    rewrite drop_app_le by (unfold zlen in *; lia).
    rewrite raw_enc_content by done. apply take_zlen_app.
  - rewrite E. apply drop_zlen_app.
Qed.

Lemma Split_ok k c rest : input_ok (raw_enc k c ++ rest) -> kind_ok k c ->
  Split (raw_enc k c ++ rest) = Ok (k, c, rest).
Proof.
  intros Hi Hk. unfold Split. destruct (raw_readKind_ok k c rest Hi Hk) as (ts & -> & Hts & H0). simpl.
  by destruct (Split_layout k c rest ts) as [-> ->].
Qed.

Lemma Split_inv b k c rest : input_ok b -> Split b = Ok (k, c, rest) -> b = raw_enc k c ++ rest /\ kind_ok k c.
Proof.
  intros Hi. unfold Split. destruct (raw_readKind b) as [[[k' ts] cs]| |] eqn:R; try done. simpl. intros [= <- <- <-].
  destruct (raw_readKind_inv _ _ _ _ Hi R) as (c' & rest' & -> & Hk & -> & Hts & H0).
  by destruct (Split_layout k' c' rest' ts) as [-> ->].
Qed.

Lemma SplitList_ok c rest : input_ok (rlp_list c ++ rest) -> SplitList (rlp_list c ++ rest) = Ok (c, rest).
Proof. intros Hi. pose proof (Split_ok List c rest Hi I) as E. simpl in E. unfold SplitList. by rewrite E. Qed.

(** A string splits off with kind [Byte] or [String]. *)
Lemma Split_str c rest : input_ok (rlp_str c ++ rest) ->
  exists k, Split (rlp_str c ++ rest) = Ok (k, c, rest) /\ k <> List /\ (zlen c <> 1 -> k = String).
Proof.
  intros Hi. destruct (rlp_str_cases c) as [(x & -> & Hx & E)|[E Hx]].
  - exists Byte. split; [|done]. apply (Split_ok Byte [x] rest); [done|]. by exists x.
  - exists String. split; [|done]. apply (Split_ok String c rest); [done|].
    intros (x & -> & ?). specialize (Hx eq_refl). simpl in Hx. lia.
Qed.

Lemma SplitString_ok c rest : input_ok (rlp_str c ++ rest) -> SplitString (rlp_str c ++ rest) = Ok (c, rest).
Proof.
  intros Hi. unfold SplitString. destruct (Split_str c rest Hi) as (k & -> & Hk & _). simpl.
  by rewrite bool_decide_false.
Qed.

(** A byte string that is one encoded value. *)
Definition raw_item (b : bytes) : Prop := exists k c, b = raw_enc k c /\ kind_ok k c.

Lemma raw_item_str c : raw_item (rlp_str c).
Proof.
  destruct (rlp_str_cases c) as [(x & -> & Hx & E)|[E Hx]].
  - exists Byte, [x]. split; [done|]. by exists x.
  - exists String, c. split; [done|]. intros (x & -> & ?). specialize (Hx eq_refl). simpl in Hx. lia.
Qed.

Lemma raw_item_list c : raw_item (rlp_list c).
Proof. by exists List, c. Qed.

Lemma raw_enc_pos k c : 0 < zlen (raw_enc k c).
Proof.
  destruct k; simpl; try apply rlp_str_nonempty. unfold rlp_list, rlp_head. zcase; zlen_lia.
Qed.

Lemma CountValues_loop_raw l : Forall raw_item l -> forall fuel i,
  (length l <= fuel)%nat -> input_ok (concat l) -> CountValues_loop fuel i (concat l) = Ok (i + zlen l).
Proof.
  induction 1 as [|x l (k & c & -> & Hk) Hl IH]; intros fuel i Hf Hi; simpl in *.
  - destruct fuel; simpl; by rewrite Z.add_0_r.
  - destruct fuel as [|fuel]; [lia|]. simpl.
    destruct (raw_readKind_ok k c (concat l) Hi Hk) as (ts & -> & Hts & H0).
    pose proof (raw_enc_pos k c). rewrite (proj2 (Z.ltb_lt 0 _)) by zlen_lia. simpl.
    rewrite Hts, drop_zlen_app. apply input_ok_app in Hi as (_ & Hi & _).
    rewrite IH by (done || lia). f_equal. rewrite zlen_cons. lia.
Qed.

Lemma zlen_concat_raw l : Forall raw_item l -> zlen l <= zlen (concat l).
Proof.
  induction 1 as [|x l (k & c & -> & _) Hl IH]; simpl; [done|]. pose proof (raw_enc_pos k c). zlen_lia.
Qed.

Lemma CountValues_raw l : Forall raw_item l -> input_ok (concat l) -> CountValues (concat l) = Ok (zlen l).
Proof.
  intros Hl Hi. unfold CountValues. rewrite (CountValues_loop_raw l Hl); [by rewrite Z.add_0_l| |done].
  pose proof (zlen_concat_raw l Hl). unfold zlen in *. lia.
Qed.

(** ** Claims *)

(** [Split] accepts exactly the canonical encodings: it returns kind,
    content and rest if and only if the input is the encoding of that content
    followed by the rest. *)
Theorem Split_exact (b : bytes) (k : Kind) (c rest : bytes) :
  bytes_ok b -> zlen b < 2 ^ 64 ->
  Split b = Ok (k, c, rest) <-> b = raw_enc k c ++ rest /\ kind_ok k c.
Proof.
  intros Hb Hl. split; [by apply Split_inv|]. intros [-> Hk]. by apply Split_ok.
Qed.

(** [Split] runs into an index out of range for one input and no other: the
    lone byte 0x81, whose announced content byte is not there. *)
Theorem Split_panics (b : bytes) : bytes_ok b -> Split b = Panic <-> b = [0x81].
Proof.
  intros Hb. split; [|by intros ->]. unfold Split. intros E.
  destruct (raw_readKind b) as [[[k ts] cs]| |] eqn:R; try done. clear E.
  unfold raw_readKind in R. destruct b as [|x tl]; [done|]. cbv zeta in R.
  inversion_clear Hb as [|? ? Hx Htl]. unfold is_byte in Hx.
  assert (P : forall n, 1 <= n -> raw_readSize tl n <> Panic).
  { intros n Hn. unfold raw_readSize. destruct (n >? zlen tl) eqn:C; zbool; [done|].
    destruct tl as [|y tl]; [rewrite zlen_nil in C; lia|]. repeat case_match; done. }
  set (hdr := if x <? 0x80 then _ else _) in R.
  destruct hdr as [[[k ts] cs]| |] eqn:Eh; subst hdr; simpl in R; [case_match; done|done|]. clear R.
  destruct (x <? 0x80) eqn:C1; zbool; [done|]. destruct (x <? 0xB8) eqn:C2; zbool.
  - rewrite u8_id in Eh by (unfold is_byte; lia). destruct (x - 0x80 =? 1) eqn:X; zbool; [|done].
    destruct tl as [|y tl]; [f_equal; lia|]. case_match; done.
  - destruct (x <? 0xC0) eqn:C3; zbool; [|destruct (x <? 0xF8) eqn:C4; zbool; [done|]];
      rewrite u8_id in Eh by (unfold is_byte; lia);
      match type of Eh with obind (raw_readSize tl ?n) _ = _ =>
        specialize (P n ltac:(lia)); by destruct (raw_readSize tl n) end.
Qed.

Lemma item_raw f i : item_in f i -> raw_item (item_enc i).
Proof.
  intros Hi. inversion Hi as [? b Hb|? l Hl]; subst; [apply raw_item_str|].
  rewrite item_enc_list. apply raw_item_list.
Qed.

(** [CountValues] counts: on the concatenation of the encodings of any
    items it returns their number, within the bound of its loop. *)
Theorem CountValues_items (f : nat) (l : list item) :
  Forall (item_in f) l -> zlen (concat (map item_enc l)) < 2 ^ 64 ->
  bytes_ok (concat (map item_enc l)) ->
  CountValues (concat (map item_enc l)) = Ok (zlen l).
Proof.
  intros Hl Hz Hb. rewrite CountValues_raw; [unfold zlen; by rewrite length_map| |done].
  apply Forall_map. eapply Forall_impl; [done|]. apply item_raw.
Qed.

(** ** Witnesses *)

Lemma Split_exact_witness :
  Split [0x83; 100; 111; 103; 5] = Ok (String, [100; 111; 103], [5]).
Proof.
  apply (Split_exact [0x83; 100; 111; 103; 5] String [100; 111; 103] [5]).
  - repeat constructor; unfold is_byte; lia.
  - reflexivity.
  - split; [reflexivity|]. intros (x & E & _). discriminate E.
Defined.

Lemma Split_panics_witness : Split [0x81] = Panic.
Proof.
  apply (Split_panics [0x81]); [|reflexivity]. repeat constructor; unfold is_byte; lia.
Defined.

Lemma CountValues_items_witness :
  CountValues (concat (map item_enc [IBytes [7]; IList [IBytes []; IBytes [200]]])) = Ok 2.
Proof.
  apply (CountValues_items 1 [IBytes [7]; IList [IBytes []; IBytes [200]]]).
  - repeat constructor; unfold is_byte; lia.
  - reflexivity.
  - vm_compute. repeat constructor; intros; discriminate.
Defined.
