(* ===== verification/Storage.v ===== *)
(** The key-value store: the interface [ethdb.Database] and the in-memory
    database of [ethdb/memory_database.go] with its batches.

    The interface is a class.  [DatabaseLaws] is all the caches of the engine
    need: a read returns what was last written, or nothing.  [DatabaseKeeps]
    says that the store also keeps what was written, which the trie relies on. *)
From S2P Require Import Prelude.

(** [ethdb.Database]: a read may fail, but it returns what was last written. *)
Class Database (DB : Type) := {
  db_Get : bytes -> DB -> option bytes;
  db_Put : bytes -> bytes -> DB -> option DB
}.

Class DatabaseLaws (DB : Type) `{Database DB} := {
  db_Get_Put k v k' w d d' :
    db_Put k v d = Some d' -> db_Get k' d' = Some w -> (k' = k /\ w = v) \/ (k' <> k /\ db_Get k' d = Some w)
}.

(** [ethdb.MemDatabase], a database that never fails. *)
Definition MemDatabase : Type := gmap bytes bytes.

Definition MemDatabase_Put (k v : bytes) (db : MemDatabase) : option MemDatabase := Some (<[k := v]> db).
Definition MemDatabase_Has (k : bytes) (db : MemDatabase) : bool := bool_decide (is_Some (db !! k)).
Definition MemDatabase_Get (k : bytes) (db : MemDatabase) : option bytes := db !! k.
Definition MemDatabase_Delete (k : bytes) (db : MemDatabase) : MemDatabase := delete k db.

#[export] Instance MemDatabase_ops : Database MemDatabase :=
  { db_Get := MemDatabase_Get; db_Put := MemDatabase_Put }.

#[export] Instance MemDatabase_laws : DatabaseLaws MemDatabase.
Proof.
  constructor. intros k v k' w d d' [= <-] G. change ((<[k := v]> (d : gmap bytes bytes)) !! k' = Some w) in G.
  destruct (decide (k' = k)) as [->|Hne].
  - rewrite lookup_insert_eq in G. by simplify_eq; left.
  - rewrite lookup_insert_ne in G by done. by right.
Qed.

Class DatabaseKeeps (DB : Type) `{Database DB} := {
  db_Get_eq k v d d' : db_Put k v d = Some d' -> db_Get k d' = Some v;
  db_Get_ne k k' v d d' : db_Put k v d = Some d' -> k' <> k -> db_Get k' d' = db_Get k' d
}.

#[export] Instance MemDatabase_keeps : DatabaseKeeps MemDatabase.
Proof.
  constructor.
  - intros k v d d' [= <-]. exact (lookup_insert_eq (d : gmap bytes bytes) k v).
  - intros k k' v d d' [= <-] Hne. exact (lookup_insert_ne (d : gmap bytes bytes) k k' v (not_eq_sym Hne)).
Qed.

(** ** Batches *)

Record memBatch := mkMemBatch { mb_db : MemDatabase; mb_writes : list (bytes * bytes); mb_size : Z }.

Definition MemDatabase_NewBatch (db : MemDatabase) : memBatch := mkMemBatch db [] 0.

Definition memBatch_Put (key value : bytes) (b : memBatch) : memBatch :=
  mkMemBatch (mb_db b) (mb_writes b ++ [(key, value)]) (mb_size b + zlen value).

(** [Write] replays the writes in order; the batch keeps them. *)
Definition memBatch_Write (b : memBatch) : MemDatabase :=
  fold_left (fun db '(k, v) => <[k := v]> db) (mb_writes b) (mb_db b).

Definition memBatch_ValueSize (b : memBatch) : Z := mb_size b.

(** A batch written at the end leaves the database as the same writes made at once do. *)
Lemma memBatch_Write_Put key value b :
  memBatch_Write (memBatch_Put key value b) = <[key := value]> (memBatch_Write b).
Proof. unfold memBatch_Write. simpl. by rewrite fold_left_app. Qed.

Lemma memBatch_Write_New db : memBatch_Write (MemDatabase_NewBatch db) = db.
Proof. reflexivity. Qed.
