(* ===== verification/IstanbulTypes.v ===== *)
(** Data of the Istanbul consensus: [consensus/istanbul/types.go] and
    [consensus/istanbul/core/types.go].

    Views, PRE-PREPAREs, subjects and signed messages with their RLP forms.  A
    [*big.Int] is a [Z]; addresses and hashes are byte strings of length 20
    and 32.  [Proposal] is the interface of the source: what the consensus
    needs to know of a block. *)
From S2P Require Import Prelude RlpEncode RlpDecode RlpCodec RlpTheorems.

Abbreviation address := bytes.
Abbreviation hash := bytes.

Definition AddressLength : Z := 20.
Definition HashLength : Z := 32.

Definition is_address (a : address) : Prop := bytes_ok a /\ zlen a = AddressLength.
Definition is_hash (h : hash) : Prop := bytes_ok h /\ zlen h = HashLength.

Definition zero_address : address := replicate 20 0.
Definition zero_hash : hash := replicate 32 0.

(** [big.Int.Cmp]: -1, 0 or 1. *)
Definition Cmp (x y : Z) : Z :=
  match x ?= y with Lt => -1 | Eq => 0 | Gt => 1 end.

(** ** Views *)

Record View := mkView { Round : Z; Sequence : Z }.

#[export] Instance View_eq_dec : EqDecision View.
Proof. solve_decision. Defined.

Definition View_Cmp (v y : View) : Z :=
  if negb (Cmp (Sequence v) (Sequence y) =? 0) then Cmp (Sequence v) (Sequence y)
  else if negb (Cmp (Round v) (Round y) =? 0) then Cmp (Round v) (Round y)
  else 0.

Definition View_EncodeRLP (v : View) : value :=
  VSlice [VBigInt (Some (Round v)); VBigInt (Some (Sequence v))].

Definition View_DecodeRLP : SM View :=
  let* (r, (s, _)) := makeStructDecoder (field_cons decodeBigInt (field_cons decodeBigInt field_nil)) in
  sret (mkView r s).

(** ** Proposals *)

(** [istanbul.Proposal]; [proposal_EncodeRLP] is the value its [EncodeRLP]
    writes, [proposal_DecodeRLP] the decoder of the concrete type that
    [Preprepare.DecodeRLP] decodes into. *)
Class Proposal (P : Type) := {
  Number : P -> Z;
  Hash : P -> hash;
  proposal_EncodeRLP : P -> value;
  proposal_DecodeRLP : SM P
}.

(** What the consensus relies on: proposals are encodable, what was encoded is
    read back, and hashes are 32 bytes. *)
Class ProposalLaws (P : Type) `{Proposal P} := {
  proposal_ok : P -> Prop;
  proposal_value_ok p : proposal_ok p -> value_ok (proposal_EncodeRLP p);
  proposal_decodes : decodes (fun p => rlp_enc (proposal_EncodeRLP p)) proposal_DecodeRLP proposal_ok;
  proposal_hash_ok p : is_hash (Hash p)
}.

(** ** Subjects *)

Record Subject := mkSubject { sub_View : View; Digest : hash }.

#[export] Instance Subject_eq_dec : EqDecision Subject.
Proof. solve_decision. Defined.

Definition Subject_EncodeRLP (b : Subject) : value :=
  VSlice [View_EncodeRLP (sub_View b); VBytes (Digest b)].

Definition Subject_DecodeRLP : SM Subject :=
  let* (v, (d, _)) := makeStructDecoder (field_cons View_DecodeRLP
                        (field_cons (decodeByteArray HashLength) field_nil)) in
  sret (mkSubject v d).

Section Preprepare.
Context {P : Type} `{Proposal P}.

Record Preprepare := mkPreprepare { pp_View : View; pp_Proposal : P }.

Definition Preprepare_EncodeRLP (b : Preprepare) : value :=
  VSlice [View_EncodeRLP (pp_View b); proposal_EncodeRLP (pp_Proposal b)].

Definition Preprepare_DecodeRLP : SM Preprepare :=
  let* (v, (p, _)) := makeStructDecoder (field_cons View_DecodeRLP
                        (field_cons proposal_DecodeRLP field_nil)) in
  sret (mkPreprepare v p).

(** [istanbul.Request]; the proposal of a request may be nil. *)
Record Request := mkRequest { rq_Proposal : option P }.

End Preprepare.
Arguments Preprepare P : clear implicits.
Arguments Request P : clear implicits.

(** ** Messages *)

Definition msgPreprepare : Z := 0.
Definition msgPrepare : Z := 1.
Definition msgCommit : Z := 2.
Definition msgRoundChange : Z := 3.

Record message := mkMessage {
  Code : Z;
  Msg : bytes;
  Address : address;
  Signature : bytes;
  CommittedSeal : bytes
}.

#[export] Instance message_eq_dec : EqDecision message.
Proof. solve_decision. Defined.

Definition message_EncodeRLP (m : message) : value :=
  VSlice [VUint (Code m); VBytes (Msg m); VBytes (Address m); VBytes (Signature m);
          VBytes (CommittedSeal m)].

Definition message_DecodeRLP : SM message :=
  let* (c, (m, (a, (s, (cs, _))))) :=
    makeStructDecoder (field_cons (decodeUint 64) (field_cons decodeByteSlice
      (field_cons (decodeByteArray AddressLength) (field_cons decodeByteSlice
        (field_cons decodeByteSlice field_nil))))) in
  sret (mkMessage c m a s cs).

(** Errors of the packages [istanbul] and [istanbul/core]; [errSignature] and
    [errBackend] stand for errors of the crypto library and of the backend. *)
Inductive core_err :=
| errInconsistentSubject | errNotFromProposer | errIgnored | errFutureMessage
| errOldMessage | errInvalidMessage | errFailedDecodePreprepare
| errFailedDecodePrepare | errFailedDecodeCommit
| ErrUnauthorizedAddress | ErrFutureBlock
| errRlp (e : rlp_err) | errSignature | errBackend.

#[export] Instance core_err_eq_dec : EqDecision core_err.
Proof. solve_decision. Defined.

Definition rlp_result {A} (x : outcome rlp_err A) : outcome core_err A :=
  match x with Ok a => Ok a | Err e => Err (errRlp e) | Panic => Panic end.

Definition Payload (m : message) : outcome rlp_err bytes := EncodeToBytes (message_EncodeRLP m).

Definition PayloadNoSig (m : message) : outcome rlp_err bytes :=
  EncodeToBytes (message_EncodeRLP (mkMessage (Code m) (Msg m) (Address m) [] (CommittedSeal m))).

(** [FromPayload]; the address that [validateFn] recovers is dropped. *)
Definition FromPayload (b : bytes) (validateFn : option (bytes -> bytes -> outcome core_err address))
    : outcome core_err message :=
  let! m := rlp_result (DecodeBytes message_DecodeRLP b) in
  match validateFn with
  | None => Ok m
  | Some validate =>
      let! payload := rlp_result (PayloadNoSig m) in
      let! _ := validate payload (Signature m) in Ok m
  end.

(** ** Consensus states *)

Inductive State := StateAcceptRequest | StatePreprepared | StatePrepared | StateCommitted.

#[export] Instance State_eq_dec : EqDecision State.
Proof. solve_decision. Defined.

Definition State_num (s : State) : Z :=
  match s with
  | StateAcceptRequest => 0 | StatePreprepared => 1 | StatePrepared => 2 | StateCommitted => 3
  end.

Definition State_Cmp (s y : State) : Z :=
  if State_num s <? State_num y then -1 else if State_num s >? State_num y then 1 else 0.

(** ** Orders *)

Lemma Cmp_spec x y :
  (Cmp x y = -1 /\ x < y) \/ (Cmp x y = 0 /\ x = y) \/ (Cmp x y = 1 /\ y < x).
Proof. unfold Cmp. destruct (Z.compare_spec x y); lia. Qed.

(** The order of views: by sequence, then by round. *)
Definition view_lt (v w : View) : Prop :=
  Sequence v < Sequence w \/ (Sequence v = Sequence w /\ Round v < Round w).

Lemma View_Cmp_spec v w :
  (View_Cmp v w = -1 /\ view_lt v w) \/ (View_Cmp v w = 0 /\ v = w) \/
  (View_Cmp v w = 1 /\ view_lt w v).
Proof.
  unfold View_Cmp, view_lt. destruct v as [r s], w as [r' s']. simpl.
  destruct (Cmp_spec s s') as [[-> ?]|[[-> ->]|[-> ?]]]; simpl; try lia.
  destruct (Cmp_spec r r') as [[-> ?]|[[-> ->]|[-> ?]]]; simpl; auto; lia.
Qed.

Lemma view_lt_trans u v w : view_lt u v -> view_lt v w -> view_lt u w.
Proof. unfold view_lt. lia. Qed.

Lemma view_lt_irrefl v : ~ view_lt v v.
Proof. unfold view_lt. lia. Qed.

(** ** Codecs *)

Definition View_ok (v : View) : Prop := 0 <= Round v /\ 0 <= Sequence v.
Definition Subject_ok (b : Subject) : Prop := View_ok (sub_View b) /\ is_hash (Digest b).
Definition message_ok (m : message) : Prop :=
  is_u64 (Code m) /\ bytes_ok (Msg m) /\ is_address (Address m) /\
  bytes_ok (Signature m) /\ bytes_ok (CommittedSeal m).

(** A struct decoder read off its field codecs, up to the record it builds. *)
Ltac struct_codec_by C f g :=
  eapply codec_ext_dec; [|eapply codec_ext; [|apply (codec_iso _ _ _ f g _ (struct_codec _ _ _ C))]].

Lemma View_codec : codec_ok (fun v => rlp_enc (View_EncodeRLP v)) View_DecodeRLP View_ok.
Proof.
  struct_codec_by
    (field_cons_body _ _ _ _ _ _ bigInt_codec (field_cons_body _ _ _ _ _ _ bigInt_codec field_nil_body))
    (fun a : Z * (Z * unit) => mkView a.1 a.2.1) (fun v => (Round v, (Sequence v, tt))).
  - intros s. unfold View_DecodeRLP, sbind. by destruct (makeStructDecoder _ s) as [[e|(r & q & u)] s'].
  - done.
  - intros [r q] [? ?]. simpl in *. auto.
  - intros (r & q & []) (? & ? & _). done.
Qed.

Lemma Subject_codec : codec_ok (fun b => rlp_enc (Subject_EncodeRLP b)) Subject_DecodeRLP Subject_ok.
Proof.
  struct_codec_by
    (field_cons_body _ _ _ _ _ _ View_codec
      (field_cons_body _ _ _ _ _ _ (byteArray_codec HashLength ltac:(done)) field_nil_body))
    (fun a : View * (hash * unit) => mkSubject a.1 a.2.1) (fun v => (sub_View v, (Digest v, tt))).
  - intros s. unfold Subject_DecodeRLP, sbind. by destruct (makeStructDecoder _ s) as [[e|(r & q & u)] s'].
  - done.
  - intros [v d] [? ?]. simpl in *. auto.
  - intros (v & d & []) (? & ? & _). done.
Qed.

Lemma message_codec : codec_ok (fun m => rlp_enc (message_EncodeRLP m)) message_DecodeRLP message_ok.
Proof.
  struct_codec_by
    (field_cons_body _ _ _ _ _ _ uint64_codec (field_cons_body _ _ _ _ _ _ byteSlice_codec
      (field_cons_body _ _ _ _ _ _ (byteArray_codec AddressLength ltac:(done))
        (field_cons_body _ _ _ _ _ _ byteSlice_codec
          (field_cons_body _ _ _ _ _ _ byteSlice_codec field_nil_body)))))
    (fun a : Z * (bytes * (bytes * (bytes * (bytes * unit)))) =>
      mkMessage a.1 a.2.1 a.2.2.1 a.2.2.2.1 a.2.2.2.2.1)
    (fun m => (Code m, (Msg m, (Address m, (Signature m, (CommittedSeal m, tt)))))).
  - intros s. unfold message_DecodeRLP, sbind.
    by destruct (makeStructDecoder _ s) as [[e|(c & m & a & sg & cs & u)] s'].
  - done.
  - intros [c m a s cs] (? & ? & ? & ? & ?). unfold message_ok, is_address in *. simpl in *. tauto.
  - intros (c & m & a & s & cs & []) (? & ? & ? & ? & ? & _). unfold message_ok, is_address in *. simpl in *. tauto.
Qed.

Lemma Preprepare_decodes {P} `{ProposalLaws P} :
  decodes (fun b : Preprepare P => rlp_enc (Preprepare_EncodeRLP b)) Preprepare_DecodeRLP
    (fun b => View_ok (pp_View b) /\ proposal_ok (pp_Proposal b)).
Proof.
  pose proof (decodes_iso _ _ _ (fun a : View * (P * unit) => mkPreprepare a.1 a.2.1)
      (fun v : Preprepare P => (pp_View v, (pp_Proposal v, tt)))
      (fun b => View_ok (pp_View b) /\ proposal_ok (pp_Proposal b))
      (struct_decodes _ _ _ (field_cons_decodes _ _ _ _ _ _ (codec_decodes _ _ _ View_codec)
         (field_cons_decodes _ _ _ _ _ _ proposal_decodes field_nil_decodes)))) as D.
  intros b s r st Hb Hi Hp Hst Hf.
  destruct (D ltac:(by intros [v p] [? ?]) b s r st) as (s' & E & A); auto.
  exists s'. split; [|done]. revert E.
  unfold Preprepare_DecodeRLP, sbind. by destruct (makeStructDecoder _ s) as [[e|(v & p & u)] s1].
Qed.

(** ** Serializable values *)

Create HintDb istanbul_db.

Lemma View_value_ok v : View_ok v -> value_ok (View_EncodeRLP v).
Proof. intros [? ?]. repeat constructor; done. Qed.

Lemma Subject_value_ok b : Subject_ok b -> value_ok (Subject_EncodeRLP b).
Proof. intros [? [? ?]]. apply ok_slice, Forall_cons; split; [by apply View_value_ok|by repeat constructor]. Qed.

Lemma message_value_ok m : message_ok m -> value_ok (message_EncodeRLP m).
Proof. intros (? & ? & [? ?] & ? & ?). apply ok_slice. by repeat (constructor; [by constructor|]). Qed.

Lemma Preprepare_value_ok {P} `{ProposalLaws P} (b : Preprepare P) :
  View_ok (pp_View b) -> proposal_ok (pp_Proposal b) -> value_ok (Preprepare_EncodeRLP b).
Proof.
  intros ? ?. apply ok_slice, Forall_cons; split; [by apply View_value_ok|].
  by apply Forall_singleton, proposal_value_ok.
Qed.

#[export] Hint Resolve View_value_ok Subject_value_ok message_value_ok Preprepare_value_ok : istanbul_db.

Definition no_sig (m : message) : message :=
  mkMessage (Code m) (Msg m) (Address m) [] (CommittedSeal m).

Lemma no_sig_ok m : message_ok m -> message_ok (no_sig m).
Proof. unfold message_ok. simpl. intuition constructor. Qed.

#[export] Hint Resolve no_sig_ok : istanbul_db.

Lemma Payload_ref m :
  message_ok m -> zlen (rlp_enc (message_EncodeRLP m)) < 2 ^ 64 ->
  Payload m = Ok (rlp_enc (message_EncodeRLP m)).
Proof. intros. apply EncodeToBytes_ref; auto with istanbul_db. Qed.

Lemma PayloadNoSig_ref m :
  message_ok m -> zlen (rlp_enc (message_EncodeRLP (no_sig m))) < 2 ^ 64 ->
  PayloadNoSig m = Ok (rlp_enc (message_EncodeRLP (no_sig m))).
Proof. intros. apply (Payload_ref (no_sig m)); auto with istanbul_db. Qed.

(** ** Claims *)

(** [FromPayload] accepts exactly the payloads that are the canonical
    encoding of a well-formed message whose signature [validateFn] accepts on
    the message without signature; the message it returns is the encoded one. *)
Theorem FromPayload_exact (b : bytes) (validate : bytes -> bytes -> outcome core_err address) (m : message) :
  bytes_ok b -> zlen b < 2 ^ 64 ->
  FromPayload b (Some validate) = Ok m <->
  message_ok m /\ b = rlp_enc (message_EncodeRLP m) /\
  exists p a, PayloadNoSig m = Ok p /\ validate p (Signature m) = Ok a.
Proof.
  intros Hb Hz. unfold FromPayload. split.
  - intros E. destruct (DecodeBytes message_DecodeRLP b) as [m'|e|] eqn:D; simpl in E; [|done..].
    destruct (PayloadNoSig m') as [p|e|] eqn:N; simpl in E; [|done..].
    destruct (validate p (Signature m')) as [a|e|] eqn:S; simpl in E; [|done..]. injection E as ->.
    destruct (DecodeBytes_sound message_codec b m) as [Hm ->]; [done|done|]. eauto 6.
  - intros (Hm & -> & p & a & N & S).
    rewrite (DecodeBytes_complete message_codec m Hm ltac:(done)). simpl. rewrite N. simpl. by rewrite S.
Qed.

(** A message survives [Payload] followed by [FromPayload]. *)
Lemma message_roundtrip (m : message) (b : bytes) :
  message_ok m -> zlen (rlp_enc (message_EncodeRLP m)) < 2 ^ 64 ->
  Payload m = Ok b -> FromPayload b None = Ok m.
Proof.
  intros Hm Hz E. unfold FromPayload.
  rewrite (encode_decodes message_EncodeRLP message_DecodeRLP message_ok m b); auto with istanbul_db.
  apply codec_decodes, message_codec.
Qed.

(** the signed part of a message binds everything but the signature: two
    messages with the same [PayloadNoSig] agree in code, body, address and
    committed seal. *)
Theorem PayloadNoSig_injective (m m' : message) :
  message_ok m -> message_ok m' ->
  zlen (rlp_enc (message_EncodeRLP (no_sig m))) < 2 ^ 64 ->
  zlen (rlp_enc (message_EncodeRLP (no_sig m'))) < 2 ^ 64 ->
  PayloadNoSig m = PayloadNoSig m' ->
  Code m = Code m' /\ Msg m = Msg m' /\ Address m = Address m' /\ CommittedSeal m = CommittedSeal m'.
Proof.
  intros Hm Hm' Hz Hz' E. rewrite !PayloadNoSig_ref in E by done. injection E as E.
  assert (N : no_sig m = no_sig m').
  { apply (codec_inj message_codec); auto with istanbul_db.
    split; [apply rlp_enc_ok; auto with istanbul_db|done]. }
  unfold no_sig in N. by simplify_eq.
Qed.

(** the bodies of the four message types survive the round trip that
    [Encode] and [message.Decode] make: PRE-PREPARE bodies for every proposal
    type that reads back its own encoding, subjects unconditionally. *)
Theorem body_roundtrip {P} `{ProposalLaws P} (pp : Preprepare P) (sub : Subject) (b1 b2 : bytes) :
  View_ok (pp_View pp) -> proposal_ok (pp_Proposal pp) -> Subject_ok sub ->
  zlen (rlp_enc (Preprepare_EncodeRLP pp)) < 2 ^ 64 -> zlen (rlp_enc (Subject_EncodeRLP sub)) < 2 ^ 64 ->
  EncodeToBytes (Preprepare_EncodeRLP pp) = Ok b1 -> EncodeToBytes (Subject_EncodeRLP sub) = Ok b2 ->
  DecodeBytes Preprepare_DecodeRLP b1 = Ok pp /\ DecodeBytes Subject_DecodeRLP b2 = Ok sub.
Proof.
  intros Hv Hp Hs Z1 Z2 E1 E2. split.
  - apply (encode_decodes Preprepare_EncodeRLP _ _ pp b1 Preprepare_decodes); [by split|by apply Preprepare_value_ok|done..].
  - apply (encode_decodes Subject_EncodeRLP _ _ sub b2 (codec_decodes _ _ _ Subject_codec)); auto with istanbul_db.
Qed.

(** ** Witnesses *)

(** A proposal that is a number and a salt, standing for a block. *)
Definition toy_hash (p : Z * Z) : hash := be_pad 32 (p.1 * 1000 + p.2).

Definition toy_decode : SM (Z * Z) :=
  let* a := makeStructDecoder (field_cons decodeBigInt (field_cons decodeBigInt field_nil)) in
  sret (a.1, a.2.1).

#[export] Instance toy_proposal : Proposal (Z * Z) := {|
  Number := fst; Hash := toy_hash;
  proposal_EncodeRLP p := VStruct [VBigInt (Some p.1); VBigInt (Some p.2)];
  proposal_DecodeRLP := toy_decode
|}.

#[export] Instance toy_laws : ProposalLaws (Z * Z).
Proof.
  refine {| proposal_ok p := 0 <= p.1 /\ 0 <= p.2 |}.
  - intros [n x] [? ?]. repeat constructor; done.
  - apply (decodes_iso _ _ _ (fun a : Z * (Z * unit) => (a.1, a.2.1)) (fun p => (p.1, (p.2, tt)))
      _ (struct_decodes _ _ _ (field_cons_decodes _ _ _ _ _ _ (codec_decodes _ _ _ bigInt_codec)
          (field_cons_decodes _ _ _ _ _ _ (codec_decodes _ _ _ bigInt_codec) field_nil_decodes)))).
    intros [n x] [? ?]. done.
  - intros p. split; [apply be_pad_ok|apply zlen_be_pad].
Defined.

Definition sample_address (n : Z) : address := be_pad 20 n.
Definition sample_message : message :=
  mkMessage msgCommit [1; 2; 3] (sample_address 7) [4; 5] [6].

Lemma sample_address_ok n : is_address (sample_address n).
Proof. split; [apply be_pad_ok|apply zlen_be_pad]. Qed.

Lemma sample_message_ok : message_ok sample_message.
Proof.
  split; [by split|]. split; [|split; [apply sample_address_ok|split]];
    repeat (apply Forall_cons; split; [unfold is_byte; lia|]); apply Forall_nil_2.
Qed.

Definition accept_all (payload sig : bytes) : outcome core_err address := Ok (sample_address 1).

Lemma FromPayload_exact_witness :
  FromPayload (rlp_enc (message_EncodeRLP sample_message)) (Some accept_all) = Ok sample_message.
Proof.
  apply (FromPayload_exact (rlp_enc (message_EncodeRLP sample_message)) accept_all sample_message).
  - apply rlp_enc_ok; [apply message_value_ok, sample_message_ok|reflexivity].
  - reflexivity.
  - split; [apply sample_message_ok|]. split; [done|].
    exists (rlp_enc (message_EncodeRLP (no_sig sample_message))), (sample_address 1). split; reflexivity.
Defined.

Lemma message_roundtrip_witness :
  FromPayload (rlp_enc (message_EncodeRLP sample_message)) None = Ok sample_message.
Proof.
  apply (message_roundtrip sample_message (rlp_enc (message_EncodeRLP sample_message)));
    [apply sample_message_ok|reflexivity|reflexivity].
Defined.

Lemma PayloadNoSig_injective_witness :
  Address (no_sig sample_message) = Address sample_message.
Proof.
  apply (PayloadNoSig_injective (no_sig sample_message) sample_message
    (no_sig_ok _ sample_message_ok) sample_message_ok); reflexivity.
Defined.

Lemma body_roundtrip_witness :
  let pp := mkPreprepare (mkView 1 5) (5, 9) in
  let sub := mkSubject (mkView 1 5) (toy_hash (5, 9)) in
  DecodeBytes Preprepare_DecodeRLP (rlp_enc (Preprepare_EncodeRLP pp)) = Ok pp /\
  DecodeBytes Subject_DecodeRLP (rlp_enc (Subject_EncodeRLP sub)) = Ok sub.
Proof.
  intros pp sub.
  apply (body_roundtrip pp sub (rlp_enc (Preprepare_EncodeRLP pp)) (rlp_enc (Subject_EncodeRLP sub)));
    [done|done|split; [done|exact (proposal_hash_ok (5, 9))]|reflexivity..].
Defined.
