(* ===== verification/ValidatorSet.v ===== *)
(** Validator sets: [consensus/istanbul/validator/default.go],
    [validator/validator.go], [consensus/istanbul/utils.go] and the address
    formatting of [common/types.go] the order of a set depends on.

    A validator is a pointer to a struct that holds an address: two validators
    with one address are different map keys but deeply equal.  [v_ptr] is the
    pointer; functions that allocate validators take the first fresh pointer
    as an argument. *)
From S2P Require Import Prelude RlpEncode RlpDecode IstanbulTypes.

(** ** Crypto library

    Keccak and public-key recovery are parameters; of the hash only its length
    is used. *)
Class Crypto := {
  Keccak256 : bytes -> bytes;
  (** [SigToPub] followed by [PubkeyToAddress]. *)
  recover_address : bytes -> bytes -> option address
}.

Class CryptoLaws `{Crypto} := {
  Keccak256_ok b : is_hash (Keccak256 b);
  recover_ok h s a : recover_address h s = Some a -> is_address a
}.

(** ** Address strings *)

Definition hex_digit (n : Z) : Z := if n <? 10 then 48 + n else 87 + n.

(** [hex.EncodeToString]. *)
Definition hex_EncodeToString (b : bytes) : bytes :=
  concat (map (fun x => [hex_digit (Z.shiftr x 4); hex_digit (Z.land x 0xf)]) b).

Section Hex.
Context `{Crypto}.

Definition Hex_char (hsh : bytes) (i : nat) (c : Z) : Z :=
  let hashByte := nth (i / 2) hsh 0 in
  let hashByte := if Nat.even i then Z.shiftr hashByte 4 else Z.land hashByte 0xf in
  if (c >? 57) && (hashByte <=? 7) then c - 32 else c.

(** [Address.Hex]: the case of a letter depends on a digit of the hash. *)
Definition Address_Hex (a : address) : bytes :=
  let unchecksummed := hex_EncodeToString a in
  let hsh := Keccak256 unchecksummed in
  48 :: 120 :: imap (Hex_char hsh) unchecksummed.

End Hex.

(** [strings.Compare(a, b) < 0]. *)
Fixpoint str_ltb (a b : bytes) : bool :=
  match a, b with
  | _, [] => false
  | [], _ :: _ => true
  | x :: a', y :: b' => if x <? y then true else if y <? x then false else str_ltb a' b'
  end.

(** ** Validators *)

Record Validator := New { v_ptr : Z; v_address : address }.

#[export] Instance Validator_eq_dec : EqDecision Validator.
Proof. solve_decision. Defined.

#[export] Instance Validator_countable : Countable Validator.
Proof.
  refine (inj_countable' (fun v => (v_ptr v, v_address v)) (fun p => New p.1 p.2) _).
  by intros [].
Defined.

Definition RoundRobin : Z := 0.
Definition Sticky : Z := 1.

Record defaultSet := mkSet {
  validators : list Validator;
  policy : Z;
  proposer : option Validator
}.

Definition Size (valSet : defaultSet) : Z := zlen (validators valSet).

Definition GetByIndex (valSet : defaultSet) (i : Z) : option Validator :=
  if i <? u64 (Size valSet) then validators valSet !! Z.to_nat i else None.

Fixpoint GetByAddress_loop (i : Z) (l : list Validator) (addr : address) : Z * option Validator :=
  match l with
  | [] => (-1, None)
  | val :: l' => if bool_decide (addr = v_address val) then (i, Some val)
                 else GetByAddress_loop (i + 1) l' addr
  end.

Definition GetByAddress (valSet : defaultSet) (addr : address) : Z * option Validator :=
  GetByAddress_loop 0 (validators valSet) addr.

Definition GetProposer (valSet : defaultSet) : option Validator := proposer valSet.

(** [reflect.DeepEqual] on two values of the interface [Validator]. *)
Definition Validator_DeepEqual (x y : option Validator) : bool :=
  match x, y with
  | None, None => true
  | Some v, Some w => bool_decide (v_address v = v_address w)
  | _, _ => false
  end.

Definition IsProposer (valSet : defaultSet) (addr : address) : bool :=
  let '(_, val) := GetByAddress valSet addr in
  Validator_DeepEqual (GetProposer valSet) val.

Definition calcSeed (valSet : defaultSet) (prop : address) (round : Z) : Z :=
  let offset := match GetByAddress valSet prop with (idx, Some _) => idx | (_, None) => 0 end in
  u64 (u64 offset + round).

Definition emptyAddress (addr : address) : bool := bool_decide (addr = zero_address).

Definition roundRobinProposer (valSet : defaultSet) (prop : address) (round : Z) : option Validator :=
  if Size valSet =? 0 then None
  else
    let seed := if emptyAddress prop then round else u64 (calcSeed valSet prop round + 1) in
    let pick := seed `mod` u64 (Size valSet) in
    GetByIndex valSet pick.

Definition stickyProposer (valSet : defaultSet) (prop : address) (round : Z) : option Validator :=
  if Size valSet =? 0 then None
  else
    let seed := if emptyAddress prop then round else calcSeed valSet prop round in
    let pick := seed `mod` u64 (Size valSet) in
    GetByIndex valSet pick.

(** The function stored in the field [selector] by [newDefaultSet]. *)
Definition selector (valSet : defaultSet) : address -> Z -> option Validator :=
  if policy valSet =? Sticky then stickyProposer valSet else roundRobinProposer valSet.

Definition CalcProposer (lastProposer : address) (round : Z) (valSet : defaultSet) : defaultSet :=
  mkSet (validators valSet) (policy valSet) (selector valSet lastProposer round).

(** [int(math.Ceil(float64(n)/3)) - 1]. *)
Definition F (valSet : defaultSet) : Z := (Size valSet + 2) / 3 - 1.

Section Sorted.
Context `{Crypto}.

(** [Validators.Less(i, j)] is [String(i) < String(j)]; a sorted slice has no
    [Less] pair out of order. *)
Definition Less (v w : Validator) : bool :=
  str_ltb (Address_Hex (v_address v)) (Address_Hex (v_address w)).

Definition in_order (v w : Validator) : Prop := Less w v = false.

#[export] Instance in_order_dec : RelDecision in_order.
Proof. intros v w. unfold in_order. apply _. Defined.

(** [sort.Sort] on [Validators]. *)
Definition sort_Sort (l : list Validator) : list Validator := merge_sort in_order l.

Definition newDefaultSet (fresh : Z) (addrs : list address) (pol : Z) : defaultSet :=
  let valSet := mkSet (sort_Sort (imap (fun i addr => New (fresh + Z.of_nat i) addr) addrs)) pol None in
  if Size valSet >? 0 then mkSet (validators valSet) pol (GetByIndex valSet 0) else valSet.

Definition AddValidator (fresh : Z) (addr : address) (valSet : defaultSet) : bool * defaultSet :=
  if existsb (fun v => bool_decide (v_address v = addr)) (validators valSet) then (false, valSet)
  else (true, mkSet (sort_Sort (validators valSet ++ [New fresh addr])) (policy valSet) (proposer valSet)).

(** The loop of [RemoveValidator]: drop the first validator with the address. *)
Fixpoint RemoveValidator_loop (l : list Validator) (addr : address) : option (list Validator) :=
  match l with
  | [] => None
  | v :: l' => if bool_decide (v_address v = addr) then Some l'
               else (fun r => v :: r) <$> RemoveValidator_loop l' addr
  end.

Definition RemoveValidator (addr : address) (valSet : defaultSet) : bool * defaultSet :=
  match RemoveValidator_loop (validators valSet) addr with
  | Some l => (true, mkSet l (policy valSet) (proposer valSet))
  | None => (false, valSet)
  end.

Definition set_Copy (fresh : Z) (valSet : defaultSet) : defaultSet :=
  newDefaultSet fresh (map v_address (validators valSet)) (policy valSet).

(** ** Signatures: [istanbul/utils.go] *)

Definition GetSignatureAddress (data sig : bytes) : outcome core_err address :=
  match recover_address (Keccak256 data) sig with
  | None => Err errSignature
  | Some a => Ok a
  end.

(** The validator set is an interface value and may be nil. *)
Definition CheckValidatorSignature (valSet : option defaultSet) (data sig : bytes)
    : outcome core_err address :=
  let! signer := GetSignatureAddress data sig in
  match valSet with
  | None => Panic
  | Some vs =>
      match GetByAddress vs signer with
      | (_, Some val) => Ok (v_address val)
      | (_, None) => Err ErrUnauthorizedAddress
      end
  end.

End Sorted.

(** ** Validator lists in extra data: [validator/validator.go] *)

Definition ExtractValidators (extraData : bytes) : list address :=
  map (fun i => take 20 (drop (i * 20) extraData)) (seq 0 (Z.to_nat (zlen extraData / AddressLength))).

Definition ValidExtraData (extraData : bytes) : bool := (zlen extraData `mod` AddressLength) =? 0.

(** ** The order of addresses *)

Lemma str_ltb_irrefl a : str_ltb a a = false.
Proof. induction a as [|x a IH]; simpl; [done|]. by zcases. Qed.

Lemma str_ltb_trans a b c : str_ltb a b = true -> str_ltb b c = true -> str_ltb a c = true.
Proof.
  revert b c. induction a as [|x a IH]; intros [|y b] [|z c]; simpl; try done.
  intros H1 H2. zcases; try done; repeat case_match; zbool; try done; try lia. eauto.
Qed.

Lemma str_ltb_total a b : str_ltb a b = true \/ a = b \/ str_ltb b a = true.
Proof.
  revert b. induction a as [|x a IH]; intros [|y b]; simpl; auto.
  destruct (Z.lt_trichotomy x y) as [L|[->|L]]; zcases; auto.
  destruct (IH b) as [E|[->|E]]; auto.
Qed.

Lemma str_ltb_antisym a b : str_ltb a b = true -> str_ltb b a = false.
Proof.
  intros E. destruct (str_ltb b a) eqn:E'; [|done].
  pose proof (str_ltb_trans _ _ _ E E') as T. by rewrite str_ltb_irrefl in T.
Qed.

(** A digit can be read back from its character, whatever its case. *)
Definition unhex (c : Z) : Z := if c <=? 57 then c - 48 else if c <=? 70 then c - 55 else c - 87.

Lemma unhex_digit n hsh i : 0 <= n < 16 -> unhex (Hex_char hsh i (hex_digit n)) = n.
Proof.
  intros Hn. unfold Hex_char. set (hb := if Nat.even i then _ else _). clearbody hb.
  unfold unhex, hex_digit. zcases; repeat case_match; zbool; try lia.
Qed.

Definition nibbles (b : bytes) : list Z := concat (map (fun x => [x / 16; x `mod` 16]) b).

Lemma nibbles_inj a b : nibbles a = nibbles b -> a = b.
Proof.
  revert b. induction a as [|x a IH]; intros [|y b]; simpl; try done.
  intros [= H1 H2 H3]. f_equal; [|by apply IH].
  rewrite (Z.div_mod x 16), (Z.div_mod y 16) by lia. congruence.
Qed.

Lemma hex_EncodeToString_nibbles b :
  bytes_ok b -> hex_EncodeToString b = map hex_digit (nibbles b) /\ Forall (fun n => 0 <= n < 16) (nibbles b).
Proof.
  unfold hex_EncodeToString, nibbles. induction 1 as [|x b Hx Hb [IH1 IH2]]; simpl; [done|].
  rewrite IH1, Z.shiftr_div_pow2 by lia. change 0xf with (Z.ones 4). rewrite Z.land_ones by lia.
  change (2 ^ 4) with 16. unfold is_byte in Hx. split; [done|].
  repeat constructor; auto; try apply Z.mod_pos_bound; try lia.
  - apply Z.div_pos; lia.
  - apply Z.div_lt_upper_bound; lia.
Qed.

Section Order.
Context `{Crypto}.

Lemma Address_Hex_nibbles a : bytes_ok a -> map unhex (drop 2 (Address_Hex a)) = nibbles a.
Proof.
  intros Ha. unfold Address_Hex. simpl. set (hsh := Keccak256 _). clearbody hsh.
  destruct (hex_EncodeToString_nibbles a Ha) as [-> Hn].
  generalize (nibbles a) Hn. clear Ha Hn. intros l Hl.
  enough (G : forall g, (forall i, exists j, g i = Hex_char hsh j) -> map unhex (imap g (map hex_digit l)) = l)
    by (apply G; eauto).
  induction Hl as [|n l Hn Hl IH]; intros g Hg; simpl; [done|].
  destruct (Hg 0%nat) as [j ->]. rewrite unhex_digit by done. f_equal. apply IH. intros i. apply Hg.
Qed.

(** Addresses are told apart by their strings. *)
Lemma Address_Hex_inj a b : bytes_ok a -> bytes_ok b -> Address_Hex a = Address_Hex b -> a = b.
Proof.
  intros Ha Hb E. apply nibbles_inj. by rewrite <- !Address_Hex_nibbles, E.
Qed.

#[export] Instance in_order_total : Total in_order.
Proof.
  intros v w. unfold in_order, Less.
  destruct (str_ltb_total (Address_Hex (v_address v)) (Address_Hex (v_address w))) as [E|[->|E]].
  - left. by apply str_ltb_antisym.
  - left. apply str_ltb_irrefl.
  - right. by apply str_ltb_antisym.
Qed.

#[export] Instance in_order_trans : Transitive in_order.
Proof.
  intros u v w. unfold in_order, Less. generalize (Address_Hex (v_address u)) (Address_Hex (v_address v))
    (Address_Hex (v_address w)). intros a b c H1 H2.
  destruct (str_ltb_total a b) as [E|[->|E]]; [|done|congruence].
  destruct (str_ltb_total b c) as [E'|[->|E']]; [|done|congruence].
  apply str_ltb_antisym. by eapply str_ltb_trans.
Qed.

Lemma in_order_antisym v w :
  bytes_ok (v_address v) -> bytes_ok (v_address w) -> in_order v w -> in_order w v ->
  v_address v = v_address w.
Proof.
  unfold in_order, Less. intros Hv Hw H1 H2. apply Address_Hex_inj; auto.
  destruct (str_ltb_total (Address_Hex (v_address v)) (Address_Hex (v_address w))) as [E|[E|E]]; congruence.
Qed.

End Order.
