(* ===== verification/KeccakCrypto.v ===== *)
(** The interface [Crypto] implemented by the hash function of the program: what
    is proved against the interface holds for [crypto.Keccak256]. *)
From S2P Require Import Prelude Keccak KeccakTheorems IstanbulTypes ValidatorSet.

(** The hash function of the program; signatures are not needed here. *)
#[export] Instance keccak_crypto : Crypto := {|
  Keccak256 b := match @crypto_Keccak256 unit [b] with Ok h => h | _ => [] end;
  recover_address _ _ := None
|}.

#[export] Instance keccak_crypto_laws : CryptoLaws.
Proof.
  constructor; [|done]. intros b. simpl. pose proof rates_ok as R. rewrite !Forall_cons in R. destruct R as (_ & _ & R & _).
  unfold crypto_Keccak256, NewKeccak256. rewrite hash_of_ok by done.
  destruct (sponge_ok 136 0x01 32 (concat [b]) R) as [L O]. split; [done|]. unfold zlen. by rewrite L.
Qed.
