(* ===== verification/Hex.v ===== *)
(** Hexadecimal text: [common/hexutil/hexutil.go], the hexadecimal functions of
    [common/bytes.go], and what they use of [encoding/hex] (as of Go 1.10, where
    [DecodeString] returns what it has decoded before an error) and [strconv].
    Strings are lists of bytes. *)
From S2P Require Import Prelude IstanbulTypes ValidatorSet.

(** ** [encoding/hex] *)

Definition fromHexChar (c : Z) : option Z :=
  if (48 <=? c) && (c <=? 57) then Some (c - 48)
  else if (97 <=? c) && (c <=? 102) then Some (c - 97 + 10)
  else if (65 <=? c) && (c <=? 70) then Some (c - 65 + 10)
  else None.

Inductive hex_std_err := InvalidByteError | ErrLength.

Fixpoint hex_DecodeString (s : bytes) : bytes * option hex_std_err :=
  match s with
  | [] => ([], None)
  | [a] => ([], Some (match fromHexChar a with Some _ => ErrLength | None => InvalidByteError end))
  | a :: b :: s =>
      match fromHexChar a, fromHexChar b with
      | Some x, Some y => let '(r, e) := hex_DecodeString s in (x * 16 + y :: r, e)
      | _, _ => ([], Some InvalidByteError)
      end
  end.

(** ** [common/hexutil] *)

Inductive hex_err := ErrEmptyString | ErrSyntax | ErrMissingPrefix | ErrOddLength | ErrEmptyNumber | ErrLeadingZero | ErrUint64Range | ErrBig256Range.

Definition Has0xPrefix (input : bytes) : bool :=
  match input with a :: b :: _ => (a =? 48) && ((b =? 120) || (b =? 88)) | _ => false end.

Definition Decode (input : bytes) : outcome hex_err bytes :=
  if zlen input =? 0 then Err ErrEmptyString
  else if negb (Has0xPrefix input) then Err ErrMissingPrefix
  else match hex_DecodeString (drop 2 input) with
       | (b, None) => Ok b
       | (_, Some InvalidByteError) => Err ErrSyntax
       | (_, Some ErrLength) => Err ErrOddLength
       end.

Definition MustDecode (input : bytes) : outcome hex_err bytes := match Decode input with Ok b => Ok b | _ => Panic end.

Definition Encode (b : bytes) : bytes := 48 :: 120 :: hex_EncodeToString b.

Definition checkNumber (input : bytes) : outcome hex_err bytes :=
  if zlen input =? 0 then Err ErrEmptyString
  else if negb (Has0xPrefix input) then Err ErrMissingPrefix
  else
    let input := drop 2 input in
    if zlen input =? 0 then Err ErrEmptyNumber
    else if (zlen input >? 1) && bool_decide (head input = Some 48) then Err ErrLeadingZero
    else Ok input.

(** [strconv.ParseUint(s, 16, 64)], from the first digit on. *)
Definition parse_cutoff : Z := 2 ^ 60.

Fixpoint parse_digits (s : bytes) (n : Z) : outcome hex_err Z :=
  match s with
  | [] => Ok n
  | c :: s =>
      match fromHexChar c with
      | None => Err ErrSyntax
      | Some v => if n >=? parse_cutoff then Err ErrUint64Range else parse_digits s (u64 (n * 16) + v)
      end
  end.

Definition ParseUint (s : bytes) : outcome hex_err Z := if zlen s =? 0 then Err ErrSyntax else parse_digits s 0.

Definition DecodeUint64 (input : bytes) : outcome hex_err Z := let! raw := checkNumber input in ParseUint raw.

(** The digits of a number, without leading zeros. *)
Fixpoint hex_pad (k : nat) (n : Z) : bytes := match k with O => [] | S k => hex_pad k (n / 16) ++ [hex_digit (n `mod` 16)] end.
Definition nibbles (n : Z) : nat := if n =? 0 then O else Z.to_nat (Z.log2 n / 4 + 1).
Definition hex_number (n : Z) : bytes := hex_pad (nibbles n) n.

Definition EncodeUint64 (i : Z) : bytes := 48 :: 120 :: (if i =? 0 then [48] else hex_number i).

Definition badNibble : Z := 2 ^ 64 - 1.
Definition decodeNibble (c : Z) : Z :=
  if (c >=? 48) && (c <=? 57) then u8 (c - 48)
  else if (c >=? 65) && (c <=? 70) then u8 (c - 65 + 10)
  else if (c >=? 97) && (c <=? 102) then u8 (c - 97 + 10)
  else badNibble.

Definition bigWordNibbles : nat := 16.

(** One word of [DecodeBig], and its words from the end of the text. *)
Fixpoint big_word (s : bytes) (w : Z) : outcome hex_err Z :=
  match s with
  | [] => Ok w
  | c :: s => let nib := decodeNibble c in if nib =? badNibble then Err ErrSyntax else big_word s (u64 (u64 (w * 16) + nib))
  end.

Fixpoint big_words (n : nat) (raw : bytes) (fin : nat) : outcome hex_err (list Z) :=
  match n with
  | O => Ok []
  | S n =>
      let start := (fin - bigWordNibbles)%nat in
      let! w := big_word (drop start (take fin raw)) 0 in
      let! ws := big_words n raw start in
      Ok (w :: ws)
  end.

(** [big.Int.SetBits] *)
Fixpoint SetBits (words : list Z) : Z := match words with [] => 0 | w :: ws => w + 2 ^ 64 * SetBits ws end.

Definition DecodeBig (input : bytes) : outcome hex_err Z :=
  let! raw := checkNumber input in
  if zlen raw >? 64 then Err ErrBig256Range
  else let! words := big_words (length raw / bigWordNibbles + 1) raw (length raw) in Ok (SetBits words).

(** The verb [%#x] keeps the sign. *)
Definition EncodeBig (n : Z) : bytes :=
  if n =? 0 then [48; 120; 48] else (if n <? 0 then [45] else []) ++ 48 :: 120 :: hex_number (Z.abs n).

(** ** [common/bytes.go] *)

Definition Bytes2Hex (d : bytes) : bytes := hex_EncodeToString d.
Definition Hex2Bytes (str : bytes) : bytes := (hex_DecodeString str).1.

Definition ToHex (b : bytes) : bytes := let hex := Bytes2Hex b in 48 :: 120 :: (if zlen hex =? 0 then [48] else hex).

Definition FromHex (s : bytes) : bytes :=
  if zlen s >? 1 then
    let s := if Has0xPrefix s then drop 2 s else s in
    let s := if zlen s `mod` 2 =? 1 then 48 :: s else s in
    Hex2Bytes s
  else [].

Definition HasHexPrefix (str : bytes) : bool := match str with a :: b :: _ => (a =? 48) && (b =? 120) | _ => false end.
Definition IsHex (str : bytes) : bool := (zlen str >=? 4) && (zlen str `mod` 2 =? 0) && HasHexPrefix str.

Definition Hex2BytesFixed (str : bytes) (flen : Z) : bytes :=
  let h := Hex2Bytes str in
  if zlen h =? flen then h
  else if zlen h >? flen then drop (Z.to_nat (zlen h - flen)) h
  else replicate (Z.to_nat (flen - zlen h)) 0 ++ h.

Definition LeftPadBytes (b : bytes) (l : Z) : bytes := if l <=? zlen b then b else replicate (Z.to_nat (l - zlen b)) 0 ++ b.

(** ** Digits *)

(** Lower case of the letters. *)
Definition lower (c : Z) : Z := if (65 <=? c) && (c <=? 90) then c + 32 else c.

Fixpoint hex_value (acc : Z) (s : bytes) : option Z :=
  match s with [] => Some acc | c :: s => match fromHexChar c with Some d => hex_value (acc * 16 + d) s | None => None end end.

(** Case analysis on the ranges of a character. *)
Ltac ranges := repeat (case_match; zbool; simplify_eq);
  repeat match goal with E : (_ && _)%bool = false |- _ => apply andb_false_iff in E as [E|E]; zbool end; try lia; try done.

Lemma fromHexChar_range c d : fromHexChar c = Some d -> 0 <= d < 16.
Proof. unfold fromHexChar. intros E. ranges. Qed.

Lemma fromHexChar_digit d : 0 <= d < 16 -> fromHexChar (hex_digit d) = Some d.
Proof. intros Hd. unfold fromHexChar, hex_digit. destruct (Z.ltb_spec d 10); ranges; f_equal; lia. Qed.

Lemma fromHexChar_lower c d : fromHexChar c = Some d <-> 0 <= d < 16 /\ lower c = hex_digit d.
Proof.
  split.
  - intros E. split; [by eapply fromHexChar_range|]. revert E. unfold fromHexChar, lower, hex_digit. intros E. ranges.
  - intros [Hd E]. revert E. unfold fromHexChar, lower, hex_digit. intros E. destruct (Z.ltb_spec d 10); ranges; f_equal; lia.
Qed.

Lemma decodeNibble_ok c : decodeNibble c = match fromHexChar c with Some d => d | None => badNibble end.
Proof. unfold decodeNibble, fromHexChar, u8. ranges; rewrite Z.mod_small; lia. Qed.

Lemma hex_Encode_cons x b : hex_EncodeToString (x :: b) = hex_digit (x / 16) :: hex_digit (x `mod` 16) :: hex_EncodeToString b.
Proof. unfold hex_EncodeToString. simpl. rewrite Z.shiftr_div_pow2 by lia. change 15 with (Z.ones 4). by rewrite Z.land_ones by lia. Qed.

Lemma hex_value_app s t acc : hex_value acc (s ++ t) = match hex_value acc s with Some v => hex_value v t | None => None end.
Proof. revert acc. induction s as [|c s IH]; intros acc; simpl; [done|]. destruct (fromHexChar c); [apply IH|done]. Qed.

Lemma hex_value_acc s acc : hex_value acc s = (fun v => acc * 16 ^ zlen s + v) <$> hex_value 0 s.
Proof.
  revert acc. induction s as [|c s IH]; intros acc; simpl; [rewrite zlen_nil; f_equal; lia|]. destruct (fromHexChar c) as [d|]; [|done].
  rewrite (IH (acc * 16 + d)), (IH (0 * 16 + d)). destruct (hex_value 0 s) as [v|]; [|done]. simpl. f_equal. rewrite zlen_cons, Z.pow_add_r by (pose proof (zlen_nonneg s); lia). lia.
Qed.

Lemma hex_value_range s v : hex_value 0 s = Some v -> 0 <= v < 16 ^ zlen s.
Proof.
  revert v. induction s as [|c s IH]; intros v; simpl; [by intros [= <-]|]. destruct (fromHexChar c) as [d|] eqn:E; [|done].
  rewrite hex_value_acc. destruct (hex_value 0 s) as [w|]; [|done]. intros [= <-]. specialize (IH w eq_refl). apply fromHexChar_range in E.
  rewrite zlen_cons, Z.pow_add_r by (pose proof (zlen_nonneg s); lia). nia.
Qed.

Lemma length_hex_pad k n : length (hex_pad k n) = k.
Proof. revert n. induction k; intros n; simpl; [done|]. rewrite length_app, IHk. simpl. lia. Qed.

Lemma hex_value_pad k n : 0 <= n -> hex_value 0 (hex_pad k n) = Some (n `mod` 16 ^ Z.of_nat k).
Proof.
  revert n. induction k as [|k IH]; intros n Hn; [simpl; by rewrite Z.mod_1_r|]. cbn [hex_pad]. rewrite hex_value_app, IH by (apply Z.div_pos; lia). simpl.
  pose proof (Z.mod_pos_bound n 16 ltac:(lia)). rewrite fromHexChar_digit by done. f_equal.
  rewrite Nat2Z.inj_succ, Z.pow_succ_r, (Z.rem_mul_r n 16) by lia. lia.
Qed.

Lemma pow_snoc (s : bytes) c : 16 ^ zlen (s ++ [c]) = 16 ^ zlen s * 16.
Proof. rewrite zlen_app. change (zlen [c]) with 1. by rewrite Z.pow_add_r by (pose proof (zlen_nonneg s); lia). Qed.

(** Text in lower case is determined by its value and its length. *)
Lemma hex_pad_value s v : hex_value 0 s = Some v <-> map lower s = hex_pad (length s) v /\ 0 <= v < 16 ^ zlen s.
Proof.
  split.
  - intros E. split; [|by apply hex_value_range]. revert v E. induction s as [|c s IH] using rev_ind; intros v; [done|].
    rewrite hex_value_app. destruct (hex_value 0 s) as [w|] eqn:Ew; [|done]. simpl. destruct (fromHexChar c) as [d|] eqn:Ed; [|done]. intros [= <-].
    apply fromHexChar_lower in Ed as [Hd El]. rewrite map_app, length_app, Nat.add_comm. simpl. rewrite El, (IH w eq_refl).
    f_equal; [f_equal; rewrite Z.div_add_l, Z.div_small; lia|]. do 2 f_equal. rewrite Z.add_comm, Z.mod_add, Z.mod_small; lia.
  - intros [E Hv]. revert v E Hv. induction s as [|c s IH] using rev_ind; intros v E Hv; [change (16 ^ zlen []) with 1 in Hv; simpl; f_equal; lia|].
    rewrite map_app, length_app, Nat.add_comm in E. simpl in E. apply app_inj_2 in E as [E1 E2]; [|done]. injection E2 as E2.
    rewrite pow_snoc in Hv.
    rewrite hex_value_app, (IH (v / 16) E1) by (split; [apply Z.div_pos; lia|apply Z.div_lt_upper_bound; lia]). simpl.
    rewrite (proj2 (fromHexChar_lower c (v `mod` 16))) by (split; [apply Z.mod_pos_bound; lia|done]). f_equal. pose proof (Z.div_mod v 16). lia.
Qed.

(** ** Byte strings *)

Lemma hex_DecodeString_Encode b : bytes_ok b -> hex_DecodeString (hex_EncodeToString b) = (b, None).
Proof.
  induction 1 as [|x b Hx _ IH]; [done|]. unfold is_byte in Hx. rewrite hex_Encode_cons. simpl. pose proof (Z.div_mod x 16 ltac:(lia)). pose proof (Z.mod_pos_bound x 16 ltac:(lia)).
  rewrite !fromHexChar_digit, IH by lia. repeat f_equal. lia.
Qed.

Lemma hex_DecodeString_inv s b : hex_DecodeString s = (b, None) -> bytes_ok b /\ map lower s = hex_EncodeToString b.
Proof.
  remember (length s) as n eqn:En. revert s En b. induction (lt_wf n) as [n _ IH]. intros s -> b.
  destruct s as [|x [|y s]]; simpl; [by intros [= <-]|done|].
  destruct (fromHexChar x) as [u|] eqn:Ex; [|done]. destruct (fromHexChar y) as [v|] eqn:Ey; [|done].
  destruct (hex_DecodeString s) as [r e] eqn:Er. intros [= <- ->]. destruct (IH (length s) ltac:(simpl; lia) s eq_refl r Er) as [H1 H2].
  apply fromHexChar_lower in Ex as [Hu Lx], Ey as [Hv Ly]. split; [constructor; [unfold is_byte; lia|done]|]. rewrite hex_Encode_cons. simpl. rewrite Lx, Ly, H2.
  rewrite Z.div_add_l, Z.div_small, Z.add_0_r, (Z.add_comm _ v), Z.mod_add, Z.mod_small by lia. done.
Qed.

Lemma Has0xPrefix_inv s : Has0xPrefix s = true -> exists x t, s = 48 :: x :: t /\ lower x = 120.
Proof.
  destruct s as [|a [|x t]]; simpl; [done..|]. rewrite andb_true_iff, orb_true_iff. intros [E1 E2]. zbool. subst a. exists x, t. split; [done|].
  destruct E2; zbool; by subst x.
Qed.

Lemma prefix_lower s t : map lower s = 48 :: 120 :: t -> exists x r, s = 48 :: x :: r /\ Has0xPrefix s = true /\ map lower r = t.
Proof.
  destruct s as [|a [|x r]]; simpl; [done..|]. intros [= Ea Ex <-]. exists x, r. unfold lower in Ea, Ex.
  assert (a = 48) as -> by ranges. assert (x = 120 \/ x = 88) as Hx by ranges. split_and!; [done| |done]. destruct Hx as [-> | ->]; done.
Qed.

(** Byte strings and their text determine each other, up to the case of letters:
    [Decode] accepts exactly the texts of [Encode] in any case. *)
Theorem hex_exact s b : Decode s = Ok b <-> bytes_ok b /\ map lower s = Encode b.
Proof.
  unfold Decode, Encode. split.
  - destruct (Z.eqb_spec (zlen s) 0); [done|]. destruct (Has0xPrefix s) eqn:Ep; [|done]. apply Has0xPrefix_inv in Ep as (x & t & -> & Lx). cbn [negb]. change (drop 2 (48 :: x :: t)) with t.
    destruct (hex_DecodeString t) as [r [[]|]] eqn:Er; try done. intros [= <-]. apply hex_DecodeString_inv in Er as [H1 H2]. simpl. by rewrite Lx, H2.
  - intros [Hb E]. apply prefix_lower in E as (x & r & -> & -> & E). destruct (Z.eqb_spec (zlen (48 :: x :: r)) 0) as [E0|n]; [rewrite !zlen_cons in E0; pose proof (zlen_nonneg r); lia|].
    change (drop 2 (48 :: x :: r)) with r. assert (hex_DecodeString r = (b, None)) as ->; [|done]. clear n. revert r E. induction Hb as [|z b Hz _ IH]; intros r; [by destruct r|]. rewrite hex_Encode_cons.
    destruct r as [|c [|d r]]; simpl; [done..|]. intros [= Ec Ed Er]. unfold is_byte in Hz. pose proof (Z.div_mod z 16 ltac:(lia)). pose proof (Z.mod_pos_bound z 16 ltac:(lia)).
    rewrite (proj2 (fromHexChar_lower c (z / 16))), (proj2 (fromHexChar_lower d (z `mod` 16))), (IH r Er) by (split; [lia|done]).
    repeat f_equal. lia.
Qed.

(** [FromHex] undoes [ToHex], except for the empty string, whose text is ["0x0"]. *)
Theorem FromHex_ToHex b : bytes_ok b -> FromHex (ToHex b) = if decide (b = []) then [0] else b.
Proof.
  intros Hb. unfold ToHex, Bytes2Hex. destruct b as [|x b]; [done|]. destruct (decide _); [done|]. set (t := hex_EncodeToString (x :: b)).
  assert (zlen t = 2 * zlen (x :: b)) as El.
  { subst t. clear. induction (x :: b) as [|y l IH]; [done|]. rewrite hex_Encode_cons, !zlen_cons, IH. lia. }
  rewrite zlen_cons in El. pose proof (zlen_nonneg b). rewrite (proj2 (Z.eqb_neq (zlen t) 0)) by lia. unfold FromHex. rewrite !zlen_cons, Z.gtb_ltb, (proj2 (Z.ltb_lt _ _)) by lia.
  simpl (Has0xPrefix _). cbv iota. change (drop 2 (48 :: 120 :: t)) with t. replace (zlen t `mod` 2) with 0 by (rewrite El, Z.mul_comm, Z.mod_mul; lia). simpl. unfold Hex2Bytes.
  subst t. by rewrite hex_DecodeString_Encode.
Qed.

(** ** Numbers *)

Lemma nibbles_unique n k : 16 ^ Z.of_nat k <= n < 16 ^ Z.of_nat (S k) -> nibbles n = S k.
Proof.
  intros [H1 H2]. assert (0 < 16 ^ Z.of_nat k) by (apply Z.pow_pos_nonneg; lia). unfold nibbles. rewrite (proj2 (Z.eqb_neq n 0)) by lia.
  assert (Z.log2 n / 4 = Z.of_nat k) as ->; [|lia]. change 16 with (2 ^ 4) in *. rewrite <- !Z.pow_mul_r in * by lia.
  apply Z.log2_le_mono in H1 as L1. rewrite Z.log2_pow2 in L1 by lia. assert (Z.log2 n < 4 * Z.of_nat (S k)) by (apply Z.log2_lt_pow2; lia).
  symmetry. apply Z.div_unique with (Z.log2 n - 4 * Z.of_nat k); lia.
Qed.

Lemma nibbles_bounds n : 0 < n -> exists k, nibbles n = S k /\ 16 ^ Z.of_nat k <= n < 16 ^ Z.of_nat (S k).
Proof.
  intros Hn. exists (Z.to_nat (Z.log2 n / 4)). pose proof (Z.log2_nonneg n). pose proof (Z.div_pos (Z.log2 n) 4 ltac:(lia) ltac:(lia)).
  assert (16 ^ Z.of_nat (Z.to_nat (Z.log2 n / 4)) <= n < 16 ^ Z.of_nat (S (Z.to_nat (Z.log2 n / 4)))) as B.
  { rewrite Nat2Z.inj_succ, Z2Nat.id by done. change 16 with (2 ^ 4). rewrite <- !Z.pow_mul_r by lia. destruct (Z.log2_spec n Hn) as [L1 L2].
    pose proof (Z.div_mod (Z.log2 n) 4 ltac:(lia)). pose proof (Z.mod_pos_bound (Z.log2 n) 4 ltac:(lia)). split.
    - eapply Z.le_trans; [|exact L1]. apply Z.pow_le_mono_r; lia.
    - eapply Z.lt_le_trans; [exact L2|]. apply Z.pow_le_mono_r; lia. }
  split; [by apply nibbles_unique|done].
Qed.

(** The text of a number, and how [checkNumber] and the digits see it. *)
Definition number_text (n : Z) : bytes := if n =? 0 then [48] else hex_number n.

Definition proper (raw : bytes) : Prop := raw <> [] /\ (zlen raw > 1 -> head raw <> Some 48).

Lemma hex_value_first c t v : hex_value 0 (c :: t) = Some v -> c <> 48 -> 16 ^ zlen t <= v.
Proof.
  simpl. destruct (fromHexChar c) as [d|] eqn:E; [|done]. rewrite hex_value_acc. destruct (hex_value 0 t) as [w|] eqn:Ew; [|done]. intros [= <-] Hc.
  apply hex_value_range in Ew. assert (1 <= d); [|nia]. pose proof (fromHexChar_range c d E). destruct (decide (d = 0)) as [->|]; [|lia].
  exfalso. apply Hc. unfold fromHexChar in E. ranges.
Qed.

Lemma number_text_exact raw n : proper raw /\ hex_value 0 raw = Some n <-> 0 <= n /\ map lower raw = number_text n.
Proof.
  unfold proper, number_text. split.
  - intros [[Hne Hh] Hv]. apply hex_value_range in Hv as Hr. split; [lia|]. apply hex_pad_value in Hv as Hp. destruct Hp as [Hp _]. rewrite Hp.
    destruct raw as [|c t]; [done|]. destruct (Z.eqb_spec n 0) as [->|Hn].
    + destruct t as [|c' t]; [done|]. exfalso. assert (c <> 48) as Hc by (intros ->; apply Hh; [rewrite !zlen_cons; pose proof (zlen_nonneg t); lia|done]).
      apply hex_value_first in Hv; [|done]. assert (0 < 16 ^ zlen (c' :: t)) by (apply Z.pow_pos_nonneg; [lia|apply zlen_nonneg]). lia.
    + unfold hex_number. f_equal. symmetry. simpl. apply nibbles_unique. rewrite zlen_cons in Hr. unfold zlen in *. rewrite Nat2Z.inj_succ. replace (Z.succ (Z.of_nat (length t))) with (1 + Z.of_nat (length t)) by lia.
      split; [|lia]. destruct t as [|c' t]; [simpl; lia|]. apply hex_value_first in Hv; [done|]. intros ->. apply Hh; [simpl; lia|done].
  - intros [Hn E]. destruct (Z.eqb_spec n 0) as [->|Hz].
    + destruct raw as [|c [|]]; [done| |done]. injection E as E. assert (c = 48) as -> by (unfold lower in E; ranges). split; [split; [done|]|done].
      intros H1. change (zlen [48]) with 1 in H1. lia.
    + destruct (nibbles_bounds n) as (k & Ek & Hk); [lia|]. unfold hex_number in E. rewrite Ek in E.
      assert (length raw = S k) as El by (rewrite <- (length_map lower raw), E; apply length_hex_pad).
      assert (hex_value 0 raw = Some n) as Hv by (apply hex_pad_value; unfold zlen; rewrite El; split; [done|lia]). split; [|done]. split; [by intros ->|].
      intros _ Hh. destruct raw as [|c t]; [done|]. simpl in Hh. injection Hh as ->. simpl in Hv. apply hex_value_range in Hv. injection El as El. unfold zlen in Hv. rewrite El in Hv. lia.
Qed.

Lemma checkNumber_exact s raw : checkNumber s = Ok raw <-> exists x, s = 48 :: x :: raw /\ lower x = 120 /\ proper raw.
Proof.
  unfold checkNumber, proper. split.
  - destruct (Z.eqb_spec (zlen s) 0); [done|]. destruct (Has0xPrefix s) eqn:Ep; [|done]. apply Has0xPrefix_inv in Ep as (x & t & -> & Lx). cbn [negb]. change (drop 2 (48 :: x :: t)) with t.
    destruct (Z.eqb_spec (zlen t) 0) as [|Ht]; [done|]. rewrite Z.gtb_ltb. destruct (Z.ltb_spec 1 (zlen t)) as [H1|H1]; simpl.
    + destruct (bool_decide_reflect (head t = Some 48)); [done|]. intros [= <-]. exists x. split_and!; auto; by intros ->.
    + intros [= <-]. exists x. split_and!; auto; try lia; by intros ->.
  - intros (x & -> & Lx & Hne & Hh). assert (zlen raw <> 0) by (intros ?%zlen_0_inv; done).
    rewrite !zlen_cons. pose proof (zlen_nonneg raw). rewrite (proj2 (Z.eqb_neq _ _)) by lia.
    assert (x = 120 \/ x = 88) as Hx by (unfold lower in Lx; ranges). assert (Has0xPrefix (48 :: x :: raw) = true) as -> by (by destruct Hx as [-> | ->]). cbn [negb]. change (drop 2 (48 :: x :: raw)) with raw.
    rewrite (proj2 (Z.eqb_neq _ _)) by lia. destruct (Z.gtb_spec (zlen raw) 1); simpl; [|done]. rewrite bool_decide_eq_false_2; [done|]. apply Hh. lia.
Qed.

Lemma big_word_ok s w : 0 <= w -> (w + 1) * 16 ^ zlen s <= 2 ^ 64 -> big_word s w = match hex_value w s with Some v => Ok v | None => Err ErrSyntax end.
Proof.
  revert w. induction s as [|c s IH]; intros w Hw Hb; simpl; [done|]. rewrite decodeNibble_ok. destruct (fromHexChar c) as [d|] eqn:E; [|done].
  apply fromHexChar_range in E. rewrite (proj2 (Z.eqb_neq d badNibble)) by (unfold badNibble; lia).
  rewrite zlen_cons, Z.pow_add_r in Hb by (pose proof (zlen_nonneg s); lia). assert (1 <= 16 ^ zlen s) by (pose proof (Z.pow_pos_nonneg 16 (zlen s) ltac:(lia) (zlen_nonneg s)); lia).
  rewrite (u64_id (w * 16)), u64_id by (unfold is_u64; nia). apply IH; nia.
Qed.

Lemma hex_value_split s v : hex_value 0 s = Some v -> forall t, hex_value 0 (s ++ t) = (fun w => v * 16 ^ zlen t + w) <$> hex_value 0 t.
Proof. intros E t. by rewrite hex_value_app, E, hex_value_acc. Qed.

(** The words hold the digits, the least significant first. *)
Lemma big_words_ok n : forall raw fin, (fin <= length raw)%nat -> (fin <= 16 * n)%nat ->
  match big_words n raw fin with
  | Ok ws => hex_value 0 (take fin raw) = Some (SetBits ws)
  | Err e => e = ErrSyntax /\ hex_value 0 (take fin raw) = None
  | Panic => False
  end.
Proof.
  induction n as [|n IH]; intros raw fin Hl Hn; cbn [big_words]; [by replace fin with O by lia|]. unfold bigWordNibbles. set (start := (fin - 16)%nat).
  assert (take fin raw = take start raw ++ drop start (take fin raw)) as Es.
  { rewrite <- (take_drop start (take fin raw)) at 1. f_equal. rewrite take_take. f_equal. lia. }
  set (low := drop start (take fin raw)) in *. assert (zlen low = Z.of_nat (fin - start)) as Ll by (subst low; unfold zlen; rewrite length_drop, length_take; f_equal; lia).
  rewrite big_word_ok by (try lia; rewrite Ll; change (2 ^ 64) with (16 ^ 16); rewrite Z.mul_1_l; apply Z.pow_le_mono_r; lia).
  specialize (IH raw start ltac:(lia) ltac:(lia)). rewrite Es. destruct (hex_value 0 low) as [w|] eqn:Ew; simpl; cycle 1.
  { split; [done|]. rewrite hex_value_app. destruct (hex_value 0 (take start raw)) as [u|]; [|done]. by rewrite hex_value_acc, Ew. }
  destruct (big_words n raw start) as [ws|e|]; simpl; [|destruct IH as [-> IH]; split; [done|]; by rewrite hex_value_app, IH|done].
  rewrite (hex_value_split _ _ IH), Ew. simpl. f_equal. destruct (le_lt_dec 16 fin).
  - replace (zlen low) with 16 by lia. change (16 ^ 16) with (2 ^ 64). lia.
  - replace start with O in IH by lia. simpl in IH. injection IH as <-. lia.
Qed.

(** A checked text with its value is the text of a number. *)
Lemma EncodeBig_text n : 0 <= n -> EncodeBig n = 48 :: 120 :: number_text n.
Proof.
  intros Hn. unfold EncodeBig, number_text. destruct (Z.eqb_spec n 0); [done|]. rewrite (proj2 (Z.ltb_ge n 0)) by lia. by rewrite Z.abs_eq.
Qed.

Lemma checked_text s n : (exists raw, checkNumber s = Ok raw /\ hex_value 0 raw = Some n) <-> 0 <= n /\ map lower s = EncodeBig n.
Proof.
  split.
  - intros (raw & Ec & Hv). apply checkNumber_exact in Ec as (x & -> & Lx & Hp). destruct (proj1 (number_text_exact raw n) (conj Hp Hv)) as [Hn Et].
    split; [done|]. simpl. by rewrite EncodeBig_text, Lx, Et.
  - intros [Hn E]. rewrite EncodeBig_text in E by done. apply prefix_lower in E as (x & raw & -> & Hpre & E). destruct (proj2 (number_text_exact raw n) (conj Hn E)) as [Hp Hv].
    exists raw. split; [|done]. apply checkNumber_exact. apply Has0xPrefix_inv in Hpre as (x' & t & [= -> ->] & Lx). by exists x'.
Qed.

(** The number of digits against the number of bits. *)
Lemma proper_length raw n : proper raw -> hex_value 0 raw = Some n -> zlen raw <= 64 <-> n < 2 ^ 256.
Proof.
  change (2 ^ 256) with (16 ^ 64). intros [Hne Hh] Hv. split.
  - intros Hl. apply hex_value_range in Hv. eapply Z.lt_le_trans; [apply Hv|]. apply Z.pow_le_mono_r; lia.
  - intros Hb. destruct raw as [|c [|c' t]]; [done|done|]. pose proof (zlen_nonneg t).
    apply hex_value_first in Hv; [|intros ->; apply Hh; [rewrite !zlen_cons; lia|done]].
    assert (16 ^ zlen (c' :: t) < 16 ^ 64) as Hp by lia. apply Z.pow_lt_mono_r_iff in Hp; rewrite ?zlen_cons in *; lia.
Qed.

Lemma big_words_value raw n : (let! words := big_words (length raw / bigWordNibbles + 1) raw (length raw) in Ok (SetBits words)) = Ok n <-> hex_value 0 raw = Some n.
Proof.
  unfold bigWordNibbles. pose proof (Nat.div_mod_eq (length raw) 16). pose proof (Nat.mod_upper_bound (length raw) 16 ltac:(lia)).
  pose proof (big_words_ok (length raw / 16 + 1) raw (length raw) ltac:(lia) ltac:(lia)) as K. rewrite take_ge in K by lia.
  destruct (big_words _ raw _) as [ws|e|]; simpl; [|destruct K as [-> ->]; done|done]. rewrite K. split; by intros [= ->].
Qed.

Lemma DecodeBig_exact s n : DecodeBig s = Ok n <-> 0 <= n < 2 ^ 256 /\ map lower s = EncodeBig n.
Proof.
  unfold DecodeBig. split.
  - destruct (checkNumber s) as [raw| |] eqn:Ec; simpl; [|done..]. rewrite Z.gtb_ltb. destruct (Z.ltb_spec 64 (zlen raw)) as [|Hl]; [done|]. intros Hv%big_words_value.
    destruct (proj1 (checked_text s n)) as [Hn Et]; [by exists raw|]. apply checkNumber_exact in Ec as (x & _ & _ & Hp). split; [|done]. split; [done|]. by apply (proper_length raw n).
  - intros [[Hn Hb] E]. destruct (proj2 (checked_text s n) (conj Hn E)) as (raw & Ec & Hv). rewrite Ec. simpl.
    apply checkNumber_exact in Ec as (x & _ & _ & Hp). apply (proper_length raw n Hp Hv) in Hb. rewrite Z.gtb_ltb, (proj2 (Z.ltb_ge _ _)) by lia. by apply big_words_value.
Qed.

Lemma parse_digits_ok s n v : is_u64 n -> parse_digits s n = Ok v <-> hex_value n s = Some v /\ v < 2 ^ 64.
Proof.
  unfold is_u64. revert n. induction s as [|c s IH]; intros n Hn; simpl; [split; [intros [= <-]; split; [done|lia]|by intros [[= ->] _]]|].
  destruct (fromHexChar c) as [d|] eqn:E; [|by split; [|intros [? _]]]. apply fromHexChar_range in E. unfold parse_cutoff. rewrite Z.geb_leb. destruct (Z.leb_spec (2 ^ 60) n).
  - split; [done|]. rewrite hex_value_acc. destruct (hex_value 0 s) as [w|] eqn:Ew; [|by intros [? _]]. intros [[= <-] Hb]. apply hex_value_range in Ew.
    pose proof (Z.pow_pos_nonneg 16 (zlen s) ltac:(lia) (zlen_nonneg s)). nia.
  - rewrite u64_id by (unfold is_u64; lia). apply IH. lia.
Qed.

Lemma DecodeUint64_exact s n : DecodeUint64 s = Ok n <-> DecodeBig s = Ok n /\ n < 2 ^ 64.
Proof.
  rewrite DecodeBig_exact. unfold DecodeUint64, ParseUint. split.
  - destruct (checkNumber s) as [raw| |] eqn:Ec; simpl; [|done..]. destruct (Z.eqb_spec (zlen raw) 0); [done|]. rewrite parse_digits_ok by done. intros [Hv Hb].
    destruct (proj1 (checked_text s n)) as [Hn Et]; [by exists raw|]. split; [split; [lia|done]|done].
  - intros [[[Hn _] E] Hb]. destruct (proj2 (checked_text s n) (conj Hn E)) as (raw & Ec & Hv). rewrite Ec. simpl.
    apply checkNumber_exact in Ec as (x & _ & _ & Hp). destruct (Z.eqb_spec (zlen raw) 0) as [E0|]; [apply zlen_0_inv in E0; by destruct Hp|]. by apply parse_digits_ok.
Qed.

Lemma DecodeUint64_Encode n : is_u64 n -> DecodeUint64 (EncodeUint64 n) = Ok n.
Proof.
  intros [H0 Hb]. apply DecodeUint64_exact. split; [|done]. apply DecodeBig_exact. split; [lia|]. unfold EncodeUint64, EncodeBig. destruct (Z.eqb_spec n 0) as [->|]; [done|].
  rewrite (proj2 (Z.ltb_ge n 0)), Z.abs_eq by lia. simpl. do 2 f_equal. unfold hex_number. generalize (nibbles n) as k. clear. intros k. revert n.
  induction k as [|k IH]; intros n; simpl; [done|]. rewrite map_app, IH. simpl. do 2 f_equal. pose proof (Z.mod_pos_bound n 16 ltac:(lia)). unfold lower, hex_digit. ranges.
Qed.

(** C39: Numbers and their text determine each other, up to the case of letters:
    [DecodeBig] accepts exactly the texts of [EncodeBig], without leading zeros, for
    the numbers of at most 256 bits, and [DecodeUint64] those of at most 64 bits. *)
Theorem quantity_exact s n :
  (DecodeBig s = Ok n <-> 0 <= n < 2 ^ 256 /\ map lower s = EncodeBig n) /\ (DecodeUint64 s = Ok n <-> DecodeBig s = Ok n /\ n < 2 ^ 64).
Proof. split; [apply DecodeBig_exact|apply DecodeUint64_exact]. Qed.

(** The documentation says that the sign is ignored; it is not. *)
Example EncodeBig_negative : EncodeBig (-1) = [45; 48; 120; 49].
Proof. reflexivity. Qed.
