(* ===== verification/Base58.v ===== *)
(** The base-58 text of addresses: [Encode], [Decode] and [otaAddress] of
    [crypto/crypto.go].  Decoding inverts encoding; the address of a one-time account
    is the same text for every account. *)
From S2P Require Import Prelude IstanbulTypes ValidatorSet Hex KeccakCrypto.

Definition alphabet : bytes :=
  [49; 50; 51; 52; 53; 54; 55; 56; 57; 65; 66; 67; 68; 69; 70; 71; 72; 74; 75; 76; 77; 78; 80; 81; 82; 83; 84; 85; 86; 87; 88; 89; 90;
   97; 98; 99; 100; 101; 102; 103; 104; 105; 106; 107; 109; 110; 111; 112; 113; 114; 115; 116; 117; 118; 119; 120; 121; 122].
Definition alphabetIdx0 : Z := 49.
Definition bigRadix : Z := 58.

Definition b58 : bytes :=
  replicate 48 255 ++
  [255; 0; 1; 2; 3; 4; 5; 6;
   7; 8; 255; 255; 255; 255; 255; 255;
   255; 9; 10; 11; 12; 13; 14; 15;
   16; 255; 17; 18; 19; 20; 21; 255;
   22; 23; 24; 25; 26; 27; 28; 29;
   30; 31; 32; 255; 255; 255; 255; 255;
   255; 33; 34; 35; 36; 37; 38; 39;
   40; 41; 42; 43; 255; 44; 45; 46;
   47; 48; 49; 50; 51; 52; 53; 54;
   55; 56; 57; 255; 255; 255; 255; 255] ++ replicate 128 255.

Definition b58_at (c : Z) : Z := default 255 (b58 !! Z.to_nat c).
Definition alphabet_at (d : Z) : Z := default 0 (alphabet !! Z.to_nat d).

(** The loop over the text from its end. *)
Fixpoint decode_loop (s : bytes) (j answer : Z) : option Z :=
  match s with
  | [] => Some answer
  | c :: s => let tmp := b58_at c in if tmp =? 255 then None else decode_loop s (j * bigRadix) (answer + j * tmp)
  end.

(** The number of leading elements equal to [c]. *)
Fixpoint leading (c : Z) (s : bytes) : nat := match s with x :: s => if x =? c then S (leading c s) else O | [] => O end.

Definition Decode (b : bytes) : bytes :=
  match decode_loop (rev b) 1 0 with
  | None => []
  | Some answer => replicate (leading alphabetIdx0 b) 0 ++ be_bytes answer
  end.

Fixpoint encode_loop (fuel : nat) (x : Z) (answer : bytes) : bytes :=
  match fuel with
  | O => answer
  | S fuel => if x >? 0 then encode_loop fuel (x / bigRadix) (answer ++ [alphabet_at (x `mod` bigRadix)]) else answer
  end.

(** The bits of the number bound its digits. *)
Definition Encode (b : bytes) : bytes :=
  let x := be_value b in
  rev (encode_loop (S (Z.to_nat (Z.log2 x))) x [] ++ replicate (leading 0 b) alphabetIdx0).

Definition FactoidPrefix : bytes := [0x6c; 0x12].
Definition otaAddress `{Crypto} (a : address) : bytes := Encode (FactoidPrefix ++ Hex2Bytes (Address_Hex a)).

(** ** Digits *)

Fixpoint digits (fuel : nat) (x : Z) : list Z :=
  match fuel with O => [] | S fuel => if x >? 0 then x `mod` bigRadix :: digits fuel (x / bigRadix) else [] end.

Lemma encode_loop_digits fuel x answer : encode_loop fuel x answer = answer ++ map alphabet_at (digits fuel x).
Proof.
  revert x answer. induction fuel as [|fuel IH]; intros x answer; simpl; [by rewrite app_nil_r|].
  destruct (x >? 0); [|by rewrite app_nil_r]. rewrite IH. simpl. by rewrite <- app_assoc.
Qed.

Lemma digits_range fuel x : Forall (fun d => 0 <= d < 58) (digits fuel x).
Proof.
  revert x. induction fuel as [|fuel IH]; intros x; simpl; [done|]. destruct (x >? 0); constructor; [apply Z.mod_pos_bound; done|done].
Qed.

Definition digits_value (l : list Z) : Z := foldr (fun d v => d + bigRadix * v) 0 l.

Lemma digits_ok fuel x : 0 <= x < 2 ^ Z.of_nat fuel -> digits_value (digits fuel x) = x.
Proof.
  revert x. induction fuel as [|fuel IH]; intros x Hx; [simpl in *; lia|]. cbn [digits]. destruct (Z.gtb_spec x 0); [|simpl; lia].
  cbn [digits_value foldr]. fold (digits_value (digits fuel (x / bigRadix))). unfold bigRadix in *. rewrite IH.
  - pose proof (Z.div_mod x 58 ltac:(lia)). lia.
  - rewrite Nat2Z.inj_succ, Z.pow_succ_r in Hx by lia. split; [apply Z.div_pos; lia|]. apply Z.div_lt_upper_bound; lia.
Qed.

Lemma digits_last fuel x d : 0 <= x < 2 ^ Z.of_nat fuel -> last (digits fuel x) = Some d -> 0 < d.
Proof.
  revert x. induction fuel as [|fuel IH]; intros x Hx; [done|]. cbn [digits]. destruct (Z.gtb_spec x 0) as [Hp|]; [|done]. unfold bigRadix in *.
  rewrite Nat2Z.inj_succ, Z.pow_succ_r in Hx by lia. assert (0 <= x / 58 < 2 ^ Z.of_nat fuel) as Hd.
  { split; [apply Z.div_pos; lia|]. apply Z.div_lt_upper_bound; lia. }
  destruct (digits fuel (x / 58)) as [|e l] eqn:E; [|intros Hl; apply (IH (x / 58) Hd); by rewrite E].
  intros [= <-]. pose proof (digits_ok fuel (x / 58) Hd) as V. rewrite E in V. simpl in V. pose proof (Z.div_mod x 58 ltac:(lia)). lia.
Qed.

(** The tables invert each other. *)
Lemma tables : forallb (fun k => let d := Z.of_nat k in (b58_at (alphabet_at d) =? d) && ((k =? 0)%nat || negb (alphabet_at d =? alphabetIdx0))) (seq 0 58) = true.
Proof. vm_compute. reflexivity. Qed.

Lemma b58_alphabet d : 0 <= d < 58 -> b58_at (alphabet_at d) = d /\ (d <> 0 -> alphabet_at d <> alphabetIdx0).
Proof.
  intros Hd. pose proof tables as T. rewrite forallb_forall in T. specialize (T (Z.to_nat d)). rewrite Z2Nat.id in T by lia.
  specialize (T ltac:(apply in_seq; lia)). rewrite andb_true_iff, orb_true_iff, negb_true_iff, Z.eqb_eq, Z.eqb_neq, Nat.eqb_eq in T.
  destruct T as [T1 T2]. split; [done|]. intros Hn. destruct T2; [lia|done].
Qed.

Lemma decode_digits l s j v : Forall (fun d => 0 <= d < 58) l -> decode_loop (map alphabet_at l ++ s) j v = decode_loop s (j * bigRadix ^ zlen l) (v + j * digits_value l).
Proof.
  revert j v. induction l as [|d l IH]; intros j v Hl; [simpl; by rewrite Z.mul_1_r, Z.mul_0_r, Z.add_0_r|].
  inversion_clear Hl as [|? ? Hd Hl']. cbn [map app decode_loop]. destruct (b58_alphabet d Hd) as [-> _]. rewrite (proj2 (Z.eqb_neq d 255)) by lia.
  rewrite IH by done. f_equal.
  - unfold zlen. rewrite length_cons, Nat2Z.inj_succ, Z.pow_succ_r by lia. ring.
  - cbn [digits_value foldr]. fold (digits_value l). ring.
Qed.

Lemma decode_zeros n j v : decode_loop (replicate n alphabetIdx0) j v = Some v.
Proof. revert j. induction n as [|n IH]; intros j; [done|]. cbn [replicate decode_loop]. change (b58_at alphabetIdx0) with 0. cbn [Z.eqb]. by rewrite Z.mul_0_r, Z.add_0_r. Qed.

Lemma leading_app n c s : leading c (replicate n c ++ s) = (n + leading c s)%nat.
Proof. induction n as [|n IH]; [done|]. cbn [replicate app leading]. rewrite Z.eqb_refl. simpl. by rewrite IH. Qed.

(** A byte string is its leading zeros and the bytes of its value. *)
Lemma leading_bytes b : bytes_ok b -> replicate (leading 0 b) 0 ++ be_bytes (be_value b) = b.
Proof.
  induction b as [|x b IH]; intros Hb; [done|]. cbn [leading]. destruct (Z.eqb_spec x 0) as [->|Hx].
  - inversion_clear Hb as [|? ? _ Hb']. cbn [replicate app]. f_equal.
    assert (be_value (0 :: b) = be_value b) as -> by (change (0 :: b) with ([0] ++ b); by rewrite be_value_app). by apply IH.
  - by apply be_bytes_value.
Qed.

Lemma rev_replicate {A} n (x : A) : rev (replicate n x) = replicate n x.
Proof. induction n as [|n IH]; [done|]. simpl. rewrite IH. clear IH. induction n as [|n IH]; [done|]. simpl. by f_equal. Qed.

(** The first digit of a number is not zero. *)
Lemma leading_digits f x : 0 <= x < 2 ^ Z.of_nat f -> leading alphabetIdx0 (rev (map alphabet_at (digits f x))) = O.
Proof.
  intros Hx. pose proof (digits_range f x) as Hr. destruct (digits f x) as [|d l _] eqn:E using rev_ind; [done|].
  rewrite map_app, rev_app_distr. cbn [map rev app leading]. apply Forall_app in Hr as [_ Hd]. inversion_clear Hd as [|? ? Hd' _].
  rewrite (proj2 (Z.eqb_neq _ _)); [done|]. apply (b58_alphabet d Hd'). pose proof (digits_last f x d Hx). rewrite E, last_snoc in *. intuition lia.
Qed.

(** Decoding the base-58 text of any bytes gives the bytes back. *)
Theorem base58_roundtrip b : bytes_ok b -> Decode (Encode b) = b.
Proof.
  intros Hb. unfold Decode, Encode. set (f := S _). assert (0 <= be_value b < 2 ^ Z.of_nat f) as Hx.
  { pose proof (be_value_bound b Hb) as [H0 _]. split; [done|]. unfold f. rewrite Nat2Z.inj_succ, Z2Nat.id by apply Z.log2_nonneg.
    destruct (Z.eq_dec (be_value b) 0) as [->|]; [done|]. apply Z.log2_spec. lia. }
  rewrite encode_loop_digits, app_nil_l, rev_involutive, decode_digits by apply digits_range. rewrite decode_zeros, Z.add_0_l, Z.mul_1_l, digits_ok by done.
  rewrite rev_app_distr, rev_replicate, leading_app, leading_digits, Nat.add_0_r by done. by apply leading_bytes.
Qed.

(** An address is written with its prefix 0x, which is not hexadecimal: nothing of
    it is encoded. *)
Theorem otaAddress_constant `{Crypto} a : otaAddress a = Encode FactoidPrefix.
Proof. done. Qed.

Lemma base58_roundtrip_witness : Decode (Encode [0; 0; 1; 255]) = [0; 0; 1; 255].
Proof. apply base58_roundtrip. repeat constructor; discriminate || reflexivity. Defined.
