(* ===== verification/Curve.v ===== *)
(** The curve of the signatures: [crypto/secp256k1/curve.go], the affine and Jacobian
    arithmetic of [BitCurve], with the inverse of [math/big].

    [Add] is the chord law for points with different abscissas and [Double] the
    tangent law, and both stay on the curve; [Add] of a point to itself is not its
    double. *)
From S2P Require Import Prelude IstanbulTypes ValidatorSet BigMath.

Module BitCurves.

Definition point : Type := Z * Z.

Record BitCurve := mkBitCurve { P : Z; N : Z; B : Z; Gx : Z; Gy : Z; BitSize : Z }.

(** [S256] *)
Definition S256 : BitCurve := {|
  P := 0xFFFFFFFFFFFFFFFFFFFFFFFFFFFFFFFFFFFFFFFFFFFFFFFFFFFFFFFEFFFFFC2F;
  N := 0xFFFFFFFFFFFFFFFFFFFFFFFFFFFFFFFEBAAEDCE6AF48A03BBFD25E8CD0364141;
  B := 7;
  Gx := 0x79BE667EF9DCBBAC55A06295CE870B07029BFCDB2DCE28D959F2815B16F81798;
  Gy := 0x483ADA7726A3C4655DA4FBFC0E1108A8FD17B448A68554199C47D08FFB10D4B8;
  BitSize := 256
|}.

(** ** The inverse of [math/big] *)

(** [ModInverse] for a number that is not negative: [GCD] gives zero for zero. *)
Definition ModInverse (g n : Z) : Z := if (g <=? 0) || (n <=? 0) then 0 else Z.invmod g n.

(** ** The arithmetic *)

Section BitCurve.
Context (C : BitCurve).

Definition IsOnCurve (x y : Z) : bool := (x * x * x + B C) `mod` P C =? (y * y) `mod` P C.

Definition affineFromJacobian (p : Z * Z * Z) : point :=
  let '(x, y, z) := p in
  let zinv := ModInverse z (P C) in
  let zinvsq := zinv * zinv in
  ((x * zinvsq) `mod` P C, (y * (zinvsq * zinv)) `mod` P C).

(** A difference that is negative is corrected once. *)
Definition nonneg (a : Z) : Z := if Z.sgn a =? -1 then a + P C else a.

Definition addJacobian (x1 y1 z1 x2 y2 z2 : Z) : Z * Z * Z :=
  let z1z1 := (z1 * z1) `mod` P C in
  let z2z2 := (z2 * z2) `mod` P C in
  let u1 := (x1 * z2z2) `mod` P C in
  let u2 := (x2 * z1z1) `mod` P C in
  let h := nonneg (u2 - u1) in
  let i := Z.shiftl h 1 * Z.shiftl h 1 in
  let j := h * i in
  let s1 := (y1 * z2 * z2z2) `mod` P C in
  let s2 := (y2 * z1 * z1z1) `mod` P C in
  let r := Z.shiftl (nonneg (s2 - s1)) 1 in
  let v := u1 * i in
  let x3 := (r * r - j - v - v) `mod` P C in
  let y3 := (r * (v - x3) - Z.shiftl (s1 * j) 1) `mod` P C in
  let z3 := (nonneg (nonneg ((z1 + z2) * (z1 + z2) - z1z1) - z2z2) * h) `mod` P C in
  (x3, y3, z3).

Definition Add (p q : point) : point := affineFromJacobian (addJacobian p.1 p.2 1 q.1 q.2 1).

Definition doubleJacobian (x y z : Z) : Z * Z * Z :=
  let a := x * x in
  let b := y * y in
  let c := b * b in
  let d := ((x + b) * (x + b) - a - c) * 2 in
  let e := 3 * a in
  let f := e * e in
  let x3 := (f - 2 * d) `mod` P C in
  let y3 := (e * (d - x3) - 8 * c) `mod` P C in
  let z3 := (2 * (y * z)) `mod` P C in
  (x3, y3, z3).

Definition Double (p : point) : point := affineFromJacobian (doubleJacobian p.1 p.2 1).

(** [Marshal] for coordinates that fit; [Unmarshal] accepts any coordinates. *)
Definition byteLen : Z := Z.shiftr (BitSize C + 7) 3.
Definition Marshal (p : point) : bytes := 4 :: be_pad (Z.to_nat byteLen) p.1 ++ be_pad (Z.to_nat byteLen) p.2.
Definition Unmarshal (data : bytes) : option point :=
  if negb (zlen data =? 1 + 2 * byteLen) then None
  else if negb (default 0 (data !! 0%nat) =? 4) then None
  else Some (be_value (take (Z.to_nat byteLen) (drop 1 data)), be_value (drop (1 + Z.to_nat byteLen) data)).
End BitCurve.

(** ** Arithmetic modulo the order of the field *)

Definition congr (n a b : Z) : Prop := (n | a - b).

#[export] Instance congr_equiv n : Equivalence (congr n).
Proof.
  unfold congr. split.
  - intros a. rewrite Z.sub_diag. apply Z.divide_0_r.
  - intros a b H. replace (b - a) with (- (a - b)) by lia. by apply Z.divide_opp_r.
  - intros a b c H1 H2. replace (a - c) with (a - b + (b - c)) by lia. by apply Z.divide_add_r.
Qed.

#[export] Instance congr_add n : Proper (congr n ==> congr n ==> congr n) Z.add.
Proof. intros a a' Ha b b' Hb. unfold congr in *. replace (a + b - (a' + b')) with (a - a' + (b - b')) by lia. by apply Z.divide_add_r. Qed.

#[export] Instance congr_sub n : Proper (congr n ==> congr n ==> congr n) Z.sub.
Proof. intros a a' Ha b b' Hb. unfold congr in *. replace (a - b - (a' - b')) with (a - a' - (b - b')) by lia. by apply Z.divide_sub_r. Qed.

#[export] Instance congr_mul n : Proper (congr n ==> congr n ==> congr n) Z.mul.
Proof.
  intros a a' Ha b b' Hb. unfold congr in *. replace (a * b - a' * b') with ((a - a') * b + (b - b') * a') by ring.
  apply Z.divide_add_r; by apply Z.divide_mul_l.
Qed.

(** Polynomials that are equal are congruent. *)
Lemma congr_eq n a b : a = b -> congr n a b.
Proof. by intros ->. Qed.

Ltac field_congr := apply congr_eq; ring.

Section Laws.
Context (C : BitCurve) (HP : 2 < P C) (Hodd : Z.gcd 2 (P C) = 1).
Local Abbreviation p := (P C).
Local Infix "==" := (congr (P C)) (at level 70).

Lemma congr_mod_iff a b : a == b <-> a `mod` p = b `mod` p.
Proof. by rewrite Z.cong_iff_ex. Qed.

Lemma congr_mod a : a `mod` p == a.
Proof. apply congr_mod_iff. apply Z.mod_mod. lia. Qed.

Lemma congr_nonneg a : nonneg C a == a.
Proof. unfold nonneg. destruct (_ =? _); [|reflexivity]. exists 1. lia. Qed.

Lemma congr_0 a b : a == b <-> a - b == 0.
Proof. unfold congr. by rewrite Z.sub_0_r. Qed.

Lemma shiftl_1 a : Z.shiftl a 1 = 2 * a.
Proof. rewrite Z.shiftl_mul_pow2 by lia. lia. Qed.

(** A unit is cancelled. *)
Lemma congr_cancel a b u : u * b == 1 -> a * u == 0 -> a == 0.
Proof.
  intros Hu Ha. replace a with (a * 1) by lia. rewrite <- Hu. replace (a * (u * b)) with (a * u * b) by lia. rewrite Ha. by rewrite Z.mul_0_l.
Qed.

Lemma ModInverse_ok g : 0 <= g < p -> Z.gcd g p = 1 -> g * ModInverse g p == 1.
Proof.
  intros Hg Hc. unfold ModInverse. assert (g <> 0) by (intros ->; rewrite Z.gcd_0_l in Hc; lia).
  rewrite (proj2 (Z.leb_gt g 0)), (proj2 (Z.leb_gt p 0)) by lia. cbn [orb]. apply congr_mod_iff. rewrite Z.mul_comm. by apply Z.invmod_coprime'.
Qed.

Lemma gcd_double a : Z.gcd a p = 1 -> Z.gcd ((2 * a) `mod` p) p = 1.
Proof. intros Ha. rewrite Z.gcd_mod_l. apply Z.coprime_mul_l; done. Qed.

(** [z] with its inverse. *)
Lemma affine_ok x y z a : (z == 2 * a) -> 0 <= z < p -> Z.gcd a p = 1 ->
  exists w, 2 * a * w == 1 /\ affineFromJacobian C (x, y, z) = ((x * (w * w)) `mod` p, (y * (w * w * w)) `mod` p).
Proof.
  intros Hz Hb Ha. exists (ModInverse z p). split; [|done]. rewrite <- Hz. apply ModInverse_ok; [done|].
  apply congr_mod_iff in Hz. rewrite (Z.mod_small z) in Hz by done. rewrite Hz. by apply gcd_double.
Qed.

Lemma addJacobian_congr x1 y1 x2 y2 : exists x3 y3 z3, addJacobian C x1 y1 1 x2 y2 1 = (x3, y3, z3) /\
  x3 == 4 * (y2 - y1) * (y2 - y1) - 4 * (x2 - x1) * (x2 - x1) * (x2 - x1) - 8 * x1 * (x2 - x1) * (x2 - x1) /\
  y3 == 2 * (y2 - y1) * (4 * x1 * (x2 - x1) * (x2 - x1) - x3) - 8 * y1 * (x2 - x1) * (x2 - x1) * (x2 - x1) /\
  z3 == 2 * (x2 - x1) /\ 0 <= z3 < p.
Proof.
  unfold addJacobian. cbv zeta. rewrite !shiftl_1. rewrite (Z.mod_small (1 * 1) p) by lia. change (1 * 1) with 1.
  set (u1 := (x1 * 1) `mod` p). assert (Hu : u1 == x1) by (unfold u1; rewrite congr_mod; field_congr).
  set (s1 := (y1 * 1 * 1) `mod` p). assert (Hs : s1 == y1) by (unfold s1; rewrite congr_mod; field_congr).
  set (h := nonneg C (_ - u1)). assert (Hh : h == x2 - x1) by (unfold h; rewrite congr_nonneg, congr_mod, Hu; field_congr).
  set (r := nonneg C (_ - s1)). assert (Hr : r == y2 - y1) by (unfold r; rewrite congr_nonneg, congr_mod, Hs; field_congr).
  set (z := nonneg C (nonneg C _ - _)). assert (Hz : z == 2) by (unfold z; rewrite !congr_nonneg; field_congr).
  clearbody u1 s1 h r z. do 3 eexists. split; [reflexivity|]. split; [|split; [|split]]; [| | |apply Z.mod_pos_bound; lia].
  - rewrite congr_mod, Hr, Hh, Hu. field_congr.
  - set (x3 := (_ - _ - _ - _) `mod` p). clearbody x3. rewrite congr_mod, Hr, Hh, Hu, Hs. field_congr.
  - rewrite congr_mod, Hz, Hh. reflexivity.
Qed.

(** *** The chord law *)

Lemma slope_ok a w : 2 * a * w == 1 -> Z.gcd a p = 1 -> Z.invmod a p == 2 * w.
Proof.
  intros Hw Ha. assert (Hi : Z.invmod a p * a == 1) by (apply congr_mod_iff; by apply Z.invmod_coprime').
  transitivity (Z.invmod a p * (2 * a * w)); [rewrite Hw; field_congr|].
  transitivity (2 * w * (Z.invmod a p * a)); [field_congr|]. rewrite Hi. field_congr.
Qed.

(** chord *)
Theorem Add_chord x1 y1 x2 y2 : Z.gcd (x2 - x1) p = 1 ->
  let l := (y2 - y1) * Z.invmod (x2 - x1) p in
  let x3 := (l * l - x1 - x2) `mod` p in
  Add C (x1, y1) (x2, y2) = (x3, (l * (x1 - x3) - y1) `mod` p).
Proof.
  intros Hg. cbv zeta. unfold Add. cbn [fst snd]. destruct (addJacobian_congr x1 y1 x2 y2) as (x3 & y3 & z3 & -> & Hx & Hy & Hz & Hb).
  destruct (affine_ok x3 y3 z3 (x2 - x1) Hz Hb Hg) as (w & Hw & ->). pose proof (slope_ok _ _ Hw Hg) as Hl. set (iv := Z.invmod _ _) in *.
  clearbody iv. set (h := x2 - x1) in *. set (d := y2 - y1) in *.
  assert (Ex : x3 * (w * w) == d * iv * (d * iv) - x1 - x2).
  { rewrite Hl, Hx. transitivity (d * (2 * w) * (d * (2 * w)) - (2 * h * w) * (2 * h * w) * (h + 2 * x1)); [unfold h; field_congr|]. rewrite Hw. unfold h. field_congr. }
  f_equal; apply congr_mod_iff; [done|]. rewrite congr_mod, <- Ex, Hl, Hy.
  transitivity (d * (2 * w) * ((2 * h * w) * (2 * h * w) * x1 - x3 * (w * w)) - (2 * h * w) * (2 * h * w) * (2 * h * w) * y1); [field_congr|].
  rewrite Hw. field_congr.
Qed.

(** *** The tangent law *)

Lemma doubleJacobian_congr x y : exists x3 y3 z3, doubleJacobian C x y 1 = (x3, y3, z3) /\
  x3 == 9 * x * x * x * x - 8 * x * y * y /\ y3 == 3 * x * x * (4 * x * y * y - x3) - 8 * y * y * y * y /\ z3 == 2 * y /\ 0 <= z3 < p.
Proof.
  do 3 eexists. split; [reflexivity|]. split; [|split; [|split]]; [| | |apply Z.mod_pos_bound; lia].
  - rewrite congr_mod. field_congr.
  - set (x3 := (_ - 2 * _) `mod` p). rewrite congr_mod. field_congr.
  - rewrite congr_mod. field_congr.
Qed.

Lemma Double_tangent x y : Z.gcd y p = 1 ->
  let l := 3 * x * x * Z.invmod (2 * y) p in
  let x3 := (l * l - 2 * x) `mod` p in
  Double C (x, y) = (x3, (l * (x - x3) - y) `mod` p).
Proof.
  intros Hg. cbv zeta. unfold Double. cbn [fst snd]. destruct (doubleJacobian_congr x y) as (x3 & y3 & z3 & -> & Hx & Hy & Hz & Hb).
  destruct (affine_ok x3 y3 z3 y Hz Hb Hg) as (w & Hw & ->).
  assert (Hl : Z.invmod (2 * y) p == w).
  { assert (Hi : Z.invmod (2 * y) p * (2 * y) == 1) by (apply congr_mod_iff; apply Z.invmod_coprime'; by apply Z.coprime_mul_l).
    transitivity (Z.invmod (2 * y) p * (2 * y) * w); [|rewrite Hi; field_congr]. transitivity (Z.invmod (2 * y) p * (2 * y * w)); [rewrite Hw|]; field_congr. }
  set (iv := Z.invmod _ _) in *. clearbody iv.
  assert (Ex : x3 * (w * w) == 3 * x * x * iv * (3 * x * x * iv) - 2 * x).
  { rewrite Hl, Hx. transitivity (3 * x * x * w * (3 * x * x * w) - 2 * x * (2 * y * w) * (2 * y * w)); [field_congr|]. rewrite Hw. field_congr. }
  f_equal; apply congr_mod_iff; [done|]. rewrite congr_mod, <- Ex, Hl, Hy.
  transitivity (3 * x * x * w * ((2 * y * w) * (2 * y * w) * x - x3 * (w * w)) - (2 * y * w) * (2 * y * w) * (2 * y * w) * y); [field_congr|].
  rewrite Hw. field_congr.
Qed.

(** *** The results are on the curve *)

Lemma IsOnCurve_iff x y : IsOnCurve C x y = true <-> y * y == x * x * x + B C.
Proof. unfold IsOnCurve. rewrite Z.eqb_eq, congr_mod_iff. split; congruence. Qed.

(** A line through two points of the curve meets it in a third. *)
Lemma chord_on_curve l x1 y1 x2 y2 x3 y3 : Z.gcd (x2 - x1) p = 1 -> l * (x2 - x1) == y2 - y1 -> y1 * y1 == x1 * x1 * x1 + B C -> y2 * y2 == x2 * x2 * x2 + B C ->
  x3 == l * l - x1 - x2 -> y3 == l * (x1 - x3) - y1 -> y3 * y3 == x3 * x3 * x3 + B C.
Proof.
  intros Hg Hl H1 H2 Hx Hy. symmetry. apply congr_0. apply (congr_cancel _ (Z.invmod (x2 - x1) p) (x2 - x1)).
  { apply congr_mod_iff. rewrite Z.mul_comm. by apply Z.invmod_coprime'. }
  rewrite Hy. set (f := fun x => x * x * x + B C - (l * (x - x1) + y1) * (l * (x - x1) + y1)).
  assert (F1 : f x1 == 0) by (unfold f; transitivity (x1 * x1 * x1 + B C - y1 * y1); [field_congr|rewrite H1; field_congr]).
  assert (F2 : f x2 == 0) by (unfold f; rewrite Hl; transitivity (x2 * x2 * x2 + B C - y2 * y2); [field_congr|rewrite H2; field_congr]).
  transitivity (f x1 * (x2 - x3) + f x2 * (x3 - x1) + (x3 - x1) * (x3 - x2) * (x2 - x1) * (x3 - (l * l - x1 - x2))); [unfold f; field_congr|].
  apply congr_0 in Hx. rewrite F1, F2, Hx. field_congr.
Qed.

Lemma tangent_on_curve l x y x3 y3 : l * (2 * y) == 3 * x * x -> y * y == x * x * x + B C ->
  x3 == l * l - 2 * x -> y3 == l * (x - x3) - y -> y3 * y3 == x3 * x3 * x3 + B C.
Proof.
  intros Hl H1 Hx Hy. symmetry. apply congr_0. rewrite Hy.
  transitivity (x * x * x + B C - y * y + (3 * x * x - l * (2 * y)) * (x3 - x) + (x3 - x) * (x3 - x) * (x3 - (l * l - 2 * x))); [field_congr|].
  apply congr_0 in Hx. rewrite Hl, H1, Hx. field_congr.
Qed.

Lemma Add_on_curve x1 y1 x2 y2 : Z.gcd (x2 - x1) p = 1 -> IsOnCurve C x1 y1 = true -> IsOnCurve C x2 y2 = true ->
  let '(x3, y3) := Add C (x1, y1) (x2, y2) in IsOnCurve C x3 y3 = true.
Proof.
  intros Hg H1 H2. rewrite Add_chord by done. rewrite IsOnCurve_iff in *. set (l := (y2 - y1) * _).
  apply (chord_on_curve l x1 y1 x2 y2); try done; [|by rewrite congr_mod..].
  unfold l. transitivity ((y2 - y1) * (Z.invmod (x2 - x1) p * (x2 - x1))); [field_congr|].
  transitivity ((y2 - y1) * 1); [|field_congr]. apply congr_mul; [done|]. apply congr_mod_iff. by apply Z.invmod_coprime'.
Qed.

Lemma Double_on_curve x y : Z.gcd y p = 1 -> IsOnCurve C x y = true -> let '(x3, y3) := Double C (x, y) in IsOnCurve C x3 y3 = true.
Proof.
  intros Hg H1. rewrite Double_tangent by done. rewrite IsOnCurve_iff in *. set (l := 3 * x * x * _).
  apply (tangent_on_curve l x y); try done; [|by rewrite congr_mod..].
  unfold l. transitivity (3 * x * x * (Z.invmod (2 * y) p * (2 * y))); [field_congr|].
  transitivity (3 * x * x * 1); [|field_congr]. apply congr_mul; [done|]. apply congr_mod_iff. apply Z.invmod_coprime'. by apply Z.coprime_mul_l.
Qed.

(** A point is not added to itself. *)
Lemma Add_self q : Add C q q = (0, 0).
Proof.
  unfold Add, addJacobian. rewrite !Z.sub_diag. change (nonneg C 0) with 0. rewrite !Z.mul_0_r, (Z.mod_0_l p) by lia. done.
Qed.
End Laws.

Lemma S256_field : 2 < P S256 /\ Z.gcd 2 (P S256) = 1.
Proof. split; reflexivity. Qed.

End BitCurves.
Import BitCurves.

(** C29: On the curve of the signatures, [Add] of two points of the curve whose
    abscissas differ modulo [P] is the third point of the chord, which is on the
    curve, [Double] of a point with an ordinate is the point of the tangent, also on
    the curve, but [Add] of a point to itself is (0, 0). *)
Theorem curve_law x1 y1 x2 y2 : IsOnCurve S256 x1 y1 = true -> IsOnCurve S256 x2 y2 = true -> Z.gcd (x2 - x1) (P S256) = 1 -> Z.gcd y1 (P S256) = 1 ->
  let chord := (y2 - y1) * Z.invmod (x2 - x1) (P S256) in
  let tangent := 3 * x1 * x1 * Z.invmod (2 * y1) (P S256) in
  let third l x := (l * l - x1 - x) `mod` P S256 in
  let sum := (third chord x2, (chord * (x1 - third chord x2) - y1) `mod` P S256) in
  let double := (third tangent x1, (tangent * (x1 - third tangent x1) - y1) `mod` P S256) in
  Add S256 (x1, y1) (x2, y2) = sum /\ IsOnCurve S256 sum.1 sum.2 = true /\
  Double S256 (x1, y1) = double /\ IsOnCurve S256 double.1 double.2 = true /\
  Add S256 (x1, y1) (x1, y1) = (0, 0).
Proof.
  destruct S256_field as [HP Ho]. intros H1 H2 Hg Hy. cbv zeta.
  pose proof (Add_on_curve S256 HP Ho x1 y1 x2 y2 Hg H1 H2) as Ha. rewrite (Add_chord S256 HP Ho _ _ _ _ Hg) in *.
  pose proof (Double_on_curve S256 HP Ho x1 y1 Hy H1) as Hd. rewrite (Double_tangent S256 HP Ho _ _ Hy) in *.
  assert (E : forall a, a - x1 - x1 = a - 2 * x1) by lia. rewrite !E. split_and!; try done. by apply Add_self.
Qed.

Lemma curve_law_witness : Add S256 (Gx S256, Gy S256) (Gx S256, Gy S256) = (0, 0).
Proof.
  pose proof (curve_law (Gx S256) (Gy S256) (Double S256 (Gx S256, Gy S256)).1 (Double S256 (Gx S256, Gy S256)).2
    ltac:(vm_compute; reflexivity) ltac:(vm_compute; reflexivity) ltac:(vm_compute; reflexivity) ltac:(vm_compute; reflexivity)) as (_ & _ & _ & _ & E).
  exact E.
Defined.
