(* ===== verification/TrieNode.v ===== *)
(** Key encodings of the Merkle Patricia trie: [trie/encoding.go].

    A key is a byte string (KEYBYTES), a list of nibbles with an optional
    terminator 16 (HEX), or the packed form of the database (COMPACT).  An
    index out of range and the explicit [panic] are the outcome [Panic].

    Trie nodes and their database encoding: [trie/node.go].

    A node is the interface value of the source: nil, a value, a hash (a
    subtrie that is not loaded), a short node or a full node with its seventeen
    children.  Nodes are copied before they are changed, so plain values model
    them.  [wrapError] and the decode path are kept, since they are the error
    value; the text of [Error()] is not. *)
From S2P Require Import Prelude RlpEncode RlpRaw RlpDecode RlpCodec RlpTheorems.

Section Encoding.
Context {E : Type}.

(** [hasTerm]: the last element is the terminator. *)
Definition hasTerm (s : bytes) : bool :=
  match last s with Some x => x =? 16 | None => false end.

(** [decodeNibbles] writes into the slice [bs] and panics when a nibble or a
    byte is missing. *)
Fixpoint decodeNibbles (nibbles bs : bytes) : outcome E bytes :=
  match nibbles with
  | [] => Ok bs
  | n0 :: tl =>
      match tl, bs with
      | n1 :: nibbles', _ :: bs' =>
          let! r := decodeNibbles nibbles' bs' in
          Ok (Z.lor (u8 (Z.shiftl n0 4)) n1 :: r)
      | _, _ => Panic
      end
  end.

Definition hexToCompact (hex : bytes) : outcome E bytes :=
  let '(terminator, hex) :=
    if hasTerm hex then (1, take (length hex - 1) hex) else (0, hex) in
  let buf := replicate (length hex / 2 + 1) 0 in
  let flag := u8 (Z.shiftl terminator 5) in
  let '(flag, hex) :=
    match hex with
    | h0 :: hex' =>
        if Z.land (zlen hex) 1 =? 1 then (Z.lor (Z.lor flag (Z.shiftl 1 4)) h0, hex')
        else (flag, hex)
    | [] => (flag, hex)
    end in
  let! tl := decodeNibbles hex (drop 1 buf) in
  Ok (flag :: tl).

Fixpoint keybytes_nibbles (str : bytes) : bytes :=
  match str with
  | [] => []
  | b :: str' => b / 16 :: b `mod` 16 :: keybytes_nibbles str'
  end.

Definition keybytesToHex (str : bytes) : bytes := keybytes_nibbles str ++ [16].

Definition compactToHex (compact : bytes) : outcome E bytes :=
  let base := keybytesToHex compact in
  let base := take (length base - 1) base in
  match base with
  | [] => Panic
  | b0 :: _ =>
      let base := if b0 >=? 2 then base ++ [16] else base in
      Ok (drop (Z.to_nat (2 - Z.land b0 1)) base)
  end.

Definition hexToKeybytes (hex : bytes) : outcome E bytes :=
  let hex := if hasTerm hex then take (length hex - 1) hex else hex in
  if negb (Z.land (zlen hex) 1 =? 0) then Panic
  else decodeNibbles hex (replicate ((length hex + 1) / 2) 0).

End Encoding.

(** [prefixLen]: the length of the common prefix. *)
Fixpoint prefixLen (a b : bytes) : nat :=
  match a, b with
  | x :: a', y :: b' => if x =? y then S (prefixLen a' b') else O
  | _, _ => O
  end.

(** ** Nibble strings *)

Definition is_nibble (x : Z) : Prop := 0 <= x < 16.
Abbreviation nibbles_ok := (Forall is_nibble).

(** A complete hex key: nibbles followed by the terminator. *)
Definition hexkey (k : bytes) : Prop := exists ns, nibbles_ok ns /\ k = ns ++ [16].

Create HintDb trie_db.

Lemma hasTerm_app s : hasTerm (s ++ [16]) = true.
Proof. unfold hasTerm. by rewrite last_snoc. Qed.

Lemma hasTerm_nibbles s : nibbles_ok s -> hasTerm s = false.
Proof.
  intros Hs. unfold hasTerm. destruct (last s) as [x|] eqn:E; [|done].
  apply last_Some in E as [l ->]. apply Forall_app in Hs as [_ Hx].
  inversion_clear Hx as [|? ? Hx' _]. unfold is_nibble in Hx'. lia.
Qed.

Lemma hasTerm_hexkey k : hexkey k -> hasTerm k = true.
Proof. intros (ns & _ & ->). apply hasTerm_app. Qed.

Lemma land1_mod x : Z.land x 1 = x `mod` 2.
Proof. exact (Z.land_ones x 1 ltac:(lia)). Qed.

Lemma take_snoc {A} (l : list A) x : take (length (l ++ [x]) - 1) (l ++ [x]) = l.
Proof. rewrite length_app, Nat.add_sub. apply take_app_length. Qed.

Lemma nibbles_byte x y : is_nibble x -> is_nibble y ->
  Z.lor (u8 (Z.shiftl x 4)) y = x * 16 + y /\ is_byte (x * 16 + y).
Proof.
  unfold is_nibble, is_byte. intros Hx Hy. rewrite u8_id.
  - rewrite lor_shift_add by lia. lia.
  - rewrite Z.shiftl_mul_pow2 by lia. unfold is_byte. lia.
Qed.

Lemma byte_nibbles x y : is_nibble x -> is_nibble y -> (x * 16 + y) / 16 = x /\ (x * 16 + y) `mod` 16 = y.
Proof.
  unfold is_nibble. intros Hx Hy. split.
  - rewrite Z.div_add_l, Z.div_small by lia. lia.
  - rewrite Z.add_comm, Z_mod_plus_full, Z.mod_small; lia.
Qed.

Lemma keybytes_nibbles_ok str : bytes_ok str -> nibbles_ok (keybytes_nibbles str).
Proof.
  induction 1 as [|b str Hb _ IH]; simpl; [done|]. unfold is_byte in Hb.
  repeat constructor; [apply Z.div_pos; lia|apply Z.div_lt_upper_bound; lia| | |done];
    apply Z.mod_pos_bound; lia.
Qed.

Lemma keybytesToHex_hexkey str : bytes_ok str -> hexkey (keybytesToHex str).
Proof. intros H. exists (keybytes_nibbles str). split; [by apply keybytes_nibbles_ok|done]. Qed.

Lemma length_keybytes_nibbles str : length (keybytes_nibbles str) = (2 * length str)%nat.
Proof. induction str as [|b str IH]; simpl; lia. Qed.

Lemma keybytes_nibbles_app s1 s2 : keybytes_nibbles (s1 ++ s2) = keybytes_nibbles s1 ++ keybytes_nibbles s2.
Proof. induction s1 as [|b s1 IH]; simpl; [done|]. by rewrite IH. Qed.

(** Two nibbles at a time. *)
Lemma even_nibbles_ind (P : bytes -> Prop) :
  P [] -> (forall x y l, P l -> P (x :: y :: l)) -> forall l, Z.land (zlen l) 1 = 0 -> P l.
Proof.
  intros H0 HS.
  assert (X : forall l, (Z.land (zlen l) 1 = 0 -> P l) /\ forall x, Z.land (zlen (x :: l)) 1 = 0 -> P (x :: l)).
  { assert (Even : forall (x y : Z) l, Z.land (zlen (x :: y :: l)) 1 = Z.land (zlen l) 1).
    { intros x y l. rewrite !zlen_cons, !land1_mod.
      replace (1 + (1 + zlen l)) with (zlen l + 1 * 2) by lia. apply Z_mod_plus_full. }
    induction l as [|y l [IH1 IH2]]; (split; [auto|]); intros x Hx.
    - vm_compute in Hx. discriminate.
    - rewrite Even in Hx. auto. }
  intros l. apply X.
Qed.

(** Packing pairs of nibbles inverts splitting bytes, in both directions. *)
Lemma decodeNibbles_pack {E} ns bs rest :
  nibbles_ok ns -> Z.land (zlen ns) 1 = 0 -> length ns = (2 * length bs)%nat ->
  exists str, @decodeNibbles E ns (bs ++ rest) = Ok (str ++ rest) /\ keybytes_nibbles str = ns /\
    bytes_ok str /\ length str = length bs.
Proof.
  intros Hok Hev. revert bs Hok. revert ns Hev.
  apply (even_nibbles_ind (fun ns => forall bs, nibbles_ok ns -> length ns = (2 * length bs)%nat -> _)).
  - intros [|b bs] _ Hl; [|simpl in Hl; lia]. by exists [].
  - intros x y ns IH [|b bs] Hok Hl; simpl in Hl; [lia|].
    inversion_clear Hok as [|? ? Hx Hok']. inversion_clear Hok' as [|? ? Hy Hns].
    destruct (IH bs Hns ltac:(lia)) as (str & E1 & E2 & E3 & E4).
    destruct (nibbles_byte x y Hx Hy) as [Eb Hb]. simpl. rewrite Eb, E1.
    exists (x * 16 + y :: str). destruct (byte_nibbles x y Hx Hy) as [H1 H2].
    simpl. rewrite H1, H2, E2, E4. repeat constructor; auto; apply Hb.
Qed.

Lemma keybytes_nibbles_even str : Z.land (zlen (keybytes_nibbles str)) 1 = 0.
Proof.
  unfold zlen. rewrite length_keybytes_nibbles. rewrite land1_mod, Nat2Z.inj_mul, Z.mul_comm. apply Z_mod_mult.
Qed.

Lemma keybytes_nibbles_inj s1 s2 : bytes_ok s1 -> bytes_ok s2 ->
  keybytes_nibbles s1 = keybytes_nibbles s2 -> s1 = s2.
Proof.
  intros H1. revert s2. induction H1 as [|b s1 Hb _ IH]; intros [|c s2] H2 E; simpl in E; try done.
  inversion_clear H2 as [|? ? Hc H2']. injection E as E1 E2 E3. f_equal; [|by apply IH].
  rewrite (Z.div_mod b 16), (Z.div_mod c 16) by lia. congruence.
Qed.

Lemma keybytesToHex_inj s1 s2 : bytes_ok s1 -> bytes_ok s2 ->
  keybytesToHex s1 = keybytesToHex s2 -> s1 = s2.
Proof. intros H1 H2 E. apply app_inv_tail in E. by apply keybytes_nibbles_inj. Qed.

Lemma length_half_even (ns bs : bytes) : length ns = (2 * length bs)%nat -> (length ns / 2)%nat = length bs.
Proof. intros ->. rewrite Nat.mul_comm. by apply Nat.div_mul. Qed.

(** ** Common prefixes *)

Lemma prefixLen_spec a b :
  exists p ra rb, a = p ++ ra /\ b = p ++ rb /\ prefixLen a b = length p /\
    (forall x y ra' rb', ra = x :: ra' -> rb = y :: rb' -> x <> y).
Proof.
  revert b. induction a as [|x a IH]; intros b.
  - exists [], [], b. repeat split; naive_solver.
  - destruct b as [|y b]; [exists [], (x :: a), []; naive_solver|]. simpl.
    destruct (Z.eqb_spec x y) as [->|Hne].
    + destruct (IH b) as (p & ra & rb & -> & -> & -> & Hd). exists (y :: p), ra, rb. naive_solver.
    + exists [], (x :: a), (y :: b). naive_solver.
Qed.

Lemma prefixLen_app p a b : prefixLen (p ++ a) (p ++ b) = (length p + prefixLen a b)%nat.
Proof. induction p as [|x p IH]; simpl; [done|]. rewrite Z.eqb_refl, IH. done. Qed.

(** ** The packed form *)

(** The hex keys of nodes: nibbles, with or without the terminator. *)
Definition hexnode (h : bytes) : Prop := nibbles_ok h \/ hexkey h.

(** The packed form with its flag byte taken apart. *)
Definition compact_form (term : bool) (ns : bytes) (c : bytes) : Prop :=
  let f := if term then 2 else 0 in
  exists str, bytes_ok str /\
    ((ns = keybytes_nibbles str /\ c = f * 16 :: str) \/
     (exists x, is_nibble x /\ ns = x :: keybytes_nibbles str /\ c = (f + 1) * 16 + x :: str)).

Definition with_term (term : bool) (ns : bytes) : bytes := ns ++ (if term then [16] else []).

Lemma hexnode_cases h : hexnode h -> exists term ns, nibbles_ok ns /\ h = with_term term ns.
Proof.
  intros [H|(ns & H & ->)]; [exists false, h|exists true, ns]; unfold with_term; by rewrite ?app_nil_r.
Qed.

Lemma with_term_strip term ns : nibbles_ok ns ->
  hasTerm (with_term term ns) = term /\
  (if term then take (length (with_term term ns) - 1) (with_term term ns) else with_term term ns) = ns.
Proof.
  intros H. destruct term; unfold with_term.
  - by rewrite hasTerm_app, take_snoc.
  - by rewrite app_nil_r, hasTerm_nibbles.
Qed.

Lemma odd_even (x : Z) l : Z.land (zlen (x :: l)) 1 = 1 - Z.land (zlen l) 1.
Proof.
  rewrite !land1_mod, zlen_cons.
  pose proof (Z.mod_pos_bound (zlen l) 2 ltac:(lia)).
  destruct (Z.eq_dec (zlen l `mod` 2) 0) as [E|E].
  - rewrite <- Zplus_mod_idemp_r, E. done.
  - assert (zlen l `mod` 2 = 1) as E1 by lia. rewrite <- Zplus_mod_idemp_r, E1. done.
Qed.

Lemma land1_cases x : Z.land x 1 = 0 \/ Z.land x 1 = 1.
Proof. rewrite land1_mod. pose proof (Z.mod_pos_bound x 2 ltac:(lia)). lia. Qed.

(** Pairs of nibbles into a fresh slice. *)
Lemma decodeNibbles_fresh {E} ns n : nibbles_ok ns -> Z.land (zlen ns) 1 = 0 -> n = (length ns / 2)%nat ->
  exists str, @decodeNibbles E ns (replicate n 0) = Ok str /\ keybytes_nibbles str = ns /\ bytes_ok str.
Proof.
  intros Hns He ->.
  assert (L : length ns = (2 * length (replicate (length ns / 2) 0%Z))%nat).
  { rewrite length_replicate. apply Nat.Div0.div_exact.
    rewrite land1_mod in He. unfold zlen in He. change 2 with (Z.of_nat 2) in He. rewrite <- Nat2Z.inj_mod in He. lia. }
  destruct (decodeNibbles_pack (E:=E) ns _ [] Hns He L) as (str & D & K & B & _).
  rewrite !app_nil_r in D. eauto.
Qed.

Lemma hexToKeybytes_keybytesToHex {E} k : bytes_ok k -> @hexToKeybytes E (keybytesToHex k) = Ok k.
Proof.
  intros Hk. unfold hexToKeybytes, keybytesToHex. rewrite hasTerm_app, take_snoc, keybytes_nibbles_even. change (negb (0 =? 0)) with false. cbv iota.
  destruct (decodeNibbles_fresh (E:=E) (keybytes_nibbles k) ((length (keybytes_nibbles k) + 1) / 2))
    as (str & -> & En & Hs); [by apply keybytes_nibbles_ok|apply keybytes_nibbles_even| |].
  - rewrite length_keybytes_nibbles, (Nat.mul_comm 2), Nat.div_add_l by lia. rewrite Nat.div_mul by lia. simpl. lia.
  - f_equal. by apply keybytes_nibbles_inj.
Qed.

Lemma flag_odd term x : is_nibble x ->
  Z.lor (Z.lor (u8 (Z.shiftl (if term : bool then 1 else 0) 5)) (Z.shiftl 1 4)) x =
  ((if term then 2 else 0) + 1) * 16 + x.
Proof.
  unfold is_nibble. intros Hx.
  replace (Z.lor (u8 (Z.shiftl (if term then 1 else 0) 5)) (Z.shiftl 1 4))
    with (Z.shiftl ((if term then 2 else 0) + 1) 4) by (by destruct term).
  rewrite lor_shift_add; lia.
Qed.

Lemma hexToCompact_form {E} term ns : nibbles_ok ns ->
  exists c, @hexToCompact E (with_term term ns) = Ok c /\ compact_form term ns c.
Proof.
  intros Hns. destruct (with_term_strip term ns Hns) as [E1 E2]. unfold hexToCompact. rewrite E1.
  replace (if term then (1, take (length (with_term term ns) - 1) (with_term term ns)) else (0, with_term term ns))
    with (if term then 1 else 0, ns) by (destruct term; by rewrite E2).
  destruct ns as [|x ns]; [exists [if term then 32 else 0]; split; [by destruct term|];
    exists []; split; [done|]; left; by destruct term|].
  inversion_clear Hns as [|? ? Hx Hns']. rewrite odd_even, Nat.add_1_r.
  change (drop 1 (replicate (S ?n) 0)) with (replicate n 0).
  destruct (land1_cases (zlen ns)) as [He|He]; rewrite He; simpl Z.eqb; cbv iota.
  - destruct (decodeNibbles_fresh (E:=E) ns (length (x :: ns) / 2)) as (str & D & K & B); [done..| |].
    { simpl length. rewrite land1_mod in He. unfold zlen in He.
      change 2 with (Z.of_nat 2) in He. rewrite <- Nat2Z.inj_mod in He.
      pose proof (Nat.div_mod_eq (length ns) 2). pose proof (Nat.div_mod_eq (S (length ns)) 2).
      pose proof (Nat.mod_upper_bound (S (length ns)) 2). lia. }
    rewrite D. simpl. eexists. split; [done|]. exists str. split; [done|]. right.
    exists x. rewrite K. split; [done|]. split; [done|]. f_equal. by apply flag_odd.
  - destruct (decodeNibbles_fresh (E:=E) (x :: ns) (length (x :: ns) / 2)) as (str & D & K & B);
      [by constructor|rewrite odd_even; lia|done|].
    rewrite D. simpl. eexists. split; [done|]. exists str. split; [done|]. left.
    rewrite K. split; [done|]. f_equal. by destruct term.
Qed.

Lemma compactToHex_form {E} term ns c : compact_form term ns c -> @compactToHex E c = Ok (with_term term ns).
Proof.
  intros (str & _ & H). unfold compactToHex, keybytesToHex. rewrite take_snoc. unfold with_term.
  destruct H as [[-> ->]|(x & Hx & -> & ->)]; simpl keybytes_nibbles.
  - destruct term; simpl; rewrite ?app_nil_r; done.
  - unfold is_nibble in Hx.
    assert (exists z, ((if term then 2 else 0) + 1) * 16 + x = z * 16 + x /\ z = if term then 3 else 1)
      as (z & -> & Ez) by (destruct term; eauto).
    rewrite Z.div_add_l, (Z.div_small x) by lia.
    rewrite (Z.add_comm (z * 16) x), Z_mod_plus_full, (Z.mod_small x) by lia.
    destruct term; subst z; simpl; by rewrite ?app_nil_r.
Qed.

Lemma compact_form_fun term ns c c' : compact_form term ns c -> compact_form term ns c' -> c = c'.
Proof.
  intros (str & B & H) (str' & B' & H').
  destruct H as [[-> ->]|(x & Hx & -> & ->)], H' as [[E ->]|(x' & Hx' & E & ->)].
  - apply keybytes_nibbles_inj in E; [by subst|done..].
  - pose proof (keybytes_nibbles_even str) as P. rewrite E, odd_even, keybytes_nibbles_even in P. lia.
  - pose proof (keybytes_nibbles_even str') as P. rewrite <- E, odd_even, keybytes_nibbles_even in P. lia.
  - injection E as -> E. apply keybytes_nibbles_inj in E; [by subst|done..].
Qed.

Lemma compact_form_bytes term ns c : compact_form term ns c -> bytes_ok c /\ c <> [].
Proof.
  intros (str & B & H). unfold is_nibble in H.
  destruct H as [[_ ->]|(x & Hx & _ & ->)]; (split; [|done]); constructor; try done;
    unfold is_byte; destruct term; lia.
Qed.

Record nodeFlag := mkFlag { nf_hash : option bytes; nf_gen : Z; nf_dirty : bool }.

Inductive node :=
| nilNode
| fullNode (Children : list node) (flags : nodeFlag)
| shortNode (Key : bytes) (Val : node) (flags : nodeFlag)
| hashNode (h : bytes)
| valueNode (v : bytes).

(** Induction with a hypothesis for every child. *)
Section NodeInd.
Context (P : node -> Prop) (Hnil : P nilNode)
  (Hfull : forall cs f, Forall P cs -> P (fullNode cs f))
  (Hshort : forall k v f, P v -> P (shortNode k v f))
  (Hhash : forall h, P (hashNode h)) (Hvalue : forall v, P (valueNode v)).

Fixpoint node_ind' (n : node) : P n :=
  match n with
  | nilNode => Hnil
  | fullNode cs f => Hfull cs f ((fix go l : Forall P l :=
      match l with [] => List.Forall_nil P | c :: l' => List.Forall_cons P c l' (node_ind' c) (go l') end) cs)
  | shortNode k v f => Hshort k v f (node_ind' v)
  | hashNode h => Hhash h
  | valueNode v => Hvalue v
  end.
End NodeInd.

Definition u16 (x : Z) : Z := x `mod` 2 ^ 16.

Definition nodeFlag_canUnload (n : nodeFlag) (cachegen cachelimit : Z) : bool :=
  negb (nf_dirty n) && (u16 (cachegen - nf_gen n) >=? cachelimit).

Definition node_canUnload (n : node) (gen limit : Z) : bool :=
  match n with
  | fullNode _ f | shortNode _ _ f => nodeFlag_canUnload f gen limit
  | _ => false
  end.

(** [cache]; calling it on a nil node is a nil dereference. *)
Definition node_cache {E} (n : node) : outcome E (option bytes * bool) :=
  match n with
  | nilNode => Panic
  | fullNode _ f | shortNode _ _ f => Ok (nf_hash f, nf_dirty f)
  | hashNode _ | valueNode _ => Ok (None, true)
  end.

(** What the RLP encoder sees of a node: the exported fields of a short node,
    the children of a full node ([EncodeRLP]), the bytes of the others. *)
Fixpoint node_EncodeRLP (n : node) : value :=
  match n with
  | nilNode => VNilInterface
  | fullNode cs _ => VSlice (map node_EncodeRLP cs)
  | shortNode k v _ => VStruct [VBytes k; node_EncodeRLP v]
  | hashNode b | valueNode b => VBytes b
  end.

(** ** Decoding *)

Inductive node_err_what :=
| NodeUnexpectedEOF
| NodeDecodeError (e : rlp_err)
| NodeBadCount (c : Z)
| NodeInvalidValue (e : rlp_err)
| NodeRlp (e : rlp_err)
| NodeOversized (size : Z)
| NodeBadRef (size : Z)
| NodeOutOfFuel.

Inductive path_elem := PathShort | PathFull | PathVal | PathIndex (i : Z).

(** [decodeError]; an empty stack is an error that was not wrapped yet. *)
Record node_err := mkNodeErr { ne_what : node_err_what; ne_stack : list path_elem }.

Definition wrapError {A} (r : outcome node_err A) (ctx : path_elem) : outcome node_err A :=
  match r with
  | Err e => Err (mkNodeErr (ne_what e) (ne_stack e ++ [ctx]))
  | r => r
  end.

Definition of_rlp {A} (f : rlp_err -> node_err_what) (r : outcome rlp_err A) : outcome node_err A :=
  match r with Ok a => Ok a | Err e => Err (mkNodeErr (f e) []) | Panic => Panic end.

Definition hashLen : Z := 32.

Section Decode.
Context (decodeNode : option bytes -> bytes -> Z -> outcome node_err node).

Definition decodeRef (buf : bytes) (cachegen : Z) : outcome node_err (node * bytes) :=
  let! (kind, val, rest) := of_rlp NodeRlp (Split buf) in
  if bool_decide (kind = List) then
    let size := zlen buf - zlen rest in
    if size >? hashLen then Err (mkNodeErr (NodeOversized size) [])
    else let! n := decodeNode None buf cachegen in Ok (n, rest)
  else if bool_decide (kind = String) && (zlen val =? 0) then Ok (nilNode, rest)
  else if bool_decide (kind = String) && (zlen val =? 32) then Ok (hashNode val, rest)
  else Err (mkNodeErr (NodeBadRef (zlen val)) []).

Definition decodeShort (hash : option bytes) (elems : bytes) (cachegen : Z) : outcome node_err node :=
  let! (kbuf, rest) := of_rlp NodeRlp (SplitString elems) in
  let flag := mkFlag hash cachegen false in
  let! key := compactToHex kbuf in
  if hasTerm key then
    let! (val, _) := of_rlp NodeInvalidValue (SplitString rest) in
    Ok (shortNode key (valueNode val) flag)
  else
    let! (r, _) := wrapError (decodeRef rest cachegen) PathVal in
    Ok (shortNode key r flag).

(** The loop over the first sixteen children, from index [i] on. *)
Fixpoint decodeFull_loop (i : Z) (count : nat) (elems : bytes) (cachegen : Z) :
    outcome node_err (list node * bytes) :=
  match count with
  | O => Ok ([], elems)
  | S count' =>
      let! (cld, rest) := wrapError (decodeRef elems cachegen) (PathIndex i) in
      let! (l, rest) := decodeFull_loop (i + 1) count' rest cachegen in
      Ok (cld :: l, rest)
  end.

Definition decodeFull (hash : option bytes) (elems : bytes) (cachegen : Z) : outcome node_err node :=
  let! (l, elems) := decodeFull_loop 0 16 elems cachegen in
  let! (val, _) := of_rlp NodeRlp (SplitString elems) in
  Ok (fullNode (l ++ [if 0 <? zlen val then valueNode val else nilNode]) (mkFlag hash cachegen false)).

Definition decodeNode_body (hash : option bytes) (buf : bytes) (cachegen : Z) : outcome node_err node :=
  if zlen buf =? 0 then Err (mkNodeErr NodeUnexpectedEOF [])
  else
    let! (elems, _) := of_rlp NodeDecodeError (SplitList buf) in
    let! c := match CountValues elems with Ok c => Ok c | Err _ => Ok 0 | Panic => Panic end in
    if c =? 2 then wrapError (decodeShort hash elems cachegen) PathShort
    else if c =? 17 then wrapError (decodeFull hash elems cachegen) PathFull
    else Err (mkNodeErr (NodeBadCount c) []).

End Decode.

(** Embedded nodes are decoded from the content of the list they are in, which
    is shorter than the list, so its length bounds the nesting. *)
Fixpoint decodeNode_fuel (fuel : nat) (hash : option bytes) (buf : bytes) (cachegen : Z) :
    outcome node_err node :=
  match fuel with
  | O => Err (mkNodeErr NodeOutOfFuel [])
  | S fuel' => decodeNode_body (decodeNode_fuel fuel') hash buf cachegen
  end.

Definition decodeNode (hash : option bytes) (buf : bytes) (cachegen : Z) : outcome node_err node :=
  decodeNode_fuel (S (length buf)) hash buf cachegen.

Definition mustDecodeNode {E} (hash : option bytes) (buf : bytes) (cachegen : Z) : outcome E node :=
  match decodeNode hash buf cachegen with Ok n => Ok n | Err _ | Panic => Panic end.
