(* ===== verification/Trie.v ===== *)
(** The Merkle Patricia trie: [trie/trie.go] and [trie/hasher.go].

    [insert], [delete] and [tryGet] follow the methods of [Trie]; a subtrie that
    is not in memory is a hash node, which [resolveHash] loads from the
    database.  Recursion through loaded nodes is bounded by fuel: every two
    steps consume an element of the key when short nodes have a key, which
    the theorems prove to be enough.  [prefix] is only reported in errors.

    Hashing and committing a trie: [trie/hasher.go], [Hash] and [Commit] of
    [trie/trie.go].

    The hasher writes nodes to a database while it walks the trie, so it runs in
    a state monad over that database; no database (nil) means hashing only. *)
From S2P Require Import Prelude RlpEncode RlpRaw Storage IstanbulTypes ValidatorSet TrieNode.

(** [common.BytesToHash]: crops from the left, pads on the left. *)
Definition BytesToHash (b : bytes) : hash :=
  let b := if zlen b >? HashLength then drop (Z.to_nat (zlen b - HashLength)) b else b in
  replicate (Z.to_nat (HashLength - zlen b)) 0 ++ b.

Lemma BytesToHash_id h : zlen h = 32 -> BytesToHash h = h.
Proof. intros Hl. unfold BytesToHash. change HashLength with 32. rewrite Hl. change (32 >? 32) with false. cbv iota zeta. by rewrite Hl. Qed.

(** Keccak256 of the encoding of an empty string. *)
Definition emptyRoot : hash := be_pad 32
  0x56e81f171bcc55a6ff8345e692c0f86e5b48e01b996cadc001622fb5e363b421.

Inductive trie_err :=
| MissingNodeError (NodeHash : hash) (Path : bytes)
| PutError
| TrieOutOfFuel.

Record Trie (DB : Type) := mkTrie {
  t_root : node;
  t_db : option DB;
  t_originalRoot : hash;
  t_cachegen : Z;
  t_cachelimit : Z
}.
Arguments mkTrie {DB} _ _ _ _ _.
Arguments t_root {DB} _.
Arguments t_db {DB} _.
Arguments t_originalRoot {DB} _.
Arguments t_cachegen {DB} _.
Arguments t_cachelimit {DB} _.

Section TrieOps.
Context {DB : Type} `{Database DB}.

Definition set_root (t : Trie DB) (n : node) : Trie DB :=
  mkTrie n (t_db t) (t_originalRoot t) (t_cachegen t) (t_cachelimit t).

Definition SetCacheLimit (t : Trie DB) (l : Z) : Trie DB :=
  mkTrie (t_root t) (t_db t) (t_originalRoot t) (t_cachegen t) l.

Section WithTrie.
Context (t : Trie DB).

Definition newFlag : nodeFlag := mkFlag None (t_cachegen t) true.

(** A nil database is dereferenced. *)
Definition resolveHash (n prefix : bytes) : outcome trie_err node :=
  match t_db t with
  | None => Panic
  | Some db =>
      match db_Get n db with
      | None => Err (MissingNodeError (BytesToHash n) prefix)
      | Some enc => mustDecodeNode (Some n) enc (t_cachegen t)
      end
  end.

Definition resolve (n : node) (prefix : bytes) : outcome trie_err node :=
  match n with hashNode h => resolveHash h prefix | _ => Ok n end.

Definition set_gen (f : nodeFlag) : nodeFlag := mkFlag (nf_hash f) (t_cachegen t) (nf_dirty f).

(** [Children[i]] and its assignment, for a byte index. *)
Definition child (cs : list node) (i : Z) : option node := cs !! Z.to_nat i.
Definition set_child (cs : list node) (i : Z) (n : node) : list node := <[Z.to_nat i := n]> cs.

(** [tryGet]: value, new node, whether a node was loaded. *)
Fixpoint tryGet (fuel : nat) (origNode : node) (key : bytes) (pos : nat) :
    outcome trie_err (option bytes * node * bool) :=
  match fuel with
  | O => Err TrieOutOfFuel
  | S fuel' =>
      match origNode with
      | nilNode => Ok (None, nilNode, false)
      | valueNode v => Ok (Some v, origNode, false)
      | shortNode k v f =>
          if (length key - pos <? length k)%nat
             || negb (bool_decide (k = take (length k) (drop pos key))) then Ok (None, origNode, false)
          else
            let! (value, newnode, didResolve) := tryGet fuel' v key (pos + length k) in
            Ok (value, (if didResolve then shortNode k newnode (set_gen f) else origNode), didResolve)
      | fullNode cs f =>
          match key !! pos with
          | None => Panic
          | Some x =>
              match child cs x with
              | None => Panic
              | Some c =>
                  let! (value, newnode, didResolve) := tryGet fuel' c key (pos + 1) in
                  Ok (value, (if didResolve then fullNode (set_child cs x newnode) (set_gen f) else origNode),
                      didResolve)
              end
          end
      | hashNode h =>
          let! child := resolveHash h (take pos key) in
          let! (value, newnode, _) := tryGet fuel' child key pos in
          Ok (value, newnode, true)
      end
  end.

(** [insert]: whether the trie changed, and the new node. *)
Fixpoint insert (fuel : nat) (n : node) (prefix key : bytes) (value : node) :
    outcome trie_err (bool * node) :=
  match fuel with
  | O => Err TrieOutOfFuel
  | S fuel' =>
      match key with
      | [] =>
          match n with
          | valueNode v =>
              match value with
              | valueNode w => Ok (negb (bool_decide (v = w)), value)
              | _ => Panic
              end
          | _ => Ok (true, value)
          end
      | k0 :: krest =>
          match n with
          | shortNode nKey nVal _ =>
              let matchlen := prefixLen key nKey in
              if (matchlen =? length nKey)%nat then
                let! (dirty, nn) :=
                  insert fuel' nVal (prefix ++ take matchlen key) (drop matchlen key) value in
                if negb dirty then Ok (false, n) else Ok (true, shortNode nKey nn newFlag)
              else
                match nKey !! matchlen, key !! matchlen with
                | Some x, Some y =>
                    let empty := replicate 17 nilNode in
                    let! (_, c1) := insert fuel' nilNode (prefix ++ take (S matchlen) nKey)
                      (drop (S matchlen) nKey) nVal in
                    let! branch := if x <=? 16 then Ok (set_child empty x c1) else Panic in
                    let! (_, c2) := insert fuel' nilNode (prefix ++ take (S matchlen) key)
                      (drop (S matchlen) key) value in
                    let! branch := if y <=? 16 then Ok (set_child branch y c2) else Panic in
                    if (matchlen =? 0)%nat then Ok (true, fullNode branch newFlag)
                    else Ok (true, shortNode (take matchlen key) (fullNode branch newFlag) newFlag)
                | _, _ => Panic
                end
          | fullNode cs f =>
              match child cs k0 with
              | None => Panic
              | Some c =>
                  let! (dirty, nn) := insert fuel' c (prefix ++ [k0]) krest value in
                  if negb dirty then Ok (false, n)
                  else Ok (true, fullNode (set_child cs k0 nn) newFlag)
              end
          | nilNode => Ok (true, shortNode key value newFlag)
          | hashNode h =>
              let! rn := resolveHash h prefix in
              let! (dirty, nn) := insert fuel' rn prefix key value in
              if negb dirty then Ok (false, rn) else Ok (true, nn)
          | valueNode _ => Panic
          end
      end
  end.

(** The loop that looks for a single remaining child: [-1] for none, [-2] for
    at least two. *)
Fixpoint single_child (i pos : Z) (cs : list node) : Z :=
  match cs with
  | [] => pos
  | nilNode :: cs' => single_child (i + 1) pos cs'
  | _ :: cs' => if pos =? -1 then single_child (i + 1) i cs' else -2
  end.

(** What [delete] does with a full node after the deletion in a child. *)
Definition reduce_full (cs : list node) (prefix : bytes) : outcome trie_err (bool * node) :=
  let pos := single_child 0 (-1) cs in
  if pos >=? 0 then
    match child cs pos with
    | None => Panic
    | Some c =>
        let! cnode := if negb (pos =? 16) then resolve c prefix else Ok nilNode in
        match cnode with
        | shortNode k v _ => Ok (true, shortNode (pos :: k) v newFlag)
        | _ => Ok (true, shortNode [pos] c newFlag)
        end
    end
  else Ok (true, fullNode cs newFlag).

Fixpoint trie_delete (fuel : nat) (n : node) (prefix key : bytes) : outcome trie_err (bool * node) :=
  match fuel with
  | O => Err TrieOutOfFuel
  | S fuel' =>
      match n with
      | shortNode nKey nVal _ =>
          let matchlen := prefixLen key nKey in
          if (matchlen <? length nKey)%nat then Ok (false, n)
          else if (matchlen =? length key)%nat then Ok (true, nilNode)
          else
            let! (dirty, child) :=
              trie_delete fuel' nVal (prefix ++ take (length nKey) key) (drop (length nKey) key) in
            if negb dirty then Ok (false, n)
            else
              match child with
              | shortNode cKey cVal _ => Ok (true, shortNode (nKey ++ cKey) cVal newFlag)
              | _ => Ok (true, shortNode nKey child newFlag)
              end
      | fullNode cs f =>
          match key with
          | [] => Panic
          | k0 :: krest =>
              match child cs k0 with
              | None => Panic
              | Some c =>
                  let! (dirty, nn) := trie_delete fuel' c (prefix ++ [k0]) krest in
                  if negb dirty then Ok (false, n) else reduce_full (set_child cs k0 nn) prefix
              end
          end
      | valueNode _ => Ok (true, nilNode)
      | nilNode => Ok (false, nilNode)
      | hashNode h =>
          let! rn := resolveHash h prefix in
          let! (dirty, nn) := trie_delete fuel' rn prefix key in
          if negb dirty then Ok (false, rn) else Ok (true, nn)
      end
  end.

End WithTrie.

(** [New]; the database is nil in a trie that is never loaded. *)
Definition Trie_New (root : hash) (db : option DB) : outcome trie_err (Trie DB) :=
  let trie := mkTrie nilNode db root 0 0 in
  if negb (bool_decide (root = zero_hash)) && negb (bool_decide (root = emptyRoot)) then
    match db with
    | None => Panic
    | Some _ => let! rootnode := resolveHash trie root [] in Ok (set_root trie rootnode)
    end
  else Ok trie.

(** Steps enough for a key when every short node has a non-empty key. *)
Definition key_fuel (k : bytes) : nat := S (S (2 * length k)).

(** [TryGet] keeps the nodes it loaded. *)
Definition TryGet (t : Trie DB) (key : bytes) : outcome trie_err (option bytes * Trie DB) :=
  let key := keybytesToHex key in
  let! (value, newroot, didResolve) := tryGet t (key_fuel key) (t_root t) key 0 in
  Ok (value, if didResolve then set_root t newroot else t).

(** [TryUpdate]: an empty value deletes. *)
Definition TryUpdate (t : Trie DB) (key value : bytes) : outcome trie_err (Trie DB) :=
  let k := keybytesToHex key in
  let! (_, n) :=
    if negb (zlen value =? 0) then insert t (key_fuel k) (t_root t) [] k (valueNode value)
    else trie_delete t (key_fuel k) (t_root t) [] k in
  Ok (set_root t n).

Definition TryDelete (t : Trie DB) (key : bytes) : outcome trie_err (Trie DB) :=
  let k := keybytesToHex key in
  let! (_, n) := trie_delete t (key_fuel k) (t_root t) [] k in
  Ok (set_root t n).

(** [Get], [Update] and [Delete] log the error of the [Try] method and go on
    with the old trie. *)
Definition Trie_Get (t : Trie DB) (key : bytes) : outcome trie_err (option bytes * Trie DB) :=
  match TryGet t key with Err _ => Ok (None, t) | r => r end.

Definition Trie_Update (t : Trie DB) (key value : bytes) : outcome trie_err (Trie DB) :=
  match TryUpdate t key value with Err _ => Ok t | r => r end.

Definition Trie_Delete (t : Trie DB) (key : bytes) : outcome trie_err (Trie DB) :=
  match TryDelete t key with Err _ => Ok t | r => r end.

End TrieOps.

Section Hasher.
Context `{Crypto} {DB : Type} `{Database DB}.

(** Computations with the database writer of the hasher. *)
Definition HM (A : Type) : Type := option DB -> outcome trie_err A * option DB.

Definition hret {A} (a : A) : HM A := fun db => (Ok a, db).
Definition hlift {A} (o : outcome trie_err A) : HM A := fun db => (o, db).
Definition hbind {A B} (m : HM A) (f : A -> HM B) : HM B := fun db =>
  match m db with
  | (Ok a, db') => f a db'
  | (Err e, db') => (Err e, db')
  | (Panic, db') => (Panic, db')
  end.

(** [db.Put]. *)
Definition hput (k v : bytes) : HM unit := fun db =>
  match db with
  | None => (Ok tt, db)
  | Some d => match db_Put k v d with Some d' => (Ok tt, Some d') | None => (Err PutError, db) end
  end.

Section WithHasher.
Context (cachegen cachelimit : Z).

(** [store]: small nodes stay inside their parent, unless [force]. *)
Definition hasher_store (n : node) (force : bool) : HM node :=
  match n with
  | nilNode | hashNode _ => hret n
  | _ =>
      match EncodeToBytes (node_EncodeRLP n) with
      | Ok tmp =>
          if (zlen tmp <? 32) && negb force then hret n
          else
            hbind (hlift (node_cache n)) (fun '(h, _) =>
            let h := match h with Some h => h | None => Keccak256 tmp end in
            hbind (hput h tmp) (fun _ => hret (hashNode h)))
      | _ => hlift Panic
      end
  end.

Section Children.
Context (hash : node -> bool -> HM (node * node)).

(** The loop over the first sixteen children; the seventeenth is a value. *)
Fixpoint hash_children_loop (i : nat) (cs : list node) : HM (list node * list node) :=
  match cs with
  | [] => hret ([], [])
  | c :: cs' =>
      hbind
        (if (i <? 16)%nat then
           match c with
           | nilNode => hret (valueNode [], nilNode)
           | _ => hash c false
           end
         else hret (match c with nilNode => valueNode [] | _ => c end, c))
        (fun '(c1, c2) =>
      hbind (hash_children_loop (S i) cs') (fun '(l1, l2) => hret (c1 :: l1, c2 :: l2)))
  end.

Definition hashChildren (original : node) : HM (node * node) :=
  match original with
  | shortNode k v f =>
      hbind (hlift (hexToCompact k)) (fun ck =>
      hbind (match v with valueNode _ => hret (v, v) | _ => hash v false end) (fun '(v1, v2) =>
      let v1 := match v1 with nilNode => valueNode [] | _ => v1 end in
      hret (shortNode ck v1 f, shortNode k v2 f)))
  | fullNode cs f =>
      hbind (hash_children_loop 0 cs) (fun '(l1, l2) => hret (fullNode l1 f, fullNode l2 f))
  | _ => hret (original, original)
  end.
End Children.

(** The hash is cached; in commit mode the node is clean from now on. *)
Definition cache_hash (hashed cached : node) (commit : bool) : node :=
  let flags f :=
    mkFlag (match hashed with hashNode h => Some h | _ => None end) (nf_gen f)
      (if commit then false else nf_dirty f) in
  match cached with
  | shortNode k v f => shortNode k v (flags f)
  | fullNode cs f => fullNode cs (flags f)
  | _ => cached
  end.

(** The cached hash, when it can be used without walking the children. *)
Definition use_cached (n : node) (commit : bool) (h : option bytes) (dirty : bool) : option (node * node) :=
  match h with
  | None => None
  | Some h =>
      if negb commit then Some (hashNode h, n)
      else if node_canUnload n cachegen cachelimit then Some (hashNode h, hashNode h)
      else if negb dirty then Some (hashNode h, n)
      else None
  end.

Definition is_commit : HM bool := fun db => (Ok (match db with Some _ => true | None => false end), db).

(** [hash]: the collapsed node and the node to keep in memory. *)
Fixpoint hasher_hash (n : node) (force : bool) {struct n} : HM (node * node) :=
  hbind (hlift (node_cache n)) (fun '(h, dirty) =>
  hbind is_commit (fun commit =>
  match use_cached n commit h dirty with
  | Some r => hret r
  | None =>
      hbind (hashChildren hasher_hash n) (fun '(collapsed, cached) =>
      hbind (hasher_store collapsed force) (fun hashed =>
      hret (hashed, cache_hash hashed cached commit)))
  end)).

End WithHasher.

(** [hashRoot] against the given database writer. *)
Definition hashRoot (t : Trie DB) : HM (node * node) :=
  match t_root t with
  | nilNode => hret (hashNode emptyRoot, nilNode)
  | n => hasher_hash (t_cachegen t) (t_cachelimit t) n true
  end.

Definition node_hash_bytes (n : node) : outcome trie_err hash :=
  match n with hashNode h => Ok (BytesToHash h) | _ => Panic end.

(** [Hash] ignores the error, which only a database can cause. *)
Definition Trie_Hash (t : Trie DB) : outcome trie_err (hash * Trie DB) :=
  match (hashRoot t None).1 with
  | Ok (h, cached) => let! h := node_hash_bytes h in Ok (h, set_root t cached)
  | Err _ => Ok (BytesToHash [], t)
  | Panic => Panic
  end.

(** [CommitTo]: the root, the trie and the database written to. *)
Definition CommitTo (t : Trie DB) (db : DB) : outcome trie_err (hash * Trie DB) * option DB :=
  match hashRoot t (Some db) with
  | (Ok (h, cached), db') =>
      (let! h := node_hash_bytes h in
       Ok (h, mkTrie cached (t_db t) (t_originalRoot t) (u16 (t_cachegen t + 1)) (t_cachelimit t)), db')
  | (Err e, db') => (Err e, db')
  | (Panic, db') => (Panic, db')
  end.

(** [Commit] writes to the database of the trie itself. *)
Definition Trie_Commit (t : Trie DB) : outcome trie_err (hash * Trie DB) * option DB :=
  match t_db t with
  | None => (Panic, None)
  | Some db =>
      match CommitTo t db with
      | (Ok (h, t'), db') =>
          (Ok (h, mkTrie (t_root t') db' (t_originalRoot t') (t_cachegen t') (t_cachelimit t')), db')
      | r => r
      end
  end.

End Hasher.
