(* ===== verification/TrieTree.v ===== *)
(** The abstract trie: trees without caches or unloaded parts, the keys they
    hold, and their canonical form.

    [has t k v] says that the tree holds the value [v] at the hex key [k].
    Canonical trees are what the comments of [trie/trie.go] call minimal form:
    a full node has at least two children, a short node ends in a value or leads
    to a full node.  The main result is that the contents determine a
    canonical tree. *)
From S2P Require Import Prelude TrieNode.

Inductive tree :=
| TNil
| TVal (v : bytes)
| TShort (k : bytes) (t : tree)
| TFull (cs : list tree).

Section TreeInd.
Context (P : tree -> Prop) (Hnil : P TNil) (Hval : forall v, P (TVal v))
  (Hshort : forall k t, P t -> P (TShort k t)) (Hfull : forall cs, Forall P cs -> P (TFull cs)).

Fixpoint tree_ind' (t : tree) : P t :=
  match t with
  | TNil => Hnil
  | TVal v => Hval v
  | TShort k t => Hshort k t (tree_ind' t)
  | TFull cs => Hfull cs ((fix go l : Forall P l :=
      match l with [] => List.Forall_nil P | c :: l' => List.Forall_cons P c l' (tree_ind' c) (go l') end) cs)
  end.
End TreeInd.

Inductive has : tree -> bytes -> bytes -> Prop :=
| has_val v : has (TVal v) [] v
| has_short k t key v : has t key v -> has (TShort k t) (k ++ key) v
| has_full cs x c key v : 0 <= x -> cs !! Z.to_nat x = Some c -> has c key v -> has (TFull cs) (x :: key) v.

Inductive canon : tree -> Prop :=
| canon_leaf k v : hexkey k -> v <> [] -> canon (TShort k (TVal v))
| canon_ext k cs : nibbles_ok k -> k <> [] -> canon (TFull cs) -> canon (TShort k (TFull cs))
| canon_full cs :
    length cs = 17%nat ->
    (forall i c, (i < 16)%nat -> cs !! i = Some c -> c = TNil \/ canon c) ->
    (forall c, cs !! 16%nat = Some c -> c = TNil \/ exists v, c = TVal v /\ v <> []) ->
    (exists i j ci cj, i <> j /\ cs !! i = Some ci /\ cs !! j = Some cj /\ ci <> TNil /\ cj <> TNil) ->
    canon (TFull cs).

(** The subtree a position with remaining key [key] can hold: a value when the
    terminator is consumed, a canonical tree before. *)
Definition slot (key : bytes) (t : tree) : Prop :=
  t = TNil \/ match key with [] => exists v, t = TVal v /\ v <> [] | _ => canon t end.

(** Remaining keys: complete ones, or the empty one behind the terminator. *)
Definition rest_ok (key : bytes) : Prop := key = [] \/ hexkey key.

#[export] Hint Constructors has : trie_db.

(** ** Keys *)

Lemma hexkey_cons x k : hexkey (x :: k) <-> (x = 16 /\ k = []) \/ (is_nibble x /\ hexkey k).
Proof.
  split.
  - intros ([|y ns] & Hns & E); simpl in E; injection E as -> ->; [by left|].
    inversion_clear Hns. right. split; [done|]. by exists ns.
  - intros [[-> ->]|[Hx (ns & Hns & ->)]]; [by exists []|]. exists (x :: ns). split; [by constructor|done].
Qed.

Lemma hexkey_nonempty k : hexkey k -> k <> [].
Proof. intros (ns & _ & ->) E. by destruct ns. Qed.

Lemma hexkey_index x k : hexkey (x :: k) -> 0 <= x <= 16.
Proof. rewrite hexkey_cons. unfold is_nibble. lia. Qed.

Lemma rest_ok_cons x k : hexkey (x :: k) -> rest_ok k.
Proof. rewrite hexkey_cons. intros [[_ ->]|[_ Hk]]; [by left|by right]. Qed.

Lemma hexkey_prefix p q r : hexkey (p ++ q) -> hexkey (p ++ r) -> q <> [] -> r <> [] -> nibbles_ok p.
Proof.
  revert q r. induction p as [|x p IH]; intros q r Hq Hr Nq Nr; [done|]. simpl in *.
  apply hexkey_cons in Hq, Hr. destruct Hq as [[_ E]|[Hx Hq]]; [by destruct p, q|].
  destruct Hr as [[-> _]|[_ Hr]]; [unfold is_nibble in Hx; lia|].
  constructor; [done|]. by eapply IH.
Qed.

Lemma hexkey_app p q : nibbles_ok p -> hexkey (p ++ q) <-> hexkey q.
Proof.
  induction 1 as [|x p Hx _ IH]; simpl; [done|]. rewrite hexkey_cons, IH.
  unfold is_nibble in Hx. split; [|by right]. intros [[Ex _]|[_ ?]]; [lia|done].
Qed.

(** No key is a proper prefix of another one. *)
Lemma hexkey_prefix_free k r : hexkey k -> hexkey (k ++ r) -> r = [].
Proof.
  revert r. induction k as [|x k IH]; intros r H1 H2; [by apply hexkey_nonempty in H1|].
  simpl in H2. apply hexkey_cons in H1, H2.
  destruct H1 as [[Ex ->]|[Hx H1]], H2 as [[Ex' E]|[Hx' H2]]; simpl in *; unfold is_nibble in *; try lia; auto.
Qed.

(** ** Inversion of [has] *)

Lemma has_nil_inv key v : ~ has TNil key v.
Proof. intros H. inversion H. Qed.

Lemma has_val_inv w key v : has (TVal w) key v <-> key = [] /\ w = v.
Proof. split; [intros H; by inversion H|]. intros [-> ->]. constructor. Qed.

Lemma has_short_inv k t key v : has (TShort k t) key v <-> exists key', key = k ++ key' /\ has t key' v.
Proof. split; [intros H; inversion H; subst; eauto|]. intros (key' & -> & H). by constructor. Qed.

Lemma has_full_inv cs key v :
  has (TFull cs) key v <-> exists x key' c, key = x :: key' /\ 0 <= x /\ cs !! Z.to_nat x = Some c /\ has c key' v.
Proof.
  split; [intros H; inversion H; subst; naive_solver|].
  intros (x & key' & c & -> & Hx & Hc & H). by econstructor.
Qed.

Lemma has_full_cons cs x key v c : 0 <= x -> cs !! Z.to_nat x = Some c ->
  has (TFull cs) (x :: key) v <-> has c key v.
Proof.
  intros Hx Hc. rewrite has_full_inv. split.
  - intros (y & key' & c' & [= <- <-] & _ & Hc' & H). by simplify_eq.
  - intros H. eauto 10.
Qed.

Lemma has_short_app k t key v : has (TShort k t) (k ++ key) v <-> has t key v.
Proof.
  rewrite has_short_inv. split; [|by eauto].
  intros (key' & E & H). apply app_inv_head in E. by subst.
Qed.

(** ** Canonical trees *)

Lemma canon_full_inv cs : canon (TFull cs) ->
  length cs = 17%nat /\
  (forall i c, (i < 16)%nat -> cs !! i = Some c -> c = TNil \/ canon c) /\
  (forall c, cs !! 16%nat = Some c -> c = TNil \/ exists v, c = TVal v /\ v <> []) /\
  (exists i j ci cj, i <> j /\ cs !! i = Some ci /\ cs !! j = Some cj /\ ci <> TNil /\ cj <> TNil).
Proof. intros H. by inversion H; subst. Qed.

(** The child of a full node fits the rest of the key. *)
Lemma canon_child cs x key c : canon (TFull cs) -> hexkey (x :: key) -> cs !! Z.to_nat x = Some c -> slot key c.
Proof.
  intros (_ & Hc & Hv & _)%canon_full_inv Hk E. apply hexkey_cons in Hk as [[-> ->]|[Hx Hk]].
  - apply Hv in E as [->|E]; [by left|by right].
  - unfold is_nibble in Hx. apply Hc in E as [->|E]; [by left| |lia].
    right. pose proof (hexkey_nonempty _ Hk). by destruct key.
Qed.

Lemma canon_not_nil t : canon t -> t <> TNil.
Proof. by destruct 1. Qed.

Lemma canon_not_val v : ~ canon (TVal v).
Proof. intros H. inversion H. Qed.

(** Every key of a canonical tree is complete, and there is at least one. *)
Lemma canon_keys t : canon t -> forall key v, has t key v -> hexkey key /\ v <> [].
Proof.
  induction t as [|w|k t IH|cs IH] using tree_ind'; intros Hc key v Hh.
  - by inversion Hc.
  - by inversion Hc.
  - apply has_short_inv in Hh as (key' & -> & Hh). inversion Hc as [? w Hk Hw|? cs Hk Hne Hc'|]; subst.
    + apply has_val_inv in Hh as [-> ->]. by rewrite app_nil_r.
    + destruct (IH Hc' _ _ Hh). split; [|done]. by apply hexkey_app.
  - apply has_full_inv in Hh as (x & key' & c & -> & Hx & E & Hh).
    apply canon_full_inv in Hc as (Hl & Hc & Hv & _). pose proof (lookup_lt_Some _ _ _ E) as Hlt.
    destruct (decide (Z.to_nat x < 16)%nat) as [L|L].
    + destruct (Hc _ _ L E) as [->|Hcc]; [by apply has_nil_inv in Hh|].
      rewrite Forall_lookup in IH. destruct (IH _ _ E Hcc _ _ Hh). split; [|done].
      apply hexkey_cons. right. split; [unfold is_nibble; lia|done].
    + assert (x = 16) as -> by lia. destruct (Hv _ E) as [->|(w & -> & Hw)]; [by apply has_nil_inv in Hh|].
      apply has_val_inv in Hh as [-> ->]. split; [|done]. apply hexkey_cons. by left.
Qed.

Lemma canon_inhabited t : canon t -> exists key v, has t key v.
Proof.
  induction t as [|w|k t IH|cs IH] using tree_ind'; intros Hc; try by inversion Hc.
  - inversion Hc as [? w Hk Hw|? cs Hk Hne Hc'|]; subst; [eauto with trie_db|].
    destruct (IH Hc') as (key & v & Hh). eauto with trie_db.
  - apply canon_full_inv in Hc as (Hl & Hc & Hv & i & _ & c & _ & _ & E & _ & Hn & _).
    pose proof (lookup_lt_Some _ _ _ E) as Hlt. rewrite <- (Nat2Z.id i) in E.
    destruct (decide (i < 16)%nat) as [L|L].
    + rewrite Nat2Z.id in E. destruct (Hc _ _ L E) as [->|Hcc]; [done|].
      rewrite Forall_lookup in IH. destruct (IH _ _ E Hcc) as (key & v & Hh).
      rewrite <- (Nat2Z.id i) in E. exists (Z.of_nat i :: key), v. econstructor; eauto with lia.
    + rewrite Nat2Z.id in E. assert (i = 16%nat) as -> by lia.
      destruct (Hv _ E) as [->|(w & -> & Hw)]; [done|]. exists [16], w.
      by apply (has_full cs 16 (TVal w)); [|exact E|constructor].
Qed.

Lemma slot_inhabited key t : slot key t -> t <> TNil -> exists key' v, has t key' v.
Proof.
  intros [->|Hs] Hn; [done|]. destruct key; [|by apply canon_inhabited].
  destruct Hs as (v & -> & _). eauto with trie_db.
Qed.

Lemma child_inhabited cs i c : canon (TFull cs) -> cs !! i = Some c -> c <> TNil ->
  exists key v, has (TFull cs) (Z.of_nat i :: key) v.
Proof.
  intros Hc E Hn. pose proof (canon_full_inv cs Hc) as (Hl & _). pose proof (lookup_lt_Some _ _ _ E) as Hlt.
  assert (exists key, hexkey (Z.of_nat i :: key)) as [key Hk].
  { destruct (decide (i = 16%nat)) as [->|]; [exists []; apply hexkey_cons; by left|].
    exists [16]. apply hexkey_cons. right. split; [unfold is_nibble; lia|by exists []]. }
  destruct (slot_inhabited key c) as (key' & v & Hh); [|done|].
  - apply (canon_child cs (Z.of_nat i)); [done..|]. by rewrite Nat2Z.id.
  - exists key', v. apply (has_full cs (Z.of_nat i) c); [lia|by rewrite Nat2Z.id|done].
Qed.

(** A full node holds two keys that differ in their first element. *)
Lemma full_two_keys cs : canon (TFull cs) -> exists x y k1 k2 v1 v2,
  x <> y /\ has (TFull cs) (x :: k1) v1 /\ has (TFull cs) (y :: k2) v2.
Proof.
  intros Hc. pose proof (canon_full_inv cs Hc) as (_ & _ & _ & i & j & ci & cj & Hij & Ei & Ej & Ni & Nj).
  destruct (child_inhabited cs i ci Hc Ei Ni) as (k1 & v1 & H1).
  destruct (child_inhabited cs j cj Hc Ej Nj) as (k2 & v2 & H2).
  exists (Z.of_nat i), (Z.of_nat j), k1, k2, v1, v2. split; [lia|done].
Qed.

(** ** Contents determine the tree *)

Definition same_contents (t1 t2 : tree) : Prop := forall key v, has t1 key v <-> has t2 key v.

Lemma same_contents_sym t1 t2 : same_contents t1 t2 -> same_contents t2 t1.
Proof. intros H key v. by rewrite (H key v). Qed.

(** Two nibble strings, each of which starts two diverging keys that also start with the other. *)
Lemma diverging_prefix_le (k1 k2 : bytes) x y a b a' b' : x <> y ->
  k1 ++ x :: a = k2 ++ a' -> k1 ++ y :: b = k2 ++ b' -> exists r, k1 = k2 ++ r.
Proof.
  intros Hne. revert k2. induction k1 as [|z k1 IH]; intros [|w k2] E1 E2; simpl in *; eauto.
  - congruence.
  - injection E1 as -> E1. injection E2 as E2. destruct (IH k2 E1 E2) as [r ->]. eauto.
Qed.

Lemma ext_prefix_le k1 k2 cs t : canon (TFull cs) ->
  same_contents (TShort k1 (TFull cs)) (TShort k2 t) -> exists r, k1 = k2 ++ r.
Proof.
  intros Hc S. destruct (full_two_keys cs Hc) as (x & y & a & b & v1 & v2 & Hne & H1 & H2).
  apply (has_short k1), S, has_short_inv in H1 as (a' & E1 & _).
  apply (has_short k1), S, has_short_inv in H2 as (b' & E2 & _).
  by eapply diverging_prefix_le.
Qed.

Lemma ext_prefix_eq k1 k2 cs1 cs2 : canon (TFull cs1) -> canon (TFull cs2) ->
  same_contents (TShort k1 (TFull cs1)) (TShort k2 (TFull cs2)) -> k1 = k2.
Proof.
  intros H1 H2 S. destruct (ext_prefix_le _ _ _ _ H1 S) as [r E1].
  destruct (ext_prefix_le _ _ _ _ H2 (same_contents_sym _ _ S)) as [r' E2].
  rewrite E1, <- app_assoc in E2. rewrite <- (app_nil_r k2) in E2 at 1. apply app_inv_head in E2.
  destruct r; [by rewrite app_nil_r in E1|done].
Qed.

(** A leaf holds one key, a short node only keys with its first element. *)
Lemma leaf_full_differ k w cs : canon (TFull cs) -> ~ same_contents (TShort k (TVal w)) (TFull cs).
Proof.
  intros Hc S. destruct (full_two_keys cs Hc) as (x & y & a & b & v1 & v2 & Hne & H1 & H2).
  apply S, has_short_inv in H1 as (r1 & E1 & [-> _]%has_val_inv).
  apply S, has_short_inv in H2 as (r2 & E2 & [-> _]%has_val_inv). congruence.
Qed.

Lemma short_full_differ k t cs : k <> [] -> canon (TFull cs) -> ~ same_contents (TShort k t) (TFull cs).
Proof.
  intros Hk Hc S. destruct (full_two_keys cs Hc) as (x & y & a & b & v1 & v2 & Hne & H1 & H2).
  apply S, has_short_inv in H1 as (r1 & E1 & _). apply S, has_short_inv in H2 as (r2 & E2 & _).
  destruct k; [done|]. simpl in *. congruence.
Qed.

Lemma leaf_ext_differ k1 w k2 cs : canon (TFull cs) -> ~ same_contents (TShort k1 (TVal w)) (TShort k2 (TFull cs)).
Proof.
  intros Hc S. destruct (full_two_keys cs Hc) as (x & y & a & b & v1 & v2 & Hne & H1 & H2).
  apply (has_short k2), S, has_short_inv in H1 as (r1 & E1 & [-> _]%has_val_inv).
  apply (has_short k2), S, has_short_inv in H2 as (r2 & E2 & [-> _]%has_val_inv).
  assert (E : k2 ++ x :: a = k2 ++ y :: b) by congruence. apply app_inv_head in E. congruence.
Qed.

Lemma same_contents_child cs1 cs2 i c1 c2 : same_contents (TFull cs1) (TFull cs2) ->
  cs1 !! i = Some c1 -> cs2 !! i = Some c2 -> same_contents c1 c2.
Proof.
  intros S E1 E2 key v. rewrite <- (Nat2Z.id i) in E1, E2.
  rewrite <- (has_full_cons cs1 (Z.of_nat i) key v c1) by (done || lia). rewrite (S _ _).
  by rewrite (has_full_cons cs2 (Z.of_nat i) key v c2) by (done || lia).
Qed.

Lemma slot_nil_same key t1 t2 : slot key t2 -> t1 = TNil -> same_contents t1 t2 -> t2 = TNil.
Proof.
  intros Hs -> S. destruct t2 eqn:E; [done|..]; rewrite <- E in *;
    (destruct (slot_inhabited key t2) as (k' & w' & Hh); [done|by rewrite E|]);
    apply S in Hh; by apply has_nil_inv in Hh.
Qed.

Lemma slot_val_same v1 t2 : slot [] t2 -> same_contents (TVal v1) t2 -> t2 = TVal v1.
Proof.
  intros [->|(v & -> & _)] S.
  - destruct (has_nil_inv [] v1). apply S. constructor.
  - assert (has (TVal v) [] v1) as [_ ->]%has_val_inv by (apply S; constructor). done.
Qed.

Theorem canon_unique t1 : forall t2, canon t1 -> canon t2 -> same_contents t1 t2 -> t1 = t2.
Proof.
  induction t1 as [|w|k1 t1 IH|cs1 IH] using tree_ind'; intros t2 H1 H2 S; try by inversion H1.
  - inversion H1 as [? w Hk Hw|? cs Hk Hne Hc'|]; subst; inversion H2 as [k2 w2 Hk2 Hw2|k2 cs2 Hk2 Hne2 Hc2|cs2]; subst.
    + assert (has (TShort k2 (TVal w2)) k1 w) as (key & -> & [-> ->]%has_val_inv)%has_short_inv.
      { apply S. rewrite <- (app_nil_r k1) at 2. repeat constructor. }
      by rewrite app_nil_r.
    + by apply leaf_ext_differ in S.
    + by apply leaf_full_differ in S.
    + by apply same_contents_sym, leaf_ext_differ in S.
    + pose proof (ext_prefix_eq _ _ _ _ Hc' Hc2 S) as ->. f_equal. apply IH; [done..|].
      intros key v. rewrite <- (has_short_app k2), (S _ _). apply has_short_app.
    + by apply short_full_differ in S.
  - inversion H2 as [k2 w2 Hk2 Hw2|k2 cs2 Hk2 Hne2 Hc2|cs2]; subst.
    + by apply same_contents_sym, leaf_full_differ in S.
    + by apply same_contents_sym, short_full_differ in S.
    + f_equal. pose proof (canon_full_inv _ H1) as (L1 & _). pose proof (canon_full_inv _ H2) as (L2 & _).
      apply list_eq_same_length with 17%nat; [done..|]. intros i c1 c2 Hi E1 E2.
      pose proof (same_contents_child _ _ _ _ _ S E1 E2) as Sc.
      assert (exists key, hexkey (Z.of_nat i :: key) /\ (key = [] <-> i = 16%nat)) as (key & Hk & Hk16).
      { destruct (decide (i = 16%nat)) as [->|]; [exists []; split; [apply hexkey_cons; by left|done]|].
        exists [16]. split; [|naive_solver]. apply hexkey_cons. right. split; [unfold is_nibble; lia|by exists []]. }
      pose proof (canon_child cs1 (Z.of_nat i) key c1 H1 Hk ltac:(by rewrite Nat2Z.id)) as S1.
      pose proof (canon_child cs2 (Z.of_nat i) key c2 H2 Hk ltac:(by rewrite Nat2Z.id)) as S2.
      pose proof S1 as [->|S1']; [symmetry; by apply (slot_nil_same key TNil)|].
      destruct key as [|z key]; [destruct S1' as (v & -> & _); symmetry; by apply slot_val_same|].
      pose proof S2 as [->|S2']; [by apply (slot_nil_same (z :: key) TNil c1 S1 eq_refl), same_contents_sym|].
      rewrite Forall_lookup in IH. by apply (IH i c1 E1).
Qed.

(** ** Building canonical trees *)

(** What child [i] of a full node can be. *)
Definition child_ok (i : nat) (c : tree) : Prop :=
  c = TNil \/ if (i <? 16)%nat then canon c else exists v, c = TVal v /\ v <> [].

Definition two_children (cs : list tree) : Prop :=
  exists i j ci cj, i <> j /\ cs !! i = Some ci /\ cs !! j = Some cj /\ ci <> TNil /\ cj <> TNil.

Lemma canon_full_iff cs : canon (TFull cs) <->
  length cs = 17%nat /\ (forall i c, cs !! i = Some c -> child_ok i c) /\ two_children cs.
Proof.
  unfold child_ok. split.
  - intros (Hl & Hc & Hv & H2)%canon_full_inv. split_and!; [done| |done]. intros i c E.
    pose proof (lookup_lt_Some _ _ _ E). destruct (Nat.ltb_spec i 16); [by eapply Hc|].
    assert (i = 16%nat) as -> by lia. auto.
  - intros (Hl & Hc & H2). constructor; [done| | |done].
    + intros i c Hi E. specialize (Hc i c E). by rewrite (proj2 (Nat.ltb_lt i 16) Hi) in Hc.
    + intros c E. apply (Hc 16%nat c E).
Qed.

(** A path in front of a tree. *)
Definition pre (p : bytes) (t : tree) : tree := match p with [] => t | _ => TShort p t end.

Lemma has_pre p t key v : has (pre p t) key v <-> exists key', key = p ++ key' /\ has t key' v.
Proof.
  destruct p as [|x p]; [|apply has_short_inv]. simpl. split; [by eauto|]. by intros (? & -> & ?).
Qed.

Lemma canon_pre p cs : nibbles_ok p -> canon (TFull cs) -> canon (pre p (TFull cs)).
Proof. intros Hp Hc. destruct p; [done|]. by constructor. Qed.

(** The remainder of a short node below one element of its key. *)
Lemma short_tail_ok p x r s : canon (TShort (p ++ x :: r) s) ->
  nibbles_ok p /\ 0 <= x <= 16 /\ child_ok (Z.to_nat x) (pre r s) /\ pre r s <> TNil.
Proof.
  intros Hc. inversion Hc as [? v Hk Hv E|? cs Hk Hne Hc' E|]; subst; unfold child_ok.
  - assert (Hp : nibbles_ok p) by (apply (hexkey_prefix p (x :: r) (x :: r)); done).
    apply hexkey_app in Hk; [|done]. pose proof (hexkey_index _ _ Hk). split_and!; [done|lia|lia| |by destruct r].
    right. apply hexkey_cons in Hk as [[-> ->]|[Hx Hk]]; [simpl; eauto|]. unfold is_nibble in Hx.
    rewrite (proj2 (Nat.ltb_lt _ _)) by lia. pose proof (hexkey_nonempty _ Hk). destruct r; [done|]. by constructor.
  - apply Forall_app in Hk as [Hp Hk]. inversion_clear Hk as [|? ? Hx Hr]. unfold is_nibble in Hx.
    split_and!; [done|lia|lia| |by destruct r]. right. rewrite (proj2 (Nat.ltb_lt _ _)) by lia.
    by apply canon_pre.
Qed.

Lemma leaf_child_ok x r v : hexkey (x :: r) -> v <> [] ->
  child_ok (Z.to_nat x) (pre r (TVal v)) /\ pre r (TVal v) <> TNil.
Proof. intros Hk Hv. apply (short_tail_ok [] x r (TVal v)). by constructor. Qed.

(** A full node with exactly the children [x] and [y]. *)
Definition branch2 (x y : nat) (tx ty : tree) : list tree := <[y := ty]> (<[x := tx]> (replicate 17 TNil)).

Lemma branch2_lookup x y tx ty i c : x <> y -> branch2 x y tx ty !! i = Some c ->
  (i = x /\ c = tx) \/ (i = y /\ c = ty) \/ (i <> x /\ i <> y /\ c = TNil).
Proof.
  intros Hne E. unfold branch2 in E. destruct (decide (i = y)) as [->|].
  - apply list_lookup_insert_Some in E as [(_ & -> & _)|[? _]]; [by right; left|done].
  - rewrite list_lookup_insert_ne in E by done. destruct (decide (i = x)) as [->|].
    + apply list_lookup_insert_Some in E as [(_ & -> & _)|[? _]]; [by left|done].
    + rewrite list_lookup_insert_ne in E by done. apply lookup_replicate in E as [-> _]. by do 2 right.
Qed.

Lemma branch2_x x y tx ty : (x < 17)%nat -> x <> y -> branch2 x y tx ty !! x = Some tx.
Proof.
  intros Hx Hne. unfold branch2. rewrite list_lookup_insert_ne by done.
  by rewrite list_lookup_insert_eq by (rewrite length_replicate; done).
Qed.

Lemma branch2_y x y tx ty : (y < 17)%nat -> branch2 x y tx ty !! y = Some ty.
Proof.
  intros Hy. unfold branch2. by rewrite list_lookup_insert_eq by (rewrite length_insert, length_replicate; done).
Qed.

Lemma branch2_canon x y tx ty : (x < 17)%nat -> (y < 17)%nat -> x <> y ->
  child_ok x tx -> child_ok y ty -> tx <> TNil -> ty <> TNil -> canon (TFull (branch2 x y tx ty)).
Proof.
  intros Hx Hy Hne Cx Cy Nx Ny. apply canon_full_iff. split_and!.
  - unfold branch2. by rewrite !length_insert, length_replicate.
  - intros i c E. apply branch2_lookup in E as [[-> ->]|[[-> ->]|(_ & _ & ->)]]; [done|done|by left|done].
  - exists x, y, tx, ty. split_and!; [done|by apply branch2_x|by apply branch2_y|done|done].
Qed.

Lemma branch2_has x y tx ty key v : 0 <= x < 17 -> 0 <= y < 17 -> x <> y ->
  has (TFull (branch2 (Z.to_nat x) (Z.to_nat y) tx ty)) key v <->
  (exists k, key = x :: k /\ has tx k v) \/ (exists k, key = y :: k /\ has ty k v).
Proof.
  intros Hx Hy Hne. rewrite has_full_inv. split.
  - intros (z & k & c & -> & Hz & E & Hh). apply branch2_lookup in E as [[Ez ->]|[[Ez ->]|(_ & _ & ->)]]; [| | |lia].
    + assert (z = x) as -> by lia. eauto.
    + assert (z = y) as -> by lia. eauto.
    + by apply has_nil_inv in Hh.
  - intros [(k & -> & Hh)|(k & -> & Hh)].
    + exists x, k, tx. split_and!; [done|lia|apply branch2_x; lia|done].
    + exists y, k, ty. split_and!; [done|lia|apply branch2_y; lia|done].
Qed.
