(* ===== verification/TrieRep.v ===== *)
(** How nodes in memory and in the database represent a tree.

    [tenc] is the reference encoding of a tree, a recursive definition without
    caches; [tref] is what a parent holds of it.  [rep g r n t] says that the
    node [n] represents the tree [t] where [g] reads the database: hash nodes
    stand for stored trees, cached hashes are right, clean nodes are stored.
    [r] marks the root, the only node that is hashed when it is small. *)
From S2P Require Import Prelude RlpEncode RlpDecode RlpCodec RlpTheorems RlpRaw Storage IstanbulTypes ValidatorSet TrieNode Trie TrieTree.

Section Rep.
Context `{CryptoLaws}.

(** ** Reference encoding *)

Definition compact (k : bytes) : bytes :=
  match @hexToCompact Empty_set k with Ok c => c | _ => [] end.

Definition inner (t : tree) : bool := match t with TShort _ _ | TFull _ => true | _ => false end.

Definition ref_of (t : tree) (e : bytes) : bytes :=
  if inner t && (32 <=? zlen e) then rlp_str (Keccak256 e) else e.

Fixpoint tenc (t : tree) : bytes :=
  match t with
  | TNil => rlp_str []
  | TVal v => rlp_str v
  | TShort k t => rlp_list (rlp_str (compact k) ++ ref_of t (tenc t))
  | TFull cs => rlp_list (concat (map (fun c => ref_of c (tenc c)) cs))
  end.

Definition tref (t : tree) : bytes := ref_of t (tenc t).
Definition thash (t : tree) : bytes := Keccak256 (tenc t).

(** Trees that are stored under their hash. *)
Definition big (t : tree) : Prop := inner t = true /\ 32 <= zlen (tenc t).

Definition child_of (t c : tree) : Prop :=
  match t with TShort _ c' => c = c' | TFull cs => c ∈ cs | _ => False end.

Inductive desc : tree -> tree -> Prop :=
| desc_child t c : child_of t c -> desc t c
| desc_step t c s : child_of t c -> desc c s -> desc t s.

(** ** Trees in the database *)

Section Stored.
Context (g : bytes -> option bytes).

Definition held (t : tree) : Prop := g (thash t) = Some (tenc t).
Definition sub_stored (t : tree) : Prop := forall s, desc t s -> big s -> held s.
Definition stored (t : tree) : Prop := held t /\ sub_stored t.

(** Flags of a node for [t]. *)
Definition flags_ok (r : bool) (f : nodeFlag) (t : tree) : Prop :=
  match nf_hash f with
  | Some h => h = thash t /\ (r = false -> 32 <= zlen (tenc t)) /\ (nf_dirty f = false -> stored t)
  | None => nf_dirty f = false -> r = false /\ zlen (tenc t) < 32 /\ sub_stored t
  end.

Inductive rep : bool -> node -> tree -> Prop :=
| rep_nil r : rep r nilNode TNil
| rep_val r v : rep r (valueNode v) (TVal v)
| rep_hash r t : inner t = true -> (r = false -> 32 <= zlen (tenc t)) -> stored t -> rep r (hashNode (thash t)) t
| rep_short r k n t f : flags_ok r f (TShort k t) -> rep false n t -> rep r (shortNode k n f) (TShort k t)
| rep_full r ns ts f : flags_ok r f (TFull ts) -> Forall2 (rep false) ns ts -> rep r (fullNode ns f) (TFull ts).

Lemma sub_stored_child t c : child_of t c -> sub_stored t -> sub_stored c.
Proof. intros Hc Ht s Hs. apply Ht. by apply (desc_step _ c). Qed.

Lemma sub_stored_held t c : child_of t c -> sub_stored t -> big c -> stored c.
Proof. intros Hc Ht Hb. split; [apply Ht; [by constructor|done]|by eapply sub_stored_child]. Qed.

Lemma sub_stored_leaf t : inner t = false -> sub_stored t.
Proof. intros Hi s Hs. destruct t; try done; inversion Hs as [? ? Hc|? ? ? Hc]; by destruct Hc. Qed.

(** From the children to the node. *)
Lemma sub_stored_intro t : (forall c, child_of t c -> (big c -> held c) /\ sub_stored c) -> sub_stored t.
Proof.
  intros Hc s Hs Hb. inversion Hs as [? c Hcs|? c ? Hcs Hd]; subst; [by apply Hc|].
  by apply (proj2 (Hc c Hcs)).
Qed.

Lemma new_flag_ok r gen t : flags_ok r (mkFlag None gen true) t.
Proof. done. Qed.

End Stored.

#[local] Hint Resolve new_flag_ok : trie_db.

(** ** Sizes *)

(** The keys and values of a tree that fit into Go slices. *)
Definition bounded (t : tree) : Prop :=
  forall key v, has t key v -> zlen key < 2 ^ 56 /\ bytes_ok v /\ zlen v < 2 ^ 56.

Lemma bounded_short k t : bounded (TShort k t) -> bounded t.
Proof. intros Hb key v Hh. destruct (Hb (k ++ key) v) as (H1 & H2 & H3); [by constructor|]. split_and!; try done. zlen_lia. Qed.

Lemma bounded_full cs i c : bounded (TFull cs) -> cs !! i = Some c -> bounded c.
Proof.
  intros Hb E key v Hh. destruct (Hb (Z.of_nat i :: key) v) as (H1 & H2 & H3); [|split_and!; try done; zlen_lia].
  apply (has_full cs _ c); [lia|by rewrite Nat2Z.id|done].
Qed.

Lemma rlp_head_len tag n : 0 <= n < 2 ^ 64 -> 1 <= zlen (rlp_head tag n) <= 9.
Proof.
  intros Hn. unfold rlp_head. zcase; [done|]. rewrite zlen_cons. unfold be_bytes. rewrite zlen_be_pad.
  assert (byte_len n <= 8)%nat by (apply byte_len_le; change (256 ^ Z.of_nat 8) with (2 ^ 64); lia). lia.
Qed.

Lemma rlp_str_len b : zlen b < 2 ^ 64 -> zlen (rlp_str b) <= zlen b + 9.
Proof.
  intros Hb. pose proof (zlen_nonneg b). pose proof (rlp_head_len 0x80 (zlen b) ltac:(lia)).
  destruct (rlp_str_cases b) as [(x & -> & _ & ->)|[-> _]]; [done|]. rewrite zlen_app. lia.
Qed.

Lemma rlp_list_len p : zlen p < 2 ^ 64 -> zlen (rlp_list p) <= zlen p + 9.
Proof.
  intros Hb. pose proof (zlen_nonneg p). pose proof (rlp_head_len 0xC0 (zlen p) ltac:(lia)).
  unfold rlp_list. rewrite zlen_app. lia.
Qed.

Lemma Keccak256_len b : zlen (Keccak256 b) = 32.
Proof. apply Keccak256_ok. Qed.

Lemma rlp_str_hash b : rlp_str (Keccak256 b) = 0xA0 :: Keccak256 b.
Proof.
  pose proof (Keccak256_len b) as L. destruct (rlp_str_cases (Keccak256 b)) as [(x & E & _)|[E _]].
  - rewrite E in L. discriminate.
  - rewrite E. unfold rlp_head. by rewrite L.
Qed.

Lemma tref_inner_len t : inner t = true -> zlen (tref t) <= 33.
Proof.
  intros Hi. unfold tref, ref_of. rewrite Hi. simpl. destruct (32 <=? zlen (tenc t)) eqn:E; zbool; [|lia].
  rewrite rlp_str_hash, zlen_cons, Keccak256_len. done.
Qed.

Lemma tref_leaf t : inner t = false -> tref t = tenc t.
Proof. intros Hi. unfold tref, ref_of. by rewrite Hi. Qed.

Lemma compact_ok k : hexnode k -> @compactToHex node_err (compact k) = Ok k /\ bytes_ok (compact k) /\
  compact k <> [] /\ zlen (compact k) <= zlen k + 1.
Proof.
  intros (term & ns & Hns & ->)%hexnode_cases. unfold compact.
  destruct (hexToCompact_form (E:=Empty_set) term ns Hns) as (c & -> & Hc).
  destruct (compact_form_bytes _ _ _ Hc). split_and!; [by apply compactToHex_form|done|done|].
  unfold with_term. destruct Hc as (str & _ & [[-> ->]|(x & _ & -> & ->)]);
    unfold zlen; rewrite length_app; simpl; rewrite length_keybytes_nibbles; lia.
Qed.

Lemma compact_eq {E} k : hexnode k -> @hexToCompact E k = Ok (compact k).
Proof.
  intros (term & ns & Hns & ->)%hexnode_cases. unfold compact.
  destruct (hexToCompact_form (E:=Empty_set) term ns Hns) as (c & -> & Hc).
  destruct (hexToCompact_form (E:=E) term ns Hns) as (c' & -> & Hc').
  by rewrite (compact_form_fun _ _ _ _ Hc Hc').
Qed.

Lemma canon_hexnode k t : canon (TShort k t) -> hexnode k.
Proof. intros Hc. inversion Hc; subst; [by right|by left]. Qed.

(** Bytes and length of an encoding. *)
Definition enc_ok (b : bytes) : Prop := bytes_ok b /\ zlen b < 2 ^ 62.

Lemma enc_ok_str b : bytes_ok b -> zlen b < 2 ^ 61 -> enc_ok (rlp_str b).
Proof. intros H1 H2. pose proof (rlp_str_len b ltac:(lia)). split; [apply rlp_str_ok; [done|lia]|lia]. Qed.

Lemma tref_ok t : enc_ok (tenc t) -> enc_ok (tref t).
Proof.
  intros Ht. unfold tref, ref_of. case_match; [|done]. apply enc_ok_str; [apply Keccak256_ok|].
  by rewrite Keccak256_len.
Qed.

Lemma concat_ok (l : list bytes) m : Forall (fun b => bytes_ok b /\ zlen b <= m) l -> 0 <= m ->
  bytes_ok (concat l) /\ zlen (concat l) <= zlen l * m.
Proof.
  induction 1 as [|b l [Hb Hm] Hl IH]; intros Hm0; simpl; [by rewrite zlen_nil|].
  destruct (IH Hm0). split; [by apply Forall_app|]. rewrite zlen_app, zlen_cons. lia.
Qed.

Lemma slot_enc_ok key t : slot key t -> (key <> [] -> canon t -> bounded t -> enc_ok (tenc t)) -> bounded t -> enc_ok (tenc t) /\ zlen (tref t) < 2 ^ 56 + 16.
Proof.
  intros [->|Hs] Hc Hb; [split; [by apply enc_ok_str|done]|]. destruct key as [|x key].
  - destruct Hs as (v & -> & _). destruct (Hb [] v) as (_ & H1 & H2); [constructor|]. rewrite tref_leaf by done.
    simpl. split; [apply enc_ok_str; [done|lia]|]. pose proof (rlp_str_len v ltac:(lia)). lia.
  - split; [by apply Hc|]. destruct (inner t) eqn:Hi; [pose proof (tref_inner_len t Hi); lia|].
    destruct t; try done; by inversion Hs.
Qed.

(** A key that reaches child [i] of a full node. *)
Lemma index_key i : (i <= 16)%nat -> exists key, hexkey (Z.of_nat i :: key) /\ (key = [] <-> i = 16%nat).
Proof.
  intros Hi. destruct (decide (i = 16%nat)) as [->|]; [exists []; split; [apply hexkey_cons; by left|done]|].
  exists [16]. split; [|naive_solver]. apply hexkey_cons. right. split; [unfold is_nibble; lia|by exists []].
Qed.

Lemma canon_enc_ok t : canon t -> bounded t -> enc_ok (tenc t).
Proof.
  induction t as [|v|k t IH|cs IH] using tree_ind'; intros Hc Hb; try by inversion Hc.
  - pose proof (compact_ok k (canon_hexnode k t Hc)) as (_ & Hk & _ & Hl).
    assert (zlen k < 2 ^ 56) as Hkl.
    { destruct (canon_inhabited _ Hc) as (key & v & Hh). destruct (Hb key v Hh) as [Hz _].
      apply has_short_inv in Hh as (key' & -> & _). zlen_lia. }
    assert (enc_ok (tenc t) /\ zlen (tref t) < 2 ^ 56 + 16) as [Ht Hr].
    { inversion Hc as [? v Hk' Hv|? cs Hk' Hn Hc'|]; subst.
      - apply (slot_enc_ok []); [right; eauto|done|by eapply bounded_short].
      - apply (slot_enc_ok [16]); [by right|auto|by eapply bounded_short]. }
    pose proof (tref_ok t Ht) as [Hrb _]. fold (tref t) in *. simpl tenc. fold (tref t).
    pose proof (rlp_str_len (compact k) ltac:(lia)). unfold enc_ok.
    assert (Hz : zlen (rlp_str (compact k) ++ tref t) < 2 ^ 61 + 64) by zlen_lia.
    pose proof (rlp_list_len _ (Z.lt_trans _ _ (2 ^ 64) Hz ltac:(lia))). split; [|lia].
    apply rlp_list_ok; [|lia]. apply Forall_app. split; [|done]. apply rlp_str_ok; [done|lia].
  - pose proof (canon_full_inv _ Hc) as (Hl & _).
    change (tenc (TFull cs)) with (rlp_list (concat (map tref cs))).
    destruct (concat_ok (map tref cs) (2 ^ 56 + 16)) as [Hcb Hcl]; [|lia|].
    { apply Forall_map, Forall_lookup. intros i c E. pose proof (lookup_lt_Some _ _ _ E) as Hlt.
      destruct (index_key i ltac:(lia)) as (key & Hk & _). rewrite Forall_lookup in IH.
      destruct (slot_enc_ok key c) as [He Hz]; [apply (canon_child cs (Z.of_nat i)); [done..|by rewrite Nat2Z.id]
        |intros _; by apply (IH i)|by eapply bounded_full|].
      split; [by apply tref_ok|lia]. }
    assert (Hz : zlen (concat (map tref cs)) < 2 ^ 61).
    { unfold zlen in *. rewrite length_map, Hl in Hcl. lia. }
    pose proof (rlp_list_len _ (Z.lt_trans _ _ (2 ^ 64) Hz ltac:(lia))). split; [|lia].
    apply rlp_list_ok; [done|lia].
Qed.

(** ** Decoding an encoded tree *)

Definition small (t : tree) : bool := negb (inner t && (32 <=? zlen (tenc t))).

(** The nodes [decodeNode] makes of an encoding: big subtrees stay hashes. *)
Fixpoint load (gen : Z) (h : option bytes) (t : tree) : node :=
  match t with
  | TNil => nilNode
  | TVal v => valueNode v
  | TShort k c => shortNode k (if small c then load gen None c else hashNode (thash c)) (mkFlag h gen false)
  | TFull cs =>
      fullNode (map (fun c => if small c then load gen None c else hashNode (thash c)) cs) (mkFlag h gen false)
  end.

Definition load_ref (gen : Z) (c : tree) : node := if small c then load gen None c else hashNode (thash c).

Lemma small_spec t : small t = true \/ (small t = false /\ inner t = true /\ 32 <= zlen (tenc t)).
Proof. unfold small. destruct (inner t), (32 <=? zlen (tenc t)) eqn:E; zbool; auto. Qed.

Lemma tref_small t : small t = true -> tref t = tenc t.
Proof. unfold small, tref, ref_of. by destruct (_ && _). Qed.

Lemma tref_big t : small t = false -> tref t = rlp_str (thash t).
Proof. unfold small, tref, ref_of. by destruct (_ && _). Qed.

Lemma tenc_list t : inner t = true -> exists p, tenc t = rlp_list p.
Proof. destruct t; try done; intros _; simpl; eauto. Qed.

Lemma tenc_raw_item t : raw_item (tenc t).
Proof.
  destruct (inner t) eqn:Hi; [destruct (tenc_list t Hi) as [p ->]; apply raw_item_list|].
  destruct t; try done; apply raw_item_str.
Qed.

Lemma tref_raw_item t : raw_item (tref t).
Proof. destruct (small t) eqn:E; [rewrite tref_small by done; apply tenc_raw_item|]. rewrite tref_big by done. apply raw_item_str. Qed.

(** What a decoder of nodes does with the encoding of [t]. *)
Definition decodes_tree (dec : option bytes -> bytes -> Z -> outcome node_err node) (t : tree) : Prop :=
  forall h gen rest, input_ok (tenc t ++ rest) -> dec h (tenc t ++ rest) gen = Ok (load gen h t).

Definition decodes_ref (dec : option bytes -> bytes -> Z -> outcome node_err node) (c : tree) : Prop :=
  forall gen rest, input_ok (tref c ++ rest) -> decodeRef dec (tref c ++ rest) gen = Ok (load_ref gen c, rest).

Lemma decodeRef_tree dec c :
  c = TNil \/ (canon c /\ (small c = true -> decodes_tree dec c)) -> decodes_ref dec c.
Proof.
  intros Hc gen rest Hi. unfold decodeRef, load_ref. destruct (small_spec c) as [Hs|(Hs & Hin & Hl)]; rewrite Hs.
  - rewrite tref_small in * by done. destruct Hc as [->|[Hc Hd]].
    + destruct (Split_str [] rest Hi) as (k & E & _ & Hk). simpl tenc. rewrite E, Hk by done. done.
    + specialize (Hd Hs). assert (Hin : inner c = true) by (destruct c; try done; by inversion Hc).
      specialize (Hd None gen rest Hi). destruct (tenc_list c Hin) as [p Ep].
      assert (Hl : zlen (tenc c) < 32) by (unfold small in Hs; rewrite Hin in Hs; simpl in Hs; zbool; lia).
      rewrite Ep in *. pose proof (Split_ok List p rest Hi I) as E. simpl in E. rewrite E. simpl.
      rewrite zlen_app. unfold hashLen. zcase; [lia|]. by rewrite Hd.
  - rewrite tref_big in * by done. destruct (Split_str (thash c) rest Hi) as (k & E & _ & Hk).
    pose proof (Keccak256_len (tenc c)) as L. fold (thash c) in L.
    rewrite E, Hk by (rewrite L; done). simpl. by rewrite L.
Qed.

Lemma decodeFull_loop_tree dec gen cs : Forall (decodes_ref dec) cs -> forall i rest,
  input_ok (concat (map tref cs) ++ rest) ->
  decodeFull_loop dec i (length cs) (concat (map tref cs) ++ rest) gen = Ok (map (load_ref gen) cs, rest).
Proof.
  induction 1 as [|c cs Hc _ IH]; intros i rest Hi; simpl in *; [done|].
  rewrite <- app_assoc in *. rewrite Hc by done. simpl. apply input_ok_app in Hi as (_ & Hi & _).
  by rewrite IH.
Qed.

(** The first steps of [decodeNode], shared by short and full nodes. *)
Lemma decodeNode_body_list dec h l rest gen : Forall raw_item l -> input_ok (rlp_list (concat l) ++ rest) ->
  decodeNode_body dec h (rlp_list (concat l) ++ rest) gen =
    (if zlen l =? 2 then wrapError (decodeShort dec h (concat l) gen) PathShort
     else if zlen l =? 17 then wrapError (decodeFull dec h (concat l) gen) PathFull
     else Err (mkNodeErr (NodeBadCount (zlen l)) [])).
Proof.
  intros Hl Hi. unfold decodeNode_body. pose proof (raw_enc_pos List (concat l)) as Hp. simpl in Hp.
  zcase; [zlen_lia|]. rewrite SplitList_ok by done. simpl.
  rewrite CountValues_raw; [done|done|]. unfold rlp_list in Hi. rewrite <- app_assoc in Hi.
  apply input_ok_app in Hi as (_ & Hi & _). destruct Hi as [Hb Hz]. apply Forall_app in Hb as [Hb _].
  split; [done|]. zlen_lia.
Qed.

Lemma input_ok_list p rest : input_ok (rlp_list p ++ rest) -> input_ok p.
Proof.
  unfold rlp_list. rewrite <- app_assoc. intros (_ & [Hb Hz] & _)%input_ok_app.
  apply Forall_app in Hb as [Hb _]. split; [done|]. zlen_lia.
Qed.

Lemma decodeShort_leaf dec h gen k v : hexkey k -> input_ok (rlp_str (compact k) ++ rlp_str v) ->
  decodeShort dec h (rlp_str (compact k) ++ rlp_str v) gen = Ok (shortNode k (valueNode v) (mkFlag h gen false)).
Proof.
  intros Hk Hi. unfold decodeShort. rewrite SplitString_ok by done. simpl.
  destruct (compact_ok k ltac:(by right)) as [-> _]. simpl. rewrite hasTerm_hexkey by done.
  apply input_ok_app in Hi as (_ & Hi & _). rewrite <- (app_nil_r (rlp_str v)) in *. by rewrite SplitString_ok.
Qed.

Lemma decodeShort_ext dec h gen k c : nibbles_ok k -> decodes_ref dec c ->
  input_ok (rlp_str (compact k) ++ tref c) ->
  decodeShort dec h (rlp_str (compact k) ++ tref c) gen = Ok (shortNode k (load_ref gen c) (mkFlag h gen false)).
Proof.
  intros Hk Hc Hi. unfold decodeShort. rewrite SplitString_ok by done. simpl.
  destruct (compact_ok k ltac:(by left)) as [-> _]. simpl. rewrite hasTerm_nibbles by done.
  apply input_ok_app in Hi as (_ & Hi & _). rewrite <- (app_nil_r (tref c)) in *. by rewrite Hc.
Qed.

Lemma decodeFull_tree dec h gen cs c : length cs = 16%nat -> Forall (decodes_ref dec) cs ->
  c = TNil \/ (exists v, c = TVal v /\ v <> []) -> input_ok (concat (map tref (cs ++ [c]))) ->
  decodeFull dec h (concat (map tref (cs ++ [c]))) gen =
    Ok (fullNode (map (load_ref gen) (cs ++ [c])) (mkFlag h gen false)).
Proof.
  intros Hl Hcs Hc Hi. unfold decodeFull. rewrite map_app, concat_app, <- Hl in *.
  rewrite decodeFull_loop_tree by done. simpl. rewrite map_app.
  assert (exists v, tref c = rlp_str v /\ load_ref gen c = (if 0 <? zlen v then valueNode v else nilNode)) as (v & Ev & El).
  { destruct Hc as [->|(v & -> & Hv)]; [by exists []|]. exists v. split; [done|]. simpl.
    destruct v; [done|]. zcase; [done|zlen_lia]. }
  simpl in Hi |- *. rewrite Ev, El in *. apply input_ok_app in Hi as (_ & Hi & _). by rewrite SplitString_ok.
Qed.

Lemma length_tref_desc k t : small t = true -> (length (tenc t) < length (tenc (TShort k t)))%nat.
Proof.
  intros Hs. simpl tenc. fold (tref t). rewrite tref_small by done. unfold rlp_list. rewrite !length_app.
  pose proof (rlp_str_nonempty (compact k)). unfold zlen in *. lia.
Qed.

Lemma length_tref_full cs i c : cs !! i = Some c -> small c = true ->
  (length (tenc c) < length (tenc (TFull cs)))%nat.
Proof.
  intros E Hs. change (tenc (TFull cs)) with (rlp_list (concat (map tref cs))).
  unfold rlp_list. rewrite length_app. rewrite <- (tref_small c) by done.
  assert (length (tref c) <= length (concat (map tref cs)))%nat.
  { clear Hs. revert i E. induction cs as [|d cs IH]; intros [|i] E; simpl in *; try done; rewrite length_app.
    - simplify_eq. lia.
    - specialize (IH _ E). lia. }
  unfold rlp_head. case_match; simpl; lia.
Qed.

Lemma load_decodes t : canon t -> bounded t -> forall fuel, (length (tenc t) < fuel)%nat ->
  decodes_tree (decodeNode_fuel fuel) t.
Proof.
  induction t as [|v|k t IH|cs IH] using tree_ind'; intros Hc Hb [|fuel] Hf h gen rest Hi; try (by inversion Hc); [lia| |lia|].
  - change (tenc (TShort k t)) with (rlp_list (rlp_str (compact k) ++ tref t)) in *.
    assert (Hp : rlp_str (compact k) ++ tref t = concat [rlp_str (compact k); tref t])
      by (simpl; by rewrite app_nil_r).
    simpl decodeNode_fuel. rewrite Hp, decodeNode_body_list by
      (rewrite <- ?Hp; try done; repeat constructor; auto using raw_item_str, tref_raw_item).
    rewrite <- Hp. simpl Z.eqb. cbv iota. apply input_ok_list in Hi.
    inversion Hc as [? v Hk Hv|? cs Hk Hne Hc'|]; subst.
    + rewrite tref_leaf in * by done. simpl tenc in *. by rewrite decodeShort_leaf.
    + rewrite decodeShort_ext; [done|done| |done]. apply decodeRef_tree. right. split; [done|]. intros Hs.
      apply IH; [done|by eapply bounded_short|]. pose proof (length_tref_desc k _ Hs) as Hd.
      change (tenc (TShort k (TFull cs))) with (rlp_list (rlp_str (compact k) ++ tref (TFull cs))) in Hd. lia.
  - pose proof (canon_full_inv _ Hc) as (Hl & Hch & Hv & _). pose proof (length_tref_full cs) as Hd.
    change (tenc (TFull cs)) with (rlp_list (concat (map tref cs))) in *.
    simpl decodeNode_fuel. rewrite decodeNode_body_list by
      (try done; apply Forall_map, Forall_forall; auto using tref_raw_item).
    rewrite (zlen_map_length tref cs). unfold zlen. rewrite Hl. simpl Z.eqb. cbv iota. apply input_ok_list in Hi.
    assert (exists cs16 c, cs = cs16 ++ [c] /\ length cs16 = 16%nat) as (cs16 & c & -> & Hl16).
    { destruct cs as [|c cs _] using rev_ind; [done|]. exists cs, c. rewrite length_app in Hl. simpl in Hl.
      split; [done|lia]. }
    rewrite decodeFull_tree; try done.
    + apply Forall_lookup. intros i d E. assert ((cs16 ++ [c]) !! i = Some d) as E' by by apply lookup_app_l_Some.
      pose proof (lookup_lt_Some _ _ _ E). apply decodeRef_tree. destruct (Hch i d ltac:(lia) E') as [->|Hcd]; [by left|].
      right. split; [done|]. intros Hs. rewrite Forall_lookup in IH. apply (IH i d E'); [done|by eapply bounded_full|].
      specialize (Hd i d E' Hs). lia.
    + apply Hv. rewrite lookup_app_r by lia. by rewrite Hl16.
Qed.

(** ** Inversion of [rep] *)

Definition is_hashNode (n : node) : bool := match n with hashNode _ => true | _ => false end.

Lemma rep_tnil_inv {g} r n : rep g r n TNil -> n = nilNode.
Proof. intros Hr. inversion Hr; subst; simpl in *; done. Qed.

Lemma rep_tval_inv {g} r n v : rep g r n (TVal v) -> n = valueNode v.
Proof. intros Hr. inversion Hr; subst; simpl in *; done. Qed.

Lemma rep_nil_iff {g} r n t : rep g r n t -> n = nilNode <-> t = TNil.
Proof. intros Hr. inversion Hr as [| |? ? Hi| |]; subst; try done. by split; [|intros ->]. Qed.

Lemma rep_short_inv {g} r n k s : rep g r n (TShort k s) -> is_hashNode n = false ->
  exists n' f, n = shortNode k n' f /\ rep g false n' s /\ flags_ok g r f (TShort k s).
Proof. intros Hr Hn. inversion Hr; subst; [done|]. eauto. Qed.

Lemma rep_full_inv {g} r n cs : rep g r n (TFull cs) -> is_hashNode n = false ->
  exists ns f, n = fullNode ns f /\ Forall2 (rep g false) ns cs /\ flags_ok g r f (TFull cs).
Proof. intros Hr Hn. inversion Hr; subst; [done|]. eauto. Qed.
End Rep.
