(* ===== verification/TrieTheorems.v ===== *)
(** The operations of the trie refine insertion, deletion and lookup of a
    canonical tree.

    First the changes of the tree itself ([inserted], [deleted]), then the
    simulation: on a node that represents a tree the methods of [Trie] return,
    with the fuel of the key, a node that represents the changed tree.

    The trie refines a finite map: claims on [TryGet], [TryUpdate] and
    [TryDelete] of [trie/trie.go]. *)
From S2P Require Import Prelude RlpEncode RlpCodec RlpRaw Storage IstanbulTypes ValidatorSet TrieNode Trie TrieTree TrieRep.

(** ** Insertion into a tree *)

Definition inserted (t : tree) (key v : bytes) (t' : tree) : Prop :=
  slot key t' /\ t' <> TNil /\ (forall cs, t = TFull cs -> exists cs', t' = TFull cs') /\
  forall k w, has t' k w <-> (k = key /\ w = v) \/ (k <> key /\ has t k w).

Lemma slot_cons x key t : canon t -> slot (x :: key) t.
Proof. by right. Qed.

Lemma slot_hexkey key t : hexkey key -> slot key t <-> t = TNil \/ canon t.
Proof. intros H%hexkey_nonempty. by destruct key. Qed.

Lemma inserted_nil key v : hexkey key -> v <> [] -> inserted TNil key v (TShort key (TVal v)).
Proof.
  intros Hk Hv. split_and!; [by apply slot_hexkey; [done|right; constructor]|done|done|].
  intros k w. rewrite has_short_inv. setoid_rewrite has_val_inv. split.
  - intros (k' & -> & -> & ->). left. by rewrite app_nil_r.
  - intros [[-> ->]|[_ Hn]]; [exists []; by rewrite app_nil_r|by apply has_nil_inv in Hn].
Qed.

Lemma inserted_value t v : slot [] t -> v <> [] -> inserted t [] v (TVal v).
Proof.
  intros Hs Hv. split_and!; [right; eauto|done|intros cs ->; by destruct Hs as [?|(? & ? & _)]|].
  intros k w. rewrite has_val_inv. split; [naive_solver|]. intros [[-> ->]|[Hne Hh]]; [done|].
  destruct Hs as [->|(u & -> & _)]; [by apply has_nil_inv in Hh|]. by apply has_val_inv in Hh as [-> _].
Qed.

Lemma inserted_branch p x r s y r' v :
  canon (TShort (p ++ x :: r) s) -> hexkey (p ++ y :: r') -> x <> y -> v <> [] ->
  inserted (TShort (p ++ x :: r) s) (p ++ y :: r') v
    (pre p (TFull (branch2 (Z.to_nat x) (Z.to_nat y) (pre r s) (pre r' (TVal v))))).
Proof.
  intros Hc Hk Hne Hv. destruct (short_tail_ok _ _ _ _ Hc) as (Hp & Hx & Cx & Nx).
  assert (Hk' : hexkey (y :: r')) by (by apply hexkey_app in Hk).
  pose proof (hexkey_index _ _ Hk') as Hy. destruct (leaf_child_ok y r' v Hk' Hv) as [Cy Ny].
  assert (Hf : canon (TFull (branch2 (Z.to_nat x) (Z.to_nat y) (pre r s) (pre r' (TVal v)))))
    by (apply branch2_canon; auto; lia).
  pose proof (canon_pre p _ Hp Hf) as Hcp.
  split_and!; [by apply slot_hexkey; [|right]|by apply canon_not_nil|by intros|].
  intros k w. rewrite has_pre, has_short_inv. setoid_rewrite branch2_has; [|lia|lia|done].
  setoid_rewrite has_pre. setoid_rewrite has_val_inv. split.
  - intros (k1 & -> & [(k2 & -> & k3 & -> & Hs)|(k2 & -> & k3 & -> & -> & ->)]).
    + right. split; [intros E; apply app_inv_head in E; congruence|]. exists k3. by rewrite <- app_assoc.
    + left. by rewrite app_nil_r.
  - intros [[-> ->]|(Hn & k1 & -> & Hs)].
    + exists (y :: r'). split; [done|]. right. exists r'. split; [done|]. exists []. by rewrite app_nil_r.
    + exists (x :: r ++ k1). rewrite <- app_assoc. split; [done|]. left. eauto.
Qed.

Lemma inserted_short k s key v s' : canon (TShort k s) -> inserted s key v s' ->
  (key = [] \/ exists cs, s = TFull cs) -> hexkey (k ++ key) ->
  inserted (TShort k s) (k ++ key) v (TShort k s').
Proof.
  intros Hc (Hs & Hn & Hf & Hh) Hcase Hk.
  assert (Hc' : canon (TShort k s')).
  { destruct Hcase as [->|[cs ->]].
    - destruct Hs as [->|(u & -> & Hu)]; [done|]. rewrite app_nil_r in Hk. by constructor.
    - destruct (Hf cs eq_refl) as [cs' ->]. inversion Hc; subst. constructor; [done..|].
      destruct Hs as [?|Hs]; [done|]. destruct key; [by destruct Hs as (? & ? & _)|done]. }
  split_and!; [by apply slot_hexkey; [|right]|done|done|].
  intros k' w. rewrite !has_short_inv. split.
  - intros (k1 & -> & [[-> ->]|[Hne H1]]%Hh); [by left|right]. split; [|eauto].
    intros E. by apply app_inv_head in E.
  - intros [[-> ->]|(Hne & k1 & -> & H1)]; [exists key; split; [done|]; apply Hh; by left|].
    exists k1. split; [done|]. apply Hh. right. split; [congruence|done].
Qed.

Lemma inserted_full cs x key c v c' : canon (TFull cs) -> hexkey (x :: key) -> cs !! Z.to_nat x = Some c ->
  inserted c key v c' -> inserted (TFull cs) (x :: key) v (TFull (<[Z.to_nat x := c']> cs)).
Proof.
  intros Hc Hk E (Hs & Hn & _ & Hh). pose proof (hexkey_index _ _ Hk) as Hx.
  pose proof (proj1 (canon_full_iff cs) Hc) as (Hl & Hch & i & j & ci & cj & Hij & Ei & Ej & Ni & Nj).
  assert (Lx : (Z.to_nat x < length cs)%nat) by lia.
  assert (Hc' : canon (TFull (<[Z.to_nat x := c']> cs))).
  { apply canon_full_iff. split_and!; [by rewrite length_insert| |].
    - intros i' c1 [(<- & <- & _)|[_ E1]]%list_lookup_insert_Some; [|by apply Hch].
      destruct Hs as [?|Hs]; [done|]. right. apply hexkey_cons in Hk as [[-> ->]|[Hx' Hk]]; [done|].
      unfold is_nibble in Hx'. rewrite (proj2 (Nat.ltb_lt _ _)) by lia.
      apply hexkey_nonempty in Hk. by destruct key.
    - assert (G : forall k ck, cs !! k = Some ck -> ck <> TNil ->
        exists ck', <[Z.to_nat x := c']> cs !! k = Some ck' /\ ck' <> TNil).
      { intros k ck Ek Nk. destruct (decide (k = Z.to_nat x)) as [->|]; [rewrite list_lookup_insert_eq by done; eauto|].
        rewrite list_lookup_insert_ne by done. eauto. }
      destruct (G i ci Ei Ni) as (ci' & ? & ?), (G j cj Ej Nj) as (cj' & ? & ?).
      exists i, j, ci', cj'. by split_and!. }
  split_and!; [by apply slot_cons|done|eauto|].
  intros k w. split.
  - intros (y & k1 & d & -> & Hy & Ed & H1)%has_full_inv.
    apply list_lookup_insert_Some in Ed as [(Exy & <- & _)|[Hne Ed]].
    + assert (y = x) as -> by lia. apply Hh in H1 as [[-> ->]|[Hne H1]]; [by left|]. right.
      split; [congruence|]. by econstructor.
    + right. split; [intros [= -> ->]; done|]. by econstructor.
  - intros [[-> ->]|[Hne (y & k1 & d & -> & Hy & Ed & H1)%has_full_inv]].
    + apply (has_full _ x c'); [lia|by apply list_lookup_insert_eq|]. apply Hh. by left.
    + destruct (decide (y = x)) as [->|Hyx].
      * apply (has_full _ x c'); [lia|by apply list_lookup_insert_eq|]. apply Hh. simplify_eq. right.
        split; [congruence|done].
      * apply (has_full _ y d); [lia|rewrite list_lookup_insert_ne by lia; done|done].
Qed.

(** ** Deletion from a tree *)

Definition deleted (t : tree) (key : bytes) (t' : tree) : Prop :=
  slot key t' /\ forall k w, has t' k w <-> k <> key /\ has t k w.

Lemma deleted_absent t key : slot key t -> (forall w, ~ has t key w) -> deleted t key t.
Proof.
  intros Hs Hn. split; [done|]. intros k w. split; [|by intros []]. intros Hh. split; [|done].
  intros ->. by apply (Hn w).
Qed.

Lemma deleted_only t key : (forall k w, has t k w -> k = key) -> deleted t key TNil.
Proof.
  intros Ho. split; [by left|]. intros k w. split; [by intros ?%has_nil_inv|].
  intros [Hne Hh]. by apply Ho in Hh.
Qed.

(** Something is left of a full node. *)
Lemma deleted_full_nonempty cs key t' : canon (TFull cs) -> deleted (TFull cs) key t' -> t' <> TNil.
Proof.
  intros Hc [_ Hh] ->. destruct (full_two_keys cs Hc) as (x & y & k1 & k2 & v1 & v2 & Hne & H1 & H2).
  apply (has_nil_inv (x :: k1) v1), Hh. split; [|done]. intros <-.
  apply (has_nil_inv (y :: k2) v2), Hh. split; [congruence|done].
Qed.

Lemma deleted_short k cs key t' : canon (TShort k (TFull cs)) -> hexkey (k ++ key) -> deleted (TFull cs) key t' ->
  deleted (TShort k (TFull cs)) (k ++ key)
    (match t' with TShort k' s => TShort (k ++ k') s | _ => TShort k t' end).
Proof.
  intros Hc Hk Hd. inversion Hc as [|? ? Hnk Hne Hcf|]; subst.
  pose proof (deleted_full_nonempty _ _ _ Hcf Hd) as Hn. destruct Hd as [Hs Hh].
  pose proof (proj1 (hexkey_app k key Hnk) Hk) as Hkey.
  apply slot_hexkey in Hs as [?|Hs]; [done| |done].
  assert (G : forall k' w, has (match t' with TShort k'' s => TShort (k ++ k'') s | _ => TShort k t' end) k' w <->
    has (TShort k t') k' w).
  { intros k' w. destruct t' as [|u|k'' s|cs']; try done. rewrite !has_short_inv. setoid_rewrite has_short_inv. split.
    - intros (k1 & -> & H1). exists (k'' ++ k1). rewrite <- app_assoc. eauto.
    - intros (k1 & -> & k2 & -> & H1). exists k2. by rewrite <- app_assoc. }
  split.
  - apply slot_hexkey; [done|]. right. inversion Hs as [k'' u Hk'' Hu|k'' cs' Hk'' Hn'' Hc''|cs']; subst.
    + constructor; [by apply hexkey_app|done].
    + constructor; [by apply Forall_app|by destruct k|done].
    + by constructor.
  - intros k' w. rewrite G, !has_short_inv. split.
    + intros (k1 & -> & [Hne1 H1]%Hh). split; [|eauto]. intros E. by apply app_inv_head in E.
    + intros (Hne1 & k1 & -> & H1). exists k1. split; [done|]. apply Hh. split; [congruence|done].
Qed.

(** The contents of a full node after a deletion in child [x]. *)
Lemma deleted_child cs x key c c' : cs !! Z.to_nat x = Some c -> 0 <= x ->
  (forall k w, has c' k w <-> k <> key /\ has c k w) ->
  forall k w, has (TFull (<[Z.to_nat x := c']> cs)) k w <-> k <> x :: key /\ has (TFull cs) k w.
Proof.
  intros E Hx Hh k w. assert (Lx : (Z.to_nat x < length cs)%nat) by by eapply lookup_lt_Some. split.
  - intros (y & k1 & d & -> & Hy & Ed & H1)%has_full_inv.
    apply list_lookup_insert_Some in Ed as [(Exy & <- & _)|[Hne Ed]].
    + assert (y = x) as -> by lia. apply Hh in H1 as [Hne H1]. split; [congruence|]. by econstructor.
    + split; [intros [= -> ->]; done|]. by econstructor.
  - intros [Hne (y & k1 & d & -> & Hy & Ed & H1)%has_full_inv].
    destruct (decide (y = x)) as [->|Hyx].
    + apply (has_full _ x c'); [lia|by apply list_lookup_insert_eq|]. apply Hh. simplify_eq.
      split; [congruence|done].
    + apply (has_full _ y d); [lia|rewrite list_lookup_insert_ne by lia; done|done].
Qed.

(** One child left: the full node becomes a short node. *)
Lemma single_has cs i c k w : cs !! i = Some c -> (forall j d, cs !! j = Some d -> j <> i -> d = TNil) ->
  has (TFull cs) k w <-> exists k', k = Z.of_nat i :: k' /\ has c k' w.
Proof.
  intros E Ho. rewrite has_full_inv. split.
  - intros (x & k1 & d & -> & Hx & Ed & Hh). destruct (decide (Z.to_nat x = i)) as [<-|Hne].
    + simplify_eq. exists k1. by rewrite Z2Nat.id.
    + rewrite (Ho _ _ Ed Hne) in Hh. by apply has_nil_inv in Hh.
  - intros (k' & -> & Hh). exists (Z.of_nat i), k', c. rewrite Nat2Z.id. split_and!; [done|lia|done|done].
Qed.

Definition collapse1 (i : Z) (c : tree) : tree :=
  match c with TShort k s => TShort (i :: k) s | _ => TShort [i] c end.

Lemma collapse1_canon i c : (i <= 16)%nat -> child_ok i c -> c <> TNil -> canon (collapse1 (Z.of_nat i) c).
Proof.
  intros Hi [?|Hc] Hn; [done|]. destruct (Nat.ltb_spec i 16).
  - assert (Hx : is_nibble (Z.of_nat i)) by (unfold is_nibble; lia).
    inversion Hc as [k v Hk Hv|k cs Hk Hne Hc'|cs]; subst; simpl.
    + constructor; [|done]. apply hexkey_cons. by right.
    + constructor; [by constructor|done|done].
    + constructor; [by constructor|done|done].
  - assert (i = 16%nat) as -> by lia. destruct Hc as (v & -> & Hv). constructor; [by exists []|done].
Qed.

Lemma collapse1_has i c k w : has (collapse1 i c) k w <-> exists k', k = i :: k' /\ has c k' w.
Proof.
  destruct c as [|v|k1 s|cs]; simpl; rewrite has_short_inv; try done.
  setoid_rewrite has_short_inv. split.
  - intros (k2 & -> & Hh). exists (k1 ++ k2). eauto.
  - intros (k2 & -> & k3 & -> & Hh). eauto.
Qed.

(** ** Nodes *)

Section Simulation.
Context `{CryptoLaws} {DB : Type} `{Database DB} (T : Trie DB).

(** The reads of the trie; a nil database holds nothing. *)
Definition trie_read (k : bytes) : option bytes :=
  match t_db T with Some d => db_Get k d | None => None end.

#[local] Abbreviation rep := (rep trie_read).

Definition hash_cost (n : node) : nat := if is_hashNode n then 1 else 0.

Lemma Forall2_map_lookup {A B} (P : B -> A -> Prop) (f : A -> B) l :
  (forall i c, l !! i = Some c -> P (f c) c) -> Forall2 P (map f l) l.
Proof.
  induction l as [|x l IH]; intros Hl; simpl; constructor; [by apply (Hl O)|].
  apply IH. intros i c E. by apply (Hl (S i)).
Qed.

(** Loading a stored tree. *)
Lemma load_ref_rep gen c : (inner c = true -> zlen (tenc c) < 32 -> rep false (load gen None c) c) ->
  (big c -> stored trie_read c) -> rep false (load_ref gen c) c.
Proof.
  intros Hs Hb. unfold load_ref. destruct (small_spec c) as [Es|(Es & Hi & Hl)]; rewrite Es.
  - destruct (inner c) eqn:Hi; [|destruct c; try done; constructor]. apply Hs; [done|].
    unfold small in Es. rewrite Hi in Es. simpl in Es. zbool. lia.
  - constructor; [done..|]. by apply Hb.
Qed.

Lemma load_rep t : forall r gen h, canon t -> sub_stored trie_read t ->
  flags_ok trie_read r (mkFlag h gen false) t -> rep r (load gen h t) t.
Proof.
  induction t as [|v|k t IH|cs IH] using tree_ind'; intros r gen h Hc Hst Hf; try by inversion Hc.
  - constructor; [done|]. apply load_ref_rep; [|intros Hb; by apply (sub_stored_held _ (TShort k t))].
    intros Hi Hl. apply IH; [by inversion Hc; subst; simpl in *|by apply (sub_stored_child _ (TShort k t))|].
    intros _. split_and!; [done|done|by apply (sub_stored_child _ (TShort k t))].
  - constructor; [done|]. apply Forall2_map_lookup. intros i c E.
    assert (Hcs : child_of (TFull cs) c) by by eapply list_elem_of_lookup_2.
    apply load_ref_rep; [|intros Hb; by apply (sub_stored_held _ (TFull cs))].
    intros Hi Hl. rewrite Forall_lookup in IH. apply (IH i c E); [|by apply (sub_stored_child _ (TFull cs))|].
    + apply canon_full_iff in Hc as (_ & Hc & _). specialize (Hc i c E). unfold child_ok in Hc.
      destruct Hc as [->|Hc]; [done|]. destruct (i <? 16)%nat; [done|]. by destruct Hc as (? & -> & _).
    + intros _. split_and!; [done|done|by apply (sub_stored_child _ (TFull cs))].
Qed.

(** A hash node is resolved to the tree it stands for. *)
Lemma resolveHash_ok r h t prefix : rep r (hashNode h) t -> canon t -> bounded t ->
  exists n, resolveHash T h prefix = Ok n /\ rep r n t /\ is_hashNode n = false.
Proof.
  intros Hr Hc Hb. inversion Hr as [| |? ? Hi Hl [Hh Hs]| |]; subst.
  exists (load (t_cachegen T) (Some (thash t)) t). split_and!.
  - unfold resolveHash. unfold held, trie_read in Hh. destruct (t_db T) as [d|]; [|done]. rewrite Hh.
    unfold mustDecodeNode, decodeNode. pose proof (load_decodes t Hc Hb (S (length (tenc t))) ltac:(lia)) as D.
    specialize (D (Some (thash t)) (t_cachegen T) []). rewrite app_nil_r in D. rewrite D; [done|].
    destruct (canon_enc_ok t Hc Hb). split; [done|lia].
  - apply load_rep; [done..|]. by split_and!.
  - by destruct t.
Qed.

(** ** Lookup *)

Definition got (t : tree) (key : bytes) (o : option bytes) : Prop := forall v, o = Some v <-> has t key v.

Lemma got_none t key : (forall v, ~ has t key v) -> got t key None.
Proof. intros Hn v. split; [done|]. by intros ?%Hn. Qed.

Lemma flags_ok_gen r f t gen : flags_ok trie_read r f t ->
  flags_ok trie_read r (mkFlag (nf_hash f) gen (nf_dirty f)) t.
Proof. done. Qed.

Lemma slot_bounds key t : slot key t -> (exists x k, key = x :: k /\ canon t) \/ t = TNil \/ (key = [] /\ exists v, t = TVal v /\ v <> []).
Proof. intros [->|Hs]; [by right; left|]. destruct key; [by right; right|]. left. eauto. Qed.

(** Going down: the rest of the key fits the subtree. *)
Lemma short_descend k s key : canon (TShort k s) -> hexkey (k ++ key) -> slot key s /\ rest_ok key /\
  (key = [] \/ exists cs, s = TFull cs).
Proof.
  intros Hc Hk. inversion Hc as [? v Hk1 Hv|? cs Hk1 Hne Hc'|]; subst.
  - rewrite (hexkey_prefix_free _ _ Hk1 Hk). split_and!; [right; eauto|by left|by left].
  - apply hexkey_app in Hk; [|done]. split_and!; [apply slot_hexkey; [done|by right]|by right|eauto].
Qed.

Lemma short_key_pos k s : canon (TShort k s) -> (0 < length k)%nat.
Proof.
  intros Hc. destruct k; [|simpl; lia].
  inversion Hc as [? ? Hk0| |]; subst; [by apply hexkey_nonempty in Hk0|done].
Qed.

Lemma full_descend ns cs x key : Forall2 (rep false) ns cs -> canon (TFull cs) -> hexkey (x :: key) ->
  exists nc c, child ns x = Some nc /\ cs !! Z.to_nat x = Some c /\ rep false nc c /\ slot key c /\ rest_ok key /\
    0 <= x <= 16.
Proof.
  intros Hns Hc Hk. pose proof (hexkey_index _ _ Hk) as Hx.
  pose proof (proj1 (canon_full_iff cs) Hc) as (Hl & _).
  destruct (lookup_lt_is_Some_2 cs (Z.to_nat x) ltac:(lia)) as [c Ec].
  destruct (Forall2_lookup_r _ _ _ _ _ Hns Ec) as (nc & En & Hrc). exists nc, c.
  split_and!; try done; [by eapply canon_child|by eapply rest_ok_cons|lia|lia].
Qed.

Lemma cost_short (n : node) (a b fuel : nat) : (0 < a)%nat -> (2 * (a + b) < S fuel)%nat ->
  (2 * b + hash_cost n < fuel)%nat.
Proof. unfold hash_cost. destruct (is_hashNode n); lia. Qed.

Lemma cost_zero n : is_hashNode n = false -> hash_cost n = 0%nat.
Proof. unfold hash_cost. by intros ->. Qed.

Definition tryGet_spec (fuel : nat) (r : bool) (n : node) (t : tree) (key : bytes) (pos : nat) : Prop :=
  exists o n' b, tryGet T fuel n key pos = Ok (o, n', b) /\ rep r n' t /\ got t (drop pos key) o.

Definition tryGet_at (fuel : nat) : Prop := forall r n t key pos,
  rep r n t -> slot (drop pos key) t -> rest_ok (drop pos key) -> bounded t ->
  (2 * length (drop pos key) + hash_cost n < fuel)%nat -> tryGet_spec fuel r n t key pos.

Lemma tryGet_short fuel r k n' f s key pos : tryGet_at fuel -> canon (TShort k s) -> bounded (TShort k s) ->
  hexkey (drop pos key) -> (2 * length (drop pos key) < S fuel)%nat -> rep false n' s ->
  flags_ok trie_read r f (TShort k s) -> tryGet_spec (S fuel) r (shortNode k n' f) (TShort k s) key pos.
Proof.
  intros IH Hc Hb Hkey Hf Hr' Hfl. unfold tryGet_spec. simpl.
  destruct (decide (k = take (length k) (drop pos key))) as [Ep|Ep].
  - assert (Ed : drop pos key = k ++ drop (pos + length k) key).
    { rewrite <- drop_drop. rewrite Ep at 1. symmetry. apply take_drop. }
    assert (Lk : (length k <= length (drop pos key))%nat) by (rewrite Ed, length_app; lia).
    rewrite length_drop in Lk. rewrite (proj2 (Nat.ltb_ge _ _)) by lia. rewrite bool_decide_true by done. simpl.
    rewrite Ed in Hkey. destruct (short_descend _ _ _ Hc Hkey) as (Hss & Hkk & _).
    destruct (IH false n' s key (pos + length k)%nat Hr' Hss Hkk (bounded_short _ _ Hb)) as (o & n2 & b & -> & Hr2 & Hg).
    { rewrite Ed, length_app in Hf. by eapply cost_short, Hf; eapply short_key_pos. }
    simpl. exists o. eexists _, b. split_and!; [done| |].
    + destruct b; constructor; done.
    + intros v. rewrite Ed, has_short_app. apply Hg.
  - rewrite bool_decide_false by done. rewrite orb_true_r. exists None. eexists _, false.
    split_and!; [done|by constructor|].
    apply got_none. intros v (k' & E & _)%has_short_inv. rewrite E, take_app_length in Ep. done.
Qed.

Lemma tryGet_full fuel r ns f cs key pos : tryGet_at fuel -> canon (TFull cs) -> bounded (TFull cs) ->
  hexkey (drop pos key) -> (2 * length (drop pos key) < S fuel)%nat -> Forall2 (rep false) ns cs ->
  flags_ok trie_read r f (TFull cs) -> tryGet_spec (S fuel) r (fullNode ns f) (TFull cs) key pos.
Proof.
  intros IH Hc Hb Hkey Hf Hns Hfl. unfold tryGet_spec. simpl.
  destruct (drop pos key) as [|x kr] eqn:Ek; [by apply hexkey_nonempty in Hkey|].
  assert (Ex : key !! pos = Some x) by (rewrite <- (Nat.add_0_r pos), <- lookup_drop, Ek; done).
  assert (Er : drop (pos + 1) key = kr) by (rewrite <- drop_drop, Ek; done). rewrite Ex.
  destruct (full_descend _ _ _ _ Hns Hc Hkey) as (nc & c & -> & Ec & Hrc & Hsc & Hrk & Hx).
  rewrite <- Er in Hsc, Hrk.
  destruct (IH false nc c key (pos + 1)%nat Hrc Hsc Hrk (bounded_full _ _ _ Hb Ec)) as (o & n2 & b & -> & Hr2 & Hg).
  { rewrite Er. simpl length in Hf. by apply (cost_short nc 1); [lia|]. }
  simpl. exists o. eexists _, b. split_and!; [done| |].
  - destruct b; constructor; try done. rewrite <- (list_insert_id cs (Z.to_nat x) c) by done. by apply Forall2_insert.
  - intros v. rewrite (has_full_cons _ _ _ _ _ (proj1 Hx) Ec). rewrite <- Er. apply Hg.
Qed.

Lemma tryGet_ok fuel : tryGet_at fuel.
Proof.
  induction fuel as [|fuel IH]; intros r n t key pos Hr Hs Hk Hb Hf; [lia|].
  destruct (slot_bounds _ _ Hs) as [(x & kr & Ek & Hc)|[->|[Ek (v & -> & Hv)]]].
  2: { rewrite (rep_tnil_inv _ _ Hr). exists None, nilNode, false. split_and!; [done|constructor|].
       apply got_none. intros v. apply has_nil_inv. }
  2: { rewrite (rep_tval_inv _ _ _ Hr). exists (Some v), (valueNode v), false. split_and!; [done|constructor|].
       intros w. rewrite Ek, has_val_inv. naive_solver. }
  assert (Hkey : hexkey (drop pos key)) by (destruct Hk as [Hk|Hk]; [congruence|done]).
  destruct (is_hashNode n) eqn:Hn.
  { destruct n as [| | |h|]; try done. unfold hash_cost in Hf. simpl in Hf.
    destruct (resolveHash_ok r h t (take pos key) Hr Hc Hb) as (n' & E & Hr' & Hn').
    destruct (IH r n' t key pos Hr' Hs Hk Hb) as (o & n2 & b & E2 & Hr2 & Hg); [rewrite cost_zero by done; lia|].
    unfold tryGet_spec. simpl. rewrite E. simpl. rewrite E2. simpl. eauto 10. }
  rewrite cost_zero, Nat.add_0_r in Hf by done. destruct t as [|v|k s|cs]; try by inversion Hc.
  - destruct (rep_short_inv _ _ _ _ Hr Hn) as (n' & f & -> & Hr' & Hfl). by apply tryGet_short.
  - destruct (rep_full_inv _ _ _ Hr Hn) as (ns & f & -> & Hns & Hfl). by apply tryGet_full.
Qed.

(** ** Insertion *)

Definition insert_spec (fuel : nat) (r : bool) (n : node) (t : tree) (prefix key v : bytes) : Prop :=
  exists b n' t', insert T fuel n prefix key (valueNode v) = Ok (b, n') /\ rep r n' t' /\
    inserted t key v t' /\ (b = false -> t' = t).

Definition insert_at (fuel : nat) : Prop := forall r n t prefix key v,
  rep r n t -> slot key t -> rest_ok key -> bounded t -> v <> [] ->
  (2 * length key + hash_cost n < fuel)%nat -> insert_spec fuel r n t prefix key v.

(** Inserting into nothing puts the key in front. *)
Lemma insert_nil fuel prefix key n s : (0 < fuel)%nat -> rep false n s ->
  exists b n', insert T fuel nilNode prefix key n = Ok (b, n') /\ rep false n' (pre key s).
Proof.
  intros Hf Hr. destruct fuel as [|fuel]; [lia|]. destruct key as [|x key]; simpl; [by eauto|].
  eexists _, _. split; [done|]. by constructor.
Qed.

(** No unchanged subtree without an unchanged tree. *)
Lemma inserted_same t key v : inserted t key v t -> has t key v.
Proof. intros (_ & _ & _ & Hh). apply Hh. by left. Qed.

Lemma rep_branch2 x y nx ny tx ty : rep false nx tx -> rep false ny ty ->
  Forall2 (rep false) (set_child (set_child (replicate 17 nilNode) x nx) y ny)
    (branch2 (Z.to_nat x) (Z.to_nat y) tx ty).
Proof.
  intros Hx Hy. apply Forall2_insert; [|done]. apply Forall2_insert; [|done].
  apply Forall2_replicate. constructor.
Qed.

Lemma insert_short fuel r k n' f s prefix key v : (0 < fuel)%nat -> insert_at fuel -> canon (TShort k s) ->
  bounded (TShort k s) -> v <> [] -> hexkey key -> (2 * length key < S fuel)%nat -> rep false n' s ->
  flags_ok trie_read r f (TShort k s) -> insert_spec (S fuel) r (shortNode k n' f) (TShort k s) prefix key v.
Proof.
  intros Hf0 IH Hc Hb Hv Hkey Hf Hr' Hfl.
  destruct (prefixLen_spec key k) as (p & ra & rb & -> & -> & Hm & Hd). unfold insert_spec. simpl.
  destruct (p ++ ra) as [|k0 krest] eqn:Ek; [by apply hexkey_nonempty in Hkey|]. rewrite <- Ek in *. rewrite Hm.
  destruct rb as [|x rb].
  - rewrite app_nil_r in *. rewrite Nat.eqb_refl, take_app_length, drop_app_length.
    destruct (short_descend _ _ _ Hc Hkey) as (Hss & Hkk & Hcase).
    destruct (IH false n' s (prefix ++ p) ra v Hr' Hss Hkk (bounded_short _ _ Hb) Hv) as (b & n2 & s' & -> & Hr2 & Hi & Hsame).
    { rewrite length_app in Hf. by eapply cost_short, Hf; eapply short_key_pos. }
    pose proof (inserted_short _ _ _ _ _ Hc Hi Hcase Hkey) as Hi'. simpl.
    destruct b; simpl; eexists _, _, (TShort p s'); split_and!; try done; [by constructor| |].
    + rewrite (Hsame eq_refl) in *. by constructor.
    + intros _. by rewrite Hsame.
  - rewrite length_app. simpl length. rewrite (proj2 (Nat.eqb_neq _ _)) by lia.
    destruct (short_tail_ok _ _ _ _ Hc) as (Hp & Hx & _).
    destruct ra as [|y ra]; [rewrite app_nil_r in Hkey; destruct (hexkey_nonempty []); [|done];
      by apply (hexkey_app p []); [|rewrite app_nil_r]|].
    assert (Hne : x <> y) by (intros ->; by apply (Hd y y ra rb)).
    pose proof (hexkey_index _ _ (proj1 (hexkey_app p _ Hp) Hkey)) as Hy.
    rewrite !list_lookup_middle by done. rewrite !(cons_middle _ p), !app_assoc.
    rewrite !drop_app_length' by (rewrite length_app; simpl; lia).
    destruct (insert_nil fuel (prefix ++ take (S (length p)) ((p ++ [x]) ++ rb)) rb n' s Hf0 Hr') as (b1 & c1 & -> & Hc1).
    simpl. rewrite (proj2 (Z.leb_le x 16)) by lia. simpl.
    destruct (insert_nil fuel (prefix ++ take (S (length p)) ((p ++ [y]) ++ ra)) ra (valueNode v) (TVal v) Hf0
      (rep_val _ _ _)) as (b2 & c2 & -> & Hc2). simpl. rewrite (proj2 (Z.leb_le y 16)) by lia. simpl.
    rewrite <- !app_assoc. simpl. rewrite take_app_length.
    assert (Hrb : rep false (fullNode (set_child (set_child (replicate 17 nilNode) x c1) y c2) (newFlag T))
      (TFull (branch2 (Z.to_nat x) (Z.to_nat y) (pre rb s) (pre ra (TVal v)))))
      by (constructor; [done|by apply rep_branch2]).
    pose proof (inserted_branch p x rb s y ra v Hc Hkey Hne Hv) as Hi.
    destruct p as [|p0 p]; simpl; eexists true, _, _; split_and!; try done.
    + by inversion Hrb; subst; constructor.
    + by constructor.
Qed.

Lemma insert_full fuel r ns f cs prefix key v : insert_at fuel -> canon (TFull cs) -> bounded (TFull cs) ->
  v <> [] -> hexkey key -> (2 * length key < S fuel)%nat -> Forall2 (rep false) ns cs ->
  flags_ok trie_read r f (TFull cs) -> insert_spec (S fuel) r (fullNode ns f) (TFull cs) prefix key v.
Proof.
  intros IH Hc Hb Hv Hkey Hf Hns Hfl. unfold insert_spec. simpl.
  destruct key as [|x key]; [by apply hexkey_nonempty in Hkey|].
  destruct (full_descend _ _ _ _ Hns Hc Hkey) as (nc & c & -> & Ec & Hrc & Hsc & Hrk & Hx).
  destruct (IH false nc c (prefix ++ [x]) key v Hrc Hsc Hrk (bounded_full _ _ _ Hb Ec) Hv) as (b & n2 & c' & -> & Hr2 & Hi & Hsame).
  { by apply (cost_short nc 1); [lia|]. }
  pose proof (inserted_full _ _ _ _ _ _ Hc Hkey Ec Hi) as Hi'. simpl.
  destruct b; simpl; eexists _, _, (TFull (<[Z.to_nat x := c']> cs)); split_and!; try done.
  - constructor; [done|]. by apply Forall2_insert.
  - rewrite (Hsame eq_refl), list_insert_id by done. by constructor.
  - intros _. by rewrite (Hsame eq_refl), list_insert_id.
Qed.

Lemma insert_ok fuel : insert_at fuel.
Proof.
  induction fuel as [|fuel IH]; intros r n t prefix key v Hr Hs Hk Hb Hv Hf; [lia|].
  destruct (slot_bounds _ _ Hs) as [(x & kr & Ek & Hc)|[->|[-> (w & -> & Hw)]]].
  2: { rewrite (rep_tnil_inv _ _ Hr). unfold insert_spec. destruct Hk as [->|Hk].
       - exists true, (valueNode v), (TVal v). split_and!; [done|constructor|by apply inserted_value|done].
       - exists true, (shortNode key (valueNode v) (newFlag T)), (TShort key (TVal v)).
         split_and!; [destruct key; [by apply hexkey_nonempty in Hk|done]| |by apply inserted_nil|done].
         constructor; [done|constructor]. }
  2: { rewrite (rep_tval_inv _ _ _ Hr). unfold insert_spec. simpl. eexists _, _, (TVal v).
       split_and!; [done|constructor|by apply inserted_value|]. intros E%negb_false_iff. by case_bool_decide; subst. }
  assert (Hkey : hexkey key) by (destruct Hk as [Hk|Hk]; [congruence|done]).
  destruct (is_hashNode n) eqn:Hn.
  { destruct n as [| | |h|]; try done. unfold hash_cost in Hf. simpl in Hf.
    destruct (resolveHash_ok r h t prefix Hr Hc Hb) as (n' & E & Hr' & Hn').
    destruct (IH r n' t prefix key v Hr' Hs Hk Hb Hv) as (b & n2 & t' & E2 & Hr2 & Hi & Hsame); [rewrite cost_zero by done; lia|].
    unfold insert_spec. rewrite Ek in E2 |- *. simpl. rewrite E. simpl. rewrite E2. rewrite <- Ek. simpl. destruct b; simpl.
    - eexists _, _, t'. by split_and!.
    - rewrite (Hsame eq_refl) in *. eexists _, _, t. by split_and!. }
  rewrite cost_zero, Nat.add_0_r in Hf by done. destruct t as [|w|k s|cs]; try by inversion Hc.
  - destruct (rep_short_inv _ _ _ _ Hr Hn) as (n' & f & -> & Hr' & Hfl). apply insert_short; try done.
    rewrite Ek in Hf. simpl in Hf. lia.
  - destruct (rep_full_inv _ _ _ Hr Hn) as (ns & f & -> & Hns & Hfl). by apply insert_full.
Qed.

(** ** Deletion *)

Definition delete_spec (fuel : nat) (r : bool) (n : node) (t : tree) (prefix key : bytes) : Prop :=
  exists b n' t', trie_delete T fuel n prefix key = Ok (b, n') /\ rep r n' t' /\ deleted t key t' /\
    (b = false -> t' = t) /\ (b = true -> is_hashNode n' = false).

Definition delete_at (fuel : nat) : Prop := forall r n t prefix key,
  rep r n t -> slot key t -> rest_ok key -> bounded t ->
  (2 * length key + hash_cost n < fuel)%nat -> delete_spec fuel r n t prefix key.

(** The loop over the children finds out how many are left. *)
Lemma single_child_found ns : forall i pos, 0 <= i -> pos <> -1 ->
  single_child i pos ns = if forallb (fun n => match n with nilNode => true | _ => false end) ns then pos else -2.
Proof.
  induction ns as [|n ns IH]; intros i pos Hi Hp; simpl; [done|].
  destruct n; simpl; try (rewrite (proj2 (Z.eqb_neq pos (-1))) by done; done).
  apply IH; lia.
Qed.

Definition all_nil (ns : list node) : Prop := Forall (fun n => n = nilNode) ns.

Lemma all_nil_forallb ns :
  forallb (fun n => match n with nilNode => true | _ => false end) ns = true <-> all_nil ns.
Proof.
  unfold all_nil. induction ns as [|n ns IH]; simpl; [by split|]. rewrite Forall_cons, <- IH.
  destruct n; simpl; naive_solver.
Qed.

Lemma single_child_spec ns : forall i, 0 <= i ->
  (all_nil ns /\ single_child i (-1) ns = -1) \/
  (exists l n l', ns = l ++ n :: l' /\ all_nil l /\ n <> nilNode /\
     ((all_nil l' /\ single_child i (-1) ns = i + zlen l) \/ (~ all_nil l' /\ single_child i (-1) ns = -2))).
Proof.
  induction ns as [|n ns IH]; intros i Hi; [left; by split; [constructor|]|].
  assert (n = nilNode \/ n <> nilNode) as [->|Hn] by (destruct n; by (left + right)).
  - simpl. destruct (IH (i + 1) ltac:(lia)) as [[Ha ->]|(l & n & l' & -> & Hl & Hn & Hc)].
    + left. split; [by constructor|done].
    + right. exists (nilNode :: l), n, l'. split_and!; [done|by constructor|done|].
      destruct Hc as [[? ->]|[? ->]]; [left|by right]. split; [done|]. rewrite zlen_cons. lia.
  - right. exists [], n, ns. split_and!; [done|constructor|done|].
    assert (E : single_child i (-1) (n :: ns) = single_child (i + 1) i ns) by (by destruct n).
    rewrite E, single_child_found, zlen_nil, Z.add_0_r by lia.
    destruct (forallb _ ns) eqn:F; [left|right]; (split; [|done]).
    + by apply all_nil_forallb.
    + rewrite <- all_nil_forallb, F. done.
Qed.

Lemma resolve_ok r n t prefix : rep r n t -> canon t -> bounded t ->
  exists n', resolve T n prefix = Ok n' /\ rep r n' t /\ is_hashNode n' = false.
Proof.
  intros Hr Hc Hb. destruct (is_hashNode n) eqn:Hn; [|by destruct n; try done; eexists].
  destruct n as [| | |h|]; try done. by apply resolveHash_ok.
Qed.

Lemma all_nil_lookup ns cs i c : Forall2 (rep false) ns cs -> all_nil ns -> cs !! i = Some c -> c = TNil.
Proof.
  intros Hns Ha E. destruct (Forall2_lookup_r _ _ _ _ _ Hns E) as (n & En & Hr).
  unfold all_nil in Ha. rewrite Forall_lookup in Ha. specialize (Ha i n En). by apply (rep_nil_iff _ _ _ Hr).
Qed.

(** One child left. *)
Lemma reduce_single r prefix i n c : (i <= 16)%nat -> rep false n c -> child_ok i c -> c <> TNil -> bounded c ->
  exists n', (let! cnode := if negb (Z.of_nat i =? 16) then resolve T n prefix else Ok nilNode in
     match cnode with
     | shortNode k v _ => Ok (true, shortNode (Z.of_nat i :: k) v (newFlag T))
     | _ => Ok (true, shortNode [Z.of_nat i] n (newFlag T))
     end) = Ok (true, n') /\
    rep r n' (collapse1 (Z.of_nat i) c) /\ is_hashNode n' = false.
Proof.
  intros Hi Hr [?|Hc] Hn Hb; [done|]. destruct (Nat.ltb_spec i 16).
  - rewrite (proj2 (Z.eqb_neq _ _)) by lia. simpl.
    destruct (resolve_ok _ _ _ prefix Hr Hc Hb) as (n2 & -> & Hr2 & Hn2). simpl.
    inversion Hc as [k v Hk Hv|k cs Hk Hne Hc'|cs]; subst.
    1,2: destruct (rep_short_inv _ _ _ _ Hr2 Hn2) as (n3 & f & -> & Hr3 & _); simpl;
      eexists; split_and!; [done|by constructor|done].
    destruct (rep_full_inv _ _ _ Hr2 Hn2) as (n3 & f & -> & Hr3 & _). simpl.
    eexists. split_and!; [done|by constructor|done].
  - assert (i = 16%nat) as -> by lia. destruct Hc as (v & -> & Hv). simpl.
    eexists. split_and!; [done|by constructor|done].
Qed.

Lemma reduce_full_ok r ns cs prefix : Forall2 (rep false) ns cs -> length cs = 17%nat ->
  (forall i c, cs !! i = Some c -> child_ok i c /\ bounded c) -> (exists i c, cs !! i = Some c /\ c <> TNil) ->
  exists n' t', reduce_full T ns prefix = Ok (true, n') /\ rep r n' t' /\ is_hashNode n' = false /\ canon t' /\
    forall k w, has t' k w <-> has (TFull cs) k w.
Proof.
  intros Hns Hl Hok (i0 & c0 & E0 & N0). unfold reduce_full.
  destruct (single_child_spec ns 0 ltac:(lia)) as [[Ha _]|(l & n & l' & -> & Hnl & Hn & Hpos)].
  { by destruct N0; eapply all_nil_lookup. }
  apply Forall2_app_inv_l in Hns as (tl & tr & Hl1 & Hr1 & ->).
  apply Forall2_cons_inv_l in Hr1 as (c & tr' & Hr & Hr' & ->).
  pose proof (Forall2_length _ _ _ Hl1) as Hll.
  assert (Ec : (tl ++ c :: tr') !! length l = Some c) by (rewrite Hll; by apply list_lookup_middle).
  assert (Nc : c <> TNil) by (intros ->; by apply Hn, (rep_nil_iff _ _ _ Hr)).
  assert (Hi16 : (length l <= 16)%nat) by (rewrite length_app in Hl; simpl in Hl; lia).
  destruct Hpos as [[Ha ->]|[Ha ->]].
  - rewrite Z.add_0_l. zcase; [|zlen_lia]. unfold child, zlen. rewrite Nat2Z.id, list_lookup_middle by done.
    destruct (Hok _ _ Ec) as [Hck Hcb].
    destruct (reduce_single r prefix (length l) n c Hi16 Hr Hck Nc Hcb) as (n' & -> & Hr2 & Hn2).
    eexists _, _. split_and!; [done|done|done|by apply collapse1_canon|].
    intros k w. rewrite collapse1_has. symmetry. apply single_has; [done|].
    intros j d Ed Hj. destruct (decide (j < length tl)%nat).
    + rewrite lookup_app_l in Ed by done. by eapply (all_nil_lookup l tl).
    + rewrite lookup_app_r in Ed by lia. destruct (j - length tl)%nat as [|j'] eqn:Ej; [lia|].
      simpl in Ed. by eapply (all_nil_lookup l' tr').
  - simpl. eexists _, (TFull (tl ++ c :: tr')). split_and!; [done| |done| |done].
    + constructor; [done|]. apply Forall2_app; [done|]. by constructor.
    + apply canon_full_iff. split_and!; [done|intros i d Ed; by apply (Hok i d)|].
      assert (exists j n2, l' !! j = Some n2 /\ n2 <> nilNode) as (j & n2 & Ej & Hn2).
      { apply not_Forall_Exists, Exists_exists in Ha; [|intros x; destruct x; by (left + right)].
        destruct Ha as (x & (j & Hj)%list_elem_of_lookup_1 & Hx). eauto. }
      destruct (Forall2_lookup_l _ _ _ _ _ Hr' Ej) as (d & Ed & Hrd).
      exists (length l), (length tl + S j)%nat, c, d. split_and!; [lia|done| |done|].
      * rewrite lookup_app_r by lia. by rewrite Nat.add_sub' by lia.
      * intros ->. by apply Hn2, (rep_nil_iff _ _ _ Hrd).
Qed.

Lemma short_absent p ra k s w : (forall x y ra' rb', ra = x :: ra' -> k = y :: rb' -> x <> y) -> k <> [] ->
  ~ has (TShort (p ++ k) s) (p ++ ra) w.
Proof.
  intros Hd Hk (k' & E & _)%has_short_inv. rewrite <- app_assoc in E. apply app_inv_head in E.
  destruct k as [|y k]; [done|]. destruct ra as [|x ra]; [done|]. injection E as -> _. by eapply Hd.
Qed.

Lemma delete_short fuel r k n' f s prefix key : delete_at fuel -> canon (TShort k s) ->
  bounded (TShort k s) -> hexkey key -> (2 * length key < S fuel)%nat -> rep false n' s ->
  flags_ok trie_read r f (TShort k s) -> delete_spec (S fuel) r (shortNode k n' f) (TShort k s) prefix key.
Proof.
  intros IH Hc Hb Hkey Hf Hr' Hfl.
  destruct (prefixLen_spec key k) as (p & ra & rb & -> & -> & Hm & Hd). unfold delete_spec. simpl. rewrite Hm.
  destruct rb as [|x rb].
  2: { rewrite length_app. simpl length. rewrite (proj2 (Nat.ltb_lt _ _)) by lia.
       eexists false, _, _. split_and!; [done|by constructor| |done|done].
       apply deleted_absent; [apply slot_hexkey; [done|by right]|]. intros w. by apply short_absent. }
  rewrite app_nil_r in *. rewrite (proj2 (Nat.ltb_ge _ _)), length_app by lia.
  destruct (short_descend _ _ _ Hc Hkey) as (Hss & Hkk & Hcase).
  destruct ra as [|y ra].
  - rewrite (proj2 (Nat.eqb_eq _ _)) by (simpl; lia). rewrite app_nil_r in *.
    eexists true, _, TNil. split_and!; [done|constructor| |done|done]. apply deleted_only.
    intros k w (k' & -> & Hh)%has_short_inv.
    destruct Hss as [->|(v & -> & _)]; [by apply has_nil_inv in Hh|]. apply has_val_inv in Hh as [-> _]. by rewrite app_nil_r.
  - rewrite (proj2 (Nat.eqb_neq _ _)) by (simpl; lia). destruct Hcase as [?|[cs ->]]; [done|].
    rewrite take_app_length, drop_app_length.
    destruct (IH false n' (TFull cs) (prefix ++ p) (y :: ra) Hr' Hss Hkk (bounded_short _ _ Hb))
      as (b & n2 & s' & -> & Hr2 & Hdel & Hsame & Hnh).
    { rewrite length_app in Hf. by eapply cost_short, Hf; eapply short_key_pos. }
    pose proof (deleted_short _ _ _ _ Hc Hkey Hdel) as Hdel'. simpl. destruct b; simpl.
    + specialize (Hnh eq_refl). destruct s' as [|w|k2 s2|cs2].
      1,2,4: exists true, (shortNode p n2 (newFlag T)); eexists; (split_and!; [|by constructor|exact Hdel'|done|done]);
        inversion Hr2; subst; done.
      destruct (rep_short_inv _ _ _ _ Hr2 Hnh) as (n3 & f3 & -> & Hr3 & _).
      eexists true, _, _. split_and!; [done|by constructor|exact Hdel'|done|done].
    + rewrite (Hsame eq_refl) in *. eexists false, _, _. split_and!; [done|by constructor|exact Hdel'|done|done].
Qed.

Lemma delete_full fuel r ns f cs prefix key : delete_at fuel -> canon (TFull cs) -> bounded (TFull cs) ->
  hexkey key -> (2 * length key < S fuel)%nat -> Forall2 (rep false) ns cs ->
  flags_ok trie_read r f (TFull cs) -> delete_spec (S fuel) r (fullNode ns f) (TFull cs) prefix key.
Proof.
  intros IH Hc Hb Hkey Hf Hns Hfl. unfold delete_spec. simpl.
  destruct key as [|x key]; [by apply hexkey_nonempty in Hkey|].
  destruct (full_descend _ _ _ _ Hns Hc Hkey) as (nc & c & -> & Ec & Hrc & Hsc & Hrk & Hx).
  destruct (IH false nc c (prefix ++ [x]) key Hrc Hsc Hrk (bounded_full _ _ _ Hb Ec)) as (b & n2 & c' & -> & Hr2 & [Hs' Hh] & Hsame & _).
  { by apply (cost_short nc 1); [lia|]. }
  pose proof (deleted_child cs x key c c' Ec ltac:(lia) Hh) as Hdel. simpl. destruct b; simpl.
  - pose proof (proj1 (canon_full_iff cs) Hc) as (Hl & Hch & i & j & ci & cj & Hij & Ei & Ej & Ni & Nj).
    destruct (reduce_full_ok r (set_child ns x n2) (<[Z.to_nat x := c']> cs) prefix) as (n' & t' & -> & Hr' & Hn' & Hc' & Hht).
    + by apply Forall2_insert.
    + by rewrite length_insert.
    + intros i' d Ed. split.
      * apply list_lookup_insert_Some in Ed as [(<- & <- & _)|[_ Ed]]; [|by apply Hch].
        apply hexkey_cons in Hkey as [[-> ->]|[Hx' Hk']]; [done|]. unfold is_nibble in Hx'.
        unfold child_ok. rewrite (proj2 (Nat.ltb_lt _ _)) by lia. by apply slot_hexkey in Hs'.
      * apply list_lookup_insert_Some in Ed as [(<- & <- & _)|[_ Ed]]; [|by eapply bounded_full].
        intros k w Hk'. apply Hh in Hk' as [_ Hk']. by apply (bounded_full _ _ _ Hb Ec).
    + destruct (decide (i = Z.to_nat x)) as [->|Hi].
      * exists j, cj. by rewrite list_lookup_insert_ne.
      * exists i, ci. by rewrite list_lookup_insert_ne.
    + exists true, n', t'. split_and!; [done|done| |done|done]. split; [by apply slot_cons|].
      intros k w. by rewrite Hht, Hdel.
  - rewrite (Hsame eq_refl), list_insert_id in Hdel by done.
    eexists false, _, (TFull cs). split_and!; [done|by constructor| |done|done]. split; [by apply slot_cons|done].
Qed.

Lemma delete_ok fuel : delete_at fuel.
Proof.
  induction fuel as [|fuel IH]; intros r n t prefix key Hr Hs Hk Hb Hf; [lia|].
  destruct (slot_bounds _ _ Hs) as [(x & kr & Ek & Hc)|[->|[-> (w & -> & Hw)]]].
  2: { rewrite (rep_tnil_inv _ _ Hr). exists false, nilNode, TNil. split_and!; [done|constructor| |done|done].
       apply deleted_only. by intros k w ?%has_nil_inv. }
  2: { rewrite (rep_tval_inv _ _ _ Hr). exists true, nilNode, TNil. split_and!; [done|constructor| |done|done].
       apply deleted_only. by intros k w' [-> _]%has_val_inv. }
  assert (Hkey : hexkey key) by (destruct Hk as [Hk|Hk]; [congruence|done]).
  destruct (is_hashNode n) eqn:Hn.
  { destruct n as [| | |h|]; try done. unfold hash_cost in Hf. simpl in Hf.
    destruct (resolveHash_ok r h t prefix Hr Hc Hb) as (n' & E & Hr' & Hn').
    destruct (IH r n' t prefix key Hr' Hs Hk Hb) as (b & n2 & t' & E2 & Hr2 & Hd & Hsame & Hnh); [rewrite cost_zero by done; lia|].
    unfold delete_spec. simpl. rewrite E. simpl. rewrite E2. simpl. destruct b; simpl.
    - eexists _, _, t'. by split_and!.
    - rewrite (Hsame eq_refl) in *. eexists _, _, t. by split_and!. }
  rewrite cost_zero, Nat.add_0_r in Hf by done. destruct t as [|w|k s|cs]; try by inversion Hc.
  - destruct (rep_short_inv _ _ _ _ Hr Hn) as (n' & f & -> & Hr' & Hfl). by apply delete_short.
  - destruct (rep_full_inv _ _ _ Hr Hn) as (ns & f & -> & Hns & Hfl). by apply delete_full.
Qed.
End Simulation.

(** Keys and values that fit into Go slices; a trie holds no empty value. *)
Definition key_ok (k : bytes) : Prop := bytes_ok k /\ zlen k < 2 ^ 54.
Definition val_ok (v : bytes) : Prop := bytes_ok v /\ zlen v < 2 ^ 56.
Definition entries_ok (m : gmap bytes bytes) : Prop :=
  forall k v, m !! k = Some v -> key_ok k /\ val_ok v /\ v <> [].

(** The tree holds exactly the entries of the map. *)
Definition holds (t : tree) (m : gmap bytes bytes) : Prop :=
  entries_ok m /\ forall key v, has t key v <-> exists k, key = keybytesToHex k /\ m !! k = Some v.

Lemma holds_bounded t m : holds t m -> bounded t.
Proof.
  intros [Ho Hh] key v (k & -> & E)%Hh. destruct (Ho k v E) as ([_ Hk] & [Hv Hl] & _).
  split_and!; [|done..]. unfold keybytesToHex. unfold zlen in *.
  rewrite length_app, length_keybytes_nibbles. simpl. lia.
Qed.

Lemma holds_empty : holds TNil ∅.
Proof.
  split; [by intros k v ?%lookup_empty_Some|]. intros key v. split; [by intros ?%has_nil_inv|].
  by intros (k & _ & ?%lookup_empty_Some).
Qed.

Lemma holds_has t m k v : holds t m -> key_ok k -> has t (keybytesToHex k) v <-> m !! k = Some v.
Proof.
  intros [Ho Hh] [Hk _]. rewrite Hh. split; [|by eauto].
  intros (k' & E & Em). destruct (Ho k' v Em) as ([Hk' _] & _). by apply keybytesToHex_inj in E as ->.
Qed.

Lemma entries_ok_insert m k v : entries_ok m -> key_ok k -> val_ok v -> v <> [] -> entries_ok (<[k:=v]> m).
Proof. intros Ho Hk Hv Hn k' v' [[<- <-]|[_ ?]]%lookup_insert_Some; [done|by apply Ho]. Qed.

Lemma entries_ok_delete m k : entries_ok m -> entries_ok (delete k m).
Proof. intros Ho k' v' [_ E]%lookup_delete_Some. by apply Ho. Qed.

Lemma holds_inserted t m k v t' : holds t m -> key_ok k -> val_ok v -> v <> [] ->
  inserted t (keybytesToHex k) v t' -> holds t' (<[k:=v]> m).
Proof.
  intros Hm Hk Hv Hn (_ & _ & _ & Hi). pose proof Hm as [Ho Hh]. split; [by apply entries_ok_insert|].
  intros key w. rewrite Hi, Hh. setoid_rewrite lookup_insert_Some. split.
  - intros [[-> ->]|(Hne & k' & -> & E)]; [eauto|]. exists k'. split; [done|]. right. split; [by intros ->|done].
  - intros (k' & -> & [[-> ->]|[Hne E]]); [by left|]. right. split; [|by eauto].
    intros E'. destruct Hk as [Hk _]. destruct (Ho k' w E) as ([Hk' _] & _). by apply keybytesToHex_inj in E'.
Qed.

Lemma holds_deleted t m k t' : holds t m -> key_ok k -> deleted t (keybytesToHex k) t' -> holds t' (delete k m).
Proof.
  intros Hm Hk [_ Hi]. pose proof Hm as [Ho Hh]. split; [by apply entries_ok_delete|].
  intros key w. rewrite Hi, Hh. setoid_rewrite lookup_delete_Some. split.
  - intros (Hne & k' & -> & E). exists k'. split; [done|]. split; [by intros ->|done].
  - intros (k' & -> & Hne & E). split; [|by eauto]. intros E'. destruct Hk as [Hk _].
    destruct (Ho k' w E) as ([Hk' _] & _). by apply keybytesToHex_inj in E'.
Qed.

Definition canon_or_nil (t : tree) : Prop := t = TNil \/ canon t.

(** The contents determine the tree. *)
Lemma holds_unique t1 t2 m : canon_or_nil t1 -> canon_or_nil t2 -> holds t1 m -> holds t2 m -> t1 = t2.
Proof.
  intros C1 C2 [_ H1] [_ H2]. assert (S : same_contents t1 t2) by (intros key v; by rewrite H1, H2).
  destruct C1 as [->|C1], C2 as [->|C2].
  - done.
  - destruct (canon_inhabited _ C2) as (key & v & Hh). apply S in Hh. by apply has_nil_inv in Hh.
  - destruct (canon_inhabited _ C1) as (key & v & Hh). apply S in Hh. by apply has_nil_inv in Hh.
  - by apply canon_unique.
Qed.

Lemma canon_nil_slot t key : hexkey key -> canon_or_nil t <-> slot key t.
Proof. intros Hk. by rewrite slot_hexkey. Qed.

Section Refinement.
Context `{CryptoLaws} {DB : Type} `{Database DB}.

(** A trie that represents a map: what is in memory, what is in the database
    and what is cached. *)
Definition trie_rep (T : Trie DB) (m : gmap bytes bytes) : Prop :=
  exists t, canon_or_nil t /\ holds t m /\ rep (trie_read T) true (t_root T) t.

Definition updated (v k : bytes) (m : gmap bytes bytes) : gmap bytes bytes :=
  if zlen v =? 0 then delete k m else <[k:=v]> m.

Lemma trie_rep_root T n t m : canon_or_nil t -> holds t m -> rep (trie_read T) true n t ->
  trie_rep (set_root T n) m.
Proof. intros Hc Hm Hr. exists t. by split_and!. Qed.

Lemma hexkey_slot T m k : trie_rep T m -> key_ok k -> exists t, holds t m /\ bounded t /\
  rep (trie_read T) true (t_root T) t /\ slot (keybytesToHex k) t /\ rest_ok (keybytesToHex k) /\ canon_or_nil t.
Proof.
  intros (t & Hc & Hm & Hr) [Hk _]. exists t. pose proof (keybytesToHex_hexkey k Hk) as Hx.
  split_and!; try done; [by eapply holds_bounded|by apply canon_nil_slot|by right].
Qed.

Lemma key_fuel_ok n k : (2 * length k + hash_cost n < key_fuel k)%nat.
Proof. unfold key_fuel, hash_cost. destruct (is_hashNode n); lia. Qed.

Lemma TryGet_refines T m k : trie_rep T m -> key_ok k ->
  exists T', TryGet T k = Ok (m !! k, T') /\ trie_rep T' m.
Proof.
  intros HT Hk. destruct (hexkey_slot _ _ _ HT Hk) as (t & Hm & Hb & Hr & Hs & Hrk & Hc).
  destruct (tryGet_ok T (key_fuel (keybytesToHex k)) true (t_root T) t (keybytesToHex k) 0%nat) as (o & n' & b & E & Hr' & Hg);
    try done; [apply key_fuel_ok|]. unfold TryGet. rewrite E. simpl. eexists. split; [f_equal; f_equal|].
  - change (drop 0 (keybytesToHex k)) with (keybytesToHex k) in Hg. unfold got in Hg.
    setoid_rewrite (holds_has t m k _ Hm Hk) in Hg.
    apply option_eq. intros v. apply Hg.
  - destruct b; [by eapply trie_rep_root|]. by exists t.
Qed.

Lemma TryDelete_refines T m k : trie_rep T m -> key_ok k ->
  exists T', TryDelete T k = Ok T' /\ trie_rep T' (delete k m).
Proof.
  intros HT Hk. destruct (hexkey_slot _ _ _ HT Hk) as (t & Hm & Hb & Hr & Hs & Hrk & Hc).
  destruct (delete_ok T (key_fuel (keybytesToHex k)) true (t_root T) t [] (keybytesToHex k))
    as (b & n' & t' & E & Hr' & Hd & _); try done; [apply key_fuel_ok|].
  unfold TryDelete. rewrite E. simpl. eexists. split; [done|]. eapply trie_rep_root; [|by eapply holds_deleted|done].
  destruct Hd as [Hd _]. by apply (canon_nil_slot t' (keybytesToHex k)); [apply keybytesToHex_hexkey, Hk|].
Qed.

Lemma TryUpdate_refines T m k v : trie_rep T m -> key_ok k -> val_ok v ->
  exists T', TryUpdate T k v = Ok T' /\ trie_rep T' (updated v k m).
Proof.
  intros HT Hk Hv. unfold TryUpdate, updated. destruct (zlen v =? 0) eqn:Ev; cbn [negb].
  - by apply TryDelete_refines.
  - assert (v <> []) as Hn by (intros ->; done).
    destruct (hexkey_slot _ _ _ HT Hk) as (t & Hm & Hb & Hr & Hs & Hrk & Hc).
    destruct (insert_ok T (key_fuel (keybytesToHex k)) true (t_root T) t [] (keybytesToHex k) v)
      as (b & n' & t' & E & Hr' & Hi & _); try done; [apply key_fuel_ok|].
    rewrite E. simpl. eexists. split; [done|]. eapply trie_rep_root; [|by eapply holds_inserted|done].
    destruct Hi as [Hi _]. by apply (canon_nil_slot t' (keybytesToHex k)); [apply keybytesToHex_hexkey, Hk|].
Qed.

End Refinement.
