(* ===== verification/TrieRoot.v ===== *)
(** Correctness of the hasher: hashing computes the reference hash of the tree
    and keeps the representation; in commit mode every node that is referred to
    by hash is in the database afterwards.

    Root hashes and commits: a trie's root hash is a function of its contents,
    binds them, and a committed trie is loaded back with the same contents. *)
From S2P Require Import Prelude RlpEncode RlpCodec RlpTheorems RlpRaw Storage IstanbulTypes ValidatorSet TrieNode Trie TrieTree TrieRep TrieTheorems RlpDecode.

Section Commit.
Context `{CryptoLaws} {DB : Type} `{DatabaseKeeps DB}.

(** Encodings on which Keccak is assumed not to collide. *)
Context (K : bytes -> Prop) (K_inj : forall a b, K a -> K b -> Keccak256 a = Keccak256 b -> a = b).

(** The encodings of a tree are among them. *)
Definition known (t : tree) : Prop := forall s, s = t \/ desc t s -> inner s = true -> K (tenc s).

(** Under the hash of a known encoding the database has that encoding or nothing. *)
Definition clean (g : bytes -> option bytes) : Prop := forall e e', K e -> g (Keccak256 e) = Some e' -> e' = e.

Definition extends (g g' : bytes -> option bytes) : Prop := forall k v, g k = Some v -> g' k = Some v.

Lemma known_child t c : child_of t c -> known t -> known c.
Proof. intros Hc Ht s [->|Hs]; apply Ht; right; [by constructor|by eapply desc_step]. Qed.

(** ** A larger database *)

Lemma held_mono g g' t : extends g g' -> held g t -> held g' t.
Proof. intros Hx. apply Hx. Qed.

Lemma sub_stored_mono g g' t : extends g g' -> sub_stored g t -> sub_stored g' t.
Proof. intros Hx Hs s Hd Hb. by eapply held_mono, Hs. Qed.

Lemma stored_mono g g' t : extends g g' -> stored g t -> stored g' t.
Proof. intros Hx [? ?]. split; [by eapply held_mono|by eapply sub_stored_mono]. Qed.

Lemma flags_mono g g' r f t : extends g g' -> flags_ok g r f t -> flags_ok g' r f t.
Proof.
  intros Hx. unfold flags_ok. destruct (nf_hash f).
  - intros (-> & Hl & Hd). split_and!; [done..|]. intros E. by eapply stored_mono, Hd.
  - intros Hd E. destruct (Hd E) as (? & ? & ?). split_and!; [done..|]. by eapply sub_stored_mono.
Qed.

Lemma rep_mono g g' t : extends g g' -> forall r n, rep g r n t -> rep g' r n t.
Proof.
  intros Hx. induction t as [|v|k t IH|cs IH] using tree_ind'; intros r n Hr; inversion Hr; subst;
    try (constructor; try done; try (by eapply stored_mono); try (by eapply flags_mono)); auto.
  match goal with Hf : Forall2 _ _ _ |- _ => revert Hf end. intros Hf.
  clear -IH Hf. induction Hf as [|n c ns cs Hn Hf IHf]; [constructor|].
  inversion_clear IH. constructor; auto.
Qed.

Lemma extends_trans g1 g2 g3 : extends g1 g2 -> extends g2 g3 -> extends g1 g3.
Proof. intros H12 H23 k v E. auto. Qed.

(** ** Weakest preconditions of the hasher *)

Context (g0 : bytes -> option bytes).

Definition reads (db : option DB) : bytes -> option bytes :=
  match db with Some d => fun k => db_Get k d | None => g0 end.

(** The only error is a failing write. *)
Definition hwp {A} (m : HM A) (db : option DB) (Q : A -> option DB -> Prop) : Prop :=
  match m db with
  | (Ok a, db') => Q a db'
  | (Err e, _) => e = PutError /\ is_Some db
  | (Panic, _) => False
  end.

Definition same_mode (db db' : option DB) : Prop := is_Some db <-> is_Some db'.

Lemma hwp_ret {A} (a : A) db Q : Q a db -> hwp (hret a) db Q.
Proof. done. Qed.

Lemma hwp_bind {A B} (m : HM A) (f : A -> HM B) db Q :
  hwp m db (fun a db' => same_mode db db' /\ hwp (f a) db' Q) -> hwp (hbind m f) db Q.
Proof.
  unfold hwp, hbind. destruct (m db) as [[a|e|] db']; [|done..]. intros [Hm Hf].
  destruct (f a db') as [[b|e|] db'']; [done| |done]. destruct Hf. split; [done|by apply Hm].
Qed.

Lemma hwp_mono {A} (m : HM A) db Q Q' : hwp m db Q -> (forall a db', Q a db' -> Q' a db') -> hwp m db Q'.
Proof. unfold hwp. destruct (m db) as [[a|e|] db']; auto. Qed.

Lemma hwp_lift {A} (o : outcome trie_err A) a db Q : o = Ok a -> Q a db -> hwp (hlift o) db Q.
Proof. by intros ->. Qed.

(** Progress of the database while a tree is hashed. *)
Definition grows (db db' : option DB) : Prop :=
  same_mode db db' /\ extends (reads db) (reads db') /\ (is_Some db -> clean (reads db')).

Lemma grows_intro db db' : same_mode db db' -> extends (reads db) (reads db') ->
  (is_Some db -> clean (reads db')) -> grows db db'.
Proof. done. Qed.

Lemma grows_refl db : (is_Some db -> clean (reads db)) -> grows db db.
Proof. intros Hc. apply grows_intro; [by split|by intros k v|done]. Qed.

Lemma grows_trans db1 db2 db3 : grows db1 db2 -> grows db2 db3 -> grows db1 db3.
Proof.
  intros (S1 & E1 & C1) (S2 & E2 & C2). apply grows_intro; [by unfold same_mode in *; etrans|by eapply extends_trans|].
  intros Hs. apply C2. by apply S1.
Qed.

Lemma hput_wp e db Q : (is_Some db -> K e) -> (is_Some db -> clean (reads db)) ->
  (forall db', grows db db' -> (is_Some db -> reads db' (Keccak256 e) = Some e) -> Q tt db') ->
  hwp (hput (Keccak256 e) e) db Q.
Proof.
  intros He Hc HQ. unfold hwp, hput. destruct db as [d|]; [|apply HQ; [by apply grows_refl|by intros []]].
  destruct (db_Put (Keccak256 e) e d) as [d'|] eqn:E; [|by split; [|eexists]].
  specialize (Hc ltac:(by eexists)). specialize (He ltac:(by eexists)). apply HQ.
  - apply grows_intro; [by split; intros; eexists| |].
    + intros k v Hk. simpl in *. destruct (decide (k = Keccak256 e)) as [->|Hne].
      * rewrite (db_Get_eq _ _ _ _ E). by rewrite (Hc e v He Hk).
      * by rewrite (db_Get_ne _ _ _ _ _ E Hne).
    + intros _ a b Ha Hab. simpl in *. destruct (decide (Keccak256 a = Keccak256 e)) as [Ee|Hne].
      * rewrite Ee, (db_Get_eq _ _ _ _ E) in Hab. simplify_eq. symmetry. by apply K_inj.
      * rewrite (db_Get_ne _ _ _ _ _ E Hne) in Hab. by apply (Hc a b).
  - intros _. simpl. apply (db_Get_eq _ _ _ _ E).
Qed.

(** ** Collapsed nodes *)

Definition nenc (n : node) : bytes := rlp_enc (node_EncodeRLP n).

(** [hashed] is the form of [t] that its parent, or the root hash, refers to. *)
Definition collapsed_ok (force : bool) (t : tree) (hashed : node) : Prop :=
  value_ok (node_EncodeRLP hashed) /\ hashed <> nilNode /\
  if force then hashed = hashNode (thash t) else nenc hashed = tref t.

(** What a commit leaves in the database. *)
Definition committed (force : bool) (db db' : option DB) (t : tree) : Prop :=
  is_Some db -> sub_stored (reads db') t /\ (force = true \/ big t -> held (reads db') t).

Definition hash_post (force : bool) (db : option DB) (t : tree) : node * node -> option DB -> Prop :=
  fun '(hashed, cached) db' =>
    grows db db' /\ rep (reads db') force cached t /\ collapsed_ok force t hashed /\ committed force db db' t.

Lemma collapsed_hash force t : inner t = true -> (force = false -> 32 <= zlen (tenc t)) ->
  collapsed_ok force t (hashNode (thash t)).
Proof.
  intros Hi Hl. split_and!; [constructor; apply Keccak256_ok|done|]. destruct force; [done|].
  unfold nenc. simpl. rewrite tref_big; [done|]. unfold small. rewrite Hi, (proj2 (Z.leb_le _ _)) by auto. done.
Qed.

(** A cached hash that can be used. *)
Lemma use_cached_ok gen limit force db n t h dirty res :
  inner t = true -> rep (reads db) force n t -> is_hashNode n = false -> (is_Some db -> clean (reads db)) ->
  @node_cache trie_err n = Ok (h, dirty) ->
  use_cached gen limit n (match db with Some _ => true | None => false end) h dirty = Some res ->
  hash_post force db t res db.
Proof.
  intros Hi Hr Hn Hcl Hcache Hu. destruct h as [h|]; [|done].
  assert (exists f, nf_hash f = Some h /\ nf_dirty f = dirty /\ flags_ok (reads db) force f t /\
    node_canUnload n gen limit = nodeFlag_canUnload f gen limit) as (f & Ef & Ed & Hf & Hcu).
  { inversion Hr; subst; try done; injection Hcache as ? ?; eauto. }
  unfold flags_ok in Hf. rewrite Ef in Hf. destruct Hf as (-> & Hl & Hst).
  unfold use_cached in Hu. destruct db as [d|]; simpl in Hu.
  2: { injection Hu as <-. unfold hash_post. split_and!; [by apply grows_refl|done|by apply collapsed_hash|by intros []]. }
  assert (stored (reads (Some d)) t -> hash_post force (Some d) t (hashNode (thash t), n) (Some d) /\
    hash_post force (Some d) t (hashNode (thash t), hashNode (thash t)) (Some d)) as G.
  { intros [Hh Hs]. split; unfold hash_post; (split_and!; [by apply grows_refl|try done|by apply collapsed_hash|by split]).
    by constructor. }
  rewrite Hcu in Hu. unfold nodeFlag_canUnload in Hu. rewrite Ed in *.
  destruct dirty; simpl in Hu; [done|]. destruct (G (Hst eq_refl)) as [G1 G2]. by case_match; injection Hu as <-.
Qed.

(** ** Storing a collapsed node *)

Definition flag_of (n : node) (f : nodeFlag) : Prop :=
  match n with shortNode _ _ f' | fullNode _ f' => f' = f | _ => False end.

(** Whether the parent refers to the tree by hash. *)
Definition by_hash (force : bool) (t : tree) : bool := force || negb (zlen (tenc t) <? 32).

Lemma store_wp force c t f db Q :
  flag_of c f -> nenc c = tenc t -> value_ok (node_EncodeRLP c) -> enc_ok (tenc t) -> (is_Some db -> K (tenc t)) ->
  (forall h, nf_hash f = Some h -> h = thash t) -> (is_Some db -> clean (reads db)) ->
  (forall db', grows db db' -> (by_hash force t = true -> is_Some db -> held (reads db') t) ->
     Q (if by_hash force t then hashNode (thash t) else c) db') ->
  hwp (hasher_store c force) db Q.
Proof.
  intros Hf He Hv Hok HK Hh Hcl HQ. unfold hasher_store.
  assert (EncodeToBytes (node_EncodeRLP c) = Ok (tenc t)) as E.
  { rewrite <- He. apply EncodeToBytes_ref; [done|]. change (zlen (nenc c) < 2 ^ 64). rewrite He. destruct Hok. lia. }
  assert (G : hwp (match EncodeToBytes (node_EncodeRLP c) with
    | Ok tmp => if (zlen tmp <? 32) && negb force then hret c
                else hbind (hlift (node_cache c)) (fun '(h, _) =>
                  hbind (hput (match h with Some h => h | None => Keccak256 tmp end) tmp)
                    (fun _ => hret (hashNode (match h with Some h => h | None => Keccak256 tmp end))))
    | _ => hlift Panic end) db Q); [|by destruct c].
  rewrite E. unfold by_hash in HQ. destruct ((zlen (tenc t) <? 32) && negb force) eqn:B.
  - apply andb_true_iff in B as [B1 B2]. apply negb_true_iff in B2 as ->. rewrite B1 in HQ.
    apply hwp_ret, HQ; [by apply grows_refl|done].
  - assert (force || negb (zlen (tenc t) <? 32) = true) as B' by (by destruct force, (zlen (tenc t) <? 32)).
    rewrite B' in HQ. apply hwp_bind, (hwp_lift _ (nf_hash f, nf_dirty f)); [by destruct c; simpl in Hf; subst|].
    split; [done|].
    assert (match nf_hash f with Some h => h | None => Keccak256 (tenc t) end = Keccak256 (tenc t)) as ->.
    { destruct (nf_hash f) as [h|]; [|done]. by apply Hh. }
    apply hwp_bind, hput_wp; [done..|]. intros db' Hg Hheld. split; [apply Hg|]. apply hwp_ret, HQ; [done|].
    intros _ Hs. by apply Hheld.
Qed.

(** The flags after hashing. *)
Lemma cached_flags_ok force db db' t f c :
  flags_ok (reads db) force f t -> (db = None -> nf_hash f = None) -> grows db db' -> canon t ->
  is_hashNode c = false ->
  (is_Some db -> sub_stored (reads db') t) -> (by_hash force t = true -> is_Some db -> held (reads db') t) ->
  flags_ok (reads db') force
    (mkFlag (match (if by_hash force t then hashNode (thash t) else c) with hashNode h => Some h | _ => None end)
       (nf_gen f) (if match db with Some _ => true | None => false end then false else nf_dirty f)) t.
Proof.
  intros Hf Hnone Hg Hc Hcn Hsub Hheld. unfold by_hash in *. unfold flags_ok. simpl.
  destruct (force || negb (zlen (tenc t) <? 32)) eqn:B; simpl.
  - split_and!; [done|intros ->; simpl in B; zbool; lia|]. intros Hd.
    destruct db as [d|]; [split; [by apply Hheld|by apply Hsub]|].
    unfold flags_ok in Hf. rewrite (Hnone eq_refl) in Hf. destruct (Hf Hd) as (-> & Hl & _). simpl in B. zbool. lia.
  - apply orb_false_iff in B as [-> B]. zbool.
    assert (flags_ok (reads db) false f t -> (if match db with Some _ => true | None => false end then false else nf_dirty f) = false ->
      false = false /\ zlen (tenc t) < 32 /\ sub_stored (reads db') t) as G.
    { intros _ Hd. split_and!; [done|done|]. destruct db as [d|]; [by apply Hsub|].
      unfold flags_ok in Hf. rewrite (Hnone eq_refl) in Hf. destruct (Hf Hd) as (_ & _ & Hs).
      eapply sub_stored_mono; [apply Hg|done]. }
    destruct c; try done; exact (G Hf).
Qed.

(** ** Hashing *)

Context (gen limit : Z).

Definition hash_at (t : tree) : Prop := forall force n db,
  canon t -> bounded t -> (is_Some db -> known t) -> rep (reads db) force n t -> (is_Some db -> clean (reads db)) ->
  hwp (hasher_hash gen limit n force) db (hash_post force db t).

(** Children of one node, hashed one after the other. *)
Definition children_post (db : option DB) (cs : list tree) : list node * list node -> option DB -> Prop :=
  fun '(l1, l2) db' =>
    grows db db' /\ Forall2 (rep (reads db') false) l2 cs /\ map nenc l1 = map tref cs /\
    Forall (fun n => value_ok (node_EncodeRLP n)) l1 /\
    (is_Some db -> forall c, c ∈ cs -> sub_stored (reads db') c /\ (big c -> held (reads db') c)).

Lemma Forall2_rep_mono g g' ns cs : extends g g' -> Forall2 (rep g false) ns cs -> Forall2 (rep g' false) ns cs.
Proof. intros Hx Hf. eapply Forall2_impl; [done|]. intros n c. by apply rep_mono. Qed.

Lemma hash_child_wp i n c db : child_ok i c -> rep (reads db) false n c -> bounded c -> (is_Some db -> known c) -> hash_at c ->
  (is_Some db -> clean (reads db)) ->
  hwp (if (i <? 16)%nat then match n with nilNode => hret (valueNode [], nilNode)
       | _ => hasher_hash gen limit n false end
     else hret (match n with nilNode => valueNode [] | _ => n end, n)) db (hash_post false db c).
Proof.
  intros Hok Hr Hb Hk Hat Hcl.
  assert (Leaf : forall n1, inner c = false -> value_ok (node_EncodeRLP n1) -> n1 <> nilNode -> nenc n1 = tref c ->
    hash_post false db c (n1, n) db).
  { intros n1 Hi Hv Hn1 He. unfold hash_post. split_and!; [by apply grows_refl|done| |].
    - by split_and!.
    - intros _. split; [by apply sub_stored_leaf|]. intros [?|[Hi' _]]; [done|]. by rewrite Hi in Hi'. }
  destruct Hok as [->|Hok].
  - rewrite (rep_tnil_inv _ _ Hr) in *. by destruct (i <? 16)%nat; apply hwp_ret, Leaf; try done; constructor.
  - destruct (i <? 16)%nat.
    + assert (n <> nilNode) as Hn by (intros ->; inversion Hr; subst; by apply canon_not_nil in Hok).
      destruct n; try done; by apply Hat.
    + destruct Hok as (v & -> & Hv). rewrite (rep_tval_inv _ _ _ Hr) in *. apply hwp_ret, Leaf; try done.
      constructor. apply (Hb [] v). constructor.
Qed.

Lemma hash_children_wp ns cs : forall i db, Forall2 (rep (reads db) false) ns cs ->
  (forall j c, cs !! j = Some c -> child_ok (i + j) c /\ bounded c /\ (is_Some db -> known c) /\ hash_at c) ->
  (is_Some db -> clean (reads db)) ->
  hwp (hash_children_loop (hasher_hash gen limit) i ns) db (children_post db cs).
Proof.
  revert cs. induction ns as [|n ns IH]; intros cs i db Hns Hcs Hcl.
  { inversion Hns; subst. apply hwp_ret. unfold children_post. split_and!; try done; [by apply grows_refl|].
    intros _ c Hc. by apply not_elem_of_nil in Hc. }
  inversion Hns as [|? c ? cs' Hn Hns']; subst. cbn [hash_children_loop].
  destruct (Hcs O c eq_refl) as (Hok & Hb & Hk & Hat). rewrite Nat.add_0_r in Hok.
  apply hwp_bind. eapply hwp_mono; [by apply hash_child_wp|].
  intros [c1 c2] db1 (Hg1 & Hr1 & (Hv1 & _ & He1) & Hc1). split; [apply Hg1|].
  apply hwp_bind. eapply hwp_mono.
  { apply (IH cs' (S i) db1); [eapply Forall2_rep_mono; [apply Hg1|done]| |].
    - intros j d Ed. replace (S i + j)%nat with (i + S j)%nat by lia.
      destruct (Hcs (S j) d Ed) as (? & ? & Hkd & ?). split_and!; try done. intros Hs. by apply Hkd, Hg1.
    - intros Hs. apply Hg1. by apply Hg1. }
  intros [l1 l2] db2 (Hg2 & Hr2 & He2 & Hv2 & Hc2). split; [apply Hg2|]. apply hwp_ret. unfold children_post.
  split_and!.
  - by eapply grows_trans.
  - constructor; [|done]. eapply rep_mono; [apply Hg2|done].
  - simpl. by rewrite He1, He2.
  - by constructor.
  - intros Hs d [->|Hd]%elem_of_cons.
    + destruct (Hc1 Hs) as [Hs1 Hh1]. split; [eapply sub_stored_mono; [apply Hg2|done]|].
      intros Hbig. eapply held_mono; [apply Hg2|]. apply Hh1. by right.
    + apply Hc2; [by apply Hg1|done].
Qed.

Lemma hasher_hash_eq n force : hasher_hash gen limit n force =
  hbind (hlift (node_cache n)) (fun '(h, dirty) =>
  hbind is_commit (fun commit =>
  match use_cached gen limit n commit h dirty with
  | Some r => hret r
  | None =>
      hbind (hashChildren (hasher_hash gen limit) n) (fun '(collapsed, cached) =>
      hbind (hasher_store collapsed force) (fun hashed => hret (hashed, cache_hash hashed cached commit)))
  end)).
Proof. by destruct n. Qed.

(** The collapsed copy of a node and the copy that is kept. *)
Definition node_post (force : bool) (db : option DB) (t : tree) (f : nodeFlag) : node * node -> option DB -> Prop :=
  fun '(collapsed, cached) db' =>
    grows db db' /\ flag_of collapsed f /\ nenc collapsed = tenc t /\ value_ok (node_EncodeRLP collapsed) /\
    (forall db2 hashed, grows db' db2 ->
       flags_ok (reads db2) force
         (mkFlag (match hashed with hashNode h => Some h | _ => None end) (nf_gen f)
            (if match db with Some _ => true | None => false end then false else nf_dirty f)) t ->
       rep (reads db2) force (cache_hash hashed cached (match db with Some _ => true | None => false end)) t) /\
    (is_Some db -> sub_stored (reads db') t).

(** From the children to the node. *)
Lemma hash_node_wp force n t f db :
  canon t -> bounded t -> (is_Some db -> known t) -> rep (reads db) force n t -> flag_of n f -> (is_Some db -> clean (reads db)) ->
  hwp (hashChildren (hasher_hash gen limit) n) db (node_post force db t f) ->
  hwp (hasher_hash gen limit n force) db (hash_post force db t).
Proof.
  intros Hc Hb Hk Hr Hf Hcl Hch.
  assert (Hi : inner t = true) by (destruct t; try done; by inversion Hc).
  assert (Hn : is_hashNode n = false) by by destruct n.
  assert (Hfl : flags_ok (reads db) force f t).
  { destruct n; try done; simpl in Hf; subst; by inversion Hr. }
  assert (Hcache : @node_cache trie_err n = Ok (nf_hash f, nf_dirty f)) by (destruct n; simpl in Hf; by subst).
  rewrite hasher_hash_eq. apply hwp_bind, (hwp_lift _ _ _ _ Hcache). split; [done|].
  apply hwp_bind. unfold hwp at 1, is_commit. split; [done|].
  destruct (use_cached _ _ _ _ _ _) as [res|] eqn:Hu.
  { apply hwp_ret. by eapply use_cached_ok. }
  assert (Hnone : db = None -> nf_hash f = None).
  { intros ->. unfold use_cached in Hu. by destruct (nf_hash f). }
  apply hwp_bind. eapply hwp_mono; [exact Hch|]. intros [collapsed cached] db1 (Hg1 & Hfc & Henc & Hv & Hrep & Hs1).
  split; [apply Hg1|]. apply hwp_bind. apply (store_wp force collapsed t f); try done.
  - by apply canon_enc_ok.
  - intros Hs. apply Hk; [by apply Hg1|by left|done].
  - intros h Eh. unfold flags_ok in Hfl. rewrite Eh in Hfl. apply Hfl.
  - intros Hs. apply Hg1. by apply Hg1.
  - intros db2 Hg2 Hh2. split; [apply Hg2|]. apply hwp_ret. unfold hash_post.
    assert (Hg : grows db db2) by by eapply grows_trans.
    assert (Hs2 : is_Some db -> sub_stored (reads db2) t)
      by (intros Hs; eapply sub_stored_mono; [apply Hg2|by apply Hs1]).
    assert (Hh : by_hash force t = true -> is_Some db -> held (reads db2) t)
      by (intros Hbh Hs; apply Hh2; [done|by apply Hg1]).
    assert (Hcol : is_hashNode collapsed = false /\ collapsed <> nilNode) by by destruct collapsed.
    split_and!; [done| | |].
    + apply Hrep; [done|]. apply cached_flags_ok; try done. apply Hcol.
    + unfold by_hash. destruct (force || negb (zlen (tenc t) <? 32)) eqn:B.
      * apply collapsed_hash; [done|]. intros ->. simpl in B. zbool. lia.
      * apply orb_false_iff in B as [-> B]. zbool. split_and!; [done|apply Hcol|]. rewrite Henc.
        symmetry. apply tref_small. unfold small. rewrite Hi. simpl. by apply negb_true_iff, Z.leb_gt.
    + intros Hs. split; [by apply Hs2|]. intros Hbig. apply Hh; [|done]. unfold by_hash.
      destruct Hbig as [->|[_ Hl]]; [done|]. apply orb_true_iff. right. by apply negb_true_iff, Z.ltb_ge.
Qed.

Lemma hash_hashNode_wp force n t db : is_hashNode n = true -> rep (reads db) force n t ->
  (is_Some db -> clean (reads db)) -> hwp (hasher_hash gen limit n force) db (hash_post force db t).
Proof.
  intros Hn Hr Hcl. inversion Hr as [| |? ? Hi Hl Hst| |]; subst; try done.
  change (hash_post force db t (hashNode (thash t), hashNode (thash t)) db). unfold hash_post.
  split_and!; [by apply grows_refl|done|by apply collapsed_hash|]. destruct Hst. by split.
Qed.

Lemma hash_child_value k s n' db : canon (TShort k s) -> bounded (TShort k s) -> (is_Some db -> known (TShort k s)) ->
  rep (reads db) false n' s -> (is_Some db -> clean (reads db)) -> hash_at s ->
  hwp (match n' with valueNode _ => hret (n', n') | _ => hasher_hash gen limit n' false end) db (hash_post false db s).
Proof.
  intros Hc Hb Hk Hr' Hcl IH. inversion Hc as [? v Hkk Hv|? cs Hkk Hne Hc'|]; subst.
  - rewrite (rep_tval_inv _ _ _ Hr') in *. apply hwp_ret. unfold hash_post.
    split_and!; [by apply grows_refl|constructor| |].
    + split_and!; [|done|done]. constructor. apply (bounded_short _ _ Hb [] v). constructor.
    + intros _. split; [by apply sub_stored_leaf|]. intros [?|[? _]]; done.
  - assert (hwp (hasher_hash gen limit n' false) db (hash_post false db (TFull cs))) as Hat.
    { apply IH; try done; [by eapply bounded_short|].
      intros Hs. apply (known_child (TShort k (TFull cs))); [done|by apply Hk]. }
    destruct n'; try exact Hat; by inversion Hr'.
Qed.

Lemma hashChildren_short force k s n f db : hash_at s -> canon (TShort k s) -> bounded (TShort k s) ->
  (is_Some db -> known (TShort k s)) -> rep (reads db) force (shortNode k n f) (TShort k s) ->
  (is_Some db -> clean (reads db)) ->
  hwp (hashChildren (hasher_hash gen limit) (shortNode k n f)) db (node_post force db (TShort k s) f).
Proof.
  intros IH Hc Hb Hk Hr Hcl. inversion Hr as [| | |? ? ? ? ? Hfl Hr'|]; subst. unfold hashChildren.
  pose proof (canon_hexnode _ _ Hc) as Hx. destruct (compact_ok k Hx) as (_ & Hcb & _).
  apply hwp_bind, (hwp_lift _ (compact k)); [by apply compact_eq|]. split; [done|].
  apply hwp_bind. eapply hwp_mono; [by apply (hash_child_value k)|].
  intros [v1 v2] db1 (Hg1 & Hr1 & (Hv1 & Hn1 & He1) & Hc1). split; [apply Hg1|].
  apply hwp_ret. unfold node_post.
  replace (match v1 with nilNode => valueNode [] | _ => v1 end) with v1 by by destruct v1.
  split_and!; try done.
  - unfold nenc. simpl. unfold nenc in He1. rewrite He1, app_nil_r. done.
  - simpl. repeat constructor; done.
  - intros db2 hashed Hg2 Hf2. simpl. constructor; [done|]. eapply rep_mono; [apply Hg2|done].
  - intros Hs. destruct (Hc1 Hs) as [Hs1 Hh1]. apply sub_stored_intro. intros c ->. split; [|done].
    intros Hbig. apply Hh1. by right.
Qed.

Lemma hashChildren_full force cs ns f db : Forall hash_at cs -> canon (TFull cs) -> bounded (TFull cs) ->
  (is_Some db -> known (TFull cs)) -> rep (reads db) force (fullNode ns f) (TFull cs) ->
  (is_Some db -> clean (reads db)) ->
  hwp (hashChildren (hasher_hash gen limit) (fullNode ns f)) db (node_post force db (TFull cs) f).
Proof.
  intros IH Hc Hb Hk Hr Hcl. inversion Hr as [| | | |? ? ? ? Hfl Hns]; subst. unfold hashChildren.
  apply hwp_bind. eapply hwp_mono.
  { apply (hash_children_wp ns cs 0 db Hns); [|done]. intros j c Ec. rewrite Forall_lookup in IH.
    apply canon_full_iff in Hc as (_ & Hch & _).
    split_and!; [by apply Hch|by eapply bounded_full|intros Hs; apply (known_child (TFull cs)); [by eapply list_elem_of_lookup_2|by apply Hk]|by eapply IH]. }
  intros [l1 l2] db1 (Hg1 & Hr1 & He1 & Hv1 & Hc1). split; [apply Hg1|]. apply hwp_ret. unfold node_post.
  split_and!; try done.
  - unfold nenc. simpl. rewrite map_map. change (map (fun x => rlp_enc (node_EncodeRLP x)) l1) with (map nenc l1).
    by rewrite He1.
  - simpl. constructor. by apply Forall_map.
  - intros db2 hashed Hg2 Hf2. simpl. constructor; [done|]. eapply Forall2_rep_mono; [apply Hg2|done].
  - intros Hs. apply sub_stored_intro. intros c Hcc. destruct (Hc1 Hs c Hcc). by split.
Qed.

Lemma hash_ok t : hash_at t.
Proof.
  induction t as [|v|k t IH|cs IH] using tree_ind'; intros force n db Hc Hb Hk Hr Hcl; try by inversion Hc.
  all: destruct (is_hashNode n) eqn:Hn; [by apply hash_hashNode_wp|].
  - destruct (rep_short_inv _ _ _ _ Hr Hn) as (n' & f & -> & _).
    apply (hash_node_wp force _ _ f); try done. by apply hashChildren_short.
  - destruct (rep_full_inv _ _ _ Hr Hn) as (ns & f & -> & _).
    apply (hash_node_wp force _ _ f); try done. by apply hashChildren_full.
Qed.

Lemma hashChildren_ok force n t db : canon t -> bounded t -> (is_Some db -> known t) ->
  rep (reads db) force n t -> is_hashNode n = false -> (is_Some db -> clean (reads db)) ->
  exists f, flags_ok (reads db) force f t /\ flag_of n f /\
    hwp (hashChildren (hasher_hash gen limit) n) db (node_post force db t f).
Proof.
  intros Hc Hb Hk Hr Hn Hcl. destruct t as [|v|k s|cs]; try by inversion Hc.
  - destruct (rep_short_inv _ _ _ _ Hr Hn) as (n' & f & -> & _ & Hf). exists f. split_and!; [done..|].
    apply hashChildren_short; try done. apply hash_ok.
  - destruct (rep_full_inv _ _ _ Hr Hn) as (ns & f & -> & _ & Hf). exists f. split_and!; [done..|].
    apply hashChildren_full; try done. apply Forall_forall. intros c _. apply hash_ok.
Qed.
End Commit.

Section Root.
Context `{CryptoLaws} {DB : Type} `{DatabaseKeeps DB}.

Definition root_of (t : tree) : hash := match t with TNil => emptyRoot | _ => thash t end.

(** The root hash of a map, as the yellow paper defines it: the hash of the
    encoding of the minimal trie. *)
Definition map_root (m : gmap bytes bytes) (h : hash) : Prop :=
  exists t, canon_or_nil t /\ holds t m /\ h = root_of t.

Lemma map_root_fun m h1 h2 : map_root m h1 -> map_root m h2 -> h1 = h2.
Proof. intros (t1 & C1 & M1 & ->) (t2 & C2 & M2 & ->). by rewrite (holds_unique t1 t2 m). Qed.

Lemma trie_rep_nil T m : trie_rep T m -> t_root T = nilNode -> m = ∅.
Proof.
  intros (t & Hc & [_ Hm] & Hr) E. rewrite E in Hr. inversion Hr; subst.
  apply map_empty. intros k. destruct (m !! k) as [v|] eqn:Ev; [|done].
  destruct (has_nil_inv (keybytesToHex k) v). apply Hm. eauto.
Qed.

Lemma hashRoot_nil (T : Trie DB) db : t_root T = nilNode -> hashRoot T db = (Ok (hashNode emptyRoot, nilNode), db).
Proof. intros E. unfold hashRoot. by rewrite E. Qed.

Lemma hashRoot_inner (T : Trie DB) : t_root T <> nilNode ->
  hashRoot T = hasher_hash (t_cachegen T) (t_cachelimit T) (t_root T) true.
Proof. intros E. unfold hashRoot. by destruct (t_root T). Qed.

Lemma Trie_Hash_ok T m : trie_rep T m ->
  exists h T', Trie_Hash T = Ok (h, T') /\ map_root m h /\ trie_rep T' m /\ t_db T' = t_db T.
Proof.
  intros (t & Hc & Hm & Hr). unfold Trie_Hash. destruct Hc as [->|Hc].
  - rewrite hashRoot_nil by by eapply rep_tnil_inv. simpl. rewrite BytesToHash_id by done.
    eexists _, _. split_and!; [done| | |done]; exists TNil; split_and!; try done; [by left|by left|constructor].
  - assert (t_root T <> nilNode) as Hn by (intros E; apply (rep_nil_iff _ _ _ Hr) in E as ->; by inversion Hc).
    rewrite hashRoot_inner by done.
    pose proof (hash_ok (DB:=DB) (fun _ => False) ltac:(done) (trie_read T) (t_cachegen T) (t_cachelimit T) t true
      (t_root T) None Hc (holds_bounded _ _ Hm) ltac:(by intros []) Hr ltac:(by intros [])) as W.
    unfold hwp in W. destruct (hasher_hash _ _ _ _ _) as [[[hashed cached]|e|] db'] eqn:E; [|by destruct W as (_ & ? & ?)|done].
    destruct W as (Hg & Hr' & (_ & _ & ->) & _). simpl. rewrite BytesToHash_id by apply Keccak256_len.
    assert (db' = None) as -> by (destruct db' as [d'|]; [|done]; by destruct (proj2 (proj1 Hg) ltac:(by exists d'))).
    eexists _, _. split_and!; [done| | |done]; exists t; split_and!; try done; [by right|by destruct t; try by inversion Hc|by right].
Qed.

(** ** Binding *)

Context (K : bytes -> Prop) (K_inj : forall a b, K a -> K b -> Keccak256 a = Keccak256 b -> a = b).

Lemma decode_eq t1 t2 : canon t1 -> canon t2 -> bounded t1 -> bounded t2 -> tenc t1 = tenc t2 ->
  load 0 None t1 = load 0 None t2.
Proof.
  intros C1 C2 B1 B2 E. destruct (canon_enc_ok t1 C1 B1) as [Hb Hl].
  assert (Hi : input_ok (tenc t1 ++ [])) by (rewrite app_nil_r; split; [done|lia]).
  pose proof (load_decodes t1 C1 B1 (S (length (tenc t1))) ltac:(lia) None 0 [] Hi) as D1. rewrite E in D1, Hi.
  pose proof (load_decodes t2 C2 B2 (S (length (tenc t2))) ltac:(lia) None 0 [] Hi) as D2. congruence.
Qed.

Lemma load_ref_inj i c1 c2 : child_ok i c1 -> child_ok i c2 -> known K c1 -> known K c2 ->
  bounded c1 -> bounded c2 ->
  (canon c1 -> canon c2 -> load 0 None c1 = load 0 None c2 -> c1 = c2) ->
  load_ref 0 c1 = load_ref 0 c2 -> c1 = c2.
Proof.
  intros O1 O2 K1 K2 B1 B2 IH E. unfold load_ref in E.
  assert (Hin : forall c, child_ok i c -> inner c = true -> canon c).
  { intros c [->|Hc] Hi; [done|]. destruct (i <? 16)%nat; [done|]. by destruct Hc as (? & -> & _). }
  destruct (small_spec c1) as [S1|(S1 & I1 & _)], (small_spec c2) as [S2|(S2 & I2 & _)]; rewrite S1, S2 in E.
  - destruct (inner c1) eqn:I1, (inner c2) eqn:I2; [by apply IH; auto|..];
      destruct c1, c2; simpl in *; try done; congruence.
  - by destruct c1.
  - by destruct c2.
  - injection E as E. apply IH; [by apply Hin..|]. apply decode_eq; [by apply Hin|by apply Hin|done|done|].
    apply K_inj; [by apply K1; [left|]|by apply K2; [left|]|done].
Qed.

Lemma load_inj t1 : forall t2, canon t1 -> canon t2 -> known K t1 -> known K t2 -> bounded t1 -> bounded t2 ->
  load 0 None t1 = load 0 None t2 -> t1 = t2.
Proof.
  induction t1 as [|v|k1 c1 IH|cs1 IH] using tree_ind'; intros t2 C1 C2 K1 K2 B1 B2 E; try by inversion C1.
  - destruct t2 as [|v2|k2 c2|cs2]; try by inversion C2; try done. simpl in E. injection E as -> E. f_equal.
    apply (load_ref_inj (if inner c1 then 0%nat else 16%nat)); try done.
    + inversion C1; subst; right; simpl; eauto.
    + assert (inner c1 = inner c2) as ->.
      { revert E. inversion C1; subst; inversion C2; subst; try done; simpl; by repeat case_match. }
      inversion C2; subst; right; simpl; eauto.
    + by apply (known_child K (TShort k2 c1)).
    + by apply (known_child K (TShort k2 c2)).
    + by eapply bounded_short.
    + by eapply bounded_short.
    + intros Ca Cb. apply IH; try done; [by apply (known_child K (TShort k2 c1))|by apply (known_child K (TShort k2 c2))
        |by eapply bounded_short|by eapply bounded_short].
  - destruct t2 as [|v2|k2 c2|cs2]; try by inversion C2; try done. f_equal.
    assert (E' : map (load_ref 0) cs1 = map (load_ref 0) cs2) by (by injection E).
    pose proof (proj1 (canon_full_iff _) C1) as (L1 & O1 & _). pose proof (proj1 (canon_full_iff _) C2) as (L2 & O2 & _).
    apply list_eq_same_length with 17%nat; [done..|]. intros i c1 c2 Hi E1 E2. rewrite Forall_lookup in IH.
    assert (Kc1 : known K c1) by (apply (known_child K (TFull cs1)); [by eapply list_elem_of_lookup_2|done]).
    assert (Kc2 : known K c2) by (apply (known_child K (TFull cs2)); [by eapply list_elem_of_lookup_2|done]).
    pose proof (bounded_full _ _ _ B1 E1). pose proof (bounded_full _ _ _ B2 E2).
    apply (load_ref_inj i); auto; [intros; by apply (IH i)|].
    assert (map (load_ref 0) cs1 !! i = map (load_ref 0) cs2 !! i) as Ei by by rewrite E'.
    rewrite !lookup_map, E1, E2 in Ei. by injection Ei.
Qed.

Lemma tenc_inj t1 t2 : canon t1 -> canon t2 -> known K t1 -> known K t2 -> bounded t1 -> bounded t2 ->
  thash t1 = thash t2 -> t1 = t2.
Proof.
  intros C1 C2 K1 K2 B1 B2 E. apply load_inj; try done. apply decode_eq; try done.
  assert (Hin : forall t, canon t -> inner t = true) by (intros t Hc; destruct t; try done; by inversion Hc).
  apply K_inj; [by apply K1; [left|auto]|by apply K2; [left|auto]|done].
Qed.

(** The encodings a map gives rise to; none hashes to one of the two special roots. *)
Definition map_known (m : gmap bytes bytes) : Prop := forall t, canon t -> holds t m ->
  known K t /\ thash t <> emptyRoot /\ thash t <> zero_hash.

Lemma map_root_inj m1 m2 h : map_known m1 -> map_known m2 -> map_root m1 h -> map_root m2 h -> m1 = m2.
Proof.
  intros K1 K2 (t1 & C1 & M1 & ->) (t2 & C2 & M2 & E).
  assert (t1 = t2) as ->.
  { destruct C1 as [->|C1], C2 as [->|C2].
    - done.
    - destruct (K2 t2 C2 M2) as (_ & Hne & _). destruct t2; try (by inversion C2); simpl in E; congruence.
    - destruct (K1 t1 C1 M1) as (_ & Hne & _). destruct t1; try (by inversion C1); simpl in E; congruence.
    - destruct (K1 t1 C1 M1) as (Kt1 & _), (K2 t2 C2 M2) as (Kt2 & _).
      apply tenc_inj; try done; [by eapply holds_bounded|by eapply holds_bounded|].
      destruct t1; try (by inversion C1); destruct t2; try (by inversion C2); done. }
  apply map_eq. intros k. apply option_eq. intros v. destruct M1 as [O1 Hm1], M2 as [O2 Hm2].
  assert (G : forall m m', entries_ok m -> entries_ok m' -> (forall key v, has t2 key v <-> exists k, key = keybytesToHex k /\ m !! k = Some v) ->
    (forall key v, has t2 key v <-> exists k, key = keybytesToHex k /\ m' !! k = Some v) -> m !! k = Some v -> m' !! k = Some v).
  { intros m m' O O' Hh Hh' Ek. destruct (O k v Ek) as ([Hk _] & _).
    assert (has t2 (keybytesToHex k) v) as (k' & E' & Ek')%Hh' by (apply Hh; eauto).
    destruct (O' k' v Ek') as ([Hk' _] & _). by apply keybytesToHex_inj in E' as ->. }
  split; [by apply (G m1 m2)|by apply (G m2 m1)].
Qed.

(** ** Commit and reload *)

Lemma clean_reads T d : t_db T = Some d -> trie_read T = (fun k => db_Get k d).
Proof. intros E. unfold trie_read. by rewrite E. Qed.

Definition set_db (T : Trie DB) (d : DB) : Trie DB :=
  mkTrie (t_root T) (Some d) (t_originalRoot T) (t_cachegen T) (t_cachelimit T).

Lemma New_empty (db : option DB) : Trie_New emptyRoot db = Ok (mkTrie nilNode db emptyRoot 0 0).
Proof. unfold Trie_New. rewrite (bool_decide_true (emptyRoot = emptyRoot)) by done. by rewrite andb_false_r. Qed.

Lemma New_stored (d : DB) t m : canon t -> holds t m -> thash t <> emptyRoot -> thash t <> zero_hash ->
  stored (fun k => db_Get k d) t -> exists T, Trie_New (thash t) (Some d) = Ok T /\ trie_rep T m.
Proof.
  intros Hc Hm He Hz Hst. unfold Trie_New. rewrite !bool_decide_false by done. simpl.
  set (T0 := mkTrie nilNode (Some d) (thash t) 0 0).
  assert (Hr : rep (trie_read T0) true (hashNode (thash t)) t) by (constructor; [by destruct t; try by inversion Hc|done|done]).
  destruct (resolveHash_ok T0 true (thash t) t [] Hr Hc (holds_bounded _ _ Hm)) as (n & -> & Hr' & _). simpl.
  eexists. split; [done|]. exists t. split_and!; [by right|done|done].
Qed.

(** What a commit does, or a failed write. *)
Lemma Commit_ok T m d : trie_rep T m -> t_db T = Some d -> map_known m -> clean K (fun k => db_Get k d) ->
  (exists db', Trie_Commit T = (Err PutError, db')) \/
  exists h T' d', Trie_Commit T = (Ok (h, T'), Some d') /\ t_db T' = Some d' /\ map_root m h /\ trie_rep T' m /\
    clean K (fun k => db_Get k d') /\ extends (fun k => db_Get k d) (fun k => db_Get k d') /\
    exists T2, Trie_New h (Some d') = Ok T2 /\ trie_rep T2 m.
Proof.
  intros (t & Hc & Hm & Hr) Ed Hk Hcl. unfold Trie_Commit, CommitTo. rewrite Ed. destruct Hc as [->|Hc].
  - right. rewrite hashRoot_nil by by eapply rep_tnil_inv. simpl. rewrite BytesToHash_id by done.
    eexists _, _, d. split_and!; try done.
    + exists TNil. split_and!; [by left|done|done].
    + exists TNil. split_and!; [by left|done|constructor].
    + by intros k v.
    + eexists. split; [apply New_empty|]. exists TNil. split_and!; [by left|done|constructor].
  - assert (t_root T <> nilNode) as Hn by (intros E; apply (rep_nil_iff _ _ _ Hr) in E as ->; by inversion Hc).
    rewrite hashRoot_inner by done. destruct (Hk t Hc Hm) as (Hkn & He & Hz). rewrite (clean_reads T d Ed) in Hr.
    pose proof (hash_ok (DB:=DB) K K_inj (fun _ => None) (t_cachegen T) (t_cachelimit T) t true
      (t_root T) (Some d) Hc (holds_bounded _ _ Hm) ltac:(done) Hr ltac:(done)) as W.
    unfold hwp in W. destruct (hasher_hash _ _ _ _ _) as [[[hashed cached]|e|] db'] eqn:E; [|left|done].
    2: { destruct W as [-> _]. by eexists. }
    right. destruct W as (Hg & Hr' & (_ & _ & ->) & Hcm). simpl. rewrite BytesToHash_id by apply Keccak256_len.
    destruct db' as [d'|]; [|by destruct (proj1 (proj1 Hg) ltac:(by exists d))].
    destruct (Hcm ltac:(by eexists)) as [Hsub Hheld]. destruct Hg as (_ & Hext & Hcl').
    eexists _, _, d'. split_and!; [done|done| | |by apply Hcl'; eexists|exact Hext|].
    + exists t. split_and!; [by right|done|by destruct t; try by inversion Hc].
    + exists t. split_and!; [by right|done|done].
    + apply (New_stored d' t m); try done. split; [|done]. apply Hheld. by left.
Qed.
End Root.

(** ** A trie with one entry *)

Section Leaf.
Context `{CryptoLaws} (k v : bytes) (k_ok : key_ok k) (v_ok : val_ok v) (v_ne : v <> []).

Definition leaf : tree := TShort (keybytesToHex k) (TVal v).

Lemma leaf_canon : canon leaf.
Proof. apply canon_leaf; [apply keybytesToHex_hexkey, k_ok|done]. Qed.

Lemma leaf_holds : holds leaf {[k := v]}.
Proof.
  split; [by intros k' v' [<- <-]%lookup_singleton_Some|].
  intros key w. unfold leaf. rewrite has_short_inv. setoid_rewrite has_val_inv.
  setoid_rewrite lookup_singleton_Some. split.
  - intros (key' & -> & -> & <-). exists k. by rewrite app_nil_r.
  - intros (k' & -> & <- & <-). exists []. by rewrite app_nil_r.
Qed.

Lemma leaf_map_root : map_root {[k := v]} (thash leaf).
Proof. exists leaf. split; [right; exact leaf_canon|]. split; [exact leaf_holds|exact eq_refl]. Qed.

Lemma leaf_map_known : thash leaf <> emptyRoot -> thash leaf <> zero_hash ->
  map_known (fun e => e = tenc leaf) {[k := v]}.
Proof.
  intros He Hz t Hc Hm. rewrite (holds_unique t leaf {[k := v]} (or_intror Hc) (or_intror leaf_canon) Hm leaf_holds).
  split; [|done]. intros s [->|Hd] Hi; [done|]. inversion Hd as [? c Hc'|? c ? Hc' Hd']; subst; simpl in Hc'; subst; [done|].
  by inversion Hd'.
Qed.
End Leaf.
