(* ===== verification/TrieProof.v ===== *)
(** Merkle proofs: [trie/proof.go].

    [Prove] collects the encodings on the path to a key, [VerifyProof] checks
    them against a root hash.  Soundness and completeness are proved against
    the contents of the trie. *)
From S2P Require Import Prelude RlpEncode RlpDecode RlpCodec RlpTheorems RlpRaw Storage IstanbulTypes ValidatorSet TrieNode Trie TrieTree TrieRep TrieTheorems TrieRoot.

Inductive proof_err :=
| ProofHashMismatch (i : nat)
| ProofBadNode (i : nat) (e : node_err)
| ProofKeyMismatch (i : nat)
| ProofAdditional
| ProofUnexpectedEnd.

(** [get]: the rest of the key and the node it ends in; the loop goes down one
    node, so it is a recursion on it. *)
Fixpoint proof_get {E} (tn : node) (key : bytes) {struct tn} : outcome E (bytes * node) :=
  match tn with
  | shortNode k v _ =>
      if (length key <? length k)%nat || negb (bool_decide (k = take (length k) key)) then Ok ([], nilNode)
      else proof_get v (drop (length k) key)
  | fullNode cs _ =>
      match key with
      | [] => Panic
      | x :: key' =>
          (fix pick (l : list node) (j : nat) : outcome E (bytes * node) :=
             match l, j with
             | [], _ => Panic
             | c :: _, O => proof_get c key'
             | _ :: l', S j' => pick l' j'
             end) cs (Z.to_nat x)
      end
  | hashNode _ => Ok (key, tn)
  | nilNode => Ok (key, nilNode)
  | valueNode _ => Ok ([], tn)
  end.

Section Proofs.
Context `{Crypto} {DB : Type} `{Database DB}.

Fixpoint VerifyProof_loop (i : nat) (wantHash key : bytes) (proof : list bytes) : outcome proof_err (option bytes) :=
  match proof with
  | [] => Err ProofUnexpectedEnd
  | buf :: rest =>
      if negb (bool_decide (Keccak256 buf = wantHash)) then Err (ProofHashMismatch i)
      else
        match decodeNode (Some wantHash) buf 0 with
        | Panic => Panic
        | Err e => Err (ProofBadNode i e)
        | Ok n =>
            let! (keyrest, cld) := proof_get n key in
            match cld with
            | nilNode => match rest with [] => Ok None | _ => Err (ProofKeyMismatch i) end
            | hashNode h => VerifyProof_loop (S i) h keyrest rest
            | valueNode v => match rest with [] => Ok (Some v) | _ => Err ProofAdditional end
            | _ => VerifyProof_loop (S i) wantHash key rest
            end
        end
  end.

Definition VerifyProof (rootHash : hash) (key : bytes) (proof : list bytes) : outcome proof_err (option bytes) :=
  VerifyProof_loop 0 rootHash (keybytesToHex key) proof.

(** The loop of [Prove] that collects the nodes on the path.  [None]: a node is
    missing, [Prove] logs the error and returns nil. *)
Fixpoint prove_nodes (t : Trie DB) (fuel : nat) (tn : node) (key : bytes) : outcome trie_err (list node) :=
  match fuel with
  | O => Err TrieOutOfFuel
  | S fuel' =>
      match key, tn with
      | [], _ | _, nilNode => Ok []
      | _, shortNode k v _ =>
          if (length key <? length k)%nat || negb (bool_decide (k = take (length k) key)) then Ok [tn]
          else let! l := prove_nodes t fuel' v (drop (length k) key) in Ok (tn :: l)
      | x :: key', fullNode cs _ =>
          match child cs x with
          | None => Panic
          | Some c => let! l := prove_nodes t fuel' c key' in Ok (tn :: l)
          end
      | _, hashNode h => let! n := resolveHash t h [] in prove_nodes t fuel' n key
      | _, valueNode _ => Panic
      end
  end.

(** The second loop: encodings of the root and of the nodes stored by hash. *)
Fixpoint prove_encode (i : nat) (nodes : list node) : outcome trie_err (list bytes) :=
  match nodes with
  | [] => Ok []
  | n :: nodes' =>
      let! (n, _) := (hashChildren (hasher_hash (DB:=DB) 0 0) n None).1 in
      let! hn := (hasher_store (DB:=DB) n false None).1 in
      let! rest := prove_encode (S i) nodes' in
      if is_hashNode hn || (i =? 0)%nat then
        match EncodeToBytes (node_EncodeRLP n) with
        | Ok enc => Ok (enc :: rest)
        | _ => Ok ([] :: rest)
        end
      else Ok rest
  end.

Definition Prove (t : Trie DB) (key : bytes) : outcome trie_err (option (list bytes)) :=
  let key := keybytesToHex key in
  match prove_nodes t (key_fuel key) (t_root t) key with
  | Ok nodes => let! proof := prove_encode 0 nodes in Ok (Some proof)
  | Err (MissingNodeError _ _) => Ok None
  | Err e => Err e
  | Panic => Panic
  end.

End Proofs.

(** ** The path of a key *)

Inductive path : tree -> bytes -> list tree -> option bytes -> Prop :=
| path_nil key : path TNil key [] None
| path_val v : path (TVal v) [] [] (Some v)
| path_miss k s key : k <> take (length k) key -> path (TShort k s) key [TShort k s] None
| path_short k s key l o : path s key l o -> path (TShort k s) (k ++ key) (TShort k s :: l) o
| path_full cs x c key l o : 0 <= x -> cs !! Z.to_nat x = Some c -> path c key l o ->
    path (TFull cs) (x :: key) (TFull cs :: l) o.

Lemma path_exists t : forall key, slot key t -> rest_ok key -> exists l o, path t key l o /\ got t key o.
Proof.
  induction t as [|v|k s IH|cs IH] using tree_ind'; intros key Hs Hk.
  - exists [], None. split; [constructor|]. apply got_none. intros v. apply has_nil_inv.
  - destruct Hs as [?|Hs]; [done|]. destruct key; [|by inversion Hs]. exists [], (Some v).
    split; [constructor|]. intros w. rewrite has_val_inv. naive_solver.
  - destruct Hs as [?|Hs]; [done|]. destruct key as [|x key]; [by destruct Hs as (? & ? & _)|].
    destruct Hk as [?|Hk]; [done|]. destruct (decide (k = take (length k) (x :: key))) as [E|E].
    + assert (Ek : x :: key = k ++ drop (length k) (x :: key)) by (rewrite <- (take_drop (length k) (x :: key)) at 1; by rewrite <- E).
      revert Ek. generalize (drop (length k) (x :: key)) as key'. intros key' Ek. rewrite Ek in *.
      destruct (short_descend _ _ _ Hs Hk) as (Hss & Hrk & _). destruct (IH key' Hss Hrk) as (l & o & Hp & Hg).
      exists (TShort k s :: l), o. split; [by constructor|]. intros w. rewrite has_short_app. apply Hg.
    + exists [TShort k s], None. split; [by constructor|]. apply got_none.
      intros v (k' & E' & _)%has_short_inv. rewrite E', take_app_length in E. done.
  - destruct Hs as [?|Hs]; [done|]. destruct key as [|x key]; [by destruct Hs as (? & ? & _)|].
    destruct Hk as [?|Hk]; [done|]. pose proof (hexkey_index _ _ Hk) as Hx.
    pose proof (proj1 (canon_full_iff cs) Hs) as (Hl & _).
    destruct (lookup_lt_is_Some_2 cs (Z.to_nat x) ltac:(lia)) as [c Ec]. rewrite Forall_lookup in IH.
    destruct (IH _ _ Ec key) as (l & o & Hp & Hg); [by eapply canon_child|by eapply rest_ok_cons|].
    exists (TFull cs :: l), o. split; [econstructor; [lia|done|done]|].
    intros w. rewrite (has_full_cons _ _ _ _ _ (proj1 Hx) Ec). apply Hg.
Qed.

Lemma proof_get_full {E} cs f x key :
  @proof_get E (fullNode cs f) (x :: key) = match cs !! Z.to_nat x with Some c => proof_get c key | None => Panic end.
Proof.
  simpl. generalize (Z.to_nat x) as j. induction cs as [|c cs IH]; intros [|j]; simpl; auto.
Qed.

Section ProofTheorems.
Context `{CryptoLaws}.

(** Where [get] stops on the path below a loaded node. *)
Definition ending (below : tree -> Prop) (l : list tree) (o : option bytes) (rest : bytes) (cld : node) : Prop :=
  (cld = nilNode /\ o = None /\ Forall (fun s => small s = true) l) \/
  (exists v, cld = valueNode v /\ o = Some v /\ Forall (fun s => small s = true) l) \/
  (exists s l1 l2, cld = hashNode (thash s) /\ l = l1 ++ s :: l2 /\ Forall (fun s => small s = true) l1 /\
     small s = false /\ canon s /\ below s /\ path s rest (s :: l2) o).

Lemma ending_cons P Q t l o rest cld : small t = true -> (forall s, P s -> Q s) ->
  ending P l o rest cld -> ending Q (t :: l) o rest cld.
Proof.
  intros Hs HPQ [(-> & -> & Hf)|[(v & -> & -> & Hf)|(s & l1 & l2 & -> & -> & Hf & Hb & Hc & HP & Hp)]].
  - left. split_and!; [done..|by constructor].
  - right. left. exists v. split_and!; [done..|by constructor].
  - right. right. exists s, (t :: l1), l2. split_and!; try done; [by constructor|by apply HPQ].
Qed.

Definition get_at (t : tree) : Prop := forall gen h key l o, canon t -> path t key l o ->
  exists l' rest cld, l = t :: l' /\ @proof_get proof_err (load gen h t) key = Ok (rest, cld) /\
    ending (desc t) l' o rest cld.

Lemma get_ref i t c gen key l o : child_ok i c -> child_of t c -> get_at c -> path c key l o ->
  exists rest cld, @proof_get proof_err (load_ref gen c) key = Ok (rest, cld) /\ ending (desc t) l o rest cld.
Proof.
  intros Hok Hch IH Hp. unfold load_ref.
  assert (Hin : inner c = true -> canon c).
  { intros Hi. destruct Hok as [->|Hc]; [done|]. destruct (i <? 16)%nat; [done|]. by destruct Hc as (? & -> & _). }
  destruct (small_spec c) as [Es|(Es & Hi & Hl)]; rewrite Es.
  - destruct (inner c) eqn:Hi.
    + destruct (IH gen None key l o (Hin eq_refl) Hp) as (l' & rest & cld & -> & -> & He).
      eexists _, _. split; [done|]. eapply ending_cons; [done| |done]. intros s Hd. by apply (desc_step _ c).
    + destruct c; try done; inversion Hp; subst; simpl; eexists _, _; (split; [done|]).
      * left. by split_and!.
      * right. left. eexists. by split_and!.
  - exists key, (hashNode (thash c)). split; [done|]. right. right.
    assert (exists l2, l = c :: l2) as [l2 ->] by (destruct c; try done; inversion Hp; subst; eauto).
    exists c, [], l2. split_and!; try done; [by apply Hin|by constructor].
Qed.

Lemma get_path t : get_at t.
Proof.
  induction t as [|v|k s IH|cs IH] using tree_ind'; intros gen h key l o Hc Hp; try by inversion Hc.
  - inversion Hp as [| |? ? ? Hm|? ? key' l' ? Hp'|]; subst.
    + exists []. eexists _, _. split; [done|]. simpl. rewrite bool_decide_false by done. rewrite orb_true_r.
      split; [done|]. left. by split_and!.
    + exists l'. assert (Hok : child_ok (if inner s then 0%nat else 16%nat) s).
      { inversion Hc; subst; right; simpl; eauto. }
      destruct (get_ref _ (TShort k s) s gen key' l' o Hok eq_refl IH Hp') as (rest & cld & E & He).
      exists rest, cld. split; [done|]. simpl. rewrite length_app, (proj2 (Nat.ltb_ge _ _)) by lia.
      rewrite take_app_length, drop_app_length, bool_decide_true by done. simpl. by split.
  - inversion Hp as [| | | |? x c key' l' ? Hx Ec Hp']; subst. exists l'.
    apply canon_full_iff in Hc as (_ & Hch & _). rewrite Forall_lookup in IH.
    destruct (get_ref _ (TFull cs) c gen key' l' o (Hch _ _ Ec) ltac:(by eapply list_elem_of_lookup_2) (IH _ _ Ec) Hp')
      as (rest & cld & E & He).
    exists rest, cld. split; [done|]. split; [|done]. cbn [load]. rewrite proof_get_full, lookup_map, Ec. done.
Qed.

Lemma bounded_desc t s : desc t s -> bounded t -> bounded s.
Proof.
  assert (forall t c, child_of t c -> bounded t -> bounded c) as G.
  { intros t' c Hc Hb. destruct t' as [|v|k s'|cs]; try done; simpl in Hc; [subst; by eapply bounded_short|].
    apply list_elem_of_lookup_1 in Hc as [i Hi]. by eapply bounded_full. }
  induction 1; eauto.
Qed.

Lemma known_desc K t s : desc t s -> known K t -> known K s.
Proof. induction 1 as [t c Hc|t c s Hc Hd IH]; intros Hk; [by eapply known_child|]. by apply IH; eapply known_child. Qed.

(** Decoding the encoding of a tree under its hash. *)
Lemma decode_tenc t h : canon t -> bounded t -> decodeNode h (tenc t) 0 = Ok (load 0 h t).
Proof.
  intros Hc Hb. unfold decodeNode. destruct (canon_enc_ok t Hc Hb) as [H1 H2].
  pose proof (load_decodes t Hc Hb (S (length (tenc t))) ltac:(lia) h 0 []) as D. rewrite app_nil_r in D.
  apply D. split; [done|lia].
Qed.

(** A proof that is accepted says what the trie holds. *)
Lemma verify_sound (K : bytes -> Prop) proof : (forall a b, K a -> K b -> Keccak256 a = Keccak256 b -> a = b) ->
  Forall K proof -> forall i t key l o o', canon t -> bounded t -> known K t -> path t key l o ->
  VerifyProof_loop i (thash t) key proof = Ok o' -> o' = o.
Proof.
  intros K_inj. induction 1 as [|buf proof Hb _ IH]; intros i t key l o o' Hc Hbd Hk Hp E; [done|]. simpl in E.
  destruct (bool_decide (Keccak256 buf = thash t)) eqn:Eh; [|done]. apply bool_decide_eq_true in Eh. simpl in E.
  assert (buf = tenc t) as ->.
  { apply K_inj; [done| |done]. apply Hk; [by left|]. destruct t; try done; by inversion Hc. }
  rewrite decode_tenc in E by done.
  destruct (get_path t 0 (Some (thash t)) key l o Hc Hp) as (l' & rest & cld & -> & Eg & He). rewrite Eg in E. simpl in E.
  destruct He as [(-> & -> & _)|[(v & -> & -> & _)|(s & l1 & l2 & -> & _ & _ & _ & Hcs & Hd & Hps)]].
  - destruct proof; [by injection E|done].
  - destruct proof; [by injection E|done].
  - apply (IH (S i) s rest (s :: l2) o o'); try done; [by eapply bounded_desc|by eapply known_desc].
Qed.

(** The encodings a verifier needs. *)
Definition proof_of (l : list tree) : list bytes := map tenc (filter (fun s => small s = false) l).

Lemma proof_of_small l : Forall (fun s => small s = true) l -> proof_of l = [].
Proof.
  unfold proof_of. induction 1 as [|s l Hs _ IH]; [done|]. rewrite filter_cons_False by (by rewrite Hs). done.
Qed.

Lemma proof_of_app l1 s l2 : Forall (fun s => small s = true) l1 -> small s = false ->
  proof_of (l1 ++ s :: l2) = tenc s :: proof_of l2.
Proof.
  intros Hl Hs. unfold proof_of. rewrite filter_app, map_app. fold (proof_of l1). rewrite proof_of_small by done.
  simpl. by rewrite filter_cons_True.
Qed.

Lemma verify_complete n : forall l i t key o, (length l < n)%nat -> canon t -> bounded t -> path t key (t :: l) o ->
  VerifyProof_loop i (thash t) key (tenc t :: proof_of l) = Ok o.
Proof.
  induction n as [|n IH]; intros l i t key o Hn Hc Hb Hp; [lia|]. simpl.
  rewrite bool_decide_true by done. simpl. rewrite decode_tenc by done.
  destruct (get_path t 0 (Some (thash t)) key _ o Hc Hp) as (l' & rest & cld & [= <-] & -> & He). simpl.
  destruct He as [(-> & -> & Hf)|[(v & -> & -> & Hf)|(s & l1 & l2 & -> & -> & Hf & Hs & Hcs & Hd & Hps)]].
  - by rewrite proof_of_small.
  - by rewrite proof_of_small.
  - rewrite proof_of_app by done. apply IH; [rewrite length_app in Hn; simpl in Hn; lia|done|by eapply bounded_desc|done].
Qed.

Context {DB : Type} `{DatabaseKeeps DB}.

(** The nodes [Prove] collects represent the trees of the path. *)
Definition node_on (g : bytes -> option bytes) (n : node) (s : tree) : Prop :=
  is_hashNode n = false /\ canon s /\ bounded s /\ exists r, rep g r n s.

Lemma prove_nodes_ok (T : Trie DB) fuel : forall r n t key l o, rep (trie_read T) r n t -> slot key t -> rest_ok key ->
  bounded t -> path t key l o -> (2 * length key + hash_cost n < fuel)%nat ->
  exists ns, prove_nodes T fuel n key = Ok ns /\ Forall2 (node_on (trie_read T)) ns l.
Proof.
  induction fuel as [|fuel IH]; intros r n t key l o Hr Hs Hk Hb Hp Hf; [lia|].
  destruct (slot_bounds _ _ Hs) as [(x & kr & Ek & Hc)|[->|[Ek (v & -> & Hv)]]].
  2: { rewrite (rep_tnil_inv _ _ Hr). inversion Hp; subst. exists []. split; [by destruct key|constructor]. }
  2: { subst key. inversion Hp; subst. exists []. split; [done|constructor]. }
  assert (Hkey : hexkey key) by (destruct Hk as [Hk|Hk]; [congruence|done]).
  destruct (is_hashNode n) eqn:Hn.
  { destruct n as [| | |h|]; try done. unfold hash_cost in Hf. simpl in Hf.
    destruct (resolveHash_ok T r h t [] Hr Hc Hb) as (n' & E & Hr' & Hn').
    destruct (IH r n' t key l o Hr' Hs Hk Hb Hp) as (ns & E2 & Hns); [rewrite cost_zero by done; lia|].
    exists ns. subst key. simpl. rewrite E. simpl. by rewrite E2. }
  rewrite cost_zero, Nat.add_0_r in Hf by done.
  assert (Hon : node_on (trie_read T) n t) by (split_and!; eauto).
  destruct t as [|w|k s|cs]; try by inversion Hc.
  - destruct (rep_short_inv _ _ _ _ Hr Hn) as (n' & f & -> & Hr' & _).
    assert (Es : prove_nodes T (S fuel) (shortNode k n' f) key =
      if (length key <? length k)%nat || negb (bool_decide (k = take (length k) key)) then Ok [shortNode k n' f]
      else let! l := prove_nodes T fuel n' (drop (length k) key) in Ok (shortNode k n' f :: l)) by (by rewrite Ek).
    rewrite Es. clear Es Ek. inversion Hp as [| |? ? ? Hm|? ? key' l' ? Hp'|]; subst.
    + rewrite bool_decide_false by done. rewrite orb_true_r. eexists. split; [done|]. constructor; [done|constructor].
    + rewrite length_app, (proj2 (Nat.ltb_ge _ _)) by lia.
      rewrite take_app_length, drop_app_length, bool_decide_true by done. simpl.
      destruct (short_descend _ _ _ Hc Hkey) as (Hss & Hkk & _).
      destruct (IH false n' s key' l' o Hr' Hss Hkk (bounded_short _ _ Hb) Hp') as (ns & -> & Hns).
      { rewrite length_app in Hf. by eapply cost_short, Hf; eapply short_key_pos. }
      simpl. eexists. split; [done|]. by constructor.
  - destruct (rep_full_inv _ _ _ Hr Hn) as (ns & f & -> & Hns & _).
    inversion Hp as [| | | |? y c key' l' ? Hy Ec Hp']; subst.
    destruct (full_descend _ _ _ _ _ Hns Hc Hkey) as (nc & c' & E & Ec' & Hrc & Hsc & Hrk & Hx). simplify_eq.
    destruct (IH false nc c kr l' o Hrc Hsc Hrk (bounded_full _ _ _ Hb Ec) Hp') as (l2 & E2 & Hns2).
    { by apply (cost_short nc 1); [lia|]. }
    simpl. rewrite E, E2. simpl. eexists. split; [done|]. by constructor.
Qed.

Lemma prove_encode_ok g ns l : Forall2 (node_on g) ns l -> forall i,
  @prove_encode _ DB _ i ns = Ok (match i, l with O, s :: l' => tenc s :: proof_of l' | _, _ => proof_of l end).
Proof.
  induction 1 as [|n s ns l (Hn & Hc & Hb & r & Hr) _ IH]; intros i; [by destruct i|]. simpl prove_encode.
  destruct (hashChildren_ok (DB:=DB) (fun _ => False) ltac:(done) g 0 0 r n s None Hc Hb ltac:(by intros []) Hr Hn ltac:(by intros []))
    as (f & Hf & Hfn & W).
  unfold hwp in W. destruct (hashChildren _ n None) as [[[collapsed cached]|e|] db'] eqn:E; simpl in W;
    [|by destruct W as (_ & ? & ?)|done].
  destruct W as (Hg & Hfc & Henc & Hv & _). simpl.
  pose proof (canon_enc_ok s Hc Hb) as Hok.
  assert (Ee : EncodeToBytes (node_EncodeRLP collapsed) = Ok (tenc s)).
  { unfold nenc in Henc. rewrite <- Henc. apply EncodeToBytes_ref; [done|]. rewrite Henc. destruct Hok. lia. }
  pose proof (store_wp (DB:=DB) (fun _ => False) ltac:(done) g false collapsed s f None
    (fun hn _ => hn = if by_hash false s then hashNode (thash s) else collapsed) Hfc Henc Hv Hok ltac:(by intros [])) as W.
  unfold hwp in W. destruct (hasher_store collapsed false None) as [[hn|e|] db2] eqn:Es; simpl in W.
  2: { destruct W as (_ & ? & ?); [|by intros []|done|done]. intros h Eh. unfold flags_ok in Hf. rewrite Eh in Hf. apply Hf. }
  2: { destruct W; [|by intros []|done]. intros h Eh. unfold flags_ok in Hf. rewrite Eh in Hf. apply Hf. }
  assert (Hcn : is_hashNode collapsed = false) by by destruct collapsed.
  assert (Hi : inner s = true) by (destruct s; try done; by inversion Hc).
  assert (Hhn : is_hashNode hn = negb (small s)).
  { rewrite W; [|intros h Eh; unfold flags_ok in Hf; rewrite Eh in Hf; apply Hf|by intros []|done].
    unfold by_hash, small. rewrite Hi. simpl.
    destruct (Z.ltb_spec (zlen (tenc s)) 32), (Z.leb_spec 32 (zlen (tenc s))); simpl; lia || done. }
  simpl. rewrite IH, Ee, Hhn. simpl.
  destruct (small s) eqn:Hs; simpl.
  - destruct i as [|i]; simpl; [done|]. unfold proof_of at 2. rewrite filter_cons_False by (by rewrite Hs). done.
  - destruct i as [|i]; simpl; [done|]. unfold proof_of at 2. by rewrite filter_cons_True.
Qed.
End ProofTheorems.
