(* ===== verification/TrieClaims.v ===== *)
(** Claims on the Merkle Patricia trie: [trie/encoding.go], [trie/trie.go],
    [trie/hasher.go] and [trie/proof.go].

    The trie is a finite map with a root hash.  A run of operations is compared
    with the same run on a map, commits (which drop nodes from memory) included. *)
From S2P Require Import Prelude RlpEncode RlpDecode RlpCodec RlpTheorems RlpRaw Storage IstanbulTypes ValidatorSet KeccakCrypto TrieNode Trie TrieTree TrieRep TrieTheorems TrieRoot TrieProof.

(** ** Runs of operations *)

Inductive trie_op :=
| OpTryGet (k : bytes) | OpTryUpdate (k v : bytes) | OpTryDelete (k : bytes) | OpHash | OpCommit.

Inductive trie_res := RGet (o : option bytes) | RDone | RRoot (h : hash).

Definition op_ok (op : trie_op) : Prop :=
  match op with
  | OpTryGet k | OpTryDelete k => key_ok k
  | OpTryUpdate k v => key_ok k /\ val_ok v
  | _ => True
  end.

Definition map_next (op : trie_op) (m : gmap bytes bytes) : gmap bytes bytes :=
  match op with
  | OpTryUpdate k v => updated v k m
  | OpTryDelete k => delete k m
  | _ => m
  end.

Section Runs.
Context `{CryptoLaws} {DB : Type} `{DatabaseKeeps DB}.

Definition trie_step (T : Trie DB) (op : trie_op) : outcome trie_err (trie_res * Trie DB) :=
  match op with
  | OpTryGet k => let! (o, T') := TryGet T k in Ok (RGet o, T')
  | OpTryUpdate k v => let! T' := TryUpdate T k v in Ok (RDone, T')
  | OpTryDelete k => let! T' := TryDelete T k in Ok (RDone, T')
  | OpHash => let! (h, T') := Trie_Hash T in Ok (RRoot h, T')
  | OpCommit => let! (h, T') := (Trie_Commit T).1 in Ok (RRoot h, T')
  end.

Fixpoint run_trie (T : Trie DB) (ops : list trie_op) : outcome trie_err (list trie_res * Trie DB) :=
  match ops with
  | [] => Ok ([], T)
  | op :: ops' =>
      let! (r, T) := trie_step T op in
      let! (rs, T) := run_trie T ops' in
      Ok (r :: rs, T)
  end.

(** What the map answers. *)
Definition map_answer (m : gmap bytes bytes) (op : trie_op) (r : trie_res) : Prop :=
  match op with
  | OpTryGet k => r = RGet (m !! k)
  | OpTryUpdate _ _ | OpTryDelete _ => r = RDone
  | OpHash | OpCommit => exists h, r = RRoot h /\ map_root m h
  end.

Fixpoint map_answers (m : gmap bytes bytes) (ops : list trie_op) (rs : list trie_res) : Prop :=
  match ops, rs with
  | [], [] => True
  | op :: ops', r :: rs' => map_answer m op r /\ map_answers (map_next op m) ops' rs'
  | _, _ => False
  end.

Definition map_after (ops : list trie_op) (m : gmap bytes bytes) : gmap bytes bytes :=
  fold_left (fun m op => map_next op m) ops m.

Lemma TryGet_db (T T' : Trie DB) k o : TryGet T k = Ok (o, T') -> t_db T' = t_db T.
Proof. unfold TryGet. destruct (tryGet _ _ _ _ _) as [[[v n] []]| |]; simpl; intros E; by simplify_eq. Qed.

Lemma TryDelete_db (T T' : Trie DB) k : TryDelete T k = Ok T' -> t_db T' = t_db T.
Proof. unfold TryDelete. destruct (trie_delete _ _ _ _ _) as [[b n]| |]; simpl; intros E; by simplify_eq. Qed.

Lemma TryUpdate_db (T T' : Trie DB) k v : TryUpdate T k v = Ok T' -> t_db T' = t_db T.
Proof.
  unfold TryUpdate. destruct (negb _); [destruct (insert _ _ _ _ _ _) as [[b n]| |]|
    destruct (trie_delete _ _ _ _ _) as [[b n]| |]]; simpl; intros E; by simplify_eq.
Qed.

Context (K : bytes -> Prop) (K_inj : forall a b, K a -> K b -> Keccak256 a = Keccak256 b -> a = b).

(** Maps at the commits of a run are known. *)
Fixpoint commits_known (m : gmap bytes bytes) (ops : list trie_op) : Prop :=
  match ops with
  | [] => True
  | op :: ops' => (op = OpCommit -> map_known K m) /\ commits_known (map_next op m) ops'
  end.

Definition trie_inv (T : Trie DB) (m : gmap bytes bytes) : Prop :=
  trie_rep T m /\ exists d, t_db T = Some d /\ clean K (fun k => db_Get k d).

Lemma trie_inv_db T T' m m' : trie_inv T m -> t_db T' = t_db T -> trie_rep T' m' -> trie_inv T' m'.
Proof. intros [_ (d & Ed & Hcl)] E Hr. split; [done|]. exists d. by rewrite E. Qed.

Lemma trie_step_ok T m op : trie_inv T m -> op_ok op -> (op = OpCommit -> map_known K m) ->
  (op = OpCommit /\ trie_step T op = Err PutError) \/
  exists r T', trie_step T op = Ok (r, T') /\ map_answer m op r /\ trie_inv T' (map_next op m).
Proof.
  intros Hi Hop Hk. pose proof Hi as [Hr (d & Ed & Hcl)]. destruct op as [k|k v|k| |]; simpl in Hop |- *.
  - right. destruct (TryGet_refines T m k Hr Hop) as (T' & E & Hr'). rewrite E. simpl. eexists _, T'.
    split_and!; [done|done|]. by apply (trie_inv_db T T' m m); [|eapply TryGet_db|].
  - right. destruct (TryUpdate_refines T m k v Hr) as (T' & E & Hr'); [apply Hop..|]. rewrite E. simpl. eexists _, T'.
    split_and!; [done|done|]. by apply (trie_inv_db T T' m _); [|eapply TryUpdate_db|].
  - right. destruct (TryDelete_refines T m k Hr Hop) as (T' & E & Hr'). rewrite E. simpl. eexists _, T'.
    split_and!; [done|done|]. by apply (trie_inv_db T T' m _); [|eapply TryDelete_db|].
  - right. destruct (Trie_Hash_ok T m Hr) as (h & T' & E & Hh & Hr' & Edb). rewrite E. simpl. eexists _, T'.
    split_and!; [done|by exists h|]. by apply (trie_inv_db T T' m m).
  - destruct (Commit_ok K K_inj T m d Hr Ed (Hk eq_refl) Hcl)
      as [[db' ->]|(h & T' & d' & -> & Ed' & Hh & Hr' & Hcl' & _)]; [by left|right].
    simpl. eexists _, T'. split_and!; [done|by exists h|]. split; [done|]. by exists d'.
Qed.

Lemma run_trie_ok ops : forall T m, trie_inv T m -> Forall op_ok ops -> commits_known m ops ->
  run_trie T ops = Err PutError \/
  exists rs T', run_trie T ops = Ok (rs, T') /\ map_answers m ops rs /\ trie_inv T' (map_after ops m).
Proof.
  induction ops as [|op ops IH]; intros T m Hi Hops Hk.
  - right. by exists [], T.
  - inversion_clear Hops. destruct Hk as [Hk1 Hk2]. simpl.
    destruct (trie_step_ok T m op) as [[_ ->]|(r & T1 & -> & Ha & Hi1)]; try done; [by left|]. simpl.
    destruct (IH T1 _ Hi1) as [->|(rs & T' & -> & Has & Hi')]; try done; [by left|]. right.
    simpl. by exists (r :: rs), T'.
Qed.

(** C17: the trie refines a finite map.  A run of [TryGet], [TryUpdate],
    [TryDelete], [Hash] and [Commit] on a trie that represents a map, whatever
    part of it is in memory and whatever hashes are cached, gives the answers of
    the same run on the map (an update with an empty value deletes, the root
    hashes are those of the contents) and ends in a trie that represents the map
    at the end; a failed write at a commit is the only error.  [K] is a set of
    encodings on which the hash has no collision, which holds what is committed. *)
Theorem trie_refines_map (T : Trie DB) m (ops : list trie_op) :
  trie_inv T m -> Forall op_ok ops -> commits_known m ops ->
  run_trie T ops = Err PutError \/
  exists rs T', run_trie T ops = Ok (rs, T') /\ map_answers m ops rs /\ trie_rep T' (map_after ops m).
Proof.
  intros Hi Hops Hk. destruct (run_trie_ok ops T m Hi Hops Hk) as [->|(rs & T' & -> & Ha & Hr & _)]; [by left|].
  right. by exists rs, T'.
Qed.

(** C18: the root hash is a function of the contents and binds them: two tries,
    however they were built and wherever their nodes are, have equal root hashes
    if and only if they hold the same entries. *)
Theorem trie_root_binds (T1 T2 : Trie DB) m1 m2 : trie_rep T1 m1 -> trie_rep T2 m2 ->
  map_known K m1 -> map_known K m2 ->
  exists h1 T1' h2 T2', Trie_Hash T1 = Ok (h1, T1') /\ Trie_Hash T2 = Ok (h2, T2') /\ (h1 = h2 <-> m1 = m2).
Proof.
  intros R1 R2 K1 K2. destruct (Trie_Hash_ok T1 m1 R1) as (h1 & T1' & E1 & M1 & _).
  destruct (Trie_Hash_ok T2 m2 R2) as (h2 & T2' & E2 & M2 & _). exists h1, T1', h2, T2'. split_and!; [done..|].
  split; [intros <-; by eapply (map_root_inj K K_inj)|intros <-; by eapply map_root_fun].
Qed.

(** commit and reload: a commit leaves the entries of the trie, stores them
    under a root hash that depends on them only, keeps everything the database
    had, and [New] with that root gives a trie with the same entries, from the
    database alone. *)
Theorem commit_reload (T : Trie DB) m d : trie_rep T m -> t_db T = Some d -> map_known K m ->
  clean K (fun k => db_Get k d) ->
  (exists db', Trie_Commit T = (Err PutError, db')) \/
  exists h T' d' T2, Trie_Commit T = (Ok (h, T'), Some d') /\ map_root m h /\ trie_rep T' m /\
    extends (fun k => db_Get k d) (fun k => db_Get k d') /\ Trie_New h (Some d') = Ok T2 /\ trie_rep T2 m.
Proof.
  intros Hr Ed Hk Hcl. destruct (Commit_ok K K_inj T m d Hr Ed Hk Hcl)
    as [?|(h & T' & d' & E & _ & Hh & Hr' & _ & Hx & T2 & E2 & Hr2)]; [by left|].
  right. by exists h, T', d', T2.
Qed.

(** ** Merkle proofs *)

Lemma root_path t m key : canon_or_nil t -> holds t m -> key_ok key ->
  exists l, path t (keybytesToHex key) l (m !! key).
Proof.
  intros Hc Hm Hk. pose proof (keybytesToHex_hexkey key (proj1 Hk)) as Hx.
  destruct (path_exists t (keybytesToHex key)) as (l & o & Hp & Hg); [by apply canon_nil_slot|by right|].
  exists l. replace (m !! key) with o; [done|]. apply option_eq. intros v. rewrite <- (holds_has t m key v Hm Hk). apply Hg.
Qed.

(** C19: Merkle proofs are sound: against the root hash of a non-empty map,
    [VerifyProof] accepts no list of byte strings, whoever made it, for a value
    the map does not have at the key, or for the absence of a key it has. *)
Theorem VerifyProof_sound m root key proof o : map_root m root -> m <> ∅ -> map_known K m -> Forall K proof ->
  key_ok key -> VerifyProof root key proof = Ok o -> o = m !! key.
Proof.
  intros (t & Hc & Hm & ->) Hne Hk Hp Hkey E. destruct (root_path t m key Hc Hm Hkey) as [l Hl].
  destruct Hc as [->|Hc].
  { destruct Hne. apply map_empty. intros k. destruct (m !! k) as [v|] eqn:Ev; [|done].
    destruct Hm as [_ Hm]. destruct (has_nil_inv (keybytesToHex k) v). apply Hm. eauto. }
  destruct (Hk t Hc Hm) as (Hkn & _). unfold VerifyProof in E.
  apply (verify_sound K proof K_inj Hp 0%nat t (keybytesToHex key) l (m !! key) o); try done; [by eapply holds_bounded|].
  by destruct t; try by inversion Hc.
Qed.

End Runs.

Section Completeness.
Context `{CryptoLaws} {DB : Type} `{DatabaseKeeps DB}.

(** proofs are complete: for every key, present or not, [Prove] on a
    non-empty trie succeeds and [VerifyProof] accepts its proof, with the value
    the trie has at the key. *)
Theorem Prove_complete (T : Trie DB) m root key : trie_rep T m -> m <> ∅ -> map_root m root -> key_ok key ->
  exists proof, Prove T key = Ok (Some proof) /\ VerifyProof root key proof = Ok (m !! key).
Proof.
  intros (t & Hc & Hm & Hr) Hne Hroot Hk.
  rewrite (map_root_fun m root (root_of t) Hroot) by (by exists t).
  destruct (root_path t m key Hc Hm Hk) as [l Hl]. pose proof (keybytesToHex_hexkey key (proj1 Hk)) as Hx.
  pose proof (holds_bounded _ _ Hm) as Hb. destruct Hc as [->|Hc].
  { destruct Hne. eapply trie_rep_nil; [by exists TNil; split_and!; [left|..]|by eapply rep_tnil_inv]. }
  destruct (prove_nodes_ok T (key_fuel (keybytesToHex key)) true (t_root T) t (keybytesToHex key) l (m !! key))
    as (ns & E & Hns); try done; [by apply canon_nil_slot; [|right]|by right|apply key_fuel_ok|].
  unfold Prove. rewrite E, (prove_encode_ok _ _ _ Hns 0%nat). simpl. eexists. split; [done|].
  assert (exists l', l = t :: l') as [l' ->] by (inversion Hl; subst; eauto; by inversion Hc).
  replace (root_of t) with (thash t) by (by destruct t; try by inversion Hc).
  by apply (verify_complete (S (length l'))); [lia|..].
Qed.

End Completeness.

(** key encodings: a hex key (nibbles, with the terminator or without)
    survives the compact encoding, whose bytes are in range, and a byte string
    survives the hex encoding. *)
Theorem key_encodings_roundtrip (h k : bytes) : hexnode h -> bytes_ok k ->
  (exists c, @hexToCompact unit h = Ok c /\ @compactToHex unit c = Ok h /\ bytes_ok c) /\
  @hexToKeybytes unit (keybytesToHex k) = Ok k.
Proof.
  intros Hh Hk. split.
  - destruct (hexnode_cases h Hh) as (term & ns & Hns & ->).
    destruct (hexToCompact_form (E:=unit) term ns Hns) as (c & E & Hc). exists c.
    split_and!; [done|by apply compactToHex_form|by eapply compact_form_bytes].
  - by apply hexToKeybytes_keybytesToHex.
Qed.

(** ** Witnesses *)

(** The root constant of an empty trie is the hash of the encoding of an empty string. *)
Example emptyRoot_hash : Keccak256 [0x80] = emptyRoot.
Proof. vm_compute. reflexivity. Qed.

Definition empty_trie : Trie MemDatabase := mkTrie nilNode (Some ∅) emptyRoot 0 0.

Definition demo_key : bytes := [0x12; 0x34].
Definition demo_val : bytes := replicate 40 7.
Definition demo_map : gmap bytes bytes := {[demo_key := demo_val]}.
Definition demo_tree : tree := leaf demo_key demo_val.
Definition demo_known (e : bytes) : Prop := e = tenc demo_tree.

Lemma demo_inj a b : demo_known a -> demo_known b -> Keccak256 a = Keccak256 b -> a = b.
Proof. by intros -> ->. Qed.

Lemma demo_key_ok : key_ok demo_key.
Proof. split; [apply (bytesb_ok demo_key 2)|]; vm_compute; reflexivity. Qed.

Lemma demo_val_ok : val_ok demo_val.
Proof. split; [apply (bytesb_ok demo_val 40)|]; vm_compute; reflexivity. Qed.

Lemma demo_root : thash demo_tree <> emptyRoot /\ thash demo_tree <> zero_hash.
Proof. split; apply (bool_decide_unpack _); vm_compute; exact I. Qed.

Lemma demo_map_known : map_known demo_known demo_map.
Proof. apply leaf_map_known; [apply demo_key_ok|apply demo_val_ok|done|apply demo_root..]. Qed.

Lemma empty_clean : clean demo_known (fun k => db_Get k (∅ : MemDatabase)).
Proof.
  intros e e' _ E. change ((∅ : gmap bytes bytes) !! Keccak256 e = Some e') in E. by rewrite lookup_empty in E.
Qed.

Lemma empty_trie_inv : trie_inv demo_known empty_trie ∅.
Proof.
  split; [exists TNil; split_and!; [by left|apply holds_empty|constructor]|].
  exists ∅. split; [done|apply empty_clean].
Qed.

Lemma empty_trie_rep : trie_rep empty_trie ∅.
Proof. apply empty_trie_inv. Qed.

Definition demo_trie : Trie MemDatabase :=
  match TryUpdate empty_trie demo_key demo_val with Ok T => T | _ => empty_trie end.

Lemma demo_trie_rep : trie_rep demo_trie demo_map.
Proof.
  destruct (TryUpdate_refines empty_trie ∅ demo_key demo_val empty_trie_rep demo_key_ok demo_val_ok) as (T' & E & Hr).
  unfold demo_trie. rewrite E. exact Hr.
Qed.

Lemma demo_map_root : map_root demo_map (thash demo_tree).
Proof. apply leaf_map_root; [apply demo_key_ok|apply demo_val_ok|done]. Qed.

Definition demo_ops : list trie_op :=
  [OpTryUpdate demo_key demo_val; OpCommit; OpTryGet demo_key; OpTryUpdate [0x12; 0x99] [5]; OpHash;
   OpTryDelete [0x12; 0x99]; OpCommit; OpTryUpdate demo_key []; OpHash].

Lemma trie_refines_map_witness : exists rs T', run_trie empty_trie demo_ops = Ok (rs, T') /\
  map_answers ∅ demo_ops rs /\ trie_rep T' ∅.
Proof.
  destruct (trie_refines_map demo_known demo_inj empty_trie ∅ demo_ops) as [E|(rs & T' & E & Ha & Hr)].
  - apply empty_trie_inv.
  - pose proof demo_key_ok. pose proof demo_val_ok. assert (key_ok [0x12; 0x99]) by (split; [apply (bytesb_ok _ 2)|]; reflexivity).
    assert (val_ok [5]) by (split; [apply (bytesb_ok _ 1)|]; reflexivity).
    assert (val_ok []) by (split; [apply (bytesb_ok _ 0)|]; reflexivity).
    unfold demo_ops. repeat (apply Forall_cons; split; [simpl; auto|]). apply Forall_nil. exact I.
  - repeat match goal with |- commits_known _ _ _ => split | |- _ -> _ => intros Ec end;
      first [discriminate Ec|exact demo_map_known|exact I].
  - exfalso. revert E. vm_compute. discriminate.
  - exists rs, T'. split; [exact E|]. split; [exact Ha|exact Hr].
Defined.

Lemma trie_root_binds_witness : exists h1 T1' h2 T2', Trie_Hash demo_trie = Ok (h1, T1') /\
  Trie_Hash demo_trie = Ok (h2, T2') /\ (h1 = h2 <-> demo_map = demo_map).
Proof.
  apply (trie_root_binds demo_known demo_inj demo_trie demo_trie demo_map demo_map).
  - exact demo_trie_rep.
  - exact demo_trie_rep.
  - exact demo_map_known.
  - exact demo_map_known.
Defined.

Lemma commit_reload_witness : (exists db', Trie_Commit demo_trie = (Err PutError, db')) \/
  exists h T' d' T2, Trie_Commit demo_trie = (Ok (h, T'), Some d') /\ map_root demo_map h /\ trie_rep T' demo_map /\
    extends (fun k => db_Get k ∅) (fun k => db_Get k d') /\ Trie_New h (Some d') = Ok T2 /\ trie_rep T2 demo_map.
Proof.
  apply (commit_reload demo_known demo_inj demo_trie demo_map ∅).
  - exact demo_trie_rep.
  - vm_compute. reflexivity.
  - exact demo_map_known.
  - exact empty_clean.
Defined.

Lemma VerifyProof_sound_witness : VerifyProof (thash demo_tree) demo_key [tenc demo_tree] = Ok (Some demo_val) /\
  Some demo_val = demo_map !! demo_key.
Proof.
  assert (E : VerifyProof (thash demo_tree) demo_key [tenc demo_tree] = Ok (Some demo_val)) by (vm_compute; reflexivity).
  split; [exact E|].
  apply (VerifyProof_sound demo_known demo_inj demo_map (thash demo_tree) demo_key [tenc demo_tree] (Some demo_val)).
  - exact demo_map_root.
  - unfold demo_map. apply map_non_empty_singleton.
  - exact demo_map_known.
  - apply Forall_cons. split; [reflexivity|apply Forall_nil; exact I].
  - exact demo_key_ok.
  - exact E.
Defined.

Lemma Prove_complete_witness : exists proof, Prove demo_trie [0xff] = Ok (Some proof) /\
  VerifyProof (thash demo_tree) [0xff] proof = Ok (demo_map !! [0xff]).
Proof.
  apply (Prove_complete demo_trie demo_map (thash demo_tree) [0xff]).
  - exact demo_trie_rep.
  - unfold demo_map. apply map_non_empty_singleton.
  - exact demo_map_root.
  - split; [apply (bytesb_ok _ 1)|]; vm_compute; reflexivity.
Defined.

Lemma key_encodings_roundtrip_witness :
  (exists c, @hexToCompact unit [1; 2; 3; 16] = Ok c /\ @compactToHex unit c = Ok [1; 2; 3; 16] /\ bytes_ok c) /\
  @hexToKeybytes unit (keybytesToHex [0xab]) = Ok [0xab].
Proof.
  apply (key_encodings_roundtrip [1; 2; 3; 16] [0xab]).
  - right. exists [1; 2; 3]. split; [|reflexivity]. repeat (apply Forall_cons; split; [split; reflexivity || discriminate|]). apply Forall_nil. exact I.
  - apply (bytesb_ok _ 1). reflexivity.
Defined.
