(* ===== verification/ValidatorProps.v ===== *)
(** Properties of validator sets: the sets are sorted duplicate-free lists and
    implement finite sets of addresses; the order does not depend on how a set
    was built; the proposer rotates through all validators; which quorums
    intersect. *)
From S2P Require Import Prelude RlpEncode RlpDecode IstanbulTypes ValidatorSet.

Section Props.
Context `{Crypto}.

(** ** Invariant *)

Definition addresses (vs : defaultSet) : list address := map v_address (validators vs).

(** The abstract set. *)
Definition members (vs : defaultSet) : gset address := list_to_set (addresses vs).

Definition set_ok (vs : defaultSet) : Prop :=
  StronglySorted in_order (validators vs) /\ NoDup (addresses vs) /\ Forall is_address (addresses vs).

Lemma elem_of_members a vs : a ∈ members vs <-> a ∈ addresses vs.
Proof. apply elem_of_list_to_set. Qed.

Lemma size_members vs : set_ok vs -> Z.of_nat (size (members vs)) = Size vs.
Proof.
  intros (_ & Hn & _). unfold members. rewrite size_list_to_set by done.
  unfold addresses, Size, zlen. by rewrite length_map.
Qed.

(** [GetByAddress] finds a validator exactly for the members. *)
Lemma GetByAddress_loop_spec l i addr :
  match GetByAddress_loop i l addr with
  | (k, Some v) => i <= k /\ l !! Z.to_nat (k - i) = Some v /\ v_address v = addr
  | (k, None) => k = -1 /\ addr ∉ map v_address l
  end.
Proof.
  revert i. induction l as [|v l IH]; intros i; simpl.
  - split; [done|]. by apply not_elem_of_nil.
  - destruct (decide (addr = v_address v)) as [->|Hne].
    + rewrite bool_decide_true by done. by rewrite Z.sub_diag.
    + rewrite bool_decide_false by done. specialize (IH (i + 1)).
      destruct (GetByAddress_loop (i + 1) l addr) as [k [w|]].
      * destruct IH as (Hk & Hl & <-). split; [lia|]. split; [|done].
        replace (Z.to_nat (k - i)) with (S (Z.to_nat (k - (i + 1)))) by lia. done.
      * destruct IH as [-> IH]. split; [done|]. by rewrite not_elem_of_cons.
Qed.

Lemma GetByAddress_spec vs addr :
  match GetByAddress vs addr with
  | (k, Some v) => 0 <= k < Size vs /\ validators vs !! Z.to_nat k = Some v /\ v_address v = addr
  | (k, None) => k = -1 /\ addr ∉ addresses vs
  end.
Proof.
  unfold GetByAddress. pose proof (GetByAddress_loop_spec (validators vs) 0 addr) as L.
  destruct (GetByAddress_loop 0 _ addr) as [k [v|]]; [|done]. rewrite Z.sub_0_r in L.
  destruct L as (Hk & Hl & Ha). pose proof (lookup_lt_Some _ _ _ Hl) as Hlt.
  unfold Size, zlen. split; [lia|done].
Qed.

Lemma GetByAddress_member vs addr :
  addr ∈ members vs <-> exists k v, GetByAddress vs addr = (k, Some v).
Proof.
  rewrite elem_of_members. pose proof (GetByAddress_spec vs addr) as G.
  destruct (GetByAddress vs addr) as [k [v|]].
  - split; [eauto|]. intros _. destruct G as (_ & Hl & <-).
    apply list_elem_of_fmap. exists v. split; [done|]. by eapply list_elem_of_lookup_2.
  - split; [by destruct G|]. intros (? & ? & ?). done.
Qed.

Lemma NoDup_address_lookup vs i j v w :
  set_ok vs -> validators vs !! i = Some v -> validators vs !! j = Some w ->
  v_address v = v_address w -> i = j.
Proof.
  intros (_ & Hn & _) Hi Hj E. eapply NoDup_lookup; [exact Hn|..]; unfold addresses;
    rewrite list_lookup_fmap; [by rewrite Hi|by rewrite Hj, E].
Qed.

(** ** Construction and update *)

Lemma sort_Sort_ok l : StronglySorted in_order (sort_Sort l) /\ sort_Sort l ≡ₚ l.
Proof.
  split; [|apply merge_sort_Permutation].
  apply Sorted_StronglySorted; [apply _|]. apply (Sorted_merge_sort _ _).
Qed.

Lemma imap_New_addresses fresh l :
  map v_address (imap (fun i addr => New (fresh + Z.of_nat i) addr) l) = l.
Proof.
  change (map v_address) with (fmap v_address : list Validator -> list address).
  rewrite fmap_imap. etrans; [apply (imap_const id)|]. apply list_fmap_id.
Qed.

Lemma newDefaultSet_validators fresh addrs pol :
  validators (newDefaultSet fresh addrs pol) =
  sort_Sort (imap (fun i addr => New (fresh + Z.of_nat i) addr) addrs).
Proof. unfold newDefaultSet. by zcase. Qed.

Lemma newDefaultSet_addresses fresh addrs pol : addresses (newDefaultSet fresh addrs pol) ≡ₚ addrs.
Proof.
  unfold addresses. rewrite newDefaultSet_validators.
  rewrite (Permutation_map v_address (proj2 (sort_Sort_ok _))). by rewrite imap_New_addresses.
Qed.

Lemma newDefaultSet_ok fresh addrs pol :
  NoDup addrs -> Forall is_address addrs ->
  set_ok (newDefaultSet fresh addrs pol) /\ members (newDefaultSet fresh addrs pol) = list_to_set addrs.
Proof.
  intros Hn Ha. pose proof (newDefaultSet_addresses fresh addrs pol) as P.
  split; [|unfold members; by rewrite P].
  split; [rewrite newDefaultSet_validators; apply sort_Sort_ok|]. by rewrite P.
Qed.

Lemma set_Copy_ok fresh vs :
  set_ok vs -> set_ok (set_Copy fresh vs) /\ members (set_Copy fresh vs) = members vs.
Proof. intros (_ & Hn & Ha). by apply newDefaultSet_ok. Qed.

Lemma existsb_address l addr :
  existsb (fun v => bool_decide (v_address v = addr)) l = bool_decide (addr ∈ map v_address l).
Proof.
  induction l as [|v l IH]; simpl; [done|]. rewrite IH. repeat case_bool_decide; set_solver.
Qed.

Lemma AddValidator_ok fresh a vs b vs' :
  set_ok vs -> is_address a -> AddValidator fresh a vs = (b, vs') ->
  set_ok vs' /\ members vs' = {[a]} ∪ members vs /\ b = bool_decide (a ∉ members vs).
Proof.
  intros (Hs & Hn & Ha) Hok. unfold AddValidator. rewrite existsb_address.
  change (map v_address (validators vs)) with (addresses vs).
  destruct (decide (a ∈ addresses vs)) as [Hin|Hin].
  - rewrite bool_decide_true by done. intros [= <- <-]. split; [done|].
    apply elem_of_members in Hin. rewrite bool_decide_false by naive_solver. set_solver.
  - rewrite bool_decide_false by done. intros [= <- <-].
    set (l := validators vs ++ [New fresh a]).
    assert (P : map v_address (sort_Sort l) ≡ₚ addresses vs ++ [a]).
    { rewrite (Permutation_map v_address (proj2 (sort_Sort_ok l))). unfold l. by rewrite map_app. }
    rewrite bool_decide_true by (by rewrite elem_of_members). unfold members, set_ok, addresses at 1 2 3. simpl.
    rewrite P, list_to_set_app_L. split; [|split; [set_solver|done]].
    split; [apply sort_Sort_ok|]. split.
    + apply NoDup_app. split; [done|]. split; [|apply NoDup_singleton]. set_solver.
    + apply Forall_app. split; [done|]. by apply Forall_singleton.
Qed.

Lemma RemoveValidator_loop_spec l addr :
  match RemoveValidator_loop l addr with
  | Some l' => exists l1 v l2, l = l1 ++ v :: l2 /\ l' = l1 ++ l2 /\ v_address v = addr
  | None => addr ∉ map v_address l
  end.
Proof.
  induction l as [|v l IH]; simpl; [by apply not_elem_of_nil|].
  case_bool_decide as E; [by exists [], v, l|].
  destruct (RemoveValidator_loop l addr) as [l'|]; simpl.
  - destruct IH as (l1 & w & l2 & -> & -> & Hw). by exists (v :: l1), w, l2.
  - rewrite not_elem_of_cons. naive_solver.
Qed.

Lemma RemoveValidator_ok a vs b vs' :
  set_ok vs -> RemoveValidator a vs = (b, vs') ->
  set_ok vs' /\ members vs' = members vs ∖ {[a]} /\ b = bool_decide (a ∈ members vs).
Proof.
  intros (Hs & Hn & Ha). unfold RemoveValidator.
  pose proof (RemoveValidator_loop_spec (validators vs) a) as R.
  destruct (RemoveValidator_loop (validators vs) a) as [l|]; intros [= <- <-].
  - destruct R as (l1 & v & l2 & El & -> & <-). unfold set_ok, members, addresses in *. simpl. rewrite El in *.
    rewrite map_app in *. simpl in *. rewrite list_to_set_app_L in *. simpl in *.
    apply NoDup_app in Hn as (N1 & Nd & N2). inversion_clear N2 as [|? ? Nv N2'].
    apply Forall_app in Ha as [A1 A2]. inversion_clear A2 as [|? ? _ A2'].
    rewrite bool_decide_true by set_solver.
    assert (v_address v ∉ map v_address l1) by set_solver.
    split; [|split; [|done]].
    + split; [|split; [apply NoDup_app; set_solver|by apply Forall_app]].
      apply StronglySorted_app in Hs as (Hs & S1 & S2). inversion_clear S2.
      apply StronglySorted_app. split; [set_solver|done].
    + rewrite map_app, list_to_set_app_L. set_solver.
  - change (map v_address (validators vs)) with (addresses vs) in R. rewrite <- elem_of_members in R.
    rewrite bool_decide_false by done. split; [done|]. set_solver.
Qed.

(** ** Refinement: a validator set is a finite set of addresses *)

Inductive set_op :=
| OpAdd (fresh : Z) (a : address)
| OpRemove (a : address)
| OpCopy (fresh : Z)
| OpCalcProposer (last : address) (round : Z)
| OpHas (a : address).

Definition op_ok (o : set_op) : Prop := match o with OpAdd _ a => is_address a | _ => True end.

Definition run_op (o : set_op) (vs : defaultSet) : bool * defaultSet :=
  match o with
  | OpAdd fresh a => AddValidator fresh a vs
  | OpRemove a => RemoveValidator a vs
  | OpCopy fresh => (true, set_Copy fresh vs)
  | OpCalcProposer last round => (true, CalcProposer last round vs)
  | OpHas a => (match GetByAddress vs a with (_, Some _) => true | _ => false end, vs)
  end.

Definition abs_op (o : set_op) (S : gset address) : bool * gset address :=
  match o with
  | OpAdd _ a => (bool_decide (a ∉ S), {[a]} ∪ S)
  | OpRemove a => (bool_decide (a ∈ S), S ∖ {[a]})
  | OpCopy _ | OpCalcProposer _ _ => (true, S)
  | OpHas a => (bool_decide (a ∈ S), S)
  end.

Fixpoint run_all {S} (step : set_op -> S -> bool * S) (ops : list set_op) (s : S) : list bool * S :=
  match ops with
  | [] => ([], s)
  | o :: ops' => let '(b, s1) := step o s in let '(bs, s2) := run_all step ops' s1 in (b :: bs, s2)
  end.

Lemma run_op_refines o vs b vs' :
  set_ok vs -> op_ok o -> run_op o vs = (b, vs') -> set_ok vs' /\ abs_op o (members vs) = (b, members vs').
Proof.
  intros Hs Ho E. destruct o as [fresh a|a|fresh|last round|a]; simpl in *.
  - destruct (AddValidator_ok _ _ _ _ _ Hs Ho E) as (? & -> & ->). done.
  - destruct (RemoveValidator_ok _ _ _ _ Hs E) as (? & -> & ->). done.
  - injection E as <- <-. destruct (set_Copy_ok fresh vs Hs) as [? ->]. done.
  - by injection E as <- <-.
  - injection E as <- <-. split; [done|]. f_equal. pose proof (GetByAddress_member vs a) as G.
    destruct (GetByAddress vs a) as [k [v|]].
    + apply bool_decide_true, G. eauto.
    + apply bool_decide_false. rewrite G. naive_solver.
Qed.

(** ** Proposer selection *)

Lemma GetByIndex_lookup vs i :
  Size vs < 2 ^ 63 -> 0 <= i < Size vs -> GetByIndex vs i = validators vs !! Z.to_nat i.
Proof.
  intros Hz Hi. unfold GetByIndex. rewrite u64_id by (unfold is_u64; lia). by zcases.
Qed.

Lemma u64_small x : 0 <= x < 2 ^ 64 -> u64 x = x.
Proof. apply u64_id. Qed.

(** The index that round robin picks after the proposer with index [i]. *)
Lemma roundRobin_index vs last i v round :
  Size vs < 2 ^ 63 -> GetByAddress vs last = (i, Some v) -> last <> zero_address ->
  0 <= round < 2 ^ 63 ->
  roundRobinProposer vs last round = validators vs !! Z.to_nat ((i + 1 + round) `mod` Size vs).
Proof.
  intros Hz G Hl Hr. pose proof (GetByAddress_spec vs last) as S. rewrite G in S. destruct S as (Hi & _ & _).
  unfold roundRobinProposer, emptyAddress, calcSeed. rewrite bool_decide_false by done. rewrite G. zcase; [lia|].
  rewrite (u64_small (Size vs)), (u64_small i), (u64_small (i + round)), (u64_small (i + round + 1)) by lia.
  rewrite GetByIndex_lookup; [|done|apply Z.mod_pos_bound; lia]. do 3 f_equal. lia.
Qed.

Lemma mod_shift_surj n i k : 0 < n -> 0 <= k < n -> exists r, 0 <= r < n /\ (i + r) `mod` n = k.
Proof.
  intros Hn Hk. exists ((k - i) `mod` n). split; [by apply Z.mod_pos_bound|].
  rewrite Z.add_mod_idemp_r by lia. replace (i + (k - i)) with k by lia. by apply Z.mod_small.
Qed.

Lemma mod_shift_inj n i r r' :
  0 < n -> 0 <= r < n -> 0 <= r' < n -> (i + r) `mod` n = (i + r') `mod` n -> r = r'.
Proof.
  intros Hn Hr Hr' E. assert (D : ((i + r) - (i + r')) `mod` n = 0) by (rewrite Zminus_mod, E, Z.sub_diag; done).
  replace (i + r - (i + r')) with (r - r') in D by lia. apply Z.mod_divide in D as [q D]; [|lia].
  assert (q = 0) by nia. nia.
Qed.

(** ** Quorums *)

Lemma F_bounds vs : 0 < Size vs -> 3 * F vs + 1 <= Size vs <= 3 * F vs + 3 /\ 0 <= F vs.
Proof.
  intros Hs. unfold F. pose proof (Z.div_mod (Size vs + 2) 3 ltac:(lia)).
  pose proof (Z.mod_pos_bound (Size vs + 2) 3 ltac:(lia)). lia.
Qed.

(** Two sets of members with more than [2F] elements each. *)
Definition quorum (vs : defaultSet) (Q : gset address) : Prop :=
  Q ⊆ members vs /\ 2 * F vs < Z.of_nat (size Q).

Lemma size_split_inter (X Y : gset address) : size Y = (size (X ∩ Y) + size (Y ∖ X))%nat.
Proof.
  rewrite <- size_union by set_solver. f_equal. apply set_eq. intros x.
  destruct (decide (x ∈ X)); set_solver.
Qed.

Lemma quorum_overlap vs Q1 Q2 :
  set_ok vs -> quorum vs Q1 -> quorum vs Q2 -> 4 * F vs + 2 - Size vs <= Z.of_nat (size (Q1 ∩ Q2)).
Proof.
  intros Hs [S1 H1] [S2 H2]. rewrite <- (size_members vs Hs).
  assert (size (Q1 ∪ Q2) <= size (members vs))%nat by (apply subseteq_size; set_solver).
  pose proof (size_union_alt Q1 Q2). pose proof (size_split_inter Q1 Q2). lia.
Qed.

Lemma list_to_set_inter_drop (l : list address) k :
  NoDup l -> (list_to_set (take k l) : gset address) ∩ list_to_set (drop (length l - k) l)
    ⊆ list_to_set (take (2 * k - length l) (drop (length l - k) l)).
Proof.
  intros Hn x. rewrite elem_of_intersection, !elem_of_list_to_set.
  intros [[i Hi]%list_elem_of_lookup [j Hj]%list_elem_of_lookup].
  apply lookup_take_Some in Hi as [Hi Hik]. pose proof Hj as Hj'. rewrite lookup_drop in Hj.
  assert (i = length l - k + j)%nat by (by eapply NoDup_lookup).
  apply list_elem_of_lookup. exists j. apply lookup_take_Some. split; [done|]. lia.
Qed.

Lemma sublist_quorum vs m :
  set_ok vs -> m `sublist_of` addresses vs -> 2 * F vs < zlen m -> quorum vs (list_to_set m).
Proof.
  intros (_ & Hn & _) Hm Lm. split.
  - intros x. rewrite elem_of_list_to_set, elem_of_members. intros Hx. by eapply elem_of_sublist.
  - rewrite size_list_to_set; [done|]. by eapply sublist_NoDup.
Qed.

(** The first and the last [2F + 1] validators overlap as little as possible. *)
Lemma quorum_extremes vs :
  set_ok vs -> 0 < Size vs ->
  exists Q1 Q2, quorum vs Q1 /\ quorum vs Q2 /\
    Z.of_nat (size (Q1 ∩ Q2)) <= Z.max 0 (4 * F vs + 2 - Size vs).
Proof.
  intros Hs Hp. pose proof (F_bounds vs Hp) as [HF HF0]. set (l := addresses vs).
  assert (Hl : Z.of_nat (length l) = Size vs) by (unfold l, addresses, Size, zlen; by rewrite length_map).
  set (k := Z.to_nat (2 * F vs + 1)).
  exists (list_to_set (take k l)), (list_to_set (drop (length l - k) l)). repeat split_and.
  - apply sublist_quorum; [done|apply sublist_take|]. unfold zlen. rewrite length_take. lia.
  - apply sublist_quorum; [done|apply sublist_drop|]. unfold zlen. rewrite length_drop. lia.
  - destruct Hs as (_ & Hn & _).
    pose proof (list_to_set_inter_drop l k Hn) as I. apply subseteq_size in I.
    rewrite size_list_to_set in I; [rewrite length_take in I; lia|].
    eapply sublist_NoDup; [exact Hn|]. etrans; [apply sublist_take|apply sublist_drop].
Qed.

End Props.

#[export] Hint Resolve newDefaultSet_ok set_Copy_ok : istanbul_db.

(** ** Claims *)

(** validator sets implement finite sets of addresses: along every sequence
    of additions, removals, copies, proposer calculations and queries the list
    stays sorted and duplicate-free, every answer is the one of the abstract
    set, and the members are the abstract set. *)
Theorem validator_set_refines `{Crypto} (ops : list set_op) (vs : defaultSet) (bs : list bool) (vs' : defaultSet) :
  set_ok vs -> Forall op_ok ops -> run_all run_op ops vs = (bs, vs') ->
  set_ok vs' /\ run_all abs_op ops (members vs) = (bs, members vs').
Proof.
  intros Hs Ho. revert vs bs Hs. induction Ho as [|o ops Ho Hops IH]; intros vs bs Hs E; simpl in *.
  { by injection E as <- <-. }
  destruct (run_op o vs) as [b vs1] eqn:E1. destruct (run_all run_op ops vs1) as [bs1 vs2] eqn:E2.
  injection E as <- <-. destruct (run_op_refines o vs b vs1 Hs Ho E1) as [Hs1 ->].
  destruct (IH vs1 bs1 Hs1 E2) as [Hs2 ->]. done.
Qed.

(** every node orders the same validators in the same way: the list of a
    new set depends only on the set of addresses, not on the order in which
    they are given. *)
Theorem newDefaultSet_order `{Crypto} (f1 f2 pol : Z) (l1 l2 : list address) :
  Forall is_address l1 -> l1 ≡ₚ l2 ->
  addresses (newDefaultSet f1 l1 pol) = addresses (newDefaultSet f2 l2 pol).
Proof.
  intros Ha P. pose (R a b := str_ltb (Address_Hex b) (Address_Hex a) = false).
  pose proof (newDefaultSet_addresses f1 l1 pol) as P1. pose proof (newDefaultSet_addresses f2 l2 pol) as P2.
  assert (SS : forall f l, StronglySorted R (addresses (newDefaultSet f l pol))).
  { intros f l. apply (StronglySorted_fmap v_address in_order R); [done|].
    rewrite newDefaultSet_validators. apply sort_Sort_ok. }
  apply (StronglySorted_unique_strong R); auto; [|by rewrite P1, P2].
  intros a b Hin1 Hin2 H1 H2. rewrite P1 in Hin1. rewrite P2, <- P in Hin2.
  rewrite Forall_forall in Ha.
  apply (in_order_antisym (New 0 a) (New 0 b)); try done; by apply Ha.
Qed.

(** round robin gives every validator its turn: among the [n] rounds that
    follow a block of a validator, each of the [n] validators is the proposer
    of exactly one round. *)
Theorem roundRobin_fair `{Crypto} (vs : defaultSet) (last a : address) :
  set_ok vs -> policy vs <> Sticky -> Size vs < 2 ^ 62 -> last ∈ members vs -> last <> zero_address ->
  a ∈ members vs ->
  exists r, 0 <= r < Size vs /\
    forall r', 0 <= r' < Size vs -> IsProposer (CalcProposer last r' vs) a = true <-> r' = r.
Proof.
  intros Hs Hp Hz Hl Hl0 Ha.
  apply GetByAddress_member in Hl as (i & v & Gl). apply GetByAddress_member in Ha as (k & w & Ga).
  pose proof (GetByAddress_spec vs a) as Sa. rewrite Ga in Sa. destruct Sa as (Hk & Lk & <-).
  destruct (mod_shift_surj (Size vs) (i + 1) k) as (r & Hr & Er); [lia|done|].
  exists r. split; [done|]. intros r' Hr'.
  assert (E : proposer (CalcProposer last r' vs) = validators vs !! Z.to_nat ((i + 1 + r') `mod` Size vs)).
  { unfold CalcProposer, selector. simpl. zcase; [done|]. by rewrite (roundRobin_index vs last i v) by (auto; lia). }
  pose proof (Z.mod_pos_bound (i + 1 + r') (Size vs) ltac:(lia)) as Hb.
  destruct (lookup_lt_is_Some_2 (validators vs) (Z.to_nat ((i + 1 + r') `mod` Size vs))) as [u Lu].
  { unfold Size, zlen in Hb |- *. lia. }
  unfold IsProposer. change (GetByAddress (CalcProposer last r' vs)) with (GetByAddress vs). rewrite Ga.
  unfold GetProposer. rewrite E, Lu. simpl. rewrite bool_decide_eq_true. split.
  - intros Eq. apply (mod_shift_inj (Size vs) (i + 1)); [lia..|]. rewrite Er.
    pose proof (NoDup_address_lookup vs _ _ _ _ Hs Lu Lk Eq). lia.
  - intros ->. rewrite Er, Lk in Lu. by simplify_eq.
Qed.

(** C23: when quorums are safe.  Two sets of more than [2F] validators always
    share more than [F] validators, so at least one honest one, exactly when
    the number of validators has the form [3F + 1].  For the other sizes the
    thresholds of the code ([> 2*F] with [F = ceil(n/3) - 1]) admit two quorums
    whose common members can all be faulty. *)
Theorem quorum_intersection_iff `{Crypto} (vs : defaultSet) :
  set_ok vs -> 0 < Size vs ->
  (forall Q1 Q2, quorum vs Q1 -> quorum vs Q2 -> F vs < Z.of_nat (size (Q1 ∩ Q2))) <->
  Size vs `mod` 3 = 1.
Proof.
  intros Hs Hp. pose proof (F_bounds vs Hp) as [HF HF0]. split.
  - intros HQ. destruct (quorum_extremes vs Hs Hp) as (Q1 & Q2 & H1 & H2 & L).
    specialize (HQ Q1 Q2 H1 H2). pose proof (Z.mod_pos_bound (Size vs) 3 ltac:(lia)).
    pose proof (Z.div_mod (Size vs) 3 ltac:(lia)). lia.
  - intros Hm Q1 Q2 H1 H2. pose proof (quorum_overlap vs Q1 Q2 Hs H1 H2).
    pose proof (Z.div_mod (Size vs) 3 ltac:(lia)). lia.
Qed.

Lemma ExtractValidators_chunks (l : list address) :
  Forall is_address l ->
  map (fun i => take 20 (drop (i * 20) (concat l))) (seq 0 (length l)) = l.
Proof.
  induction 1 as [|a l [_ Ha] Hl IH]; simpl; [done|].
  assert (La : length a = 20%nat) by (unfold zlen, AddressLength in Ha; lia).
  f_equal.
  - rewrite drop_0, <- La. apply take_app_length.
  - rewrite <- seq_shift, map_map. rewrite <- IH at 2. apply map_ext. intros i.
    f_equal. change (S i * 20)%nat with (20 + i * 20)%nat. rewrite <- La at 1. by rewrite drop_app_add.
Qed.

Lemma zlen_concat_addresses (l : list address) : Forall is_address l -> zlen (concat l) = AddressLength * zlen l.
Proof.
  induction 1 as [|a l [_ Ha] Hl IH]; simpl; [done|]. rewrite zlen_app, zlen_cons, IH, Ha. lia.
Qed.

(** The validator list of an epoch header survives its flat encoding: the
    concatenated addresses are valid extra data and split back into exactly
    the same list. *)
Lemma ExtractValidators_roundtrip (l : list address) :
  Forall is_address l -> ValidExtraData (concat l) = true /\ ExtractValidators (concat l) = l.
Proof.
  intros Hl. unfold ValidExtraData, ExtractValidators. rewrite zlen_concat_addresses by done.
  rewrite Z.mul_comm, Z.mod_mul, Z.div_mul by (unfold AddressLength; lia). split; [done|].
  unfold zlen. rewrite Nat2Z.id. by apply ExtractValidators_chunks.
Qed.

(** ** Witnesses *)

(** A hash that pads its input and signatures that carry the address. *)
Definition toy_crypto : Crypto := {|
  Keccak256 b := be_pad 32 (be_value b);
  recover_address _ sig := if zlen sig =? 20 then Some sig else None
|}.

Definition sample_set (n : nat) : defaultSet :=
  @newDefaultSet toy_crypto 0 (map (fun i => sample_address (Z.of_nat i + 1)) (seq 0 n)) RoundRobin.

Lemma sample_addresses_ok (l : list nat) :
  Forall is_address (map (fun i => sample_address (Z.of_nat i + 1)) l).
Proof. apply Forall_map, Forall_true. intros i. apply sample_address_ok. Qed.

Lemma sample_set_ok : @set_ok toy_crypto (sample_set 4) /\ @set_ok toy_crypto (sample_set 6).
Proof.
  split; apply newDefaultSet_ok; try apply sample_addresses_ok;
    apply (bool_decide_unpack _); vm_compute; exact I.
Qed.

Lemma validator_set_refines_witness :
  let ops := [OpAdd 100 (sample_address 9); OpRemove (sample_address 2); OpHas (sample_address 2);
              OpAdd 101 (sample_address 9); OpCopy 200] in
  @set_ok toy_crypto (run_all (@run_op toy_crypto) ops (sample_set 4)).2.
Proof.
  intros ops.
  refine (proj1 (@validator_set_refines toy_crypto ops (sample_set 4)
    [true; true; false; false; true] _ (proj1 sample_set_ok) _ _)).
  - repeat (apply Forall_cons; split; [first [apply sample_address_ok | exact I]|]). apply Forall_nil_2.
  - vm_compute. reflexivity.
Defined.

Lemma newDefaultSet_order_witness :
  addresses (@newDefaultSet toy_crypto 0 [sample_address 171; sample_address 5] RoundRobin) =
  addresses (@newDefaultSet toy_crypto 9 [sample_address 5; sample_address 171] RoundRobin).
Proof.
  apply (@newDefaultSet_order toy_crypto 0 9 RoundRobin [sample_address 171; sample_address 5]
    [sample_address 5; sample_address 171]).
  - repeat (apply Forall_cons; split; [apply sample_address_ok|]). apply Forall_nil_2.
  - apply Permutation_swap.
Defined.

Lemma roundRobin_fair_witness :
  exists r, 0 <= r < Size (sample_set 4) /\
    forall r', 0 <= r' < Size (sample_set 4) ->
      IsProposer (CalcProposer (sample_address 1) r' (sample_set 4)) (sample_address 3) = true <-> r' = r.
Proof.
  apply (@roundRobin_fair toy_crypto (sample_set 4) (sample_address 1) (sample_address 3) (proj1 sample_set_ok)).
  - vm_compute. discriminate.
  - vm_compute. reflexivity.
  - apply (bool_decide_unpack _). vm_compute. exact I.
  - vm_compute. discriminate.
  - apply (bool_decide_unpack _). vm_compute. exact I.
Defined.

Lemma quorum_intersection_iff_witness :
  ~ (forall Q1 Q2, quorum (sample_set 6) Q1 -> quorum (sample_set 6) Q2 ->
       F (sample_set 6) < Z.of_nat (size (Q1 ∩ Q2))).
Proof.
  intros HQ. apply (@quorum_intersection_iff toy_crypto (sample_set 6) (proj2 sample_set_ok)) in HQ.
  - vm_compute in HQ. discriminate.
  - vm_compute. reflexivity.
Defined.

Lemma ExtractValidators_roundtrip_witness :
  ExtractValidators (concat [sample_address 3; sample_address 1]) = [sample_address 3; sample_address 1].
Proof.
  apply (ExtractValidators_roundtrip [sample_address 3; sample_address 1]).
  repeat (apply Forall_cons; split; [apply sample_address_ok|]). apply Forall_nil_2.
Defined.
