(* ===== verification/RoundState.v ===== *)
(** Message sets and the state of a round: [core/message_set.go],
    [core/roundstate.go] and the round change set of [core/roundchange.go].

    The validator set a message set points to is shared with the core; the
    only operation applied to it after construction, [CalcProposer], leaves
    the list of validators alone, so a copy by value is enough here. *)
From S2P Require Import Prelude RlpEncode RlpDecode RlpCodec IstanbulTypes ValidatorSet ValidatorProps.

(** ** Message sets *)

Record messageSet := mkMessageSet {
  ms_view : View;
  ms_valSet : defaultSet;
  ms_messages : gmap address message
}.

Definition newMessageSet (valSet : defaultSet) : messageSet := mkMessageSet (mkView 0 0) valSet ∅.

Definition ms_verify (ms : messageSet) (msg : message) : option core_err :=
  match GetByAddress (ms_valSet ms) (Address msg) with
  | (_, None) => Some ErrUnauthorizedAddress
  | (_, Some _) => None
  end.

Definition addVerifiedMessage (ms : messageSet) (msg : message) : messageSet :=
  mkMessageSet (ms_view ms) (ms_valSet ms) (<[Address msg := msg]> (ms_messages ms)).

Definition ms_Add (ms : messageSet) (msg : message) : option core_err * messageSet :=
  match ms_verify ms msg with
  | Some e => (Some e, ms)
  | None => (None, addVerifiedMessage ms msg)
  end.

Definition ms_Values `{GoRange} (ms : messageSet) : list message :=
  go_range (map snd (map_to_list (ms_messages ms))).

Definition ms_Size (ms : messageSet) : Z := Z.of_nat (size (ms_messages ms)).

Definition ms_Get (ms : messageSet) (addr : address) : option message := ms_messages ms !! addr.

(** ** Round state *)

Section RoundState.
Context {P : Type} `{Proposal P} `{GoRange}.

Record roundState := mkRoundState {
  rs_round : Z;
  rs_sequence : Z;
  rs_Preprepare : option (Preprepare P);
  rs_Prepares : messageSet;
  rs_Commits : messageSet;
  rs_lockedHash : hash;
  rs_pendingRequest : option (Request P)
}.

Definition newRoundState (view : View) (validatorSet : defaultSet) (lockedHash : hash)
    (preprepare : option (Preprepare P)) (pendingRequest : option (Request P)) : roundState :=
  mkRoundState (Round view) (Sequence view) preprepare (newMessageSet validatorSet)
    (newMessageSet validatorSet) lockedHash pendingRequest.

Definition GetPrepareOrCommitSize (s : roundState) : Z :=
  fold_left (fun result m => if ms_Get (rs_Commits s) (Address m) then result - 1 else result)
    (ms_Values (rs_Prepares s)) (ms_Size (rs_Prepares s) + ms_Size (rs_Commits s)).

Definition rs_Subject (s : roundState) : option Subject :=
  match rs_Preprepare s with
  | None => None
  | Some pp => Some (mkSubject (mkView (rs_round s) (rs_sequence s)) (Hash (pp_Proposal pp)))
  end.

Definition SetPreprepare (pp : Preprepare P) (s : roundState) : roundState :=
  mkRoundState (rs_round s) (rs_sequence s) (Some pp) (rs_Prepares s) (rs_Commits s)
    (rs_lockedHash s) (rs_pendingRequest s).

Definition rs_Proposal (s : roundState) : option P := pp_Proposal <$> rs_Preprepare s.

Definition SetRound (r : Z) (s : roundState) : roundState :=
  mkRoundState r (rs_sequence s) (rs_Preprepare s) (rs_Prepares s) (rs_Commits s)
    (rs_lockedHash s) (rs_pendingRequest s).

Definition SetSequence (seq : Z) (s : roundState) : roundState :=
  mkRoundState (rs_round s) seq (rs_Preprepare s) (rs_Prepares s) (rs_Commits s)
    (rs_lockedHash s) (rs_pendingRequest s).

Definition set_Prepares (ms : messageSet) (s : roundState) : roundState :=
  mkRoundState (rs_round s) (rs_sequence s) (rs_Preprepare s) ms (rs_Commits s)
    (rs_lockedHash s) (rs_pendingRequest s).

Definition set_Commits (ms : messageSet) (s : roundState) : roundState :=
  mkRoundState (rs_round s) (rs_sequence s) (rs_Preprepare s) (rs_Prepares s) ms
    (rs_lockedHash s) (rs_pendingRequest s).

Definition set_pendingRequest (r : option (Request P)) (s : roundState) : roundState :=
  mkRoundState (rs_round s) (rs_sequence s) (rs_Preprepare s) (rs_Prepares s) (rs_Commits s)
    (rs_lockedHash s) r.

Definition set_lockedHash (h : hash) (s : roundState) : roundState :=
  mkRoundState (rs_round s) (rs_sequence s) (rs_Preprepare s) (rs_Prepares s) (rs_Commits s)
    h (rs_pendingRequest s).

Definition LockHash (s : roundState) : roundState :=
  match rs_Preprepare s with
  | Some pp => set_lockedHash (Hash (pp_Proposal pp)) s
  | None => s
  end.

Definition UnlockHash (s : roundState) : roundState := set_lockedHash zero_hash s.

(** [common.EmptyHash]. *)
Definition EmptyHash (h : hash) : bool := bool_decide (h = zero_hash).

(** [hasBadProposal] is the method of the backend stored in the round state. *)
Definition IsHashLocked (hasBadProposal : hash -> bool) (s : roundState) : bool :=
  if EmptyHash (rs_lockedHash s) then false else negb (hasBadProposal (rs_lockedHash s)).

Definition GetLockedHash (s : roundState) : hash := rs_lockedHash s.

End RoundState.
Arguments roundState P : clear implicits.

(** ** Round change messages *)

Record roundChangeSet := mkRoundChangeSet {
  rcs_validatorSet : defaultSet;
  rcs_roundChanges : gmap Z messageSet
}.

Definition newRoundChangeSet (valSet : defaultSet) : roundChangeSet := mkRoundChangeSet valSet ∅.

(** The message set of the round is created before the message is checked and
    stays when it is refused. *)
Definition rcs_Add (r : Z) (msg : message) (rcs : roundChangeSet) : (core_err + Z) * roundChangeSet :=
  let round := u64 r in
  let ms := default (newMessageSet (rcs_validatorSet rcs)) (rcs_roundChanges rcs !! round) in
  let '(err, ms') := ms_Add ms msg in
  let rcs' := mkRoundChangeSet (rcs_validatorSet rcs) (<[round := ms']> (rcs_roundChanges rcs)) in
  match err with
  | Some e => (inl e, rcs')
  | None => (inr (ms_Size ms'), rcs')
  end.

Definition rcs_Clear (round : Z) (rcs : roundChangeSet) : roundChangeSet :=
  mkRoundChangeSet (rcs_validatorSet rcs)
    (filter (fun kv => ~ (ms_Size kv.2 = 0 \/ kv.1 < u64 round)) (rcs_roundChanges rcs)).

Definition MaxRound_step (num : Z) (maxRound : option Z) (kv : Z * messageSet) : option Z :=
  if ms_Size kv.2 <? num then maxRound
  else
    let r := i64 kv.1 in
    match maxRound with
    | None => Some r
    | Some m => if Cmp m r <? 0 then Some r else maxRound
    end.

Definition MaxRound `{GoRange} (num : Z) (rcs : roundChangeSet) : option Z :=
  fold_left (MaxRound_step num) (go_range (map_to_list (rcs_roundChanges rcs))) None.

(** ** Invariants *)

(** Messages are filed under their sender, a member of the validator set. *)
Definition ms_ok (ms : messageSet) : Prop :=
  forall a m, ms_messages ms !! a = Some m -> Address m = a /\ a ∈ members (ms_valSet ms).

Definition senders (ms : messageSet) : gset address := dom (ms_messages ms).

Lemma newMessageSet_ok vs : ms_ok (newMessageSet vs).
Proof. intros a m E. simpl in E. by rewrite lookup_empty in E. Qed.

Lemma ms_verify_None ms msg : ms_verify ms msg = None <-> Address msg ∈ members (ms_valSet ms).
Proof.
  unfold ms_verify. rewrite GetByAddress_member.
  destruct (GetByAddress (ms_valSet ms) (Address msg)) as [k [v|]]; naive_solver.
Qed.

(** [Add] on both branches: a member's message replaces its previous one, any
    other message is refused and changes nothing. *)
Lemma ms_Add_spec ms msg :
  (Address msg ∈ members (ms_valSet ms) /\ ms_Add ms msg = (None, addVerifiedMessage ms msg)) \/
  (~ (Address msg ∈ members (ms_valSet ms)) /\ ms_Add ms msg = (Some ErrUnauthorizedAddress, ms)).
Proof.
  unfold ms_Add. destruct (ms_verify ms msg) as [e|] eqn:E.
  - right. split; [by rewrite <- ms_verify_None, E|]. unfold ms_verify in E. repeat case_match; naive_solver.
  - left. by rewrite <- ms_verify_None.
Qed.

Lemma addVerifiedMessage_ok ms msg :
  ms_ok ms -> Address msg ∈ members (ms_valSet ms) -> ms_ok (addVerifiedMessage ms msg).
Proof.
  intros Hok Hin a m. simpl. destruct (decide (a = Address msg)) as [->|Hne].
  - rewrite lookup_insert. intros E. case_decide; [|done]. by simplify_eq.
  - rewrite lookup_insert_ne by done. apply Hok.
Qed.

Lemma ms_Add_ok ms msg e ms' : ms_ok ms -> ms_Add ms msg = (e, ms') -> ms_ok ms' /\ ms_valSet ms' = ms_valSet ms.
Proof.
  intros Hok E. destruct (ms_Add_spec ms msg) as [[Hin E']|[_ E']]; rewrite E' in E; simplify_eq; [|done].
  split; [by apply addVerifiedMessage_ok|done].
Qed.

Lemma senders_add ms msg : senders (addVerifiedMessage ms msg) = {[Address msg]} ∪ senders ms.
Proof. unfold senders. simpl. apply dom_insert_L. Qed.

Lemma ms_Size_senders ms : ms_Size ms = Z.of_nat (size (senders ms)).
Proof. unfold ms_Size, senders. by rewrite size_dom. Qed.

Lemma senders_members ms : ms_ok ms -> senders ms ⊆ members (ms_valSet ms).
Proof. unfold senders. intros Hok a Ha. apply elem_of_dom in Ha as [m Hm]. by destruct (Hok a m Hm). Qed.

(** More than [2F] messages are a quorum of senders. *)
Lemma ms_quorum ms : ms_ok ms -> 2 * F (ms_valSet ms) < ms_Size ms -> quorum (ms_valSet ms) (senders ms).
Proof. intros Hok Hs. split; [by apply senders_members|]. by rewrite <- ms_Size_senders. Qed.

#[export] Hint Resolve newMessageSet_ok addVerifiedMessage_ok : istanbul_db.

(** *** Counting *)

Section Count.
Context `{GoRangeLaws}.

Lemma fold_dec_count {A B} (g : A -> option B) l n :
  fold_left (fun r x => if g x then r - 1 else r) l n =
  n - Z.of_nat (length (List.filter (fun x => if g x then true else false) l)).
Proof.
  revert n. induction l as [|x l IH]; intros n; simpl; [lia|]. rewrite IH.
  destruct (g x); simpl; lia.
Qed.

Lemma Values_addresses ms : ms_ok ms -> map Address (ms_Values ms) ≡ₚ elements (senders ms).
Proof.
  intros Hok. unfold ms_Values. rewrite go_range_perm, map_map.
  replace (map (fun x => Address x.2) (map_to_list (ms_messages ms)))
    with (map fst (map_to_list (ms_messages ms))).
  - apply NoDup_Permutation.
    + apply NoDup_fst_map_to_list.
    + apply NoDup_elements.
    + intros a. rewrite elem_of_elements. unfold senders. rewrite elem_of_dom. split.
      * intros ([k m] & -> & Hx%elem_of_map_to_list)%list_elem_of_fmap. eauto.
      * intros [m Hm]. apply list_elem_of_fmap. exists (a, m). by rewrite elem_of_map_to_list.
  - apply map_ext_in. intros [k m] Hin%list_elem_of_In%elem_of_map_to_list. by destruct (Hok k m Hin).
Qed.

Lemma filter_address_count (f : address -> bool) (l : list message) :
  length (List.filter (fun m => f (Address m)) l) = length (List.filter f (map Address l)).
Proof. induction l as [|m l IH]; simpl; [done|]. destruct (f (Address m)); simpl; by rewrite IH. Qed.

Lemma filter_elements_size (f : address -> bool) (S : gset address) :
  length (List.filter f (elements S)) = size (filter (fun a => f a = true) S).
Proof.
  unfold size, set_size. simpl. apply Permutation_length, NoDup_Permutation.
  - apply NoDup_ListNoDup, List.NoDup_filter, NoDup_ListNoDup, NoDup_elements.
  - apply NoDup_elements.
  - intros a. rewrite elem_of_elements, elem_of_filter, list_elem_of_In, List.filter_In,
      <- list_elem_of_In, elem_of_elements. tauto.
Qed.

Lemma filter_length_perm {A} (f : A -> bool) (l l' : list A) :
  l ≡ₚ l' -> length (List.filter f l) = length (List.filter f l').
Proof. induction 1; simpl; repeat case_match; simpl; lia. Qed.

End Count.

(** ** Claims *)

(** [GetPrepareOrCommitSize] counts the distinct validators that sent a
    PREPARE or a COMMIT: a validator that sent both counts once. *)
Theorem PrepareOrCommit_union {P} `{Proposal P} `{GoRangeLaws} (s : roundState P) :
  ms_ok (rs_Prepares s) -> ms_ok (rs_Commits s) ->
  GetPrepareOrCommitSize s = Z.of_nat (size (senders (rs_Prepares s) ∪ senders (rs_Commits s))).
Proof.
  intros Hp Hc. unfold GetPrepareOrCommitSize, ms_Get. rewrite fold_dec_count, !ms_Size_senders.
  rewrite (filter_address_count (fun a => if ms_messages (rs_Commits s) !! a then true else false)).
  rewrite (filter_length_perm _ _ _ (Values_addresses _ Hp)), filter_elements_size.
  set (SP := senders (rs_Prepares s)). set (SC := senders (rs_Commits s)).
  replace (filter _ SP) with (SP ∩ SC).
  - pose proof (size_union_alt SP SC). pose proof (size_split_inter SP SC). lia.
  - apply set_eq. intros a. rewrite elem_of_filter, elem_of_intersection.
    unfold SC, senders. rewrite elem_of_dom. destruct (ms_messages (rs_Commits s) !! a); naive_solver.
Qed.

Lemma MaxRound_fold num l acc :
  match fold_left (MaxRound_step num) l acc with
  | None => acc = None /\ Forall (fun kv => ms_Size kv.2 < num) l
  | Some m =>
      (acc = Some m \/ exists kv, kv ∈ l /\ num <= ms_Size kv.2 /\ m = i64 kv.1) /\
      (forall a, acc = Some a -> a <= m) /\
      forall kv, kv ∈ l -> num <= ms_Size kv.2 -> i64 kv.1 <= m
  end.
Proof.
  revert acc. induction l as [|kv l IH]; intros acc; simpl.
  { destruct acc; [|done]. split; [by left|]. split; [naive_solver lia|]. set_solver. }
  specialize (IH (MaxRound_step num acc kv)). destruct (fold_left _ _ _) as [m|].
  - destruct IH as (H1 & H2 & H3). unfold MaxRound_step in *.
    destruct (ms_Size kv.2 <? num) eqn:E; zbool.
    { repeat split; [set_solver|done|]. intros kv' [->|Hin]%elem_of_cons Hn; [lia|by apply H3]. }
    assert (G : forall a, acc = Some a \/ a = i64 kv.1 -> a <= m).
    { destruct acc as [x|]; [destruct (Cmp_spec x (i64 kv.1)) as [[C ?]|[[C ?]|[C ?]]]; rewrite C in *|];
        simpl in *; intros a [Ha|Ha]; simplify_eq; auto; specialize (H2 _ eq_refl); lia. }
    split; [|split; [auto|]].
    + destruct H1 as [H1|H1]; [|set_solver].
      destruct acc as [x|]; [destruct (Cmp x (i64 kv.1) <? 0)|]; simplify_eq; auto; right; exists kv; set_solver.
    + intros kv' [->|Hin]%elem_of_cons Hn; auto.
  - destruct IH as [H1 H2]. unfold MaxRound_step in H1. destruct (ms_Size kv.2 <? num) eqn:E; zbool.
    + split; [done|]. by constructor.
    + destruct acc as [x|]; [destruct (Cmp x (i64 kv.1) <? 0)|]; done.
Qed.

(** [MaxRound] returns the largest round with at least [num] round change
    messages, and nil exactly when no round has that many, whatever the order
    in which the map is visited. *)
Theorem MaxRound_spec `{GoRangeLaws} (num : Z) (rcs : roundChangeSet) :
  (forall k ms, rcs_roundChanges rcs !! k = Some ms -> 0 <= k < 2 ^ 63) ->
  match MaxRound num rcs with
  | None => forall k ms, rcs_roundChanges rcs !! k = Some ms -> ms_Size ms < num
  | Some m =>
      (exists ms, rcs_roundChanges rcs !! m = Some ms /\ num <= ms_Size ms) /\
      forall k ms, rcs_roundChanges rcs !! k = Some ms -> num <= ms_Size ms -> k <= m
  end.
Proof.
  intros Hk. unfold MaxRound. set (l := go_range _).
  assert (Hl : forall k ms, (k, ms) ∈ l <-> rcs_roundChanges rcs !! k = Some ms).
  { intros k ms. unfold l. by rewrite go_range_perm, elem_of_map_to_list. }
  assert (Hi : forall k ms, rcs_roundChanges rcs !! k = Some ms -> i64 k = k).
  { intros k ms E%Hk. unfold i64. rewrite u64_id by (unfold is_u64; lia). by zcases. }
  pose proof (MaxRound_fold num l None) as S. destruct (fold_left _ l None) as [m|].
  - destruct S as ([H1|([k ms] & H1 & H2 & ->)] & _ & H3); [done|]. simpl in *. apply Hl in H1.
    rewrite (Hi k ms H1) in *. split; [by exists ms|]. intros k' ms' E Hn.
    rewrite <- (Hi k' ms' E). apply (H3 (k', ms')); [by apply Hl|done].
  - destruct S as [_ S]. intros k ms E. rewrite Forall_forall in S. apply (S (k, ms)). by apply Hl.
Qed.

(** [roundChangeSet.Add] counts distinct senders: for a member it returns
    the number of validators that have asked for the round, the new sender
    included, and leaves the other rounds alone; other messages are refused. *)
Theorem roundChange_count (r : Z) (msg : message) (rcs rcs' : roundChangeSet) (res : core_err + Z) :
  let ms := default (newMessageSet (rcs_validatorSet rcs)) (rcs_roundChanges rcs !! u64 r) in
  ms_valSet ms = rcs_validatorSet rcs ->
  rcs_Add r msg rcs = (res, rcs') ->
  (forall k, k <> u64 r -> rcs_roundChanges rcs' !! k = rcs_roundChanges rcs !! k) /\
  if decide (Address msg ∈ members (rcs_validatorSet rcs))
  then res = inr (Z.of_nat (size ({[Address msg]} ∪ senders ms))) /\
       senders <$> rcs_roundChanges rcs' !! u64 r = Some ({[Address msg]} ∪ senders ms)
  else res = inl ErrUnauthorizedAddress.
Proof.
  intros ms Hv. unfold rcs_Add. fold ms.
  destruct (ms_Add_spec ms msg) as [[Hin ->]|[Hin ->]]; rewrite Hv in Hin; intros [= <- <-]; simpl.
  - rewrite decide_True by done. split; [intros k Hne; by rewrite lookup_insert_ne|].
    rewrite lookup_insert_eq. simpl. rewrite ms_Size_senders, senders_add. done.
  - rewrite decide_False by done. split; [intros k Hne; by rewrite lookup_insert_ne|done].
Qed.

(** ** Witnesses *)

#[export] Instance range_id : GoRange := {| go_range _ l := l |}.
#[export] Instance range_id_laws : GoRangeLaws.
Proof. constructor. done. Qed.

Definition sample_prepare (n : Z) : message := mkMessage msgPrepare [] (sample_address n) [] [].

Definition add_all (ms : messageSet) (l : list message) : messageSet :=
  fold_left (fun ms m => (ms_Add ms m).2) l ms.

Lemma add_all_ok ms l : ms_ok ms -> ms_ok (add_all ms l).
Proof.
  revert ms. induction l as [|m l IH]; intros ms Hok; simpl; [done|]. apply IH.
  destruct (ms_Add ms m) as [e ms'] eqn:E. by eapply ms_Add_ok.
Qed.

Definition sample_round : roundState (Z * Z) :=
  set_Commits (add_all (newMessageSet (sample_set 4)) [sample_prepare 2; sample_prepare 3])
    (set_Prepares (add_all (newMessageSet (sample_set 4)) [sample_prepare 1; sample_prepare 2])
       (newRoundState (mkView 0 1) (sample_set 4) zero_hash None None)).

Lemma PrepareOrCommit_union_witness :
  GetPrepareOrCommitSize sample_round =
  Z.of_nat (size (senders (rs_Prepares sample_round) ∪ senders (rs_Commits sample_round))) /\
  GetPrepareOrCommitSize sample_round = 3.
Proof.
  split; [|vm_compute; reflexivity].
  apply (PrepareOrCommit_union sample_round); apply add_all_ok, newMessageSet_ok.
Defined.

Definition sample_rcs : roundChangeSet :=
  (rcs_Add 5 (sample_prepare 1) (rcs_Add 3 (sample_prepare 2) (rcs_Add 3 (sample_prepare 1)
     (newRoundChangeSet (sample_set 4))).2).2).2.

Lemma MaxRound_spec_witness :
  MaxRound 2 sample_rcs = Some 3 /\ exists ms, rcs_roundChanges sample_rcs !! 3 = Some ms /\ 2 <= ms_Size ms.
Proof.
  assert (E : MaxRound 2 sample_rcs = Some 3) by (vm_compute; reflexivity). split; [done|].
  pose proof (MaxRound_spec 2 sample_rcs) as S. rewrite E in S. apply S.
  enough (M : map_Forall (fun k _ => 0 <= k < 2 ^ 63) (rcs_roundChanges sample_rcs)) by exact M.
  apply (bool_decide_unpack _). vm_compute. exact I.
Defined.

Lemma roundChange_count_witness :
  (rcs_Add 3 (sample_prepare 4) sample_rcs).1 = inr 3 /\
  forall k, k <> 3 -> rcs_roundChanges (rcs_Add 3 (sample_prepare 4) sample_rcs).2 !! k =
                      rcs_roundChanges sample_rcs !! k.
Proof.
  split; [vm_compute; reflexivity|].
  refine (proj1 (roundChange_count 3 (sample_prepare 4) sample_rcs _ _ _ (surjective_pairing _))).
  vm_compute. reflexivity.
Defined.
