(* ===== verification/Backlog.v ===== *)
(** Priorities of stored messages and the checks that decide whether a message
    belongs to the present, the past or the future: [core/backlog.go] and
    [core/request.go].

    The priority queue ([cookiejar/prque], a vendored library) is an interface;
    priorities are [float32] values, here the integers they stand for. *)
From S2P Require Import Prelude RlpEncode RlpDecode RlpCodec IstanbulTypes ValidatorSet ValidatorProps RoundState.

(** ** Priority queues *)

Class Prque (Q : Type -> Type) := {
  pq_New {A} : Q A;
  pq_Push {A} : A -> Z -> Q A -> Q A;
  (** [None] is the empty queue, on which the source never calls [Pop]. *)
  pq_Pop {A} : Q A -> option (A * Z * Q A);
  pq_Size {A} : Q A -> nat
}.

(** What the library documents: a queue holds the pushed items, and [Pop]
    removes one of greatest priority. *)
Class PrqueLaws (Q : Type -> Type) `{Prque Q} := {
  pq_items {A} : Q A -> list (A * Z);
  pq_New_items {A} : pq_items (A := A) pq_New = [];
  pq_Push_items {A} (a : A) p q : pq_items (pq_Push a p q) ≡ₚ (a, p) :: pq_items q;
  pq_Size_items {A} (q : Q A) : pq_Size q = length (pq_items q);
  pq_Pop_None {A} (q : Q A) : pq_Pop q = None <-> pq_items q = [];
  pq_Pop_Some {A} (a : A) p q q' :
    pq_Pop q = Some (a, p, q') ->
    pq_items q ≡ₚ (a, p) :: pq_items q' /\ Forall (fun x => x.2 <= p) (pq_items q')
}.

(** ** Priorities *)

(** Conversion of an integer to [float32]: 24 significant bits, rounded to
    nearest, ties to even; the result is an integer again. *)
Definition round_half_even (n e : Z) : Z :=
  let q := n / 2 ^ e in
  let r := n `mod` 2 ^ e in
  if 2 * r <? 2 ^ e then q else if 2 ^ e <? 2 * r then q + 1 else if Z.even q then q else q + 1.

Definition float32_pos (n : Z) : Z :=
  if n <? 2 ^ 24 then n
  else let e := Z.log2 n - 23 in round_half_even n e * 2 ^ e.

Definition float32 (n : Z) : Z := if n <? 0 then - float32_pos (- n) else float32_pos n.

(** The map [msgPriority]; a missing key reads as 0. *)
Definition msgPriority (code : Z) : Z :=
  if code =? msgPreprepare then 1
  else if code =? msgCommit then 2
  else if code =? msgPrepare then 3
  else 0.

Definition toPriority (msgCode : Z) (view : View) : Z :=
  if msgCode =? msgRoundChange then - float32 (u64 (u64 (Sequence view) * 1000))
  else - float32 (u64 (u64 (Sequence view) * 1000 + u64 (Round view) * 10 + msgPriority msgCode)).

(** ** Classification of messages *)

Section Check.
Context {P : Type} `{Proposal P}.

(** [checkMessage] for the view [cv] of the core; [view = None] is a nil view. *)
Definition checkMessage (cv : View) (waitingForRoundChange : bool) (state : State)
    (msgCode : Z) (view : option View) : option core_err :=
  match view with
  | None => Some errInvalidMessage
  | Some v =>
      if msgCode =? msgRoundChange then
        if Cmp (Sequence v) (Sequence cv) >? 0 then Some errFutureMessage
        else if View_Cmp v cv <? 0 then Some errOldMessage
        else None
      else if View_Cmp v cv >? 0 then Some errFutureMessage
      else if View_Cmp v cv <? 0 then Some errOldMessage
      else if waitingForRoundChange then Some errFutureMessage
      else if bool_decide (state = StateAcceptRequest)
      then if msgCode >? msgPreprepare then Some errFutureMessage else None
      else None
  end.

Definition checkRequestMsg (sequence : Z) (request : option (Request P)) : option core_err :=
  match request with
  | None => Some errInvalidMessage
  | Some r =>
      match rq_Proposal r with
      | None => Some errInvalidMessage
      | Some p =>
          let c := Cmp sequence (Number p) in
          if c >? 0 then Some errOldMessage
          else if c <? 0 then Some errFutureMessage
          else None
      end
  end.

(** The view a stored message carries; [None] when its body does not decode. *)
Definition backlog_view (msg : message) : option View :=
  if Code msg =? msgPreprepare
  then match DecodeBytes Preprepare_DecodeRLP (Msg msg) with Ok p => Some (pp_View p) | _ => None end
  else match DecodeBytes Subject_DecodeRLP (Msg msg) with Ok p => Some (sub_View p) | _ => None end.

(** ** Draining a queue *)

Context {Q : Type -> Type} `{Prque Q}.

(** The inner loop of [processBacklog] on the queue of one validator: returns
    the queue and the messages to post, [None] when [check] panics.  [fuel]
    bounds the pops. *)
Fixpoint drain_backlog (check : Z -> option View -> option (option core_err)) (fuel : nat)
    (backlog : Q message) : option (Q message * list message) :=
  match fuel with
  | O => Some (backlog, [])
  | S fuel' =>
      match pq_Pop backlog with
      | None => Some (backlog, [])
      | Some (msg, prio, backlog') =>
          match backlog_view msg with
          | None => drain_backlog check fuel' backlog'
          | Some view =>
              err ← check (Code msg) (Some view);
              match err with
              | Some errFutureMessage => Some (pq_Push msg prio backlog', [])
              | Some _ => drain_backlog check fuel' backlog'
              | None => '(q, l) ← drain_backlog check fuel' backlog'; Some (q, msg :: l)
              end
          end
      end
  end.

(** The loop of [processPendingRequests]; [None] is the nil dereference of the
    trace message for a skipped request without proposal. *)
Fixpoint drain_requests (sequence : Z) (fuel : nat) (q : Q (Request P))
    : option (Q (Request P) * list (Request P)) :=
  match fuel with
  | O => Some (q, [])
  | S fuel' =>
      match pq_Pop q with
      | None => Some (q, [])
      | Some (r, prio, q') =>
          match checkRequestMsg sequence (Some r) with
          | Some errFutureMessage => Some (pq_Push r prio q', [])
          | Some _ => match rq_Proposal r with None => None | Some _ => drain_requests sequence fuel' q' end
          | None => '(q'', l) ← drain_requests sequence fuel' q'; Some (q'', r :: l)
          end
      end
  end.

End Check.

(** ** Claims *)

Lemma float32_small n : 0 <= n < 2 ^ 24 -> float32 n = n.
Proof. intros Hn. unfold float32, float32_pos. zcases. Qed.

Definition vote_code (code : Z) : Prop := code = msgPreprepare \/ code = msgPrepare \/ code = msgCommit.

Lemma toPriority_small code v :
  vote_code code -> View_ok v -> 1000 * Sequence v + 10 * Round v + 3 < 2 ^ 24 ->
  toPriority code v = - (1000 * Sequence v + 10 * Round v + msgPriority code) /\ 1 <= msgPriority code <= 3.
Proof.
  intros Hc [? ?] Hb. unfold toPriority. rewrite (u64_id (Sequence v)), (u64_id (Round v)) by (unfold is_u64; lia).
  destruct Hc as [-> | [-> | ->]]; cbn -[u64 float32 Z.mul];
    (rewrite u64_id by (unfold is_u64; lia)); (rewrite float32_small by lia); lia.
Qed.

(** the priority of a stored message orders messages by view and, within a
    view, PRE-PREPARE before COMMIT before PREPARE, as long as rounds stay
    below 100 and the numbers fit into the 24 bits of a [float32]. *)
Theorem toPriority_order (c1 c2 : Z) (v w : View) :
  vote_code c1 -> vote_code c2 -> View_ok v -> View_ok w -> Round v < 100 -> Round w < 100 ->
  1000 * Sequence v + 10 * Round v + 3 < 2 ^ 24 -> 1000 * Sequence w + 10 * Round w + 3 < 2 ^ 24 ->
  toPriority c2 w < toPriority c1 v <->
  view_lt v w \/ (v = w /\ msgPriority c1 < msgPriority c2).
Proof.
  intros H1 H2 Hv Hw R1 R2 B1 B2.
  destruct (toPriority_small c1 v H1 Hv B1) as [-> P1]. destruct (toPriority_small c2 w H2 Hw B2) as [-> P2].
  destruct Hv as [? ?], Hw as [? ?], v as [rv sv], w as [rw sw]. unfold view_lt. simpl in *. split.
  - intros L. destruct (Z.lt_trichotomy sv sw) as [?|[->|?]]; [lia| |lia].
    destruct (Z.lt_trichotomy rv rw) as [?|[->|?]]; [lia| |lia]. right. split; [done|lia].
  - intros [L|[E L]]; [|injection E as -> ->]; lia.
Qed.

(** Rounding does not see the last three bits of large multiples of 8. *)
Lemma round_half_even_mult8 n e i :
  n `mod` 8 = 0 -> 3 <= e -> 1 <= i <= 3 ->
  round_half_even (n + i) e = if 2 * (n `mod` 2 ^ e) <? 2 ^ e then n / 2 ^ e else n / 2 ^ e + 1.
Proof.
  intros Hn He Hi. set (E := 2 ^ e). assert (HE : E = 8 * 2 ^ (e - 3)).
  { unfold E. replace e with (3 + (e - 3)) at 1 by lia. rewrite Z.pow_add_r by lia. done. }
  assert (Hp : 0 < 2 ^ (e - 3)) by (apply Z.pow_pos_nonneg; lia).
  pose proof (Z.div_mod n E ltac:(lia)) as D. pose proof (Z.mod_pos_bound n E ltac:(lia)) as M.
  pose proof (Z.div_mod n 8 ltac:(lia)) as D8.
  assert (R : exists k, n `mod` E = 8 * k) by (exists (n / 8 - 2 ^ (e - 3) * (n / E)); lia). destruct R as [k R].
  assert (Hk : 0 <= k /\ k + 1 <= 2 ^ (e - 3)) by nia.
  assert (Eq : (n + i) / E = n / E) by (symmetry; apply (Z.div_unique _ _ _ (8 * k + i)); lia).
  assert (Er : (n + i) `mod` E = 8 * k + i) by (symmetry; apply (Z.mod_unique _ _ (n / E)); lia).
  unfold round_half_even. fold E. rewrite Eq, Er, R.
  destruct (Z.eq_dec (e - 3) 0) as [E0|E0].
  - rewrite E0 in *. simpl in *. assert (k = 0) by lia. subst k. rewrite HE. zcases.
  - assert (Hq : 2 ^ (e - 3) = 2 * 2 ^ (e - 4)).
    { replace (e - 3) with (1 + (e - 4)) by lia. rewrite Z.pow_add_r by lia. done. }
    zcases; lia.
Qed.

(** the order breaks down on long chains: from block 67109 on, the three
    kinds of messages of a view are stored with equal priority, because the
    [float32] no longer distinguishes them. *)
Theorem toPriority_collision (s c1 c2 : Z) :
  67109 <= s < 2 ^ 50 -> vote_code c1 -> vote_code c2 ->
  toPriority c1 (mkView 0 s) = toPriority c2 (mkView 0 s).
Proof.
  intros Hs H1 H2. set (n := 1000 * s). assert (Hn : 2 ^ 26 <= n < 2 ^ 60) by lia.
  assert (N8 : n `mod` 8 = 0) by (unfold n; replace (1000 * s) with (125 * s * 8) by lia; by apply Z.mod_mul).
  set (k := Z.log2 n). assert (Hk : 26 <= k) by (apply Z.log2_le_pow2; lia).
  pose proof (Z.log2_spec n ltac:(lia)) as L. fold k in L. rewrite Z.pow_succ_r in L by lia.
  assert (T : 2 ^ k = 8 * 2 ^ (k - 3)) by (replace k with (3 + (k - 3)) at 1 by lia; rewrite Z.pow_add_r by lia; done).
  pose proof (Z.div_mod n 8 ltac:(lia)) as D8.
  assert (G : forall i, 1 <= i <= 3 -> float32 (n + i) =
    (if 2 * (n `mod` 2 ^ (k - 23)) <? 2 ^ (k - 23) then n / 2 ^ (k - 23) else n / 2 ^ (k - 23) + 1) * 2 ^ (k - 23)).
  { intros i Hi. unfold float32, float32_pos. zcase; [lia|]. zcase; [lia|]. cbv zeta.
    assert (Z.log2 (n + i) = k) as -> by (apply Z.log2_unique; [lia|]; rewrite Z.pow_succ_r by lia; lia).
    by rewrite round_half_even_mult8 by lia. }
  assert (F : forall c, vote_code c -> toPriority c (mkView 0 s) = - float32 (n + msgPriority c) /\ 1 <= msgPriority c <= 3).
  { intros c Hc. unfold toPriority. simpl Sequence. simpl Round. rewrite (u64_id s), (u64_id 0) by (unfold is_u64; lia).
    destruct Hc as [-> | [-> | ->]]; cbn -[u64 float32 Z.mul]; (rewrite u64_id by (unfold is_u64; lia)); (split; [|lia]);
      do 2 f_equal; lia. }
  destruct (F c1 H1) as [-> P1], (F c2 H2) as [-> P2]. by rewrite !G by lia.
Qed.

Section Drain.
Context {P : Type} `{Proposal P} {Q : Type -> Type} `{PrqueLaws Q}.
Context (chk : Z -> View -> option core_err).

Definition ready (m : message) : Prop :=
  exists v, backlog_view (P := P) m = Some v /\ chk (Code m) v = None.

Definition future (m : message) : Prop :=
  exists v, backlog_view (P := P) m = Some v /\ chk (Code m) v = Some errFutureMessage.

Definition stale (m : message) : Prop := ~ ready m /\ ~ future m.

Lemma drain_cases m :
  match backlog_view (P := P) m with
  | None => stale m
  | Some v => match chk (Code m) v with
              | None => ready m
              | Some errFutureMessage => future m
              | Some _ => stale m
              end
  end.
Proof.
  destruct (backlog_view m) as [v|] eqn:E; [|split; intros (v & E' & _); congruence].
  destruct (chk (Code m) v) as [e|] eqn:C; [|by exists v].
  destruct e; try (by exists v); split; intros (v' & E' & C'); congruence.
Qed.

End Drain.

(** draining a backlog loses nothing that matters: the queue is split into
    the messages that are posted (each belongs to the present), messages that
    are dropped (malformed or old), and messages that stay, whose first is of
    the future. *)
Theorem drain_backlog_spec {P Q} `{Proposal P} `{PrqueLaws Q} (chk : Z -> View -> option core_err)
    (fuel : nat) (q : Q message) :
  (pq_Size q <= fuel)%nat ->
  exists q' l dropped,
    drain_backlog (P := P) (fun code v => chk code <$> v) fuel q = Some (q', l) /\
    map fst (pq_items q) ≡ₚ l ++ dropped ++ map fst (pq_items q') /\
    Forall (ready (P := P) chk) l /\ Forall (stale (P := P) chk) dropped /\
    (pq_items q' = [] \/ exists m prio, (m, prio) ∈ pq_items q' /\ future (P := P) chk m /\
                          Forall (fun x => x.2 <= prio) (pq_items q')).
Proof.
  revert q. induction fuel as [|fuel IH]; intros q Hf.
  { exists q, [], []. rewrite pq_Size_items in Hf. destruct (pq_items q) eqn:E; [|simpl in Hf; lia].
    repeat split; auto. }
  simpl. destruct (pq_Pop q) as [[[m prio] q1]|] eqn:E.
  2: { apply pq_Pop_None in E. exists q, [], []. rewrite E. repeat split; auto. }
  apply pq_Pop_Some in E as [Hp Hmax].
  assert (Hf1 : (pq_Size q1 <= fuel)%nat).
  { rewrite pq_Size_items in *. rewrite Hp in Hf. simpl in Hf. lia. }
  destruct (IH q1 Hf1) as (q' & l & dropped & D & Hperm & Hl & Hd & Hq').
  assert (Hm : map fst (pq_items q) ≡ₚ m :: map fst (pq_items q1)) by (by rewrite Hp).
  pose proof (drain_cases (P := P) chk m) as C.
  assert (Drop : stale (P := P) chk m -> exists q' l dropped,
    drain_backlog (P := P) (fun code v => chk code <$> v) fuel q1 = Some (q', l) /\
    map fst (pq_items q) ≡ₚ l ++ dropped ++ map fst (pq_items q') /\
    Forall (ready (P := P) chk) l /\ Forall (stale (P := P) chk) dropped /\
    (pq_items q' = [] \/ exists m prio, (m, prio) ∈ pq_items q' /\ future (P := P) chk m /\
                          Forall (fun x => x.2 <= prio) (pq_items q'))).
  { intros Hs. exists q', l, (m :: dropped). rewrite Hm, Hperm. split_and!; auto.
    simpl. apply Permutation_middle. }
  destruct (backlog_view m) as [v|]; [|by apply Drop]. simpl. destruct (chk (Code m) v) as [e|].
  - destruct e; try (by apply Drop). exists (pq_Push m prio q1), [], []. split_and!; auto.
    + by rewrite pq_Push_items, Hm.
    + right. exists m, prio. rewrite pq_Push_items. split_and!; [left|done|by constructor].
  - rewrite D. simpl. exists q', (m :: l), dropped. rewrite Hm, Hperm. split_and!; auto.
Qed.

(** ** A priority queue *)

Definition listq (A : Type) : Type := list (A * Z).

Fixpoint extract_max {A} (l : listq A) : option (A * Z * listq A) :=
  match l with
  | [] => None
  | x :: l' =>
      match extract_max l' with
      | None => Some (x, [])
      | Some (y, r) => if y.2 <=? x.2 then Some (x, l') else Some (y, x :: r)
      end
  end.

#[export] Instance listq_prque : Prque listq := {|
  pq_New _ := [];
  pq_Push _ a p q := (a, p) :: q;
  pq_Pop _ q := extract_max q;
  pq_Size _ q := length q
|}.

Lemma extract_max_spec {A} (l : listq A) :
  match extract_max l with
  | None => l = []
  | Some (x, r) => l ≡ₚ x :: r /\ Forall (fun y => y.2 <= x.2) r
  end.
Proof.
  induction l as [|x l IH]; simpl; [done|]. destruct (extract_max l) as [[y r]|].
  - destruct IH as [Hp Hf]. zcase; simpl; (split; [|]).
    + done.
    + rewrite Hp. constructor; [done|]. eapply Forall_impl; [exact Hf|]. simpl. lia.
    + rewrite Hp. apply Permutation_swap.
    + constructor; [lia|done].
  - subst l. split; [done|constructor].
Qed.

#[export] Instance listq_laws : PrqueLaws listq.
Proof.
  refine {| pq_items A q := q |}; try done.
  - intros A q. pose proof (extract_max_spec q) as S. simpl. destruct (extract_max q) as [[x r]|].
    + destruct S as [S _]. split; [done|]. intros ->. by apply Permutation_nil_cons in S.
    + done.
  - intros A a p q q' E. pose proof (extract_max_spec q) as S. simpl in E. rewrite E in S. exact S.
Defined.

(** ** Witnesses *)

Lemma toPriority_order_witness :
  toPriority msgPrepare (mkView 2 5) < toPriority msgCommit (mkView 2 5).
Proof.
  apply (toPriority_order msgCommit msgPrepare (mkView 2 5) (mkView 2 5)); unfold vote_code, View_ok; simpl;
    try lia; auto. right. split; [done|]. reflexivity.
Defined.

Lemma toPriority_collision_witness :
  toPriority msgPreprepare (mkView 0 1000000) = toPriority msgPrepare (mkView 0 1000000).
Proof. apply (toPriority_collision 1000000); unfold vote_code; auto. lia. Defined.

Definition stored (n : Z) : message :=
  mkMessage msgPrepare (rlp_enc (Subject_EncodeRLP (mkSubject (mkView 0 n) zero_hash))) zero_address [] [].

Lemma drain_backlog_spec_witness :
  exists q' l dropped,
    drain_backlog (P := Z * Z) (fun code v => checkMessage (mkView 0 5) false StatePrepared code ∘ Some <$> v) 3
      [(stored 5, -5000); (stored 4, -4000); (stored 6, -6000)] = Some (q', l) /\
    [stored 5; stored 4; stored 6] ≡ₚ l ++ dropped ++ map fst (pq_items q').
Proof.
  destruct (drain_backlog_spec (P := Z * Z) (Q := listq)
    (fun code => checkMessage (mkView 0 5) false StatePrepared code ∘ Some) 3
    [(stored 5, -5000); (stored 4, -4000); (stored 6, -6000)]) as (q' & l & dropped & D & Hp & _).
  { vm_compute. reflexivity. }
  exists q', l, dropped. split; [exact D|exact Hp].
Defined.
