(* ===== verification/IstanbulCore.v ===== *)
(** The Istanbul state machine: [consensus/istanbul/core], all handlers.

    [CM] threads the state of the core and the effects on the outside world
    (messages sent, events posted, blocks committed); [None] is a run-time
    panic (nil dereference).  A Go [error] is the value a handler returns.
    The backend is a record of the answers its methods give while one event is
    handled; it may be a different record for every event. *)
From S2P Require Import Prelude RlpEncode RlpDecode RlpCodec IstanbulTypes ValidatorSet ValidatorProps RoundState Backlog.

Definition IstanbulExtraSeal : Z := 65.

(** ** Backend: [istanbul/backend.go] *)

Record Backend (P : Type) := mkBackend {
  be_Address : address;
  be_Validators : P -> defaultSet;
  be_Commit : P -> list bytes -> option core_err;
  be_Verify : P -> Z * option core_err;
  be_Sign : bytes -> core_err + bytes;
  be_LastProposal : option P * address;
  be_HasPropsal : hash -> Z -> bool;
  be_GetProposer : Z -> address;
  be_ParentValidators : P -> defaultSet;
  be_HasBadProposal : hash -> bool;
  be_RequestTimeout : Z
}.
Arguments be_Address {P}.
Arguments be_Validators {P}.
Arguments be_Commit {P}.
Arguments be_Verify {P}.
Arguments be_Sign {P}.
Arguments be_LastProposal {P}.
Arguments be_HasPropsal {P}.
Arguments be_GetProposer {P}.
Arguments be_ParentValidators {P}.
Arguments be_HasBadProposal {P}.
Arguments be_RequestTimeout {P}.

(** ** State, effects and events *)

Section Types.
Context (P : Type) (Q : Type -> Type).

(** A timer is [None] when it is nil or stopped. *)
Record core := mkCore {
  c_address : address;
  c_state : State;
  c_valSet : option defaultSet;
  c_waitingForRoundChange : bool;
  c_backlogs : gmap Validator (Q message);
  c_current : option (roundState P);
  c_roundChangeSet : option roundChangeSet;
  c_pendingRequests : Q (Request P);
  c_futurePreprepareTimer : option (Z * Validator * message);
  c_roundChangeTimer : option Z
}.

Inductive effect :=
| EBroadcast (payload : bytes)
| EGossip (payload : bytes)
| ECommit (p : P) (seals : list bytes)
| EPostBacklog (src : Validator) (msg : message)
| EPostRequest (p : option P).

Inductive event :=
| RequestEvent (p : option P)
| MessageEvent (payload : bytes)
| backlogEvent (src : Validator) (msg : message)
| timeoutEvent
| FinalCommittedEvent.

End Types.
Arguments mkCore {P Q}.
Arguments c_address {P Q}.
Arguments c_state {P Q}.
Arguments c_valSet {P Q}.
Arguments c_waitingForRoundChange {P Q}.
Arguments c_backlogs {P Q}.
Arguments c_current {P Q}.
Arguments c_roundChangeSet {P Q}.
Arguments c_pendingRequests {P Q}.
Arguments c_futurePreprepareTimer {P Q}.
Arguments c_roundChangeTimer {P Q}.
Arguments EBroadcast {P}.
Arguments EGossip {P}.
Arguments ECommit {P}.
Arguments EPostBacklog {P}.
Arguments EPostRequest {P}.
Arguments RequestEvent {P}.
Arguments MessageEvent {P}.
Arguments backlogEvent {P}.
Arguments timeoutEvent {P}.
Arguments FinalCommittedEvent {P}.

(** ** The monad *)

Section Monad.
Context {P : Type} {Q : Type -> Type}.

Definition CM (A : Type) : Type := core P Q * list (effect P) -> option (A * (core P Q * list (effect P))).

#[export] Instance CM_ret : MRet CM := fun A a s => Some (a, s).
#[export] Instance CM_bind : MBind CM := fun A B f m s =>
  match m s with Some (a, s') => f a s' | None => None end.

Definition panic {A} : CM A := fun _ => None.
Definition deref {A} (x : option A) : CM A := match x with Some a => mret a | None => panic end.
Definition getc : CM (core P Q) := fun s => Some (s.1, s).
Definition modify (f : core P Q -> core P Q) : CM unit := fun s => Some (tt, (f s.1, s.2)).
Definition emit (e : effect P) : CM unit := fun s => Some (tt, (s.1, s.2 ++ [e])).

Definition set_state (st : State) (c : core P Q) : core P Q :=
  mkCore (c_address c) st (c_valSet c) (c_waitingForRoundChange c) (c_backlogs c) (c_current c)
    (c_roundChangeSet c) (c_pendingRequests c) (c_futurePreprepareTimer c) (c_roundChangeTimer c).
Definition set_valSet (v : option defaultSet) (c : core P Q) : core P Q :=
  mkCore (c_address c) (c_state c) v (c_waitingForRoundChange c) (c_backlogs c) (c_current c)
    (c_roundChangeSet c) (c_pendingRequests c) (c_futurePreprepareTimer c) (c_roundChangeTimer c).
Definition set_waiting (b : bool) (c : core P Q) : core P Q :=
  mkCore (c_address c) (c_state c) (c_valSet c) b (c_backlogs c) (c_current c)
    (c_roundChangeSet c) (c_pendingRequests c) (c_futurePreprepareTimer c) (c_roundChangeTimer c).
Definition set_backlogs (b : gmap Validator (Q message)) (c : core P Q) : core P Q :=
  mkCore (c_address c) (c_state c) (c_valSet c) (c_waitingForRoundChange c) b (c_current c)
    (c_roundChangeSet c) (c_pendingRequests c) (c_futurePreprepareTimer c) (c_roundChangeTimer c).
Definition set_current (r : option (roundState P)) (c : core P Q) : core P Q :=
  mkCore (c_address c) (c_state c) (c_valSet c) (c_waitingForRoundChange c) (c_backlogs c) r
    (c_roundChangeSet c) (c_pendingRequests c) (c_futurePreprepareTimer c) (c_roundChangeTimer c).
Definition set_roundChangeSet (r : option roundChangeSet) (c : core P Q) : core P Q :=
  mkCore (c_address c) (c_state c) (c_valSet c) (c_waitingForRoundChange c) (c_backlogs c) (c_current c)
    r (c_pendingRequests c) (c_futurePreprepareTimer c) (c_roundChangeTimer c).
Definition set_pendingRequests (q : Q (Request P)) (c : core P Q) : core P Q :=
  mkCore (c_address c) (c_state c) (c_valSet c) (c_waitingForRoundChange c) (c_backlogs c) (c_current c)
    (c_roundChangeSet c) q (c_futurePreprepareTimer c) (c_roundChangeTimer c).
Definition set_futurePreprepareTimer (t : option (Z * Validator * message)) (c : core P Q) : core P Q :=
  mkCore (c_address c) (c_state c) (c_valSet c) (c_waitingForRoundChange c) (c_backlogs c) (c_current c)
    (c_roundChangeSet c) (c_pendingRequests c) t (c_roundChangeTimer c).
Definition set_roundChangeTimer (t : option Z) (c : core P Q) : core P Q :=
  mkCore (c_address c) (c_state c) (c_valSet c) (c_waitingForRoundChange c) (c_backlogs c) (c_current c)
    (c_roundChangeSet c) (c_pendingRequests c) (c_futurePreprepareTimer c) t.

(** The current round state; nil is a panic. *)
Definition get_current : CM (roundState P) := c ← getc; deref (c_current c).
Definition get_valSet : CM defaultSet := c ← getc; deref (c_valSet c).
Definition modify_current (f : roundState P -> roundState P) : CM unit :=
  cur ← get_current; modify (set_current (Some (f cur))).

End Monad.
Arguments CM P Q A : clear implicits.

(** ** Handlers *)

Section Handlers.
Context {P : Type} `{Proposal P} `{Crypto} `{GoRange} {Q : Type -> Type} `{Prque Q}.
Context (be : Backend P).


Definition core_New : core P Q :=
  mkCore (be_Address be) StateAcceptRequest None false ∅ None None pq_New None None.

Definition currentView : CM P Q View :=
  cur ← get_current; mret (mkView (rs_round cur) (rs_sequence cur)).

Definition isProposer : CM P Q bool :=
  c ← getc;
  match c_valSet c with
  | None => mret false
  | Some v => mret (IsProposer v (be_Address be))
  end.

(** [checkMessage]; a nil view is refused before the round state is looked at. *)
Definition core_check (c : core P Q) (msgCode : Z) (view : option View) : option (option core_err) :=
  match view with
  | None => Some (Some errInvalidMessage)
  | Some v =>
      cur ← c_current c;
      Some (checkMessage (mkView (rs_round cur) (rs_sequence cur)) (c_waitingForRoundChange c)
              (c_state c) msgCode (Some v))
  end.

Definition core_checkMessage (msgCode : Z) (view : option View) : CM P Q (option core_err) :=
  c ← getc; deref (core_check c msgCode view).

(** *** Sending *)

(** [PrepareCommittedSeal]. *)
Definition PrepareCommittedSeal (h : hash) : bytes := h ++ [u8 msgCommit].

(** [finalizeMessage]; the error is only logged by its caller. *)
Definition finalizeMessage (msg : message) : CM P Q (option bytes) :=
  c ← getc;
  prop ← (if Code msg =? msgCommit then (cur ← get_current; mret (rs_Proposal cur)) else mret None);
  let seal := match prop with
              | None => inr []
              | Some p => be_Sign be (PrepareCommittedSeal (Hash p))
              end in
  match seal with
  | inl _ => mret None
  | inr cs =>
      let msg1 := mkMessage (Code msg) (Msg msg) (c_address c) (Signature msg) cs in
      match PayloadNoSig msg1 with
      | Panic => panic
      | Err _ => mret None
      | Ok data =>
          match be_Sign be data with
          | inl _ => mret None
          | inr sg =>
              match Payload (mkMessage (Code msg) (Msg msg) (c_address c) sg cs) with
              | Panic => panic
              | Err _ => mret None
              | Ok payload => mret (Some payload)
              end
          end
      end
  end.

Definition broadcast (code : Z) (body : bytes) : CM P Q unit :=
  payload ← finalizeMessage (mkMessage code body zero_address [] []);
  match payload with
  | None => mret tt
  | Some p => emit (EBroadcast p)
  end.

(** Send [v] in a message with the given code, unless it cannot be encoded. *)
Definition encode_broadcast (code : Z) (v : value) : CM P Q unit :=
  match EncodeToBytes v with
  | Panic => panic
  | Err _ => mret tt
  | Ok body => broadcast code body
  end.

Definition sendPreprepare (request : Request P) : CM P Q unit :=
  cur ← get_current;
  p ← deref (rq_Proposal request);
  if Cmp (rs_sequence cur) (Number p) =? 0 then
    b ← isProposer;
    if (b : bool) then
      curView ← currentView;
      encode_broadcast msgPreprepare (Preprepare_EncodeRLP (mkPreprepare curView p))
    else mret tt
  else mret tt.

(** [Encode] of a nil subject calls [EncodeRLP] on a nil pointer. *)
Definition sendPrepare : CM P Q unit :=
  cur ← get_current;
  sub ← deref (rs_Subject cur);
  encode_broadcast msgPrepare (Subject_EncodeRLP sub).

Definition broadcastCommit (sub : option Subject) : CM P Q unit :=
  sub ← deref sub;
  encode_broadcast msgCommit (Subject_EncodeRLP sub).

Definition sendCommit : CM P Q unit :=
  cur ← get_current; broadcastCommit (rs_Subject cur).

Definition sendCommitForOldBlock (view : View) (digest : hash) : CM P Q unit :=
  broadcastCommit (Some (mkSubject view digest)).

(** *** Backlog *)

Definition storeBacklog (msg : message) (src : Validator) : CM P Q unit :=
  c ← getc;
  if bool_decide (v_address src = c_address c) then mret tt
  else
    let backlog := default pq_New (c_backlogs c !! src) in
    let backlog' := match backlog_view (P := P) msg with
                    | Some view => pq_Push msg (toPriority (Code msg) view) backlog
                    | None => backlog
                    end in
    modify (set_backlogs (<[src := backlog']> (c_backlogs c))).

Definition drain_entry (c : core P Q) (kv : Validator * Q message)
    : option (Validator * Q message * list message) :=
  '(q, l) ← drain_backlog (P := P) (core_check c) (pq_Size kv.2) kv.2;
  Some (kv.1, q, l).

(** Events are posted from goroutines of their own: their order is not part of
    the model's meaning. *)
Fixpoint post_backlog (l : list (Validator * message)) : CM P Q unit :=
  match l with
  | [] => mret tt
  | (src, m) :: l' => emit (EPostBacklog src m);; post_backlog l'
  end.

Definition processBacklog : CM P Q unit :=
  c ← getc;
  entries ← deref (mapM (drain_entry c) (go_range (map_to_list (c_backlogs c))));
  modify (set_backlogs (list_to_map (map fst entries)));;
  post_backlog (concat (map (fun e => map (pair e.1.1) e.2) entries)).

(** *** Requests *)

Definition storeRequestMsg (request : Request P) : CM P Q unit :=
  p ← deref (rq_Proposal request);
  c ← getc;
  modify (set_pendingRequests
    (pq_Push request (float32 (i64 (- i64 (Number p)))) (c_pendingRequests c))).

Fixpoint post_requests (l : list (Request P)) : CM P Q unit :=
  match l with
  | [] => mret tt
  | r :: l' => emit (EPostRequest (rq_Proposal r));; post_requests l'
  end.

(** The sequence is read only when there is a request to check. *)
Definition processPendingRequests : CM P Q unit :=
  c ← getc;
  if Nat.eqb (pq_Size (c_pendingRequests c)) 0 then mret tt
  else
    cur ← get_current;
    r ← deref (drain_requests (rs_sequence cur) (pq_Size (c_pendingRequests c)) (c_pendingRequests c));
    modify (set_pendingRequests r.1);;
    post_requests r.2.

Definition setState (state : State) : CM P Q unit :=
  modify (set_state state);;
  (if bool_decide (state = StateAcceptRequest) then processPendingRequests else mret tt);;
  processBacklog.

Definition handleRequest (request : Request P) : CM P Q (option core_err) :=
  cur ← get_current;
  match checkRequestMsg (rs_sequence cur) (Some request) with
  | Some e => mret (Some e)
  | None =>
      modify_current (set_pendingRequest (Some request));;
      c ← getc;
      (if bool_decide (c_state c = StateAcceptRequest) then sendPreprepare request else mret tt);;
      mret None
  end.

(** *** Timers *)

Definition stopFuturePreprepareTimer : CM P Q unit := modify (set_futurePreprepareTimer None).

Definition stopTimer : CM P Q unit :=
  stopFuturePreprepareTimer;; modify (set_roundChangeTimer None).

(** [time.Duration(math.Pow(2, float64(round)))]: an [int64] conversion that is
    out of range from [2^63] on (amd64 gives the smallest integer). *)
Definition pow2_duration (round : Z) : Z := if round <? 63 then 2 ^ round else - 2 ^ 63.

(** The timeout of a round in nanoseconds, as an [int64]. *)
Definition round_timeout (requestTimeout round : Z) : Z :=
  let timeout := i64 (i64 requestTimeout * 1000000) in
  if round >? 0 then i64 (timeout + i64 (pow2_duration round * 1000000000)) else timeout.

Definition newRoundChangeTimer : CM P Q unit :=
  stopTimer;;
  cur ← get_current;
  modify (set_roundChangeTimer (Some (round_timeout (be_RequestTimeout be) (u64 (rs_round cur))))).

(** *** Rounds *)

Definition updateRoundState (view : View) (validatorSet : defaultSet) (roundChange : bool) : CM P Q unit :=
  c ← getc;
  modify (set_current (Some
    match roundChange, c_current c with
    | true, Some cur =>
        if IsHashLocked (be_HasBadProposal be) cur
        then newRoundState view validatorSet (GetLockedHash cur) (rs_Preprepare cur) (rs_pendingRequest cur)
        else newRoundState view validatorSet zero_hash None (rs_pendingRequest cur)
    | _, _ => newRoundState view validatorSet zero_hash None None
    end)).

(** The decision at the head of [startNewRound]: return, or continue with a
    round change ([Some true]) or a new sequence ([Some false]). *)
Definition startNewRound_kind (c : core P Q) (lastProposal : option P) (round : Z) : option (option bool) :=
  match c_current c with
  | None => Some (Some false)
  | Some cur =>
      last ← lastProposal;
      Some
        (if Cmp (Number last) (rs_sequence cur) >=? 0 then Some false
         else if Cmp (Number last) (i64 (i64 (rs_sequence cur) - 1)) =? 0 then
           if Cmp round 0 =? 0 then None
           else if Cmp round (rs_round cur) <? 0 then None
           else Some true
         else None)
  end.

(** The part of [startNewRound] after the new view is known. *)
Definition enterRound (newView : View) (roundChange : bool) (lastProposer : address) : CM P Q unit :=
  valSet ← get_valSet;
  modify (set_roundChangeSet (Some (newRoundChangeSet valSet)));;
  updateRoundState newView valSet roundChange;;
  modify (set_valSet (Some (CalcProposer lastProposer (u64 (Round newView)) valSet)));;
  modify (set_waiting false);;
  setState StateAcceptRequest;;
  prop ← isProposer;
  (if roundChange && (prop : bool) then
     cur ← get_current;
     if IsHashLocked (be_HasBadProposal be) cur then sendPreprepare (mkRequest (rs_Proposal cur))
     else match rs_pendingRequest cur with
          | Some r => sendPreprepare r
          | None => mret tt
          end
   else mret tt);;
  newRoundChangeTimer.

Definition startNewRound (round : Z) : CM P Q unit :=
  let '(lastProposal, lastProposer) := be_LastProposal be in
  c ← getc;
  kind ← deref (startNewRound_kind c lastProposal round);
  match kind with
  | None => mret tt
  | Some true =>
      cur ← get_current;
      enterRound (mkView round (rs_sequence cur)) true lastProposer
  | Some false =>
      last ← deref lastProposal;
      modify (set_valSet (Some (be_Validators be last)));;
      enterRound (mkView 0 (Number last + 1)) false lastProposer
  end.

Definition catchUpRound (view : View) : CM P Q unit :=
  get_current;;
  valSet ← get_valSet;
  modify (set_waiting true);;
  updateRoundState view valSet true;;
  c ← getc;
  rcs ← deref (c_roundChangeSet c);
  modify (set_roundChangeSet (Some (rcs_Clear (Round view) rcs)));;
  newRoundChangeTimer.

Definition sendRoundChange (round : Z) : CM P Q unit :=
  cv ← currentView;
  if Cmp (Round cv) round >=? 0 then mret tt
  else
    catchUpRound (mkView round (Sequence cv));;
    cv ← currentView;
    encode_broadcast msgRoundChange (Subject_EncodeRLP (mkSubject cv zero_hash)).

Definition sendNextRoundChange : CM P Q unit :=
  cv ← currentView; sendRoundChange (Round cv + 1).

(** *** Committing *)

(** A committed seal copied into an array of [IstanbulExtraSeal] bytes. *)
Definition copy_seal (seal : bytes) : bytes :=
  take (Z.to_nat IstanbulExtraSeal) (seal ++ replicate (Z.to_nat IstanbulExtraSeal) 0).

Definition commit : CM P Q unit :=
  setState StateCommitted;;
  cur ← get_current;
  match rs_Proposal cur with
  | None => mret tt
  | Some proposal =>
      let committedSeals := map (fun v => copy_seal (CommittedSeal v)) (ms_Values (rs_Commits cur)) in
      emit (ECommit proposal committedSeals);;
      match be_Commit be proposal committedSeals with
      | Some _ => modify_current UnlockHash;; sendNextRoundChange
      | None => mret tt
      end
  end.

(** *** Message handlers *)

Definition decode_preprepare (msg : message) : outcome rlp_err (Preprepare P) :=
  DecodeBytes Preprepare_DecodeRLP (Msg msg).

Definition decode_subject (msg : message) : outcome rlp_err Subject :=
  DecodeBytes Subject_DecodeRLP (Msg msg).

Definition acceptPreprepare (pp : Preprepare P) : CM P Q unit := modify_current (SetPreprepare pp).

(** An old PRE-PREPARE of the right proposer for a known block is answered
    with a COMMIT. *)
Definition old_preprepare (pp : Preprepare P) (src : Validator) : CM P Q (option core_err) :=
  let valSet := set_Copy 0 (be_ParentValidators be (pp_Proposal pp)) in
  let previousProposer := be_GetProposer be (u64 (u64 (Number (pp_Proposal pp)) - 1)) in
  let valSet := CalcProposer previousProposer (u64 (Round (pp_View pp))) valSet in
  if IsProposer valSet (v_address src)
     && be_HasPropsal be (Hash (pp_Proposal pp)) (Number (pp_Proposal pp))
  then sendCommitForOldBlock (pp_View pp) (Hash (pp_Proposal pp));; mret None
  else mret (Some errOldMessage).

Definition handlePreprepare (msg : message) (src : Validator) : CM P Q (option core_err) :=
  match decode_preprepare msg with
  | Panic => panic
  | Err _ => mret (Some errFailedDecodePreprepare)
  | Ok preprepare =>
      err ← core_checkMessage msgPreprepare (Some (pp_View preprepare));
      match err with
      | Some errOldMessage => old_preprepare preprepare src
      | Some e => mret (Some e)
      | None =>
          valSet ← get_valSet;
          if negb (IsProposer valSet (v_address src)) then mret (Some errNotFromProposer)
          else
            match be_Verify be (pp_Proposal preprepare) with
            | (duration, Some e) =>
                (if bool_decide (e = ErrFutureBlock)
                 then stopFuturePreprepareTimer;;
                      modify (set_futurePreprepareTimer (Some (duration, src, msg)))
                 else sendNextRoundChange);;
                mret (Some e)
            | (_, None) =>
                c ← getc;
                (if bool_decide (c_state c = StateAcceptRequest) then
                   cur ← get_current;
                   if IsHashLocked (be_HasBadProposal be) cur then
                     if bool_decide (Hash (pp_Proposal preprepare) = GetLockedHash cur) then
                       acceptPreprepare preprepare;; setState StatePrepared;; sendCommit
                     else sendNextRoundChange
                   else acceptPreprepare preprepare;; setState StatePreprepared;; sendPrepare
                 else mret tt);;
                mret None
            end
      end
  end.

(** [verifyPrepare] and [verifyCommit]: [reflect.DeepEqual] with our subject. *)
Definition verifySubject (sub : Subject) : CM P Q (option core_err) :=
  cur ← get_current;
  mret (if bool_decide (Some sub = rs_Subject cur) then None else Some errInconsistentSubject).

Definition acceptPrepare (msg : message) : CM P Q unit :=
  modify_current (fun cur => set_Prepares (ms_Add (rs_Prepares cur) msg).2 cur).

Definition acceptCommit (msg : message) : CM P Q unit :=
  modify_current (fun cur => set_Commits (ms_Add (rs_Commits cur) msg).2 cur).

Definition handlePrepare (msg : message) (src : Validator) : CM P Q (option core_err) :=
  match decode_subject msg with
  | Panic => panic
  | Err _ => mret (Some errFailedDecodePrepare)
  | Ok prepare =>
      err ← core_checkMessage msgPrepare (Some (sub_View prepare));
      match err with
      | Some e => mret (Some e)
      | None =>
          err ← verifySubject prepare;
          match err with
          | Some e => mret (Some e)
          | None =>
              acceptPrepare msg;;
              cur ← get_current;
              valSet ← get_valSet;
              c ← getc;
              (if ((IsHashLocked (be_HasBadProposal be) cur
                    && bool_decide (Digest prepare = GetLockedHash cur))
                   || (GetPrepareOrCommitSize cur >? 2 * F valSet))
                  && (State_Cmp (c_state c) StatePrepared <? 0)
               then modify_current LockHash;; setState StatePrepared;; sendCommit
               else mret tt);;
              mret None
          end
      end
  end.

Definition handleCommit (msg : message) (src : Validator) : CM P Q (option core_err) :=
  match decode_subject msg with
  | Panic => panic
  | Err _ => mret (Some errFailedDecodeCommit)
  | Ok comm =>
      err ← core_checkMessage msgCommit (Some (sub_View comm));
      match err with
      | Some e => mret (Some e)
      | None =>
          err ← verifySubject comm;
          match err with
          | Some e => mret (Some e)
          | None =>
              acceptCommit msg;;
              cur ← get_current;
              valSet ← get_valSet;
              c ← getc;
              (if (ms_Size (rs_Commits cur) >? 2 * F valSet) && (State_Cmp (c_state c) StateCommitted <? 0)
               then modify_current LockHash;; commit
               else mret tt);;
              mret None
          end
      end
  end.

Definition handleRoundChange (msg : message) (src : Validator) : CM P Q (option core_err) :=
  match decode_subject msg with
  | Panic => panic
  | Err _ => mret (Some errInvalidMessage)
  | Ok rc =>
      err ← core_checkMessage msgRoundChange (Some (sub_View rc));
      match err with
      | Some e => mret (Some e)
      | None =>
          cv ← currentView;
          let roundView := sub_View rc in
          c ← getc;
          rcs ← deref (c_roundChangeSet c);
          let '(res, rcs') := rcs_Add (Round roundView) msg rcs in
          modify (set_roundChangeSet (Some rcs'));;
          match res with
          | inl e => mret (Some e)
          | inr num =>
              valSet ← get_valSet;
              if c_waitingForRoundChange c && (num =? F valSet + 1) then
                (if Cmp (Round cv) (Round roundView) <? 0 then sendRoundChange (Round roundView) else mret tt);;
                mret None
              else if (num =? 2 * F valSet + 1)
                      && (c_waitingForRoundChange c || (Cmp (Round cv) (Round roundView) <? 0)) then
                startNewRound (Round roundView);; mret None
              else if Cmp (Round cv) (Round roundView) <? 0 then mret (Some errIgnored)
              else mret None
          end
      end
  end.

Definition testBacklog (msg : message) (src : Validator) (err : option core_err) : CM P Q (option core_err) :=
  (if bool_decide (err = Some errFutureMessage) then storeBacklog msg src else mret tt);;
  mret err.

Definition handleCheckedMsg (msg : message) (src : Validator) : CM P Q (option core_err) :=
  if Code msg =? msgPreprepare then err ← handlePreprepare msg src; testBacklog msg src err
  else if Code msg =? msgPrepare then err ← handlePrepare msg src; testBacklog msg src err
  else if Code msg =? msgCommit then err ← handleCommit msg src; testBacklog msg src err
  else if Code msg =? msgRoundChange then err ← handleRoundChange msg src; testBacklog msg src err
  else mret (Some errInvalidMessage).

(** [validateFn] is [checkValidatorSignature] of the core. *)
Definition handleMsg (payload : bytes) : CM P Q (option core_err) :=
  c ← getc;
  match FromPayload payload (Some (CheckValidatorSignature (c_valSet c))) with
  | Panic => panic
  | Err e => mret (Some e)
  | Ok msg =>
      valSet ← get_valSet;
      match GetByAddress valSet (Address msg) with
      | (_, None) => mret (Some ErrUnauthorizedAddress)
      | (_, Some src) => handleCheckedMsg msg src
      end
  end.

Definition handleTimeoutMsg : CM P Q unit :=
  c ← getc;
  let next : CM P Q unit :=
    let '(lastProposal, _) := be_LastProposal be in
    match lastProposal with
    | Some last =>
        cur ← get_current;
        if Cmp (Number last) (rs_sequence cur) >=? 0 then startNewRound 0 else sendNextRoundChange
    | None => sendNextRoundChange
    end in
  if negb (c_waitingForRoundChange c) then
    rcs ← deref (c_roundChangeSet c);
    valSet ← get_valSet;
    match MaxRound (F valSet + 1) rcs with
    | None => next
    | Some maxRound =>
        cur ← get_current;
        if Cmp maxRound (rs_round cur) >? 0 then sendRoundChange maxRound else next
    end
  else next.

Definition handleFinalCommitted : CM P Q unit := startNewRound 0.

(** One iteration of [handleEvents]. *)
Definition handleEvent (ev : event P) : CM P Q unit :=
  match ev with
  | RequestEvent p =>
      let r := mkRequest p in
      err ← handleRequest r;
      if bool_decide (err = Some errFutureMessage) then storeRequestMsg r else mret tt
  | MessageEvent payload =>
      err ← handleMsg payload;
      if bool_decide (err = None) then emit (EGossip payload) else mret tt
  | backlogEvent src msg =>
      err ← handleCheckedMsg msg src;
      if bool_decide (err = None)
      then match Payload msg with
           | Panic => panic
           | Err _ => mret tt
           | Ok p => emit (EGossip p)
           end
      else mret tt
  | timeoutEvent => handleTimeoutMsg
  | FinalCommittedEvent => handleFinalCommitted
  end.

(** [Start] up to the subscription of events. *)
Definition core_Start : CM P Q unit := startNewRound 0.

End Handlers.
