(* ===== verification/CoreInv.v ===== *)
(** Invariant of the Istanbul state machine.

    [wp m Q s]: the handler [m] does not panic in state [s] and ends with
    result and state in [Q].  [core_inv] is the invariant between two events;
    every handler preserves it, so none of them panics.  The lemmas also carry
    a predicate on the effects that have been emitted and a relation with the
    state before the event, which the claims instantiate. *)
From S2P Require Import Prelude RlpEncode RlpDecode RlpCodec RlpTheorems IstanbulTypes ValidatorSet ValidatorProps RoundState Backlog IstanbulCore.

(** ** Weakest preconditions *)

Section Wp.
Context {P : Type} {Q : Type -> Type}.

Abbreviation st := (core P Q * list (effect P))%type.

Definition wp {A} (m : CM P Q A) (Post : A -> st -> Prop) (s : st) : Prop :=
  match m s with Some (a, s') => Post a s' | None => False end.

Lemma wp_bind {A B} (m : CM P Q A) (f : A -> CM P Q B) Post s :
  wp (m ≫= f) Post s <-> wp m (fun a => wp (f a) Post) s.
Proof. unfold wp, mbind, CM_bind. destruct (m s) as [[a s']|]; done. Qed.

Lemma wp_mono {A} (m : CM P Q A) (Post Post' : A -> st -> Prop) s :
  wp m Post s -> (forall a s', Post a s' -> Post' a s') -> wp m Post' s.
Proof. unfold wp. destruct (m s) as [[a s']|]; auto. Qed.

Lemma wp_ret {A} (a : A) Post s : wp (mret a : CM P Q A) Post s <-> Post a s.
Proof. done. Qed.

Lemma wp_getc Post s : wp (getc : CM P Q _) Post s <-> Post s.1 s.
Proof. done. Qed.

Lemma wp_modify f Post s : wp (modify f : CM P Q _) Post s <-> Post tt (f s.1, s.2).
Proof. done. Qed.

Lemma wp_emit e Post s : wp (emit e : CM P Q _) Post s <-> Post tt (s.1, s.2 ++ [e]).
Proof. done. Qed.

Lemma wp_deref {A} (x : option A) Post s :
  wp (deref x : CM P Q A) Post s <-> exists a, x = Some a /\ Post a s.
Proof. destruct x; simpl; unfold wp; simpl; naive_solver. Qed.

Lemma wp_get_current Post s :
  wp (get_current : CM P Q _) Post s <-> exists cur, c_current s.1 = Some cur /\ Post cur s.
Proof. unfold get_current. rewrite wp_bind, wp_getc, wp_deref. done. Qed.

Lemma wp_get_valSet Post s :
  wp (get_valSet : CM P Q _) Post s <-> exists vs, c_valSet s.1 = Some vs /\ Post vs s.
Proof. unfold get_valSet. rewrite wp_bind, wp_getc, wp_deref. done. Qed.

Lemma wp_modify_current f Post s :
  wp (modify_current f : CM P Q _) Post s <->
  exists cur, c_current s.1 = Some cur /\ Post tt (set_current (Some (f cur)) s.1, s.2).
Proof. unfold modify_current. rewrite wp_bind, wp_get_current. done. Qed.

End Wp.

(** Step through the primitive operations of a handler. *)
Ltac wp_step :=
  lazymatch goal with
  | |- wp (_ ≫= _) _ _ => rewrite wp_bind
  | |- wp (mret _) _ _ => rewrite wp_ret
  | |- wp getc _ _ => rewrite wp_getc
  | |- wp (modify _) _ _ => rewrite wp_modify
  | |- wp (emit _) _ _ => rewrite wp_emit
  | |- wp (deref _) _ _ => rewrite wp_deref
  | |- wp get_current _ _ => rewrite wp_get_current
  | |- wp get_valSet _ _ => rewrite wp_get_valSet
  | |- wp (modify_current _) _ _ => rewrite wp_modify_current
  end; cbv beta.

(** Use the specification [H] of the next operation. *)
Ltac wp_use H := eapply wp_mono; [eapply H; eauto|cbv beta].

(** ** The invariant *)

Section Inv.
Context {P : Type} `{Proposal P} `{Crypto} `{GoRangeLaws} {Q : Type -> Type} `{PrqueLaws Q}.

Abbreviation st := (core P Q * list (effect P))%type.

(** A set of messages for the subject of the round, from current validators. *)
Record votes_ok (vs : defaultSet) (cur : roundState P) (ms : messageSet) : Prop := {
  votes_ms : ms_ok ms;
  votes_validators : validators (ms_valSet ms) = validators vs;
  votes_subject a m :
    ms_messages ms !! a = Some m ->
    exists sub, decode_subject m = Ok sub /\ rs_Subject cur = Some sub
}.

Definition rcs_ok (vs : defaultSet) (rcs : roundChangeSet) : Prop :=
  validators (rcs_validatorSet rcs) = validators vs /\
  forall k ms, rcs_roundChanges rcs !! k = Some ms -> ms_ok ms /\ validators (ms_valSet ms) = validators vs.

(** A lock names the proposal that was prepared; [bad] proposals do not lock. *)
Definition lock_ok (bad : hash -> bool) (cur : roundState P) : Prop :=
  IsHashLocked bad cur = true ->
  exists pp, rs_Preprepare cur = Some pp /\ Hash (pp_Proposal pp) = rs_lockedHash cur.

Definition request_ok (r : Request P) : Prop := is_Some (rq_Proposal r).

Record good (bad : hash -> bool) (vs : defaultSet) (state : State) (waiting : bool)
    (cur : roundState P) (rcs : roundChangeSet) : Prop := {
  good_set : set_ok vs;
  good_prepares : votes_ok vs cur (rs_Prepares cur);
  good_commits : votes_ok vs cur (rs_Commits cur);
  good_rcs : rcs_ok vs rcs;
  good_fresh : state = StateAcceptRequest \/ waiting = true ->
    ms_messages (rs_Prepares cur) = ∅ /\ ms_messages (rs_Commits cur) = ∅;
  good_pp : state <> StateAcceptRequest -> waiting = false -> is_Some (rs_Preprepare cur);
  good_lock : lock_ok bad cur;
  good_pending r : rs_pendingRequest cur = Some r -> request_ok r
}.

Definition queue_ok (q : Q (Request P)) : Prop := Forall (fun x => request_ok x.1) (pq_items q).

Definition core_inv (bad : hash -> bool) (c : core P Q) : Prop :=
  exists vs cur rcs,
    c_valSet c = Some vs /\ c_current c = Some cur /\ c_roundChangeSet c = Some rcs /\
    good bad vs (c_state c) (c_waitingForRoundChange c) cur rcs /\ queue_ok (c_pendingRequests c).

(** Equal up to the stored messages and the timers. *)
Definition same_round (c c' : core P Q) : Prop :=
  c_address c' = c_address c /\ c_state c' = c_state c /\ c_valSet c' = c_valSet c /\
  c_waitingForRoundChange c' = c_waitingForRoundChange c /\ c_current c' = c_current c /\
  c_roundChangeSet c' = c_roundChangeSet c.

Lemma same_round_refl c : same_round c c.
Proof. by repeat split. Qed.

Lemma same_round_trans c1 c2 c3 : same_round c1 c2 -> same_round c2 c3 -> same_round c1 c3.
Proof. unfold same_round. intuition congruence. Qed.

Lemma same_round_inv bad c c' :
  same_round c c' -> queue_ok (c_pendingRequests c') -> core_inv bad c -> core_inv bad c'.
Proof.
  intros (_ & Es & Ev & Ew & Ec & Er) Hq (vs & cur & rcs & Hv & Hc & Hr & G & _).
  exists vs, cur, rcs. rewrite Es, Ev, Ew, Ec, Er. done.
Qed.

(** ** Operations that change neither round nor validators *)

Section Effects.
Context (okE : effect P -> Prop).

(** Effects other than [ECommit] are unrestricted. *)
Definition okE_open : Prop :=
  forall e, (forall p seals, e <> ECommit p seals) -> okE e.

Context (okE_other : okE_open) (be : Backend P).

Lemma okE_emit fx e : Forall okE fx -> (forall p seals, e <> ECommit p seals) -> Forall okE (fx ++ [e]).
Proof. intros Hf He. apply Forall_app. split; [done|]. apply Forall_singleton. by apply okE_other. Qed.

Lemma EncodeToBytes_not_Panic v : EncodeToBytes v <> Panic.
Proof. unfold EncodeToBytes. by destruct (makeWriter v encbuf_reset) as [[e|] w]. Qed.

Lemma DecodeBytes_not_Panic {A} (d : SM A) b : DecodeBytes d b <> Panic.
Proof. unfold DecodeBytes. repeat case_match; done. Qed.

(** Only effects are added, and they are allowed. *)
Definition sends (s : st) (s' : st) : Prop := s'.1 = s.1 /\ (Forall okE s.2 -> Forall okE s'.2).

Lemma sends_refl s : sends s s.
Proof. done. Qed.

Lemma finalizeMessage_wp msg (s : st) :
  is_Some (c_current s.1) -> wp (finalizeMessage be msg) (fun _ s' => s' = s) s.
Proof.
  intros [cur Hc]. unfold finalizeMessage. wp_step. wp_step. wp_step.
  set (msg1 := fun cs => mkMessage (Code msg) (Msg msg) (c_address s.1) (Signature msg) cs).
  enough (G : forall prop, wp (P := P) (Q := Q)
    match (match prop with None => inr [] | Some p => be_Sign be (PrepareCommittedSeal (Hash p)) end) with
    | inl _ => mret None
    | inr cs => match PayloadNoSig (msg1 cs) with
        | Ok data => match be_Sign be data with
            | inl _ => mret None
            | inr sg => match Payload (mkMessage (Code msg) (Msg msg) (c_address s.1) sg cs) with
                | Ok payload => mret (Some payload) | Err _ => mret None | Panic => panic end
            end
        | Err _ => mret None | Panic => panic end
    end (fun _ s' => s' = s) s).
  { zcase; [wp_step; wp_step; exists cur; split; [done|]; wp_step; apply G|wp_step; apply (G None)]. }
  intros prop. destruct (match prop with None => inr [] | Some p => _ end) as [e|cs]; [done|].
  destruct (PayloadNoSig (msg1 cs)) as [data|e|] eqn:E1; [|done|by apply EncodeToBytes_not_Panic in E1].
  destruct (be_Sign be data) as [e|sg]; [done|].
  destruct (Payload _) as [data'|e|] eqn:E2; [done|done|by apply EncodeToBytes_not_Panic in E2].
Qed.

Lemma broadcast_wp code body (s : st) :
  is_Some (c_current s.1) -> wp (broadcast be code body) (fun _ s' => sends s s') s.
Proof.
  intros Hc. unfold broadcast. wp_step. wp_use finalizeMessage_wp.
  intros [p|] s' ->; [|wp_step; apply sends_refl]. wp_step. split; [done|]. simpl.
  intros Hf. by apply okE_emit.
Qed.

Lemma encode_broadcast_wp code v (s : st) :
  is_Some (c_current s.1) -> wp (encode_broadcast be code v) (fun _ s' => sends s s') s.
Proof.
  intros Hc. unfold encode_broadcast. destruct (EncodeToBytes v) as [b|e|] eqn:E.
  - by apply broadcast_wp.
  - wp_step. apply sends_refl.
  - by apply EncodeToBytes_not_Panic in E.
Qed.

Lemma sendPreprepare_wp r (s : st) :
  is_Some (c_current s.1) -> request_ok r -> wp (sendPreprepare be r) (fun _ s' => sends s s') s.
Proof.
  intros [cur Hc] [p Hp]. unfold sendPreprepare. wp_step. wp_step. exists cur. split; [done|].
  wp_step. wp_step. exists p. split; [done|]. zcase; [|wp_step; apply sends_refl].
  wp_step. unfold isProposer. wp_step. wp_step.
  assert (G : forall b : bool, wp (P := P) (Q := Q) (if b then curView ← currentView;
      encode_broadcast be msgPreprepare (Preprepare_EncodeRLP (mkPreprepare curView p)) else mret tt)
      (fun _ s' => sends s s') s).
  { intros [|]; [|wp_step; apply sends_refl]. wp_step. unfold currentView. wp_step. wp_step.
    exists cur. split; [done|]. wp_step. apply encode_broadcast_wp. by rewrite Hc. }
  destruct (c_valSet s.1) as [v|]; wp_step; [exact (G (IsProposer v (be_Address be)))|exact (G false)].
Qed.

Lemma sendCommit_wp (s : st) cur sub :
  c_current s.1 = Some cur -> rs_Subject cur = Some sub -> wp (sendCommit be) (fun _ s' => sends s s') s.
Proof.
  intros Hc Hs. unfold sendCommit, broadcastCommit. wp_step. wp_step. exists cur. split; [done|].
  wp_step. wp_step. exists sub. split; [done|]. apply encode_broadcast_wp. by rewrite Hc.
Qed.

Lemma sendPrepare_wp (s : st) cur sub :
  c_current s.1 = Some cur -> rs_Subject cur = Some sub -> wp (sendPrepare be) (fun _ s' => sends s s') s.
Proof.
  intros Hc Hs. unfold sendPrepare. wp_step. wp_step. exists cur. split; [done|].
  wp_step. wp_step. exists sub. split; [done|]. apply encode_broadcast_wp. by rewrite Hc.
Qed.

(** *** Stored messages and requests *)

Lemma drain_backlog_Some check fuel (q : Q message) :
  (forall code v, is_Some (check code (Some v))) -> is_Some (drain_backlog (P := P) check fuel q).
Proof.
  intros Hc. revert q. induction fuel as [|fuel IH]; intros q; simpl; [done|].
  destruct (pq_Pop q) as [[[msg prio] q']|]; [|done].
  destruct (backlog_view msg) as [v|]; [|apply IH].
  destruct (Hc (Code msg) v) as [err ->]. simpl.
  destruct (IH q') as [[q'' l] E]. rewrite E. simpl. destruct err as [[]|]; done.
Qed.

Lemma post_backlog_wp l (s : st) : wp (post_backlog (P := P) (Q := Q) l) (fun _ s' => sends s s') s.
Proof.
  revert s. induction l as [|[src m] l IH]; intros s; simpl; [wp_step; apply sends_refl|].
  wp_step. wp_step. wp_use IH. intros _ s' [E Hf]. simpl in *. split; [done|].
  intros Hs. apply Hf. by apply okE_emit.
Qed.

Lemma post_requests_wp l (s : st) : wp (post_requests (P := P) (Q := Q) l) (fun _ s' => sends s s') s.
Proof.
  revert s. induction l as [|r l IH]; intros s; simpl; [wp_step; apply sends_refl|].
  wp_step. wp_step. wp_use IH. intros _ s' [E Hf]. simpl in *. split; [done|].
  intros Hs. apply Hf. by apply okE_emit.
Qed.

(** State changes that leave the round alone. *)
Definition keeps (s s' : st) : Prop :=
  same_round s.1 s'.1 /\ (queue_ok (c_pendingRequests s.1) -> queue_ok (c_pendingRequests s'.1)) /\
  (Forall okE s.2 -> Forall okE s'.2).

Lemma keeps_refl s : keeps s s.
Proof. repeat split; auto. Qed.

Lemma keeps_trans s1 s2 s3 : keeps s1 s2 -> keeps s2 s3 -> keeps s1 s3.
Proof. intros (? & ? & ?) (? & ? & ?). split; [by eapply same_round_trans|]. auto. Qed.

Lemma sends_keeps s s' : sends s s' -> keeps s s'.
Proof. intros [E Hf]. unfold keeps. rewrite E. split; [apply same_round_refl|]. auto. Qed.

Lemma processBacklog_wp (s : st) :
  is_Some (c_current s.1) -> wp (processBacklog (Q := Q)) (fun _ s' => keeps s s') s.
Proof.
  intros [cur Hc]. unfold processBacklog. wp_step. wp_step. wp_step. wp_step.
  destruct (mapM_is_Some_2 (drain_entry s.1) (go_range (map_to_list (c_backlogs s.1)))) as [entries E].
  { apply Forall_true. intros [src q]. unfold drain_entry. simpl.
    destruct (drain_backlog_Some (core_check s.1) (pq_Size q) q) as [[q' l] ->]; [|done].
    intros code v. simpl. rewrite Hc. done. }
  exists entries. split; [done|]. wp_step. wp_step. wp_use post_backlog_wp.
  intros _ s' [E' Hf]. simpl in *. split; [|split; [by rewrite E'|done]].
  rewrite E'. by repeat split.
Qed.

Lemma queue_ok_Pop q r p q' : queue_ok q -> pq_Pop q = Some (r, p, q') -> request_ok r /\ queue_ok q'.
Proof.
  unfold queue_ok. intros Hq [Hp _]%pq_Pop_Some. rewrite Hp in Hq. by inversion Hq.
Qed.

Lemma queue_ok_Push q r p : queue_ok q -> request_ok r -> queue_ok (pq_Push r p q).
Proof. unfold queue_ok. intros Hq Hr. rewrite pq_Push_items. by constructor. Qed.

Lemma drain_requests_Some sequence fuel q :
  queue_ok q -> exists q' l, drain_requests sequence fuel q = Some (q', l) /\ queue_ok q'.
Proof.
  revert q. induction fuel as [|fuel IH]; intros q Hq; simpl; [by exists q, []|].
  destruct (pq_Pop q) as [[[r prio] q']|] eqn:E; [|by exists q, []].
  destruct (queue_ok_Pop _ _ _ _ Hq E) as [[p Hr] Hq'].
  destruct (IH q' Hq') as (q'' & l & E' & Hq''). rewrite E', Hr.
  assert (Hp : queue_ok (pq_Push r prio q')) by (apply queue_ok_Push; [done|by exists p]).
  simpl. repeat case_match; simplify_eq; eexists _, _; (split; [reflexivity|done]).
Qed.

Lemma processPendingRequests_wp (s : st) :
  is_Some (c_current s.1) -> queue_ok (c_pendingRequests s.1) ->
  wp (processPendingRequests (Q := Q)) (fun _ s' => keeps s s') s.
Proof.
  intros [cur Hc] Hq. unfold processPendingRequests. wp_step. wp_step.
  destruct (Nat.eqb _ 0); [wp_step; apply keeps_refl|].
  wp_step. wp_step. exists cur. split; [done|]. wp_step. wp_step.
  destruct (drain_requests_Some (rs_sequence cur) (pq_Size (c_pendingRequests s.1)) _ Hq)
    as (q' & l & E & Hq').
  exists (q', l). split; [done|]. wp_step. wp_step. wp_use post_requests_wp.
  intros _ s' [E' Hf]. simpl in *. split; [|split; [by rewrite E'|done]]. rewrite E'. by repeat split.
Qed.

Lemma setState_wp state (s : st) :
  is_Some (c_current s.1) -> queue_ok (c_pendingRequests s.1) ->
  wp (setState (Q := Q) state) (fun _ s' => keeps (set_state state s.1, s.2) s') s.
Proof.
  intros Hc Hq. unfold setState. wp_step. wp_step. wp_step.
  set (s1 := (set_state state s.1, s.2)). simpl.
  assert (Hb : forall s2, keeps s1 s2 -> wp (processBacklog (Q := Q)) (fun _ s' => keeps s1 s') s2).
  { intros s2 K. wp_use processBacklog_wp.
    - destruct K as ((_ & _ & _ & _ & -> & _) & _). done.
    - intros _ s3 K3. by eapply keeps_trans. }
  case_bool_decide; [|wp_step; apply Hb, keeps_refl].
  wp_use (processPendingRequests_wp s1). intros _ s2 K. by apply Hb.
Qed.

(** ** Rounds *)

Definition view_of (cur : roundState P) : View := mkView (rs_round cur) (rs_sequence cur).
Definition view_le (v w : View) : Prop := v = w \/ view_lt v w.

(** What an event may do to the round state: the view never decreases, and a
    lock survives within a sequence unless the backend refused a block. *)
Definition evolves (cur cur' : roundState P) : Prop :=
  view_le (view_of cur) (view_of cur') /\
  ((forall p seals, be_Commit be p seals = None) ->
   rs_sequence cur' = rs_sequence cur -> IsHashLocked (be_HasBadProposal be) cur = true ->
   rs_lockedHash cur' = rs_lockedHash cur).

Lemma evolves_refl cur : evolves cur cur.
Proof. split; [by left|done]. Qed.

Lemma IsHashLocked_eq bad (cur cur' : roundState P) :
  rs_lockedHash cur' = rs_lockedHash cur -> IsHashLocked bad cur' = IsHashLocked bad cur.
Proof. unfold IsHashLocked. by intros ->. Qed.

Lemma view_le_trans u v w : view_le u v -> view_le v w -> view_le u w.
Proof. intros [->|?] [->|?]; unfold view_le; eauto using view_lt_trans. Qed.

Lemma view_le_sequence u v : view_le u v -> Sequence u <= Sequence v.
Proof. unfold view_le, view_lt. intros [->|?]; lia. Qed.

Lemma evolves_trans c1 c2 c3 : evolves c1 c2 -> evolves c2 c3 -> evolves c1 c3.
Proof.
  intros [V1 L1] [V2 L2]. split; [by eapply view_le_trans|]. intros Hc Es Hl.
  apply view_le_sequence in V1, V2. simpl in *.
  assert (E1 : rs_sequence c2 = rs_sequence c1) by lia. specialize (L1 Hc E1 Hl).
  rewrite L2, L1; try done; [lia|]. by rewrite (IsHashLocked_eq _ c1).
Qed.

(** The state relative to the round state [cur0] before the event. *)
Definition Inv (cur0 : roundState P) (s : st) : Prop :=
  core_inv (be_HasBadProposal be) s.1 /\
  (exists cur, c_current s.1 = Some cur /\ evolves cur0 cur) /\ Forall okE s.2.

Lemma Inv_current cur0 s : Inv cur0 s -> is_Some (c_current s.1).
Proof. intros (_ & (cur & -> & _) & _). done. Qed.

Lemma Inv_queue cur0 s : Inv cur0 s -> queue_ok (c_pendingRequests s.1).
Proof. intros ((vs & cur & rcs & _ & _ & _ & _ & Hq) & _). done. Qed.

Lemma Inv_keeps cur0 s s' : Inv cur0 s -> keeps s s' -> Inv cur0 s'.
Proof.
  intros (Hi & (cur & Hc & He) & Hf) (K & Hq & Hf'). pose proof Hi as (vs & cur' & rcs & _ & _ & _ & _ & Hq0).
  split; [by eapply same_round_inv; eauto|]. split; [|auto].
  exists cur. split; [|done]. destruct K as (_ & _ & _ & _ & -> & _). done.
Qed.

Lemma Inv_sends cur0 s s' : Inv cur0 s -> sends s s' -> Inv cur0 s'.
Proof. intros Hi Hs. eapply Inv_keeps; [done|]. by apply sends_keeps. Qed.

Lemma set_ok_validators (vs vs' : defaultSet) : validators vs' = validators vs -> set_ok vs -> set_ok vs'.
Proof. unfold set_ok, addresses. by intros ->. Qed.

Lemma votes_new vs vs' cur : validators vs' = validators vs -> votes_ok vs cur (newMessageSet vs').
Proof.
  intros E. constructor; [apply newMessageSet_ok|done|]. intros a m. simpl. by rewrite lookup_empty.
Qed.

Lemma good_newRound bad vs vs' state waiting rcs view lh pp pr :
  set_ok vs' -> validators vs = validators vs' -> rcs_ok vs' rcs ->
  state = StateAcceptRequest \/ waiting = true ->
  lock_ok bad (newRoundState view vs lh pp pr) -> (forall r, pr = Some r -> request_ok r) ->
  good bad vs' state waiting (newRoundState view vs lh pp pr) rcs.
Proof.
  intros Hs Ev Hr Hw Hl Hp. constructor; auto; [by apply votes_new|by apply votes_new|].
  intros N1 N2. destruct Hw; congruence.
Qed.

Lemma newRoundChangeSet_ok vs vs' : validators vs = validators vs' -> rcs_ok vs' (newRoundChangeSet vs).
Proof. intros E. split; [done|]. intros k ms. simpl. by rewrite lookup_empty. Qed.

(** The round state [updateRoundState] installs. *)
Definition next_round (view : View) (vs : defaultSet) (roundChange : bool) (old : option (roundState P))
    : roundState P :=
  match roundChange, old with
  | true, Some cur =>
      if IsHashLocked (be_HasBadProposal be) cur
      then newRoundState view vs (GetLockedHash cur) (rs_Preprepare cur) (rs_pendingRequest cur)
      else newRoundState view vs zero_hash None (rs_pendingRequest cur)
  | _, _ => newRoundState view vs zero_hash None None
  end.

Lemma updateRoundState_wp view vs roundChange (s : st) Post :
  Post tt (set_current (Some (next_round view vs roundChange (c_current s.1))) s.1, s.2) ->
  wp (updateRoundState be view vs roundChange) Post s.
Proof. intros HP. unfold updateRoundState. wp_step. wp_step. wp_step. exact HP. Qed.

Lemma lock_ok_unlocked bad (cur : roundState P) : rs_lockedHash cur = zero_hash -> lock_ok bad cur.
Proof. unfold lock_ok, IsHashLocked, EmptyHash. intros ->. by rewrite bool_decide_true. Qed.

Lemma next_round_spec view vs roundChange old :
  (forall cur, old = Some cur -> lock_ok (be_HasBadProposal be) cur /\
     forall r, rs_pendingRequest cur = Some r -> request_ok r) ->
  exists lh pp pr, next_round view vs roundChange old = newRoundState view vs lh pp pr /\
    lock_ok (be_HasBadProposal be) (newRoundState view vs lh pp pr) /\
    (forall r, pr = Some r -> request_ok r) /\
    (forall cur, old = Some cur -> roundChange = true -> IsHashLocked (be_HasBadProposal be) cur = true ->
       lh = rs_lockedHash cur).
Proof.
  intros Ho. unfold next_round. destruct roundChange, old as [cur|];
    try (eexists _, _, _; split; [reflexivity|]; split; [by apply lock_ok_unlocked|]; naive_solver).
  destruct (Ho cur eq_refl) as [Hl Hp].
  destruct (IsHashLocked _ cur) eqn:E; eexists _, _, _; (split; [reflexivity|]).
  - split; [|naive_solver]. intros _. destruct (Hl E) as (pp & Hpp & Hh). exists pp. done.
  - split; [by apply lock_ok_unlocked|]. split; [done|]. intros ? [= <-] _ E'. congruence.
Qed.

Lemma newRoundChangeTimer_wp (s : st) :
  is_Some (c_current s.1) -> wp (newRoundChangeTimer be) (fun _ s' => keeps s s') s.
Proof.
  intros [cur Hc]. unfold newRoundChangeTimer, stopTimer, stopFuturePreprepareTimer.
  do 6 wp_step. exists cur. split; [done|]. wp_step. by repeat split.
Qed.

Lemma isProposer_wp (s : st) : wp (isProposer be) (fun _ s' => s' = s) s.
Proof. unfold isProposer. do 2 wp_step. by destruct (c_valSet s.1). Qed.

(** [enterRound] installs a fresh round in the new view. *)
Lemma enterRound_wp view roundChange lastProposer vs (s : st) :
  c_valSet s.1 = Some vs -> set_ok vs -> queue_ok (c_pendingRequests s.1) -> Forall okE s.2 ->
  (forall cur, c_current s.1 = Some cur -> lock_ok (be_HasBadProposal be) cur /\
     forall r, rs_pendingRequest cur = Some r -> request_ok r) ->
  wp (enterRound be view roundChange lastProposer) (fun _ s' =>
    core_inv (be_HasBadProposal be) s'.1 /\ Forall okE s'.2 /\
    exists cur', c_current s'.1 = Some cur' /\ view_of cur' = view /\
      forall cur, c_current s.1 = Some cur -> roundChange = true ->
        IsHashLocked (be_HasBadProposal be) cur = true -> rs_lockedHash cur' = rs_lockedHash cur) s.
Proof.
  intros Hv Hs Hq Hf Hold. destruct (next_round_spec view vs roundChange (c_current s.1) Hold)
    as (lh & pp & pr & En & Hlock & Hpend & Hkeep).
  set (cur' := newRoundState view vs lh pp pr) in *.
  set (vs' := CalcProposer lastProposer (u64 (Round view)) vs).
  unfold enterRound. wp_step. wp_step. exists vs. split; [done|]. do 3 wp_step.
  apply updateRoundState_wp. simpl. rewrite En. do 5 wp_step. simpl. fold vs'.
  set (s1 := (set_waiting false _, s.2)).
  assert (K1 : forall s2, keeps (set_state StateAcceptRequest s1.1, s1.2) s2 -> Inv cur' s2).
  { intros s2 K. eapply Inv_keeps; [|exact K]. split; [|split; [exists cur'; split; [done|apply evolves_refl]|done]].
    exists vs', cur', (newRoundChangeSet vs). repeat split_and; auto.
    apply good_newRound; [by eapply set_ok_validators|done|by apply newRoundChangeSet_ok|by left|done|done]. }
  assert (C1 : forall s2, keeps (set_state StateAcceptRequest s1.1, s1.2) s2 -> c_current s2.1 = Some cur').
  { intros s2 ((_ & _ & _ & _ & -> & _) & _). done. }
  eapply wp_mono; [apply (setState_wp StateAcceptRequest s1); done|]. cbv beta. intros _ s2 K2. specialize (K1 s2 K2). specialize (C1 s2 K2). wp_step.
  wp_use isProposer_wp. intros prop s3 ->. wp_step.
  assert (T : forall s3, Inv cur' s3 -> c_current s3.1 = Some cur' ->
    wp (newRoundChangeTimer be) (fun _ s' =>
      core_inv (be_HasBadProposal be) s'.1 /\ Forall okE s'.2 /\
      exists cur', c_current s'.1 = Some cur' /\ view_of cur' = view /\
        forall cur, c_current s.1 = Some cur -> roundChange = true ->
          IsHashLocked (be_HasBadProposal be) cur = true -> rs_lockedHash cur' = rs_lockedHash cur) s3).
  { intros s3 I3 C3. eapply wp_mono; [apply newRoundChangeTimer_wp; by rewrite C3|]. cbv beta. intros _ s4 K4.
    pose proof (Inv_keeps _ _ _ I3 K4) as (Hi & _ & Hf4). split; [done|]. split; [done|].
    exists cur'. split; [destruct K4 as ((_ & _ & _ & _ & -> & _) & _); done|].
    split; [by destruct view|]. intros cur Ec -> El. by apply (Hkeep cur). }
  assert (S : forall r, request_ok r -> wp (sendPreprepare be r) (fun _ s3 => Inv cur' s3 /\ c_current s3.1 = Some cur') s2).
  { intros r Hr. eapply wp_mono; [apply sendPreprepare_wp; [by rewrite C1|done]|]. cbv beta. intros _ s3 Hs3. split; [by eapply Inv_sends|].
    destruct Hs3 as [-> _]. done. }
  destruct (roundChange && prop); [|wp_step; by apply T].
  wp_step. wp_step. exists cur'. split; [done|].
  destruct (IsHashLocked (be_HasBadProposal be) cur') eqn:El.
  - destruct (Hlock El) as (pp' & Epp & _). eapply wp_mono; [apply S|cbv beta; intros _ s3 [? ?]; by apply T].
    unfold request_ok, rs_Proposal. cbn [rq_Proposal]. rewrite Epp. done.
  - destruct (rs_pendingRequest cur') as [r|] eqn:Er; [|wp_step; by apply T].
    eapply wp_mono; [apply S|cbv beta; intros _ s3 [? ?]; by apply T]. by apply Hpend.
Qed.

(** What the handlers rely on: there is a chain head, and the validators of a
    block form a set. *)
Record backend_ok : Prop := {
  backend_last : exists last proposer, be_LastProposal be = (Some last, proposer);
  backend_validators p : set_ok (be_Validators be p)
}.

Context (be_ok : backend_ok).

Lemma Inv_old cur0 s cur :
  Inv cur0 s -> c_current s.1 = Some cur ->
  lock_ok (be_HasBadProposal be) cur /\ forall r, rs_pendingRequest cur = Some r -> request_ok r.
Proof.
  intros ((vs & cur' & rcs & _ & Hc & _ & G & _) & _) E. rewrite Hc in E. simplify_eq.
  split; [apply G|]. apply G.
Qed.

Lemma Inv_evolve cur0 cur s s' :
  Inv cur0 s -> c_current s.1 = Some cur -> core_inv (be_HasBadProposal be) s'.1 -> Forall okE s'.2 ->
  (exists cur', c_current s'.1 = Some cur' /\ evolves cur cur') -> Inv cur0 s'.
Proof.
  intros (_ & (cur1 & E1 & Ev) & _) Hc Hi Hf (cur' & E' & Ev'). split; [done|]. split; [|done].
  exists cur'. split; [done|]. rewrite Hc in E1. simplify_eq. by eapply evolves_trans.
Qed.

Lemma startNewRound_wp cur0 round (s : st) :
  Inv cur0 s -> wp (startNewRound be round) (fun _ s' => Inv cur0 s') s.
Proof.
  intros HI. pose proof HI as (Hi & (cur & Hc & Ev) & Hf). pose proof (Inv_queue _ _ HI) as Hq.
  destruct (backend_last be_ok) as (last & lp & El). unfold startNewRound. rewrite El. wp_step. wp_step. wp_step. wp_step.
  unfold startNewRound_kind. rewrite Hc. simpl. eexists. split; [reflexivity|].
  assert (Hold := fun cur => Inv_old cur0 s cur HI).
  destruct (Cmp_spec (Number last) (rs_sequence cur)) as [[C L]|[[C L]|[C L]]]; rewrite C; simpl.
  2,3: do 4 wp_step;
    eapply wp_mono; [apply (enterRound_wp _ false lp (be_Validators be last)); simpl; auto; by apply backend_validators|];
    cbv beta; intros _ s' (Hi' & Hf' & cur' & Hc' & Hv' & _);
    (eapply Inv_evolve; [exact HI|exact Hc|done|done|]); exists cur'; (split; [done|]);
    injection Hv' as Hr' Hs'; split; [right; left; simpl; lia|lia].
  repeat case_match; zbool; try (wp_step; exact HI); simplify_eq.
  destruct Hi as (vs & cur1 & rcs & Hv & Hc1 & Hr & G & _). rewrite Hc in Hc1. simplify_eq.
  wp_step. wp_step. exists cur1. split; [done|].
  eapply wp_mono; [apply (enterRound_wp _ true lp vs); auto; apply G|].
  cbv beta; intros _ s' (Hi' & Hf' & cur' & Hc' & Hv' & Hk). eapply Inv_evolve; [exact HI|exact Hc|done|done|].
  exists cur'. split; [done|]. injection Hv' as Hr' Hs'. split.
  - unfold view_of. rewrite Hr', Hs'. destruct (Cmp_spec round (rs_round cur1)) as [[D ?]|[[D ->]|[D ?]]]; [lia|by left|].
    right. right. simpl. lia.
  - intros _ _ Hl. by apply (Hk cur1).
Qed.

Lemma core_Start_wp (s : st) :
  c_current s.1 = None -> queue_ok (c_pendingRequests s.1) -> Forall okE s.2 ->
  wp (core_Start be) (fun _ s' => core_inv (be_HasBadProposal be) s'.1 /\ Forall okE s'.2) s.
Proof.
  intros Hc Hq Hf. destruct (backend_last be_ok) as (last & lp & El).
  unfold core_Start, startNewRound. rewrite El. do 4 wp_step. unfold startNewRound_kind. rewrite Hc.
  eexists. split; [reflexivity|]. cbv iota. do 2 wp_step. exists last. split; [done|]. do 2 wp_step.
  eapply wp_mono; [apply (enterRound_wp _ false lp (be_Validators be last)); simpl; auto|].
  - by apply backend_validators.
  - rewrite Hc. done.
  - cbv beta. intros _ s' (Hi & Hf' & _). done.
Qed.

(** The invariant opened at its components. *)
Definition at_round (s : st) (vs : defaultSet) (cur : roundState P) (rcs : roundChangeSet) : Prop :=
  c_valSet s.1 = Some vs /\ c_current s.1 = Some cur /\ c_roundChangeSet s.1 = Some rcs /\
  good (be_HasBadProposal be) vs (c_state s.1) (c_waitingForRoundChange s.1) cur rcs /\
  queue_ok (c_pendingRequests s.1) /\ Forall okE s.2.

Lemma Inv_open cur0 s : Inv cur0 s -> exists vs cur rcs, at_round s vs cur rcs /\ evolves cur0 cur.
Proof.
  intros ((vs & cur & rcs & Hv & Hc & Hr & G & Hq) & (cur1 & Hc1 & Ev) & Hf).
  rewrite Hc in Hc1. simplify_eq. exists vs, cur1, rcs. repeat split_and; done.
Qed.

Lemma Inv_close cur0 s vs cur rcs : at_round s vs cur rcs -> evolves cur0 cur -> Inv cur0 s.
Proof.
  intros (Hv & Hc & Hr & G & Hq & Hf) Ev. split; [by exists vs, cur, rcs|]. split; [by exists cur|done].
Qed.

Lemma rcs_Clear_ok vs round rcs : rcs_ok vs rcs -> rcs_ok vs (rcs_Clear round rcs).
Proof.
  intros [E Hr]. split; [done|]. intros k ms. simpl. intros [Hk _]%map_lookup_filter_Some. by apply (Hr k).
Qed.

Lemma catchUpRound_wp cur0 cur round (s : st) :
  Inv cur0 s -> c_current s.1 = Some cur -> rs_round cur < round ->
  wp (catchUpRound be (mkView round (rs_sequence cur))) (fun _ s' => Inv cur0 s') s.
Proof.
  intros HI Hc Hr. destruct (Inv_open _ _ HI) as (vs & cur1 & rcs & (Hv & Hc1 & Hrc & G & Hq & Hf) & Ev).
  rewrite Hc in Hc1. simplify_eq.
  destruct (next_round_spec (mkView round (rs_sequence cur1)) vs true (c_current s.1)
    (fun cur => Inv_old cur0 s cur HI)) as (lh & pp & pr & En & Hlock & Hpend & Hkeep).
  unfold catchUpRound. do 2 wp_step. exists cur1. split; [done|]. do 2 wp_step. exists vs. split; [done|].
  do 3 wp_step. apply updateRoundState_wp. cbn [fst snd c_current set_waiting]. rewrite En. do 4 wp_step. exists rcs. split; [done|].
  do 2 wp_step. eapply wp_mono; [apply newRoundChangeTimer_wp; done|]. cbv beta. intros _ s' K.
  eapply Inv_keeps; [|exact K]. set (cur' := newRoundState _ vs lh pp pr).
  apply (Inv_close _ _ vs cur' (rcs_Clear round rcs)).
  - unfold at_round. cbn. do 3 (split; [done|]). split; [|done].
    apply good_newRound; [apply G|done|apply rcs_Clear_ok, G|by right|done|done].
  - eapply evolves_trans; [exact Ev|]. split; [right; right; simpl; lia|]. intros _ _ Hl. by apply Hkeep.
Qed.

Lemma currentView_wp (s : st) cur Post :
  c_current s.1 = Some cur -> Post (view_of cur) s -> wp (currentView (Q := Q)) Post s.
Proof. intros Hc HP. unfold currentView. do 2 wp_step. exists cur. split; [done|]. by wp_step. Qed.

Lemma sendRoundChange_wp cur0 round (s : st) :
  Inv cur0 s -> wp (sendRoundChange be round) (fun _ s' => Inv cur0 s') s.
Proof.
  intros HI. destruct (Inv_current _ _ HI) as [cur Hc]. unfold sendRoundChange.
  wp_step. eapply currentView_wp; [exact Hc|]. simpl.
  destruct (Cmp_spec (rs_round cur) round) as [[C L]|[[C L]|[C L]]]; rewrite C; simpl; [|wp_step; done..].
  wp_step. eapply wp_mono; [by eapply catchUpRound_wp|]. cbv beta. intros _ s1 HI1.
  destruct (Inv_current _ _ HI1) as [cur1 Hc1]. wp_step. eapply currentView_wp; [exact Hc1|].
  eapply wp_mono; [apply encode_broadcast_wp; by rewrite Hc1|]. cbv beta. intros _ s2 Hs. by eapply Inv_sends.
Qed.

Lemma sendNextRoundChange_wp cur0 (s : st) :
  Inv cur0 s -> wp (sendNextRoundChange be) (fun _ s' => Inv cur0 s') s.
Proof.
  intros HI. destruct (Inv_current _ _ HI) as [cur Hc]. unfold sendNextRoundChange.
  wp_step. eapply currentView_wp; [exact Hc|]. by apply sendRoundChange_wp.
Qed.

(** ** Changes of the round state *)

Lemma at_round_update s vs cur rcs cur' :
  at_round s vs cur rcs ->
  good (be_HasBadProposal be) vs (c_state s.1) (c_waitingForRoundChange s.1) cur' rcs ->
  at_round (set_current (Some cur') s.1, s.2) vs cur' rcs.
Proof. intros (Hv & Hc & Hr & G & Hq & Hf) G'. by repeat split_and. Qed.

Lemma setState_round state (s : st) vs cur rcs :
  at_round s vs cur rcs ->
  good (be_HasBadProposal be) vs state (c_waitingForRoundChange s.1) cur rcs ->
  wp (setState (Q := Q) state) (fun _ s' => at_round s' vs cur rcs /\ c_state s'.1 = state) s.
Proof.
  intros (Hv & Hc & Hr & G & Hq & Hf) G'. eapply wp_mono; [apply setState_wp; [by rewrite Hc|done]|].
  cbv beta. intros _ s' ((_ & Es & Ev & Ew & Ec & Er) & Hq' & Hf'). simpl in *.
  unfold at_round. rewrite Es, Ev, Ew, Ec, Er. repeat split_and; auto.
Qed.

(** A later state of the same round, once the PRE-PREPARE is accepted. *)
Lemma good_state bad vs state state' cur rcs :
  good bad vs state false cur rcs -> is_Some (rs_Preprepare cur) -> state' <> StateAcceptRequest ->
  good bad vs state' false cur rcs.
Proof. intros G Hp Hs. constructor; try apply G; [|done]. intros [?|?]; done. Qed.

Lemma votes_subject_eq vs cur cur' ms :
  rs_Subject cur' = rs_Subject cur -> votes_ok vs cur ms -> votes_ok vs cur' ms.
Proof. intros E [V1 V2 V3]. constructor; auto. rewrite E. done. Qed.

Lemma LockHash_Subject (cur : roundState P) : rs_Subject (LockHash cur) = rs_Subject cur.
Proof. unfold LockHash, rs_Subject. destruct (rs_Preprepare cur) as [pp|] eqn:E; simpl; by rewrite ?E. Qed.

Lemma good_LockHash bad vs state waiting cur rcs :
  good bad vs state waiting cur rcs -> is_Some (rs_Preprepare cur) ->
  good bad vs state waiting (LockHash cur) rcs.
Proof.
  intros G [pp Hp]. pose proof (LockHash_Subject cur) as Es. unfold LockHash in *. rewrite Hp in *.
  destruct G as [G1 G2 G3 G4 G5 G6 G7 G8]. constructor; auto.
  - by apply (votes_subject_eq vs cur).
  - by apply (votes_subject_eq vs cur).
  - intros _. by exists pp.
Qed.

Lemma evolves_LockHash cur :
  lock_ok (be_HasBadProposal be) cur -> evolves cur (LockHash cur).
Proof.
  intros Hl. unfold LockHash. destruct (rs_Preprepare cur) as [pp|] eqn:Hp; [|apply evolves_refl].
  split; [by left|]. intros _ _ L. destruct (Hl L) as (pp' & E & <-). simpl. congruence.
Qed.

Lemma good_UnlockHash bad vs state waiting cur rcs :
  good bad vs state waiting cur rcs -> good bad vs state waiting (UnlockHash cur) rcs.
Proof.
  intros [G1 G2 G3 G4 G5 G6 G7 G8]. constructor; auto; [by apply (votes_subject_eq vs cur)..|].
  by apply lock_ok_unlocked.
Qed.

Lemma votes_Add vs cur ms msg sub :
  votes_ok vs cur ms -> decode_subject msg = Ok sub -> rs_Subject cur = Some sub ->
  votes_ok vs cur (ms_Add ms msg).2.
Proof.
  intros [V1 V2 V3] Hd Hs. destruct (ms_Add_spec ms msg) as [[Hin ->]|[_ ->]]; simpl; [|by constructor].
  constructor; [by apply addVerifiedMessage_ok|done|]. intros a m. simpl.
  destruct (decide (a = Address msg)) as [->|Hne].
  - rewrite lookup_insert_eq. intros [= <-]. by exists sub.
  - rewrite lookup_insert_ne by done. apply V3.
Qed.

(** ** Handlers *)

Definition commit_seals (cur : roundState P) : list bytes :=
  map (fun v => copy_seal (CommittedSeal v)) (ms_Values (rs_Commits cur)).

Lemma commit_wp cur0 (s : st) vs cur rcs pp :
  at_round s vs cur rcs -> evolves cur0 cur -> c_waitingForRoundChange s.1 = false ->
  rs_Preprepare cur = Some pp -> okE (ECommit (pp_Proposal pp) (commit_seals cur)) ->
  wp (commit be) (fun _ s' => Inv cur0 s') s.
Proof.
  intros HA Ev Hw Hp Hok. unfold commit. wp_step. pose proof HA as (_ & _ & _ & G & _ & _). rewrite Hw in G.
  eapply wp_mono; [apply (setState_round StateCommitted s vs cur rcs HA); rewrite Hw; by eapply good_state; eauto|].
  cbv beta. intros _ s1 [HA1 _]. pose proof HA1 as (Hv1 & Hc1 & Hr1 & G1 & Hq1 & Hf1).
  do 2 wp_step. exists cur. split; [done|]. unfold rs_Proposal. rewrite Hp. simpl. do 2 wp_step.
  assert (HI : Inv cur0 (s1.1, s1.2 ++ [ECommit (pp_Proposal pp) (commit_seals cur)])).
  { eapply (Inv_close _ _ vs cur rcs); [|done]. unfold at_round; cbn; split_and!; auto.
    apply Forall_app. split; [done|]. by apply Forall_singleton. }
  fold (commit_seals cur). destruct (be_Commit be _ _) as [e|] eqn:Ec; [|wp_step; exact HI].
  do 2 wp_step. exists cur. split; [done|]. apply sendNextRoundChange_wp.
  eapply (Inv_close _ _ vs (UnlockHash cur) rcs).
  - unfold at_round; cbn; split_and!; auto; [by apply good_UnlockHash|]. apply HI.
  - eapply evolves_trans; [exact Ev|]. split; [by left|]. intros Hs. by rewrite Hs in Ec.
Qed.

Context (vs0 : defaultSet) (view0 : View).

(** When a block may be committed: enough votes for the subject of the round. *)
Context (okE_commit : forall cur pp,
  votes_ok vs0 cur (rs_Commits cur) -> rs_Preprepare cur = Some pp -> view_of cur = view0 ->
  2 * F vs0 < ms_Size (rs_Commits cur) -> okE (ECommit (pp_Proposal pp) (commit_seals cur))).

Definition entry (s : st) (cur0 : roundState P) (rcs : roundChangeSet) : Prop :=
  at_round s vs0 cur0 rcs /\ view_of cur0 = view0.

Lemma entry_Inv s cur0 rcs : entry s cur0 rcs -> Inv cur0 s.
Proof. intros [HA _]. eapply Inv_close; [exact HA|apply evolves_refl]. Qed.

Lemma core_checkMessage_wp code v (s : st) cur Post :
  c_current s.1 = Some cur ->
  Post (checkMessage (view_of cur) (c_waitingForRoundChange s.1) (c_state s.1) code (Some v)) s ->
  wp (core_checkMessage (Q := Q) code (Some v)) Post s.
Proof.
  intros Hc HP. unfold core_checkMessage, core_check. do 3 wp_step. rewrite Hc. eexists. split; [reflexivity|done].
Qed.

(** A message of the present view is only let through outside of round changes,
    and only a PRE-PREPARE while requests are accepted. *)
Lemma checkMessage_pass cv waiting state code v :
  code <> msgRoundChange -> checkMessage cv waiting state code (Some v) = None ->
  v = cv /\ waiting = false /\ (state = StateAcceptRequest -> code <= msgPreprepare).
Proof.
  intros Hc. unfold checkMessage. zcase; [done|].
  destruct (View_Cmp_spec v cv) as [[-> ?]|[[-> ->]|[-> ?]]]; simpl; [done| |done].
  destruct waiting; [done|]. case_bool_decide; [zcase; [done|]|]; intros _; (split; [done|]; split; [done|]).
  - intros _. lia.
  - done.
Qed.

Lemma verifySubject_wp sub (s : st) cur Post :
  c_current s.1 = Some cur ->
  Post (if bool_decide (Some sub = rs_Subject cur) then None else Some errInconsistentSubject) s ->
  wp (verifySubject (Q := Q) sub) Post s.
Proof. intros Hc HP. unfold verifySubject. do 2 wp_step. exists cur. split; [done|]. by wp_step. Qed.

Lemma rs_Subject_Preprepare (cur : roundState P) sub : rs_Subject cur = Some sub -> is_Some (rs_Preprepare cur).
Proof. unfold rs_Subject. by destruct (rs_Preprepare cur). Qed.

Lemma handleCommit_wp msg src (s : st) cur0 rcs :
  entry s cur0 rcs -> wp (handleCommit be msg src) (fun _ s' => Inv cur0 s') s.
Proof.
  intros HE. pose proof (entry_Inv _ _ _ HE) as HI. destruct HE as [HA Hv0].
  pose proof HA as (Hv & Hc & Hr & G & Hq & Hf). unfold handleCommit.
  destruct (decode_subject msg) as [sub|e|] eqn:D; [|by wp_step|by apply DecodeBytes_not_Panic in D].
  wp_step. eapply core_checkMessage_wp; [exact Hc|].
  destruct (checkMessage _ _ _ _ _) as [e|] eqn:C; [by wp_step|].
  apply checkMessage_pass in C as (_ & Hw & Hs); [|done].
  wp_step. eapply verifySubject_wp; [exact Hc|]. case_bool_decide as Es; [|by wp_step].
  destruct (rs_Subject_Preprepare cur0 sub ltac:(done)) as [pp Hp].
  unfold acceptCommit. do 2 wp_step. exists cur0. split; [done|].
  set (cur1 := set_Commits (ms_Add (rs_Commits cur0) msg).2 cur0).
  assert (Hst : c_state s.1 <> StateAcceptRequest).
  { intros E. specialize (Hs E). unfold msgCommit, msgPreprepare in Hs. lia. }
  assert (G1 : good (be_HasBadProposal be) vs0 (c_state s.1) (c_waitingForRoundChange s.1) cur1 rcs).
  { destruct G as [G1 G2 G3 G4 G5 G6 G7 G8]. constructor; auto; [by apply (votes_subject_eq vs0 cur0)| |].
    - eapply votes_subject_eq, votes_Add; [|exact G3|exact D|done]. done.
    - intros [?|?]; congruence. }
  pose proof (at_round_update s vs0 cur0 rcs cur1 HA G1) as HA1.
  assert (E1 : evolves cur0 cur1) by (split; [by left|done]).
  do 2 wp_step. exists cur1. split; [done|]. do 2 wp_step. exists vs0. split; [done|]. do 3 wp_step.
  destruct (_ && _) eqn:B; [|do 2 wp_step; by eapply Inv_close]. zbool.
  do 2 wp_step. exists cur1. split; [done|]. simpl.
  assert (GL : good (be_HasBadProposal be) vs0 (c_state s.1) (c_waitingForRoundChange s.1) (LockHash cur1) rcs).
  { apply good_LockHash; [done|]. simpl. by rewrite Hp. }
  eapply wp_mono.
  - apply (commit_wp cur0 _ vs0 (LockHash cur1) rcs pp).
    + exact (at_round_update _ _ _ _ _ HA1 GL).
    + eapply evolves_trans; [exact E1|]. apply evolves_LockHash. apply G1.
    + done.
    + unfold LockHash. simpl. rewrite Hp. done.
    + apply okE_commit; [apply GL| | |]; unfold LockHash; simpl; rewrite ?Hp; simpl; auto.
  - cbv beta. intros _ s' HI'. by wp_step.
Qed.

Lemma handlePrepare_wp msg src (s : st) cur0 rcs :
  entry s cur0 rcs -> wp (handlePrepare be msg src) (fun _ s' => Inv cur0 s') s.
Proof.
  intros HE. pose proof (entry_Inv _ _ _ HE) as HI. destruct HE as [HA Hv0].
  pose proof HA as (Hv & Hc & Hr & G & Hq & Hf). unfold handlePrepare.
  destruct (decode_subject msg) as [sub|e|] eqn:D; [|by wp_step|by apply DecodeBytes_not_Panic in D].
  wp_step. eapply core_checkMessage_wp; [exact Hc|].
  destruct (checkMessage _ _ _ _ _) as [e|] eqn:C; [by wp_step|].
  apply checkMessage_pass in C as (_ & Hw & Hs); [|done].
  wp_step. eapply verifySubject_wp; [exact Hc|]. case_bool_decide as Es; [|by wp_step].
  destruct (rs_Subject_Preprepare cur0 sub ltac:(done)) as [pp Hp].
  unfold acceptPrepare. do 2 wp_step. exists cur0. split; [done|].
  set (cur1 := set_Prepares (ms_Add (rs_Prepares cur0) msg).2 cur0).
  assert (Hst : c_state s.1 <> StateAcceptRequest).
  { intros E. specialize (Hs E). unfold msgPrepare, msgPreprepare in Hs. lia. }
  assert (G1 : good (be_HasBadProposal be) vs0 (c_state s.1) (c_waitingForRoundChange s.1) cur1 rcs).
  { destruct G as [G1 G2 G3 G4 G5 G6 G7 G8]. constructor; auto; [|by apply (votes_subject_eq vs0 cur0)|].
    - eapply votes_subject_eq, votes_Add; [|exact G2|exact D|done]. done.
    - intros [?|?]; congruence. }
  pose proof (at_round_update s vs0 cur0 rcs cur1 HA G1) as HA1.
  assert (E1 : evolves cur0 cur1) by (split; [by left|done]).
  do 2 wp_step. exists cur1. split; [done|]. do 2 wp_step. exists vs0. split; [done|]. do 3 wp_step.
  destruct (_ && _) eqn:B; [|do 2 wp_step; by eapply Inv_close].
  do 2 wp_step. exists cur1. split; [done|]. wp_step.
  assert (GL : good (be_HasBadProposal be) vs0 (c_state s.1) (c_waitingForRoundChange s.1) (LockHash cur1) rcs).
  { apply good_LockHash; [done|]. simpl. by rewrite Hp. }
  pose proof (at_round_update _ _ _ _ _ HA1 GL) as HA2.
  assert (Hp2 : rs_Preprepare (LockHash cur1) = Some pp) by (unfold LockHash; simpl; by rewrite Hp).
  assert (Hs2 : rs_Subject (LockHash cur1) = Some sub) by (by rewrite LockHash_Subject).
  eapply wp_mono.
  { apply (setState_round StatePrepared _ _ _ _ HA2). cbn in *. rewrite Hw in *. eapply good_state; [exact GL|by rewrite Hp2|done]. }
  cbv beta. intros _ s2 [HA3 _]. pose proof HA3 as (_ & Hc3 & _).
  eapply wp_mono; [by eapply sendCommit_wp|]. cbv beta. intros _ s3 S3. wp_step.
  eapply Inv_sends; [|exact S3]. eapply Inv_close; [exact HA3|].
  eapply evolves_trans; [exact E1|]. apply evolves_LockHash, G1.
Qed.

Lemma good_SetPreprepare bad vs cur rcs pp :
  good bad vs StateAcceptRequest false cur rcs ->
  (IsHashLocked bad cur = true -> Hash (pp_Proposal pp) = rs_lockedHash cur) ->
  good bad vs StateAcceptRequest false (SetPreprepare pp cur) rcs.
Proof.
  intros [G1 G2 G3 G4 G5 G6 G7 G8] Hl. destruct (G5 ltac:(by left)) as [E1 E2].
  assert (V : forall ms, votes_ok vs cur ms -> ms_messages ms = ∅ -> votes_ok vs (SetPreprepare pp cur) ms).
  { intros ms [V1 V2 V3] E. constructor; auto. intros a m. rewrite E, lookup_empty. done. }
  constructor; auto. intros L. by exists pp; split; [|apply Hl].
Qed.

Lemma accept_wp state (next : CM P Q unit) (s : st) cur0 rcs pp :
  entry s cur0 rcs -> c_waitingForRoundChange s.1 = false -> c_state s.1 = StateAcceptRequest ->
  state <> StateAcceptRequest ->
  (IsHashLocked (be_HasBadProposal be) cur0 = true -> Hash (pp_Proposal pp) = rs_lockedHash cur0) ->
  (forall s2 cur sub, c_current s2.1 = Some cur -> rs_Subject cur = Some sub ->
     wp next (fun _ s' => sends s2 s') s2) ->
  wp (acceptPreprepare (Q := Q) pp;; setState state;; next) (fun _ s' => Inv cur0 s') s.
Proof.
  intros [HA Hv0] Hw Hst Hne Hl Hnext. pose proof HA as (Hv & Hc & Hr & G & Hq & Hf).
  unfold acceptPreprepare. do 2 wp_step. exists cur0. split; [done|]. wp_step.
  rewrite Hw, Hst in G. pose proof (good_SetPreprepare _ _ _ _ pp G Hl) as G1.
  assert (HA1 : at_round (set_current (Some (SetPreprepare pp cur0)) s.1, s.2) vs0 (SetPreprepare pp cur0) rcs).
  { apply (at_round_update s vs0 cur0 rcs); [done|]. by rewrite Hw, Hst. }
  eapply wp_mono; [apply (setState_round state _ _ _ _ HA1); cbn; rewrite Hw; by eapply good_state; eauto|].
  cbv beta. intros _ s2 [HA2 _]. pose proof HA2 as (_ & Hc2 & _).
  eapply wp_mono; [by eapply Hnext|]. cbv beta. intros _ s3 S3. eapply Inv_sends; [|exact S3].
  eapply Inv_close; [exact HA2|]. split; [by left|done].
Qed.

Lemma old_preprepare_wp pp src (s : st) cur0 :
  Inv cur0 s -> wp (old_preprepare be pp src) (fun _ s' => Inv cur0 s') s.
Proof.
  intros HI. unfold old_preprepare. destruct (_ && _); [|by wp_step].
  unfold sendCommitForOldBlock, broadcastCommit. do 3 wp_step. eexists. split; [reflexivity|].
  eapply wp_mono; [apply encode_broadcast_wp; by eapply Inv_current|]. cbv beta. intros _ s' S. wp_step.
  by eapply Inv_sends.
Qed.

Lemma handlePreprepare_wp msg src (s : st) cur0 rcs :
  entry s cur0 rcs -> wp (handlePreprepare be msg src) (fun _ s' => Inv cur0 s') s.
Proof.
  intros HE. pose proof (entry_Inv _ _ _ HE) as HI. pose proof HE as [HA Hv0].
  pose proof HA as (Hv & Hc & Hr & G & Hq & Hf). unfold handlePreprepare.
  destruct (decode_preprepare msg) as [pp|e|] eqn:D; [|by wp_step|by apply DecodeBytes_not_Panic in D].
  wp_step. eapply core_checkMessage_wp; [exact Hc|].
  destruct (checkMessage _ _ _ _ _) as [e|] eqn:C; [destruct e; try (by wp_step); by apply old_preprepare_wp|].
  apply checkMessage_pass in C as (_ & Hw & _); [|done].
  do 2 wp_step. exists vs0. split; [done|]. destruct (negb _); [by wp_step|].
  destruct (be_Verify be (pp_Proposal pp)) as [dur [e|]].
  - wp_step. case_bool_decide.
    + unfold stopFuturePreprepareTimer. do 4 wp_step. eapply Inv_keeps; [exact HI|]. by repeat split.
    + eapply wp_mono; [by apply sendNextRoundChange_wp|]. cbv beta. intros _ s' HI'. by wp_step.
  - do 3 wp_step. case_bool_decide as Hst; [|by do 2 wp_step].
    do 2 wp_step. exists cur0. split; [done|].
    destruct (IsHashLocked (be_HasBadProposal be) cur0) eqn:L; [case_bool_decide as Hh|].
    + eapply wp_mono; [eapply accept_wp; [done..| |]|].
      * done.
      * intros. by eapply sendCommit_wp.
      * cbv beta. intros _ s' HI'. by wp_step.
    + eapply wp_mono; [by apply sendNextRoundChange_wp|]. cbv beta. intros _ s' HI'. by wp_step.
    + eapply wp_mono; [eapply accept_wp; [done..| |]|].
      * by rewrite L.
      * intros. by eapply sendPrepare_wp.
      * cbv beta. intros _ s' HI'. by wp_step.
Qed.

Lemma rcs_Add_ok vs r msg rcs res rcs' :
  rcs_ok vs rcs -> rcs_Add r msg rcs = (res, rcs') -> rcs_ok vs rcs'.
Proof.
  intros [E Hr]. unfold rcs_Add. set (ms := default _ _).
  assert (Hms : ms_ok ms /\ validators (ms_valSet ms) = validators vs).
  { unfold ms. destruct (rcs_roundChanges rcs !! u64 r) as [ms0|] eqn:L; [by apply (Hr _ _ L)|].
    split; [apply newMessageSet_ok|done]. }
  destruct (ms_Add ms msg) as [e ms'] eqn:A. destruct (ms_Add_ok _ _ _ _ (proj1 Hms) A) as [O V].
  intros X. assert (rcs' = mkRoundChangeSet (rcs_validatorSet rcs) (<[u64 r := ms']> (rcs_roundChanges rcs)))
    as -> by (destruct e; by injection X).
  split; [done|]. simpl. intros k ms1. destruct (decide (k = u64 r)) as [->|].
  - rewrite lookup_insert_eq. intros [= <-]. rewrite V. split; [done|apply Hms].
  - rewrite lookup_insert_ne by done. apply Hr.
Qed.

Lemma handleRoundChange_wp msg src (s : st) cur0 rcs :
  entry s cur0 rcs -> wp (handleRoundChange be msg src) (fun _ s' => Inv cur0 s') s.
Proof.
  intros HE. pose proof (entry_Inv _ _ _ HE) as HI. pose proof HE as [HA Hv0].
  pose proof HA as (Hv & Hc & Hr & G & Hq & Hf). unfold handleRoundChange.
  destruct (decode_subject msg) as [sub|e|] eqn:D; [|by wp_step|by apply DecodeBytes_not_Panic in D].
  wp_step. eapply core_checkMessage_wp; [exact Hc|].
  destruct (checkMessage _ _ _ _ _) as [e|] eqn:C; [by wp_step|].
  wp_step. eapply currentView_wp; [exact Hc|]. do 4 wp_step. exists rcs. split; [done|].
  destruct (rcs_Add (Round (sub_View sub)) msg rcs) as [res rcs'] eqn:A. do 2 wp_step.
  assert (HI1 : Inv cur0 (set_roundChangeSet (Some rcs') s.1, s.2)).
  { eapply (Inv_close _ _ vs0 cur0 rcs'); [|apply evolves_refl]. unfold at_round; cbn; split_and!; auto.
    destruct G as [G1 G2 G3 G4 G5 G6 G7 G8]. constructor; auto. by eapply rcs_Add_ok. }
  destruct res as [e|num]; [by wp_step|]. do 2 wp_step. exists vs0. split; [done|].
  assert (Fin : forall m : CM P Q unit, wp m (fun _ s' => Inv cur0 s') (set_roundChangeSet (Some rcs') s.1, s.2) ->
    wp (m;; mret None : CM P Q (option core_err)) (fun _ s' => Inv cur0 s') (set_roundChangeSet (Some rcs') s.1, s.2)).
  { intros m Hm. wp_step. eapply wp_mono; [exact Hm|]. cbv beta. intros _ s' HI'. by wp_step. }
  zcase; [|zcase].
  - apply Fin. zcase; [by apply sendRoundChange_wp|by wp_step].
  - apply Fin. by apply startNewRound_wp.
  - zcase; by wp_step.
Qed.

Lemma testBacklog_wp msg src err (s : st) cur0 :
  Inv cur0 s -> wp (testBacklog (Q := Q) msg src err) (fun _ s' => Inv cur0 s') s.
Proof.
  intros HI. unfold testBacklog. wp_step. case_bool_decide; [|by do 2 wp_step].
  unfold storeBacklog. do 2 wp_step. case_bool_decide; [by do 2 wp_step|]. do 2 wp_step.
  eapply Inv_keeps; [exact HI|]. by repeat split.
Qed.

Lemma handleCheckedMsg_wp msg src (s : st) cur0 rcs :
  entry s cur0 rcs -> wp (handleCheckedMsg be msg src) (fun _ s' => Inv cur0 s') s.
Proof.
  intros HE. unfold handleCheckedMsg.
  repeat zcase; [wp_step; eapply wp_mono..|wp_step; by eapply entry_Inv].
  all: first [by eapply handlePreprepare_wp | by eapply handlePrepare_wp | by eapply handleCommit_wp
             |by eapply handleRoundChange_wp |cbv beta; intros err s' HI; by apply testBacklog_wp].
Qed.

Lemma FromPayload_not_Panic b vs : FromPayload b (Some (CheckValidatorSignature (Some vs))) <> Panic.
Proof.
  unfold FromPayload. destruct (DecodeBytes message_DecodeRLP b) as [m|e|] eqn:D; simpl;
    [|done|by apply DecodeBytes_not_Panic in D].
  destruct (PayloadNoSig m) as [p|e|] eqn:N; simpl; [|done|by apply EncodeToBytes_not_Panic in N].
  unfold CheckValidatorSignature, GetSignatureAddress.
  destruct (recover_address _ _) as [a|]; simpl; [|done]. by destruct (GetByAddress vs a) as [k [v|]].
Qed.

Lemma handleMsg_wp payload (s : st) cur0 rcs :
  entry s cur0 rcs -> wp (handleMsg be payload) (fun _ s' => Inv cur0 s') s.
Proof.
  intros HE. pose proof (entry_Inv _ _ _ HE) as HI. pose proof HE as [(Hv & _) _].
  unfold handleMsg. do 2 wp_step. rewrite Hv.
  destruct (FromPayload _ _) as [msg|e|] eqn:Fp; [|by wp_step|].
  - do 2 wp_step. exists vs0. split; [done|].
    destruct (GetByAddress vs0 (Address msg)) as [k [src|]]; [by eapply handleCheckedMsg_wp|by wp_step].
  - by apply FromPayload_not_Panic in Fp.
Qed.

Lemma handleRequest_wp r (s : st) cur0 rcs :
  entry s cur0 rcs ->
  wp (handleRequest be r) (fun err s' => Inv cur0 s' /\ (err = Some errFutureMessage -> request_ok r)) s.
Proof.
  intros HE. pose proof (entry_Inv _ _ _ HE) as HI. pose proof HE as [HA Hv0].
  pose proof HA as (Hv & Hc & Hr & G & Hq & Hf). unfold handleRequest. do 2 wp_step. exists cur0. split; [done|].
  destruct (checkRequestMsg (rs_sequence cur0) (Some r)) as [e|] eqn:C.
  - wp_step. split; [done|]. intros [= ->]. simpl in C. unfold request_ok. by destruct (rq_Proposal r).
  - assert (Hr' : request_ok r) by (simpl in C; unfold request_ok; by destruct (rq_Proposal r)).
    do 2 wp_step. exists cur0. split; [done|]. do 3 wp_step.
    set (s1 := (set_current _ s.1, s.2)).
    assert (HI1 : Inv cur0 s1).
    { eapply (Inv_close _ _ vs0 (set_pendingRequest (Some r) cur0) rcs); [|split; [by left|done]].
      apply (at_round_update s vs0 cur0 rcs); [done|].
      destruct G as [G1 G2 G3 G4 G5 G6 G7 G8]. constructor; auto; [by apply (votes_subject_eq vs0 cur0)..|].
      simpl. by intros ? [= <-]. }
    case_bool_decide; [|do 2 wp_step; split; [done|by intros]].
    eapply wp_mono; [apply sendPreprepare_wp; [by eapply Inv_current|done]|]. cbv beta. intros _ s2 S2. wp_step.
    split; [by eapply Inv_sends|by intros].
Qed.

Lemma handleTimeoutMsg_wp (s : st) cur0 rcs :
  entry s cur0 rcs -> wp (handleTimeoutMsg be) (fun _ s' => Inv cur0 s') s.
Proof.
  intros HE. pose proof (entry_Inv _ _ _ HE) as HI. pose proof HE as [(Hv & Hc & Hr & G & Hq & Hf) Hv0].
  unfold handleTimeoutMsg. do 2 wp_step. destruct (be_LastProposal be) as [[last|] lp] eqn:El.
  2: { destruct (backend_last be_ok) as (? & ? & ?). congruence. }
  set (next := (cur ← get_current; _)).
  assert (Hn : wp next (fun _ s' => Inv cur0 s') s).
  { unfold next. do 2 wp_step. exists cur0. split; [done|]. zcase; [by apply startNewRound_wp|by apply sendNextRoundChange_wp]. }
  destruct (negb _); [|done]. do 2 wp_step. exists rcs. split; [done|]. do 2 wp_step. exists vs0. split; [done|].
  destruct (MaxRound _ rcs) as [m|]; [|done]. do 2 wp_step. exists cur0. split; [done|].
  zcase; [by apply sendRoundChange_wp|done].
Qed.

Lemma emit_other_wp e (s : st) cur0 :
  Inv cur0 s -> (forall p seals, e <> ECommit p seals) -> wp (emit e) (fun _ s' => Inv cur0 s') s.
Proof. intros HI He. wp_step. eapply Inv_sends; [exact HI|]. split; [done|]. intros Hf. by apply okE_emit. Qed.

(** Every event is handled without a panic and preserves the invariant. *)
Lemma handleEvent_wp ev (s : st) cur0 rcs :
  entry s cur0 rcs -> wp (handleEvent be ev) (fun _ s' => Inv cur0 s') s.
Proof.
  intros HE. pose proof (entry_Inv _ _ _ HE) as HI. destruct ev as [p|payload|src msg| |]; simpl.
  - wp_step. eapply wp_mono; [by eapply handleRequest_wp|]. cbv beta. intros err s1 [HI1 Hr].
    case_bool_decide as E; [|by wp_step]. destruct (Hr E) as [q Hq]. simpl in Hq. subst p.
    unfold storeRequestMsg. do 2 wp_step. exists q. split; [done|]. do 3 wp_step.
    pose proof (Inv_queue _ _ HI1). eapply Inv_keeps; [exact HI1|]. split; [by repeat split|].
    split; [|done]. intros _. apply queue_ok_Push; [done|by exists q].
  - wp_step. eapply wp_mono; [by eapply handleMsg_wp|]. cbv beta. intros err s1 HI1.
    case_bool_decide; [by apply emit_other_wp|by wp_step].
  - wp_step. eapply wp_mono; [by eapply handleCheckedMsg_wp|]. cbv beta. intros err s1 HI1.
    case_bool_decide; [|by wp_step].
    destruct (Payload msg) as [pl|e|] eqn:E; [by apply emit_other_wp|by wp_step|by apply EncodeToBytes_not_Panic in E].
  - by eapply handleTimeoutMsg_wp.
  - by apply startNewRound_wp.
Qed.

End Effects.
End Inv.
