(* ===== verification/CoreTheorems.v ===== *)
(** Claims on the Istanbul state machine: reachable states, absence of panics,
    commit certificates, view and lock monotonicity, timeouts, and the
    behaviours the code does not intend. *)
From S2P Require Import Prelude RlpEncode RlpDecode RlpCodec RlpTheorems IstanbulTypes ValidatorSet ValidatorProps RoundState Backlog IstanbulCore CoreInv.

(** ** Reachable states *)

Section Reach.
Context {P : Type} `{Proposal P} `{Crypto} `{GoRangeLaws} {Q : Type -> Type} `{PrqueLaws Q}.

(** Every event meets a backend of its own; a proposal once found bad stays bad. *)
Inductive reachable : (hash -> bool) -> core P Q -> Prop :=
| reach_Start be c fx :
    backend_ok be -> core_Start be (core_New be, []) = Some (tt, (c, fx)) ->
    reachable (be_HasBadProposal be) c
| reach_event be bad c ev c' fx :
    reachable bad c -> backend_ok be -> (forall h, bad h = true -> be_HasBadProposal be h = true) ->
    handleEvent be ev (c, []) = Some (tt, (c', fx)) ->
    reachable (be_HasBadProposal be) c'.

Lemma wp_Some {A} (m : CM P Q A) Post s :
  wp m Post s <-> exists a s', m s = Some (a, s') /\ Post a s'.
Proof. unfold wp. destruct (m s) as [[a s']|]; naive_solver. Qed.

Lemma lock_ok_mono (bad bad' : hash -> bool) (cur : roundState P) :
  (forall h, bad h = true -> bad' h = true) -> lock_ok bad cur -> lock_ok bad' cur.
Proof.
  intros Hm Hl L. apply Hl. unfold IsHashLocked in *. destruct (EmptyHash _); [done|].
  apply negb_true_iff in L. apply negb_true_iff. destruct (bad _) eqn:E; [|done]. by rewrite Hm in L.
Qed.

Lemma core_inv_mono (bad bad' : hash -> bool) (c : core P Q) :
  (forall h, bad h = true -> bad' h = true) -> core_inv bad c -> core_inv bad' c.
Proof.
  intros Hm (vs & cur & rcs & Hv & Hc & Hr & [G1 G2 G3 G4 G5 G6 G7 G8] & Hq).
  exists vs, cur, rcs. split_and!; auto. constructor; auto. by eapply lock_ok_mono.
Qed.

Lemma okE_True : okE_open (fun _ : effect P => True).
Proof. by intros e _. Qed.

Lemma queue_ok_New : queue_ok (pq_New : Q (Request P)).
Proof. unfold queue_ok. rewrite pq_New_items. constructor. Qed.

(** One event from a state with the invariant. *)
Lemma event_ok (okE : effect P -> Prop) be ev c vs cur rcs :
  okE_open okE -> backend_ok be ->
  (forall cur1 pp, votes_ok vs cur1 (rs_Commits cur1) -> rs_Preprepare cur1 = Some pp ->
     view_of cur1 = view_of cur -> 2 * F vs < ms_Size (rs_Commits cur1) ->
     okE (ECommit (pp_Proposal pp) (commit_seals cur1))) ->
  c_valSet c = Some vs -> c_current c = Some cur -> c_roundChangeSet c = Some rcs ->
  good (be_HasBadProposal be) vs (c_state c) (c_waitingForRoundChange c) cur rcs ->
  queue_ok (c_pendingRequests c) ->
  exists c' fx, handleEvent be ev (c, []) = Some (tt, (c', fx)) /\ Inv okE be cur (c', fx).
Proof.
  intros Ho Hb Hcm Hv Hc Hr G Hq.
  pose proof (handleEvent_wp okE Ho be Hb vs (view_of cur) Hcm ev (c, []) cur rcs) as W.
  apply wp_Some in W as ([] & [c' fx] & E & I); [eauto|]. split; [|done]. by unfold at_round; cbn; split_and!.
Qed.

Lemma reachable_inv bad c : reachable bad c -> core_inv bad c.
Proof.
  induction 1 as [be c fx Hb E|be bad c ev c' fx Hr IH Hb Hm E].
  - pose proof (core_Start_wp _ okE_True be Hb (core_New be, []) eq_refl queue_ok_New ltac:(done)) as W.
    unfold wp in W. rewrite E in W. apply W.
  - destruct (core_inv_mono _ _ _ Hm IH) as (vs & cur & rcs & Hv & Hc & Hrc & G & Hq).
    destruct (event_ok _ be ev c vs cur rcs okE_True Hb ltac:(done) Hv Hc Hrc G Hq) as (c1 & fx1 & E1 & (I & _)).
    rewrite E in E1. by simplify_eq.
Qed.

(** ** Commit certificates *)

(** [msgs] shows that more than [2F] distinct validators of [vs] voted to
    commit the proposal with hash [h] in view [v]. *)
Definition certificate (vs : defaultSet) (v : View) (h : hash) (msgs : list message) : Prop :=
  NoDup (map Address msgs) /\ 2 * F vs < zlen msgs /\
  Forall (fun m => Address m ∈ members vs /\ decode_subject m = Ok (mkSubject v h)) msgs.

Lemma votes_certificate vs cur pp :
  votes_ok vs cur (rs_Commits cur) -> rs_Preprepare cur = Some pp -> 2 * F vs < ms_Size (rs_Commits cur) ->
  certificate vs (view_of cur) (Hash (pp_Proposal pp)) (ms_Values (rs_Commits cur)).
Proof.
  intros [V1 V2 V3] Hp Hs. pose proof (Values_addresses _ V1) as Pa. split_and!.
  - rewrite Pa. apply NoDup_elements.
  - apply Permutation_length in Pa. rewrite length_map in Pa. unfold zlen. rewrite Pa.
    rewrite ms_Size_senders in Hs. exact Hs.
  - apply Forall_forall. intros m Hm. unfold ms_Values in Hm. rewrite go_range_perm in Hm.
    apply list_elem_of_fmap in Hm as ([a m'] & -> & Hm%elem_of_map_to_list). simpl.
    destruct (V1 a m' Hm) as [Ea Hin]. rewrite Ea. split.
    + unfold members, addresses in *. by rewrite <- V2.
    + destruct (V3 a m' Hm) as (sub & -> & Es). unfold rs_Subject in Es. rewrite Hp in Es. by simplify_eq.
Qed.

End Reach.

(** ** Claims *)




(** C4: progress of views.  No event ever takes the core back to an earlier
    view: the pair (sequence, round) grows or stays. *)
Theorem view_never_decreases {P Q} `{Proposal P} `{Crypto} `{GoRangeLaws} `{PrqueLaws Q}
    (bad : hash -> bool) (c c' : core P Q) (be : Backend P) (ev : event P) (fx : list (effect P)) :
  reachable bad c -> backend_ok be -> (forall h, bad h = true -> be_HasBadProposal be h = true) ->
  handleEvent be ev (c, []) = Some (tt, (c', fx)) ->
  exists cur cur', c_current c = Some cur /\ c_current c' = Some cur' /\ view_le (view_of cur) (view_of cur').
Proof.
  intros Hr Hb Hm E. destruct (core_inv_mono _ _ _ Hm (reachable_inv _ _ Hr)) as (vs & cur & rcs & Hv & Hc & Hrc & G & Hq).
  destruct (event_ok _ be ev c vs cur rcs okE_True Hb ltac:(done) Hv Hc Hrc G Hq)
    as (c1 & fx1 & E1 & (_ & (cur' & Hc' & [Hle _]) & _)).
  rewrite E in E1. simplify_eq. eauto 6.
Qed.

(** C3: locks survive round changes.  A core that is locked on a proposal that
    is not bad stays locked on the same proposal until the sequence advances,
    as long as the backend accepts the blocks delivered to it. *)
Theorem lock_persists {P Q} `{Proposal P} `{Crypto} `{GoRangeLaws} `{PrqueLaws Q}
    (bad : hash -> bool) (c c' : core P Q) (be : Backend P) (ev : event P) (fx : list (effect P))
    (cur cur' : roundState P) :
  reachable bad c -> backend_ok be -> (forall h, bad h = true -> be_HasBadProposal be h = true) ->
  (forall p seals, be_Commit be p seals = None) ->
  handleEvent be ev (c, []) = Some (tt, (c', fx)) ->
  c_current c = Some cur -> c_current c' = Some cur' ->
  rs_sequence cur' = rs_sequence cur -> IsHashLocked (be_HasBadProposal be) cur = true ->
  IsHashLocked (be_HasBadProposal be) cur' = true /\ rs_lockedHash cur' = rs_lockedHash cur /\
  exists pp, rs_Preprepare cur' = Some pp /\ Hash (pp_Proposal pp) = rs_lockedHash cur.
Proof.
  intros Hr Hb Hm Hcs E Hc Hc' Es Hl.
  destruct (core_inv_mono _ _ _ Hm (reachable_inv _ _ Hr)) as (vs & cur1 & rcs & Hv & Hc1 & Hrc & G & Hq).
  destruct (event_ok _ be ev c vs cur1 rcs okE_True Hb ltac:(done) Hv Hc1 Hrc G Hq)
    as (c1 & fx1 & E1 & (I & (cur2 & Hc2 & [_ Hk]) & _)).
  rewrite E in E1. injection E1 as <- <-. simpl in Hc2. rewrite Hc in Hc1. rewrite Hc' in Hc2. simplify_eq.
  specialize (Hk Hcs Es Hl). assert (Hl' : IsHashLocked (be_HasBadProposal be) cur2 = true) by (by rewrite (IsHashLocked_eq _ cur1)).
  split; [done|]. split; [done|]. destruct I as (vs' & cur3 & rcs' & _ & Hc3 & _ & G' & _). simpl in Hc3.
  rewrite Hc' in Hc3. simplify_eq. destruct (good_lock _ _ _ _ _ _ G' Hl') as (pp & ? & ?). exists pp. by rewrite <- Hk.
Qed.

(** C5: liveness of the last phase.  Outside of a round change, once the
    PRE-PREPARE is accepted, the COMMIT message that completes a set of more
    than [2F] distinct senders makes the core deliver the block and enter the
    state Committed. *)
Theorem quorum_commits {P Q} `{Proposal P} `{Crypto} `{GoRangeLaws} `{PrqueLaws Q}
    (bad : hash -> bool) (c : core P Q) (be : Backend P) (msg : message) (src : Validator)
    (vs : defaultSet) (cur : roundState P) (pp : Preprepare P) :
  reachable bad c -> c_valSet c = Some vs -> c_current c = Some cur ->
  c_waitingForRoundChange c = false -> c_state c <> StateAcceptRequest -> c_state c <> StateCommitted ->
  rs_Preprepare cur = Some pp -> Code msg = msgCommit ->
  decode_subject msg = Ok (mkSubject (view_of cur) (Hash (pp_Proposal pp))) ->
  Address msg ∈ members vs -> 2 * F vs < Z.of_nat (size ({[Address msg]} ∪ senders (rs_Commits cur))) ->
  (forall p seals, be_Commit be p seals = None) ->
  exists c' fx seals, handleEvent be (backlogEvent src msg) (c, []) = Some (tt, (c', fx)) /\
    ECommit (pp_Proposal pp) seals ∈ fx /\ c_state c' = StateCommitted.
Proof.
  intros Hr Hv Hc Hw Hna Hnc Hp Hcode D Hin Hsz Hcs.
  destruct (reachable_inv _ _ Hr) as (vs1 & cur1 & rcs & Hv1 & Hc1 & _ & G & Hq).
  rewrite Hv in Hv1. rewrite Hc in Hc1. simplify_eq.
  assert (W : wp (handleEvent be (backlogEvent src msg)) (fun _ s' =>
    (exists seals, ECommit (pp_Proposal pp) seals ∈ s'.2) /\ c_state s'.1 = StateCommitted) (c, [])).
  2: { apply wp_Some in W as ([] & [c' fx] & E & (seals & Hs) & Hst). eauto 8. }
  unfold handleEvent. wp_step. unfold handleCheckedMsg. rewrite Hcode. simpl. wp_step.
  unfold handleCommit. rewrite D. wp_step. eapply core_checkMessage_wp; [exact Hc|]. simpl.
  rewrite Hw, (bool_decide_false (c_state c = _)) by done.
  destruct (View_Cmp_spec (view_of cur1) (view_of cur1)) as [[_ L]|[[-> _]|[_ L]]]; [by apply view_lt_irrefl in L| |by apply view_lt_irrefl in L].
  simpl. wp_step. eapply verifySubject_wp; [exact Hc|].
  rewrite bool_decide_true by (unfold rs_Subject; rewrite Hp; done).
  unfold acceptCommit. do 2 wp_step. exists cur1. split; [done|].
  set (cur2 := set_Commits (ms_Add (rs_Commits cur1) msg).2 cur1).
  do 2 wp_step. exists cur2. split; [done|]. do 2 wp_step. exists vs1. split; [done|]. do 3 wp_step. cbn [fst snd c_state set_current].
  assert (Hsz2 : (ms_Size (rs_Commits cur2) >? 2 * F vs1) = true).
  { apply Z.gtb_lt. unfold cur2. simpl. destruct (good_commits _ _ _ _ _ _ G) as [_ V2 _].
    destruct (ms_Add_spec (rs_Commits cur1) msg) as [[_ ->]|[Hout _]].
    - simpl. by rewrite ms_Size_senders, senders_add.
    - exfalso. apply Hout. unfold members, addresses in *. by rewrite V2. }
  assert (Hst2 : (State_Cmp (c_state c) StateCommitted <? 0) = true) by (by destruct (c_state c)).
  rewrite Hsz2, Hst2. simpl. do 2 wp_step. exists cur2. split; [done|]. unfold commit. wp_step.
  eapply wp_mono; [apply (setState_wp _ okE_True); [done|exact Hq]|]. cbv beta.
  intros _ s1 ((_ & Es & _ & _ & Ec & _) & _). cbn in Es, Ec.
  do 2 wp_step. eexists. split; [exact Ec|]. unfold rs_Proposal. 
  assert (rs_Preprepare (LockHash cur2) = Some pp) as -> by (unfold LockHash; simpl; by rewrite Hp).
  simpl. do 2 wp_step. rewrite Hcs. repeat wp_step. unfold testBacklog. wp_step.
  rewrite (bool_decide_false (None = Some _)) by done. repeat wp_step. rewrite bool_decide_true by done.
  assert (M : ECommit (pp_Proposal pp) (map (fun v => copy_seal (CommittedSeal v)) (ms_Values (rs_Commits (LockHash cur2))))
    ∈ s1.2 ++ [ECommit (pp_Proposal pp) (map (fun v => copy_seal (CommittedSeal v)) (ms_Values (rs_Commits (LockHash cur2))))])
    by set_solver.
  destruct (Payload msg) as [pl|e|] eqn:Ep; [|wp_step; eauto|by apply EncodeToBytes_not_Panic in Ep].
  wp_step. simpl. split; [|done]. eexists. apply elem_of_app. left. exact M.
Qed.

(** forged senders.  [FromPayload] drops the address it recovers from the
    signature, so the signature of any validator [a] authorises a message in
    the name of any other validator: the message is handled exactly as if its
    claimed sender had sent it. *)
Theorem forged_sender_accepted {P Q} `{Proposal P} `{Crypto} `{GoRange} `{Prque Q}
    (be : Backend P) (c : core P Q) (fx : list (effect P)) (vs : defaultSet) (m : message)
    (a : address) (k : Z) (src : Validator) :
  c_valSet c = Some vs -> message_ok m ->
  zlen (rlp_enc (message_EncodeRLP m)) < 2 ^ 64 ->
  zlen (rlp_enc (message_EncodeRLP (no_sig m))) < 2 ^ 64 ->
  recover_address (Keccak256 (rlp_enc (message_EncodeRLP (no_sig m)))) (Signature m) = Some a ->
  a ∈ members vs -> GetByAddress vs (Address m) = (k, Some src) ->
  handleMsg be (rlp_enc (message_EncodeRLP m)) (c, fx) = handleCheckedMsg be m src (c, fx).
Proof.
  intros Hv Hm Hz Hz' Hrec Ha Hsrc. unfold handleMsg, mbind, CM_bind, getc. cbn [fst snd]. rewrite Hv.
  assert (Fp : FromPayload (rlp_enc (message_EncodeRLP m)) (Some (CheckValidatorSignature (Some vs))) = Ok m).
  { apply GetByAddress_member in Ha as (i & v & Ga).
    unfold FromPayload. rewrite (DecodeBytes_complete message_codec m Hm); [cbn [rlp_result obind]|split; [apply rlp_enc_ok; auto with istanbul_db|done]].
    rewrite PayloadNoSig_ref by done. cbn [rlp_result obind].
    unfold CheckValidatorSignature, GetSignatureAddress. rewrite Hrec. simpl.
    by rewrite Ga. }
  rewrite Fp. unfold get_valSet, mbind, CM_bind, getc. simpl. rewrite Hv. simpl. by rewrite Hsrc.
Qed.

(** a backend without a chain head is fatal: [startNewRound] calls
    [Number] on the nil proposal that [LastProposal] returns. *)
Theorem nil_head_panics {P Q} `{Proposal P} `{Crypto} `{GoRange} `{Prque Q}
    (be : Backend P) (c : core P Q) (proposer : address) :
  is_Some (c_current c) -> be_LastProposal be = (None, proposer) ->
  handleEvent be FinalCommittedEvent (c, []) = None.
Proof.
  intros [cur Hc] Hl. simpl. unfold handleFinalCommitted, startNewRound. rewrite Hl.
  unfold mbind, CM_bind, getc, startNewRound_kind. simpl. by rewrite Hc.
Qed.

(** exponential back-off, up to its overflow.  The timeout of a round grows
    strictly with the round up to round 33; for round 34 the [int64] duration
    wraps to a negative number (the timer fires at once), and from round 55 on
    the exponential part is 0. *)
Theorem round_timeout_backoff (t : Z) :
  0 < t <= 10 ^ 9 ->
  (forall r r', 0 <= r < r' -> r' <= 33 -> 0 < round_timeout t r < round_timeout t r') /\
  round_timeout t 34 < 0 /\
  (forall r, 55 <= r -> round_timeout t r = round_timeout t 0).
Proof.
  intros Ht.
  assert (I : forall x, - 2 ^ 63 <= x < 2 ^ 63 -> i64 x = x).
  { intros x Hx. unfold i64, u64. destruct (Z.neg_nonneg_cases x).
    - rewrite <- (Z.mod_add x 1 (2 ^ 64)), Z.mod_small by lia. zcases.
    - rewrite Z.mod_small by lia. zcases. }
  assert (E : forall r, 0 < r <= 33 -> round_timeout t r = t * 1000000 + 2 ^ r * 1000000000).
  { intros r Hr. assert (0 < 2 ^ r <= 2 ^ 33) by (split; [lia|apply Z.pow_le_mono_r; lia]).
    unfold round_timeout, pow2_duration. zcases. rewrite !(I t), !I by (rewrite ?I; lia). done. }
  assert (E0 : round_timeout t 0 = t * 1000000) by (unfold round_timeout; simpl; by rewrite (I t), I by lia).
  split_and!.
  - intros r r' Hr Hr'. rewrite (E r') by lia. assert (0 < 2 ^ r') by lia.
    destruct (Z.eq_dec r 0) as [->|]; [rewrite E0; lia|]. rewrite E by lia.
    assert (2 ^ r < 2 ^ r') by (apply Z.pow_lt_mono_r; lia). lia.
  - unfold round_timeout. change (34 >? 0) with true. cbv iota. rewrite (I t), (I (t * 1000000)) by lia.
    change (i64 (pow2_duration 34 * 1000000000)) with (-1266874889709551616). rewrite I; lia.
  - intros r Hr. rewrite E0. unfold round_timeout. zcases. rewrite (I t), (I (t * 1000000)) by lia.
    assert (i64 (pow2_duration r * 1000000000) = 0) as ->; [|rewrite Z.add_0_r; apply I; lia].
    unfold pow2_duration. zcases; [|done].
    replace r with ((r - 55) + 55) by lia. rewrite Z.pow_add_r by lia. unfold i64, u64.
    replace (2 ^ (r - 55) * 2 ^ 55 * 1000000000) with (2 ^ (r - 55) * 1953125 * 2 ^ 64) by lia.
    by rewrite Z.mod_mul by lia.
Qed.
