(* ===== verification/CoreWitness.v ===== *)
(** Concrete runs of the Istanbul state machine: four validators agree on a
    block.  The runs show that the hypotheses of the claims can hold. *)
From S2P Require Import Prelude RlpEncode RlpDecode RlpCodec RlpTheorems IstanbulTypes ValidatorSet ValidatorProps RoundState Backlog IstanbulCore CoreInv CoreTheorems.

(** ** A backend and a run *)

#[export] Instance the_crypto : Crypto := toy_crypto.

(** Block 0 is the head; node [self] signs with its address. *)
Definition sample_be (self : address) : Backend (Z * Z) := {|
  be_Address := self;
  be_Validators _ := sample_set 4;
  be_Commit _ _ := None;
  be_Verify _ := (0, None);
  be_Sign _ := inr self;
  be_LastProposal := (Some (0, 0), zero_address);
  be_HasPropsal _ _ := false;
  be_GetProposer _ := zero_address;
  be_ParentValidators _ := sample_set 4;
  be_HasBadProposal _ := false;
  be_RequestTimeout := 10000
|}.

Lemma sample_be_ok self : backend_ok (sample_be self).
Proof. constructor; [by exists (0, 0), zero_address|]. intros p. apply sample_set_ok. Qed.

Definition node : address := sample_address 2.

Definition run_event (be : Backend (Z * Z)) (c : core (Z * Z) listq) (ev : event (Z * Z)) : core (Z * Z) listq :=
  match handleEvent be ev (c, []) with Some (_, (c', _)) => c' | None => c end.

Definition started (be : Backend (Z * Z)) : core (Z * Z) listq :=
  match core_Start be (core_New be, []) with Some (_, (c, _)) => c | None => core_New be end.

Definition is_ok {A} (x : option A) : bool := match x with Some _ => true | None => false end.

Lemma started_reachable be :
  backend_ok be -> is_ok (core_Start be (core_New be : core (Z * Z) listq, [])) = true ->
  reachable (be_HasBadProposal be) (started be).
Proof.
  intros Hb E. unfold started. destruct (core_Start be (core_New be, [])) as [[[] [c fx]]|] eqn:S; [|done].
  by apply (reach_Start be c fx).
Qed.

Lemma run_reachable be c evs :
  backend_ok be -> reachable (be_HasBadProposal be) c ->
  reachable (be_HasBadProposal be) (fold_left (run_event be) evs c).
Proof.
  intros Hb. revert c. induction evs as [|ev evs IH]; intros c Hr; simpl; [done|]. apply IH.
  unfold run_event. destruct (handleEvent be ev (c, [])) as [[[] [c' fx]]|] eqn:E; [|done].
  by eapply (reach_event be (be_HasBadProposal be) c ev c' fx).
Qed.

Definition block : Z * Z := (1, 7).
Definition val (n : Z) : Validator := New (n - 1) (sample_address n).
Definition body (v : value) : bytes := rlp_enc v.
Definition subject : Subject := mkSubject (mkView 0 1) (toy_hash block).

Definition preprepare_msg : message :=
  mkMessage msgPreprepare (body (Preprepare_EncodeRLP (mkPreprepare (mkView 0 1) block))) (sample_address 1) [] [].
Definition commit_msg (n : Z) : message :=
  mkMessage msgCommit (body (Subject_EncodeRLP subject)) (sample_address n) [] [n].
Definition prepare_msg (n : Z) : message :=
  mkMessage msgPrepare (body (Subject_EncodeRLP subject)) (sample_address n) [] [].

Definition started_node : core (Z * Z) listq := started (sample_be node).

(** The PRE-PREPARE and two of the three COMMITs that make a quorum. *)
Definition almost : core (Z * Z) listq :=
  fold_left (run_event (sample_be node))
    [backlogEvent (val 1) preprepare_msg; backlogEvent (val 1) (commit_msg 1);
     backlogEvent (val 2) (commit_msg 2)] started_node.

Lemma started_node_reachable : reachable (fun _ => false) started_node.
Proof. apply (started_reachable (sample_be node) (sample_be_ok node)). vm_compute. reflexivity. Qed.

Lemma almost_reachable : reachable (fun _ => false) almost.
Proof. apply (run_reachable (sample_be node) _ _ (sample_be_ok node)), started_node_reachable. Qed.


Definition last_commit : event (Z * Z) := backlogEvent (val 3) (commit_msg 3).

Definition after_commit : core (Z * Z) listq := run_event (sample_be node) almost last_commit.

Definition commit_effects : list (effect (Z * Z)) :=
  match handleEvent (sample_be node) last_commit (almost, []) with Some (_, (_, fx)) => fx | None => [] end.


(** Two certificates of the same view for different blocks. *)
Definition vote (h : hash) (n : Z) : message :=
  mkMessage msgCommit (body (Subject_EncodeRLP (mkSubject (mkView 0 1) h))) (sample_address n) [] [].

Ltac certify :=
  split; [apply (bool_decide_unpack _); vm_compute; exact I|split; [vm_compute; reflexivity|]];
  repeat (apply Forall_cons; split;
    [split; [apply (bool_decide_unpack _); vm_compute; exact I|vm_compute; reflexivity]|]); apply Forall_nil_2.

Lemma vote_certificates :
  certificate (sample_set 4) (mkView 0 1) (toy_hash (1, 7)) (map (vote (toy_hash (1, 7))) [1; 2; 3]) /\
  certificate (sample_set 4) (mkView 0 1) (toy_hash (1, 8)) (map (vote (toy_hash (1, 8))) [2; 3; 4]).
Proof. split; certify. Qed.


Definition timeout_effects (c : core (Z * Z) listq) : list (effect (Z * Z)) :=
  match handleEvent (sample_be node) timeoutEvent (c, []) with Some (_, (_, fx)) => fx | None => [] end.

Lemma timeout_runs c :
  is_ok (handleEvent (sample_be node) timeoutEvent (c, [])) = true ->
  handleEvent (sample_be node) timeoutEvent (c, []) =
  Some (tt, (run_event (sample_be node) c timeoutEvent, timeout_effects c)).
Proof.
  unfold run_event, timeout_effects. by destruct (handleEvent _ _ _) as [[[] [c' fx]]|].
Qed.

Lemma view_never_decreases_witness :
  exists cur cur', c_current started_node = Some cur /\
    c_current (run_event (sample_be node) started_node timeoutEvent) = Some cur' /\
    view_le (view_of cur) (view_of cur').
Proof.
  apply (view_never_decreases (fun _ => false) started_node _ (sample_be node) timeoutEvent
    (timeout_effects started_node) started_node_reachable (sample_be_ok node)); [done|].
  apply timeout_runs. vm_compute. reflexivity.
Defined.

(** Three PREPAREs lock the block. *)
Definition locked : core (Z * Z) listq :=
  fold_left (run_event (sample_be node))
    [backlogEvent (val 1) preprepare_msg; backlogEvent (val 1) (prepare_msg 1);
     backlogEvent (val 3) (prepare_msg 3); backlogEvent (val 4) (prepare_msg 4)] started_node.

Lemma locked_reachable : reachable (fun _ => false) locked.
Proof. apply (run_reachable (sample_be node) _ _ (sample_be_ok node)), started_node_reachable. Qed.

Definition empty_round : roundState (Z * Z) :=
  newRoundState (mkView 0 0) (mkSet [] 0 None) zero_hash None None.

Definition round_of (c : core (Z * Z) listq) : roundState (Z * Z) := default empty_round (c_current c).

Lemma lock_persists_witness :
  rs_round (round_of (run_event (sample_be node) locked timeoutEvent)) = 1 /\
  rs_lockedHash (round_of (run_event (sample_be node) locked timeoutEvent)) = toy_hash block.
Proof.
  split; [vm_compute; reflexivity|].
  assert (E : rs_lockedHash (round_of locked) = toy_hash block) by (vm_compute; reflexivity). rewrite <- E.
  apply (lock_persists (fun _ => false) locked (run_event (sample_be node) locked timeoutEvent) (sample_be node)
    timeoutEvent (timeout_effects locked) (round_of locked)
    (round_of (run_event (sample_be node) locked timeoutEvent)) locked_reachable (sample_be_ok node)).
  - intros h Hh. exact Hh.
  - intros p seals. reflexivity.
  - apply timeout_runs. vm_compute. reflexivity.
  - vm_compute. reflexivity.
  - vm_compute. reflexivity.
  - vm_compute. reflexivity.
  - vm_compute. reflexivity.
Defined.

Definition sample_preprepare : Preprepare (Z * Z) := mkPreprepare (mkView 0 1) block.

Lemma quorum_commits_witness :
  exists c' fx seals,
    handleEvent (sample_be node) (backlogEvent (val 3) (commit_msg 3)) (almost, []) = Some (tt, (c', fx)) /\
    ECommit (pp_Proposal sample_preprepare) seals ∈ fx /\ c_state c' = StateCommitted.
Proof.
  apply (quorum_commits (fun _ => false) almost (sample_be node) (commit_msg 3) (val 3)
    (CalcProposer zero_address 0 (sample_set 4)) (round_of almost) sample_preprepare almost_reachable).
  - vm_compute. reflexivity.
  - vm_compute. reflexivity.
  - vm_compute. reflexivity.
  - vm_compute. discriminate.
  - vm_compute. discriminate.
  - vm_compute. reflexivity.
  - reflexivity.
  - vm_compute. reflexivity.
  - apply (bool_decide_unpack _). vm_compute. exact I.
  - vm_compute. reflexivity.
  - done.
Defined.

(** Validator 4 signs a COMMIT in the name of validator 3. *)
Definition forged : message :=
  mkMessage msgCommit (body (Subject_EncodeRLP subject)) (sample_address 3) (sample_address 4) [3].

Lemma forged_ok : message_ok forged.
Proof.
  split; [by split|]. split; [|split; [apply sample_address_ok|split]].
  - apply rlp_enc_ok; [apply Subject_value_ok; split; [done|]; exact (proposal_hash_ok (P := Z * Z) (1, 7))|vm_compute; reflexivity].
  - apply sample_address_ok.
  - apply Forall_singleton. unfold is_byte. lia.
Qed.

Lemma forged_sender_accepted_witness :
  handleMsg (sample_be node) (rlp_enc (message_EncodeRLP forged)) (almost, []) =
  handleCheckedMsg (sample_be node) forged (val 3) (almost, []).
Proof.
  apply (forged_sender_accepted (sample_be node) almost [] (CalcProposer zero_address 0 (sample_set 4)) forged
    (sample_address 4) 2 (val 3)).
  - vm_compute. reflexivity.
  - exact forged_ok.
  - vm_compute. reflexivity.
  - vm_compute. reflexivity.
  - vm_compute. reflexivity.
  - apply (bool_decide_unpack _). vm_compute. exact I.
  - vm_compute. reflexivity.
Defined.

Definition headless : Backend (Z * Z) :=
  mkBackend _ node (fun _ => sample_set 4) (fun _ _ => None) (fun _ => (0, None)) (fun _ => inr [])
    (None, zero_address) (fun _ _ => false) (fun _ => zero_address) (fun _ => sample_set 4) (fun _ => false) 10000.

Lemma nil_head_panics_witness : handleEvent headless FinalCommittedEvent (started_node, []) = None.
Proof.
  apply (nil_head_panics headless started_node zero_address); [|reflexivity].
  apply (bool_decide_unpack _). vm_compute. exact I.
Defined.

Lemma round_timeout_backoff_witness : round_timeout 10000 34 < 0.
Proof. apply (round_timeout_backoff 10000). lia. Defined.
