(* ===== verification/IstanbulHeader.v ===== *)
(** Block headers of the Istanbul engine: [Header] of [core/types/block.go],
    [core/types/istanbul.go], and the functions of
    [consensus/istanbul/backend/engine.go] that read and write the extra data
    of a header ([sigHash], [prepareExtra], [writeSeal],
    [writeCommittedSeals]).

    The extra data is 32 bytes of vanity followed by the RLP of the validators,
    the proposer's seal and the committed seals.  The seals are written after
    the block was hashed, so everything that is hashed or signed is first
    filtered: the lemmas here say which writes a hash can see. *)
From S2P Require Import Prelude BigMath RlpEncode RlpDecode RlpCodec RlpTheorems IstanbulTypes ValidatorSet ValidatorProps IstanbulCore.

(** ** Data *)

(** A [*big.Int] may be nil. *)
Record Header := mkHeader {
  h_ParentHash : hash;
  h_UncleHash : hash;
  h_Coinbase : address;
  h_Root : hash;
  h_TxHash : hash;
  h_ReceiptHash : hash;
  h_Bloom : bytes;
  h_Difficulty : option Z;
  h_Number : option Z;
  h_GasLimit : option Z;
  h_GasUsed : option Z;
  h_Time : option Z;
  h_Extra : bytes;
  h_MixDigest : hash;
  h_Nonce : bytes
}.

#[export] Instance Header_eq_dec : EqDecision Header.
Proof. solve_decision. Defined.

Definition set_Extra (e : bytes) (h : Header) : Header :=
  mkHeader (h_ParentHash h) (h_UncleHash h) (h_Coinbase h) (h_Root h) (h_TxHash h) (h_ReceiptHash h)
    (h_Bloom h) (h_Difficulty h) (h_Number h) (h_GasLimit h) (h_GasUsed h) (h_Time h) e
    (h_MixDigest h) (h_Nonce h).

(** [CopyHeader]: nil integers become zero. *)
Definition CopyHeader (h : Header) : Header :=
  let cpy x := Some (default 0 x) in
  mkHeader (h_ParentHash h) (h_UncleHash h) (h_Coinbase h) (h_Root h) (h_TxHash h) (h_ReceiptHash h)
    (h_Bloom h) (cpy (h_Difficulty h)) (cpy (h_Number h)) (cpy (h_GasLimit h)) (cpy (h_GasUsed h))
    (cpy (h_Time h)) (h_Extra h) (h_MixDigest h) (h_Nonce h).

(** The value the encoder sees. *)
Definition Header_value (h : Header) : value :=
  VStruct [VBytes (h_ParentHash h); VBytes (h_UncleHash h); VBytes (h_Coinbase h); VBytes (h_Root h);
           VBytes (h_TxHash h); VBytes (h_ReceiptHash h); VBytes (h_Bloom h); VBigInt (h_Difficulty h);
           VBigInt (h_Number h); VBigInt (h_GasLimit h); VBigInt (h_GasUsed h); VBigInt (h_Time h);
           VBytes (h_Extra h); VBytes (h_MixDigest h); VBytes (h_Nonce h)].

(** ** Errors of the engine

    [errOther] carries an error of the crypto library or of the packages
    [consensus] and [istanbul]; [errDb] stands for an error of the database or
    of the JSON library. *)
Inductive engine_err :=
| errInvalidProposal | errInvalidSignature | errUnknownBlock | errUnauthorized
| errInvalidDifficulty | errInvalidExtraDataFormat | errInvalidMixDigest | errInvalidNonce
| errInvalidUncleHash | errInvalidTimestamp | errInvalidVotingChain | errInvalidVote
| errInvalidCommittedSeals | errEmptyCommittedSeals | errMismatchTxhashes
| ErrInvalidIstanbulHeaderExtra | ErrUnknownAncestor | ErrBlacklistedHash
| ErrStartedEngine | ErrStoppedEngine | errDecodeFailed
| errExtraRlp (e : rlp_err) | errOther (e : core_err) | errDb.

#[export] Instance engine_err_eq_dec : EqDecision engine_err.
Proof. solve_decision. Defined.

(** ** Extra data *)

Definition IstanbulDigest : hash :=
  be_pad 32 0x63746963616c2062797a616e74696e65206661756c7420746f6c6572616e6365.

Definition IstanbulExtraVanity : Z := 32.

Record IstanbulExtra := mkExtra {
  x_Validators : list address;
  x_Seal : bytes;
  x_CommittedSeal : list bytes
}.

Definition IstanbulExtra_EncodeRLP (ist : IstanbulExtra) : value :=
  VSlice [VSlice (map VBytes (x_Validators ist)); VBytes (x_Seal ist);
          VSlice (map VBytes (x_CommittedSeal ist))].

Definition IstanbulExtra_DecodeRLP : SM IstanbulExtra :=
  let* (vs, (seal, (cs, _))) :=
    makeStructDecoder (field_cons (decodeListSlice (decodeByteArray AddressLength))
      (field_cons decodeByteSlice (field_cons (decodeListSlice decodeByteSlice) field_nil))) in
  sret (mkExtra vs seal cs).

Definition ExtractIstanbulExtra (h : Header) : outcome engine_err IstanbulExtra :=
  if zlen (h_Extra h) <? IstanbulExtraVanity then Err ErrInvalidIstanbulHeaderExtra
  else
    match DecodeBytes IstanbulExtra_DecodeRLP (drop (Z.to_nat IstanbulExtraVanity) (h_Extra h)) with
    | Ok ist => Ok ist
    | Err e => Err (errExtraRlp e)
    | Panic => Panic
    end.

(** [rlp.EncodeToBytes] of an extra behind the vanity of [h]. *)
Definition write_extra (h : Header) (ist : IstanbulExtra) : outcome engine_err bytes :=
  match EncodeToBytes (IstanbulExtra_EncodeRLP ist) with
  | Ok payload => Ok (take (Z.to_nat IstanbulExtraVanity) (h_Extra h) ++ payload)
  | Err e => Err (errExtraRlp e)
  | Panic => Panic
  end.

Definition IstanbulFilteredHeader (h : Header) (keepSeal : bool) : option Header :=
  let newHeader := CopyHeader h in
  match ExtractIstanbulExtra newHeader with
  | Ok ist =>
      let seal := if keepSeal then x_Seal ist else [] in
      match write_extra newHeader (mkExtra (x_Validators ist) seal []) with
      | Ok extra => Some (set_Extra extra newHeader)
      | _ => None
      end
  | _ => None
  end.

(** [prepareExtra]: the header (whose extra data is padded in place) and the
    new extra data. *)
Definition prepareExtra (header : Header) (vals : list address) : Header * outcome engine_err bytes :=
  let header' := if zlen (h_Extra header) <? IstanbulExtraVanity
    then set_Extra (h_Extra header ++
           replicate (Z.to_nat (IstanbulExtraVanity - zlen (h_Extra header))) 0) header
    else header in
  (header', write_extra header' (mkExtra vals [] [])).

Definition writeSeal (h : Header) (seal : bytes) : outcome engine_err Header :=
  if negb (zlen seal `mod` IstanbulExtraSeal =? 0) then Err errInvalidSignature
  else
    let! ist := ExtractIstanbulExtra h in
    let! extra := write_extra h (mkExtra (x_Validators ist) seal (x_CommittedSeal ist)) in
    Ok (set_Extra extra h).

Definition writeCommittedSeals (h : Header) (committedSeals : list bytes) : outcome engine_err Header :=
  if zlen committedSeals =? 0 then Err errInvalidCommittedSeals
  else if existsb (fun seal => negb (zlen seal =? IstanbulExtraSeal)) committedSeals
  then Err errInvalidCommittedSeals
  else
    let! ist := ExtractIstanbulExtra h in
    let! extra := write_extra h (mkExtra (x_Validators ist) (x_Seal ist) committedSeals) in
    Ok (set_Extra extra h).

(** ** Hashes *)

Section Hashes.
Context `{Crypto}.

(** [rlpHash]: the error of the encoder is ignored, the hash then is the one of
    no input. *)
Definition rlpHash (v : value) : hash :=
  match EncodeToBytes v with Ok b => Keccak256 b | _ => Keccak256 [] end.

Definition header_Hash (h : Header) : hash :=
  if bool_decide (h_MixDigest h = IstanbulDigest) then
    match IstanbulFilteredHeader h true with
    | Some istanbulHeader => rlpHash (Header_value istanbulHeader)
    | None => rlpHash (Header_value h)
    end
  else rlpHash (Header_value h).

Definition CalcUncleHash (uncles : list Header) : hash := rlpHash (VSlice (map Header_value uncles)).

Definition nilUncleHash : hash := CalcUncleHash [].

(** A header that cannot be filtered is encoded as a nil pointer. *)
Definition sigHash (h : Header) : hash :=
  rlpHash (match IstanbulFilteredHeader h false with
           | Some h' => Header_value h'
           | None => VNilStructPtr
           end).

End Hashes.

(** ** The codec of the extra data *)

Definition extra_ok (ist : IstanbulExtra) : Prop :=
  Forall is_address (x_Validators ist) /\ bytes_ok (x_Seal ist) /\ Forall bytes_ok (x_CommittedSeal ist).

Definition extra_enc (ist : IstanbulExtra) : bytes := rlp_enc (IstanbulExtra_EncodeRLP ist).

Lemma map_map_VBytes (l : list bytes) : map rlp_enc (map VBytes l) = map rlp_str l.
Proof. by rewrite map_map. Qed.

Lemma IstanbulExtra_codec : codec_ok extra_enc IstanbulExtra_DecodeRLP extra_ok.
Proof.
  unfold extra_enc.
  struct_codec_by
    (field_cons_body _ _ _ _ _ _ (slice_codec (byteArray_codec AddressLength ltac:(done)))
      (field_cons_body _ _ _ _ _ _ byteSlice_codec
        (field_cons_body _ _ _ _ _ _ (slice_codec byteSlice_codec) field_nil_body)))
    (fun a : list address * (bytes * (list bytes * unit)) => mkExtra a.1 a.2.1 a.2.2.1)
    (fun x => (x_Validators x, (x_Seal x, (x_CommittedSeal x, tt)))).
  - intros s. unfold IstanbulExtra_DecodeRLP, sbind.
    by destruct (makeStructDecoder _ s) as [[e|(v & sl & cs & u)] s'].
  - intros x. simpl. by rewrite !map_map_VBytes, app_nil_r.
  - intros [v sl cs] (? & ? & ?). simpl in *. repeat split; done.
  - intros (v & sl & cs & []) (? & ? & ? & _). repeat split; done.
Qed.

Lemma IstanbulExtra_value_ok ist : extra_ok ist -> value_ok (IstanbulExtra_EncodeRLP ist).
Proof.
  intros (Hv & Hs & Hc). apply ok_slice. repeat apply Forall_cons_2; try apply Forall_nil_2; constructor; auto.
  - apply Forall_map. eapply Forall_impl; [exact Hv|]. intros a [? _]. by constructor.
  - apply Forall_map. eapply Forall_impl; [exact Hc|]. intros a ?. by constructor.
Qed.

(** Extra data of a realistic size: the encodings of what is derived from it
    stay far below the limits of RLP. *)
Definition extra_fits (h : Header) : Prop := bytes_ok (h_Extra h) /\ zlen (h_Extra h) < 2 ^ 62.

Definition vanity (h : Header) : bytes := take (Z.to_nat IstanbulExtraVanity) (h_Extra h).

Lemma write_extra_ok h ist :
  extra_ok ist -> zlen (extra_enc ist) < 2 ^ 64 -> write_extra h ist = Ok (vanity h ++ extra_enc ist).
Proof.
  intros Hx Hz. unfold write_extra. by rewrite EncodeToBytes_ref by (auto using IstanbulExtra_value_ok).
Qed.

Lemma extra_enc_bytes_ok ist : extra_ok ist -> zlen (extra_enc ist) < 2 ^ 64 -> bytes_ok (extra_enc ist).
Proof. intros. apply rlp_enc_ok; auto using IstanbulExtra_value_ok. Qed.

Lemma Extract_sound h ist :
  extra_fits h -> ExtractIstanbulExtra h = Ok ist ->
  extra_ok ist /\ h_Extra h = vanity h ++ extra_enc ist /\ zlen (vanity h) = IstanbulExtraVanity.
Proof.
  intros [Hb Hz]. unfold ExtractIstanbulExtra, vanity. set (v := Z.to_nat IstanbulExtraVanity). zcase; [done|].
  destruct (DecodeBytes _ _) as [x|e|] eqn:D; intros [= ->].
  destruct (DecodeBytes_sound IstanbulExtra_codec _ _ ltac:(split; [by apply Forall_drop|
    unfold zlen in *; rewrite length_drop; lia]) D) as [Hx E].
  split; [done|]. split; [by rewrite <- E, take_drop|].
  unfold zlen, IstanbulExtraVanity in *. rewrite length_take. lia.
Qed.

Lemma Extract_complete h v ist :
  h_Extra h = v ++ extra_enc ist -> zlen v = IstanbulExtraVanity -> extra_ok ist ->
  zlen (extra_enc ist) < 2 ^ 64 -> ExtractIstanbulExtra h = Ok ist.
Proof.
  intros E Hv Hx Hz. unfold ExtractIstanbulExtra. rewrite E. zcase; [zlen_lia|].
  rewrite <- Hv, drop_zlen_app.
  rewrite (DecodeBytes_complete IstanbulExtra_codec ist); [done|done|].
  split; [by apply extra_enc_bytes_ok|done].
Qed.

Lemma zlen_extra_enc_le x y :
  zlen (extra_enc y) < 2 ^ 62 -> x_Validators x = x_Validators y ->
  (x_Seal x = x_Seal y \/ x_Seal x = []) -> x_CommittedSeal x = [] ->
  zlen (extra_enc x) <= zlen (extra_enc y) + 8.
Proof.
  destruct x as [vs s cs], y as [vs' s' cs']. simpl. intros Hy -> Hs ->.
  unfold extra_enc in *. simpl in *. rewrite app_nil_r in Hy |- *.
  set (a := rlp_list (concat _)) in *. pose proof (rlp_str_nonempty s').
  pose proof (zlen_rlp_list_ge (a ++ rlp_str s' ++ rlp_list (concat (map rlp_enc (map VBytes cs'))))).
  assert (zlen (rlp_str s) <= zlen (rlp_str s')).
  { destruct Hs as [->| ->]; [done|]. change (zlen (rlp_str [])) with 1. lia. }
  pose proof (zlen_rlp_list_ge (concat (map rlp_enc (map VBytes cs')))).
  assert (B : forall p, zlen p < 2 ^ 62 -> zlen (rlp_list p) <= zlen p + 9).
  { intros p Hp. unfold rlp_list. rewrite zlen_app. unfold rlp_head. zcase; [by rewrite zlen_cons, zlen_nil; lia|].
    rewrite zlen_cons. unfold be_bytes. rewrite zlen_be_pad.
    pose proof (byte_len_bounds (zlen p) ltac:(lia)).
    destruct (Z.le_gt_cases (Z.of_nat (byte_len (zlen p))) 8); [lia|].
    pose proof (Z.pow_le_mono_r 256 8 (Z.of_nat (byte_len (zlen p)) - 1)). lia. }
  specialize (B (a ++ rlp_str s ++ [192 + zlen (@nil Z)])). autorewrite with bytes_db in *.
  pose proof (zlen_nonneg (concat (map rlp_enc (map VBytes cs')))). lia.
Qed.

(** ** What the filter keeps *)

Definition filter_extra (keepSeal : bool) (ist : IstanbulExtra) : IstanbulExtra :=
  mkExtra (x_Validators ist) (if keepSeal then x_Seal ist else []) [].

Lemma filter_extra_ok keepSeal ist : extra_ok ist -> extra_ok (filter_extra keepSeal ist).
Proof. intros (? & ? & ?). repeat split; simpl; auto. by destruct keepSeal. Qed.

Lemma zlen_filter_extra h ist keepSeal :
  extra_fits h -> ExtractIstanbulExtra h = Ok ist -> zlen (extra_enc (filter_extra keepSeal ist)) < 2 ^ 63.
Proof.
  intros Hf E. destruct (Extract_sound h ist Hf E) as (_ & Ee & Hv). destruct Hf as [_ Hz]. rewrite Ee in Hz.
  assert (zlen (extra_enc ist) < 2 ^ 62) by zlen_lia.
  enough (zlen (extra_enc (filter_extra keepSeal ist)) <= zlen (extra_enc ist) + 8) by lia.
  apply zlen_extra_enc_le; simpl; auto. destruct keepSeal; auto.
Qed.

Lemma Filtered_some h ist keepSeal :
  extra_fits h -> ExtractIstanbulExtra h = Ok ist ->
  IstanbulFilteredHeader h keepSeal =
    Some (set_Extra (vanity h ++ extra_enc (filter_extra keepSeal ist)) (CopyHeader h)).
Proof.
  intros Hf E. unfold IstanbulFilteredHeader.
  change (ExtractIstanbulExtra (CopyHeader h)) with (ExtractIstanbulExtra h). rewrite E.
  pose proof (zlen_filter_extra h ist keepSeal Hf E).
  destruct (Extract_sound h ist Hf E) as (Hx & _ & _).
  change (mkExtra _ _ []) with (filter_extra keepSeal ist).
  rewrite write_extra_ok; [done|by apply filter_extra_ok|lia].
Qed.

(** A write of new extra data behind the vanity, as all three writers do it. *)
Lemma rewrite_extra h h' ist ist' :
  extra_fits h -> ExtractIstanbulExtra h = Ok ist -> extra_ok ist' -> zlen (extra_enc ist') < 2 ^ 62 - 32 ->
  h' = set_Extra (vanity h ++ extra_enc ist') h ->
  extra_fits h' /\ ExtractIstanbulExtra h' = Ok ist' /\ vanity h' = vanity h.
Proof.
  intros Hf E Hx Hz ->. destruct (Extract_sound h ist Hf E) as (_ & _ & Hv).
  pose proof Hf as [Hb _]. split; [|split].
  - split; simpl; [|unfold IstanbulExtraVanity in *; zlen_lia].
    apply Forall_app. split; [by apply Forall_take|apply extra_enc_bytes_ok; [done|lia]].
  - by apply (Extract_complete _ (vanity h)); simpl; [..|lia].
  - unfold vanity at 1. simpl. rewrite <- Hv. apply take_zlen_app.
Qed.

Lemma Filtered_rewrite h ist ist' keepSeal :
  extra_fits h -> ExtractIstanbulExtra h = Ok ist -> extra_ok ist' -> zlen (extra_enc ist') < 2 ^ 62 - 32 ->
  filter_extra keepSeal ist' = filter_extra keepSeal ist ->
  IstanbulFilteredHeader (set_Extra (vanity h ++ extra_enc ist') h) keepSeal = IstanbulFilteredHeader h keepSeal.
Proof.
  intros Hf E Hx Hz Ek.
  destruct (rewrite_extra h _ ist ist' Hf E Hx Hz eq_refl) as (Hf' & E' & Ev).
  rewrite (Filtered_some _ ist' keepSeal Hf' E'), (Filtered_some h ist keepSeal Hf E), Ev, Ek. done.
Qed.

Definition seal_sized (seal : bytes) : Prop := bytes_ok seal /\ zlen seal = IstanbulExtraSeal.

Lemma seals_sized_bytes l : Forall seal_sized l -> Forall bytes_ok l.
Proof. intros Hl. eapply Forall_impl; [exact Hl|]. by intros s []. Qed.

Lemma existsb_sized l :
  Forall seal_sized l -> existsb (fun seal => negb (zlen seal =? IstanbulExtraSeal)) l = false.
Proof.
  induction 1 as [|s l [_ Hs] Hl IH]; simpl; [done|]. rewrite Hs, IH. done.
Qed.

Lemma writeCommittedSeals_ok h ist seals :
  extra_fits h -> ExtractIstanbulExtra h = Ok ist -> seals <> [] -> Forall seal_sized seals ->
  zlen (extra_enc (mkExtra (x_Validators ist) (x_Seal ist) seals)) < 2 ^ 62 - 32 ->
  writeCommittedSeals h seals =
    Ok (set_Extra (vanity h ++ extra_enc (mkExtra (x_Validators ist) (x_Seal ist) seals)) h).
Proof.
  intros Hf E Hne Hs Hz. destruct (Extract_sound h ist Hf E) as ((Hv & Hsl & _) & _ & _).
  unfold writeCommittedSeals. zcase; [apply zlen_0_inv in Heqb; done|]. rewrite existsb_sized, E by done. simpl.
  rewrite write_extra_ok; [done| |lia]. repeat split; simpl; auto using seals_sized_bytes.
Qed.

Lemma writeSeal_ok h ist seal :
  extra_fits h -> ExtractIstanbulExtra h = Ok ist -> bytes_ok seal -> zlen seal `mod` IstanbulExtraSeal = 0 ->
  zlen (extra_enc (mkExtra (x_Validators ist) seal (x_CommittedSeal ist))) < 2 ^ 62 - 32 ->
  writeSeal h seal = Ok (set_Extra (vanity h ++ extra_enc (mkExtra (x_Validators ist) seal (x_CommittedSeal ist))) h).
Proof.
  intros Hf E Hb Hm Hz. destruct (Extract_sound h ist Hf E) as ((Hv & _ & Hc) & _ & _).
  unfold writeSeal. zcase; [done|]. rewrite E. simpl. rewrite write_extra_ok; [done| |lia]. repeat split; done.
Qed.

Lemma prepareExtra_ok h vals :
  extra_fits h -> Forall is_address vals -> zlen (extra_enc (mkExtra vals [] [])) < 2 ^ 62 - 32 ->
  exists h1 v, prepareExtra h vals = (h1, Ok (v ++ extra_enc (mkExtra vals [] []))) /\
    zlen v = IstanbulExtraVanity /\ bytes_ok v /\
    v = take (Z.to_nat IstanbulExtraVanity) (h_Extra h ++ replicate (Z.to_nat IstanbulExtraVanity) 0).
Proof.
  intros [Hb Hz] Hv Hx. unfold prepareExtra.
  match goal with |- context [(?h1, _)] => set (h1' := h1) end.
  assert (E : vanity h1' = take (Z.to_nat IstanbulExtraVanity) (h_Extra h ++ replicate (Z.to_nat IstanbulExtraVanity) 0)).
  { unfold h1', vanity, zlen, IstanbulExtraVanity in *. change (Z.to_nat 32) with 32%nat. zcase; cbn [h_Extra set_Extra].
    - set (k := length (h_Extra h)) in *. replace (Z.to_nat (32 - Z.of_nat k)) with (32 - k)%nat by lia.
      replace (replicate 32 0) with (replicate (32 - k) 0 ++ replicate k 0)
        by (rewrite <- replicate_add; f_equal; lia).
      rewrite app_assoc. symmetry. apply take_app_le. rewrite length_app, length_replicate. lia.
    - by rewrite take_app_le by lia. }
  exists h1', (vanity h1'). split; [|split; [|split; [|done]]].
  - rewrite write_extra_ok; [done| |lia]. repeat split; simpl; auto.
  - rewrite E. unfold zlen, IstanbulExtraVanity. rewrite length_take, length_app, length_replicate. lia.
  - rewrite E. apply Forall_take, Forall_app. split; [done|]. apply Forall_replicate. unfold is_byte. lia.
Qed.

Lemma writeCommittedSeals_inv h seals h' :
  extra_fits h -> Forall bytes_ok seals -> writeCommittedSeals h seals = Ok h' ->
  exists ist, ExtractIstanbulExtra h = Ok ist /\ seals <> [] /\ Forall seal_sized seals.
Proof.
  intros Hf Hb. unfold writeCommittedSeals. zcase; [done|].
  destruct (existsb _ seals) eqn:X; [done|]. destruct (ExtractIstanbulExtra h) as [ist|e|]; simpl; [|done..].
  intros _. exists ist. split; [done|]. split; [by intros ->|].
  apply Forall_forall. intros s Hs. split; [by eapply Forall_forall in Hb|].
  destruct (Z.eq_dec (zlen s) IstanbulExtraSeal) as [|Hne]; [done|]. exfalso.
  rewrite <- not_true_iff_false in X. apply X. apply existsb_exists. exists s.
  split; [by apply list_elem_of_In|]. apply negb_true_iff, Z.eqb_neq. done.
Qed.

Section HashLemmas.
Context `{Crypto}.

Lemma header_Hash_filtered h h' :
  h_MixDigest h = IstanbulDigest -> h_MixDigest h' = h_MixDigest h ->
  IstanbulFilteredHeader h' true = IstanbulFilteredHeader h true ->
  is_Some (IstanbulFilteredHeader h true) -> header_Hash h' = header_Hash h.
Proof.
  intros Hm Hm' E [hf Hs]. unfold header_Hash. rewrite Hm', Hm, E, Hs. done.
Qed.

(** Committed seals are invisible to the hash of a block and to what its
    proposer signs. *)
Lemma committed_invisible h ist seals h' :
  extra_fits h -> ExtractIstanbulExtra h = Ok ist -> h_MixDigest h = IstanbulDigest ->
  seals <> [] -> Forall seal_sized seals ->
  zlen (extra_enc (mkExtra (x_Validators ist) (x_Seal ist) seals)) < 2 ^ 62 - 32 ->
  writeCommittedSeals h seals = Ok h' ->
  extra_fits h' /\ header_Hash h' = header_Hash h /\ sigHash h' = sigHash h /\ vanity h' = vanity h /\
  ExtractIstanbulExtra h' = Ok (mkExtra (x_Validators ist) (x_Seal ist) seals).
Proof.
  intros Hf E Hm Hne Hs Hz W. rewrite (writeCommittedSeals_ok h ist seals) in W by done. injection W as <-.
  destruct (Extract_sound h ist Hf E) as ((Hv & Hsl & _) & _ & _).
  assert (Hx : extra_ok (mkExtra (x_Validators ist) (x_Seal ist) seals))
    by (repeat split; simpl; auto using seals_sized_bytes).
  destruct (rewrite_extra h _ ist _ Hf E Hx Hz eq_refl) as (Hf' & E' & Ev).
  split; [done|]. repeat split_and; auto.
  - apply header_Hash_filtered; [done..| |].
    + by apply (Filtered_rewrite h ist).
    + rewrite (Filtered_some h ist true Hf E). eauto.
  - unfold sigHash. by rewrite (Filtered_rewrite h ist _ false Hf E Hx Hz eq_refl).
Qed.

Lemma seal_invisible h ist seal h' :
  extra_fits h -> ExtractIstanbulExtra h = Ok ist -> bytes_ok seal -> zlen seal `mod` IstanbulExtraSeal = 0 ->
  zlen (extra_enc (mkExtra (x_Validators ist) seal (x_CommittedSeal ist))) < 2 ^ 62 - 32 ->
  writeSeal h seal = Ok h' ->
  extra_fits h' /\ sigHash h' = sigHash h /\ vanity h' = vanity h /\ h_MixDigest h' = h_MixDigest h /\
  ExtractIstanbulExtra h' = Ok (mkExtra (x_Validators ist) seal (x_CommittedSeal ist)).
Proof.
  intros Hf E Hb Hs Hz W. rewrite (writeSeal_ok h ist seal) in W by done. injection W as <-.
  destruct (Extract_sound h ist Hf E) as ((Hv & _ & Hc) & _ & _).
  assert (Hx : extra_ok (mkExtra (x_Validators ist) seal (x_CommittedSeal ist))) by (repeat split; simpl; auto).
  destruct (rewrite_extra h _ ist _ Hf E Hx Hz eq_refl) as (Hf' & E' & Ev).
  split; [done|]. repeat split_and; auto.
  unfold sigHash. by rewrite (Filtered_rewrite h ist _ false Hf E Hx Hz eq_refl).
Qed.

End HashLemmas.

(** ** Claims *)

(** the life of the extra data.  A header is prepared with the validators of
    its parent, sealed by its proposer and later completed with the committed
    seals: every write succeeds, the final extra data decodes to exactly these
    three parts behind the unchanged (zero-padded) vanity, the hash the
    proposer signed is still the one recomputed from the final header, and the
    committed seals do not change the hash of the block. *)
Theorem seal_lifecycle `{Crypto} (h : Header) (vals : list address) (seal : bytes) (seals : list bytes) :
  extra_fits h -> h_MixDigest h = IstanbulDigest -> Forall is_address vals ->
  seal_sized seal -> seals <> [] -> Forall seal_sized seals ->
  zlen (extra_enc (mkExtra vals seal seals)) < 2 ^ 61 ->
  exists h1 e h2 h3,
    prepareExtra h vals = (h1, Ok e) /\
    writeSeal (set_Extra e h) seal = Ok h2 /\ writeCommittedSeals h2 seals = Ok h3 /\
    ExtractIstanbulExtra h3 = Ok (mkExtra vals seal seals) /\
    vanity h3 = take 32 (h_Extra h ++ replicate 32 0) /\
    sigHash h3 = sigHash (set_Extra e h) /\ header_Hash h3 = header_Hash h2.
Proof.
  intros Hf Hm Hv [Hsb Hsl] Hne Hss Hz.
  assert (Z1 : zlen (extra_enc (mkExtra vals [] [])) <= zlen (extra_enc (mkExtra vals seal seals)) + 8)
    by (apply zlen_extra_enc_le; simpl; auto; lia).
  assert (Z2 : zlen (extra_enc (mkExtra vals seal [])) <= zlen (extra_enc (mkExtra vals seal seals)) + 8)
    by (apply zlen_extra_enc_le; simpl; auto; lia).
  destruct (prepareExtra_ok h vals Hf Hv ltac:(lia)) as (h1 & v & Ep & Lv & Bv & Ev).
  set (h' := set_Extra (v ++ extra_enc (mkExtra vals [] [])) h).
  assert (X0 : extra_ok (mkExtra vals [] [])) by (repeat split; simpl; auto).
  assert (E0 : ExtractIstanbulExtra h' = Ok (mkExtra vals [] [])) by (apply (Extract_complete h' v); auto; lia).
  assert (F0 : extra_fits h').
  { split; simpl; [apply Forall_app; split; [done|apply extra_enc_bytes_ok; [done|lia]]|].
    unfold IstanbulExtraVanity in *. zlen_lia. }
  assert (V0 : vanity h' = v) by (unfold vanity; simpl; rewrite <- Lv; apply take_zlen_app).
  pose proof (writeSeal_ok h' _ seal F0 E0 Hsb ltac:(by rewrite Hsl) ltac:(simpl; lia)) as W1.
  destruct (seal_invisible h' _ seal _ F0 E0 Hsb ltac:(by rewrite Hsl) ltac:(simpl; lia) W1) as (F1 & S1 & V1 & M1 & E1).
  set (h2 := set_Extra _ h') in W1, F1, E1. simpl in E1.
  pose proof (writeCommittedSeals_ok h2 _ seals F1 E1 Hne Hss ltac:(simpl; lia)) as W2.
  destruct (committed_invisible h2 _ seals _ F1 E1 Hm Hne Hss ltac:(simpl; lia) W2) as (F2 & S2 & H2 & V2 & E2).
  eexists h1, _, h2, _. split; [exact Ep|]. split; [exact W1|]. split; [exact W2|]. split; [exact E2|].
  split; [by rewrite V2; unfold h2; rewrite V1, V0, Ev|]. split; [by rewrite H2|done].
Qed.

(** ** Witness *)

Definition sample_header (n : Z) : Header :=
  mkHeader (be_pad 32 n) (be_pad 32 7) zero_address zero_hash zero_hash zero_hash (replicate 256 0)
    (Some 1) (Some (n + 1)) (Some 0) (Some 0) (Some 100) [1; 2; 3] IstanbulDigest (replicate 8 0).

Definition sample_seal (n : Z) : bytes := be_pad 65 n.

Lemma sample_seal_sized n : seal_sized (sample_seal n).
Proof. split; [apply be_pad_ok|apply zlen_be_pad]. Qed.

Lemma seal_lifecycle_witness :
  exists h1 e h2 h3,
    prepareExtra (sample_header 0) [sample_address 1] = (h1, Ok e) /\
    writeSeal (set_Extra e (sample_header 0)) (sample_seal 5) = Ok h2 /\
    writeCommittedSeals h2 [sample_seal 6] = Ok h3.
Proof.
  destruct (@seal_lifecycle toy_crypto (sample_header 0) [sample_address 1] (sample_seal 5) [sample_seal 6])
    as (h1 & e & h2 & h3 & E1 & E2 & E3 & _).
  - split; [|vm_compute; reflexivity]. change (bytes_ok [1; 2; 3]).
    repeat (apply Forall_cons; split; [unfold is_byte; lia|]). apply Forall_nil_2.
  - reflexivity.
  - apply Forall_singleton, sample_address_ok.
  - apply sample_seal_sized.
  - discriminate.
  - apply Forall_singleton, sample_seal_sized.
  - vm_compute. reflexivity.
  - exists h1, e, h2, h3. split; [exact E1|]. split; [exact E2|exact E3].
Defined.
