(* ===== verification/Snapshot.v ===== *)
(** Validator votes: [consensus/istanbul/backend/snapshot.go] and [ecrecover]
    of [engine.go].

    A snapshot is the validator set at one block with the votes that are
    pending there.  [Tally] caches the number of votes per candidate; the
    abstract state [ballot] of [SnapshotProps] has no tally, and the proofs
    there say that the cache is always right.

    The address cache of [ecrecover] is an instance of the interface [ARCCache]
    ([hashicorp/golang-lru]), of which only this is used: a cache may forget,
    but what it returns was added under that key. *)
From S2P Require Import Prelude BigMath RlpEncode RlpDecode IstanbulTypes ValidatorSet ValidatorProps IstanbulCore IstanbulHeader Storage.

(** ** Caches *)

Class ARCCache (T : Type -> Type) := {
  arc_New {V} : T V;
  arc_Get {V} : bytes -> T V -> option V * T V;
  arc_Add {V} : bytes -> V -> T V -> T V
}.

Class ARCLaws (T : Type -> Type) `{ARCCache T} := {
  arc_has {V} : T V -> bytes -> V -> Prop;
  arc_has_New {V} k (v : V) : ~ arc_has arc_New k v;
  arc_Get_has {V} k (v : V) c c' : arc_Get k c = (Some v, c') -> arc_has c k v;
  arc_has_Get {V} k k' (v : V) o c c' : arc_Get k c = (o, c') -> arc_has c' k' v -> arc_has c k' v;
  arc_has_Add {V} k (v : V) k' v' c :
    arc_has (arc_Add k v c) k' v' -> (k' = k /\ v' = v) \/ arc_has c k' v'
}.

(** ** Effects: shared state and the results of Go calls *)

Definition EM (S A : Type) : Type := S -> outcome engine_err A * S.

#[export] Instance EM_ret S : MRet (EM S) := fun A a s => (Ok a, s).
#[export] Instance EM_bind S : MBind (EM S) := fun A B f m s =>
  match m s with
  | (Ok a, s') => f a s'
  | (Err e, s') => (Err e, s')
  | (Panic, s') => (Panic, s')
  end.

Definition lift {S A} (x : outcome engine_err A) : EM S A := fun s => (x, s).
Definition throw {S A} (e : engine_err) : EM S A := lift (Err e).

(** [header.Number.Uint64()]; a nil number is a panic. *)
Definition header_number (h : Header) : outcome engine_err Z :=
  match h_Number h with None => Panic | Some n => Ok (big_Uint64 n) end.

(** ** Data *)

Record Vote := mkVote {
  vt_Validator : address;
  vt_Block : Z;
  vt_Address : address;
  vt_Authorize : bool
}.

#[export] Instance Vote_eq_dec : EqDecision Vote.
Proof. solve_decision. Defined.

Record Tally := mkTally { ty_Authorize : bool; ty_Votes : Z }.

#[export] Instance Tally_eq_dec : EqDecision Tally.
Proof. solve_decision. Defined.

Record Snapshot := mkSnapshot {
  s_Epoch : Z;
  s_Number : Z;
  s_Hash : hash;
  s_Votes : list Vote;
  s_Tally : gmap address Tally;
  s_ValSet : defaultSet
}.

Definition set_Votes (l : list Vote) (s : Snapshot) : Snapshot :=
  mkSnapshot (s_Epoch s) (s_Number s) (s_Hash s) l (s_Tally s) (s_ValSet s).
Definition set_Tally (t : gmap address Tally) (s : Snapshot) : Snapshot :=
  mkSnapshot (s_Epoch s) (s_Number s) (s_Hash s) (s_Votes s) t (s_ValSet s).
Definition set_ValSet (v : defaultSet) (s : Snapshot) : Snapshot :=
  mkSnapshot (s_Epoch s) (s_Number s) (s_Hash s) (s_Votes s) (s_Tally s) v.

Definition nonceAuthVote : bytes := replicate 8 0xff.
Definition nonceDropVote : bytes := replicate 8 0.

Section Votes.
Context `{Crypto}.

Definition newSnapshot (epoch number : Z) (h : hash) (valSet : defaultSet) : Snapshot :=
  mkSnapshot epoch number h [] ∅ valSet.

Definition copy (fresh : Z) (s : Snapshot) : Snapshot :=
  mkSnapshot (s_Epoch s) (s_Number s) (s_Hash s) (s_Votes s) (s_Tally s) (set_Copy fresh (s_ValSet s)).

Definition checkVote (s : Snapshot) (addr : address) (authorize : bool) : bool :=
  match GetByAddress (s_ValSet s) addr with
  | (_, Some _) => negb authorize
  | (_, None) => authorize
  end.

Definition cast (addr : address) (authorize : bool) (s : Snapshot) : bool * Snapshot :=
  if negb (checkVote s addr authorize) then (false, s)
  else
    let t := match s_Tally s !! addr with
             | Some old => mkTally (ty_Authorize old) (ty_Votes old + 1)
             | None => mkTally authorize 1
             end in
    (true, set_Tally (<[addr := t]> (s_Tally s)) s).

Definition uncast (addr : address) (authorize : bool) (s : Snapshot) : bool * Snapshot :=
  match s_Tally s !! addr with
  | None => (false, s)
  | Some tally =>
      if negb (Bool.eqb (ty_Authorize tally) authorize) then (false, s)
      else if ty_Votes tally >? 1
      then (true, set_Tally (<[addr := mkTally (ty_Authorize tally) (ty_Votes tally - 1)]> (s_Tally s)) s)
      else (true, set_Tally (delete addr (s_Tally s)) s)
  end.

(** *** The body of [apply] *)

(** The first vote of [validator] about [coinbase], and the list without it. *)
Fixpoint previous_vote (validator coinbase : address) (l : list Vote) : option (Vote * list Vote) :=
  match l with
  | [] => None
  | vote :: l' =>
      if bool_decide (vt_Validator vote = validator) && bool_decide (vt_Address vote = coinbase)
      then Some (vote, l')
      else (fun r => (r.1, vote :: r.2)) <$> previous_vote validator coinbase l'
  end.

Definition discard_previous (validator coinbase : address) (s : Snapshot) : Snapshot :=
  match previous_vote validator coinbase (s_Votes s) with
  | None => s
  | Some (vote, l) => set_Votes l (uncast (vt_Address vote) (vt_Authorize vote) s).2
  end.

(** The votes of a deauthorized validator: what is left of the list, and the
    snapshot with the tally corrected. *)
Fixpoint discard_cast_by (who : address) (l : list Vote) (s : Snapshot) : list Vote * Snapshot :=
  match l with
  | [] => ([], s)
  | vote :: l' =>
      if bool_decide (vt_Validator vote = who)
      then discard_cast_by who l' (uncast (vt_Address vote) (vt_Authorize vote) s).2
      else let '(kept, s') := discard_cast_by who l' s in (vote :: kept, s')
  end.

Fixpoint discard_about (who : address) (l : list Vote) : list Vote :=
  match l with
  | [] => []
  | vote :: l' => if bool_decide (vt_Address vote = who) then discard_about who l'
                  else vote :: discard_about who l'
  end.

(** A vote that passed. *)
Definition pass_vote (fresh : Z) (coinbase : address) (tally : Tally) (s : Snapshot) : Snapshot :=
  let s1 :=
    if ty_Authorize tally then set_ValSet (AddValidator fresh coinbase (s_ValSet s)).2 s
    else
      let s' := set_ValSet (RemoveValidator coinbase (s_ValSet s)).2 s in
      let '(kept, s'') := discard_cast_by coinbase (s_Votes s') s' in
      set_Votes kept s'' in
  let s2 := set_Votes (discard_about coinbase (s_Votes s1)) s1 in
  set_Tally (delete coinbase (s_Tally s2)) s2.

(** One header of [apply] once its signer is known. *)
Definition apply_vote (fresh : Z) (validator : address) (number : Z) (header : Header) (snap : Snapshot)
    : outcome engine_err Snapshot :=
  match GetByAddress (s_ValSet snap) validator with
  | (_, None) => Err errUnauthorized
  | (_, Some _) =>
      let snap := discard_previous validator (h_Coinbase header) snap in
      let! authorize :=
        (if bool_decide (h_Nonce header = nonceAuthVote) then Ok true
         else if bool_decide (h_Nonce header = nonceDropVote) then Ok false
         else Err errInvalidVote) in
      let snap :=
        match cast (h_Coinbase header) authorize snap with
        | (true, s') =>
            set_Votes (s_Votes s' ++ [mkVote validator number (h_Coinbase header) authorize]) s'
        | (false, s') => s'
        end in
      let tally := default (mkTally false 0) (s_Tally snap !! h_Coinbase header) in
      Ok (if ty_Votes tally >? Size (s_ValSet snap) / 2
          then pass_vote fresh (h_Coinbase header) tally snap else snap)
  end.

(** The reset at checkpoint blocks; an epoch of zero is a division by zero. *)
Definition epoch_reset (epoch number : Z) (snap : Snapshot) : outcome engine_err Snapshot :=
  if epoch =? 0 then Panic
  else Ok (if number `mod` epoch =? 0 then set_Tally ∅ (set_Votes [] snap) else snap).

(** [ecrecover] without its cache. *)
Definition recover_signer (header : Header) : outcome engine_err address :=
  let! ist := ExtractIstanbulExtra header in
  match GetSignatureAddress (sigHash header) (x_Seal ist) with
  | Ok a => Ok a
  | Err e => Err (errOther e)
  | Panic => Panic
  end.

Section Apply.
Context {T : Type -> Type} `{ARCCache T}.

Definition ecrecover (header : Header) : EM (T address) address := fun c =>
  let h := header_Hash header in
  match arc_Get h c with
  | (Some addr, c') => (Ok addr, c')
  | (None, c') =>
      match recover_signer header with
      | Ok addr => (Ok addr, arc_Add h addr c')
      | x => (x, c')
      end
  end.

Definition apply_header (fresh epoch : Z) (snap : Snapshot) (header : Header) : EM (T address) Snapshot :=
  number ← lift (header_number header);
  snap ← lift (epoch_reset epoch number snap);
  validator ← ecrecover header;
  lift (apply_vote fresh validator number header snap).

Fixpoint apply_headers (fresh epoch : Z) (snap : Snapshot) (headers : list Header) : EM (T address) Snapshot :=
  match headers with
  | [] => mret snap
  | header :: rest =>
      snap' ← apply_header fresh epoch snap header;
      apply_headers (fresh + 1) epoch snap' rest
  end.

(** The sanity checks at the head of [apply]. *)
Fixpoint check_contiguous (headers : list Header) : outcome engine_err unit :=
  match headers with
  | h1 :: (h2 :: _) as rest =>
      let! n2 := header_number h2 in
      let! n1 := header_number h1 in
      if negb (n2 =? u64 (n1 + 1)) then Err errInvalidVotingChain else check_contiguous rest
  | _ => Ok tt
  end.

Definition apply (fresh : Z) (s : Snapshot) (headers : list Header) : EM (T address) Snapshot :=
  match headers with
  | [] => mret s
  | first :: rest =>
      lift (check_contiguous headers);;
      n0 ← lift (header_number first);
      if negb (n0 =? u64 (s_Number s + 1)) then throw errInvalidVotingChain
      else
        let snap := copy fresh s in
        snap' ← apply_headers (fresh + Size (s_ValSet s)) (s_Epoch s) snap headers;
        mret (mkSnapshot (s_Epoch snap') (u64 (s_Number snap' + zlen headers))
                (header_Hash (List.last headers first)) (s_Votes snap') (s_Tally snap') (s_ValSet snap'))
  end.

End Apply.

(** ** The sorted list of validators *)

(** The inner loop of [validators()] for one [i]: [x] is at index [i], the list
    is what follows. *)
Fixpoint select_least (x : address) (l : list address) : address * list address :=
  match l with
  | [] => (x, [])
  | y :: l' =>
      if str_ltb y x then let '(m, r) := select_least y l' in (m, x :: r)
      else let '(m, r) := select_least x l' in (m, y :: r)
  end.

Fixpoint selection_sort (n : nat) (l : list address) : list address :=
  match n, l with
  | S n', x :: l' => let '(m, r) := select_least x l' in m :: selection_sort n' r
  | _, _ => l
  end.

Definition snap_validators (s : Snapshot) : list address :=
  let l := map v_address (validators (s_ValSet s)) in selection_sort (length l) l.

End Votes.

(** ** Persistence *)

Record snapshotJSON := mkSnapshotJSON {
  j_Epoch : Z;
  j_Number : Z;
  j_Hash : hash;
  j_Votes : list Vote;
  j_Tally : gmap address Tally;
  j_Validators : list address;
  j_Policy : Z
}.

(** The JSON library: values of the exported struct survive the round trip. *)
Class SnapshotCodec := {
  json_Marshal : snapshotJSON -> option bytes;
  json_Unmarshal : bytes -> option snapshotJSON
}.

Class SnapshotCodecLaws `{SnapshotCodec} := {
  json_roundtrip j b : json_Marshal j = Some b -> json_Unmarshal b = Some j
}.

(** "istanbul-snapshot" *)
Definition dbKeySnapshotPrefix : bytes :=
  [105; 115; 116; 97; 110; 98; 117; 108; 45; 115; 110; 97; 112; 115; 104; 111; 116].

Section Persistence.
Context `{Crypto} `{SnapshotCodec} {DB : Type} `{Database DB}.

Definition toJSONStruct (s : Snapshot) : snapshotJSON :=
  mkSnapshotJSON (s_Epoch s) (s_Number s) (s_Hash s) (s_Votes s) (s_Tally s) (snap_validators s)
    (policy (s_ValSet s)).

Definition fromJSONStruct (fresh : Z) (j : snapshotJSON) : Snapshot :=
  mkSnapshot (j_Epoch j) (j_Number j) (j_Hash j) (j_Votes j) (j_Tally j)
    (newDefaultSet fresh (j_Validators j) (j_Policy j)).

Definition UnmarshalJSON (fresh : Z) (b : bytes) : outcome engine_err Snapshot :=
  match json_Unmarshal b with
  | None => Err errDb
  | Some j => Ok (fromJSONStruct fresh j)
  end.

Definition MarshalJSON (s : Snapshot) : outcome engine_err bytes :=
  match json_Marshal (toJSONStruct s) with None => Err errDb | Some b => Ok b end.

Definition loadSnapshot (fresh epoch : Z) (h : hash) : EM DB Snapshot := fun db =>
  match db_Get (dbKeySnapshotPrefix ++ h) db with
  | None => (Err errDb, db)
  | Some blob =>
      match UnmarshalJSON fresh blob with
      | Ok snap =>
          (Ok (mkSnapshot epoch (s_Number snap) (s_Hash snap) (s_Votes snap) (s_Tally snap) (s_ValSet snap)), db)
      | x => (x, db)
      end
  end.

Definition store (s : Snapshot) : EM DB unit := fun db =>
  match MarshalJSON s with
  | Ok blob =>
      match db_Put (dbKeySnapshotPrefix ++ s_Hash s) blob db with
      | None => (Err errDb, db)
      | Some db' => (Ok tt, db')
      end
  | Err e => (Err e, db)
  | Panic => (Panic, db)
  end.

End Persistence.
