(* ===== verification/HeaderHash.v ===== *)
(** What the hash of a header binds.

    The RLP codec of [types.Header], and: the hash of a header is the hash of
    its normal form, which is the header without its committed seals; two
    headers with one hash agree on everything else, unless Keccak collides. *)
From S2P Require Import Prelude RlpEncode RlpDecode RlpCodec RlpTheorems IstanbulTypes ValidatorSet ValidatorProps IstanbulCore IstanbulHeader Snapshot.

(** ** The codec of headers *)

(** The struct decoder of [Header]: fixed arrays, big integers and the extra
    data, in the order of the fields. *)
Definition Header_DecodeRLP : SM Header :=
  let* (ph, (uh, (cb, (rt, (th, (rh, (bl, (df, (nb, (gl, (gu, (tm, (ex, (md, (nc, _))))))))))))))) :=
    makeStructDecoder
      (field_cons (decodeByteArray HashLength) (field_cons (decodeByteArray HashLength)
        (field_cons (decodeByteArray AddressLength) (field_cons (decodeByteArray HashLength)
          (field_cons (decodeByteArray HashLength) (field_cons (decodeByteArray HashLength)
            (field_cons (decodeByteArray 256) (field_cons decodeBigInt (field_cons decodeBigInt
              (field_cons decodeBigInt (field_cons decodeBigInt (field_cons decodeBigInt
                (field_cons decodeByteSlice (field_cons (decodeByteArray HashLength)
                  (field_cons (decodeByteArray 8) field_nil))))))))))))))) in
  sret (mkHeader ph uh cb rt th rh bl (Some df) (Some nb) (Some gl) (Some gu) (Some tm) ex md nc).

Definition big_ok (x : option Z) : Prop := exists n, x = Some n /\ 0 <= n.

Definition header_ok (h : Header) : Prop :=
  is_hash (h_ParentHash h) /\ is_hash (h_UncleHash h) /\ is_address (h_Coinbase h) /\ is_hash (h_Root h) /\
  is_hash (h_TxHash h) /\ is_hash (h_ReceiptHash h) /\ (bytes_ok (h_Bloom h) /\ zlen (h_Bloom h) = 256) /\
  big_ok (h_Difficulty h) /\ big_ok (h_Number h) /\ big_ok (h_GasLimit h) /\ big_ok (h_GasUsed h) /\
  big_ok (h_Time h) /\ bytes_ok (h_Extra h) /\ is_hash (h_MixDigest h) /\
  (bytes_ok (h_Nonce h) /\ zlen (h_Nonce h) = 8).

Definition header_enc (h : Header) : bytes := rlp_enc (Header_value h).

Lemma Header_codec : codec_ok header_enc Header_DecodeRLP header_ok.
Proof.
  unfold header_enc.
  pose proof (byteArray_codec HashLength ltac:(done)) as CH.
  struct_codec_by
    (field_cons_body _ _ _ _ _ _ CH (field_cons_body _ _ _ _ _ _ CH
      (field_cons_body _ _ _ _ _ _ (byteArray_codec AddressLength ltac:(done)) (field_cons_body _ _ _ _ _ _ CH
        (field_cons_body _ _ _ _ _ _ CH (field_cons_body _ _ _ _ _ _ CH
          (field_cons_body _ _ _ _ _ _ (byteArray_codec 256 ltac:(done)) (field_cons_body _ _ _ _ _ _ bigInt_codec
            (field_cons_body _ _ _ _ _ _ bigInt_codec (field_cons_body _ _ _ _ _ _ bigInt_codec
              (field_cons_body _ _ _ _ _ _ bigInt_codec (field_cons_body _ _ _ _ _ _ bigInt_codec
                (field_cons_body _ _ _ _ _ _ byteSlice_codec (field_cons_body _ _ _ _ _ _ CH
                  (field_cons_body _ _ _ _ _ _ (byteArray_codec 8 ltac:(done)) field_nil_body)))))))))))))))
    (fun '((ph, (uh, (cb, (rt, (th, (rh, (bl, (df, (nb, (gl, (gu, (tm, (ex, (md, (nc, _)))))))))))))))
            : bytes * (bytes * (bytes * (bytes * (bytes * (bytes * (bytes * (Z * (Z * (Z * (Z * (Z * (bytes * (bytes * (bytes * unit))))))))))))))) =>
      mkHeader ph uh cb rt th rh bl (Some df) (Some nb) (Some gl) (Some gu) (Some tm) ex md nc)
    (fun h => (h_ParentHash h, (h_UncleHash h, (h_Coinbase h, (h_Root h, (h_TxHash h, (h_ReceiptHash h,
      (h_Bloom h, (default 0 (h_Difficulty h), (default 0 (h_Number h), (default 0 (h_GasLimit h),
        (default 0 (h_GasUsed h), (default 0 (h_Time h), (h_Extra h, (h_MixDigest h, (h_Nonce h, tt)))))))))))))))).
  - intros s. unfold Header_DecodeRLP, sbind.
    destruct (makeStructDecoder _ s) as [[e|(ph & uh & cb & rt & th & rh & bl & df & nb & gl & gu & tm & ex & md & nc & u)] s']; done.
  - done.
  - intros [ph uh cb rt th rh bl df nb gl gu tm ex md nc]. unfold header_ok, is_hash, is_address. cbn.
    intros (? & ? & ? & ? & ? & ? & ? & (? & -> & ?) & (? & -> & ?) & (? & -> & ?) & (? & -> & ?) & (? & -> & ?) & ? & ? & ?).
    cbn. tauto.
  - intros (ph & uh & cb & rt & th & rh & bl & df & nb & gl & gu & tm & ex & md & nc & []).
    unfold header_ok, is_hash, is_address, big_ok. cbn.
    intros (? & ? & ? & ? & ? & ? & ? & ? & ? & ? & ? & ? & ? & ? & ? & _).
    split; [|done]. split_and!; eauto; tauto.
Qed.

(** ** The normal form *)

(** The header whose RLP [Header.Hash] hashes. *)
Definition normal (h : Header) : Header :=
  if bool_decide (h_MixDigest h = IstanbulDigest)
  then match IstanbulFilteredHeader h true with Some h' => h' | None => h end
  else h.

Lemma CopyHeader_id h : header_ok h -> CopyHeader h = h.
Proof.
  destruct h. unfold header_ok. cbn.
  intros (_ & _ & _ & _ & _ & _ & _ & (? & -> & _) & (? & -> & _) & (? & -> & _) & (? & -> & _) & (? & -> & _) & _).
  done.
Qed.

Lemma set_Extra_ok e h : header_ok h -> bytes_ok e -> header_ok (set_Extra e h).
Proof. unfold header_ok. cbn. tauto. Qed.

Lemma set_Extra_set e e' h : set_Extra e (set_Extra e' h) = set_Extra e h.
Proof. done. Qed.

Lemma set_Extra_id h : set_Extra (h_Extra h) h = h.
Proof. by destruct h. Qed.

(** Either nothing was filtered, or the seal was kept and the committed seals
    are gone. *)
Lemma normal_cases h :
  header_ok h -> extra_fits h ->
  normal h = h \/
  exists ist, h_MixDigest h = IstanbulDigest /\ ExtractIstanbulExtra h = Ok ist /\
    normal h = set_Extra (vanity h ++ extra_enc (filter_extra true ist)) h.
Proof.
  intros Hok Hf. unfold normal. case_bool_decide as Hm; [|by left].
  destruct (ExtractIstanbulExtra h) as [ist|e|] eqn:E.
  - right. exists ist. rewrite (Filtered_some h ist true Hf E), CopyHeader_id by done. done.
  - left. unfold IstanbulFilteredHeader.
    change (ExtractIstanbulExtra (CopyHeader h)) with (ExtractIstanbulExtra h). by rewrite E.
  - left. unfold IstanbulFilteredHeader.
    change (ExtractIstanbulExtra (CopyHeader h)) with (ExtractIstanbulExtra h). by rewrite E.
Qed.

Lemma normal_extract h ist :
  header_ok h -> extra_fits h -> h_MixDigest h = IstanbulDigest -> ExtractIstanbulExtra h = Ok ist ->
  normal h = set_Extra (vanity h ++ extra_enc (filter_extra true ist)) h /\
  ExtractIstanbulExtra (normal h) = Ok (filter_extra true ist) /\ vanity (normal h) = vanity h.
Proof.
  intros Hok Hf Hm E. unfold normal.
  rewrite bool_decide_true, (Filtered_some h ist true Hf E), CopyHeader_id by done. split; [done|].
  destruct (Extract_sound h ist Hf E) as (Hx & _ & Hv). pose proof (zlen_filter_extra h ist true Hf E). split.
  - by apply (Extract_complete _ (vanity h)); [done|done|apply filter_extra_ok|lia].
  - unfold vanity at 1. simpl. rewrite <- Hv. apply take_zlen_app.
Qed.

(** Fields other than the extra data are those of the header. *)
Lemma normal_fields h : header_ok h -> extra_fits h -> forall e, set_Extra e (normal h) = set_Extra e h.
Proof. intros Hok Hf e. by destruct (normal_cases h Hok Hf) as [->|(ist & _ & _ & ->)]. Qed.

Lemma normal_ok h : header_ok h -> extra_fits h -> header_ok (normal h).
Proof.
  intros Hok Hf. destruct (normal_cases h Hok Hf) as [->|(ist & Hm & E & ->)]; [done|].
  destruct (Extract_sound h ist Hf E) as (Hx & _ & _). pose proof (zlen_filter_extra h ist true Hf E).
  apply set_Extra_ok; [done|]. apply Forall_app. split; [by apply Forall_take; destruct Hf|].
  apply extra_enc_bytes_ok; [by apply filter_extra_ok|lia].
Qed.

Section Binding.
Context `{Crypto}.

Lemma header_Hash_normal h : header_Hash h = rlpHash (Header_value (normal h)).
Proof. unfold header_Hash, normal. case_bool_decide; [|done]. by destruct (IstanbulFilteredHeader h true). Qed.

(** Whoever sealed the header also sealed its normal form. *)
Lemma recover_signer_normal h :
  header_ok h -> extra_fits h -> recover_signer (normal h) = recover_signer h.
Proof.
  intros Hok Hf. destruct (normal_cases h Hok Hf) as [->|(ist & Hm & E & En)]; [done|].
  destruct (normal_extract h ist Hok Hf Hm E) as (_ & E' & Ev). unfold recover_signer. rewrite E, E'. simpl.
  assert (ES : sigHash (normal h) = sigHash h); [|by rewrite ES].
  unfold sigHash. rewrite (Filtered_some h ist false Hf E).
  unfold IstanbulFilteredHeader. rewrite CopyHeader_id by (by apply normal_ok). rewrite E'. simpl.
  destruct (Extract_sound h ist Hf E) as (Hx & _ & _). pose proof (zlen_filter_extra h ist false Hf E).
  change (mkExtra (x_Validators ist) [] []) with (filter_extra false ist).
  rewrite write_extra_ok by (auto using filter_extra_ok; lia). rewrite Ev, normal_fields, CopyHeader_id by done. done.
Qed.

(** Headers that can be hashed, and sets of them on which Keccak does not
    collide. *)
Definition hashable (h : Header) : Prop :=
  header_ok h /\ extra_fits h /\ zlen (header_enc (normal h)) < 2 ^ 64.

Definition collision_free (K : Header -> Prop) : Prop :=
  forall h1 h2, K h1 -> K h2 ->
    Keccak256 (header_enc (normal h1)) = Keccak256 (header_enc (normal h2)) ->
    header_enc (normal h1) = header_enc (normal h2).

Lemma Header_value_ok h : header_ok h -> value_ok (Header_value h).
Proof.
  unfold header_ok, is_hash, is_address, big_ok.
  intros (? & ? & ? & ? & ? & ? & ? & (d & Ed & ?) & (n & En & ?) & (gl & Egl & ?) & (gu & Egu & ?) & (tm & Et & ?) & ? & ? & ?).
  unfold Header_value. rewrite Ed, En, Egl, Egu, Et. apply ok_struct.
  repeat (apply Forall_cons_2; [constructor; tauto|]). apply Forall_nil_2.
Qed.

Lemma header_Hash_Keccak h : hashable h -> header_Hash h = Keccak256 (header_enc (normal h)).
Proof.
  intros (Hok & Hf & Hz). rewrite header_Hash_normal. unfold rlpHash.
  rewrite EncodeToBytes_ref; [done| |done]. by apply Header_value_ok, normal_ok.
Qed.

Lemma header_Hash_inj K h1 h2 :
  collision_free K -> K h1 -> K h2 -> hashable h1 -> hashable h2 ->
  header_Hash h1 = header_Hash h2 -> normal h1 = normal h2.
Proof.
  intros HK K1 K2 H1 H2 E. rewrite !header_Hash_Keccak in E by done. apply (HK _ _ K1 K2) in E.
  destruct H1 as (O1 & F1 & Z1), H2 as (O2 & F2 & Z2).
  apply (codec_inj Header_codec); auto using normal_ok. split; [|done].
  apply rlp_enc_ok; [|done]. by apply Header_value_ok, normal_ok.
Qed.

End Binding.

(** ** Claims *)

(** what a block hash binds.  Two headers with the same hash, of which Keccak
    does not collide, agree on every field but the extra data; they have the
    same sealer; and if they are Istanbul headers with readable extra data,
    also vanity, validators and proposer seal are the same: only the committed
    seals may differ. *)
Theorem header_Hash_binds `{Crypto} (h1 h2 : Header) :
  collision_free (fun h => h = h1 \/ h = h2) -> hashable h1 -> hashable h2 ->
  header_Hash h1 = header_Hash h2 ->
  set_Extra [] h1 = set_Extra [] h2 /\ recover_signer h1 = recover_signer h2 /\
  forall x1 x2, h_MixDigest h1 = IstanbulDigest ->
    ExtractIstanbulExtra h1 = Ok x1 -> ExtractIstanbulExtra h2 = Ok x2 ->
    vanity h1 = vanity h2 /\ x_Validators x1 = x_Validators x2 /\ x_Seal x1 = x_Seal x2.
Proof.
  intros HK H1 H2 E. pose proof (header_Hash_inj _ h1 h2 HK (or_introl eq_refl) (or_intror eq_refl) H1 H2 E) as N.
  destruct H1 as (O1 & F1 & _), H2 as (O2 & F2 & _).
  assert (S : set_Extra [] h1 = set_Extra [] h2) by (by rewrite <- (normal_fields h1 O1 F1), <- (normal_fields h2 O2 F2), N).
  split; [done|]. split; [by rewrite <- (recover_signer_normal h1), N, recover_signer_normal|].
  intros x1 x2 Hm E1 E2.
  assert (Hm2 : h_MixDigest h2 = IstanbulDigest).
  { rewrite <- Hm. by apply (f_equal h_MixDigest) in S. }
  destruct (normal_extract h1 x1 O1 F1 Hm E1) as (_ & X1 & V1).
  destruct (normal_extract h2 x2 O2 F2 Hm2 E2) as (_ & X2 & V2).
  rewrite N in X1, V1. split; [congruence|]. rewrite X2 in X1. unfold filter_extra in X1. by injection X1.
Qed.

(** ** Witness *)

Definition sealed_header (parent : hash) (n : Z) (coinbase : address) (nonce : bytes) (vals : list address)
    (seal : bytes) (seals : list bytes) : Header :=
  mkHeader parent (be_pad 32 7) coinbase zero_hash zero_hash zero_hash (replicate 256 0)
    (Some 1) (Some n) (Some 0) (Some 0) (Some (100 + n))
    (replicate 32 0 ++ extra_enc (mkExtra vals seal seals)) IstanbulDigest nonce.

(** Decide [hashable] of a concrete header. *)
Definition bigb (x : option Z) : bool := match x with Some n => 0 <=? n | None => false end.

Definition header_okb (h : Header) : bool :=
  bytesb (h_ParentHash h) 32 && bytesb (h_UncleHash h) 32 && bytesb (h_Coinbase h) 20 && bytesb (h_Root h) 32 &&
  bytesb (h_TxHash h) 32 && bytesb (h_ReceiptHash h) 32 && bytesb (h_Bloom h) 256 && bigb (h_Difficulty h) &&
  bigb (h_Number h) && bigb (h_GasLimit h) && bigb (h_GasUsed h) && bigb (h_Time h) &&
  bytesb (h_Extra h) (zlen (h_Extra h)) && bytesb (h_MixDigest h) 32 && bytesb (h_Nonce h) 8.

Lemma bigb_ok x : bigb x = true -> big_ok x.
Proof. destruct x as [n|]; [|done]. intros E. simpl in E. zbool. by exists n. Qed.

Lemma header_okb_ok h : header_okb h = true -> header_ok h.
Proof.
  unfold header_okb. intros E. zbool. unfold header_ok, is_hash, is_address.
  split_and!; try (by apply bigb_ok); try (eapply bytesb_ok; eassumption).
Qed.

Definition hashableb (h : Header) : bool :=
  header_okb h && (zlen (h_Extra h) <? 2 ^ 62) && (zlen (header_enc (normal h)) <? 2 ^ 64).

Lemma hashableb_ok h : hashableb h = true -> hashable h.
Proof.
  unfold hashableb. intros E. zbool. apply header_okb_ok in H. split; [done|]. split; [|done].
  split; [apply H|done].
Qed.

Lemma header_Hash_binds_witness :
  let h k := sealed_header zero_hash 5 zero_address nonceDropVote [sample_address 1] (sample_seal 3) [sample_seal k] in
  recover_signer (H := toy_crypto) (h 8) = recover_signer (H := toy_crypto) (h 9).
Proof.
  intros h.
  apply (@header_Hash_binds toy_crypto (h 8) (h 9)).
  - intros h1 h2 [-> | ->] [-> | ->] _; vm_compute; reflexivity.
  - apply hashableb_ok. vm_compute. reflexivity.
  - apply hashableb_ok. vm_compute. reflexivity.
  - vm_compute. reflexivity.
Defined.
