(* ===== verification/Transaction.v ===== *)
(** Transactions: [core/types/transaction.go] and
    [core/types/transaction_signing.go].

    A transaction is its data with three caches (hash, size, sender), which are
    state: the methods that fill a cache return the transaction.  Elliptic-curve
    operations are the class [Ecdsa]: they are calls into the C library under
    [crypto/secp256k1].

    Transactions: round trip of the RLP form, what the hashes bind, signing and
    recovering the sender, replay protection and the sender cache. *)
From S2P Require Import Prelude BigMath RlpEncode RlpDecode RlpRaw IstanbulTypes ValidatorSet IstanbulHeader RlpCodec RlpTheorems.

(** [secp256k1.RecoverPubkey] and [secp256k1.Sign] behind [crypto.Ecrecover]
    and [crypto.Sign]. *)
Class Ecdsa := {
  PrivateKey : Type;
  Ecrecover : bytes -> bytes -> option bytes;
  crypto_Sign : bytes -> PrivateKey -> option bytes
}.

(** ** Data *)

Definition NORMAL_TX : Z := 1.
Definition PRIVACY_TX : Z := 6.

Record txdata := mkTxdata {
  Txtype : Z;
  AccountNonce : Z;
  Price : Z;
  GasLimit : Z;
  Recipient : option address;
  Amount : Z;
  tx_Payload : bytes;
  tx_V : Z;
  tx_R : Z;
  tx_S : Z
}.

#[export] Instance txdata_eq_dec : EqDecision txdata.
Proof. solve_decision. Defined.

Inductive Signer := EIP155Signer (chainId chainIdMul : Z) | HomesteadSigner | FrontierSigner.

Record Transaction := mkTx {
  tx_data : txdata;
  tx_hash : option hash;
  tx_size : option Z;
  tx_from : option (Signer * address)
}.

Definition new_tx (d : txdata) : Transaction := mkTx d None None None.

(** [newTransaction]; nil integers count as zero. *)
Definition newTransaction (nonce : Z) (to : option address) (amount gasLimit gasPrice : option Z) (data : bytes) : Transaction :=
  new_tx (mkTxdata NORMAL_TX nonce (default 0 gasPrice) (default 0 gasLimit) to (default 0 amount) data 0 0 0).

Definition NewTransaction (nonce : Z) (to : address) := newTransaction nonce (Some to).
Definition NewContractCreation (nonce : Z) := newTransaction nonce None.

(** [newOTATransaction]; [None] is a nil transaction. *)
Definition newOTATransaction (nonce : Z) (to : option address) (amount gasLimit gasPrice : option Z) (data : bytes) : option Transaction :=
  match to with
  | None => None
  | Some _ => Some (new_tx (mkTxdata PRIVACY_TX nonce (default 0 gasPrice) (default 0 gasLimit) to (default 0 amount) data 0 0 0))
  end.

Definition IsNormalTransaction (txType : Z) : bool := negb (txType =? PRIVACY_TX).
Definition IsValidTransactionType (txType : Z) : bool := (txType =? NORMAL_TX) || (txType =? PRIVACY_TX).

Definition Cost (tx : Transaction) : Z := Price (tx_data tx) * GasLimit (tx_data tx) + Amount (tx_data tx).

(** ** RLP *)

Definition address_value (a : option address) : value :=
  match a with Some a => VBytes a | None => VNilByteArrayPtr end.

Definition txdata_value (d : txdata) : value :=
  VStruct [VUint (Txtype d); VUint (AccountNonce d); VBigInt (Some (Price d)); VBigInt (Some (GasLimit d));
           address_value (Recipient d); VBigInt (Some (Amount d)); VBytes (tx_Payload d);
           VBigInt (Some (tx_V d)); VBigInt (Some (tx_R d)); VBigInt (Some (tx_S d))].

Definition Transaction_EncodeRLP (tx : Transaction) : value := txdata_value (tx_data tx).

Definition txdata_DecodeRLP : SM txdata :=
  let* a := makeStructDecoder
    (field_cons (decodeUint 64) (field_cons (decodeUint 64) (field_cons decodeBigInt (field_cons decodeBigInt
    (field_cons (decodeOptionalPtr (decodeByteArray AddressLength)) (field_cons decodeBigInt (field_cons decodeByteSlice
    (field_cons decodeBigInt (field_cons decodeBigInt (field_cons decodeBigInt field_nil)))))))))) in
  let '(t, (n, (p, (g, (r, (m, (d, (v, (R, (S', _)))))))))) := a in
  sret (mkTxdata t n p g r m d v R S').

(** The size of the list is remembered; [Kind] is asked first, its error is found again by [Decode]. *)
Definition Transaction_DecodeRLP : SM Transaction := fun s =>
  let '(k, s) := Kind_of s in
  let size := match k with inr (_, size) => size | inl _ => 0 end in
  (let* d := txdata_DecodeRLP in sret (mkTx d None (Some (ListSize size)) None)) s.

(** ** Replay protection *)

Definition isProtectedV (V : Z) : bool :=
  if big_BitLen V <=? 8 then let v := big_Uint64 V in negb (v =? 27) && negb (v =? 28)
  else true.

(** [Div] is Euclidean, by 2. *)
Definition deriveChainId (v : Z) : Z :=
  if big_BitLen v <=? 64 then
    let v := big_Uint64 v in
    if (v =? 27) || (v =? 28) then 0 else u64 (v - 35) / 2
  else (v - 35) / 2.

Definition ChainId (tx : Transaction) : Z := deriveChainId (tx_V (tx_data tx)).
Definition Protected (tx : Transaction) : bool := isProtectedV (tx_V (tx_data tx)).

Definition NewEIP155Signer (chainId : option Z) : Signer := EIP155Signer (default 0 chainId) (default 0 chainId * 2).

Definition deriveSigner (V : Z) : Signer :=
  if negb (Z.sgn V =? 0) && isProtectedV V then NewEIP155Signer (Some (deriveChainId V)) else HomesteadSigner.

(** [MakeSigner]: the forks of the configuration do not matter. *)
Definition MakeSigner (config_ChainId : option Z) (blockNumber : option Z) : Signer := NewEIP155Signer config_ChainId.

Definition Signer_Equal (s s2 : Signer) : bool :=
  match s, s2 with
  | EIP155Signer c _, EIP155Signer c2 _ => c2 =? c
  | HomesteadSigner, HomesteadSigner => true
  | FrontierSigner, FrontierSigner => true
  | _, _ => false
  end.

(** ** Signatures *)

Inductive tx_err := ErrInvalidSig | ErrInvalidChainId | errInvalidPublicKey | errEcdsa.

#[export] Instance tx_err_eq_dec : EqDecision tx_err.
Proof. solve_decision. Defined.

Definition secp256k1_N : Z := 0xfffffffffffffffffffffffffffffffebaaedce6af48a03bbfd25e8cd0364141.
Definition secp256k1_halfN : Z := secp256k1_N / 2.

Definition ValidateSignatureValues (v r s : Z) (homestead : bool) : bool :=
  if (r <? 1) || (s <? 1) then false
  else if homestead && (s >? secp256k1_halfN) then false
  else (r <? secp256k1_N) && (s <? secp256k1_N) && ((v =? 0) || (v =? 1)).

Section Signing.
Context `{Crypto} `{Ecdsa}.

Definition recoverPlain (sighash : hash) (R S Vb : Z) (homestead : bool) : outcome tx_err address :=
  if big_BitLen Vb >? 8 then Err ErrInvalidSig
  else
    let V := u8 (u64 (big_Uint64 Vb - 27)) in
    if negb (ValidateSignatureValues V R S homestead) then Err ErrInvalidSig
    else
      let r := be_bytes R in
      let s := be_bytes S in
      if (32 <? length r)%nat || (64 <? length s)%nat then Panic
      else
        let sig := replicate 65 0 in
        let sig := store_at (32 - length r) r sig in
        let sig := store_at (64 - length s) s sig in
        let sig := <[64%nat := V]> sig in
        match Ecrecover sighash sig with
        | None => Err errEcdsa
        | Some pub =>
            if (zlen pub =? 0) || negb (default 0 (head pub) =? 4) then Err errInvalidPublicKey
            else Ok (drop 12 (Keccak256 (drop 1 pub)))
        end.

(** The fields that are signed. *)
Definition signed_fields (d : txdata) : list value :=
  [VUint (Txtype d); VUint (AccountNonce d); VBigInt (Some (Price d)); VBigInt (Some (GasLimit d));
   address_value (Recipient d); VBigInt (Some (Amount d)); VBytes (tx_Payload d)].

Definition Frontier_Hash (tx : Transaction) : hash := rlpHash (VSlice (signed_fields (tx_data tx))).

Definition EIP155_Hash (chainId : Z) (tx : Transaction) : hash :=
  rlpHash (VSlice (signed_fields (tx_data tx) ++ [VBigInt (Some chainId); VUint 0; VUint 0])).

Definition Signer_Hash (s : Signer) (tx : Transaction) : hash :=
  match s with EIP155Signer c _ => EIP155_Hash c tx | _ => Frontier_Hash tx end.

Definition plain_Sender (tx : Transaction) (homestead : bool) : outcome tx_err address :=
  recoverPlain (Frontier_Hash tx) (tx_R (tx_data tx)) (tx_S (tx_data tx)) (tx_V (tx_data tx)) homestead.

Definition Signer_Sender (s : Signer) (tx : Transaction) : outcome tx_err address :=
  match s with
  | FrontierSigner => plain_Sender tx false
  | HomesteadSigner => plain_Sender tx true
  | EIP155Signer chainId chainIdMul =>
      if negb (Protected tx) then plain_Sender tx true
      else if negb (ChainId tx =? chainId) then Err ErrInvalidChainId
      else
        let V := tx_V (tx_data tx) - chainIdMul - 8 in
        recoverPlain (EIP155_Hash chainId tx) (tx_R (tx_data tx)) (tx_S (tx_data tx)) V true
  end.

(** [SignatureValues]: R, S and V; a signature of another length panics. *)
Definition Frontier_SignatureValues (sig : bytes) : outcome tx_err (Z * Z * Z) :=
  if negb (zlen sig =? 65) then Panic
  else Ok (be_value (take 32 sig), be_value (take 32 (drop 32 sig)), u8 (default 0 (sig !! 64%nat) + 27)).

Definition SignatureValues (s : Signer) (sig : bytes) : outcome tx_err (Z * Z * Z) :=
  match s with
  | EIP155Signer chainId chainIdMul =>
      let! (R, S', V) := Frontier_SignatureValues sig in
      let V := if negb (Z.sgn chainId =? 0) then u8 (default 0 (sig !! 64%nat) + 35) + chainIdMul else V in
      Ok (R, S', V)
  | _ => Frontier_SignatureValues sig
  end.

Definition WithSignature (signer : Signer) (sig : bytes) (tx : Transaction) : outcome tx_err Transaction :=
  let! (r, s, v) := SignatureValues signer sig in
  let d := tx_data tx in
  Ok (new_tx (mkTxdata (Txtype d) (AccountNonce d) (Price d) (GasLimit d) (Recipient d) (Amount d) (tx_Payload d) v r s)).

Definition SignTx (tx : Transaction) (s : Signer) (prv : PrivateKey) : outcome tx_err Transaction :=
  match crypto_Sign (Signer_Hash s tx) prv with
  | None => Err errEcdsa
  | Some sig => WithSignature s sig tx
  end.

(** [Sender] with the cache of the transaction. *)
Definition Sender (signer : Signer) (tx : Transaction) : outcome tx_err address * Transaction :=
  let derive :=
    match Signer_Sender signer tx with
    | Ok addr => (Ok addr, mkTx (tx_data tx) (tx_hash tx) (tx_size tx) (Some (signer, addr)))
    | r => (r, tx)
    end in
  match tx_from tx with
  | Some (s, from) => if Signer_Equal s signer then (Ok from, tx) else derive
  | None => derive
  end.

Definition tx_Hash (tx : Transaction) : hash * Transaction :=
  match tx_hash tx with
  | Some h => (h, tx)
  | None =>
      let v := rlpHash (Transaction_EncodeRLP tx) in
      (v, mkTx (tx_data tx) (Some v) (tx_size tx) (tx_from tx))
  end.

(** [Size]: what the encoder writes is counted. *)
Definition tx_Size (tx : Transaction) : Z * Transaction :=
  match tx_size tx with
  | Some n => (n, tx)
  | None =>
      let c := match EncodeToBytes (txdata_value (tx_data tx)) with Ok b => zlen b | _ => 0 end in
      (c, mkTx (tx_data tx) (tx_hash tx) (Some c) (tx_from tx))
  end.

(** [AsMessage]. *)
Record Message := mkMsg {
  msg_to : option address; msg_from : address; msg_nonce : Z; msg_amount : Z; msg_price : Z; msg_gasLimit : Z;
  msg_data : bytes; msg_checkNonce : bool; msg_txType : Z
}.

Definition AsMessage (s : Signer) (tx : Transaction) : outcome tx_err Message * Transaction :=
  let d := tx_data tx in
  let '(r, tx) := Sender s tx in
  (let! from := r in
   Ok (mkMsg (Recipient d) from (AccountNonce d) (Amount d) (Price d) (GasLimit d) (tx_Payload d) true (Txtype d)), tx).

(** ** Lists of transactions *)

Definition GetRlp (tx : Transaction) : bytes :=
  match EncodeToBytes (Transaction_EncodeRLP tx) with Ok enc => enc | _ => [] end.

Definition hash_of_tx (tx : Transaction) : hash := (tx_Hash tx).1.

(** [TxDifference]: what is in [a] and not in [b], by hash. *)
Definition TxDifference (a b : list Transaction) : list Transaction :=
  let remove : gset hash := list_to_set (map hash_of_tx b) in
  filter (fun tx => hash_of_tx tx ∉ remove) a.

End Signing.

(** ** Round trip *)

Definition to_ok (a : option address) : Prop := match a with Some a => is_address a | None => True end.

Definition txdata_ok (d : txdata) : Prop :=
  is_u64 (Txtype d) /\ is_u64 (AccountNonce d) /\ 0 <= Price d /\ 0 <= GasLimit d /\ to_ok (Recipient d) /\
  0 <= Amount d /\ bytes_ok (tx_Payload d) /\ 0 <= tx_V d /\ 0 <= tx_R d /\ 0 <= tx_S d.

Lemma Kind_of_again s kn s' : Kind_of s = (inr kn, s') -> Kind_of s' = (inr kn, s').
Proof.
  unfold Kind_of. intros E. destruct (s_kind s) as [k|] eqn:Ek.
  - destruct (s_kinderr s) eqn:Ee; [done|]. simplify_eq. by rewrite Ek, Ee.
  - case_match; [done|]. destruct (readKind _) as [[e|[[k n] ke]] s1]; [done|].
    revert E. generalize (match ke with Some e => Some e | None => size_check n s1 end) as ke'. intros ke' E.
    simpl in E. destruct ke'; [done|]. simplify_eq. done.
Qed.

(** [rlp:"nil"]: a nil pointer is the empty string; the empty list is read as nil too. *)
Lemma optional_decodes vlen : 1 < vlen ->
  decodes (fun a => rlp_enc (address_value a)) (decodeOptionalPtr (decodeByteArray vlen))
    (fun a => match a with Some b => bytes_ok b /\ zlen b = vlen | None => True end).
Proof.
  intros Hv [b|] s r st Hb Hi Hp Hst Hf; cbn [rlp_enc address_value] in *.
  - destruct (codec_complete _ _ _ (byteArray_codec vlen Hv) b s r st Hb Hi Hp Hst Hf) as (s' & E & A).
    exists s'. split; [|done]. destruct Hb as [Hb Hz]. unfold decodeOptionalPtr.
    destruct (Kind_str b s r st Hb Hi Hp Hst Hf) as [(x & s1 & -> & _)|(s1 & h & _ & _ & K & _)];
      [change (zlen [x]) with 1 in Hz; lia|].
    rewrite K, (proj2 (Z.eqb_neq _ _)) by lia. simpl.
    unfold decodeByteArray, sbind in E |- *. rewrite K in E. rewrite (Kind_of_again _ _ _ K).
    by rewrite E.
  - unfold decodeOptionalPtr. change [0x80] with (rlp_str []) in *.
    destruct (Kind_str [] s r st ltac:(constructor) Hi Hp Hst Hf) as [(x & s1 & ? & _)|(s1 & h & E & _ & K & P & _)]; [done|].
    rewrite K. simpl. eexists. split; [done|]. rewrite E, app_nil_r. split; [|done]. done.
Qed.

Definition tx_enc (d : txdata) : bytes := rlp_enc (txdata_value d).

Lemma txdata_decodes : decodes tx_enc txdata_DecodeRLP txdata_ok.
Proof.
  pose proof (decodes_iso _ _ _
    (fun a : Z * (Z * (Z * (Z * (option address * (Z * (bytes * (Z * (Z * (Z * unit))))))))) =>
       mkTxdata a.1 a.2.1 a.2.2.1 a.2.2.2.1 a.2.2.2.2.1 a.2.2.2.2.2.1 a.2.2.2.2.2.2.1 a.2.2.2.2.2.2.2.1
         a.2.2.2.2.2.2.2.2.1 a.2.2.2.2.2.2.2.2.2.1)
    (fun d => (Txtype d, (AccountNonce d, (Price d, (GasLimit d, (Recipient d, (Amount d, (tx_Payload d,
       (tx_V d, (tx_R d, (tx_S d, tt)))))))))))
    txdata_ok
    (struct_decodes _ _ _
      (field_cons_decodes _ _ _ _ _ _ (codec_decodes _ _ _ uint64_codec)
      (field_cons_decodes _ _ _ _ _ _ (codec_decodes _ _ _ uint64_codec)
      (field_cons_decodes _ _ _ _ _ _ (codec_decodes _ _ _ bigInt_codec)
      (field_cons_decodes _ _ _ _ _ _ (codec_decodes _ _ _ bigInt_codec)
      (field_cons_decodes _ _ _ _ _ _ (optional_decodes AddressLength ltac:(done))
      (field_cons_decodes _ _ _ _ _ _ (codec_decodes _ _ _ bigInt_codec)
      (field_cons_decodes _ _ _ _ _ _ (codec_decodes _ _ _ byteSlice_codec)
      (field_cons_decodes _ _ _ _ _ _ (codec_decodes _ _ _ bigInt_codec)
      (field_cons_decodes _ _ _ _ _ _ (codec_decodes _ _ _ bigInt_codec)
      (field_cons_decodes _ _ _ _ _ _ (codec_decodes _ _ _ bigInt_codec)
       field_nil_decodes)))))))))))) as D.
  intros d s r st Hd Hi Hp Hst Hf. destruct (D ltac:(by intros [] ?; unfold txdata_ok in *; simpl in *; tauto) d s r st)
    as (s' & E & A); auto.
  exists s'. split; [|done]. revert E. unfold txdata_DecodeRLP, sbind.
  destruct (makeStructDecoder _ s) as [[e|(t & n & p & g & a & m & b & v & R & S' & u)] s1]; done.
Qed.

Lemma txdata_value_ok d : txdata_ok d -> value_ok (txdata_value d).
Proof.
  intros (? & ? & ? & ? & Ht & ? & ? & ? & ? & ?). apply ok_struct.
  assert (value_ok (address_value (Recipient d))) by (destruct (Recipient d); [destruct Ht; by constructor|constructor]).
  by repeat (constructor; [first [done|by constructor]|]).
Qed.

Lemma tx_enc_inj d d' : txdata_ok d -> txdata_ok d' -> zlen (tx_enc d) < 2 ^ 64 -> tx_enc d = tx_enc d' -> d = d'.
Proof.
  intros Hd Hd' Hz E.
  assert (Hi : input_ok (tx_enc d)) by (split; [by apply rlp_enc_ok; [apply txdata_value_ok|]|done]).
  pose proof (DecodeBytes_decodes _ _ _ d txdata_decodes Hd Hi) as D. rewrite E in D, Hi.
  rewrite (DecodeBytes_decodes _ _ _ d' txdata_decodes Hd' Hi) in D. by injection D.
Qed.

(** The header of a list, as [Kind] reports it. *)
Lemma Kind_list p s r st : input_ok (rlp_list p ++ r) -> stream_at s (rlp_list p ++ r) st -> stack_ok st ->
  fits (zlen (rlp_list p)) st -> exists s1, Kind_of s = (inr (List, zlen p), s1).
Proof.
  intros Hi Hp Hst Hf. destruct (List_ok p s r st Hi Hp Hst Hf) as (s' & h & _ & E & _).
  unfold Stream_List, sbind in E. destruct (Kind_of s) as [[e|[k n]] s1]; [done|].
  destruct k; [done|done|]. revert E. intros E. exists s1. simpl in E. by simplify_eq.
Qed.

Lemma kind_first_again {A} (f : Kind * Z -> SM A) s kn s1 : Kind_of s = (inr kn, s1) ->
  sbind Kind_of f s1 = sbind Kind_of f s.
Proof. intros E. unfold sbind. by rewrite E, (Kind_of_again _ _ _ E). Qed.

Lemma txdata_Decode_again s kn s1 : Kind_of s = (inr kn, s1) -> txdata_DecodeRLP s1 = txdata_DecodeRLP s.
Proof.
  intros E. assert (El : wrapping Stream_List s1 = wrapping Stream_List s).
  { unfold wrapping, Stream_List. by rewrite (kind_first_again _ _ _ _ E). }
  unfold txdata_DecodeRLP, makeStructDecoder, sbind. by rewrite El.
Qed.

Lemma ListSize_list p : zlen (rlp_list p) < 2 ^ 64 -> ListSize (zlen p) = zlen (rlp_list p).
Proof.
  unfold ListSize, rlp_list. rewrite zlen_app. pose proof (zlen_nonneg p). pose proof (zlen_nonneg (rlp_head 192 (zlen p))).
  intros Hz. assert (Eh : zlen (rlp_head 192 (zlen p)) = headsize (zlen p)) by (apply zlen_rlp_head; lia).
  rewrite Eh in *. unfold u64. apply Z.mod_small. lia.
Qed.

Definition tx_content (d : txdata) : bytes := concat (map rlp_enc (value_elems (txdata_value d))).

Lemma tx_enc_list d : tx_enc d = rlp_list (tx_content d).
Proof. done. Qed.

(** The cached size is the length of what was read. *)
Lemma Transaction_decodes : decodes (fun tx => tx_enc (tx_data tx)) Transaction_DecodeRLP
  (fun tx => txdata_ok (tx_data tx) /\ tx = mkTx (tx_data tx) None (Some (zlen (tx_enc (tx_data tx)))) None).
Proof.
  intros tx s r st [Hd Etx] Hi Hp Hst Hf.
  destruct (txdata_decodes (tx_data tx) s r st Hd Hi Hp Hst Hf) as (s' & E & A). exists s'. split; [|done].
  destruct (Kind_list (tx_content (tx_data tx)) s r st Hi Hp Hst Hf) as [s1 K].
  unfold Transaction_DecodeRLP. rewrite K. unfold sbind. rewrite (txdata_Decode_again _ _ _ K), E. unfold sret.
  rewrite ListSize_list, <- tx_enc_list; [by rewrite <- Etx|]. rewrite <- tx_enc_list.
  destruct Hi as [_ Hz]. rewrite zlen_app in Hz. pose proof (zlen_nonneg r). lia.
Qed.

(** C32: a transaction survives encoding and decoding, whether it creates a
    contract or not; the decoded transaction has no cached hash or sender and its
    cached size is the length of the encoding, which is what [Size] computes. *)
Theorem transaction_roundtrip `{Crypto} (tx : Transaction) (b : bytes) : txdata_ok (tx_data tx) ->
  zlen (tx_enc (tx_data tx)) < 2 ^ 64 -> EncodeToBytes (Transaction_EncodeRLP tx) = Ok b ->
  DecodeBytes Transaction_DecodeRLP b = Ok (mkTx (tx_data tx) None (Some (zlen b)) None) /\
  (tx_Size (new_tx (tx_data tx))).1 = zlen b.
Proof.
  intros Hd Hz E. unfold Transaction_EncodeRLP in E. pose proof (txdata_value_ok _ Hd) as Hv.
  unfold tx_Size. simpl. rewrite E. split; [|done].
  rewrite EncodeToBytes_ref in E by done. injection E as <-. fold (tx_enc (tx_data tx)) in *.
  apply (DecodeBytes_decodes _ _ _ (mkTx (tx_data tx) None (Some (zlen (tx_enc (tx_data tx)))) None) Transaction_decodes); [done|].
  split; [by apply rlp_enc_ok|done].
Qed.

(** ** What is signed *)

Definition signed_strs (d : txdata) : list bytes :=
  [be_bytes (Txtype d); be_bytes (AccountNonce d); be_bytes (Price d); be_bytes (GasLimit d);
   default [] (Recipient d); be_bytes (Amount d); tx_Payload d].

Definition signer_strs (s : Signer) (d : txdata) : list bytes :=
  signed_strs d ++ match s with EIP155Signer c _ => [be_bytes c; []; []] | _ => [] end.

Definition signer_value (s : Signer) (d : txdata) : value :=
  VSlice (signed_fields d ++ match s with EIP155Signer c _ => [VBigInt (Some c); VUint 0; VUint 0] | _ => [] end).

(** What is hashed for signing. *)
Definition signer_payload (s : Signer) (d : txdata) : bytes := rlp_enc (signer_value s d).

Definition signer_ok (s : Signer) : Prop :=
  match s with EIP155Signer c m => 0 <= c /\ m = c * 2 | _ => True end.

Lemma signer_payload_strs s d : signer_payload s d = rlp_list (concat (map rlp_str (signer_strs s d))).
Proof.
  unfold signer_payload, signer_value, signer_strs, signed_fields, signed_strs.
  destruct s as [c m| |], (Recipient d) as [a|]; reflexivity.
Qed.

Lemma signer_value_ok s d : txdata_ok d -> signer_ok s -> value_ok (signer_value s d).
Proof.
  intros (? & ? & ? & ? & Ht & ? & ? & ? & ? & ?) Hs. apply ok_slice.
  assert (value_ok (address_value (Recipient d))) by (destruct (Recipient d); [destruct Ht; by constructor|constructor]).
  assert (is_u64 0) by (split; [lia|done]).
  destruct s as [c m| |]; simpl; [destruct Hs|..]; by repeat (constructor; [first [done|by constructor]|]).
Qed.

Lemma signer_strs_ok s d : txdata_ok d -> Forall bytes_ok (signer_strs s d).
Proof.
  intros (? & ? & ? & ? & Ht & ? & ? & ? & ? & ?).
  assert (bytes_ok (default [] (Recipient d))) by (destruct (Recipient d); [apply Ht|constructor]).
  apply Forall_app. split; [by repeat (constructor; [first [done|apply be_bytes_ok]|])|].
  destruct s; [|constructor..]. repeat constructor; apply be_bytes_ok.
Qed.

Lemma str_list_inj l1 l2 : Forall bytes_ok l1 -> Forall bytes_ok l2 ->
  zlen (rlp_list (concat (map rlp_str l1))) < 2 ^ 64 ->
  rlp_list (concat (map rlp_str l1)) = rlp_list (concat (map rlp_str l2)) -> l1 = l2.
Proof.
  intros H1 H2 Hz E. apply (codec_inj (slice_codec byteSlice_codec)); try done. split; [|done].
  assert (Ee : rlp_list (concat (map rlp_str l1)) = rlp_enc (VSlice (map VBytes l1))) by (simpl; by rewrite map_map).
  change (bytes_ok (rlp_list (concat (map rlp_str l1)))). rewrite Ee. apply rlp_enc_ok; [|by rewrite <- Ee].
  apply ok_slice, Forall_map. by eapply Forall_impl; [exact H1|intros; constructor].
Qed.

Lemma be_bytes_inj a b : 0 <= a -> 0 <= b -> be_bytes a = be_bytes b -> a = b.
Proof. intros Ha Hb E. by rewrite <- (be_value_bytes a Ha), E, be_value_bytes. Qed.

(** Agreement on everything but the signature. *)
Definition same_unsigned (d d' : txdata) : Prop :=
  Txtype d = Txtype d' /\ AccountNonce d = AccountNonce d' /\ Price d = Price d' /\ GasLimit d = GasLimit d' /\
  Recipient d = Recipient d' /\ Amount d = Amount d' /\ tx_Payload d = tx_Payload d'.

Definition signer_chain (s : Signer) : option Z := match s with EIP155Signer c _ => Some c | _ => None end.

Lemma signer_strs_inj s s' d d' : txdata_ok d -> txdata_ok d' -> signer_ok s -> signer_ok s' ->
  signer_strs s d = signer_strs s' d' -> same_unsigned d d' /\ signer_chain s = signer_chain s'.
Proof.
  intros (T1 & N1 & P1 & G1 & R1 & A1 & _) (T2 & N2 & P2 & G2 & R2 & A2 & _) S1 S2 E.
  unfold signer_strs, signed_strs in E. simpl in E. injection E as E1 E2 E3 E4 E5 E6 E7 E8.
  unfold is_u64 in *. split.
  - unfold same_unsigned. split_and!; try (apply be_bytes_inj; lia || done); [|done].
    destruct (Recipient d) as [a|], (Recipient d') as [a'|]; simpl in *; try done; [by subst| |].
    + subst a. destruct R1 as [_ Hl]. done.
    + subst a'. destruct R2 as [_ Hl]. done.
  - destruct s as [c m| |], s' as [c' m'| |]; try done; simpl in E8. injection E8 as E8. simpl. f_equal.
    destruct S1, S2. by apply be_bytes_inj.
Qed.
