(* ===== verification/RingSign.v ===== *)
(** Ring signatures of the privacy transactions: [RingSign] and [VerifyRingSign] of
    [crypto/crypto.go], and its one-time keys, over the interface [elliptic.Curve].

    A nil coordinate is [None]; the multiplication of the C library is an argument.
    Random numbers are read from a string of bytes. *)
From S2P Require Import Prelude IstanbulTypes ValidatorSet BigMath Transaction Hex Curve KeccakCrypto.
Import BitCurves.

Lemma obind_ok {E A B} (x : outcome E A) (f : A -> outcome E B) b : obind x f = Ok b -> exists a, x = Ok a /\ f a = Ok b.
Proof. destruct x; simpl; [eauto|done..]. Qed.

(** Every call of a sequence that succeeds succeeds. *)
Ltac oks :=
  repeat match goal with
  | H : obind _ _ = Ok _ |- _ => let a := fresh "a" in let E := fresh "E" in apply obind_ok in H as (a & E & H); cbv beta in H
  | H : context [let '(_, _) := ?p in _] |- _ => destruct p
  | H : Ok _ = Ok _ |- _ => injection H as H; subst
  end.

Inductive ring_err := ErrInvalidRingSignParams | ErrRingSignFail | ErrUnexpectedEOF | ErrInvalidLength | ErrHex (e : hex_err) | ErrInvalidHexString.

(** ** The curve *)

(** [elliptic.Curve] as far as it is used: a multiplication may return nil, and
    panics on a scalar of more than 32 bytes. *)
Class EllipticCurve := {
  curve_G : point;
  curve_Add : point -> point -> point;
  curve_mul : point -> bytes -> option point
}.

(** The curve [S256] with the multiplication of the C library. *)
Definition secp256k1 (pubkey_scalar_mul : point -> bytes -> option point) : EllipticCurve := {|
  curve_G := (Gx S256, Gy S256);
  curve_Add := Add S256;
  curve_mul := pubkey_scalar_mul
|}.

Section Ring.
Context `{HC : Crypto} `{HE : EllipticCurve}.

Definition ScalarMult (p : point) (scalar : bytes) : outcome ring_err (option point) := if zlen scalar >? 32 then Panic else Ok (curve_mul p scalar).
Definition ScalarBaseMult (k : bytes) : outcome ring_err (option point) := ScalarMult curve_G k.

(** [FromECDSAPub], of a public key and of one that may be nil. *)
Definition FromECDSAPub (p : point) : bytes := Marshal S256 p.
Definition FromECDSAPub_nil (p : option point) : bytes := match p with Some p => FromECDSAPub p | None => [] end.

(** [ToECDSAPub]: [elliptic.Unmarshal] rejects points that are not on the curve. *)
Definition ToECDSAPub (pub : bytes) : option point :=
  if negb (zlen pub =? 65) then None
  else match Unmarshal S256 pub with
       | Some (x, y) => if (P S256 <=? x) || (P S256 <=? y) || negb (IsOnCurve S256 x y) then None else Some (x, y)
       | None => None
       end.

(** [toECDSA]: a private key and its public key, which may be nil. *)
Definition toECDSA (d : bytes) (strict : bool) : outcome ring_err (Z * option point) :=
  if strict && negb (8 * zlen d =? BitSize S256) then Err ErrInvalidLength
  else let! pub := ScalarBaseMult d in Ok (be_value d, pub).
Definition ToECDSA (d : bytes) := toECDSA d true.
Definition ToECDSAUnsafe (d : bytes) : outcome ring_err (option (Z * option point)) :=
  if zlen d =? 0 then Ok None else let! priv := toECDSA d false in Ok (Some priv).
Definition FromECDSA (D : Z) : bytes := PaddedBigBytes D (BitSize S256 / 8).
Definition HexToECDSA (hexkey : bytes) : outcome ring_err (Z * option point) :=
  match hex_DecodeString hexkey with (b, None) => ToECDSA b | (_, Some _) => Err ErrInvalidHexString end.

(** A nil point is used without a test. *)
Definition xScalarHashP (x : bytes) (pub : point) : outcome ring_err (option point) :=
  let! img := ScalarMult pub (Keccak256 (FromECDSAPub pub)) in
  match img with None => Panic | Some img => ScalarMult img x end.

(** A result that must not be nil. *)
Definition not_nil (r : outcome ring_err (option point)) : outcome ring_err point :=
  let! p := r in match p with Some p => Ok p | None => Err ErrRingSignFail end.

(** [randFieldElement2528] *)
Definition randFieldElement2528 (rand : bytes) : outcome ring_err (Z * bytes) :=
  if zlen rand <? 40 then Err ErrUnexpectedEOF
  else let k := be_value (take 40 rand) in Ok (k `mod` (secp256k1_N - 1) + 1, drop 40 rand).

(** *** Signing *)

(** The first loop: [q] and [w] of every position, the points [L], the sum of [w]
    at the other positions. *)
Fixpoint sign_left (s i : nat) (keys : list point) (rand : bytes) (sum : Z) : outcome ring_err (list Z * list Z * list bytes * Z) :=
  match keys with
  | [] => Ok ([], [], [], sum)
  | key :: keys =>
      let! (q, rand) := randFieldElement2528 rand in
      let! (w, rand) := randFieldElement2528 rand in
      let! l := not_nil (ScalarBaseMult (be_bytes q)) in
      let! l := (if decide (i = s) then Ok l else let! p := not_nil (ScalarMult key (be_bytes w)) in Ok (curve_Add l p)) in
      let sum := if decide (i = s) then sum else (sum + w) `mod` secp256k1_N in
      let! (qs, ws, ls, sum) := sign_left s (S i) keys rand sum in
      Ok (q :: qs, w :: ws, FromECDSAPub l :: ls, sum)
  end.

(** The second loop: the points [R]. *)
Fixpoint sign_right (s i : nat) (image : point) (keys : list point) (qs ws : list Z) : outcome ring_err (list bytes) :=
  match keys, qs, ws with
  | key :: keys, q :: qs, w :: ws =>
      let! r := not_nil (xScalarHashP (be_bytes q) key) in
      let! r := (if decide (i = s) then Ok r else let! p := not_nil (ScalarMult image (be_bytes w)) in Ok (curve_Add r p)) in
      let! rs := sign_right s (S i) image keys qs ws in
      Ok (FromECDSAPub r :: rs)
  | _, _, _ => Ok []
  end.

(** [PublicKeys[0], PublicKeys[s] = PublicKeys[s], PublicKeys[0]] *)
Definition exchange {A} (s : nat) (keys : list A) : list A :=
  match keys !! 0%nat, keys !! s with Some a, Some b => <[s := a]> (<[0%nat := b]> keys) | _, _ => keys end.

(** [s] is the random position. *)
Definition RingSign (M : bytes) (x : Z) (PublicKeys : list point) (s : nat) (rand : bytes) : outcome ring_err (list point * point * list Z * list Z) :=
  match PublicKeys with
  | [] => Err ErrInvalidRingSignParams
  | key :: _ =>
      let! image := not_nil (xScalarHashP (be_bytes x) key) in
      let keys := exchange s PublicKeys in
      let! (qs, ws, ls, sum) := sign_left s 0 keys rand 0 in
      let! rs := sign_right s 0 image keys qs ws in
      let c := (be_value (Keccak256 (M ++ concat ls ++ concat rs)) - sum) `mod` secp256k1_N in
      let r := (default 0 (qs !! s) - c * x) `mod` secp256k1_N in
      Ok (keys, image, <[s := c]> ws, <[s := r]> qs)
  end.

(** *** Verifying *)

Fixpoint verify_left (keys : list point) (cs rs : list Z) (sum : Z) : outcome ring_err (option (list bytes * Z)) :=
  match keys, cs, rs with
  | key :: keys, c :: cs, r :: rs =>
      let! l := ScalarBaseMult (be_bytes r) in
      match l with
      | None => Ok None
      | Some l =>
          let! p := ScalarMult key (be_bytes c) in
          match p with
          | None => Ok None
          | Some p =>
              let! rest := verify_left keys cs rs ((sum + c) `mod` secp256k1_N) in
              Ok (match rest with Some (ls, sum) => Some (FromECDSAPub (curve_Add l p) :: ls, sum) | None => None end)
          end
      end
  | _, _, _ => Ok (Some ([], sum))
  end.

Fixpoint verify_right (image : point) (keys : list point) (cs rs : list Z) : outcome ring_err (option (list bytes)) :=
  match keys, cs, rs with
  | key :: keys, c :: cs, r :: rs =>
      let! l := xScalarHashP (be_bytes r) key in
      match l with
      | None => Ok None
      | Some l =>
          let! p := ScalarMult image (be_bytes c) in
          match p with
          | None => Ok None
          | Some p =>
              let! rest := verify_right image keys cs rs in
              Ok (match rest with Some ls => Some (FromECDSAPub (curve_Add l p) :: ls) | None => None end)
          end
      end
  | _, _, _ => Ok (Some [])
  end.

Definition VerifyRingSign (M : bytes) (PublicKeys : list point) (image : point) (c r : list Z) : outcome ring_err bool :=
  if bool_decide (length PublicKeys = O) || negb (bool_decide (length PublicKeys = length c)) || negb (bool_decide (length PublicKeys = length r)) then Ok false
  else
    let! lefts := verify_left PublicKeys c r 0 in
    match lefts with
    | None => Ok false
    | Some (ls, sum) =>
        let! rights := verify_right image PublicKeys c r in
        match rights with
        | None => Ok false
        | Some rs => Ok (be_value (Keccak256 (M ++ concat ls ++ concat rs)) `mod` secp256k1_N =? sum)
        end
    end.

(** ** One-time keys *)

(** [hash([r]B)]G + A *)
Definition generateA1 (r : bytes) (A B : point) : outcome ring_err point :=
  let! a1 := ScalarMult B r in
  let! a1 := ScalarBaseMult (Keccak256 (FromECDSAPub_nil a1)) in
  match a1 with None => Panic | Some a1 => Ok (curve_Add a1 A) end.

Definition CompareA1 (b : bytes) (A S1 A1 : point) : outcome ring_err bool := let! A1n := generateA1 b A S1 in Ok ((A1.1 =? A1n.1) && (A1.2 =? A1n.2)).

(** [ecdsa.GenerateKey]: [randFieldElement] of that package reads the same bytes. *)
Definition GenerateKey (rand : bytes) : outcome ring_err (Z * option point) :=
  let! (k, _) := randFieldElement2528 rand in let! pub := ScalarBaseMult (be_bytes k) in Ok (k, pub).

Definition generateOneTimeKey2528 (A B : point) (rand : bytes) : outcome ring_err (point * option point) :=
  let! (d, R) := GenerateKey rand in
  let! A1 := generateA1 (be_bytes d) A B in
  Ok (A1, R).

Definition hex_coordinate (s : bytes) : outcome ring_err Z := match Decode s with Ok b => Ok (be_value b) | Err e => Err (ErrHex e) | Panic => Panic end.

Definition PKPair2HexSlice (pk1 pk2 : point) : list bytes :=
  [Encode (PaddedBigBytes pk1.1 32); Encode (PaddedBigBytes pk1.2 32); Encode (PaddedBigBytes pk2.1 32); Encode (PaddedBigBytes pk2.2 32)].

(** The error of the generation is dropped and its nil keys are then used. *)
Definition GenerateOneTimeKey (AX AY BX BY rand : bytes) : outcome ring_err (list bytes) :=
  let! ax := hex_coordinate AX in
  let! ay := hex_coordinate AY in
  let! bx := hex_coordinate BX in
  let! by_ := hex_coordinate BY in
  match generateOneTimeKey2528 (ax, ay) (bx, by_) rand with
  | Ok (A1, Some R) => Ok (PKPair2HexSlice A1 R)
  | _ => Panic
  end.

Definition GenerateOneTimePrivateKey2528 (D D2 : Z) (destPubB : point) : outcome ring_err (Z * Z) :=
  let! pub := ScalarMult destPubB (be_bytes D2) in
  Ok ((be_value (Keccak256 (FromECDSAPub_nil pub)) + D) `mod` N S256, 0).

Definition GenerteOTAPrivateKey (D D2 : Z) (AX AY BX BY : bytes) : outcome ring_err (point * (Z * Z)) :=
  let! ax := hex_coordinate AX in
  let! ay := hex_coordinate AY in
  let! bx := hex_coordinate BX in
  let! by_ := hex_coordinate BY in
  let! priv := GenerateOneTimePrivateKey2528 D D2 (bx, by_) in
  Ok ((ax, ay), priv).
End Ring.

(** ** A group of order [secp256k1_N] *)

(** The points are the multiples [pt a] of the base point.  Scalars out of range
    and sums of a point with itself or its opposite are not promised anything. *)
Class CurveLaws `{EllipticCurve} := {
  pt : Z -> point;
  pt_mod a : pt (a `mod` secp256k1_N) = pt a;
  pt_base : curve_G = pt 1;
  mul_ok a k : a `mod` secp256k1_N <> 0 -> zlen k <= 32 -> 0 < be_value k < secp256k1_N -> curve_mul (pt a) k = Some (pt (be_value k * a));
  add_ok a b : a `mod` secp256k1_N <> 0 -> b `mod` secp256k1_N <> 0 -> (a - b) `mod` secp256k1_N <> 0 -> (a + b) `mod` secp256k1_N <> 0 ->
    curve_Add (pt a) (pt b) = pt (a + b)
}.

Section Complete.
Context `{HK : CryptoLaws} `{HL : CurveLaws}.

Local Abbreviation N := secp256k1_N.

Lemma N_pos : 1 < N.
Proof. reflexivity. Qed.

Lemma N_small : N < 256 ^ 32.
Proof. reflexivity. Qed.

Lemma pt_congr a b : a `mod` N = b `mod` N -> pt a = pt b.
Proof. intros E. rewrite <- (pt_mod a), E. apply pt_mod. Qed.

(** The scalar of the hash of a key, and the key image of [x]. *)
Definition hash_scalar (a : Z) : Z := be_value (Keccak256 (FromECDSAPub (pt a))).
Definition image_scalar (x : Z) : Z := x * (hash_scalar x * x).

Definition nonzero (a : Z) : bool := negb (a `mod` N =? 0).
Definition in_range (k : Z) : bool := (0 <? k) && (k <? N).
Definition summable (a b : Z) : bool := nonzero a && nonzero b && nonzero (a - b) && nonzero (a + b).

(** No scalar is out of range and no sum is exceptional at the position of the
    signer [x], whose answer is [r] to the challenge [c]; what is excluded has
    negligible probability. *)
Definition regular (x c r : Z) : bool :=
  in_range x && in_range c && in_range r && in_range (hash_scalar x) && nonzero (hash_scalar x * x) && nonzero (image_scalar x) &&
  summable r (c * x) && summable (r * (hash_scalar x * x)) (c * image_scalar x).

Lemma nonzero_ok a : nonzero a = true <-> a `mod` N <> 0.
Proof. unfold nonzero. by rewrite negb_true_iff, Z.eqb_neq. Qed.

Lemma in_range_ok k : in_range k = true <-> 0 < k < N.
Proof. unfold in_range. rewrite andb_true_iff, !Z.ltb_lt. done. Qed.

(** A multiplication that is defined. *)
Lemma be_bytes_len k : 0 < k < N -> zlen (be_bytes k) <= 32.
Proof.
  intros Hk. unfold be_bytes. rewrite zlen_be_pad. pose proof (byte_len_bounds k ltac:(lia)) as [B _]. pose proof N_small.
  assert (256 ^ (Z.of_nat (byte_len k) - 1) < 256 ^ 32) as P by lia. apply Z.pow_lt_mono_r_iff in P; lia.
Qed.

Lemma mul_scalar a k : a `mod` N <> 0 -> 0 < k < N -> ScalarMult (pt a) (be_bytes k) = Ok (Some (pt (k * a))).
Proof.
  intros Ha Hk. unfold ScalarMult. pose proof (be_bytes_len k Hk). rewrite Z.gtb_ltb, (proj2 (Z.ltb_ge _ _)) by lia.
  pose proof (be_value_bytes k ltac:(lia)) as E. rewrite mul_ok; rewrite ?E; auto.
Qed.

Lemma mul_base k : 0 < k < N -> ScalarBaseMult (be_bytes k) = Ok (Some (pt k)).
Proof. intros Hk. unfold ScalarBaseMult. rewrite pt_base, mul_scalar; [by rewrite Z.mul_1_r| |done]. by rewrite Z.mod_1_l by apply N_pos. Qed.

Lemma mul_hash a k : a `mod` N <> 0 -> 0 < hash_scalar a < N -> (hash_scalar a * a) `mod` N <> 0 -> 0 < k < N -> zlen (Keccak256 (FromECDSAPub (pt a))) <= 32 ->
  xScalarHashP (be_bytes k) (pt a) = Ok (Some (pt (k * (hash_scalar a * a)))).
Proof.
  intros Ha Hh Hn Hk Hl. unfold xScalarHashP. unfold ScalarMult at 1. rewrite Z.gtb_ltb, (proj2 (Z.ltb_ge _ _)) by lia. cbn [obind]. rewrite mul_ok by done.
  by apply mul_scalar.
Qed.

Lemma rand_range rand k rest : randFieldElement2528 rand = Ok (k, rest) -> 0 < k < N.
Proof.
  unfold randFieldElement2528. destruct (_ <? 40); [done|]. intros [= <- _]. pose proof N_pos. pose proof (Z.mod_pos_bound (be_value (take 40 rand)) (N - 1) ltac:(lia)). lia.
Qed.

Lemma summable_ok a b : summable a b = true -> curve_Add (pt a) (pt b) = pt (a + b).
Proof. unfold summable. rewrite !andb_true_iff, !nonzero_ok. intros [[[? ?] ?] ?]. by apply add_ok. Qed.

(** *** The two loops of the verifier repeat those of the signer *)

(** [l] with [c] at position [s], the first position being [i]. *)
Fixpoint fix_at {A} (s i : nat) (c : A) (l : list A) : list A :=
  match l with [] => [] | w :: l => (if decide (i = s) then c else w) :: fix_at s (S i) c l end.

Lemma fix_at_past {A} s i (c : A) l : (s < i)%nat -> fix_at s i c l = l.
Proof. revert i. induction l as [|w l IH]; intros i Hi; simpl; [done|]. rewrite decide_False by lia. f_equal. apply IH. lia. Qed.

Lemma fix_at_insert {A} d i (c : A) l : fix_at (i + d) i c l = <[d := c]> l.
Proof.
  revert d i. induction l as [|w l IH]; intros d i; simpl; [done|]. destruct d as [|d]; simpl.
  - rewrite decide_True by lia. f_equal. apply fix_at_past. lia.
  - rewrite decide_False by lia. f_equal. replace (i + S d)%nat with (S i + d)%nat by lia. apply IH.
Qed.

Definition total (l : list Z) : Z := foldr Z.add 0 l.

Lemma total_fix d c l : (d < length l)%nat -> total (<[d := c]> l) = total (<[d := 0]> l) + c.
Proof.
  revert d. induction l as [|w l IH]; intros [|d] Hd; simpl length in *; [lia..|change (c + total l = 0 + total l + c); lia|].
  change (w + total (<[d := c]> l) = w + total (<[d := 0]> l) + c). rewrite IH by lia. lia.
Qed.

Lemma not_nil_ok r p : not_nil r = Ok p -> r = Ok (Some p).
Proof. unfold not_nil. destruct r as [[?|]| |]; simpl; congruence. Qed.

Lemma sign_left_sum s i keys rand sum qs ws ls sum' : sign_left s i keys rand sum = Ok (qs, ws, ls, sum') -> 0 <= sum < N ->
  sum' = (sum + total (fix_at s i 0 ws)) `mod` N /\ length qs = length keys /\ length ws = length keys.
Proof.
  revert i rand sum qs ws ls sum'. induction keys as [|key keys IH]; intros i rand sum qs ws ls sum'; cbn [sign_left]; intros E Hs; oks.
  - simpl. rewrite Z.add_0_r, Z.mod_small by lia. auto.
  - match goal with H : sign_left _ _ _ _ _ = _ |- _ => apply IH in H as (-> & ? & ?) end; [|case_decide; [lia|apply Z.mod_pos_bound; reflexivity]].
    simpl. unfold total in *. simpl. case_decide; split_and!; try lia; rewrite ?Zplus_mod_idemp_l; f_equal; lia.
Qed.

Lemma verify_left_sum keys cs rs sum ls sum' : verify_left keys cs rs sum = Ok (Some (ls, sum')) -> 0 <= sum < N -> length keys = length cs -> length keys = length rs ->
  sum' = (sum + total cs) `mod` N.
Proof.
  revert cs rs sum ls sum'. induction keys as [|key keys IH]; intros [|c cs] [|r rs] sum ls sum'; try done; cbn [verify_left].
  - intros [= <- <-] Hs _ _. simpl. rewrite Z.add_0_r, Z.mod_small; lia.
  - intros E Hs Hc Hr. oks. destruct a; [|done]. oks. destruct a; [|done]. oks. destruct a as [[? ?]|]; [|done]. injection E as <- <-.
    apply IH in E2; [|apply Z.mod_pos_bound; reflexivity|simpl in *; lia..]. rewrite E2, Zplus_mod_idemp_l. simpl. f_equal. lia.
Qed.

(** What the answer [r] of the signer means at its position. *)
Definition answers (s i : nat) (x c r : Z) (keys : list point) (qs : list Z) : Prop :=
  forall j q key, (i + j)%nat = s -> qs !! j = Some q -> keys !! j = Some key -> key = pt x /\ r = (q - c * x) `mod` N.

Lemma answers_tail s i x c r key keys q qs : answers s i x c r (key :: keys) (q :: qs) -> answers s (S i) x c r keys qs.
Proof. intros Ha j q' key' Hj. apply (Ha (S j)). lia. Qed.

Lemma regular_left x c r q : regular x c r = true -> r = (q - c * x) `mod` N -> 0 < q < N ->
  exists l p, ScalarBaseMult (be_bytes r) = Ok (Some l) /\ ScalarMult (pt x) (be_bytes c) = Ok (Some p) /\ ScalarBaseMult (be_bytes q) = Ok (Some (curve_Add l p)).
Proof.
  unfold regular. rewrite !andb_true_iff, !in_range_ok, !nonzero_ok. intros [[[[[[[Hx Hc] Hr] _] _] _] Hs] _] Er Hq.
  exists (pt r), (pt (c * x)). rewrite (mul_base q Hq), (mul_base r Hr), mul_scalar, (summable_ok _ _ Hs) by (rewrite ?Z.mod_small; lia).
  split_and!; try done. do 2 f_equal. apply pt_congr. rewrite Er, Zplus_mod_idemp_l. f_equal. lia.
Qed.

Lemma left_same s i x c r keys rand sum sumv qs ws ls sum' : sign_left s i keys rand sum = Ok (qs, ws, ls, sum') -> answers s i x c r keys qs -> regular x c r = true ->
  exists sumv', verify_left keys (fix_at s i c ws) (fix_at s i r qs) sumv = Ok (Some (ls, sumv')).
Proof.
  revert i rand sum sumv qs ws ls sum'. induction keys as [|key keys IH]; intros i rand sum sumv qs ws ls sum'; cbn [sign_left]; intros E Ha Hreg; oks; [cbn [verify_left]; eauto|].
  rename z into q, z0 into w. cbn [fix_at verify_left].
  match goal with H : sign_left _ _ _ _ _ = _ |- _ => pose proof (fun v => IH _ _ _ v _ _ _ _ H ltac:(by eapply answers_tail) Hreg) as Hv end.
  match goal with H : not_nil (ScalarBaseMult _) = _ |- _ => apply not_nil_ok in H as Eq end. case_decide as Hi; oks.
  - destruct (Ha O q key ltac:(lia) eq_refl eq_refl) as [-> Er].
    destruct (regular_left x c r q Hreg Er ltac:(by eapply rand_range)) as (lft & rgt & -> & -> & Eq'). rewrite Eq in Eq'. injection Eq' as ->.
    cbn [obind]. match goal with |- context [verify_left _ _ _ ?v] => destruct (Hv v) as [sumv' ->] end. cbn [obind]. eauto.
  - match goal with H : not_nil (ScalarMult _ _) = _ |- _ => apply not_nil_ok in H as -> end. rewrite Eq.
    cbn [obind]. match goal with |- context [verify_left _ _ _ ?v] => destruct (Hv v) as [sumv' ->] end. cbn [obind]. eauto.
Qed.

Lemma hash_len b : zlen (Keccak256 b) <= 32.
Proof. pose proof (Keccak256_ok b) as [_ ->]. done. Qed.

Lemma regular_right x c r q : regular x c r = true -> r = (q - c * x) `mod` N -> 0 < q < N ->
  exists l p, xScalarHashP (be_bytes r) (pt x) = Ok (Some l) /\ ScalarMult (pt (image_scalar x)) (be_bytes c) = Ok (Some p) /\
    xScalarHashP (be_bytes q) (pt x) = Ok (Some (curve_Add l p)).
Proof.
  unfold regular. rewrite !andb_true_iff, !in_range_ok, !nonzero_ok. intros [[[[[[[Hx Hc] Hr] Hh] Hn] Hi] _] Hs] Er Hq.
  exists (pt (r * (hash_scalar x * x))), (pt (c * image_scalar x)).
  rewrite !mul_hash, mul_scalar, (summable_ok _ _ Hs) by (try apply hash_len; rewrite ?(Z.mod_small x); lia).
  split_and!; try done. do 2 f_equal. apply pt_congr. rewrite Er, <- Zplus_mod_idemp_l, Zmult_mod_idemp_l, Zplus_mod_idemp_l.
  f_equal. unfold image_scalar. ring.
Qed.

Lemma right_same s i x c r keys qs ws ls : sign_right s i (pt (image_scalar x)) keys qs ws = Ok ls -> Forall (fun q => 0 < q < N) qs ->
  length qs = length keys -> length ws = length keys -> answers s i x c r keys qs -> regular x c r = true ->
  verify_right (pt (image_scalar x)) keys (fix_at s i c ws) (fix_at s i r qs) = Ok (Some ls).
Proof.
  revert i qs ws ls. induction keys as [|key keys IH]; intros i [|q qs] [|w ws] ls; try done; cbn [sign_right fix_at verify_right]; [congruence|].
  intros E Hq Lq Lw Ha Hreg. inversion Hq. oks. match goal with H : not_nil (xScalarHashP _ _) = _ |- _ => apply not_nil_ok in H as Eq end.
  match goal with H : sign_right _ _ _ _ _ _ = _ |- _ => apply IH in H as Hv; [|done|simpl in *; lia|simpl in *; lia|by eapply answers_tail|done] end.
  case_decide as Hi; oks.
  - destruct (Ha O q key ltac:(lia) eq_refl eq_refl) as [-> Er].
    destruct (regular_right x c r q Hreg Er ltac:(done)) as (lft & rgt & -> & -> & Eq'). rewrite Eq in Eq'. injection Eq' as ->. cbn [obind]. by rewrite Hv.
  - match goal with H : not_nil (ScalarMult _ _) = _ |- _ => apply not_nil_ok in H as -> end. rewrite Eq. cbn [obind]. by rewrite Hv.
Qed.

Lemma sign_left_range s i keys rand sum qs ws ls sum' : sign_left s i keys rand sum = Ok (qs, ws, ls, sum') -> Forall (fun q => 0 < q < N) qs.
Proof.
  revert i rand sum qs ws ls sum'. induction keys as [|key keys IH]; intros i rand sum qs ws ls sum'; cbn [sign_left]; intros E; oks; constructor; [by eapply rand_range|by eapply IH].
Qed.

Lemma exchange_at {A} s (a : A) l : (s <= length l)%nat -> exchange s (a :: l) !! s = Some a.
Proof.
  intros Hs. unfold exchange. simpl. destruct ((a :: l) !! s) as [b|] eqn:E; [|apply lookup_ge_None in E; simpl in E; lia].
  apply list_lookup_insert_eq. simpl. lia.
Qed.

Lemma exchange_length {A} s (l : list A) : length (exchange s l) = length l.
Proof. unfold exchange. destruct (l !! 0%nat), (l !! s); try done. by rewrite !length_insert. Qed.

(** The parameters of a ring of which a member signs. *)
Lemma image_of x c r image : regular x c r = true -> not_nil (xScalarHashP (be_bytes x) (pt x)) = Ok image -> image = pt (image_scalar x).
Proof.
  unfold regular. rewrite !andb_true_iff, !in_range_ok, !nonzero_ok. intros [[[[[[[Hx Hc] Hr] Hh] Hn] Hi] _] _] E. apply not_nil_ok in E.
  rewrite mul_hash in E by (try apply hash_len; rewrite ?(Z.mod_small x); lia). by injection E as <-.
Qed.

Lemma signed_answers s x c keys qs : keys !! s = Some (pt x) -> answers s 0 x c ((default 0 (qs !! s) - c * x) `mod` N) keys qs.
Proof. intros Hk j q key Hj Hq Hj'. simpl in Hj. subst j. rewrite Hq. simpl. split; congruence. Qed.

(** The sum of the challenges is the hash. *)
Lemma challenge_sum h s sum ws : (s < length ws)%nat -> sum = (0 + total (<[s := 0]> ws)) `mod` N ->
  (0 + total (<[s := (h - sum) `mod` N]> ws)) `mod` N = h `mod` N.
Proof.
  intros Hs ->. rewrite total_fix by done. rewrite !Z.add_0_l, Zplus_mod_idemp_r. rewrite <- Zplus_mod_idemp_r, Zminus_mod_idemp_r, Zplus_mod_idemp_r.
  f_equal. lia.
Qed.

(** C27: A ring signature verifies: what [RingSign] makes of a message, a private key
    [x] and a ring whose first member is the public key of [x] is accepted by
    [VerifyRingSign], whatever the position, the other keys and the random numbers,
    and its key image depends on [x] alone, so that two signatures by one key are
    linked. *)
Theorem ring_sign_verifies M x others s rand keys image cs rs :
  RingSign M x (pt x :: others) s rand = Ok (keys, image, cs, rs) -> (s <= length others)%nat ->
  regular x (nth s cs 0) (nth s rs 0) = true -> VerifyRingSign M keys image cs rs = Ok true /\ image = pt (image_scalar x).
Proof.
  intros E Hs Hreg. unfold RingSign in E. pose proof (exchange_at s (pt x) others Hs) as Hk. pose proof (exchange_length s (pt x :: others)) as Hl.
  set (ks0 := exchange s (pt x :: others)) in *. clearbody ks0. oks. rename keys into ks, l0 into qs, l1 into ws, l into ls, z into sum.
  destruct (sign_left_sum _ _ _ _ _ _ _ _ _ E1 ltac:(split; reflexivity)) as (Hsum & Lq & Lw). rewrite (fix_at_insert s 0) in Hsum.
  set (c := (be_value _ - sum) `mod` N) in *. set (r := (_ - c * x) `mod` N) in *.
  rewrite !nth_lookup, !list_lookup_insert_eq in Hreg by (simpl in *; lia). cbn [default] in Hreg.
  rewrite (image_of x c r image Hreg E0) in *. split; [|done]. pose proof (signed_answers s x c ks qs Hk) as Ha. fold r in Ha.
  destruct (left_same _ _ _ _ _ _ _ _ 0 _ _ _ _ E1 Ha Hreg) as [sumv Ev]. pose proof (right_same _ _ _ _ _ _ _ _ _ E2 ltac:(by eapply sign_left_range) Lq Lw Ha Hreg) as Er.
  rewrite !(fix_at_insert s 0) in *. unfold VerifyRingSign. rewrite !length_insert, (bool_decide_eq_false_2 (length ks = 0%nat)), !bool_decide_eq_true_2 by (simpl in *; lia).
  cbn [orb negb]. rewrite Ev. cbn [obind]. rewrite Er. cbn [obind]. f_equal. apply Z.eqb_eq.
  rewrite (verify_left_sum _ _ _ _ _ _ Ev) by (rewrite ?length_insert; (split; reflexivity) || (simpl in *; lia)). symmetry. apply challenge_sum; [simpl in *; lia|done].
Qed.

(** ** One-time keys are spent by their receiver *)

(** The secret that the sender and the receiver share. *)
Definition shared_scalar (a : Z) : Z := be_value (Keccak256 (FromECDSAPub (pt a))).

Lemma mul_bytes a k : a `mod` N <> 0 -> zlen k <= 32 -> 0 < be_value k < N -> ScalarMult (pt a) k = Ok (Some (pt (be_value k * a))).
Proof. intros Ha Hl Hk. unfold ScalarMult. rewrite Z.gtb_ltb, (proj2 (Z.ltb_ge _ _)) by lia. by rewrite mul_ok. Qed.

Lemma generateA1_ok k a b : in_range k = true -> b `mod` N <> 0 -> in_range (shared_scalar (k * b)) = true -> summable (shared_scalar (k * b)) a = true ->
  generateA1 (be_bytes k) (pt a) (pt b) = Ok (pt (shared_scalar (k * b) + a)).
Proof.
  rewrite !in_range_ok. intros Hk Hb Hh Hs. unfold generateA1. rewrite mul_scalar by done. cbn [obind FromECDSAPub_nil].
  unfold ScalarBaseMult. rewrite pt_base, mul_bytes; [|by rewrite Z.mod_1_l by apply N_pos|apply hash_len|done]. cbn [obind]. fold (shared_scalar (k * b)).
  by rewrite Z.mul_1_r, summable_ok.
Qed.

(** C28: A one-time key [A1] made for the public keys [pt a] and [pt b] with the random
    number [d] is recognised with [b], and its private key is computed from [a] and
    [b] alone. *)
Theorem one_time_key_spendable a b d rand rest : in_range a = true -> in_range b = true -> randFieldElement2528 rand = Ok (d, rest) ->
  in_range (shared_scalar (d * b)) = true -> summable (shared_scalar (d * b)) a = true ->
  exists k, generateOneTimeKey2528 (pt a) (pt b) rand = Ok (pt k, Some (pt d)) /\
    GenerateOneTimePrivateKey2528 a b (pt d) = Ok (k, 0) /\
    ScalarBaseMult (be_bytes k) = Ok (Some (pt k)) /\
    CompareA1 (be_bytes b) (pt a) (pt d) (pt k) = Ok true.
Proof.
  intros Ha Hb Hd Hh Hs. pose proof (rand_range _ _ _ Hd) as Rd. pose proof (proj1 (in_range_ok _) Hb) as Rb.
  assert (b `mod` N <> 0) by (rewrite Z.mod_small; lia). assert (d `mod` N <> 0) by (rewrite Z.mod_small; lia).
  set (h := shared_scalar (d * b)) in *. exists ((h + a) `mod` N). rewrite !pt_mod.
  assert (in_range ((h + a) `mod` N) = true) as Rk.
  { unfold summable in Hs. rewrite !andb_true_iff, !nonzero_ok in Hs. destruct Hs as [_ Hn]. apply in_range_ok. pose proof (Z.mod_pos_bound (h + a) N ltac:(reflexivity)). lia. }
  split_and!.
  - unfold generateOneTimeKey2528, GenerateKey. rewrite Hd. cbn [obind]. rewrite (mul_base d Rd). cbn [obind].
    rewrite generateA1_ok; [done|by apply in_range_ok|done..].
  - unfold GenerateOneTimePrivateKey2528. rewrite mul_scalar by done. cbn [obind FromECDSAPub_nil]. rewrite (Z.mul_comm b d). done.
  - rewrite (mul_base _ (proj1 (in_range_ok _) Rk)). by rewrite pt_mod.
  - unfold CompareA1. rewrite (generateA1_ok b a d); rewrite ?(Z.mul_comm b d); try done. cbn [obind]. by rewrite !Z.eqb_refl.
Qed.
End Complete.

(** ** Keys as bytes *)

Lemma ToECDSAPub_FromECDSAPub x y : 0 <= x < P S256 -> 0 <= y < P S256 -> IsOnCurve S256 x y = true -> ToECDSAPub (FromECDSAPub (x, y)) = Some (x, y).
Proof.
  intros Hx Hy Hc. assert (P S256 < 256 ^ 32) as HP by reflexivity. unfold ToECDSAPub, FromECDSAPub, Unmarshal, Marshal. cbn [fst snd].
  change (Z.to_nat (byteLen S256)) with 32%nat. set (bx := be_pad 32 x). set (by_ := be_pad 32 y).
  assert (length bx = 32%nat) as Lx by (unfold bx; apply length_be_pad). assert (length by_ = 32%nat) as Ly by (unfold by_; apply length_be_pad).
  assert (zlen (4 :: bx ++ by_) = 65) as -> by (unfold zlen; rewrite length_cons, length_app; lia). change (65 =? 65) with true. cbn [negb].
  change (65 =? 1 + 2 * byteLen S256) with true. cbn [negb]. change (default 0 ((4 :: bx ++ by_) !! 0%nat) =? 4) with true. cbn [negb].
  change (drop 1 (4 :: bx ++ by_)) with (bx ++ by_). change (drop (1 + 32) (4 :: bx ++ by_)) with (drop 32 (bx ++ by_)).
  rewrite take_app_length', drop_app_length' by done. unfold bx, by_. rewrite !be_value_pad by lia. change (256 ^ Z.of_nat 32) with (256 ^ 32). rewrite !Z.mod_small by lia.
  rewrite (proj2 (Z.leb_gt _ _)), (proj2 (Z.leb_gt _ _)), Hc by lia. done.
Qed.

(** ** A group with its laws *)

(** Points as scalars: [a] is the point (a, 0). *)
Definition toy_curve : EllipticCurve := {|
  curve_G := (1, 0);
  curve_Add p q := ((p.1 + q.1) `mod` secp256k1_N, 0);
  curve_mul p k := if be_value k =? 0 then None else Some ((be_value k * p.1) `mod` secp256k1_N, 0)
|}.

Definition toy_laws : @CurveLaws toy_curve.
Proof.
  refine {| pt := fun a => (a `mod` secp256k1_N, 0) |}.
  - intros a. by rewrite Z.mod_mod.
  - done.
  - intros a k _ _ Hk. cbn [curve_mul toy_curve fst]. rewrite (proj2 (Z.eqb_neq _ _)) by lia. by rewrite Zmult_mod_idemp_r.
  - intros a b _ _ _ _. cbn [curve_Add toy_curve fst]. by rewrite <- Zplus_mod.
Defined.

#[local] Existing Instances toy_curve toy_laws keccak_crypto keccak_crypto_laws.

Definition toy_rand : bytes := map (fun k => Z.of_nat k `mod` 251) (seq 1 320).
Definition toy_signature := Eval vm_compute in RingSign [1; 2; 3] 5 [pt 5; pt 7; pt 11] 1 toy_rand.

Lemma ring_sign_verifies_witness : exists keys image cs rs, toy_signature = Ok (keys, image, cs, rs) /\ VerifyRingSign [1; 2; 3] keys image cs rs = Ok true.
Proof.
  do 4 eexists. split; [reflexivity|]. refine (proj1 (ring_sign_verifies [1; 2; 3] 5 [pt 7; pt 11] 1 toy_rand _ _ _ _ _ _ _)); vm_compute; [reflexivity|lia|reflexivity].
Defined.

Lemma one_time_key_spendable_witness : exists k, GenerateOneTimePrivateKey2528 5 7 (pt 99) = Ok (k, 0).
Proof.
  destruct (one_time_key_spendable 5 7 99 (replicate 39 0 ++ [98]) []) as (k & _ & E & _); [vm_compute; reflexivity..|]. by exists k.
Defined.
