(* ===== verification/TransactionSigning.v ===== *)
(** Claims on signing transactions: [core/types/transaction_signing.go]. *)
From S2P Require Import Prelude BigMath RlpEncode RlpDecode RlpCodec RlpTheorems RlpRaw IstanbulTypes ValidatorSet KeccakCrypto IstanbulHeader Transaction.

(** What the documentation of [crypto/secp256k1] promises: signatures are
    R, S, V with S in the lower half of the group order and V 0 or 1, and the public
    key of the signer is recovered from the signature. *)
Class EcdsaLaws `{Ecdsa} := {
  pubkey : PrivateKey -> bytes;
  pubkey_form k : head (pubkey k) = Some 4;
  Sign_form h k sig : crypto_Sign h k = Some sig ->
    bytes_ok sig /\ length sig = 65%nat /\ 1 <= be_value (take 32 sig) < secp256k1_N /\
    1 <= be_value (take 32 (drop 32 sig)) <= secp256k1_halfN /\ (sig !! 64%nat = Some 0 \/ sig !! 64%nat = Some 1);
  Sign_recovers h k sig : crypto_Sign h k = Some sig -> Ecrecover h sig = Some (pubkey k)
}.

(** ** Reassembling a signature *)

Lemma be_pad_zeros k n : 0 <= n -> (byte_len n <= k)%nat ->
  be_pad k n = replicate (k - length (be_bytes n)) 0 ++ be_bytes n.
Proof.
  intros Hn Hk. unfold be_bytes. rewrite length_be_pad. remember (k - byte_len n)%nat as j eqn:Ej.
  assert (k = (j + byte_len n)%nat) as -> by lia. clear Ej Hk.
  assert (G : forall j n m, 0 <= n < 256 ^ Z.of_nat m -> be_pad (j + m) n = replicate j 0 ++ be_pad m n).
  { clear. intros j n m. revert n. induction m as [|m IH]; intros n Hn.
    - rewrite Nat.add_0_r, app_nil_r. change (256 ^ Z.of_nat 0) with 1 in Hn. assert (n = 0) as -> by lia.
      induction j as [|j IHj]; [done|]. simpl be_pad. rewrite Zdiv_0_l, IHj. change (0 `mod` 256) with 0.
      by rewrite replicate_S_end.
    - rewrite Nat.add_succ_r. simpl be_pad. rewrite IH; [by rewrite app_assoc|].
      rewrite Nat2Z.inj_succ, Z.pow_succ_r in Hn by lia. split; [apply Z.div_pos; lia|apply Z.div_lt_upper_bound; lia]. }
  apply G. destruct (Z.eq_dec n 0) as [->|]; [by vm_compute|]. pose proof (byte_len_bounds n ltac:(lia)). lia.
Qed.

Lemma store_zeros k n l1 l2 : 0 <= n -> (byte_len n <= k)%nat ->
  store_at (length l1 + k - length (be_bytes n)) (be_bytes n) (l1 ++ replicate k 0 ++ l2) = l1 ++ be_pad k n ++ l2.
Proof.
  intros Hn Hk. rewrite be_pad_zeros by done. unfold store_at.
  assert (L : length (be_bytes n) = byte_len n) by apply length_be_pad. rewrite L.
  replace (length l1 + k - byte_len n)%nat with (length l1 + (k - byte_len n))%nat by lia.
  rewrite take_app_add, <- Nat.add_assoc, drop_app_add.
  rewrite take_app_le by (rewrite length_replicate; lia). rewrite take_replicate, Nat.min_l by lia.
  rewrite drop_app_ge by (rewrite length_replicate; lia). rewrite length_replicate.
  replace (k - byte_len n + byte_len n - k)%nat with 0%nat by lia. by rewrite <- !app_assoc.
Qed.

Lemma byte_len_32 n : 0 <= n < secp256k1_N -> (byte_len n <= 32)%nat.
Proof. intros Hn. apply byte_len_le. assert (secp256k1_N < 256 ^ Z.of_nat 32) by done. lia. Qed.

(** The signature that [recoverPlain] builds. *)
Definition sig_of (R S V : Z) : bytes := be_pad 32 R ++ be_pad 32 S ++ [V].

Lemma build_sig R S V : 0 <= R < secp256k1_N -> 0 <= S < secp256k1_N ->
  <[64%nat := V]> (store_at (64 - length (be_bytes S)) (be_bytes S)
    (store_at (32 - length (be_bytes R)) (be_bytes R) (replicate 65 0))) = sig_of R S V.
Proof.
  intros HR HS. change (replicate 65 0) with ([] ++ replicate 32 0 ++ (replicate 32 0 ++ [0])).
  pose proof (store_zeros 32 R [] (replicate 32 0 ++ [0]) ltac:(lia) (byte_len_32 R HR)) as E.
  change (length [] + 32 - length (be_bytes R))%nat with (32 - length (be_bytes R))%nat in E. rewrite E. clear E.
  pose proof (store_zeros 32 S (be_pad 32 R) [0] ltac:(lia) (byte_len_32 S HS)) as E.
  rewrite length_be_pad in E. change (32 + 32 - length (be_bytes S))%nat with (64 - length (be_bytes S))%nat in E.
  change ([] ++ ?a ++ ?b) with (a ++ b). rewrite E. clear E. unfold sig_of.
  rewrite insert_app_r_alt by (rewrite length_be_pad; lia). f_equal.
Qed.

Lemma sig_of_parts sig V : bytes_ok sig -> length sig = 65%nat -> sig !! 64%nat = Some V ->
  sig_of (be_value (take 32 sig)) (be_value (take 32 (drop 32 sig))) V = sig.
Proof.
  intros Hok Hl HV. unfold sig_of.
  pose proof (be_pad_value (take 32 sig) ltac:(by apply Forall_take)) as E1.
  pose proof (be_pad_value (take 32 (drop 32 sig)) ltac:(by apply Forall_take, Forall_drop)) as E2.
  rewrite length_take, Hl in E1. rewrite length_take, length_drop, Hl in E2.
  change (32 `min` 65)%nat with 32%nat in E1. change (32 `min` (65 - 32))%nat with 32%nat in E2. rewrite E1, E2.
  symmetry. rewrite <- (take_drop 32 sig) at 1. f_equal. rewrite <- (take_drop 32 (drop 32 sig)) at 1. f_equal.
  rewrite drop_drop. change (32 + 32)%nat with 64%nat. rewrite (drop_S _ V) by done.
  by rewrite drop_ge by lia.
Qed.

(** ** Recovering *)

Lemma big_BitLen_small x : 0 <= x < 256 -> (big_BitLen x >? 8) = false.
Proof.
  intros Hx. unfold big_BitLen. destruct (Z.eqb_spec x 0); [done|].
  assert (Z.log2 (Z.abs x) < 8) by (apply Z.log2_lt_pow2; lia). rewrite Z.gtb_ltb. apply Z.ltb_ge. lia.
Qed.

Section Signing.
Context `{CryptoLaws} `{Ecdsa}.

(** The end of [recoverPlain]. *)
Definition recover_sig (h : hash) (sig : bytes) : outcome tx_err address :=
  match Ecrecover h sig with
  | None => Err errEcdsa
  | Some pub =>
      if (zlen pub =? 0) || negb (default 0 (head pub) =? 4) then Err errInvalidPublicKey
      else Ok (drop 12 (Keccak256 (drop 1 pub)))
  end.

(** [recoverPlain] in closed form: the checks, then a recovery; it never panics. *)
Lemma recoverPlain_eq h R S Vb homestead :
  recoverPlain h R S Vb homestead =
  if bool_decide ((Vb = 27 \/ Vb = 28 \/ Vb = -27 \/ Vb = -28) /\ 1 <= R < secp256k1_N /\ 1 <= S < secp256k1_N /\
      (homestead = true -> S <= secp256k1_halfN))
  then recover_sig h (sig_of R S (Z.abs Vb - 27)) else Err ErrInvalidSig.
Proof.
  unfold recoverPlain. destruct (big_BitLen Vb >? 8) eqn:EB.
  { rewrite bool_decide_false; [done|]. intros [HV _]. revert EB. by destruct HV as [->|[->|[->| ->]]]. }
  rewrite Z.gtb_ltb, Z.ltb_ge in EB. apply big_BitLen_bound in EB; [|lia]. change (2 ^ 8) with 256 in EB.
  set (V := u8 _). unfold ValidateSignatureValues.
  assert (EV : V = 0 \/ V = 1 <-> Vb = 27 \/ Vb = 28 \/ Vb = -27 \/ Vb = -28).
  { subst V. unfold u8, u64, big_Uint64, u64. rewrite (Z.mod_small (Z.abs Vb)) by lia.
    destruct (Z.le_gt_cases 27 (Z.abs Vb)).
    - rewrite (Z.mod_small (Z.abs Vb - 27) (2 ^ 64)) by lia. rewrite Z.mod_small by lia. lia.
    - replace (Z.abs Vb - 27) with (2 ^ 64 + Z.abs Vb - 27 + (-1) * 2 ^ 64) by lia. rewrite Z_mod_plus_full.
      rewrite (Z.mod_small (2 ^ 64 + Z.abs Vb - 27)) by lia.
      replace (2 ^ 64 + Z.abs Vb - 27) with (229 + Z.abs Vb + (2 ^ 56 - 1) * 256) by lia.
      rewrite Z_mod_plus_full, Z.mod_small by lia. lia. }
  assert (EV' : V = 0 \/ V = 1 -> V = Z.abs Vb - 27).
  { intros HV. apply EV in HV. subst V. by destruct HV as [->|[->|[->| ->]]]. }
  destruct (Z.ltb_spec R 1); [simpl; rewrite bool_decide_false by lia; done|].
  destruct (Z.ltb_spec S 1); [simpl; rewrite bool_decide_false by lia; done|]. simpl.
  destruct (homestead && (S >? secp256k1_halfN)) eqn:Eh.
  { apply andb_true_iff in Eh as [-> Eh]. apply Z.gtb_lt in Eh. simpl. rewrite bool_decide_false; [done|].
    intros (_ & _ & _ & Hs). specialize (Hs eq_refl). lia. }
  assert (Hs : homestead = true -> S <= secp256k1_halfN).
  { intros ->. simpl in Eh. rewrite Z.gtb_ltb, Z.ltb_ge in Eh. done. }
  destruct (Z.ltb_spec R secp256k1_N); [|simpl; rewrite bool_decide_false by lia; done].
  destruct (Z.ltb_spec S secp256k1_N); [|simpl; rewrite bool_decide_false by lia; done]. simpl.
  destruct ((V =? 0) || (V =? 1)) eqn:EVb.
  - rewrite orb_true_iff, !Z.eqb_eq in EVb. rewrite bool_decide_true by (split; [by apply EV|split_and!; lia || done]).
    simpl. pose proof (byte_len_32 R ltac:(lia)). pose proof (byte_len_32 S ltac:(lia)).
    assert (length (be_bytes R) = byte_len R /\ length (be_bytes S) = byte_len S) as [LR LS] by (split; apply length_be_pad).
    rewrite (proj2 (Nat.ltb_ge _ _)) by (rewrite LR; lia). rewrite (proj2 (Nat.ltb_ge _ _)) by (rewrite LS; lia). simpl orb. cbv iota.
    rewrite build_sig by lia. rewrite <- EV' by done. done.
  - rewrite orb_false_iff, !Z.eqb_neq in EVb. simpl. rewrite bool_decide_false; [done|]. intros [HV _]. apply EV in HV. lia.
Qed.

Lemma recoverPlain_total h R S V b : recoverPlain h R S V b <> Panic.
Proof. rewrite recoverPlain_eq. unfold recover_sig. repeat case_match; done. Qed.

Lemma Signer_Sender_total s tx : Signer_Sender s tx <> Panic.
Proof. unfold Signer_Sender, plain_Sender. repeat case_match; auto using recoverPlain_total. Qed.

(** ** Chain ids *)

Lemma protected_V c b : 0 <= c -> b = 0 \/ b = 1 ->
  isProtectedV (35 + c * 2 + b) = true /\ deriveChainId (35 + c * 2 + b) = c.
Proof.
  intros Hc Hb. set (V := 35 + c * 2 + b). assert (HV : 35 <= V) by lia.
  assert (Hd : (V - 35) / 2 = c).
  { subst V. replace (35 + c * 2 + b - 35) with (b + c * 2) by lia. rewrite Z.div_add by lia.
    destruct Hb as [-> | ->]; [change (0 / 2) with 0|change (1 / 2) with 0]; lia. }
  split.
  - unfold isProtectedV. destruct (Z.leb_spec (big_BitLen V) 8) as [HB|]; [|done].
    apply big_BitLen_bound in HB; [|lia]. unfold big_Uint64, u64. rewrite Z.mod_small by lia.
    rewrite !(proj2 (Z.eqb_neq _ _)) by lia. done.
  - unfold deriveChainId. destruct (Z.leb_spec (big_BitLen V) 64) as [HB|]; [|done].
    apply big_BitLen_bound in HB; [|lia]. unfold big_Uint64, u64. rewrite (Z.mod_small (Z.abs V)) by lia.
    rewrite !(proj2 (Z.eqb_neq _ _)) by lia. simpl. by rewrite Z.mod_small, Z.abs_eq by lia.
Qed.

Lemma unprotected_V V : V = 27 \/ V = 28 -> isProtectedV V = false.
Proof. by intros [-> | ->]. Qed.

Lemma protected_27 V : 0 <= V -> isProtectedV V = false -> V = 27 \/ V = 28.
Proof.
  intros HV. unfold isProtectedV. destruct (Z.leb_spec (big_BitLen V) 8) as [HB|]; [|done].
  apply big_BitLen_bound in HB; [|lia]. unfold big_Uint64, u64. rewrite Z.mod_small by lia.
  rewrite andb_false_iff, !negb_false_iff, !Z.eqb_eq. lia.
Qed.

(** A protected transaction that is accepted was signed for the chain of the signer. *)
Lemma EIP155_accepts c tx a : 0 <= c -> 0 <= tx_V (tx_data tx) -> Protected tx = true ->
  Signer_Sender (NewEIP155Signer (Some c)) tx = Ok a -> exists b, (b = 0 \/ b = 1) /\ tx_V (tx_data tx) = 35 + c * 2 + b.
Proof.
  intros Hc HV Hp E. unfold NewEIP155Signer, Signer_Sender, Protected, ChainId in *. simpl in *.
  rewrite Hp in E. simpl in E. destruct (Z.eqb_spec (deriveChainId (tx_V (tx_data tx))) c) as [Ec|]; [|done]. simpl in E.
  rewrite recoverPlain_eq in E. case_bool_decide as Hb; [|done]. destruct Hb as [HVb _]. set (V := tx_V (tx_data tx)) in *.
  assert (V - c * 2 - 8 = 27 \/ V - c * 2 - 8 = 28) as Hlow.
  { destruct HVb as [?|[?|HVb]]; [by left|by right|exfalso]. clear E.
    revert Ec. unfold deriveChainId. destruct (Z.leb_spec (big_BitLen V) 64) as [HB|HB].
    - apply big_BitLen_bound in HB; [|lia]. unfold big_Uint64, u64. rewrite (Z.mod_small (Z.abs V)) by lia.
      case_match; [lia|]. rewrite Z.abs_eq by lia. intros Ec.
      pose proof (Z.mod_pos_bound (V - 35) (2 ^ 64) ltac:(lia)) as Hm.
      pose proof (Z.div_mod ((V - 35) `mod` 2 ^ 64) 2 ltac:(lia)) as Hd.
      pose proof (Z.mod_pos_bound ((V - 35) `mod` 2 ^ 64) 2 ltac:(lia)).
      destruct (Z.le_gt_cases 35 V); [rewrite (Z.mod_small (V - 35)) in * by lia; lia|].
      replace (V - 35) with (2 ^ 64 + V - 35 + (-1) * 2 ^ 64) in * by lia. rewrite Z_mod_plus_full in *.
      rewrite (Z.mod_small (2 ^ 64 + V - 35)) in * by lia. lia.
    - intros Ec. apply big_BitLen_ge in HB; [|lia]. pose proof (Z.div_mod (V - 35) 2 ltac:(lia)).
      pose proof (Z.mod_pos_bound (V - 35) 2 ltac:(lia)). lia. }
  exists (V - c * 2 - 35). lia.
Qed.

Lemma EIP155_wrong_chain c c' tx b : 0 <= c -> b = 0 \/ b = 1 -> c' <> c -> tx_V (tx_data tx) = 35 + c * 2 + b ->
  Signer_Sender (NewEIP155Signer (Some c')) tx = Err ErrInvalidChainId.
Proof.
  intros Hc Hb Hne HV. destruct (protected_V c b Hc Hb) as [Hp Hd].
  unfold Signer_Sender, NewEIP155Signer, Protected, ChainId. simpl. rewrite HV, Hp, Hd. simpl.
  by rewrite (proj2 (Z.eqb_neq _ _)) by lia.
Qed.

(** C31: a transaction that an EIP155 signer accepts cannot be replayed on another
    chain: unless it carries an unprotected signature (V 27 or 28), every signer
    of another chain id rejects it with [ErrInvalidChainId].  The unsigned
    arithmetic of [deriveChainId] (V below 35 wraps around) opens no gap. *)
Theorem replay_protection c c' tx a : 0 <= c -> c' <> c -> 0 <= tx_V (tx_data tx) ->
  Signer_Sender (NewEIP155Signer (Some c)) tx = Ok a ->
  (tx_V (tx_data tx) = 27 \/ tx_V (tx_data tx) = 28) \/
  Signer_Sender (NewEIP155Signer (Some c')) tx = Err ErrInvalidChainId.
Proof.
  intros Hc Hne HV E. destruct (isProtectedV (tx_V (tx_data tx))) eqn:Ep.
  - right. destruct (EIP155_accepts c tx a Hc HV Ep E) as (b & Hb & EV). by apply (EIP155_wrong_chain c c' tx b).
  - left. by apply protected_27.
Qed.

(** signatures are not malleable: when a Homestead or EIP155 signer accepts
    (R, S, V), it rejects the same transaction with the complementary S of the
    same point, whatever its V; and no signer panics, whatever the integers are. *)
Theorem sender_not_malleable (s : Signer) (d : txdata) (V' : Z) a : s <> FrontierSigner ->
  let tx := new_tx d in
  let twin := new_tx (mkTxdata (Txtype d) (AccountNonce d) (Price d) (GasLimit d) (Recipient d) (Amount d) (tx_Payload d)
    V' (tx_R d) (secp256k1_N - tx_S d)) in
  Signer_Sender s tx = Ok a ->
  (Signer_Sender s twin = Err ErrInvalidSig \/ Signer_Sender s twin = Err ErrInvalidChainId) /\
  (forall s' tx', Signer_Sender s' tx' <> Panic).
Proof.
  intros Hs tx twin E. split; [|apply Signer_Sender_total].
  assert (Hlow : tx_S d <= secp256k1_halfN).
  { unfold Signer_Sender, plain_Sender in E. destruct s as [c m| |]; [|..|done];
      repeat (case_match; try done); rewrite recoverPlain_eq in E; case_bool_decide as Hb; try done; by apply Hb. }
  assert (Hrej : forall h V, recoverPlain h (tx_R d) (secp256k1_N - tx_S d) V true = Err ErrInvalidSig).
  { intros h V. rewrite recoverPlain_eq, bool_decide_false; [done|]. intros (_ & _ & _ & Hh). specialize (Hh eq_refl).
    assert (secp256k1_N = 2 * secp256k1_halfN + 1) by done. lia. }
  unfold Signer_Sender, plain_Sender. destruct s as [c m| |]; [|..|done]; repeat case_match; auto.
Qed.

(** ** What a signature covers *)

Lemma Signer_Hash_payload s tx : txdata_ok (tx_data tx) -> signer_ok s -> zlen (signer_payload s (tx_data tx)) < 2 ^ 64 ->
  Signer_Hash s tx = Keccak256 (signer_payload s (tx_data tx)).
Proof.
  intros Hd Hs Hz. pose proof (EncodeToBytes_ref _ (signer_value_ok s _ Hd Hs) Hz) as E.
  unfold Signer_Hash, EIP155_Hash, Frontier_Hash, rlpHash. unfold signer_value in E.
  destruct s; rewrite ?app_nil_r in E; by rewrite E.
Qed.

(** what is signed binds the transaction and the chain: when two signing
    hashes agree and the hash has no collision on the two signed payloads, the
    transactions agree in every field but the signature and the signers are for
    the same chain id (or both without one). *)
Theorem sighash_binds (s s' : Signer) (tx tx' : Transaction) :
  txdata_ok (tx_data tx) -> txdata_ok (tx_data tx') -> signer_ok s -> signer_ok s' ->
  let p := signer_payload s (tx_data tx) in
  let p' := signer_payload s' (tx_data tx') in
  zlen p < 2 ^ 64 -> zlen p' < 2 ^ 64 -> (Keccak256 p = Keccak256 p' -> p = p') ->
  Signer_Hash s tx = Signer_Hash s' tx' ->
  same_unsigned (tx_data tx) (tx_data tx') /\ signer_chain s = signer_chain s'.
Proof.
  intros Hd Hd' Hs Hs' p p' Hz Hz' Hinj E. rewrite !Signer_Hash_payload in E by done. apply Hinj in E.
  subst p p'. rewrite !signer_payload_strs in *. apply signer_strs_inj; try done.
  apply str_list_inj; auto using signer_strs_ok.
Qed.

(** ** The caches of a transaction *)

(** What the caches hold is what would be computed. *)
Definition caches_ok (tx : Transaction) : Prop :=
  (forall h, tx_hash tx = Some h -> h = rlpHash (Transaction_EncodeRLP tx)) /\
  (forall n b, tx_size tx = Some n -> EncodeToBytes (Transaction_EncodeRLP tx) = Ok b -> n = zlen b) /\
  (forall s a, tx_from tx = Some (s, a) -> signer_ok s /\ Signer_Sender s tx = Ok a).

Lemma Signer_Sender_data s tx tx' : tx_data tx = tx_data tx' -> Signer_Sender s tx = Signer_Sender s tx'.
Proof.
  intros E. unfold Signer_Sender, plain_Sender, Protected, ChainId, EIP155_Hash, Frontier_Hash. by rewrite E.
Qed.

Lemma Signer_Equal_Sender s s' tx : signer_ok s -> signer_ok s' -> Signer_Equal s s' = true ->
  Signer_Sender s tx = Signer_Sender s' tx.
Proof.
  intros Hs Hs' E. destruct s as [c m| |], s' as [c' m'| |]; try done. simpl in *. apply Z.eqb_eq in E as ->.
  destruct Hs as [_ ->], Hs' as [_ ->]. done.
Qed.

Lemma Sender_ok s tx : signer_ok s -> caches_ok tx ->
  (Sender s tx).1 = Signer_Sender s tx /\ caches_ok (Sender s tx).2 /\ tx_data (Sender s tx).2 = tx_data tx.
Proof.
  intros Hs (Hh & Hn & Hf).
  assert (G : forall r, r = match Signer_Sender s tx with
    | Ok addr => (Ok addr, mkTx (tx_data tx) (tx_hash tx) (tx_size tx) (Some (s, addr)))
    | r => (r, tx) end -> r.1 = Signer_Sender s tx /\ caches_ok r.2 /\ tx_data r.2 = tx_data tx).
  { intros r ->. destruct (Signer_Sender s tx) as [a|e|] eqn:E; simpl; split_and!; try done.
    split_and!; simpl; [exact Hh|exact Hn|]. intros s' a' [= <- <-]. split; [done|]. rewrite <- E. by apply Signer_Sender_data. }
  unfold Sender. destruct (tx_from tx) as [[s0 a0]|] eqn:Ef; [|by apply G].
  destruct (Signer_Equal s0 s) eqn:Eq; [|by apply G]. simpl. destruct (Hf s0 a0 eq_refl) as [Hs0 E0].
  split_and!; [|split_and!; [done..|]|done]; [by rewrite <- (Signer_Equal_Sender s0 s)|]. by rewrite Ef.
Qed.

(** the caches of a transaction are invisible: [Sender], whatever signer
    filled the cache before, [Hash], [Size] and [AsMessage] return what they
    would compute without a cache, and leave the caches sound. *)
Theorem tx_caches_sound (s : Signer) (tx : Transaction) (b : bytes) : signer_ok s -> caches_ok tx ->
  EncodeToBytes (Transaction_EncodeRLP tx) = Ok b ->
  ((Sender s tx).1 = Signer_Sender s tx /\ caches_ok (Sender s tx).2) /\
  ((tx_Hash tx).1 = rlpHash (Transaction_EncodeRLP tx) /\ caches_ok (tx_Hash tx).2) /\
  ((tx_Size tx).1 = zlen b /\ caches_ok (tx_Size tx).2) /\
  (AsMessage s tx).1 = (AsMessage s (new_tx (tx_data tx))).1 /\ caches_ok (AsMessage s tx).2.
Proof.
  intros Hs Hc E. pose proof Hc as (Hh & Hn & Hf). destruct (Sender_ok s tx Hs Hc) as (E1 & C1 & _).
  split; [done|]. split; [|split].
  - unfold tx_Hash. destruct (tx_hash tx) as [h|] eqn:Eh; simpl; [by split; [apply Hh|]|]. split; [done|].
    split_and!; simpl; [by intros ? [= <-]|exact Hn|]. intros s' a Ea. destruct (Hf s' a Ea). split; [done|].
    by rewrite <- (Signer_Sender_data s' tx).
  - unfold tx_Size. destruct (tx_size tx) as [n|] eqn:En; simpl; [by split; [apply Hn|]|].
    unfold Transaction_EncodeRLP in *. rewrite E. split; [done|].
    split_and!; simpl; [exact Hh|intros ? b' [= <-] E'; unfold Transaction_EncodeRLP in E'; simpl in E'; congruence|]. intros s' a Ea. destruct (Hf s' a Ea). split; [done|].
    by rewrite <- (Signer_Sender_data s' tx).
  - assert (Hc0 : caches_ok (new_tx (tx_data tx))) by done.
    destruct (Sender_ok s (new_tx (tx_data tx)) Hs Hc0) as (E2 & _). rewrite (Signer_Sender_data s _ tx) in E2 by done.
    unfold AsMessage. destruct (Sender s tx) as [r1 t1], (Sender s (new_tx (tx_data tx))) as [r2 t2].
    simpl in *. split; [|done]. by rewrite E1, E2.
Qed.

(** ** Signing *)

Context `{!EcdsaLaws}.

(** The address of a key. *)
Definition pubkey_address (k : PrivateKey) : address := drop 12 (Keccak256 (drop 1 (pubkey k))).

Lemma recover_signed h k sig : crypto_Sign h k = Some sig -> recover_sig h sig = Ok (pubkey_address k).
Proof.
  intros E. unfold recover_sig. rewrite (Sign_recovers h k sig E). pose proof (pubkey_form k) as Hp. unfold pubkey_address.
  destruct (pubkey k) as [|x p]; [done|]. simpl in Hp. injection Hp as ->. done.
Qed.

(** The parts of a signature pass the checks and are put together again. *)
Lemma recover_parts h h' k sig v b : crypto_Sign h' k = Some sig -> sig !! 64%nat = Some v ->
  recoverPlain h (be_value (take 32 sig)) (be_value (take 32 (drop 32 sig))) (v + 27) b = recover_sig h sig.
Proof.
  intros E Ev. destruct (Sign_form h' k sig E) as (Hok & Hl & HR & HS & HV). rewrite recoverPlain_eq.
  assert (secp256k1_halfN < secp256k1_N) by done. assert (0 <= v <= 1) by (destruct HV as [HV|HV]; rewrite HV in Ev; simplify_eq; lia).
  rewrite bool_decide_true by (split_and!; lia). rewrite Z.abs_eq by lia.
  replace (v + 27 - 27) with v by lia. by rewrite sig_of_parts.
Qed.

(** What [SignTx] returns. *)
Definition signed_tx (tx : Transaction) (V : Z) (sig : bytes) : Transaction :=
  let d := tx_data tx in
  new_tx (mkTxdata (Txtype d) (AccountNonce d) (Price d) (GasLimit d) (Recipient d) (Amount d) (tx_Payload d) V
    (be_value (take 32 sig)) (be_value (take 32 (drop 32 sig)))).

Definition signed_V (s : Signer) (v : Z) : Z :=
  match s with EIP155Signer c m => if negb (Z.sgn c =? 0) then v + 35 + m else v + 27 | _ => v + 27 end.

Lemma SignTx_ok tx s k sig : crypto_Sign (Signer_Hash s tx) k = Some sig ->
  exists v, (v = 0 \/ v = 1) /\ sig !! 64%nat = Some v /\ SignTx tx s k = Ok (signed_tx tx (signed_V s v) sig).
Proof.
  intros E. destruct (Sign_form _ k sig E) as (Hok & Hl & HR & HS & HV).
  assert (exists v, (v = 0 \/ v = 1) /\ sig !! 64%nat = Some v) as (v & Hv & Ev) by (destruct HV; eauto).
  exists v. split_and!; [done..|]. unfold SignTx, WithSignature, SignatureValues, Frontier_SignatureValues. rewrite E.
  assert (zlen sig = 65) as -> by (unfold zlen; lia). rewrite Ev. simpl default.
  assert (u8 (v + 27) = v + 27 /\ u8 (v + 35) = v + 35) as [E1 E2] by (split; apply u8_id; unfold is_byte; lia).
  destruct s as [c m| |]; simpl; rewrite ?E1, ?E2; [|done..]. unfold signed_tx. by destruct (negb _).
Qed.


(** chain id zero: a signer made by [NewEIP155Signer] without a chain id signs
    the hash with the chain id appended, but gives the signature an unprotected
    V, so that its own [Sender] recovers against the hash without the chain id,
    which is another hash: the sender is not the one who signed. *)
Theorem chain_zero_mismatch (tx : Transaction) (k : PrivateKey) (sig : bytes) :
  let s := NewEIP155Signer None in
  txdata_ok (tx_data tx) -> zlen (signer_payload s (tx_data tx)) < 2 ^ 64 ->
  zlen (signer_payload HomesteadSigner (tx_data tx)) < 2 ^ 64 ->
  (Keccak256 (signer_payload s (tx_data tx)) = Keccak256 (signer_payload HomesteadSigner (tx_data tx)) ->
   signer_payload s (tx_data tx) = signer_payload HomesteadSigner (tx_data tx)) ->
  crypto_Sign (Signer_Hash s tx) k = Some sig ->
  exists tx', SignTx tx s k = Ok tx' /\ Protected tx' = false /\
    (Sender s tx').1 = recover_sig (Frontier_Hash tx) sig /\ Frontier_Hash tx <> Signer_Hash s tx.
Proof.
  intros s Hd Hz Hz' Hinj E. destruct (SignTx_ok tx s k sig E) as (v & Hv & Ev & Et). eexists. split; [exact Et|].
  assert (Hp : Protected (signed_tx tx (signed_V s v) sig) = false) by (by destruct Hv as [-> | ->]). split_and!; [done| |].
  - unfold Sender. simpl tx_from. cbv iota. unfold Signer_Sender at 1. rewrite Hp. simpl negb. cbv iota.
    unfold plain_Sender, signed_tx. simpl. rewrite (recover_parts _ _ k sig v) by done.
    change (Frontier_Hash (new_tx _)) with (Frontier_Hash tx). by destruct (recover_sig _ _).
  - intros Eh. change (Frontier_Hash tx) with (Signer_Hash HomesteadSigner tx) in Eh. symmetry in Eh.
    rewrite !Signer_Hash_payload in Eh by (done || by split). apply Hinj in Eh. rewrite !signer_payload_strs in *.
    apply str_list_inj in Eh; auto using signer_strs_ok. apply signer_strs_inj in Eh as [_ Eh]; done.
Qed.

End Signing.

(** ** Witnesses *)

(** A signature scheme of the right shape: the key is the R of its signatures. *)
#[local] Instance toy_ecdsa : Ecdsa := {|
  PrivateKey := Z;
  Ecrecover _ sig := Some (4 :: take 32 sig ++ take 32 sig);
  crypto_Sign h k := if (1 <=? k) && (k <? secp256k1_N) then Some (sig_of k 1 0) else None
|}.

Lemma sig_of_take k V : take 32 (sig_of k 1 V) = be_pad 32 k /\ take 32 (drop 32 (sig_of k 1 V)) = be_pad 32 1.
Proof.
  unfold sig_of. split; [by rewrite take_app_le, take_ge by (rewrite length_be_pad; lia)|].
  rewrite drop_app_le, drop_ge by (rewrite length_be_pad; lia).
  change ([] ++ ?l) with l. by rewrite take_app_le, take_ge by (rewrite length_be_pad; lia).
Qed.

#[local] Instance toy_ecdsa_laws : EcdsaLaws.
Proof.
  refine {| pubkey := fun k : @PrivateKey toy_ecdsa => 4 :: be_pad 32 k ++ be_pad 32 k |}.
  - done.
  - intros h k sig E. simpl in E. destruct (Z.leb_spec 1 k), (Z.ltb_spec k secp256k1_N); try done. simpl in E. simplify_eq.
    destruct (sig_of_take k 0) as [-> ->]. rewrite !be_value_pad by lia.
    assert (secp256k1_N < 256 ^ Z.of_nat 32) by done. rewrite Z.mod_small by lia.
    split; [|split; [|split; [|split]]].
    + apply Forall_app. split; [apply be_pad_ok|]. apply Forall_app. split; [apply be_pad_ok|]. repeat constructor; lia.
    + unfold sig_of. rewrite !length_app, !length_be_pad. done.
    + lia.
    + done.
    + left. unfold sig_of. rewrite lookup_app_r by (rewrite length_be_pad; lia). rewrite length_be_pad. done.
  - intros h k sig E. simpl in E. destruct (_ && _); [|done]. simplify_eq.
    change (Ecrecover h (sig_of k 1 0)) with (Some (4 :: take 32 (sig_of k 1 0) ++ take 32 (sig_of k 1 0))).
    by destruct (sig_of_take k 0) as [-> _].
Qed.

Definition demo_tx : Transaction := NewTransaction 7 (replicate 20 9) (Some 1000) (Some 21000) (Some 5) [1; 2; 3].
Definition demo_signer : Signer := NewEIP155Signer (Some 3).
Definition demo_sk : @PrivateKey toy_ecdsa := 42.
Definition demo_signed : Transaction := match SignTx demo_tx demo_signer demo_sk with Ok tx => tx | _ => demo_tx end.

Lemma demo_tx_ok : txdata_ok (tx_data demo_tx).
Proof.
  unfold txdata_ok, is_u64. split_and!; try (vm_compute; split; discriminate || reflexivity); try (vm_compute; discriminate).
  all: try reflexivity.
  - by apply (bytesb_ok _ 20).
  - by apply (bytesb_ok _ 3).
Qed.

Lemma demo_signer_ok : signer_ok demo_signer.
Proof. split; [done|done]. Qed.

Lemma transaction_roundtrip_witness : exists b, EncodeToBytes (Transaction_EncodeRLP demo_tx) = Ok b /\
  DecodeBytes Transaction_DecodeRLP b = Ok (mkTx (tx_data demo_tx) None (Some (zlen b)) None) /\
  (tx_Size (new_tx (tx_data demo_tx))).1 = zlen b.
Proof.
  destruct (EncodeToBytes (Transaction_EncodeRLP demo_tx)) as [b|e|] eqn:E; [|vm_compute in E; discriminate..].
  exists b. split; [reflexivity|]. apply (transaction_roundtrip demo_tx b).
  - exact demo_tx_ok.
  - vm_compute. reflexivity.
  - exact E.
Defined.

Lemma replay_protection_witness :
  (tx_V (tx_data demo_signed) = 27 \/ tx_V (tx_data demo_signed) = 28) \/
  Signer_Sender (NewEIP155Signer (Some 1)) demo_signed = Err ErrInvalidChainId.
Proof.
  destruct (Signer_Sender (NewEIP155Signer (Some 3)) demo_signed) as [a|e|] eqn:E; [|vm_compute in E; discriminate..].
  apply (replay_protection 3 1 demo_signed a).
  - lia.
  - lia.
  - vm_compute. discriminate.
  - exact E.
Defined.

Lemma sender_not_malleable_witness :
  exists a, Signer_Sender demo_signer (new_tx (tx_data demo_signed)) = Ok a /\
  (forall s' tx', Signer_Sender s' tx' <> Panic).
Proof.
  destruct (Signer_Sender demo_signer (new_tx (tx_data demo_signed))) as [a|e|] eqn:E; [|vm_compute in E; discriminate..].
  exists a. split; [reflexivity|]. apply (sender_not_malleable demo_signer (tx_data demo_signed) 41 a).
  - discriminate.
  - exact E.
Defined.

Lemma sighash_binds_witness :
  same_unsigned (tx_data demo_tx) (tx_data demo_signed) /\ signer_chain demo_signer = signer_chain demo_signer.
Proof.
  apply (sighash_binds demo_signer demo_signer demo_tx demo_signed).
  - exact demo_tx_ok.
  - unfold txdata_ok, is_u64. split_and!; try (vm_compute; split; discriminate || reflexivity); try (vm_compute; discriminate).
    + apply (bytesb_ok _ 20). reflexivity.
    + apply (bytesb_ok _ 3). reflexivity.
  - exact demo_signer_ok.
  - exact demo_signer_ok.
  - vm_compute. reflexivity.
  - vm_compute. reflexivity.
  - intros _. vm_compute. reflexivity.
  - vm_compute. reflexivity.
Defined.

Lemma tx_caches_sound_witness : exists b, EncodeToBytes (Transaction_EncodeRLP demo_signed) = Ok b /\
  ((tx_Size demo_signed).1 = zlen b /\ caches_ok (tx_Size demo_signed).2).
Proof.
  destruct (EncodeToBytes (Transaction_EncodeRLP demo_signed)) as [b|e|] eqn:E; [|vm_compute in E; discriminate..].
  exists b. split; [reflexivity|]. apply (tx_caches_sound demo_signer demo_signed b).
  - exact demo_signer_ok.
  - split; [|split]; intros; discriminate.
  - exact E.
Defined.


Lemma chain_zero_mismatch_witness : exists tx', SignTx demo_tx (NewEIP155Signer None) demo_sk = Ok tx' /\
  Frontier_Hash demo_tx <> Signer_Hash (NewEIP155Signer None) demo_tx.
Proof.
  destruct (chain_zero_mismatch demo_tx demo_sk (sig_of 42 1 0)) as (tx' & E & _ & _ & Hne).
  - exact demo_tx_ok.
  - vm_compute. reflexivity.
  - vm_compute. reflexivity.
  - intros E. exfalso. revert E. vm_compute. discriminate.
  - reflexivity.
  - exists tx'. split; [exact E|exact Hne].
Defined.
