(* ===== verification/DeriveSha.v ===== *)
(** Merkle roots of lists: [core/types/derive_sha.go].

    A fresh trie without a database takes the items under the RLP encodings of
    their indices. *)
From S2P Require Import Prelude RlpEncode RlpDecode RlpCodec RlpTheorems RlpRaw Storage IstanbulTypes ValidatorSet KeccakCrypto TrieNode Trie TrieTree TrieRep TrieTheorems TrieRoot IstanbulHeader Transaction.

(** [rlp.Encode(keybuf, uint(i))]; the error is ignored. *)
Definition index_key (i : Z) : bytes := match EncodeToBytes (VUint i) with Ok b => b | _ => [] end.

Section DeriveSha.
Context `{Crypto}.

Fixpoint DeriveSha_loop (i : Z) (items : list bytes) (trie : Trie MemDatabase) : outcome trie_err (Trie MemDatabase) :=
  match items with
  | [] => Ok trie
  | x :: items' => let! trie := Trie_Update trie (index_key i) x in DeriveSha_loop (i + 1) items' trie
  end.

(** [DeriveSha] of the items [GetRlp(0)], [GetRlp(1)], ... *)
Definition DeriveSha (items : list bytes) : outcome trie_err hash :=
  let! trie := DeriveSha_loop 0 items (mkTrie nilNode None zero_hash 0 0) in
  let! (h, _) := Trie_Hash trie in
  Ok h.

End DeriveSha.

(** ** The map a list stands for *)

Fixpoint index_map (i : Z) (items : list bytes) (m : gmap bytes bytes) : gmap bytes bytes :=
  match items with
  | [] => m
  | x :: items' => index_map (i + 1) items' (updated x (index_key i) m)
  end.

Lemma index_len i : is_u64 i -> zlen (rlp_str (be_bytes i)) <= 9.
Proof.
  intros Hi. unfold is_u64 in Hi.
  assert (L : (byte_len i <= 8)%nat) by (apply byte_len_le; change (256 ^ Z.of_nat 8) with (2 ^ 64); lia).
  unfold rlp_str. assert (Z8 : zlen (be_bytes i) = Z.of_nat (byte_len i)) by apply zlen_be_pad.
  repeat case_match; try (rewrite <- ?Z8; lia); rewrite zlen_app, zlen_rlp_head by lia; unfold headsize; zcases; lia.
Qed.

Lemma index_key_ref i : is_u64 i -> index_key i = rlp_str (be_bytes i).
Proof.
  intros Hi. unfold index_key. rewrite EncodeToBytes_ref; [done|by constructor|].
  change (zlen (rlp_str (be_bytes i)) < 2 ^ 64). pose proof (index_len i Hi). lia.
Qed.

Lemma index_key_ok i : is_u64 i -> key_ok (index_key i).
Proof.
  intros Hi. rewrite index_key_ref by done. pose proof (index_len i Hi) as Hl. split; [|lia].
  apply (rlp_enc_ok (VUint i)); [by constructor|]. change (zlen (rlp_str (be_bytes i)) < 2 ^ 64). lia.
Qed.

Lemma index_key_inj i j : is_u64 i -> is_u64 j -> index_key i = index_key j -> i = j.
Proof.
  intros Hi Hj. rewrite !index_key_ref by done. intros E. pose proof (index_len i Hi) as Hl.
  unfold is_u64 in *. apply be_bytes_inj; [lia..|].
  apply (codec_inj bytes_codec); auto using be_bytes_ok. split; [|lia].
  apply (rlp_enc_ok (VUint i)); [by constructor|]. change (zlen (rlp_str (be_bytes i)) < 2 ^ 64). lia.
Qed.

(** The entry of an index: an empty item leaves none. *)
Definition entry (x : bytes) : option bytes := if zlen x =? 0 then None else Some x.

Lemma updated_eq x k m : updated x k m !! k = entry x.
Proof. unfold updated, entry. destruct (zlen x =? 0); [apply lookup_delete_eq|apply lookup_insert_eq]. Qed.

Lemma updated_ne x k k' m : k <> k' -> updated x k m !! k' = m !! k'.
Proof. intros Hne. unfold updated. destruct (zlen x =? 0); [by apply lookup_delete_ne|by apply lookup_insert_ne]. Qed.

Lemma index_map_lookup items : forall i m j, 0 <= i -> i + zlen items <= 2 ^ 64 -> is_u64 j ->
  index_map i items m !! index_key j =
  if bool_decide (i <= j < i + zlen items) then items !! Z.to_nat (j - i) ≫= entry else m !! index_key j.
Proof.
  induction items as [|x items IH]; intros i m j Hi Hl Hj.
  - rewrite zlen_nil, bool_decide_false by lia. done.
  - rewrite zlen_cons in *. pose proof (zlen_nonneg items). unfold is_u64 in Hj. simpl. rewrite IH by (done || lia).
    destruct (decide (j = i)) as [->|Hne].
    + rewrite bool_decide_false, bool_decide_true, updated_eq by lia. by rewrite Z.sub_diag.
    + rewrite updated_ne; [|intros E; apply index_key_inj in E; unfold is_u64; lia].
      destruct (decide (i + 1 <= j < i + 1 + zlen items)); [|by rewrite !bool_decide_false by lia].
      rewrite !bool_decide_true by lia. by replace (Z.to_nat (j - i)) with (S (Z.to_nat (j - (i + 1)))) by lia.
Qed.

Lemma index_map_inj l1 l2 : zlen l1 <= 2 ^ 64 -> zlen l2 <= 2 ^ 64 -> Forall (fun x => x <> []) l1 -> Forall (fun x => x <> []) l2 ->
  index_map 0 l1 ∅ = index_map 0 l2 ∅ -> l1 = l2.
Proof.
  intros Z1 Z2 N1 N2 E.
  assert (G : forall l n, zlen l <= 2 ^ 64 -> Forall (fun x => x <> []) l -> (n < 2 ^ 64)%Z -> 0 <= n ->
    index_map 0 l ∅ !! index_key n = l !! Z.to_nat n).
  { intros l n Hz Hn Hb H0. rewrite index_map_lookup by (done || unfold is_u64; lia). rewrite Z.sub_0_r.
    case_bool_decide as Hc.
    - destruct (l !! Z.to_nat n) as [x|] eqn:Ex; [|done]. rewrite Forall_lookup in Hn. specialize (Hn _ _ Ex).
      simpl. unfold entry. rewrite (proj2 (Z.eqb_neq _ _)); [done|]. destruct x; [done|]. rewrite zlen_cons. pose proof (zlen_nonneg x). lia.
    - rewrite lookup_empty. symmetry. apply lookup_ge_None_2. unfold zlen in Hc. lia. }
  apply list_eq. intros n. destruct (decide (Z.of_nat n < 2 ^ 64)).
  - rewrite <- (Nat2Z.id n), <- (G l1), <- (G l2) by (done || lia). by rewrite E.
  - unfold zlen in *. by rewrite !lookup_ge_None_2 by lia.
Qed.

(** ** The root of a list *)

Section Root.
Context `{CryptoLaws}.

Lemma DeriveSha_loop_ok items : forall i T m, trie_rep T m -> Forall val_ok items -> 0 <= i -> i + zlen items <= 2 ^ 64 ->
  exists T', DeriveSha_loop i items T = Ok T' /\ trie_rep T' (index_map i items m).
Proof.
  induction items as [|x items IH]; intros i T m Hr Hv Hi Hl; [by exists T|]. rewrite zlen_cons in Hl.
  inversion_clear Hv. pose proof (zlen_nonneg items). simpl.
  destruct (TryUpdate_refines T m (index_key i) x Hr) as (T1 & E & Hr1); [apply index_key_ok; unfold is_u64; lia|done|].
  unfold Trie_Update. rewrite E. simpl. apply IH; try done; lia.
Qed.

Lemma DeriveSha_ok items : Forall val_ok items -> zlen items <= 2 ^ 64 ->
  exists h, DeriveSha items = Ok h /\ map_root (index_map 0 items ∅) h.
Proof.
  intros Hv Hl. unfold DeriveSha.
  destruct (DeriveSha_loop_ok items 0 (mkTrie nilNode None zero_hash 0 0) ∅) as (T & -> & Hr); try done.
  { exists TNil. split_and!; [by left|apply holds_empty|constructor]. }
  simpl. destruct (Trie_Hash_ok T _ Hr) as (h & T' & -> & Hm & _). simpl. by exists h.
Qed.

Context (K : bytes -> Prop) (K_inj : forall a b, K a -> K b -> Keccak256 a = Keccak256 b -> a = b).

(** The root binds the list. *)
Lemma DeriveSha_inj (l1 l2 : list bytes) : Forall val_ok l1 -> Forall val_ok l2 ->
  Forall (fun x => x <> []) l1 -> Forall (fun x => x <> []) l2 -> zlen l1 <= 2 ^ 64 -> zlen l2 <= 2 ^ 64 ->
  map_known K (index_map 0 l1 ∅) -> map_known K (index_map 0 l2 ∅) ->
  exists h1 h2, DeriveSha l1 = Ok h1 /\ map_root (index_map 0 l1 ∅) h1 /\ DeriveSha l2 = Ok h2 /\ (h1 = h2 <-> l1 = l2).
Proof.
  intros V1 V2 N1 N2 Z1 Z2 K1 K2. destruct (DeriveSha_ok l1 V1 Z1) as (h1 & E1 & R1).
  destruct (DeriveSha_ok l2 V2 Z2) as (h2 & E2 & R2). exists h1, h2. split_and!; [done..|].
  split; [|intros ->; by eapply map_root_fun]. intros <-. apply index_map_inj; try done.
  by eapply (map_root_inj K K_inj).
Qed.

Definition storable (tx : Transaction) : Prop := txdata_ok (tx_data tx) /\ zlen (tx_enc (tx_data tx)) < 2 ^ 56.

Lemma GetRlp_ref tx : storable tx -> GetRlp tx = tx_enc (tx_data tx).
Proof.
  intros [Hd Hz]. unfold GetRlp, Transaction_EncodeRLP. rewrite EncodeToBytes_ref; [done|by apply txdata_value_ok|].
  fold (tx_enc (tx_data tx)). lia.
Qed.

Lemma GetRlp_item tx : storable tx -> val_ok (GetRlp tx) /\ GetRlp tx <> [].
Proof.
  intros Hs. rewrite GetRlp_ref by done. destruct Hs as [Hd Hz]. split; [split; [|done]|].
  - apply rlp_enc_ok; [by apply txdata_value_ok|]. fold (tx_enc (tx_data tx)). lia.
  - rewrite tx_enc_list. intros E. pose proof (zlen_rlp_list_ge (tx_content (tx_data tx))) as Hg. rewrite E in Hg.
    unfold tx_enc in E. change (zlen []) with 0 in Hg. pose proof (zlen_nonneg (tx_content (tx_data tx))). lia.
Qed.

Lemma GetRlp_inj l1 : forall l2, Forall storable l1 -> Forall storable l2 -> map GetRlp l1 = map GetRlp l2 -> map tx_data l1 = map tx_data l2.
Proof.
  induction l1 as [|t1 l1 IH]; intros [|t2 l2] H1 H2 E; try done. inversion_clear H1 as [|? ? S1 T1]. inversion_clear H2 as [|? ? S2 T2].
  simpl in E. injection E as E1 E2. simpl. f_equal; [|by apply IH]. rewrite !GetRlp_ref in E1 by done.
  destruct S1, S2. apply tx_enc_inj; try done. lia.
Qed.

(** the transaction root: [DeriveSha] of a list of transactions always
    succeeds with the root hash of the map from encoded indices to encoded
    transactions, and two lists have the same root if and only if they hold the
    same transactions, signatures included, in the same order, when the hash has
    no collision among the nodes of their tries. *)
Theorem tx_root_binds (l1 l2 : list Transaction) : Forall storable l1 -> Forall storable l2 ->
  zlen l1 <= 2 ^ 64 -> zlen l2 <= 2 ^ 64 ->
  map_known K (index_map 0 (map GetRlp l1) ∅) -> map_known K (index_map 0 (map GetRlp l2) ∅) ->
  exists h1 h2, DeriveSha (map GetRlp l1) = Ok h1 /\ map_root (index_map 0 (map GetRlp l1) ∅) h1 /\
    DeriveSha (map GetRlp l2) = Ok h2 /\ (h1 = h2 <-> map tx_data l1 = map tx_data l2).
Proof.
  intros S1 S2 Z1 Z2 K1 K2.
  assert (G : forall l, Forall storable l -> Forall val_ok (map GetRlp l) /\ Forall (fun x => x <> []) (map GetRlp l)).
  { intros l Hl. split; apply Forall_map; (eapply Forall_impl; [exact Hl|]); intros tx Htx; by apply GetRlp_item. }
  destruct (G l1 S1), (G l2 S2).
  destruct (DeriveSha_inj (map GetRlp l1) (map GetRlp l2)) as (h1 & h2 & E1 & R1 & E2 & Hiff); rewrite ?zlen_map_length; try done.
  exists h1, h2. split_and!; [done..|]. rewrite Hiff. split; [by apply GetRlp_inj|].
  assert (D : forall l, map GetRlp l = map (fun d => match EncodeToBytes (txdata_value d) with Ok b => b | _ => [] end) (map tx_data l))
    by (intros l; by rewrite map_map). intros E. by rewrite !D, E.
Qed.

End Root.

(** ** Witness *)

Definition sample_tx : Transaction := newTransaction 1 None (Some 5) (Some 90000) (Some 2) [0x60; 0x60].
Definition sample_leaf : tree := leaf (index_key 0) (GetRlp sample_tx).

Lemma sample_storable : storable sample_tx.
Proof.
  split; [|vm_compute; reflexivity]. unfold txdata_ok, is_u64.
  split_and!; try (vm_compute; split; discriminate || reflexivity); try (vm_compute; discriminate); try done.
  by apply (bytesb_ok _ 2).
Qed.

Lemma sample_known : map_known (fun e => e = tenc sample_leaf) (index_map 0 (map GetRlp [sample_tx]) ∅).
Proof.
  change (index_map 0 (map GetRlp [sample_tx]) ∅) with (updated (GetRlp sample_tx) (index_key 0) ∅).
  destruct (GetRlp_item _ sample_storable) as [Hv Hn]. unfold updated. rewrite (proj2 (Z.eqb_neq _ _)) by done.
  rewrite insert_empty. apply leaf_map_known; [by apply index_key_ok|done|done|..];
    apply (bool_decide_unpack _); vm_compute; exact I.
Qed.

Lemma tx_root_binds_witness :
  exists h1 h2, DeriveSha (map GetRlp [sample_tx]) = Ok h1 /\ map_root (index_map 0 (map GetRlp [sample_tx]) ∅) h1 /\
    DeriveSha (map GetRlp [sample_tx]) = Ok h2 /\ (h1 = h2 <-> map tx_data [sample_tx] = map tx_data [sample_tx]).
Proof.
  apply (tx_root_binds (fun e => e = tenc sample_leaf) ltac:(intros a b -> ->; reflexivity) [sample_tx] [sample_tx]).
  - apply Forall_singleton. exact sample_storable.
  - apply Forall_singleton. exact sample_storable.
  - vm_compute. discriminate.
  - vm_compute. discriminate.
  - exact sample_known.
  - exact sample_known.
Defined.
