(* ===== verification/TxList.v ===== *)
(** Transaction lists of the pool: [core/tx_list.go] and [accountSet] of
    [core/tx_pool.go].

    A list of an account is a map by nonce with a heap of the nonces and a cache
    of the sorted transactions; the priced list is a heap of transactions by
    price that may hold transactions that left the pool. *)
From S2P Require Import Prelude GoHeap IstanbulTypes ValidatorSet IstanbulHeader Transaction.

Definition Nonce (tx : Transaction) : Z := AccountNonce (tx_data tx).
Definition Gas (tx : Transaction) : Z := GasLimit (tx_data tx).
Definition GasPrice (tx : Transaction) : Z := Price (tx_data tx).

(** [types.TxByNonce] and [sort.Sort]; the nonces in a list are distinct, so the
    result does not depend on the algorithm. *)
Definition nonce_le (t u : Transaction) : Prop := Nonce t <= Nonce u.
#[export] Instance nonce_le_dec t u : Decision (nonce_le t u).
Proof. unfold nonce_le. apply _. Defined.

Section Lists.
Context `{GoRange}.

(** ** Nonce-sorted maps *)

Record txSortedMap := mkSorted {
  sm_items : gmap Z Transaction;
  sm_index : list Z;
  sm_cache : option (list Transaction)
}.

Definition newTxSortedMap : txSortedMap := mkSorted ∅ [] None.

Definition sm_Get (nonce : Z) (m : txSortedMap) : option Transaction := sm_items m !! nonce.

Definition sm_Put (tx : Transaction) (m : txSortedMap) : txSortedMap :=
  let nonce := Nonce tx in
  let index := match sm_items m !! nonce with None => Push Z.ltb nonce (sm_index m) | Some _ => sm_index m end in
  mkSorted (<[nonce := tx]> (sm_items m)) index None.

(** The loop of [Forward]; what is removed are pointers, nil when the map lacks the nonce. *)
Fixpoint Forward_loop {E} (fuel : nat) (threshold : Z) (items : gmap Z Transaction) (index : list Z) :
    outcome E (list (option Transaction) * gmap Z Transaction * list Z) :=
  match fuel with
  | O => Ok ([], items, index)
  | S fuel' =>
      match index with
      | n :: _ =>
          if n <? threshold then
            let! (nonce, index) := Pop Z.ltb index in
            let! (removed, items', index) := Forward_loop fuel' threshold (delete nonce items) index in
            Ok ((items !! nonce) :: removed, items', index)
          else Ok ([], items, index)
      | [] => Ok ([], items, index)
      end
  end.

Definition sm_Forward {E} (threshold : Z) (m : txSortedMap) : outcome E (list (option Transaction) * txSortedMap) :=
  let! (removed, items, index) := Forward_loop (length (sm_index m)) threshold (sm_items m) (sm_index m) in
  match sm_cache m with
  | None => Ok (removed, mkSorted items index None)
  | Some cache =>
      if (length cache <? length removed)%nat then Panic
      else Ok (removed, mkSorted items index (Some (drop (length removed) cache)))
  end.

(** [Filter] ranges over the map, in any order. *)
Definition sm_Filter (f : Transaction -> bool) (m : txSortedMap) : list Transaction * txSortedMap :=
  let removed := filter (fun tx => f tx = true) (map snd (go_range (map_to_list (sm_items m)))) in
  let items := filter (fun p : Z * Transaction => f p.2 = false) (sm_items m) in
  match removed with
  | [] => ([], mkSorted items (sm_index m) (sm_cache m))
  | _ => (removed, mkSorted items (Init Z.ltb (map fst (go_range (map_to_list items)))) None)
  end.

(** The loop of [Cap] from the top of the sorted index down to the threshold. *)
Fixpoint Cap_loop {E} (size : nat) (threshold : nat) (items : gmap Z Transaction) (index : list Z) :
    outcome E (list (option Transaction) * gmap Z Transaction) :=
  match size with
  | O => Ok ([], items)
  | S size' =>
      if (threshold <? size)%nat then
        match index !! size' with
        | None => Panic
        | Some n =>
            let! (drops, items') := Cap_loop size' threshold (delete n items) index in
            Ok ((items !! n) :: drops, items')
        end
      else Ok ([], items)
  end.

(** [Cap]; a negative threshold runs past the start of the index. *)
Definition sm_Cap {E} (threshold : Z) (m : txSortedMap) : outcome E (list (option Transaction) * txSortedMap) :=
  let len := size (sm_items m) in
  if Z.of_nat len <=? threshold then Ok ([], m)
  else if threshold <? 0 then Panic
  else
    let index := merge_sort Z.le (sm_index m) in
    let! (drops, items) := Cap_loop len (Z.to_nat threshold) (sm_items m) index in
    if (length index <? Z.to_nat threshold)%nat then Panic
    else
      let index := Init Z.ltb (take (Z.to_nat threshold) index) in
      match sm_cache m with
      | None => Ok (drops, mkSorted items index None)
      | Some cache =>
          if (length cache <? length drops)%nat then Panic
          else Ok (drops, mkSorted items index (Some (take (length cache - length drops) cache)))
      end.

(** The position of a nonce in the index. *)
Fixpoint find_index (nonce : Z) (i : nat) (index : list Z) : option nat :=
  match index with
  | [] => None
  | n :: index' => if n =? nonce then Some i else find_index nonce (S i) index'
  end.

Definition sm_Remove {E} (nonce : Z) (m : txSortedMap) : outcome E (bool * txSortedMap) :=
  match sm_items m !! nonce with
  | None => Ok (false, m)
  | Some _ =>
      let! index :=
        match find_index nonce 0 (sm_index m) with
        | Some i => let! (_, index) := GoHeap.Remove Z.ltb (sm_index m) i in Ok index
        | None => Ok (sm_index m)
        end in
      Ok (true, mkSorted (delete nonce (sm_items m)) index None)
  end.

(** The loop of [Ready]; [next] is a [uint64]. *)
Fixpoint Ready_loop {E} (fuel : nat) (next : Z) (items : gmap Z Transaction) (index : list Z) :
    outcome E (list (option Transaction) * gmap Z Transaction * list Z) :=
  match fuel with
  | O => Ok ([], items, index)
  | S fuel' =>
      match index with
      | n :: _ =>
          if n =? next then
            let! (_, index) := Pop Z.ltb index in
            let! (ready, items', index) := Ready_loop fuel' (u64 (next + 1)) (delete next items) index in
            Ok ((items !! next) :: ready, items', index)
          else Ok ([], items, index)
      | [] => Ok ([], items, index)
      end
  end.

Definition sm_Ready {E} (start : Z) (m : txSortedMap) : outcome E (list (option Transaction) * txSortedMap) :=
  match sm_index m with
  | [] => Ok ([], m)
  | n :: _ =>
      if n >? start then Ok ([], m)
      else
        let! (ready, items, index) := Ready_loop (length (sm_index m)) n (sm_items m) (sm_index m) in
        Ok (ready, mkSorted items index None)
  end.

Definition sm_Len (m : txSortedMap) : Z := Z.of_nat (size (sm_items m)).

Definition sm_Flatten (m : txSortedMap) : list Transaction * txSortedMap :=
  match sm_cache m with
  | Some cache => (cache, m)
  | None =>
      let cache := merge_sort nonce_le (map snd (go_range (map_to_list (sm_items m)))) in
      (cache, mkSorted (sm_items m) (sm_index m) (Some cache))
  end.

(** ** Lists of an account *)

Record txList := mkTxList {
  tl_strict : bool;
  tl_txs : txSortedMap;
  tl_costcap : Z;
  tl_gascap : Z
}.

Definition set_txs (l : txList) (txs : txSortedMap) : txList := mkTxList (tl_strict l) txs (tl_costcap l) (tl_gascap l).

Definition newTxList (strict : bool) : txList := mkTxList strict newTxSortedMap 0 0.

Definition Overlaps (tx : Transaction) (l : txList) : bool := bool_decide (is_Some (sm_Get (Nonce tx) (tl_txs l))).

(** The price a replacement has to exceed. *)
Definition bump_threshold (old : Transaction) (priceBump : Z) : Z := GasPrice old * i64 (100 + i64 priceBump) / 100.

Definition tl_Add (tx : Transaction) (priceBump : Z) (l : txList) : bool * option Transaction * txList :=
  let old := sm_Get (Nonce tx) (tl_txs l) in
  if match old with Some o => GasPrice tx <=? bump_threshold o priceBump | None => false end then (false, None, l)
  else
    (true, old, mkTxList (tl_strict l) (sm_Put tx (tl_txs l)) (Z.max (tl_costcap l) (Cost tx)) (Z.max (tl_gascap l) (Gas tx))).

Definition tl_Forward {E} (threshold : Z) (l : txList) : outcome E (list (option Transaction) * txList) :=
  let! (removed, txs) := sm_Forward threshold (tl_txs l) in Ok (removed, set_txs l txs).

(** The lowest nonce of removed transactions. *)
Definition lowest_nonce (removed : list Transaction) : Z :=
  fold_left (fun lowest tx => if lowest >? Nonce tx then Nonce tx else lowest) removed (2 ^ 64 - 1).

Definition tl_Filter (costLimit gasLimit : Z) (l : txList) : list Transaction * list Transaction * txList :=
  if (tl_costcap l <=? costLimit) && (tl_gascap l <=? gasLimit) then ([], [], l)
  else
    let '(removed, txs) := sm_Filter (fun tx => IsNormalTransaction (Txtype (tx_data tx)) &&
      ((Cost tx >? costLimit) || (Gas tx >? gasLimit))) (tl_txs l) in
    let '(invalids, txs) :=
      if tl_strict l && (0 <? length removed)%nat
      then sm_Filter (fun tx => Nonce tx >? lowest_nonce removed) txs
      else ([], txs) in
    (removed, invalids, mkTxList (tl_strict l) txs costLimit gasLimit).

Definition tl_Cap {E} (threshold : Z) (l : txList) : outcome E (list (option Transaction) * txList) :=
  let! (drops, txs) := sm_Cap threshold (tl_txs l) in Ok (drops, set_txs l txs).

Definition tl_Remove {E} (tx : Transaction) (l : txList) : outcome E (bool * list Transaction * txList) :=
  let nonce := Nonce tx in
  let! (removed, txs) := sm_Remove nonce (tl_txs l) in
  if negb removed then Ok (false, [], set_txs l txs)
  else if tl_strict l then
    let '(invalids, txs) := sm_Filter (fun tx => Nonce tx >? nonce) txs in Ok (true, invalids, set_txs l txs)
  else Ok (true, [], set_txs l txs).

Definition tl_Ready {E} (start : Z) (l : txList) : outcome E (list (option Transaction) * txList) :=
  let! (ready, txs) := sm_Ready start (tl_txs l) in Ok (ready, set_txs l txs).

Definition tl_Len (l : txList) : Z := sm_Len (tl_txs l).
Definition tl_Empty (l : txList) : bool := tl_Len l =? 0.

Definition tl_Flatten (l : txList) : list Transaction * txList :=
  let '(txs, m) := sm_Flatten (tl_txs l) in (txs, set_txs l m).

End Lists.

(** ** Accounts *)

Record accountSet := mkAccounts { as_accounts : gset address; as_signer : Signer }.

Definition newAccountSet (signer : Signer) : accountSet := mkAccounts ∅ signer.

Definition as_contains (addr : address) (s : accountSet) : bool := bool_decide (addr ∈ as_accounts s).

Definition as_add (addr : address) (s : accountSet) : accountSet := mkAccounts ({[addr]} ∪ as_accounts s) (as_signer s).

(** ** The priced list *)

Record txPricedList := mkPriced { pl_items : list Transaction; pl_stales : Z }.

Definition newTxPricedList : txPricedList := mkPriced [] 0.

(** [priceHeap.Less]. *)
Definition price_less (t u : Transaction) : bool := GasPrice t <? GasPrice u.

Definition pl_Put (tx : Transaction) (l : txPricedList) : txPricedList :=
  mkPriced (Push price_less tx (pl_items l)) (pl_stales l).

Section Priced.
Context `{Crypto} `{Ecdsa} `{GoRange}.

Definition as_containsTx (tx : Transaction) (s : accountSet) : bool :=
  match (Sender (as_signer s) tx).1 with Ok addr => as_contains addr s | _ => false end.

(** The map of all transactions of the pool is shared with the pool. *)
Context (all : gmap hash Transaction).

Definition is_live (tx : Transaction) : bool := bool_decide (is_Some (all !! hash_of_tx tx)).

Definition pl_Removed (l : txPricedList) : txPricedList :=
  let stales := pl_stales l + 1 in
  if stales <=? zlen (pl_items l) / 4 then mkPriced (pl_items l) stales
  else mkPriced (Init price_less (map snd (go_range (map_to_list all)))) 0.

(** The loop of [Cap]: what is dropped, what is saved, and the heap left. *)
Fixpoint pl_Cap_loop {E} (fuel : nat) (threshold : Z) (local : accountSet) (l : txPricedList) :
    outcome E (list Transaction * list Transaction * txPricedList) :=
  match fuel with
  | O => Ok ([], [], l)
  | S fuel' =>
      match pl_items l with
      | [] => Ok ([], [], l)
      | _ =>
          let! (tx, items) := Pop price_less (pl_items l) in
          if negb (is_live tx) then pl_Cap_loop fuel' threshold local (mkPriced items (pl_stales l - 1))
          else if GasPrice tx >=? threshold then Ok ([], [tx], mkPriced items (pl_stales l))
          else
            let! (drop, save, l') := pl_Cap_loop fuel' threshold local (mkPriced items (pl_stales l)) in
            if as_containsTx tx local then Ok (drop, tx :: save, l') else Ok (tx :: drop, save, l')
      end
  end.

Definition push_all (save : list Transaction) (l : txPricedList) : txPricedList :=
  fold_left (fun l tx => pl_Put tx l) save l.

Definition pl_Cap {E} (threshold : Z) (local : accountSet) (l : txPricedList) : outcome E (list Transaction * txPricedList) :=
  let! (drop, save, l') := pl_Cap_loop (length (pl_items l)) threshold local l in
  Ok (drop, push_all save l').

(** The loop of [Underpriced]: stale transactions at the top are removed. *)
Fixpoint Underpriced_loop {E} (fuel : nat) (l : txPricedList) : outcome E txPricedList :=
  match fuel with
  | O => Ok l
  | S fuel' =>
      match pl_items l with
      | [] => Ok l
      | head :: _ =>
          if negb (is_live head) then
            let! (_, items) := Pop price_less (pl_items l) in
            Underpriced_loop fuel' (mkPriced items (pl_stales l - 1))
          else Ok l
      end
  end.

Definition Underpriced {E} (tx : Transaction) (local : accountSet) (l : txPricedList) : outcome E (bool * txPricedList) :=
  if as_containsTx tx local then Ok (false, l)
  else
    let! l := Underpriced_loop (length (pl_items l)) l in
    match pl_items l with
    | [] => Ok (false, l)
    | cheapest :: _ => Ok (GasPrice cheapest >=? GasPrice tx, l)
    end.

Fixpoint Discard_loop {E} (fuel : nat) (count : Z) (local : accountSet) (l : txPricedList) :
    outcome E (list Transaction * list Transaction * txPricedList) :=
  match fuel with
  | O => Ok ([], [], l)
  | S fuel' =>
      match pl_items l with
      | [] => Ok ([], [], l)
      | _ =>
          if count >? 0 then
            let! (tx, items) := Pop price_less (pl_items l) in
            if negb (is_live tx) then Discard_loop fuel' count local (mkPriced items (pl_stales l - 1))
            else if as_containsTx tx local then
              let! (drop, save, l') := Discard_loop fuel' count local (mkPriced items (pl_stales l)) in
              Ok (drop, tx :: save, l')
            else
              let! (drop, save, l') := Discard_loop fuel' (count - 1) local (mkPriced items (pl_stales l)) in
              Ok (tx :: drop, save, l')
          else Ok ([], [], l)
      end
  end.

(** [Discard]; a negative count panics when the result is allocated. *)
Definition Discard {E} (count : Z) (local : accountSet) (l : txPricedList) : outcome E (list Transaction * txPricedList) :=
  if count <? 0 then Panic
  else
    let! (drop, save, l') := Discard_loop (length (pl_items l)) count local l in
    Ok (drop, push_all save l').

End Priced.
