(* ===== verification/TxListProps.v ===== *)
(** Transaction lists: the map with its heap and cache is a list of transactions
    sorted by nonce, operation by operation. *)
From S2P Require Import Prelude GoHeap IstanbulTypes ValidatorSet IstanbulHeader Transaction TxList.

Lemma filter_ext_in {A} (P Q : A -> Prop) `{forall x, Decision (P x)} `{forall x, Decision (Q x)} (l : list A) :
  (forall x, x ∈ l -> P x <-> Q x) -> filter P l = filter Q l.
Proof.
  induction l as [|x l IH]; intros Hl; [done|]. rewrite !filter_cons, IH by (intros; apply Hl; by right).
  pose proof (Hl x ltac:(constructor)). repeat case_decide; tauto || done.
Qed.

(** ** Sorted lists of transactions *)

Definition nonce_lt (t u : Transaction) : Prop := Nonce t < Nonce u.
Abbreviation sorted := (StronglySorted nonce_lt).

Definition items_of (l : list Transaction) : gmap Z Transaction := list_to_map (map (fun t => (Nonce t, t)) l).

Lemma sorted_nonces l : sorted l -> NoDup (map Nonce l).
Proof.
  induction 1 as [|t l _ IH Hf]; simpl; constructor; [|done].
  intros (u & E & Hu)%list_elem_of_fmap_1. rewrite Forall_forall in Hf. specialize (Hf u Hu). unfold nonce_lt in Hf. lia.
Qed.

Lemma sorted_fst l : map fst (map (fun t => (Nonce t, t)) l) = map Nonce l.
Proof. by rewrite map_map. Qed.

Lemma items_of_lookup l n t : sorted l -> items_of l !! n = Some t <-> t ∈ l /\ Nonce t = n.
Proof.
  intros Hs. unfold items_of. rewrite <- elem_of_list_to_map by (change (NoDup (map fst (map (fun t => (Nonce t, t)) l))); rewrite sorted_fst; by apply sorted_nonces).
  split.
  - intros (u & [= -> ->] & Hu)%list_elem_of_fmap_1. done.
  - intros [Ht <-]. change ((Nonce t, t) ∈ (fun t => (Nonce t, t)) <$> l). by apply (list_elem_of_fmap_2 (fun t => (Nonce t, t))).
Qed.

Lemma items_of_ext m l : sorted l -> (forall n t, m !! n = Some t <-> t ∈ l /\ Nonce t = n) -> m = items_of l.
Proof.
  intros Hs Hm. apply map_eq. intros n. apply option_eq. intros t. by rewrite Hm, items_of_lookup.
Qed.

Lemma items_of_none l n : sorted l -> items_of l !! n = None <-> forall t, t ∈ l -> Nonce t <> n.
Proof.
  intros Hs. rewrite eq_None_not_Some. split.
  - intros Hn t Ht E. apply Hn. exists t. by apply items_of_lookup.
  - intros Hn [t Ht]. apply items_of_lookup in Ht as [Ht E]; [|done]. by apply (Hn t).
Qed.

Lemma sorted_filter (P : Transaction -> Prop) `{forall t, Decision (P t)} l : sorted l -> sorted (filter P l).
Proof.
  induction 1 as [|t l _ IH Hf]; [constructor|]. rewrite filter_cons. case_decide; [|done]. constructor; [done|].
  rewrite Forall_forall in *. intros u [_ Hu]%list_elem_of_filter. by apply Hf.
Qed.

Lemma sorted_app l1 l2 : sorted l1 -> sorted l2 -> (forall t u, t ∈ l1 -> u ∈ l2 -> Nonce t < Nonce u) -> sorted (l1 ++ l2).
Proof.
  intros H1 H2 H12. induction H1 as [|t l1 _ IH Hf]; [done|]. simpl. constructor.
  - apply IH. intros u v Hu Hv. apply H12; [by constructor|done].
  - apply Forall_app. split; [done|]. apply Forall_forall. intros u Hu. apply H12; [constructor|done].
Qed.

Lemma sorted_app_inv l1 l2 : sorted (l1 ++ l2) -> sorted l1 /\ sorted l2 /\ (forall t u, t ∈ l1 -> u ∈ l2 -> Nonce t < Nonce u).
Proof.
  induction l1 as [|t l1 IH]; simpl; intros Hs; [split; [constructor|]; split; [done|]; by intros t u ?%elem_of_nil|].
  inversion_clear Hs as [|? ? Hs' Hf]. destruct (IH Hs') as (H1 & H2 & H3). apply Forall_app in Hf as [F1 F2].
  split; [by constructor|]. split; [done|]. intros a b [->|Ha]%elem_of_cons Hb; [|by apply H3].
  rewrite Forall_forall in F2. by apply F2.
Qed.

(** Two sorted lists with the same transactions are equal. *)
Lemma sorted_unique l1 l2 : sorted l1 -> sorted l2 -> l1 ≡ₚ l2 -> l1 = l2.
Proof.
  assert (AntiSymm (=) nonce_lt) by (intros t u; unfold nonce_lt; lia). intros H1 H2. by apply (StronglySorted_unique nonce_lt).
Qed.

(** ** The list a map stands for *)

(** The heap order of [nonceHeap]. *)
Abbreviation nheap := (heap Z.ltb).

Lemma ltb_asym x y : Z.ltb x y = true -> Z.ltb y x = false.
Proof. rewrite Z.ltb_lt, Z.ltb_ge. lia. Qed.

Lemma ltb_trans x y z : GoHeap.le Z.ltb x y -> GoHeap.le Z.ltb y z -> GoHeap.le Z.ltb x z.
Proof. unfold GoHeap.le. rewrite !Z.ltb_ge. lia. Qed.

Record stands (m : txSortedMap) (l : list Transaction) : Prop := {
  st_sorted : sorted l;
  st_items : sm_items m = items_of l;
  st_index : sm_index m ≡ₚ map Nonce l;
  st_heap : nheap (sm_index m);
  st_cache : match sm_cache m with Some c => c = l | None => True end
}.

Lemma newTxSortedMap_stands : stands newTxSortedMap [].
Proof. constructor; first [done|apply heap_nil|constructor]. Qed.

(** The top of the index is the lowest nonce. *)
Lemma heap_head h n h' l : nheap h -> sorted l -> h ≡ₚ map Nonce l -> h = n :: h' ->
  exists t l', l = t :: l' /\ Nonce t = n.
Proof.
  intros Hh Hs Hp ->. destruct l as [|t l']; [by apply Permutation_nil_r in Hp|]. exists t, l'. split; [done|].
  assert (Hn : n ∈ map Nonce (t :: l')) by (rewrite <- Hp; constructor).
  assert (Ht : Nonce t ∈ n :: h') by (rewrite Hp; constructor).
  apply list_elem_of_lookup_1 in Ht as [i Hi].
  pose proof (heap_root Z.ltb ltb_asym ltb_trans (n :: h') n Hh eq_refl i _ Hi) as Hle. unfold GoHeap.le in Hle. apply Z.ltb_ge in Hle.
  apply list_elem_of_fmap_1 in Hn as (u & -> & Hu). apply elem_of_cons in Hu as [->|Hu]; [done|].
  inversion_clear Hs as [|? ? _ Hf]. rewrite Forall_forall in Hf. specialize (Hf u Hu). unfold nonce_lt in Hf. lia.
Qed.

Lemma items_of_cons t l : sorted (t :: l) -> items_of (t :: l) !! Nonce t = Some t /\ delete (Nonce t) (items_of (t :: l)) = items_of l.
Proof.
  intros Hs. split; [apply items_of_lookup; [done|split; [constructor|done]]|]. inversion_clear Hs as [|? ? Hs' Hf].
  unfold items_of. simpl. rewrite delete_insert_eq. apply delete_id. apply items_of_none; [done|].
  intros u Hu. rewrite Forall_forall in Hf. specialize (Hf u Hu). unfold nonce_lt in Hf. lia.
Qed.

(** Removing the top of the index. *)
Lemma pop_head {E} index t l : nheap index -> sorted (t :: l) -> index ≡ₚ map Nonce (t :: l) ->
  exists index', @Pop _ Z.ltb E index = Ok (Nonce t, index') /\ nheap index' /\ index' ≡ₚ map Nonce l /\ exists r, index = Nonce t :: r.
Proof.
  intros Hh Hs Hp. destruct index as [|n r]; [apply Permutation_sym in Hp; by apply Permutation_nil_r in Hp|].
  destruct (heap_head _ n r _ Hh Hs Hp eq_refl) as (t' & l' & [= <- <-] & En). subst n.
  destruct (Pop_ok Z.ltb ltb_asym ltb_trans (E:=E) (Nonce t :: r) (Nonce t) Hh eq_refl) as (index' & -> & Hp' & Hh' & _).
  exists index'. split_and!; [done|done| |by exists r]. rewrite Hp in Hp'. simpl in Hp'. by apply Permutation_cons_inv in Hp'.
Qed.

(** ** The operations *)

Definition l_put (tx : Transaction) (l : list Transaction) : list Transaction :=
  filter (fun t => Nonce t < Nonce tx) l ++ tx :: filter (fun t => Nonce tx < Nonce t) l.

Lemma elem_of_l_put t tx l : sorted l -> t ∈ l_put tx l <-> t = tx \/ t ∈ l /\ Nonce t <> Nonce tx.
Proof.
  intros Hs. unfold l_put. rewrite elem_of_app, elem_of_cons, !list_elem_of_filter. split.
  - intros [[? ?]|[->|[? ?]]]; [right; split; [done|lia]|by left|right; split; [done|lia]].
  - intros [->|[Ht Hne]]; [auto|]. destruct (Z.lt_trichotomy (Nonce t) (Nonce tx)) as [?|[?|?]]; auto; lia.
Qed.

Lemma l_put_sorted tx l : sorted l -> sorted (l_put tx l).
Proof.
  intros Hs. apply sorted_app; [by apply sorted_filter| |].
  - constructor; [by apply sorted_filter|]. apply Forall_forall. intros u [Hu _]%list_elem_of_filter. done.
  - intros t u [Ht _]%list_elem_of_filter [->|[Hu _]%list_elem_of_filter]%elem_of_cons; lia.
Qed.

Lemma index_perm index l : NoDup index -> sorted l -> (forall n, n ∈ index <-> exists t, t ∈ l /\ Nonce t = n) ->
  index ≡ₚ map Nonce l.
Proof.
  intros Hn Hs Hm. apply NoDup_Permutation; [done|by apply sorted_nonces|]. intros n. rewrite Hm.
  change (map Nonce l) with (Nonce <$> l). rewrite list_elem_of_fmap. naive_solver.
Qed.

Lemma index_NoDup index l : sorted l -> index ≡ₚ map Nonce l -> NoDup index.
Proof. intros Hs ->. by apply sorted_nonces. Qed.

Lemma elem_of_nonces n l : n ∈ map Nonce l <-> exists t, t ∈ l /\ Nonce t = n.
Proof. change (map Nonce l) with (Nonce <$> l). rewrite list_elem_of_fmap. naive_solver. Qed.

Lemma Put_stands tx m l : stands m l -> stands (sm_Put tx m) (l_put tx l).
Proof.
  intros [Hs Hi Hx Hh _]. pose proof (l_put_sorted tx l Hs) as Hs'. constructor; simpl; [done| | | |done].
  - apply items_of_ext; [done|]. intros n t. rewrite Hi, lookup_insert_Some, elem_of_l_put, items_of_lookup by done. naive_solver.
  - rewrite Hi. destruct (items_of l !! Nonce tx) as [u|] eqn:Eu.
    + apply items_of_lookup in Eu as [Hu Eu]; [|done]. rewrite Hx. apply index_perm; [by apply sorted_nonces|done|].
      intros n. rewrite elem_of_nonces. setoid_rewrite elem_of_l_put; [|done]. split.
      * intros (t & Ht & <-). destruct (decide (Nonce t = Nonce tx)); eauto 6.
      * intros (t & [->|[Ht _]] & <-); eauto.
    + destruct (Push_ok Z.ltb ltb_asym ltb_trans (Nonce tx) (sm_index m) Hh) as [_ ->]. rewrite items_of_none in Eu by done.
      apply index_perm; [|done|].
      * constructor; [|by apply (index_NoDup _ l)]. rewrite Hx, elem_of_nonces. intros (t & Ht & E). by apply (Eu t).
      * intros n. rewrite elem_of_cons, Hx, elem_of_nonces. setoid_rewrite elem_of_l_put; [|done]. split.
        -- intros [->|(t & Ht & <-)]; [by eauto|]. exists t. auto.
        -- intros (t & [->|[Ht _]] & <-); eauto.
  - destruct (sm_items m !! Nonce tx); [done|]. by apply Push_ok; [apply ltb_asym|apply ltb_trans|].
Qed.

Lemma Forward_loop_ok {E} thr l : forall fuel index, (length l <= fuel)%nat -> sorted l -> index ≡ₚ map Nonce l -> nheap index ->
  exists index', @Forward_loop E fuel thr (items_of l) index =
    Ok (map Some (filter (fun t => Nonce t < thr) l), items_of (filter (fun t => thr <= Nonce t) l), index') /\
    index' ≡ₚ map Nonce (filter (fun t => thr <= Nonce t) l) /\ nheap index'.
Proof.
  induction l as [|t l IH]; intros fuel index Hf Hs Hp Hh.
  - apply Permutation_nil_r in Hp as ->. exists []. split; [by destruct fuel|]. by split; [|apply heap_nil].
  - destruct fuel as [|fuel]; [simpl in Hf; lia|].
    destruct (pop_head (E:=E) index t l Hh Hs Hp) as (index' & EP & Hh' & Hp' & r & Er). subst index. cbn [Forward_loop].
    destruct (items_of_cons t l Hs) as [E1 E2]. rewrite !filter_cons. inversion Hs as [|? ? Hs' Hf']; subst.
    destruct (Z.ltb_spec (Nonce t) thr).
    + rewrite EP. simpl. rewrite E2, E1. destruct (IH fuel index') as (index2 & -> & ? & ?); simpl in Hf; try done; [lia|].
      rewrite decide_True, decide_False by lia. simpl. by exists index2.
    + rewrite decide_False, decide_True by lia.
      assert (Forall (fun u => thr <= Nonce u) l) as Hall.
      { eapply Forall_impl; [exact Hf'|]. unfold nonce_lt. simpl. intros; lia. }
      rewrite (filter_all (fun u => thr <= Nonce u) l) by done.
      assert (filter (fun u => Nonce u < thr) l = []) as ->.
      { apply filter_none. eapply Forall_impl; [exact Hall|]. simpl. intros; lia. }
      simpl. by exists (Nonce t :: r).
Qed.

Lemma split_at thr l : sorted l -> l = filter (fun t => Nonce t < thr) l ++ filter (fun t => thr <= Nonce t) l.
Proof.
  induction 1 as [|t l Hs IH Hf]; [done|]. rewrite !filter_cons.
  destruct (decide (Nonce t < thr)); [rewrite decide_False by lia; simpl; by f_equal|]. rewrite decide_True by lia.
  rewrite filter_none, filter_all; [done|..]; (eapply Forall_impl; [exact Hf|]); unfold nonce_lt; simpl; intros; lia.
Qed.

Lemma Forward_stands {E} thr m l : stands m l ->
  exists m', @sm_Forward E thr m = Ok (map Some (filter (fun t => Nonce t < thr) l), m') /\
    stands m' (filter (fun t => thr <= Nonce t) l).
Proof.
  intros [Hs Hi Hx Hh Hc]. unfold sm_Forward. rewrite Hi.
  assert (Hl : length (sm_index m) = length l) by (by rewrite Hx, length_map).
  destruct (Forward_loop_ok (E:=E) thr l (length (sm_index m)) (sm_index m)) as (index' & -> & Hx' & Hh'); try done; [lia|]. simpl.
  pose proof (sorted_filter (fun t => thr <= Nonce t) l Hs) as Hs'.
  pose proof (split_at thr l Hs) as El.
  revert El. set (lo := filter (fun t => Nonce t < thr) l). set (hi := filter (fun t => thr <= Nonce t) l) in *. intros El.
  destruct (sm_cache m) as [c|]; [|eexists; split; [done|by constructor]]. subst c. rewrite length_map.
  assert (length l = length lo + length hi)%nat as Hlen by (rewrite El at 1; by rewrite length_app).
  rewrite (proj2 (Nat.ltb_ge _ _)) by lia. eexists. split; [done|]. constructor; try done. simpl. rewrite El at 1. by rewrite drop_app_length.
Qed.

(** The longest run of consecutive nonces at the start. *)
Fixpoint run (next : Z) (l : list Transaction) : list Transaction :=
  match l with
  | t :: l' => if Nonce t =? next then t :: run (next + 1) l' else []
  | [] => []
  end.

Definition l_ready (start : Z) (l : list Transaction) : list Transaction :=
  match l with
  | t :: _ => if Nonce t >? start then [] else run (Nonce t) l
  | [] => []
  end.

Abbreviation nonces_ok := (Forall (fun t => is_u64 (Nonce t))).

Lemma run_length next l : (length (run next l) <= length l)%nat.
Proof. revert next. induction l as [|t l IH]; intros next; simpl; [done|]. case_match; simpl; [specialize (IH (next + 1)); lia|lia]. Qed.

Lemma Ready_loop_ok {E} l : forall fuel next index, (length l <= fuel)%nat -> sorted l -> nonces_ok l -> is_u64 next ->
  Forall (fun t => next <= Nonce t) l -> index ≡ₚ map Nonce l -> nheap index ->
  exists index', @Ready_loop E fuel next (items_of l) index =
    Ok (map Some (run next l), items_of (drop (length (run next l)) l), index') /\
    index' ≡ₚ map Nonce (drop (length (run next l)) l) /\ nheap index'.
Proof.
  induction l as [|t l IH]; intros fuel next index Hf Hs Hok Hn Hlow Hp Hh.
  - apply Permutation_nil_r in Hp as ->. exists []. split; [by destruct fuel|]. by split; [|apply heap_nil].
  - destruct fuel as [|fuel]; [simpl in Hf; lia|].
    destruct (pop_head (E:=E) index t l Hh Hs Hp) as (index' & EP & Hh' & Hp' & r & Er). subst index. cbn [Ready_loop run].
    destruct (items_of_cons t l Hs) as [E1 E2]. inversion Hs as [|? ? Hs' Hf']; subst. inversion Hok as [|? ? Ht Hok']; subst.
    destruct (Z.eqb_spec (Nonce t) next) as [<-|]; [|by eexists].
    rewrite EP. cbn [obind]. rewrite E2, E1. unfold is_u64 in *.
    destruct (decide (Nonce t + 1 < 2 ^ 64)) as [Hlt|Hge].
    + assert (u64 (Nonce t + 1) = Nonce t + 1) as -> by (unfold u64; apply Z.mod_small; lia).
      destruct (IH fuel (Nonce t + 1) index') as (index2 & -> & ? & ?); simpl in Hf; try done; [lia|lia| |].
      { eapply Forall_impl; [exact Hf'|]. unfold nonce_lt. simpl. intros; lia. }
      simpl. by exists index2.
    + assert (l = []) as ->.
      { destruct l as [|u l]; [done|]. inversion_clear Hf' as [|? ? Hu _]. inversion_clear Hok' as [|? ? Hu' _]. unfold nonce_lt in Hu. lia. }
      apply Permutation_nil_r in Hp' as ->. simpl. exists []. split; [by destruct fuel|]. by split; [|apply heap_nil].
Qed.

Lemma Ready_stands {E} start m l : stands m l -> nonces_ok l ->
  exists m', @sm_Ready E start m = Ok (map Some (l_ready start l), m') /\ stands m' (drop (length (l_ready start l)) l).
Proof.
  intros Hst Hok. pose proof Hst as [Hs Hi Hx Hh Hc]. unfold sm_Ready, l_ready.
  destruct (sm_index m) as [|n r] eqn:Ei.
  { symmetry in Hx. apply Permutation_nil_r in Hx. destruct l; [|done]. by exists m. }
  destruct (heap_head _ n r l Hh Hs Hx eq_refl) as (t & l' & -> & En). subst n.
  destruct (Nonce t >? start) eqn:Eg; [by exists m|]. rewrite Hi.
  assert (Hl : length (Nonce t :: r) = length (t :: l')) by (by rewrite Hx, length_map).
  inversion Hs as [|? ? Hs' Hf']; subst. inversion Hok as [|? ? Ht Hok']; subst.
  destruct (Ready_loop_ok (E:=E) (t :: l') (length (Nonce t :: r)) (Nonce t) (Nonce t :: r)) as (index' & -> & Hx' & Hh'); try done; [lia| |].
  { constructor; [lia|]. eapply Forall_impl; [exact Hf'|]. unfold nonce_lt. simpl. intros; lia. }
  cbn [obind]. eexists. split; [done|]. constructor; try done. simpl sm_items.
  rewrite <- (take_drop (length (run (Nonce t) (t :: l'))) (t :: l')) in Hs. by apply sorted_app_inv in Hs as (_ & ? & _).
Qed.

Section WithRange.
Context `{GoRangeLaws}.

Lemma map_to_list_items l : sorted l -> map_to_list (items_of l) ≡ₚ map (fun t => (Nonce t, t)) l.
Proof. intros Hs. apply map_to_list_to_map. change (NoDup (map fst (map (fun t => (Nonce t, t)) l))). rewrite sorted_fst. by apply sorted_nonces. Qed.

Lemma range_items l : sorted l -> map snd (go_range (map_to_list (items_of l))) ≡ₚ l /\
  map fst (go_range (map_to_list (items_of l))) ≡ₚ map Nonce l.
Proof.
  intros Hs. pose proof (map_to_list_items l Hs) as Hp. split.
  - rewrite go_range_perm, Hp, map_map. simpl. by rewrite map_id.
  - by rewrite go_range_perm, Hp, map_map.
Qed.

Lemma Filter_stands f m l : stands m l ->
  exists removed m', sm_Filter f m = (removed, m') /\ removed ≡ₚ filter (fun t => f t = true) l /\
    stands m' (filter (fun t => f t = false) l).
Proof.
  intros [Hs Hi Hx Hh Hc]. unfold sm_Filter. pose proof (sorted_filter (fun t => f t = false) l Hs) as Hs'.
  assert (Ei : filter (fun p : Z * Transaction => f p.2 = false) (sm_items m) = items_of (filter (fun t => f t = false) l)).
  { apply items_of_ext; [done|]. intros n t. rewrite map_lookup_filter_Some, Hi, items_of_lookup, list_elem_of_filter by done. simpl. naive_solver. }
  rewrite Ei, Hi. set (removed := filter _ (map snd _)).
  assert (Hr : removed ≡ₚ filter (fun t => f t = true) l) by (subst removed; f_equiv; by apply range_items).
  destruct removed as [|t r] eqn:Er.
  - eexists _, _. split; [done|]. split; [done|]. symmetry in Hr. apply Permutation_nil_r in Hr.
    assert (filter (fun t => f t = false) l = l) as ->.
    { apply filter_all, Forall_forall. intros t Ht. destruct (f t) eqn:Ef; [|done].
      assert (t ∈ filter (fun t => f t = true) l) as Hin by by apply list_elem_of_filter. rewrite Hr in Hin. by apply elem_of_nil in Hin. }
    by constructor.
  - eexists _, _. split; [done|]. split; [done|]. destruct (Init_ok Z.ltb ltb_asym ltb_trans
      (map fst (go_range (map_to_list (items_of (filter (fun t => f t = false) l)))))) as [Hh' Hp].
    constructor; try done. simpl. rewrite Hp. by apply range_items.
Qed.

Lemma sorted_strict l : StronglySorted nonce_le l -> NoDup (map Nonce l) -> sorted l.
Proof.
  induction 1 as [|t l _ IH Hf]; intros Hn; constructor; inversion_clear Hn as [|? ? Hni Hn'].
  - by apply IH.
  - rewrite Forall_forall in *. intros u Hu. specialize (Hf u Hu). unfold nonce_le in Hf. unfold nonce_lt.
    assert (Nonce u <> Nonce t); [|lia]. intros E. apply Hni. apply elem_of_nonces. eauto.
Qed.

Lemma merge_sort_txs l l' : sorted l -> l' ≡ₚ l -> merge_sort nonce_le l' = l.
Proof.
  intros Hs Hp. assert (Total nonce_le) by (intros t u; unfold nonce_le; lia).
  assert (Transitive nonce_le) by (intros t u v; unfold nonce_le; lia).
  assert (Hp' : merge_sort nonce_le l' ≡ₚ l) by (by rewrite merge_sort_Permutation).
  apply sorted_unique; [|done|done]. apply sorted_strict; [by apply StronglySorted_merge_sort|].
  rewrite Hp'. by apply sorted_nonces.
Qed.

Lemma Flatten_stands m l : stands m l -> exists m', sm_Flatten m = (l, m') /\ stands m' l.
Proof.
  intros Hst. pose proof Hst as [Hs Hi Hx Hh Hc]. unfold sm_Flatten. destruct (sm_cache m) as [c|] eqn:Ec; [subst c; eauto|].
  rewrite (merge_sort_txs l); [|done|rewrite Hi; by apply range_items]. eexists. split; [done|]. by constructor.
Qed.
End WithRange.

Lemma items_of_snoc l t : sorted (l ++ [t]) -> items_of (l ++ [t]) !! Nonce t = Some t /\ delete (Nonce t) (items_of (l ++ [t])) = items_of l.
Proof.
  intros Hs. split; [apply items_of_lookup; [done|split; [set_solver|done]]|]. pose proof (sorted_app_inv _ _ Hs) as (Hs1 & _ & Hlt).
  apply items_of_ext; [done|]. intros n u. rewrite lookup_delete_Some, items_of_lookup by done. rewrite elem_of_app, list_elem_of_singleton. split.
  - intros (Hne & [Hu| ->] & Hn); [done|]. by subst.
  - intros [Hu Hn]. split_and!; [|by left|done]. specialize (Hlt u t Hu ltac:(set_solver)). lia.
Qed.

Lemma size_items l : sorted l -> size (items_of l) = length l.
Proof. intros Hs. rewrite <- length_map_to_list, (map_to_list_items l Hs). apply length_map. Qed.

Lemma Cap_loop_ok {E} thr rest l : sorted l ->
  @Cap_loop E (length l) thr (items_of l) (map Nonce (l ++ rest)) = Ok (map Some (reverse (drop thr l)), items_of (take thr l)).
Proof.
  revert rest. induction l as [|t l IH] using rev_ind; intros rest Hs; [by rewrite drop_nil, take_nil|].
  rewrite length_app. replace (length l + length [t])%nat with (S (length l)) by (simpl; lia). cbn [Cap_loop].
  destruct (Nat.ltb_spec thr (S (length l))) as [Hlt|Hge].
  - rewrite <- app_assoc, map_app, lookup_app_r by (by rewrite length_map). rewrite length_map, Nat.sub_diag. cbn [app map lookup].
    destruct (items_of_snoc l t Hs) as [E1 E2]. simpl. rewrite E1, E2. apply sorted_app_inv in Hs as (Hs & _).
    specialize (IH (t :: rest) Hs). rewrite map_app in IH. simpl in IH. rewrite IH. simpl.
    rewrite drop_app_le, take_app_le by lia. rewrite reverse_app. done.
  - rewrite drop_ge, take_ge by (rewrite length_app; simpl; lia). done.
Qed.

Lemma sorted_le l : sorted l -> StronglySorted Z.le (map Nonce l).
Proof.
  induction 1 as [|t l _ IH Hf]; simpl; constructor; [done|]. apply Forall_map. eapply Forall_impl; [exact Hf|].
  unfold nonce_lt. simpl. lia.
Qed.

Lemma merge_sort_nonces index l : sorted l -> index ≡ₚ map Nonce l -> merge_sort Z.le index = map Nonce l.
Proof.
  intros Hs Hp. assert (AntiSymm (=) Z.le) by (intros x y; lia).
  apply (StronglySorted_unique Z.le); [apply StronglySorted_merge_sort; apply _|by apply sorted_le|].
  by rewrite merge_sort_Permutation.
Qed.

Lemma Cap_stands {E} k m l : stands m l -> 0 <= k ->
  exists m', @sm_Cap E k m = Ok (map Some (reverse (drop (Z.to_nat k) l)), m') /\ stands m' (take (Z.to_nat k) l).
Proof.
  intros Hst Hk. pose proof Hst as [Hs Hi Hx Hh Hc]. unfold sm_Cap. rewrite Hi, (size_items l Hs).
  destruct (Z.leb_spec (Z.of_nat (length l)) k).
  { rewrite drop_ge, take_ge by lia. by exists m. }
  rewrite (proj2 (Z.ltb_ge _ _)) by lia. rewrite (merge_sort_nonces _ l Hs Hx).
  pose proof (Cap_loop_ok (E:=E) (Z.to_nat k) [] l Hs) as EC. rewrite app_nil_r in EC. rewrite EC. cbn [obind].
  rewrite length_map, (proj2 (Nat.ltb_ge _ _)) by lia.
  destruct (Init_ok Z.ltb ltb_asym ltb_trans (take (Z.to_nat k) (map Nonce l))) as [Hh' Hp].
  assert (Hs' : sorted (take (Z.to_nat k) l)).
  { rewrite <- (take_drop (Z.to_nat k) l) in Hs. by apply sorted_app_inv in Hs as (? & _). }
  assert (Hx' : Init Z.ltb (take (Z.to_nat k) (map Nonce l)) ≡ₚ map Nonce (take (Z.to_nat k) l)) by (rewrite Hp; by rewrite firstn_map).
  destruct (sm_cache m) as [c|]; [|eexists; split; [done|by constructor]]. subst c.
  rewrite length_map, length_reverse, length_drop, (proj2 (Nat.ltb_ge _ _)) by lia.
  eexists. split; [done|]. constructor; try done. simpl. f_equal. lia.
Qed.

Lemma find_index_ok n index : forall i, n ∈ index -> exists j, find_index n i index = Some (i + j)%nat /\ index !! j = Some n.
Proof.
  induction index as [|x index IH]; intros i Hn; [by apply elem_of_nil in Hn|]. simpl. destruct (Z.eqb_spec x n) as [->|Hne].
  - exists 0%nat. by rewrite Nat.add_0_r.
  - apply elem_of_cons in Hn as [->|Hn]; [done|]. destruct (IH (S i) Hn) as (j & -> & Ej). exists (S j). split; [f_equal; lia|done].
Qed.

Definition has_nonce (n : Z) (l : list Transaction) : bool := bool_decide (n ∈ map Nonce l).

Lemma Remove_stands {E} n m l : stands m l ->
  exists m', @sm_Remove E n m = Ok (has_nonce n l, m') /\ stands m' (filter (fun t => Nonce t <> n) l).
Proof.
  intros Hst. pose proof Hst as [Hs Hi Hx Hh Hc]. unfold sm_Remove. rewrite Hi. pose proof (sorted_filter (fun t => Nonce t <> n) l Hs) as Hs'.
  destruct (items_of l !! n) as [t|] eqn:Et.
  - apply items_of_lookup in Et as [Ht En]; [|done]. unfold has_nonce. rewrite bool_decide_true by (rewrite elem_of_nonces; eauto).
    assert (Hn : n ∈ sm_index m) by (rewrite Hx, elem_of_nonces; eauto).
    destruct (find_index_ok n (sm_index m) 0 Hn) as (j & -> & Ej). simpl.
    destruct (Remove_ok Z.ltb ltb_asym ltb_trans (E:=E) (sm_index m) j n Hh Ej) as (index' & -> & Hp & Hh'). simpl.
    eexists. split; [done|]. constructor; try done; simpl.
    + apply items_of_ext; [done|]. intros k u. rewrite lookup_delete_Some, items_of_lookup, list_elem_of_filter by done. naive_solver.
    + pose proof (index_NoDup _ l Hs Hx) as Hnd. rewrite Hp in Hnd. inversion_clear Hnd as [|? ? Hni Hnd'].
      apply index_perm; [done|done|]. intros k. setoid_rewrite list_elem_of_filter. split.
      * intros Hk. assert (k ∈ sm_index m) as Hk' by (rewrite Hp; by right). rewrite Hx, elem_of_nonces in Hk'.
        destruct Hk' as (u & Hu & <-). exists u. split_and!; [|done|done]. intros E'. by rewrite E' in Hk.
      * intros (u & (Hne & Hu) & <-). assert (Nonce u ∈ sm_index m) as Hk' by (rewrite Hx, elem_of_nonces; eauto).
        rewrite Hp in Hk'. by apply elem_of_cons in Hk' as [?|?].
  - rewrite items_of_none in Et by done. unfold has_nonce. rewrite bool_decide_false by (rewrite elem_of_nonces; intros (t & Ht & E'); by apply (Et t)).
    rewrite filter_all by (by apply Forall_forall). by exists m.
Qed.
