(* ===== verification/TxListTheorems.v ===== *)
(** Claims on the transaction lists of the pool: [core/tx_list.go]. *)
From S2P Require Import Prelude GoHeap IstanbulTypes ValidatorSet KeccakCrypto IstanbulHeader RoundState Transaction TxList TxListProps.

(** ** The list of an account *)

Inductive list_op :=
| LAdd (tx : Transaction) (priceBump : Z) | LForward (threshold : Z) | LFilter (costLimit gasLimit : Z)
| LCap (threshold : Z) | LRemove (tx : Transaction) | LReady (start : Z) | LFlatten.

(** What an operation returns. *)
Inductive list_res :=
| RAdd (ok : bool) (old : option Transaction) | RTxs (txs : list (option Transaction))
| RFilter (removed invalids : list Transaction) | RRemove (ok : bool) (invalids : list Transaction).

(** Transactions a limit excludes; the cost of privacy transactions does not matter. *)
Definition unaffordable (costLimit gasLimit : Z) (tx : Transaction) : bool :=
  IsNormalTransaction (Txtype (tx_data tx)) && ((Cost tx >? costLimit) || (Gas tx >? gasLimit)).

Definition nonce_of (n : Z) (l : list Transaction) : option Transaction := items_of l !! n.

Definition replaceable (tx : Transaction) (bump : Z) (l : list Transaction) : bool :=
  match nonce_of (Nonce tx) l with Some o => GasPrice tx >? bump_threshold o bump | None => true end.

(** Everything before the first transaction with a property. *)
Fixpoint before (bad : Transaction -> bool) (l : list Transaction) : list Transaction :=
  match l with t :: l' => if bad t then [] else t :: before bad l' | [] => [] end.

(** The list after an operation; a strict list is cut at the first gap. *)
Definition l_next (strict : bool) (op : list_op) (l : list Transaction) : list Transaction :=
  match op with
  | LAdd tx bump => if replaceable tx bump l then l_put tx l else l
  | LForward thr => filter (fun t => thr <= Nonce t) l
  | LFilter c g => if strict then before (unaffordable c g) l else filter (fun t => unaffordable c g t = false) l
  | LCap k => take (Z.to_nat k) l
  | LRemove tx =>
      if strict && has_nonce (Nonce tx) l then filter (fun t => Nonce t < Nonce tx) l
      else filter (fun t => Nonce t <> Nonce tx) l
  | LReady start => drop (length (l_ready start l)) l
  | LFlatten => l
  end.

Definition l_answer (strict : bool) (op : list_op) (l : list Transaction) (r : list_res) : Prop :=
  match op with
  | LAdd tx bump => r = if replaceable tx bump l then RAdd true (nonce_of (Nonce tx) l) else RAdd false None
  | LForward thr => r = RTxs (map Some (filter (fun t => Nonce t < thr) l))
  | LFilter c g => exists removed invalids, r = RFilter removed invalids /\
      removed ≡ₚ filter (fun t => unaffordable c g t = true) l /\
      invalids ≡ₚ if strict then filter (fun t => unaffordable c g t = false) (drop (length (before (unaffordable c g) l)) l) else []
  | LCap k => r = RTxs (map Some (reverse (drop (Z.to_nat k) l)))
  | LRemove tx => exists invalids, r = RRemove (has_nonce (Nonce tx) l) invalids /\
      invalids ≡ₚ if strict && has_nonce (Nonce tx) l then filter (fun t => Nonce tx < Nonce t) l else []
  | LReady start => r = RTxs (map Some (l_ready start l))
  | LFlatten => r = RTxs (map Some l)
  end.

Definition list_op_ok (op : list_op) : Prop :=
  match op with
  | LAdd tx _ => is_u64 (Nonce tx)
  | LCap k => 0 <= k
  | _ => True
  end.

Section Account.
Context `{GoRangeLaws}.

Definition list_step (l : txList) (op : list_op) : outcome Empty_set (list_res * txList) :=
  match op with
  | LAdd tx bump => let '(ok, old, l) := tl_Add tx bump l in Ok (RAdd ok old, l)
  | LForward thr => let! (txs, l) := tl_Forward thr l in Ok (RTxs txs, l)
  | LFilter c g => let '(removed, invalids, l) := tl_Filter c g l in Ok (RFilter removed invalids, l)
  | LCap k => let! (txs, l) := tl_Cap k l in Ok (RTxs txs, l)
  | LRemove tx => let! (ok, invalids, l) := tl_Remove tx l in Ok (RRemove ok invalids, l)
  | LReady start => let! (txs, l) := tl_Ready start l in Ok (RTxs txs, l)
  | LFlatten => let '(txs, l) := tl_Flatten l in Ok (RTxs (map Some txs), l)
  end.

(** The state of a list: what it stands for, and caps that bound what is in it. *)
Definition list_inv (L : txList) (l : list Transaction) : Prop :=
  stands (tl_txs L) l /\ nonces_ok l /\
  Forall (fun t => IsNormalTransaction (Txtype (tx_data t)) = true -> Cost t <= tl_costcap L /\ Gas t <= tl_gascap L) l.

Lemma nonces_ok_sub l l' : (forall t, t ∈ l' -> t ∈ l) -> nonces_ok l -> nonces_ok l'.
Proof. rewrite !Forall_forall. auto. Qed.

Lemma list_inv_sub L txs l l' : list_inv L l -> stands txs l' -> (forall t, t ∈ l' -> t ∈ l) -> list_inv (set_txs L txs) l'.
Proof.
  intros (_ & Hn & Hc) Hst Hsub. split_and!; [done|by eapply nonces_ok_sub|]. rewrite Forall_forall in *. auto.
Qed.

Lemma unaffordable_none L c g l : list_inv L l -> tl_costcap L <= c -> tl_gascap L <= g ->
  Forall (fun t => unaffordable c g t = false) l.
Proof.
  intros (_ & _ & Hc) H1 H2. eapply Forall_impl; [exact Hc|]. intros t Ht. simpl in Ht. unfold unaffordable.
  destruct (IsNormalTransaction _); [|done]. specialize (Ht eq_refl). simpl. rewrite !Z.gtb_ltb.
  by rewrite !(proj2 (Z.ltb_ge _ _)) by lia.
Qed.

Lemma before_all bad l : Forall (fun t => bad t = false) l -> before bad l = l.
Proof. induction 1 as [|t l Ht _ IH]; simpl; [done|]. rewrite Ht. by f_equal. Qed.

Lemma before_elem bad l t : t ∈ before bad l -> t ∈ l /\ bad t = false.
Proof.
  induction l as [|u l IH]; simpl; [by intros ?%elem_of_nil|]. destruct (bad u) eqn:E; [by intros ?%elem_of_nil|].
  intros [->|Ht]%elem_of_cons; [split; [constructor|done]|]. destruct (IH Ht). split; [by right|done].
Qed.

(** In a sorted list, cutting at the lowest bad nonce is cutting at the first bad transaction. *)
Lemma before_split bad l : sorted l -> filter (fun t => bad t = true) l <> [] ->
  exists t0, t0 ∈ l /\ bad t0 = true /\ (forall t, t ∈ l -> bad t = true -> Nonce t0 <= Nonce t) /\
    before bad l = filter (fun t => bad t = false /\ Nonce t <= Nonce t0) l /\
    filter (fun t => bad t = false) (drop (length (before bad l)) l) = filter (fun t => bad t = false /\ Nonce t0 < Nonce t) l.
Proof.
  induction 1 as [|t l Hs IH Hf]; [done|]. rewrite filter_cons. simpl before. destruct (bad t) eqn:Eb.
  - intros _. exists t. rewrite Forall_forall in Hf. unfold nonce_lt in Hf. split; [constructor|]. split; [done|].
    split; [intros u [->|Hu]%elem_of_cons _; [lia|]; specialize (Hf u Hu); lia|]. simpl length. rewrite drop_0. split.
    + rewrite filter_cons_False by (rewrite Eb; naive_solver). symmetry. apply filter_none, Forall_forall. intros u Hu [_ ?].
      specialize (Hf u Hu). lia.
    + rewrite !filter_cons_False by (rewrite Eb; naive_solver). apply filter_ext_in. intros u Hu. specialize (Hf u Hu). naive_solver.
  - rewrite decide_False by done. intros Hne. destruct (IH Hne) as (t0 & H1 & H2 & H3 & H4 & H5). exists t0.
    rewrite Forall_forall in Hf. pose proof (Hf t0 H1) as Hlt. unfold nonce_lt in Hlt.
    split; [by right|]. split; [done|]. split; [intros u [->|Hu]%elem_of_cons Hu'; [congruence|by apply H3]|].
    simpl length. simpl drop. split.
    + rewrite filter_cons_True by (split; [done|lia]). by f_equal.
    + rewrite filter_cons_False by lia. done.
Qed.

Lemma lowest_fold removed : forall m, let n := fold_left (fun lowest tx => if lowest >? Nonce tx then Nonce tx else lowest) removed m in
  n <= m /\ (forall t, t ∈ removed -> n <= Nonce t) /\ (n = m \/ exists t, t ∈ removed /\ n = Nonce t).
Proof.
  induction removed as [|t l IH]; intros m; simpl; [split; [lia|]; split; [by intros t ?%elem_of_nil|by left]|].
  rewrite Z.gtb_ltb. specialize (IH (if Nonce t <? m then Nonce t else m)). simpl in IH. destruct IH as (H1 & H2 & H3).
  destruct (Z.ltb_spec (Nonce t) m).
  - split; [lia|]. split; [intros u [->|Hu]%elem_of_cons; auto|]. right.
    destruct H3 as [H3|(u & Hu & H3)]; [exists t|exists u]; split; try done; [constructor|by right].
  - split; [lia|]. split; [intros u [->|Hu]%elem_of_cons; [lia|auto]|]. destruct H3 as [H3|(u & Hu & H3)]; [by left|right].
    exists u. split; [by right|done].
Qed.

Lemma lowest_nonce_ok removed t0 : t0 ∈ removed -> (forall t, t ∈ removed -> is_u64 (Nonce t) /\ Nonce t0 <= Nonce t) ->
  lowest_nonce removed = Nonce t0.
Proof.
  intros Ht0 Hall. unfold lowest_nonce. destruct (lowest_fold removed (2 ^ 64 - 1)) as (H1 & H2 & H3).
  pose proof (H2 t0 Ht0). destruct (Hall t0 Ht0) as [Hu _]. unfold is_u64 in Hu. destruct H3 as [H3|(u & Hu' & H3)]; [lia|].
  destruct (Hall u Hu') as [_ ?]. lia.
Qed.

Lemma Filter_ok c g L l : list_inv L l ->
  exists removed invalids L', tl_Filter c g L = (removed, invalids, L') /\ list_inv L' (l_next (tl_strict L) (LFilter c g) l) /\
    l_answer (tl_strict L) (LFilter c g) l (RFilter removed invalids) /\ tl_strict L' = tl_strict L.
Proof.
  intros Hi. pose proof Hi as (Hst & Hn & Hc). pose proof (st_sorted _ _ Hst) as Hs. unfold tl_Filter, l_answer. simpl l_next.
  destruct ((tl_costcap L <=? c) && (tl_gascap L <=? g)) eqn:Ecap.
  { apply andb_true_iff in Ecap as [E1%Z.leb_le E2%Z.leb_le]. pose proof (unaffordable_none L c g l Hi E1 E2) as Hnone.
    rewrite (before_all _ _ Hnone), (filter_all (fun t => unaffordable c g t = false)) by done.
    exists [], [], L. split; [done|]. split; [by destruct (tl_strict L)|]. split; [|done]. exists [], []. split; [done|].
    rewrite filter_none by (eapply Forall_impl; [exact Hnone|]; simpl; congruence). rewrite drop_ge by lia. by destruct (tl_strict L). }
  destruct (Filter_stands (unaffordable c g) (tl_txs L) l Hst) as (removed & m1 & EF & Hr & Hst1).
  unfold unaffordable in EF at 1. rewrite EF. clear EF Ecap.
  assert (Hcaps : forall l', (forall t, t ∈ l' -> t ∈ l /\ unaffordable c g t = false) ->
    Forall (fun t => IsNormalTransaction (Txtype (tx_data t)) = true -> Cost t <= c /\ Gas t <= g) l').
  { intros l' Hl'. apply Forall_forall. intros t Ht HN. destruct (Hl' t Ht) as [_ Hu]. unfold unaffordable in Hu. rewrite HN in Hu.
    simpl in Hu. rewrite orb_false_iff, !Z.gtb_ltb, !Z.ltb_ge in Hu. done. }
  assert (Hsub : forall l' L', (forall t, t ∈ l' -> t ∈ l /\ unaffordable c g t = false) -> stands (tl_txs L') l' ->
    tl_costcap L' = c -> tl_gascap L' = g -> list_inv L' l').
  { intros l' L' Hl' Hst' <- <-. split_and!; [done|eapply nonces_ok_sub; [|exact Hn]; intros t Ht; by apply Hl'|by apply Hcaps]. }
  destruct (tl_strict L && (0 <? length removed)%nat) eqn:Estr.
  - apply andb_true_iff in Estr as [Estr Hlen%Nat.ltb_lt]. rewrite Estr.
    assert (Hne : filter (fun t => unaffordable c g t = true) l <> []) by (intros E; rewrite E in Hr; apply Permutation_nil_r in Hr as ->; simpl in Hlen; lia).
    destruct (before_split _ l Hs Hne) as (t0 & H1 & H2 & H3 & H4 & H5).
    assert (Elow : lowest_nonce removed = Nonce t0).
    { apply lowest_nonce_ok; [rewrite Hr; by apply list_elem_of_filter|]. intros t Ht. rewrite Hr in Ht.
      apply list_elem_of_filter in Ht as [Ht1 Ht2]. split; [rewrite Forall_forall in Hn; by apply Hn|by apply H3]. }
    rewrite Elow. destruct (Filter_stands (fun tx => Nonce tx >? Nonce t0) m1 _ Hst1) as (invalids & m2 & -> & Hr2 & Hst2).
    exists removed, invalids. eexists. split; [done|]. rewrite !list_filter_filter in *.
    assert (Eb : before (unaffordable c g) l = filter (fun t => (Nonce t >? Nonce t0) = false /\ unaffordable c g t = false) l).
    { rewrite H4. apply filter_ext_in. intros t _. rewrite Z.gtb_ltb, Z.ltb_ge. naive_solver. }
    split; [|split; [|done]].
    + apply Hsub; [by intros t Ht%before_elem|by rewrite Eb|done|done].
    + exists removed, invalids. split; [done|]. split; [done|]. rewrite Hr2, H5. apply Permutation_refl'. apply filter_ext_in.
      intros t _. rewrite Z.gtb_lt. naive_solver.
  - exists removed, []. eexists. split; [done|].
    assert (Enext : (if tl_strict L then before (unaffordable c g) l else filter (fun t => unaffordable c g t = false) l) = filter (fun t => unaffordable c g t = false) l /\
       (tl_strict L = true -> filter (fun t => unaffordable c g t = false) (drop (length (before (unaffordable c g) l)) l) = [])).
    { destruct (tl_strict L) eqn:Es; [|done]. simpl in Estr. apply Nat.ltb_ge in Estr. destruct removed; [|simpl in Estr; lia].
      symmetry in Hr. apply Permutation_nil_r in Hr.
      assert (Hnone : Forall (fun t => unaffordable c g t = false) l).
      { apply Forall_forall. intros t Ht. destruct (unaffordable c g t) eqn:E; [|done].
        assert (t ∈ filter (fun t => unaffordable c g t = true) l) as Hin by by apply list_elem_of_filter. rewrite Hr in Hin. by apply elem_of_nil in Hin. }
      rewrite (before_all _ _ Hnone), filter_all by done. split; [done|]. intros _. by rewrite drop_ge by lia. }
    destruct Enext as [-> Einv]. split; [|split; [|done]].
    + apply Hsub; [by intros t [? ?]%list_elem_of_filter|done..].
    + exists removed, []. split; [done|]. split; [done|]. destruct (tl_strict L); [by rewrite Einv|done].
Qed.

Lemma Add_ok tx bump L l : list_inv L l -> is_u64 (Nonce tx) ->
  exists ok old L', tl_Add tx bump L = (ok, old, L') /\ list_inv L' (l_next (tl_strict L) (LAdd tx bump) l) /\
    l_answer (tl_strict L) (LAdd tx bump) l (RAdd ok old) /\ tl_strict L' = tl_strict L.
Proof.
  intros (Hst & Hn & Hc) Hu. unfold tl_Add, l_answer, l_next, replaceable, nonce_of, sm_Get. rewrite (st_items _ _ Hst).
  assert (Hb : (match items_of l !! Nonce tx with Some o => GasPrice tx <=? bump_threshold o bump | None => false end) =
    negb (match items_of l !! Nonce tx with Some o => GasPrice tx >? bump_threshold o bump | None => true end)).
  { destruct (items_of l !! Nonce tx); [|done]. rewrite Z.gtb_ltb. symmetry. rewrite Z.leb_antisym. done. }
  rewrite Hb. clear Hb. destruct (match items_of l !! Nonce tx with Some o => GasPrice tx >? bump_threshold o bump | None => true end); simpl.
  - eexists _, _, _. split; [exact eq_refl|]. split; [|by split]. split; [by apply Put_stands|]. pose proof (st_sorted _ _ Hst) as Hs. simpl.
    rewrite !Forall_forall in *. split; intros t Ht; apply elem_of_l_put in Ht as [->|[Ht _]]; try done; [by apply Hn|lia|].
    intros HN. specialize (Hc t Ht HN). lia.
  - eexists _, _, _. split; [exact eq_refl|]. by split.
Qed.

Lemma list_step_ok L l op : list_inv L l -> list_op_ok op ->
  exists r L', list_step L op = Ok (r, L') /\ l_answer (tl_strict L) op l r /\ list_inv L' (l_next (tl_strict L) op l) /\
    tl_strict L' = tl_strict L.
Proof.
  intros Hi Hop. pose proof Hi as (Hst & Hn & Hc). destruct op as [tx bump|thr|c g|k|tx|start|]; simpl in Hop.
  - destruct (Add_ok tx bump L l Hi Hop) as (ok & old & L' & E & Hi' & Ha & Hs). simpl. rewrite E. by eexists _, _.
  - destruct (Forward_stands (E:=Empty_set) thr _ _ Hst) as (m' & E & Hst'). simpl. unfold tl_Forward. rewrite E. simpl.
    eexists _, _. split_and!; [done|done| |done]. eapply list_inv_sub; [done|done|]. by intros t [_ ?]%list_elem_of_filter.
  - destruct (Filter_ok c g L l Hi) as (removed & invalids & L' & E & Hi' & Ha & Hs). simpl. rewrite E. by eexists _, _.
  - destruct (Cap_stands (E:=Empty_set) k _ _ Hst Hop) as (m' & E & Hst'). simpl. unfold tl_Cap. rewrite E. simpl.
    eexists _, _. split_and!; [done|done| |done]. eapply list_inv_sub; [done|done|]. intros t. apply subseteq_take.
  - destruct (Remove_stands (E:=Empty_set) (Nonce tx) _ _ Hst) as (m' & E & Hst'). simpl. unfold tl_Remove. rewrite E. simpl.
    destruct (has_nonce (Nonce tx) l) eqn:Eh; simpl.
    2: { rewrite andb_false_r. eexists _, _. split_and!; [done|by exists []| |done].
         eapply list_inv_sub; [done|done|]. by intros t [_ ?]%list_elem_of_filter. }
    rewrite andb_true_r. destruct (tl_strict L) eqn:Es; simpl.
    + destruct (Filter_stands (fun t => Nonce t >? Nonce tx) m' _ Hst') as (invalids & m2 & -> & Hr & Hst2). simpl.
      rewrite list_filter_filter in Hr, Hst2. eexists _, _. split_and!; [done| | |done].
      * exists invalids. split; [done|]. rewrite Hr. apply Permutation_refl', filter_ext_in. intros t _. simpl. rewrite Z.gtb_lt. lia.
      * eapply list_inv_sub; [done| |by intros t [_ ?]%list_elem_of_filter].
        erewrite filter_ext_in; [exact Hst2|]. intros t _. simpl. rewrite Z.gtb_ltb, Z.ltb_ge. lia.
    + eexists _, _. split_and!; [done|by exists []| |done].
      eapply list_inv_sub; [done|done|]. by intros t [_ ?]%list_elem_of_filter.
  - destruct (Ready_stands (E:=Empty_set) start _ _ Hst Hn) as (m' & E & Hst'). simpl. unfold tl_Ready. rewrite E. simpl.
    eexists _, _. split_and!; [done|done| |done]. eapply list_inv_sub; [done|done|]. intros t. apply subseteq_drop.
  - destruct (Flatten_stands _ _ Hst) as (m' & E & Hst'). simpl. unfold tl_Flatten. rewrite E.
    eexists _, _. split_and!; [done|done| |done]. by eapply list_inv_sub.
Qed.

(** A sequence of operations on a list, with what each returns. *)
Fixpoint list_run (L : txList) (ops : list list_op) : outcome Empty_set (list list_res * txList) :=
  match ops with
  | [] => Ok ([], L)
  | op :: ops => let! (r, L) := list_step L op in let! (rs, L) := list_run L ops in Ok (r :: rs, L)
  end.

(** The same sequence on a plain list of transactions. *)
Fixpoint l_run (strict : bool) (l : list Transaction) (ops : list list_op) : list Transaction :=
  match ops with [] => l | op :: ops => l_run strict (l_next strict op l) ops end.

Fixpoint l_answers (strict : bool) (l : list Transaction) (ops : list list_op) (rs : list list_res) : Prop :=
  match ops, rs with
  | [], [] => True
  | op :: ops, r :: rs => l_answer strict op l r /\ l_answers strict (l_next strict op l) ops rs
  | _, _ => False
  end.

Lemma list_run_ok ops : forall L l, list_inv L l -> Forall list_op_ok ops ->
  exists rs L', list_run L ops = Ok (rs, L') /\ l_answers (tl_strict L) l ops rs /\
    list_inv L' (l_run (tl_strict L) l ops) /\ tl_strict L' = tl_strict L.
Proof.
  induction ops as [|op ops IH]; intros L l Hi Hops; [by exists [], L|]. inversion_clear Hops as [|? ? Hop Hops'].
  destruct (list_step_ok L l op Hi Hop) as (r & L1 & E1 & Ha & Hi1 & Hs1).
  destruct (IH L1 _ Hi1 Hops') as (rs & L2 & E2 & Has & Hi2 & Hs2). rewrite Hs1 in *.
  exists (r :: rs), L2. cbn [list_run]. rewrite E1. cbn [obind]. rewrite E2. by cbn [obind l_answers l_run].
Qed.

Lemma newTxList_inv strict : list_inv (newTxList strict) [].
Proof. split; [apply newTxSortedMap_stands|]. by split. Qed.

Lemma list_inv_size L l : list_inv L l -> tl_Len L = zlen l /\ (tl_Flatten L).1 = l.
Proof.
  intros (Hst & _). split.
  - unfold tl_Len, sm_Len. by rewrite (st_items _ _ Hst), size_items by apply Hst.
  - unfold tl_Flatten. by destruct (Flatten_stands _ _ Hst) as (m & -> & _).
Qed.


(** ** Strict lists have no gaps *)

(** Nonces one after the other. *)
Definition contiguous (l : list Transaction) : Prop := exists a, map Nonce l = seqZ a (zlen l).

(** What the pool adds to a pending list: a replacement, or the next nonce. *)
Definition fits (l : list Transaction) (op : list_op) : Prop :=
  match op with
  | LAdd tx _ => l = [] \/ has_nonce (Nonce tx) l = true \/ (exists t, last l = Some t /\ Nonce tx = Nonce t + 1)
  | _ => True
  end.

Fixpoint all_fit (l : list Transaction) (ops : list list_op) : Prop :=
  match ops with [] => True | op :: ops => fits l op /\ all_fit (l_next true op l) ops end.

Lemma contiguous_app l1 l2 : contiguous (l1 ++ l2) -> contiguous l1 /\ contiguous l2.
Proof.
  intros [a Ha]. rewrite map_app in Ha. unfold zlen in *. rewrite length_app, Nat2Z.inj_add, seqZ_app in Ha by lia.
  apply app_inj_1 in Ha as [H1 H2]; [|rewrite length_map, length_seqZ; lia]. split; eexists; eassumption.
Qed.

Lemma before_prefix bad l : exists k, l = before bad l ++ k.
Proof. induction l as [|t l [k IH]]; [by exists []|]. simpl. destruct (bad t); [by eexists|]. exists k. simpl. by f_equal. Qed.

Lemma map_Nonce_put tx l : sorted l -> has_nonce (Nonce tx) l = true -> map Nonce (l_put tx l) = map Nonce l.
Proof.
  intros Hs Hn. apply bool_decide_eq_true in Hn. apply elem_of_nonces in Hn as (t & Ht & En). unfold l_put.
  rewrite (split_at (Nonce tx) l Hs) at 3. rewrite !map_app. f_equal. simpl. apply list_elem_of_split in Ht as (l1 & l2 & ->).
  apply sorted_app_inv in Hs as (_ & Hs2 & Hlt). inversion_clear Hs2 as [|? ? _ Hf]. rewrite Forall_forall in Hf. unfold nonce_lt in Hf.
  assert (H1 : Forall (fun u => Nonce u < Nonce tx) l1) by (apply Forall_forall; intros u Hu; rewrite <- En; apply Hlt; [done|constructor]).
  rewrite !filter_app, !(filter_none _ l1) by (eapply Forall_impl; [exact H1|]; simpl; intros; lia). simpl.
  rewrite !filter_cons, decide_False, decide_True by lia. simpl. rewrite En. do 2 f_equal. apply filter_ext_in.
  intros u Hu. specialize (Hf u Hu). lia.
Qed.

Lemma contiguous_put tx l : sorted l -> contiguous l ->
  l = [] \/ has_nonce (Nonce tx) l = true \/ (exists t, last l = Some t /\ Nonce tx = Nonce t + 1) -> contiguous (l_put tx l).
Proof.
  intros Hs [a Ha] [->|[Hn|(t & Hlast & En)]].
  - exists (Nonce tx). done.
  - exists a. rewrite (map_Nonce_put tx l Hs Hn), Ha. f_equal. unfold zlen.
    by rewrite <- (length_map Nonce (l_put tx l)), (map_Nonce_put tx l Hs Hn), length_map.
  - apply last_Some in Hlast as [l0 ->]. assert (Hall : Forall (fun u => Nonce u < Nonce tx) (l0 ++ [t])).
    { apply sorted_app_inv in Hs as (_ & _ & Hlt). apply Forall_app. split; [|constructor; [lia|done]]. apply Forall_forall.
      intros u Hu. specialize (Hlt u t Hu ltac:(constructor)). lia. }
    unfold l_put. rewrite filter_all by done. rewrite filter_none by (eapply Forall_impl; [exact Hall|]; simpl; intros; lia).
    exists a. rewrite map_app, Ha. unfold zlen. rewrite (length_app (l0 ++ [t])), Nat2Z.inj_add, seqZ_app by lia. f_equal.
    simpl. f_equal. unfold zlen in Ha. rewrite length_app, map_app, Nat2Z.inj_add, seqZ_app in Ha by lia.
    apply app_inj_1 in Ha as [_ Ha]; [|rewrite length_map, length_seqZ; lia]. injection Ha as Ha. rewrite length_app. unfold seqZ. simpl. f_equal. lia.
Qed.

Lemma contiguous_next l op : sorted l -> fits l op -> contiguous l -> contiguous (l_next true op l).
Proof.
  intros Hs Hf Hc. destruct op as [tx bump|thr|c g|k|tx|start|]; simpl.
  - destruct (replaceable tx bump l); [|done]. by apply contiguous_put.
  - rewrite (split_at thr l Hs) in Hc. by apply contiguous_app in Hc as [? ?].
  - destruct (before_prefix (unaffordable c g) l) as [k E]. rewrite E in Hc. by apply contiguous_app in Hc as [? ?].
  - rewrite <- (take_drop (Z.to_nat k) l) in Hc. by apply contiguous_app in Hc as [? ?].
  - destruct (has_nonce (Nonce tx) l) eqn:Eh.
    + rewrite (split_at (Nonce tx) l Hs) in Hc. by apply contiguous_app in Hc as [? ?].
    + rewrite filter_all; [done|]. apply bool_decide_eq_false in Eh. rewrite elem_of_nonces in Eh. apply Forall_forall. eauto.
  - rewrite <- (take_drop (length (l_ready start l)) l) in Hc. by apply contiguous_app in Hc as [? ?].
  - done.
Qed.

Lemma contiguous_run ops : forall L l, list_inv L l -> tl_strict L = true -> Forall list_op_ok ops -> all_fit l ops ->
  contiguous l -> contiguous (l_run true l ops).
Proof.
  induction ops as [|op ops IH]; intros L l Hi Hstr Hops Hfit Hc; [done|]. inversion_clear Hops as [|? ? Hop Hops'].
  destruct Hfit as [Hf Hfit]. destruct (list_step_ok L l op Hi Hop) as (r & L1 & _ & _ & Hi1 & Hs1). rewrite Hstr in *.
  simpl. eapply IH; try done. apply contiguous_next; try done. apply Hi.
Qed.

(** A pending list never has a gap: as long as what is added replaces a
    transaction or has the next nonce, every sequence of operations on a strict
    list leaves one whose nonces follow each other, so what is behind a removed
    or unaffordable transaction is never offered to the miner. *)
Theorem strict_list_contiguous ops rs L : Forall list_op_ok ops -> all_fit [] ops ->
  list_run (newTxList true) ops = Ok (rs, L) -> contiguous (tl_Flatten L).1.
Proof.
  intros Hops Hfit E. destruct (list_run_ok ops _ _ (newTxList_inv true) Hops) as (rs' & L' & E' & _ & Hi & _).
  rewrite E in E'. injection E' as -> ->. rewrite (proj2 (list_inv_size _ _ Hi)).
  eapply contiguous_run; [apply newTxList_inv|done..|]. by exists 0.
Qed.
End Account.

(** ** Witnesses *)

Definition sample_tx (nonce price : Z) : Transaction := newTransaction nonce None (Some 5) (Some 90000) (Some price) [].

(** Three transactions, a replacement that is too cheap and one that is not, then
    the pool finds the second one too expensive. *)
Definition sample_ops : list list_op :=
  [LAdd (sample_tx 7 20) 10; LAdd (sample_tx 8 30) 10; LAdd (sample_tx 9 20) 10; LAdd (sample_tx 7 21) 10;
   LAdd (sample_tx 7 23) 10; LFlatten; LFilter 2100000 100000; LForward 7; LCap 4].

Lemma sample_ops_ok : Forall list_op_ok sample_ops.
Proof. repeat (apply Forall_cons; split; [cbv; (done || split; done)|]). apply Forall_nil. done. Qed.


Lemma strict_list_contiguous_witness : exists rs L, list_run (newTxList true) (take 6 sample_ops) = Ok (rs, L) /\
  map Nonce (tl_Flatten L).1 = [7; 8; 9] /\ contiguous (tl_Flatten L).1.
Proof.
  eexists _, _. split; [vm_compute; exact eq_refl|]. split; [vm_compute; exact eq_refl|].
  eapply (strict_list_contiguous (take 6 sample_ops)); [apply Forall_take, sample_ops_ok| |vm_compute; exact eq_refl].
  simpl. split_and!; try done; [by left|right; right|right; right|right; left|right; left]; [eexists; split; vm_compute; exact eq_refl..|vm_compute; exact eq_refl|vm_compute; exact eq_refl].
Defined.
