(* ===== verification/PricedTheorems.v ===== *)
(** Claims on the priced list of the pool: [txPricedList] of [core/tx_list.go]. *)
From S2P Require Import Prelude GoHeap IstanbulTypes ValidatorSet KeccakCrypto IstanbulHeader RoundState Transaction TransactionSigning TxList TxListProps TxListTheorems.

(** The order of [priceHeap]. *)
Abbreviation pheap := (heap price_less).

Lemma price_asym x y : price_less x y = true -> price_less y x = false.
Proof. unfold price_less. rewrite Z.ltb_lt, Z.ltb_ge. lia. Qed.

Lemma price_le x y : GoHeap.le price_less x y <-> GasPrice x <= GasPrice y.
Proof. unfold GoHeap.le, price_less. by rewrite Z.ltb_ge. Qed.

Lemma price_trans x y z : GoHeap.le price_less x y -> GoHeap.le price_less y z -> GoHeap.le price_less x z.
Proof. rewrite !price_le. lia. Qed.

#[export] Instance zlen_Permutation {A} : Proper ((≡ₚ) ==> (=)) (@zlen A).
Proof. intros l l' E. unfold zlen. by rewrite E. Qed.

(** Transactions that pass a test. *)
Abbreviation those f := (filter (fun t : Transaction => f t = true)).

Lemma those_cons f t l : those f (t :: l) = if f t then t :: those f l else those f l.
Proof. rewrite filter_cons. destruct (f t); [by rewrite decide_True|by rewrite decide_False]. Qed.

(** Popping the heap of prices. *)
Lemma pop_price {E} h : pheap h -> h <> [] ->
  exists t h', @Pop _ price_less E h = Ok (t, h') /\ h ≡ₚ t :: h' /\ pheap h' /\ Forall (fun u => GasPrice t <= GasPrice u) h'.
Proof.
  intros Hh Hne. destruct h as [|t r] eqn:Eh; [done|]. rewrite <- Eh in *.
  destruct (Pop_ok price_less price_asym price_trans (E:=E) h t Hh ltac:(by rewrite Eh)) as (h' & EP & Hp & Hh' & Hf).
  exists t, h'. split_and!; [done..|]. eapply Forall_impl; [exact Hf|]. intros u. apply price_le.
Qed.

Lemma push_all_ok save : forall l, pheap (pl_items l) ->
  pheap (pl_items (push_all save l)) /\ pl_items (push_all save l) ≡ₚ save ++ pl_items l /\ pl_stales (push_all save l) = pl_stales l.
Proof.
  induction save as [|t save IH]; intros l Hh; [done|]. simpl.
  destruct (Push_ok price_less price_asym price_trans t (pl_items l) Hh) as [Hh' Hp].
  destruct (IH (pl_Put t l) Hh') as (H1 & H2 & H3). split; [done|]. split; [|done]. rewrite H2. simpl. rewrite Hp. solve_Permutation.
Qed.

Section Priced.
Context `{HC : Crypto} `{HE : Ecdsa} `{HR : GoRangeLaws} (all : gmap hash Transaction) (local : accountSet).

Abbreviation live := (is_live all).
Definition stale (t : Transaction) : bool := negb (live t).
Definition remote (t : Transaction) : bool := live t && negb (as_containsTx t local).
Definition own (t : Transaction) : bool := live t && as_containsTx t local.

(** What [Cap] removes. *)
Definition cheap (thr : Z) (t : Transaction) : bool := remote t && (GasPrice t <? thr).
Definition kept (thr : Z) (t : Transaction) : bool := live t && negb (cheap thr t).

(** Stale entries the counter does not know of. *)
Definition drift (l : txPricedList) : Z := pl_stales l - zlen (those stale (pl_items l)).

Lemma kept_all thr l : Forall (fun u => thr <= GasPrice u) l -> those (cheap thr) l = [] /\ those (kept thr) l = those live l.
Proof.
  induction 1 as [|t l Ht _ [IH1 IH2]]; [done|]. rewrite !those_cons, IH1, IH2. unfold kept, cheap.
  rewrite (proj2 (Z.ltb_ge _ _)) by done. by rewrite andb_false_r, andb_true_r.
Qed.

(** One step of the loops below. *)
Lemma pop_step {E} items : pheap items -> items <> [] ->
  exists t items', @Pop _ price_less E items = Ok (t, items') /\ pheap items' /\ length items = S (length items') /\
    Forall (fun u => GasPrice t <= GasPrice u) items' /\
    (forall f, those f items ≡ₚ if f t then t :: those f items' else those f items') /\
    (forall s, drift (mkPriced items s) = drift (mkPriced items' s) - (if stale t then 1 else 0)).
Proof.
  intros Hh Hne. destruct (pop_price (E:=E) items Hh Hne) as (t & items' & EP & Hp & Hh' & Hmin).
  assert (Ht : forall f, those f items ≡ₚ if f t then t :: those f items' else those f items') by (intros f; by rewrite Hp, those_cons).
  exists t, items'. split_and!; try done; [by rewrite Hp|].
  intros s. unfold drift, zlen. simpl. rewrite (Ht stale). destruct (stale t); simpl; lia.
Qed.

Lemma Cap_loop_priced {E} thr : forall fuel l, (length (pl_items l) <= fuel)%nat -> pheap (pl_items l) ->
  exists drop save l', pl_Cap_loop (E:=E) all fuel thr local l = Ok (drop, save, l') /\ pheap (pl_items l') /\
    drop ≡ₚ those (cheap thr) (pl_items l) /\ those live (save ++ pl_items l') ≡ₚ those (kept thr) (pl_items l) /\
    Forall (fun t => live t = true) save /\ drift l' = drift l.
Proof.
  induction fuel as [|fuel IH]; intros [items st] Hlen Hh; simpl in Hlen, Hh.
  - destruct items; [|simpl in Hlen; lia]. by exists [], [], (mkPriced [] st).
  - destruct (decide (items = [])) as [->|Hne]; [by exists [], [], (mkPriced [] st)|].
    destruct (pop_step (E:=E) items Hh Hne) as (t & items' & EP & Hh' & Hl & Hmin & Ht & Est).
    assert (Hl' : (length items' <= fuel)%nat) by lia. clear Hl Hlen.
    cbn [pl_Cap_loop pl_items]. destruct items as [|i0 items0] eqn:Ei; [done|]. rewrite <- Ei in *. clear Hne.
    rewrite EP. cbn [obind pl_stales]. setoid_rewrite (Ht (cheap thr)). setoid_rewrite (Ht (kept thr)). clear Ht.
    assert (Ek : kept thr t = live t && negb (cheap thr t)) by done. unfold stale in Est. destruct (live t) eqn:El; simpl.
    + destruct (Z.geb_spec (GasPrice t) thr) as [Hge|Hlt].
      * exists [], [t], (mkPriced items' st).
        assert (Ec : cheap thr t = false) by (unfold cheap; rewrite (proj2 (Z.ltb_ge _ _)) by lia; apply andb_false_r).
        destruct (kept_all thr items') as [E1 E2]; [eapply Forall_impl; [exact Hmin|]; simpl; lia|].
        rewrite Ek, Ec, E1, E2. simpl. rewrite those_cons, El. split_and!; try done; [by constructor|]. rewrite Est. simpl. lia.
      * destruct (IH (mkPriced items' st) Hl' Hh') as (drop & save & l' & -> & Hh2 & Hd & Hs & Hlive & Hdr). cbn [obind].
        assert (Ec : cheap thr t = negb (as_containsTx t local)) by (unfold cheap, remote; rewrite El, (proj2 (Z.ltb_lt _ _)) by lia; by rewrite andb_true_r).
        assert (Ed : drift l' = drift (mkPriced items st)) by (rewrite Hdr, Est; simpl; lia).
        rewrite Ek, Ec. destruct (as_containsTx t local); simpl.
        -- exists drop, (t :: save), l'. split_and!; [done|done|done| |by constructor|done]. simpl. rewrite those_cons, El. by f_equiv.
        -- exists (t :: drop), save, l'. split_and!; [done|done|by f_equiv|done..].
    + destruct (IH (mkPriced items' (st - 1)) Hl' Hh') as (drop & save & l' & -> & Hh2 & Hd & Hs & Hlive & Hdr).
      exists drop, save, l'. unfold cheap, remote in *. rewrite Ek, El. simpl. split_and!; try done.
      rewrite Hdr, Est. unfold drift. simpl. lia.
Qed.

(** The transactions saved by a loop go back on the heap. *)
Lemma push_back save l l0 : pheap (pl_items l) -> Forall (fun t => live t = true) save -> drift l = drift l0 ->
  pheap (pl_items (push_all save l)) /\ those live (pl_items (push_all save l)) ≡ₚ those live (save ++ pl_items l) /\
  drift (push_all save l) = drift l0.
Proof.
  intros Hh Hs Hd. destruct (push_all_ok save l Hh) as (H1 & H2 & H3). split; [done|]. split; [by rewrite H2|].
  unfold drift in *. rewrite H3, H2, filter_app, (filter_none _ save); [done|]. eapply Forall_impl; [exact Hs|].
  unfold stale. simpl. intros t ->. done.
Qed.

(** [Cap] takes out of the heap exactly the remote transactions of the pool below
    the threshold: it does not panic, what it returns are those transactions,
    and the other ones of the pool, local or expensive enough, are still in the
    heap, which is still in order. The counter of stale entries is adjusted for
    every stale entry that is dropped. *)
Theorem Cap_removes_cheap {E} thr l : pheap (pl_items l) ->
  exists drop l', pl_Cap (E:=E) all thr local l = Ok (drop, l') /\ pheap (pl_items l') /\
    drop ≡ₚ those (cheap thr) (pl_items l) /\ those live (pl_items l') ≡ₚ those (kept thr) (pl_items l) /\ drift l' = drift l.
Proof.
  intros Hh. unfold pl_Cap. destruct (Cap_loop_priced (E:=E) thr _ l (Nat.le_refl _) Hh) as (drop & save & l' & -> & Hh' & Hd & Hs & Hlive & Hdr).
  destruct (push_back save l' l Hh' Hlive Hdr) as (H1 & H2 & H3). exists drop, (push_all save l'). split_and!; try done. by rewrite H2.
Qed.

Lemma Discard_loop_priced {E} : forall fuel count l, (length (pl_items l) <= fuel)%nat -> pheap (pl_items l) -> 0 <= count ->
  exists drop save l' rest, Discard_loop (E:=E) all fuel count local l = Ok (drop, save, l') /\ pheap (pl_items l') /\
    those remote (pl_items l) ≡ₚ drop ++ rest /\ zlen drop = Z.min count (zlen (those remote (pl_items l))) /\
    (forall t u, t ∈ drop -> u ∈ rest -> GasPrice t <= GasPrice u) /\
    those live (save ++ pl_items l') ≡ₚ those own (pl_items l) ++ rest /\
    Forall (fun t => live t = true) save /\ drift l' = drift l.
Proof.
  assert (Hsplit : forall items, those live items ≡ₚ those own items ++ those remote items).
  { induction items as [|t items IH]; [done|]. rewrite !those_cons. unfold own at 1, remote at 1.
    destruct (live t), (as_containsTx t local); simpl; rewrite IH; solve_Permutation. }
  assert (Hstop : forall items st, exists rest : list Transaction, those remote items ≡ₚ [] ++ rest /\
    (forall t u : Transaction, t ∈ @nil Transaction -> u ∈ rest -> GasPrice t <= GasPrice u) /\
    those live ([] ++ pl_items (mkPriced items st)) ≡ₚ those own items ++ rest).
  { intros items st. exists (those remote items). split; [done|]. split; [by intros t u ?%elem_of_nil|]. apply Hsplit. }
  induction fuel as [|fuel IH]; intros count [items st] Hlen Hh Hc; simpl in Hlen, Hh.
  - destruct items; [|simpl in Hlen; lia]. exists [], [], (mkPriced [] st), []. split_and!; try done; [unfold zlen; cbn; lia|by intros t u ?%elem_of_nil].
  - destruct (decide (items = [])) as [->|Hne].
    { exists [], [], (mkPriced [] st), []. split_and!; try done; [unfold zlen; cbn; lia|by intros t u ?%elem_of_nil]. }
    cbn [Discard_loop pl_items]. destruct items as [|i0 items0] eqn:Ei; [done|]. rewrite <- Ei in *. clear i0 items0 Ei.
    rewrite Z.gtb_ltb. destruct (Z.ltb_spec 0 count) as [Hpos|Hz].
    2: { destruct (Hstop items st) as (rest & H3 & H4 & H5). exists [], [], (mkPriced items st), rest. split_and!; try done. unfold zlen. simpl. lia. }
    destruct (pop_step (E:=E) items Hh Hne) as (t & items' & EP & Hh' & Hl & Hmin & Ht & Est).
    assert (Hl' : (length items' <= fuel)%nat) by lia. clear Hl Hlen Hne.
    rewrite EP. cbn [obind pl_stales]. pose proof (Ht remote) as Hr. pose proof (Ht own) as Ho. clear Ht.
    assert (Er : remote t = live t && negb (as_containsTx t local)) by done. assert (Eo : own t = live t && as_containsTx t local) by done.
    unfold stale in Est. destruct (live t) eqn:El; simpl in Er, Eo |- *; rewrite Er in Hr; rewrite Eo in Ho.
    + assert (Hd : forall l', drift l' = drift (mkPriced items' st) -> drift l' = drift (mkPriced items st)) by (intros l' ->; rewrite Est; simpl; lia).
      destruct (as_containsTx t local) eqn:Ea; simpl in Hr, Ho.
      * destruct (IH count (mkPriced items' st) Hl' Hh' Hc) as (drop & save & l' & rest & -> & H1 & H2 & H3 & H4 & H5 & H6 & H7). simpl in *.
        exists drop, (t :: save), l', rest. split_and!; [done|done|by rewrite Hr|unfold zlen in *; by rewrite Hr|done| |by constructor|by apply Hd].
        simpl. rewrite those_cons, El, H5, Ho. done.
      * destruct (IH (count - 1) (mkPriced items' st) Hl' Hh' ltac:(lia)) as (drop & save & l' & rest & -> & H1 & H2 & H3 & H4 & H5 & H6 & H7). simpl in *.
        exists (t :: drop), save, l', rest. split_and!; [done|done|by rewrite Hr, H2| | |by rewrite H5, Ho|done|by apply Hd].
        -- unfold zlen in *. rewrite Hr. simpl. lia.
        -- intros a u [->|Ha]%elem_of_cons Hu; [|by apply H4]. assert (Hin : u ∈ those remote items') by (rewrite H2; set_solver).
           apply list_elem_of_filter in Hin as [_ Hin]. rewrite Forall_forall in Hmin. by apply Hmin.
    + destruct (IH count (mkPriced items' (st - 1)) Hl' Hh' Hc) as (drop & save & l' & rest & -> & H1 & H2 & H3 & H4 & H5 & H6 & H7). simpl in *.
      exists drop, save, l', rest. split_and!; [done|done|by rewrite Hr|unfold zlen in *; by rewrite Hr|done|by rewrite H5, Ho|done|].
      rewrite H7, Est. unfold drift. simpl. lia.
Qed.

(** [Discard] takes out of the heap the cheapest remote transactions of the pool,
    as many as asked for or all of them: no remote transaction left in the heap
    is cheaper than one that was returned, and local transactions stay. *)
Theorem Discard_takes_cheapest {E} count l : pheap (pl_items l) -> 0 <= count ->
  exists drop l' rest, Discard (E:=E) all count local l = Ok (drop, l') /\ pheap (pl_items l') /\
    those remote (pl_items l) ≡ₚ drop ++ rest /\ zlen drop = Z.min count (zlen (those remote (pl_items l))) /\
    (forall t u, t ∈ drop -> u ∈ rest -> GasPrice t <= GasPrice u) /\
    those live (pl_items l') ≡ₚ those own (pl_items l) ++ rest /\ drift l' = drift l.
Proof.
  intros Hh Hc. unfold Discard. rewrite (proj2 (Z.ltb_ge _ _)) by lia.
  destruct (Discard_loop_priced (E:=E) _ count l (Nat.le_refl _) Hh Hc) as (drop & save & l' & rest & -> & Hh' & H1 & H2 & H3 & H4 & H5 & H6).
  destruct (push_back save l' l Hh' H5 H6) as (P1 & P2 & P3). exists drop, (push_all save l'), rest. split_and!; try done. by rewrite P2.
Qed.

Lemma Underpriced_loop_ok {E} : forall fuel l, (length (pl_items l) <= fuel)%nat -> pheap (pl_items l) ->
  exists l', Underpriced_loop (E:=E) all fuel l = Ok l' /\ pheap (pl_items l') /\
    those live (pl_items l') ≡ₚ those live (pl_items l) /\ drift l' = drift l /\
    match pl_items l' with [] => True | t :: _ => live t = true end.
Proof.
  induction fuel as [|fuel IH]; intros [items st] Hlen Hh; simpl in Hlen, Hh.
  - destruct items; [|simpl in Hlen; lia]. by exists (mkPriced [] st).
  - destruct (decide (items = [])) as [->|Hne]; [by exists (mkPriced [] st)|].
    destruct items as [|i0 items0] eqn:Ei; [done|]. cbn [Underpriced_loop pl_items]. rewrite <- Ei in *.
    destruct (live i0) eqn:El; simpl; [exists (mkPriced items st); split_and!; try done; by rewrite Ei|].
    destruct (Pop_ok price_less price_asym price_trans (E:=E) items i0 Hh ltac:(by rewrite Ei)) as (items' & -> & Hp & Hh' & _). cbn [obind].
    assert (Hl' : (length items' <= fuel)%nat) by (apply Permutation_length in Hp; simpl in Hp; lia).
    destruct (IH (mkPriced items' (st - 1)) Hl' Hh') as (l' & -> & H1 & H2 & H3 & H4). exists l'. simpl in H2. split_and!; try done.
    + rewrite H2, Hp, those_cons, El. done.
    + rewrite H3. unfold drift, zlen. simpl. rewrite Hp, those_cons. unfold stale. rewrite El. simpl. lia.
Qed.

(** [Underpriced] says of a remote transaction whether every transaction of the
    pool in the heap is at least as expensive (and there is one); it only drops
    stale entries. *)
Theorem Underpriced_exact {E} tx l : pheap (pl_items l) ->
  exists b l', Underpriced (E:=E) all tx local l = Ok (b, l') /\ pheap (pl_items l') /\
    those live (pl_items l') ≡ₚ those live (pl_items l) /\ drift l' = drift l /\
    (b = true <-> as_containsTx tx local = false /\ those live (pl_items l) <> [] /\
      forall t, t ∈ those live (pl_items l) -> GasPrice tx <= GasPrice t).
Proof.
  intros Hh. unfold Underpriced. destruct (as_containsTx tx local) eqn:Et; [exists false, l; split_and!; try done; naive_solver|].
  destruct (Underpriced_loop_ok (E:=E) _ l (Nat.le_refl _) Hh) as (l' & -> & Hh' & Hl & Hd & Htop). cbn [obind].
  destruct (pl_items l') as [|t h] eqn:Ei.
  { exists false, l'. rewrite Ei. split_and!; try done. symmetry in Hl. apply Permutation_nil_r in Hl. rewrite Hl. naive_solver. }
  eexists _, l'. rewrite Ei. split_and!; try done. rewrite Z.geb_leb, Z.leb_le.
  assert (Hin : t ∈ those live (pl_items l)) by (rewrite <- Hl, those_cons, Htop; constructor).
  split; [|intros (_ & _ & Hall); by apply Hall]. intros Hle. split; [done|]. split; [by intros E'; rewrite E' in Hin; apply elem_of_nil in Hin|].
  intros u Hu. rewrite <- Hl in Hu. apply list_elem_of_filter in Hu as [_ Hu]. apply list_elem_of_lookup_1 in Hu as [i Hi].
  pose proof (heap_root price_less price_asym price_trans _ t Hh' eq_refl i u Hi) as Hr. apply price_le in Hr. lia.
Qed.

(** [Removed] rebuilds the heap from the map when more than a quarter of its
    entries are stale: then every transaction of the pool is in it once. *)
Theorem Removed_rebuilds l : pheap (pl_items l) ->
  let l' := pl_Removed all l in pheap (pl_items l') /\
  (if pl_stales l + 1 <=? zlen (pl_items l) / 4 then pl_items l' = pl_items l /\ drift l' = drift l + 1
   else pl_items l' ≡ₚ map snd (map_to_list all) /\ pl_stales l' = 0).
Proof.
  intros Hh. simpl. unfold pl_Removed. destruct (_ <=? _); simpl.
  - split; [done|]. split; [done|]. unfold drift. simpl. lia.
  - destruct (Init_ok price_less price_asym price_trans (map snd (go_range (map_to_list all)))) as [H3 H4].
    split; [done|]. split; [|done]. rewrite H4. apply Permutation_map, go_range_perm.
Qed.
End Priced.

(** ** Witnesses *)

(** Senders come from the caches of the transactions. *)
Definition sent (a : Z) (tx : Transaction) : Transaction :=
  mkTx (tx_data tx) (Some (be_pad 32 (Nonce tx))) (tx_size tx) (Some (HomesteadSigner, sample_address a)).

Definition sample_pool : list Transaction := [sent 1 (sample_tx 1 30); sent 2 (sample_tx 2 10); sent 1 (sample_tx 3 20); sent 3 (sample_tx 4 5)].
Definition sample_all : gmap hash Transaction := list_to_map (map (fun t => (be_pad 32 (Nonce t), t)) (take 3 sample_pool)).
Definition sample_local : accountSet := as_add (sample_address 2) (newAccountSet HomesteadSigner).
Definition sample_priced : txPricedList := push_all sample_pool newTxPricedList.

#[local] Existing Instance keccak_crypto.
#[local] Existing Instance toy_ecdsa.

Lemma sample_priced_heap : pheap (pl_items sample_priced).
Proof. apply push_all_ok. apply heap_nil. Qed.

Lemma Cap_removes_cheap_witness : exists l', pl_Cap (E:=Empty_set) sample_all 25 sample_local sample_priced = Ok ([sent 1 (sample_tx 3 20)], l') /\
  pheap (pl_items l').
Proof.
  destruct (Cap_removes_cheap (E:=Empty_set) sample_all sample_local 25 sample_priced sample_priced_heap) as (drop & l' & E & Hh & _).
  exists l'. split; [|exact Hh]. rewrite E. vm_compute in E. injection E as <- _. vm_compute. exact eq_refl.
Defined.

Lemma Discard_takes_cheapest_witness : exists l', Discard (E:=Empty_set) sample_all 1 sample_local sample_priced = Ok ([sent 1 (sample_tx 3 20)], l') /\
  pheap (pl_items l').
Proof.
  destruct (Discard_takes_cheapest (E:=Empty_set) sample_all sample_local 1 sample_priced sample_priced_heap ltac:(lia)) as (drop & l' & rest & E & Hh & _).
  exists l'. split; [|exact Hh]. rewrite E. vm_compute in E. injection E as <- _. vm_compute. exact eq_refl.
Defined.

Lemma Underpriced_exact_witness : exists b l', Underpriced (E:=Empty_set) sample_all (sent 4 (sample_tx 9 10)) sample_local sample_priced = Ok (b, l') /\
  b = true /\ pheap (pl_items l').
Proof.
  destruct (Underpriced_exact (E:=Empty_set) sample_all sample_local (sent 4 (sample_tx 9 10)) sample_priced sample_priced_heap) as (b & l' & E & Hh & _).
  exists b, l'. split; [exact E|]. split; [|exact Hh]. vm_compute in E. injection E as <- _. exact eq_refl.
Defined.

Lemma Removed_rebuilds_witness :
  pl_items (pl_Removed sample_all (mkPriced (pl_items sample_priced) 1)) ≡ₚ map snd (map_to_list sample_all).
Proof.
  pose proof (Removed_rebuilds sample_all (mkPriced (pl_items sample_priced) 1) sample_priced_heap) as [_ Hr].
  exact (proj1 Hr).
Defined.
