(* ===== verification/TxOrder.v ===== *)
(** The order in which a block takes transactions:
    [TransactionsByPriceAndNonce] of [core/types/transaction.go].

    The transactions of an account stay in the order of their nonces; among the
    first transactions of all accounts the one with the highest price comes
    next. *)
From S2P Require Import Prelude GoHeap IstanbulTypes ValidatorSet KeccakCrypto IstanbulHeader RoundState Transaction TxList TransactionSigning.

Record TransactionsByPriceAndNonce := mkByPrice {
  bp_txs : gmap address (list Transaction);
  bp_heads : list Transaction;
  bp_signer : Signer
}.

(** [TxByPrice.Less]. *)
Definition dearer (t u : Transaction) : bool := GasPrice t >? GasPrice u.

Section Order.
Context `{HC : Crypto} `{HE : Ecdsa} `{HR : GoRangeLaws}.

(** The sender, the zero address when it cannot be recovered; the address cached in the transaction is the same
    either way. *)
Definition account (signer : Signer) (tx : Transaction) : address :=
  match (Sender signer tx).1 with Ok acc => acc | _ => zero_address end.

(** The loop over the accounts, which updates the map it ranges over. *)
Fixpoint collect {E : Type} (signer : Signer) (accs : list address) (txs : gmap address (list Transaction)) (heads : list Transaction) :
    outcome E (gmap address (list Transaction) * list Transaction) :=
  match accs with
  | [] => Ok (txs, heads)
  | a :: accs =>
      match txs !! a with
      | Some (t :: rest) => collect signer accs (<[account signer t := rest]> txs) (heads ++ [t])
      | Some [] => Panic
      | None => collect signer accs txs heads
      end
  end.

Definition NewTransactionsByPriceAndNonce {E : Type} (signer : Signer) (txs : gmap address (list Transaction)) :
    outcome E TransactionsByPriceAndNonce :=
  let! (txs, heads) := collect signer (go_range (map fst (map_to_list txs))) txs [] in
  Ok (mkByPrice txs (Init dearer heads) signer).

Definition Peek (t : TransactionsByPriceAndNonce) : option Transaction := head (bp_heads t).

Definition Pop_best {E : Type} (t : TransactionsByPriceAndNonce) : outcome E TransactionsByPriceAndNonce :=
  let! (_, heads) := Pop dearer (bp_heads t) in Ok (mkByPrice (bp_txs t) heads (bp_signer t)).

Definition Shift {E : Type} (t : TransactionsByPriceAndNonce) : outcome E TransactionsByPriceAndNonce :=
  match bp_heads t with
  | [] => Panic
  | tx :: _ =>
      let acc := account (bp_signer t) tx in
      match bp_txs t !! acc with
      | Some (next :: rest) =>
          Ok (mkByPrice (<[acc := rest]> (bp_txs t)) (Fix dearer (<[0%nat := next]> (bp_heads t)) 0) (bp_signer t))
      | _ => Pop_best t
      end
  end.

(** The loop of the miner: it looks at the next transaction until there is none,
    and goes on to the next one of the account or leaves the account. *)
Fixpoint take_txs {E : Type} (leave : list bool) (t : TransactionsByPriceAndNonce) : outcome E (list Transaction * TransactionsByPriceAndNonce) :=
  match leave, Peek t with
  | b :: leave, Some tx =>
      let! t := if b : bool then Pop_best t else Shift t in
      let! (txs, t) := take_txs leave t in Ok (tx :: txs, t)
  | _, _ => Ok ([], t)
  end.

(** ** Queues *)

(** What is still to be taken, an account with nothing left has no queue. *)
Abbreviation queues := (gmap address (list Transaction)).

Definition q_leave (a : address) (q : queues) : queues := delete a q.
Definition q_next (a : address) (q : queues) : queues :=
  match q !! a with Some (_ :: next :: rest) => <[a := next :: rest]> q | _ => delete a q end.

(** A transaction that may come next. *)
Definition best (a : address) (t : Transaction) (q : queues) : Prop :=
  (exists l, q !! a = Some (t :: l)) /\ forall b u l, q !! b = Some (u :: l) -> GasPrice u <= GasPrice t.

(** The transactions taken, one after the other, and the queues left. *)
Inductive takes : list bool -> queues -> list Transaction -> queues -> Prop :=
| takes_stop q : takes [] q [] q
| takes_done leave : takes leave ∅ [] ∅
| takes_tx b leave q a t ts q' : best a t q ->
    takes leave (if b : bool then q_leave a q else q_next a q) ts q' -> takes (b :: leave) q (t :: ts) q'.

Definition keyed (signer : Signer) (q : queues) : Prop :=
  forall a l, q !! a = Some l -> l <> [] /\ Forall (fun t => account signer t = a) l.

Definition heads_of (q : queues) : list Transaction := omap head (map snd (map_to_list q)).

Record holds (T : TransactionsByPriceAndNonce) (q : queues) : Prop := {
  h_heap : heap dearer (bp_heads T);
  h_heads : bp_heads T ≡ₚ heads_of q;
  h_txs : forall a t l, q !! a = Some (t :: l) -> bp_txs T !! a = Some l;
  h_keyed : keyed (bp_signer T) q
}.

Lemma dearer_asym x y : dearer x y = true -> dearer y x = false.
Proof. unfold dearer. rewrite !Z.gtb_ltb, Z.ltb_lt, Z.ltb_ge. lia. Qed.

Lemma dearer_le x y : GoHeap.le dearer x y <-> GasPrice y <= GasPrice x.
Proof. unfold GoHeap.le, dearer. by rewrite Z.gtb_ltb, Z.ltb_ge. Qed.

Lemma dearer_trans x y z : GoHeap.le dearer x y -> GoHeap.le dearer y z -> GoHeap.le dearer x z.
Proof. rewrite !dearer_le. lia. Qed.

Lemma heads_of_elem t q : t ∈ heads_of q <-> exists a l, q !! a = Some (t :: l).
Proof.
  unfold heads_of. rewrite list_elem_of_omap. split.
  - intros (l & Hl & Hh). apply list_elem_of_fmap_1 in Hl as ([a l'] & -> & Hin). apply elem_of_map_to_list in Hin.
    destruct l'; [done|]. injection Hh as ->. eauto.
  - intros (a & l & E). exists (t :: l). split; [|done]. apply list_elem_of_fmap. exists (a, t :: l). split; [done|].
    by apply elem_of_map_to_list.
Qed.

Lemma heads_of_insert a t l q : q !! a = None -> heads_of (<[a := t :: l]> q) ≡ₚ t :: heads_of q.
Proof. intros E. unfold heads_of. by rewrite map_to_list_insert by done. Qed.

Lemma heads_of_delete a t l q : q !! a = Some (t :: l) -> heads_of q ≡ₚ t :: heads_of (delete a q).
Proof. intros E. rewrite <- (insert_delete_id q a (t :: l)) at 1 by done. apply heads_of_insert, lookup_delete_eq. Qed.

Lemma keyed_delete signer a q : keyed signer q -> keyed signer (delete a q).
Proof. intros Hk b l [_ E]%lookup_delete_Some. by apply Hk. Qed.

(** The top of the heap is the best transaction. *)
Lemma holds_best T q t h : holds T q -> bp_heads T = t :: h ->
  exists l, q !! account (bp_signer T) t = Some (t :: l) /\ best (account (bp_signer T) t) t q /\
    h ≡ₚ heads_of (delete (account (bp_signer T) t) q).
Proof.
  intros [Hh Hp Ht Hk] E. assert (Hin : t ∈ heads_of q) by (rewrite <- Hp, E; constructor). apply heads_of_elem in Hin as (a & l & Ea).
  destruct (Hk a _ Ea) as [_ Hf]. inversion_clear Hf as [|? ? Hacc _]. rewrite Hacc. exists l. split; [done|]. split.
  - split; [eauto|]. intros b u l' Eb. assert (Hu : u ∈ bp_heads T) by (rewrite Hp; apply heads_of_elem; eauto).
    apply list_elem_of_lookup_1 in Hu as [i Hi]. apply dearer_le.
    eapply (heap_root dearer dearer_asym dearer_trans); [exact Hh| |exact Hi]. by rewrite E.
  - rewrite E, (heads_of_delete a t l) in Hp by done. by apply Permutation_cons_inv in Hp.
Qed.

Lemma Pop_best_ok {E : Type} T q t h : holds T q -> bp_heads T = t :: h ->
  exists T', Pop_best (E:=E) T = Ok T' /\ holds T' (q_leave (account (bp_signer T) t) q) /\ bp_signer T' = bp_signer T.
Proof.
  intros HT Eh. destruct (holds_best T q t h HT Eh) as (l & Eq & _ & Hperm). destruct HT as [Hh Hp Ht Hk]. unfold Pop_best.
  destruct (Pop_ok dearer dearer_asym dearer_trans (E:=E) (bp_heads T) t Hh ltac:(by rewrite Eh)) as (h' & -> & Hp' & Hh' & _). simpl.
  eexists. split; [done|]. split; [|done]. constructor; simpl; [done| | |by apply keyed_delete].
  - rewrite Eh in Hp'. apply Permutation_cons_inv in Hp'. by rewrite <- Hp', Hperm.
  - intros b u l' Eb. unfold q_leave in Eb. apply lookup_delete_Some in Eb as [_ Eb]. by eapply Ht.
Qed.

Lemma Shift_ok {E : Type} T q t h : holds T q -> bp_heads T = t :: h ->
  exists T', Shift (E:=E) T = Ok T' /\ holds T' (q_next (account (bp_signer T) t) q) /\ bp_signer T' = bp_signer T.
Proof.
  intros HT Eh. destruct (holds_best T q t h HT Eh) as (l & Eq & _ & Hperm). unfold Shift, q_next. rewrite Eh, Eq.
  set (a := account (bp_signer T) t) in *. rewrite (h_txs _ _ HT a t l Eq). destruct l as [|u l]; [by eapply Pop_best_ok|].
  destruct HT as [Hh Hp Ht Hk]. eexists. split; [done|]. split; [|done]. rewrite <- Eh.
  destruct (Fix_ok dearer dearer_asym dearer_trans (bp_heads T) 0 u Hh ltac:(rewrite Eh; simpl; lia)) as (F1 & F2 & _).
  constructor; simpl; [done| | |].
  - rewrite F2, Eh. simpl. rewrite Hperm, <- heads_of_insert by apply lookup_delete_eq. by rewrite insert_delete_eq.
  - intros b v l' Eb. destruct (decide (b = a)) as [->|Hne].
    + rewrite lookup_insert_eq in Eb. injection Eb as -> ->. by rewrite lookup_insert_eq.
    + rewrite lookup_insert_ne in * by done. by eapply Ht.
  - intros b l' Eb. destruct (Hk a _ Eq) as [_ Hf]. inversion_clear Hf. apply lookup_insert_Some in Eb as [[<- <-]|[_ Eb]]; [done|by apply Hk].
Qed.

Lemma take_txs_ok {E : Type} leave : forall T q, holds T q ->
  exists ts T' q', take_txs (E:=E) leave T = Ok (ts, T') /\ takes leave q ts q' /\ holds T' q'.
Proof.
  induction leave as [|b leave IH]; intros T q HT; [exists [], T, q; split_and!; [done|constructor|done]|]. simpl. unfold Peek.
  destruct (bp_heads T) as [|t h] eqn:Eh; simpl.
  - assert (q = ∅) as ->; [|exists [], T, ∅; split_and!; [done|constructor|done]].
    apply map_empty. intros a. apply eq_None_not_Some. intros [l El]. destruct (h_keyed _ _ HT a l El) as [Hne _]. destruct l as [|u l]; [done|].
    assert (Hin : u ∈ bp_heads T) by (rewrite (h_heads _ _ HT); apply heads_of_elem; eauto). rewrite Eh in Hin. by apply elem_of_nil in Hin.
  - destruct (holds_best T q t h HT Eh) as (l & _ & Hb & _).
    destruct b.
    + destruct (Pop_best_ok (E:=E) T q t h HT Eh) as (T1 & -> & HT1 & _). simpl. destruct (IH T1 _ HT1) as (ts & T' & q' & -> & Hts & HT').
      exists (t :: ts), T', q'. split_and!; [done|by econstructor|done].
    + destruct (Shift_ok (E:=E) T q t h HT Eh) as (T1 & -> & HT1 & _). simpl. destruct (IH T1 _ HT1) as (ts & T' & q' & -> & Hts & HT').
      exists (t :: ts), T', q'. split_and!; [done|by econstructor|done].
Qed.

Lemma collect_ok {E : Type} signer q accs : forall m heads, keyed signer q -> NoDup accs ->
  (forall a, a ∈ accs -> m !! a = q !! a /\ is_Some (q !! a)) ->
  exists m', collect (E:=E) signer accs m heads = Ok (m', heads ++ omap (fun a => q !! a ≫= head) accs) /\
    forall a, m' !! a = if decide (a ∈ accs) then tail <$> q !! a else m !! a.
Proof.
  induction accs as [|a accs IH]; intros m heads Hk Hn Hm; simpl; [exists m; rewrite app_nil_r; by split|].
  inversion_clear Hn as [|? ? Hni Hn']. destruct (Hm a ltac:(constructor)) as [-> [l El]]. rewrite El. simpl.
  destruct (Hk a l El) as [Hne Hf]. destruct l as [|t l]; [done|]. inversion_clear Hf as [|? ? Ha _]. rewrite Ha. simpl.
  destruct (IH (<[a := l]> m) (heads ++ [t]) Hk Hn') as (m' & -> & Hm').
  { intros b Hb. rewrite lookup_insert_ne by congruence. apply Hm. by right. }
  exists m'. split; [by rewrite <- app_assoc|]. intros b. rewrite Hm'. destruct (decide (b = a)) as [->|Hba].
  - rewrite decide_False, decide_True by (done || constructor). by rewrite lookup_insert_eq, El.
  - rewrite lookup_insert_ne by done. repeat case_decide; set_solver.
Qed.

Lemma New_ok {E : Type} signer q : keyed signer q ->
  exists T, NewTransactionsByPriceAndNonce (E:=E) signer q = Ok T /\ holds T q.
Proof.
  intros Hk. unfold NewTransactionsByPriceAndNonce. set (accs := go_range _).
  assert (Hp : accs ≡ₚ map fst (map_to_list q)) by apply go_range_perm.
  assert (Hin : forall a, a ∈ accs <-> is_Some (q !! a)).
  { intros a. rewrite Hp. change (map fst ?l) with (fst <$> l). rewrite list_elem_of_fmap. split.
    - intros ([b l] & -> & Hb%elem_of_map_to_list). eauto.
    - intros [l El]. exists (a, l). split; [done|]. by apply elem_of_map_to_list. }
  destruct (collect_ok (E:=E) signer q accs q [] Hk) as (m & -> & Hm).
  { rewrite Hp. apply NoDup_fst_map_to_list. }
  { intros a Ha. split; [done|]. by apply Hin. }
  simpl. eexists. split; [done|]. destruct (Init_ok dearer dearer_asym dearer_trans (omap (fun a => q !! a ≫= head) accs)) as [H1 H2].
  constructor; simpl; [done| | |done].
  - rewrite H2, Hp. unfold heads_of. apply Permutation_refl'.
    assert (Hall : forall a l, (a, l) ∈ map_to_list q -> q !! a = Some l) by (intros a l Hl; by apply elem_of_map_to_list in Hl).
    clear -Hall. induction (map_to_list q) as [|[a l] r IH]; [done|]. simpl. rewrite (Hall a l) by constructor. simpl.
    rewrite IH by (intros; apply Hall; by right). done.
  - intros a t l El. rewrite Hm, decide_True, El by (apply Hin; eauto). done.
Qed.

(** The miner takes transactions in an order that honours nonces and maximises the
    price: on lists of transactions by sender, whatever the order of the range
    over the accounts and whether after each transaction it goes on with the
    account or leaves it, no step panics, every transaction taken is the first
    one left of its account and no other account has a first one with a higher
    price; it ends early only when nothing is left. *)
Theorem price_nonce_order {E : Type} signer q leave : keyed signer q ->
  exists T ts T' q', NewTransactionsByPriceAndNonce (E:=E) signer q = Ok T /\ take_txs (E:=E) leave T = Ok (ts, T') /\ takes leave q ts q' /\
    (length ts = length leave \/ q' = ∅).
Proof.
  intros Hk. destruct (New_ok (E:=E) signer q Hk) as (T & ET & HT). destruct (take_txs_ok (E:=E) leave T q HT) as (ts & T' & q' & E1 & Ht & _).
  exists T, ts, T', q'. split_and!; try done. clear -Ht. induction Ht as [| |b leave q a t ts q' _ _ [IH|IH]]; simpl; auto.
Qed.
End Order.

(** ** Witnesses *)

#[local] Existing Instance keccak_crypto.
#[local] Existing Instance toy_ecdsa.

Definition priced_tx (a nonce price : Z) : Transaction :=
  let tx := newTransaction nonce None None (Some 21000) (Some price) [] in
  mkTx (tx_data tx) None None (Some (HomesteadSigner, sample_address a)).

Definition sample_queues : gmap address (list Transaction) :=
  <[sample_address 1 := [priced_tx 1 0 5; priced_tx 1 1 40]]> (<[sample_address 2 := [priced_tx 2 7 10; priced_tx 2 8 3]]> ∅).

Lemma sample_queues_keyed : keyed HomesteadSigner sample_queues.
Proof.
  intros a l E. unfold sample_queues in E. apply lookup_insert_Some in E as [[<- <-]|[_ E]]; [split; [done|]; repeat constructor|].
  apply lookup_insert_Some in E as [[<- <-]|[_ E]]; [split; [done|]; repeat constructor|]. by rewrite lookup_empty in E.
Qed.

Lemma price_nonce_order_witness : exists T T' q', NewTransactionsByPriceAndNonce (E:=Empty_set) HomesteadSigner sample_queues = Ok T /\
  take_txs (E:=Empty_set) (replicate 5 false) T = Ok ([priced_tx 2 7 10; priced_tx 1 0 5; priced_tx 1 1 40; priced_tx 2 8 3], T') /\
  takes (replicate 5 false) sample_queues [priced_tx 2 7 10; priced_tx 1 0 5; priced_tx 1 1 40; priced_tx 2 8 3] q' /\ q' = ∅.
Proof.
  destruct (price_nonce_order (E:=Empty_set) HomesteadSigner sample_queues (replicate 5 false) sample_queues_keyed) as (T & ts & T' & q' & E1 & E2 & Ht & Hq).
  exists T, T', q'. split; [exact E1|]. vm_compute in E1. injection E1 as <-. vm_compute in E2. injection E2 as <- <-.
  split; [vm_compute; exact eq_refl|]. split; [exact Ht|]. by destruct Hq.
Defined.
