(* ===== verification/StateDB.v ===== *)
(** The state database: [core/state/statedb.go], [core/state/state_object.go] and
    [core/state/journal.go].

    Accounts are read lazily from the account trie, their storage from a trie of
    their own and their code from the database; what was read or written is in
    caches. Every change appends to a journal the entry that undoes it, and
    [RevertToSnapshot] runs the entries back to a snapshot. The interfaces
    [state.Trie] and [state.Database] are classes.

    A pointer to an object is only used while the object is the one of its
    address in the map of live objects, so methods of an object end by writing it
    back there. Balances are never changed in place. *)
From S2P Require Import Prelude RlpEncode RlpDecode RlpRaw Storage IstanbulTypes ValidatorSet Trie.

(** ** The interfaces of the store *)

(** [state.Trie]; after an error the trie is what it was. *)
Class StateTrie (T : Type) := {
  tr_TryGet : T -> bytes -> outcome trie_err (option bytes * T);
  tr_TryUpdate : T -> bytes -> bytes -> outcome trie_err T;
  tr_TryDelete : T -> bytes -> outcome trie_err T;
  tr_Hash : T -> outcome trie_err (hash * T)
}.

(** [state.Database]; code that is not there is an error. *)
Class StateDatabase (D T : Type) := {
  OpenTrie : D -> hash -> outcome trie_err T;
  OpenStorageTrie : D -> hash -> hash -> outcome trie_err T;
  ContractCode : D -> hash -> hash -> option bytes;
  ContractCodeSize : D -> hash -> hash -> option Z
}.

(** ** Data *)

Record Account := mkAccount {
  acc_Nonce : Z;
  acc_Balance : Z;
  acc_Root : hash;
  acc_CodeHash : bytes
}.

Definition Account_value (a : Account) : value :=
  VStruct [VUint (acc_Nonce a); VBigInt (Some (acc_Balance a)); VBytes (acc_Root a); VBytes (acc_CodeHash a)].

Definition Account_DecodeRLP : SM Account :=
  let* a := makeStructDecoder
    (field_cons (decodeUint 64) (field_cons decodeBigInt (field_cons (decodeByteArray HashLength) (field_cons decodeByteSlice field_nil)))) in
  let '(n, (b, (r, (c, _)))) := a in
  sret (mkAccount n b r c).

(** Errors remembered until the commit. *)
Inductive state_err :=
| CantCreateTrie (e : trie_err) | CantLoadCode (h : bytes) | TrieError (e : trie_err) | StorageError (e : rlp_err).

(** [onDirty] is nil or the method [MarkStateObjectDirty]. *)
Record stateObject (T : Type) := mkObject {
  so_address : address;
  so_addrHash : hash;
  so_data : Account;
  so_dbErr : option state_err;
  so_trie : option T;
  so_code : option bytes;
  so_cachedStorage : gmap hash hash;
  so_dirtyStorage : gmap hash hash;
  so_cachedStorageByteArray : gmap hash bytes;
  so_dirtyStorageByteArray : gmap hash bytes;
  so_dirtyCode : bool;
  so_suicided : bool;
  so_touched : bool;
  so_deleted : bool;
  so_onDirty : bool
}.
Arguments mkObject {T}.
Arguments so_address {T}.
Arguments so_addrHash {T}.
Arguments so_data {T}.
Arguments so_dbErr {T}.
Arguments so_trie {T}.
Arguments so_code {T}.
Arguments so_cachedStorage {T}.
Arguments so_dirtyStorage {T}.
Arguments so_cachedStorageByteArray {T}.
Arguments so_dirtyStorageByteArray {T}.
Arguments so_dirtyCode {T}.
Arguments so_suicided {T}.
Arguments so_touched {T}.
Arguments so_deleted {T}.
Arguments so_onDirty {T}.

Record Log := mkLog {
  log_Address : address;
  log_Topics : list hash;
  log_Data : bytes;
  log_BlockNumber : Z;
  log_TxHash : hash;
  log_TxIndex : Z;
  log_BlockHash : hash;
  log_Index : Z;
  log_Removed : bool
}.

Inductive journalEntry (T : Type) :=
| createObjectChange (account : address)
| resetObjectChange (prev : stateObject T)
| suicideChange (account : address) (prev : bool) (prevbalance : Z)
| balanceChange (account : address) (prev : Z)
| nonceChange (account : address) (prev : Z)
| storageChange (account : address) (key prevalue : hash)
| storageByteArrayChange (account : address) (key : hash) (prevalue : bytes)
| codeChange (account : address) (prevcode : option bytes) (prevhash : bytes)
| refundChange (prev : Z)
| addLogChange (txhash : hash)
| addPreimageChange (hash : hash)
| touchChange (account : address) (prev prevDirty : bool).
Arguments createObjectChange {T}.
Arguments resetObjectChange {T}.
Arguments suicideChange {T}.
Arguments balanceChange {T}.
Arguments nonceChange {T}.
Arguments storageChange {T}.
Arguments storageByteArrayChange {T}.
Arguments codeChange {T}.
Arguments refundChange {T}.
Arguments addLogChange {T}.
Arguments addPreimageChange {T}.
Arguments touchChange {T}.

Record revision := mkRevision { rev_id : Z; rev_journalIndex : nat }.

Record StateDB (D T : Type) := mkState {
  s_db : D;
  s_trie : T;
  s_stateObjects : gmap address (stateObject T);
  s_stateObjectsDirty : gset address;
  s_dbErr : option state_err;
  s_refund : Z;
  s_thash : hash;
  s_bhash : hash;
  s_txIndex : Z;
  s_logs : gmap hash (list Log);
  s_logSize : Z;
  s_preimages : gmap hash bytes;
  s_journal : list (journalEntry T);
  s_validRevisions : list revision;
  s_nextRevisionId : Z
}.
Arguments mkState {D T}.
Arguments s_db {D T}.
Arguments s_trie {D T}.
Arguments s_stateObjects {D T}.
Arguments s_stateObjectsDirty {D T}.
Arguments s_dbErr {D T}.
Arguments s_refund {D T}.
Arguments s_thash {D T}.
Arguments s_bhash {D T}.
Arguments s_txIndex {D T}.
Arguments s_logs {D T}.
Arguments s_logSize {D T}.
Arguments s_preimages {D T}.
Arguments s_journal {D T}.
Arguments s_validRevisions {D T}.
Arguments s_nextRevisionId {D T}.

(** ** Assignments to fields *)

Section Fields.
Context {D T : Type}.
Implicit Types (o : stateObject T) (s : StateDB D T).

Definition with_data o d := mkObject (so_address o) (so_addrHash o) d (so_dbErr o) (so_trie o) (so_code o) (so_cachedStorage o) (so_dirtyStorage o)
  (so_cachedStorageByteArray o) (so_dirtyStorageByteArray o) (so_dirtyCode o) (so_suicided o) (so_touched o) (so_deleted o) (so_onDirty o).
Definition with_oErr o e := mkObject (so_address o) (so_addrHash o) (so_data o) e (so_trie o) (so_code o) (so_cachedStorage o) (so_dirtyStorage o)
  (so_cachedStorageByteArray o) (so_dirtyStorageByteArray o) (so_dirtyCode o) (so_suicided o) (so_touched o) (so_deleted o) (so_onDirty o).
Definition with_oTrie o (t : option T) : stateObject T := mkObject (so_address o) (so_addrHash o) (so_data o) (so_dbErr o) t (so_code o) (so_cachedStorage o) (so_dirtyStorage o)
  (so_cachedStorageByteArray o) (so_dirtyStorageByteArray o) (so_dirtyCode o) (so_suicided o) (so_touched o) (so_deleted o) (so_onDirty o).
Definition with_code o c (dirty : bool) := mkObject (so_address o) (so_addrHash o) (so_data o) (so_dbErr o) (so_trie o) c (so_cachedStorage o) (so_dirtyStorage o)
  (so_cachedStorageByteArray o) (so_dirtyStorageByteArray o) dirty (so_suicided o) (so_touched o) (so_deleted o) (so_onDirty o).
Definition with_storage o c d := mkObject (so_address o) (so_addrHash o) (so_data o) (so_dbErr o) (so_trie o) (so_code o) c d
  (so_cachedStorageByteArray o) (so_dirtyStorageByteArray o) (so_dirtyCode o) (so_suicided o) (so_touched o) (so_deleted o) (so_onDirty o).
Definition with_bytes o c d := mkObject (so_address o) (so_addrHash o) (so_data o) (so_dbErr o) (so_trie o) (so_code o) (so_cachedStorage o) (so_dirtyStorage o)
  c d (so_dirtyCode o) (so_suicided o) (so_touched o) (so_deleted o) (so_onDirty o).
Definition with_flags o suicided touched deleted onDirty := mkObject (so_address o) (so_addrHash o) (so_data o) (so_dbErr o) (so_trie o) (so_code o)
  (so_cachedStorage o) (so_dirtyStorage o) (so_cachedStorageByteArray o) (so_dirtyStorageByteArray o) (so_dirtyCode o) suicided touched deleted onDirty.

Definition with_balance o b := with_data o (mkAccount (acc_Nonce (so_data o)) b (acc_Root (so_data o)) (acc_CodeHash (so_data o))).
Definition with_nonce o n := with_data o (mkAccount n (acc_Balance (so_data o)) (acc_Root (so_data o)) (acc_CodeHash (so_data o))).
Definition with_root o r := with_data o (mkAccount (acc_Nonce (so_data o)) (acc_Balance (so_data o)) r (acc_CodeHash (so_data o))).
Definition with_codeHash o h := with_data o (mkAccount (acc_Nonce (so_data o)) (acc_Balance (so_data o)) (acc_Root (so_data o)) h).

Definition with_trie s (t : T) : StateDB D T := mkState (s_db s) t (s_stateObjects s) (s_stateObjectsDirty s) (s_dbErr s) (s_refund s) (s_thash s) (s_bhash s) (s_txIndex s)
  (s_logs s) (s_logSize s) (s_preimages s) (s_journal s) (s_validRevisions s) (s_nextRevisionId s).
Definition with_objects s (m : gmap address (stateObject T)) d : StateDB D T := mkState (s_db s) (s_trie s) m d (s_dbErr s) (s_refund s) (s_thash s) (s_bhash s) (s_txIndex s)
  (s_logs s) (s_logSize s) (s_preimages s) (s_journal s) (s_validRevisions s) (s_nextRevisionId s).
Definition with_err s e := mkState (s_db s) (s_trie s) (s_stateObjects s) (s_stateObjectsDirty s) e (s_refund s) (s_thash s) (s_bhash s) (s_txIndex s)
  (s_logs s) (s_logSize s) (s_preimages s) (s_journal s) (s_validRevisions s) (s_nextRevisionId s).
Definition with_refund s r := mkState (s_db s) (s_trie s) (s_stateObjects s) (s_stateObjectsDirty s) (s_dbErr s) r (s_thash s) (s_bhash s) (s_txIndex s)
  (s_logs s) (s_logSize s) (s_preimages s) (s_journal s) (s_validRevisions s) (s_nextRevisionId s).
Definition with_tx s th bh i := mkState (s_db s) (s_trie s) (s_stateObjects s) (s_stateObjectsDirty s) (s_dbErr s) (s_refund s) th bh i
  (s_logs s) (s_logSize s) (s_preimages s) (s_journal s) (s_validRevisions s) (s_nextRevisionId s).
Definition with_logs s l n := mkState (s_db s) (s_trie s) (s_stateObjects s) (s_stateObjectsDirty s) (s_dbErr s) (s_refund s) (s_thash s) (s_bhash s) (s_txIndex s)
  l n (s_preimages s) (s_journal s) (s_validRevisions s) (s_nextRevisionId s).
Definition with_preimages s p := mkState (s_db s) (s_trie s) (s_stateObjects s) (s_stateObjectsDirty s) (s_dbErr s) (s_refund s) (s_thash s) (s_bhash s) (s_txIndex s)
  (s_logs s) (s_logSize s) p (s_journal s) (s_validRevisions s) (s_nextRevisionId s).
Definition with_journal s (j : list (journalEntry T)) : StateDB D T := mkState (s_db s) (s_trie s) (s_stateObjects s) (s_stateObjectsDirty s) (s_dbErr s) (s_refund s) (s_thash s) (s_bhash s) (s_txIndex s)
  (s_logs s) (s_logSize s) (s_preimages s) j (s_validRevisions s) (s_nextRevisionId s).
Definition with_revisions s r n := mkState (s_db s) (s_trie s) (s_stateObjects s) (s_stateObjectsDirty s) (s_dbErr s) (s_refund s) (s_thash s) (s_bhash s) (s_txIndex s)
  (s_logs s) (s_logSize s) (s_preimages s) (s_journal s) r n.

(** [append] to the journal. *)
Definition log_change s (e : journalEntry T) : StateDB D T := with_journal s (s_journal s ++ [e]).
End Fields.

Section Ops.
Context `{HC : Crypto} {D T : Type} `{HT : StateTrie T} `{HD : StateDatabase D T} {E : Type}.
Implicit Types (o : stateObject T) (s : StateDB D T).

Definition emptyCodeHash : bytes := Keccak256 [].

(** ** A new state *)

Definition state_New (root : hash) (db : D) : outcome trie_err (StateDB D T) :=
  let! tr := OpenTrie db root in
  Ok (mkState db tr ∅ ∅ None 0 zero_hash zero_hash 0 ∅ 0 ∅ [] [] 0).

(** [Reset] keeps the database and the remembered error. *)
Definition Reset (root : hash) s : outcome trie_err (StateDB D T) :=
  let! tr := OpenTrie (s_db s) root in
  Ok (mkState (s_db s) tr ∅ ∅ (s_dbErr s) 0 zero_hash zero_hash 0 ∅ 0 ∅ [] [] (s_nextRevisionId s)).

(** ** Objects *)

Definition newObject (addr : address) (data : Account) (onDirty : bool) : stateObject T :=
  mkObject addr (Keccak256 addr) data None None None ∅ ∅ ∅ ∅ false false false false onDirty.

(** [Account{}], as [newObject] completes it. *)
Definition zero_account : Account := mkAccount 0 0 zero_hash emptyCodeHash.

Definition obj_empty o : bool :=
  (acc_Nonce (so_data o) =? 0) && (acc_Balance (so_data o) =? 0) &&
  (bool_decide (acc_CodeHash (so_data o) = emptyCodeHash) || bool_decide (acc_CodeHash (so_data o) = zero_hash)) &&
  (bool_decide (acc_Root (so_data o) = zero_hash) || bool_decide (acc_Root (so_data o) = emptyRoot)) &&
  bool_decide (so_dirtyStorage o = ∅) && bool_decide (so_dirtyStorageByteArray o = ∅).

Definition obj_setError (e : state_err) o : stateObject T :=
  match so_dbErr o with None => with_oErr o (Some e) | Some _ => o end.

Definition setError (e : state_err) s : StateDB D T :=
  match s_dbErr s with None => with_err s (Some e) | Some _ => s end.

(** Opening the trie of an account; a nil trie is dereferenced by the callers. *)
Definition getTrie (db : D) o : outcome E (T * stateObject T) :=
  match so_trie o with
  | Some t => Ok (t, o)
  | None =>
      match OpenStorageTrie db (so_addrHash o) (acc_Root (so_data o)) with
      | Ok t => Ok (t, with_oTrie o (Some t))
      | Err e =>
          match OpenStorageTrie db (so_addrHash o) zero_hash with
          | Ok t => Ok (t, obj_setError (CantCreateTrie e) (with_oTrie o (Some t)))
          | _ => Panic
          end
      | Panic => Panic
      end
  end.

(** The value in an entry of the storage trie, with the error of [Split]. *)
Definition slot_value (enc : option bytes) : outcome Empty_set (hash * option state_err) :=
  match enc with
  | Some (b :: enc) =>
      match Split (b :: enc) with
      | Ok (_, content, _) => Ok (BytesToHash content, None)
      | Err e => Ok (zero_hash, Some (StorageError e))
      | Panic => Panic
      end
  | _ => Ok (zero_hash, None)
  end.

Definition obj_GetState (db : D) (key : hash) o : outcome E (hash * stateObject T) :=
  match so_cachedStorage o !! key with
  | Some value => Ok (value, o)
  | None =>
      let! (t, o) := getTrie db o in
      match tr_TryGet t key with
      | Err e => Ok (zero_hash, obj_setError (TrieError e) o)
      | Ok (enc, t) =>
          let o := with_oTrie o (Some t) in
          match slot_value enc with
          | Ok (value, err) =>
              let o := match err with Some e => obj_setError e o | None => o end in
              let o := if bool_decide (value = zero_hash) then o
                       else with_storage o (<[key := value]> (so_cachedStorage o)) (so_dirtyStorage o) in
              Ok (value, o)
          | _ => Panic
          end
      | Panic => Panic
      end
  end.

(** The error of the trie is dropped. *)
Definition obj_GetStateByteArray (db : D) (key : hash) o : outcome E (bytes * stateObject T) :=
  match so_cachedStorageByteArray o !! key with
  | Some value => Ok (value, o)
  | None =>
      let! (t, o) := getTrie db o in
      match tr_TryGet t key with
      | Err _ => Ok ([], o)
      | Ok (enc, t) =>
          let o := with_oTrie o (Some t) in
          let value := default [] enc in
          let o := if (length value =? 0)%nat then o
                   else with_bytes o (<[key := value]> (so_cachedStorageByteArray o)) (so_dirtyStorageByteArray o) in
          Ok (value, o)
      | Panic => Panic
      end
  end.

(** [Code], nil when there is none; it is kept in the object. *)
Definition obj_Code (db : D) o : outcome E (option bytes * stateObject T) :=
  match so_code o with
  | Some c => Ok (Some c, o)
  | None =>
      if bool_decide (acc_CodeHash (so_data o) = emptyCodeHash) then Ok (None, o)
      else
        match ContractCode db (so_addrHash o) (BytesToHash (acc_CodeHash (so_data o))) with
        | Some c => Ok (Some c, with_code o (Some c) (so_dirtyCode o))
        | None => Ok (None, obj_setError (CantLoadCode (acc_CodeHash (so_data o))) (with_code o None (so_dirtyCode o)))
        end
  end.

(** ** Live objects *)

Definition setStateObject o s : StateDB D T := with_objects s (<[so_address o := o]> (s_stateObjects s)) (s_stateObjectsDirty s).

Definition MarkStateObjectDirty (addr : address) s : StateDB D T :=
  with_objects s (s_stateObjects s) ({[addr]} ∪ s_stateObjectsDirty s).

(** Calling [onDirty] when it is not nil, and the object with [onDirty] nil. *)
Definition fire o s : StateDB D T := if so_onDirty o then MarkStateObjectDirty (so_address o) s else s.
Definition fired o : stateObject T := with_flags o (so_suicided o) (so_touched o) (so_deleted o) false.

(** A method that changes the object and marks it as dirty. *)
Definition update_object o s : StateDB D T := setStateObject (fired o) (fire o s).

Definition getStateObject (addr : address) s : outcome E (option (stateObject T) * StateDB D T) :=
  match s_stateObjects s !! addr with
  | Some obj => Ok (if so_deleted obj then None else Some obj, s)
  | None =>
      match tr_TryGet (s_trie s) addr with
      | Err e => Ok (None, setError (TrieError e) s)
      | Ok (enc, t) =>
          let s := with_trie s t in
          match enc with
          | Some (b :: enc) =>
              match DecodeBytes Account_DecodeRLP (b :: enc) with
              | Ok data => let obj := newObject addr data true in Ok (Some obj, setStateObject obj s)
              | Err _ => Ok (None, s)
              | Panic => Panic
              end
          | _ => Ok (None, s)
          end
      | Panic => Panic
      end
  end.

(** The new object is marked as dirty, then stored. *)
Definition createObject (addr : address) s : outcome E (stateObject T * option (stateObject T) * StateDB D T) :=
  let! (prev, s) := getStateObject addr s in
  let newobj := with_nonce (newObject addr zero_account true) 0 in
  let s := fire newobj s in
  let newobj := fired newobj in
  let s := log_change s (match prev with None => createObjectChange addr | Some prev => resetObjectChange prev end) in
  Ok (newobj, prev, setStateObject newobj s).

Definition GetOrNewStateObject (addr : address) s : outcome E (stateObject T * StateDB D T) :=
  let! (obj, s) := getStateObject addr s in
  match obj with
  | Some obj => Ok (obj, s)
  | None => let! (obj, _, s) := createObject addr s in Ok (obj, s)
  end.

(** ** Changes of an object *)

Definition setBalance (amount : Z) o s : StateDB D T := update_object (with_balance o amount) s.
Definition setNonce (nonce : Z) o s : StateDB D T := update_object (with_nonce o nonce) s.
Definition setState (key value : hash) o s : StateDB D T :=
  update_object (with_storage o (<[key := value]> (so_cachedStorage o)) (<[key := value]> (so_dirtyStorage o))) s.
Definition setStateByteArray (key : hash) (value : bytes) o s : StateDB D T :=
  update_object (with_bytes o (<[key := value]> (so_cachedStorageByteArray o)) (<[key := value]> (so_dirtyStorageByteArray o))) s.
Definition setCode (codeHash : hash) (code : option bytes) o s : StateDB D T :=
  update_object (with_codeHash (with_code o code true) codeHash) s.

Definition touch o s : StateDB D T :=
  let s := log_change s (touchChange (so_address o) (so_touched o) (negb (so_onDirty o))) in
  let s := fire o s in
  setStateObject (with_flags o (so_suicided o) true (so_deleted o) false) s.

Definition obj_SetBalance (amount : Z) o s : StateDB D T :=
  setBalance amount o (log_change s (balanceChange (so_address o) (acc_Balance (so_data o)))).

(** A negative amount is only logged. *)
Definition obj_AddBalance (amount : Z) o s : StateDB D T :=
  if amount >? 0 then obj_SetBalance (acc_Balance (so_data o) + amount) o s
  else if amount =? 0 then (if obj_empty o then touch o s else s)
  else s.

Definition obj_SubBalance (amount : Z) o s : StateDB D T :=
  if amount >? 0 then obj_SetBalance (acc_Balance (so_data o) - amount) o s else s.

Definition obj_SetNonce (nonce : Z) o s : StateDB D T :=
  setNonce nonce o (log_change s (nonceChange (so_address o) (acc_Nonce (so_data o)))).

Definition obj_SetCode (codeHash : hash) (code : option bytes) o s : outcome E (StateDB D T) :=
  let! (prevcode, o) := obj_Code (s_db s) o in
  Ok (setCode codeHash code o (log_change s (codeChange (so_address o) prevcode (acc_CodeHash (so_data o))))).

Definition obj_SetState (key value : hash) o s : outcome E (StateDB D T) :=
  let! (prevalue, o) := obj_GetState (s_db s) key o in
  Ok (setState key value o (log_change s (storageChange (so_address o) key prevalue))).

Definition obj_SetStateByteArray (key : hash) (value : bytes) o s : outcome E (StateDB D T) :=
  let! (prevalue, o) := obj_GetStateByteArray (s_db s) key o in
  Ok (setStateByteArray key value o (log_change s (storageByteArrayChange (so_address o) key prevalue))).

(** ** Methods of the state *)

Definition AddLog (l : Log) s : StateDB D T :=
  let s := log_change s (addLogChange (s_thash s)) in
  let l := mkLog (log_Address l) (log_Topics l) (log_Data l) (log_BlockNumber l) (s_thash s) (u64 (s_txIndex s)) (s_bhash s) (s_logSize s) (log_Removed l) in
  with_logs s (<[s_thash s := default [] (s_logs s !! s_thash s) ++ [l]]> (s_logs s)) (u64 (s_logSize s + 1)).

Definition GetLogs (h : hash) s : list Log := default [] (s_logs s !! h).

Definition AddPreimage (h : hash) (preimage : bytes) s : StateDB D T :=
  match s_preimages s !! h with
  | Some _ => s
  | None => with_preimages (log_change s (addPreimageChange h)) (<[h := preimage]> (s_preimages s))
  end.

Definition AddRefund (gas : Z) s : StateDB D T :=
  with_refund (log_change s (refundChange (s_refund s))) (s_refund s + gas).

Definition Exist (addr : address) s : outcome E (bool * StateDB D T) :=
  let! (o, s) := getStateObject addr s in Ok (match o with Some _ => true | None => false end, s).

Definition state_Empty (addr : address) s : outcome E (bool * StateDB D T) :=
  let! (o, s) := getStateObject addr s in Ok (match o with Some o => obj_empty o | None => true end, s).

Definition GetBalance (addr : address) s : outcome E (Z * StateDB D T) :=
  let! (o, s) := getStateObject addr s in Ok (match o with Some o => acc_Balance (so_data o) | None => 0 end, s).

Definition GetNonce (addr : address) s : outcome E (Z * StateDB D T) :=
  let! (o, s) := getStateObject addr s in Ok (match o with Some o => acc_Nonce (so_data o) | None => 0 end, s).

Definition GetCode (addr : address) s : outcome E (option bytes * StateDB D T) :=
  let! (o, s) := getStateObject addr s in
  match o with
  | Some o => let! (c, o) := obj_Code (s_db s) o in Ok (c, setStateObject o s)
  | None => Ok (None, s)
  end.

Definition GetCodeSize (addr : address) s : outcome E (Z * StateDB D T) :=
  let! (o, s) := getStateObject addr s in
  match o with
  | None => Ok (0, s)
  | Some o =>
      match so_code o with
      | Some c => Ok (zlen c, s)
      | None =>
          match ContractCodeSize (s_db s) (so_addrHash o) (BytesToHash (acc_CodeHash (so_data o))) with
          | Some n => Ok (n, s)
          | None => Ok (0, setError (CantLoadCode (acc_CodeHash (so_data o))) s)
          end
      end
  end.

Definition GetCodeHash (addr : address) s : outcome E (hash * StateDB D T) :=
  let! (o, s) := getStateObject addr s in Ok (match o with Some o => BytesToHash (acc_CodeHash (so_data o)) | None => zero_hash end, s).

Definition GetState (a : address) (b : hash) s : outcome E (hash * StateDB D T) :=
  let! (o, s) := getStateObject a s in
  match o with
  | Some o => let! (v, o) := obj_GetState (s_db s) b o in Ok (v, setStateObject o s)
  | None => Ok (zero_hash, s)
  end.

Definition GetStateByteArray (a : address) (b : hash) s : outcome E (bytes * StateDB D T) :=
  let! (o, s) := getStateObject a s in
  match o with
  | Some o => let! (v, o) := obj_GetStateByteArray (s_db s) b o in Ok (v, setStateObject o s)
  | None => Ok ([], s)
  end.

Definition HasSuicided (addr : address) s : outcome E (bool * StateDB D T) :=
  let! (o, s) := getStateObject addr s in Ok (match o with Some o => so_suicided o | None => false end, s).

Definition AddBalance (addr : address) (amount : Z) s : outcome E (StateDB D T) :=
  let! (o, s) := GetOrNewStateObject addr s in Ok (obj_AddBalance amount o s).

Definition SubBalance (addr : address) (amount : Z) s : outcome E (StateDB D T) :=
  let! (o, s) := GetOrNewStateObject addr s in Ok (obj_SubBalance amount o s).

Definition SetBalance (addr : address) (amount : Z) s : outcome E (StateDB D T) :=
  let! (o, s) := GetOrNewStateObject addr s in Ok (obj_SetBalance amount o s).

Definition SetNonce (addr : address) (nonce : Z) s : outcome E (StateDB D T) :=
  let! (o, s) := GetOrNewStateObject addr s in Ok (obj_SetNonce nonce o s).

(** The code may be nil. *)
Definition SetCode (addr : address) (code : option bytes) s : outcome E (StateDB D T) :=
  let! (o, s) := GetOrNewStateObject addr s in obj_SetCode (Keccak256 (default [] code)) code o s.

Definition SetState (addr : address) (key value : hash) s : outcome E (StateDB D T) :=
  let! (o, s) := GetOrNewStateObject addr s in obj_SetState key value o s.

Definition SetStateByteArray (addr : address) (key : hash) (value : bytes) s : outcome E (StateDB D T) :=
  let! (o, s) := GetOrNewStateObject addr s in obj_SetStateByteArray key value o s.

Definition Suicide (addr : address) s : outcome E (bool * StateDB D T) :=
  let! (o, s) := getStateObject addr s in
  match o with
  | None => Ok (false, s)
  | Some o =>
      let s := log_change s (suicideChange addr (so_suicided o) (acc_Balance (so_data o))) in
      let marked := with_flags o true (so_touched o) (so_deleted o) (so_onDirty o) in
      Ok (true, update_object (with_balance marked 0) s)
  end.

Definition CreateAccount (addr : address) s : outcome E (StateDB D T) :=
  let! (new, prev, s) := createObject addr s in
  Ok (match prev with Some prev => setBalance (acc_Balance (so_data prev)) new s | None => s end).

(** ** Snapshots *)

(** A nil object is dereferenced. *)
Definition with_live (addr : address) s (f : stateObject T -> StateDB D T -> StateDB D T) : outcome E (StateDB D T) :=
  let! (o, s) := getStateObject addr s in match o with Some o => Ok (f o s) | None => Panic end.

Definition ripemd : address := be_pad 20 3.

Definition undo (e : journalEntry T) s : outcome E (StateDB D T) :=
  match e with
  | createObjectChange a => Ok (with_objects s (delete a (s_stateObjects s)) (s_stateObjectsDirty s ∖ {[a]}))
  | resetObjectChange prev => Ok (setStateObject prev s)
  | suicideChange a prev prevbalance =>
      let! (o, s) := getStateObject a s in
      Ok (match o with
          | Some o => setBalance prevbalance (with_flags o prev (so_touched o) (so_deleted o) (so_onDirty o)) s
          | None => s
          end)
  | balanceChange a prev => with_live a s (setBalance prev)
  | nonceChange a prev => with_live a s (setNonce prev)
  | storageChange a key prev => with_live a s (setState key prev)
  | storageByteArrayChange a key prev => with_live a s (setStateByteArray key prev)
  | codeChange a prevcode prevhash => with_live a s (setCode (BytesToHash prevhash) prevcode)
  | refundChange prev => Ok (with_refund s prev)
  | addLogChange h =>
      match GetLogs h s with
      | [] => Panic
      | [_] => Ok (with_logs s (delete h (s_logs s)) (u64 (s_logSize s - 1)))
      | logs => Ok (with_logs s (<[h := take (length logs - 1) logs]> (s_logs s)) (u64 (s_logSize s - 1)))
      end
  | addPreimageChange h => Ok (with_preimages s (delete h (s_preimages s)))
  | touchChange a prev prevDirty =>
      if negb prev && negb (bool_decide (a = ripemd)) then
        with_live a s (fun o s =>
          let s := setStateObject (with_flags o (so_suicided o) prev (so_deleted o) (so_onDirty o)) s in
          if prevDirty then s else with_objects s (s_stateObjects s) (s_stateObjectsDirty s ∖ {[a]}))
      else Ok s
  end.

Definition Snapshot s : Z * StateDB D T :=
  let id := s_nextRevisionId s in
  (id, with_revisions s (s_validRevisions s ++ [mkRevision id (length (s_journal s))]) (id + 1)).

(** [sort.Search]: the loop with bounds [i] and [j]. *)
Fixpoint Search_loop (fuel : nat) (f : nat -> bool) (i j : nat) : nat :=
  match fuel with
  | O => i
  | S fuel' =>
      if (i <? j)%nat then
        let h := ((i + j) / 2)%nat in
        if negb (f h) then Search_loop fuel' f (S h) j else Search_loop fuel' f i h
      else i
  end.

Definition sort_Search (n : nat) (f : nat -> bool) : nat := Search_loop n f 0 n.

Fixpoint undo_all (entries : list (journalEntry T)) s : outcome E (StateDB D T) :=
  match entries with
  | [] => Ok s
  | e :: entries => let! s := undo e s in undo_all entries s
  end.

Definition RevertToSnapshot (revid : Z) s : outcome E (StateDB D T) :=
  let revs := s_validRevisions s in
  let idx := sort_Search (length revs) (fun i => match revs !! i with Some r => rev_id r >=? revid | None => true end) in
  match revs !! idx with
  | None => Panic
  | Some r =>
      if negb (rev_id r =? revid) then Panic
      else
        let snapshot := rev_journalIndex r in
        let! s := undo_all (reverse (drop snapshot (s_journal s))) s in
        Ok (with_revisions (with_journal s (take snapshot (s_journal s))) (take idx (s_validRevisions s)) (s_nextRevisionId s))
  end.

Definition GetRefund s : Z := s_refund s.

Definition Prepare (thash bhash : hash) (ti : Z) s : StateDB D T := with_tx s thash bhash ti.

Definition clearJournalAndRefund s : StateDB D T := with_refund (with_revisions (with_journal s []) [] (s_nextRevisionId s)) 0.

End Ops.
