(* ===== verification/StateSpec.v ===== *)
(** What the state database promises: a map of accounts with snapshots that are
    copies of everything, and the relation between it and [StateDB].

    [StateDB] refines the machine with copies: every operation shows the world it
    should, and the entries it leaves in the journal lead back to the world
    before. *)
From S2P Require Import Prelude RlpEncode RlpDecode RlpRaw Storage IstanbulTypes ValidatorSet Trie StateDB.

(** ** Worlds *)

(** What can be seen of an account. *)
Record acct := mkAcct {
  a_nonce : Z;
  a_balance : Z;
  a_codehash : bytes;
  a_code : option bytes;
  a_suicided : bool;
  a_storage : hash -> hash;
  a_bytes : hash -> bytes
}.

Record world := mkWorld {
  w_accts : address -> option acct;
  w_refund : Z;
  w_logs : hash -> list Log;
  w_logSize : Z;
  w_preimages : gmap hash bytes;
  w_tx : hash * hash * Z
}.

Definition fn_set {A B} `{EqDecision A} (f : A -> B) (a : A) (b : B) : A -> B := fun x => if decide (x = a) then b else f x.

Lemma fn_set_eq {A B} `{EqDecision A} (f : A -> B) a b : fn_set f a b a = b.
Proof. unfold fn_set. by rewrite decide_True. Qed.

Lemma fn_set_ne {A B} `{EqDecision A} (f : A -> B) a b x : x <> a -> fn_set f a b x = f x.
Proof. intros. unfold fn_set. by rewrite decide_False. Qed.

Definition set_balance (c : acct) b := mkAcct (a_nonce c) b (a_codehash c) (a_code c) (a_suicided c) (a_storage c) (a_bytes c).
Definition set_nonce (c : acct) n := mkAcct n (a_balance c) (a_codehash c) (a_code c) (a_suicided c) (a_storage c) (a_bytes c).
Definition set_code (c : acct) h code := mkAcct (a_nonce c) (a_balance c) h code (a_suicided c) (a_storage c) (a_bytes c).
Definition set_storage (c : acct) k v := mkAcct (a_nonce c) (a_balance c) (a_codehash c) (a_code c) (a_suicided c) (fn_set (a_storage c) k v) (a_bytes c).
Definition set_bytes (c : acct) k v := mkAcct (a_nonce c) (a_balance c) (a_codehash c) (a_code c) (a_suicided c) (a_storage c) (fn_set (a_bytes c) k v).
Definition set_suicided (c : acct) b n := mkAcct (a_nonce c) n (a_codehash c) (a_code c) b (a_storage c) (a_bytes c).

Definition w_set (W : world) (a : address) (c : acct) : world :=
  mkWorld (fn_set (w_accts W) a (Some c)) (w_refund W) (w_logs W) (w_logSize W) (w_preimages W) (w_tx W).

Section Spec.
Context `{Crypto}.

Definition fresh : acct := mkAcct 0 0 (Keccak256 []) None false (fun _ => zero_hash) (fun _ => []).

(** The account an operation works on. *)
Definition acct_at (W : world) (a : address) : acct := default fresh (w_accts W a).

(** An account that does not exist is created. *)
Definition w_touch (W : world) (a : address) : world := match w_accts W a with Some _ => W | None => w_set W a fresh end.

(** ** The machine with copies *)

Inductive state_op :=
| OAddBalance (a : address) (n : Z) | OSubBalance (a : address) (n : Z) | OSetBalance (a : address) (n : Z)
| OSetNonce (a : address) (n : Z) | OSetCode (a : address) (code : option bytes)
| OSetState (a : address) (k v : hash) | OSetStateByteArray (a : address) (k : hash) (v : bytes)
| OSuicide (a : address) | OCreateAccount (a : address)
| OAddLog (l : Log) | OAddPreimage (h : hash) (p : bytes) | OAddRefund (gas : Z)
| OSnapshot | ORevert (id : Z)
| OExist (a : address) | OGetBalance (a : address) | OGetNonce (a : address) | OGetCode (a : address) | OGetCodeHash (a : address)
| OGetState (a : address) (k : hash) | OGetStateByteArray (a : address) (k : hash) | OHasSuicided (a : address)
| OGetRefund | OGetLogs (h : hash).

Inductive state_res :=
| RUnit | RZ (z : Z) | RBool (b : bool) | RBytes (b : bytes) | ROption (b : option bytes) | RLogs (l : list Log).

(** The current world, and the worlds to go back to. *)
Record machine := mkMachine { m_world : world; m_snaps : list (Z * world); m_next : Z }.

Definition stamped (W : world) (l : Log) : Log :=
  let '(th, bh, i) := w_tx W in
  mkLog (log_Address l) (log_Topics l) (log_Data l) (log_BlockNumber l) th (u64 i) bh (w_logSize W) (log_Removed l).

(** The world after a change. *)
Definition w_change (op : state_op) (W : world) : world :=
  match op with
  | OAddBalance a n => if n >? 0 then w_set W a (set_balance (acct_at W a) (a_balance (acct_at W a) + n)) else w_touch W a
  | OSubBalance a n => if n >? 0 then w_set W a (set_balance (acct_at W a) (a_balance (acct_at W a) - n)) else w_touch W a
  | OSetBalance a n => w_set W a (set_balance (acct_at W a) n)
  | OSetNonce a n => w_set W a (set_nonce (acct_at W a) n)
  | OSetCode a code => w_set W a (set_code (acct_at W a) (Keccak256 (default [] code)) code)
  | OSetState a k v => w_set W a (set_storage (acct_at W a) k v)
  | OSetStateByteArray a k v => w_set W a (set_bytes (acct_at W a) k v)
  | OSuicide a => match w_accts W a with Some c => w_set W a (set_suicided c true 0) | None => W end
  | OCreateAccount a => w_set W a (set_balance fresh (a_balance (acct_at W a)))
  | OAddLog l => mkWorld (w_accts W) (w_refund W) (fn_set (w_logs W) (w_tx W).1.1 (w_logs W (w_tx W).1.1 ++ [stamped W l]))
                   (u64 (w_logSize W + 1)) (w_preimages W) (w_tx W)
  | OAddPreimage h p =>
      match w_preimages W !! h with
      | Some _ => W
      | None => mkWorld (w_accts W) (w_refund W) (w_logs W) (w_logSize W) (<[h := p]> (w_preimages W)) (w_tx W)
      end
  | OAddRefund g => mkWorld (w_accts W) (w_refund W + g) (w_logs W) (w_logSize W) (w_preimages W) (w_tx W)
  | _ => W
  end.

(** What an operation returns. *)
Definition w_answer (op : state_op) (W : world) : state_res :=
  match op with
  | OSuicide a => RBool (bool_decide (is_Some (w_accts W a)))
  | OExist a => RBool (bool_decide (is_Some (w_accts W a)))
  | OGetBalance a => RZ (match w_accts W a with Some c => a_balance c | None => 0 end)
  | OGetNonce a => RZ (match w_accts W a with Some c => a_nonce c | None => 0 end)
  | OGetCode a => ROption (w_accts W a ≫= a_code)
  | OGetCodeHash a => RBytes (match w_accts W a with Some c => a_codehash c | None => zero_hash end)
  | OGetState a k => RBytes (match w_accts W a with Some c => a_storage c k | None => zero_hash end)
  | OGetStateByteArray a k => RBytes (match w_accts W a with Some c => a_bytes c k | None => [] end)
  | OHasSuicided a => RBool (match w_accts W a with Some c => a_suicided c | None => false end)
  | OGetRefund => RZ (w_refund W)
  | OGetLogs h => RLogs (w_logs W h)
  | _ => RUnit
  end.

Fixpoint split_at_id (id : Z) (snaps : list (Z * world)) : option (list (Z * world) * world) :=
  match snaps with
  | [] => None
  | (i, W) :: snaps =>
      if i =? id then Some ([], W)
      else match split_at_id id snaps with Some (before, V) => Some ((i, W) :: before, V) | None => None end
  end.

(** A snapshot copies the world; going back to one restores it and forgets the later ones. *)
Definition m_step (m : machine) (op : state_op) : option (state_res * machine) :=
  match op with
  | OSnapshot => Some (RZ (m_next m), mkMachine (m_world m) (m_snaps m ++ [(m_next m, m_world m)]) (m_next m + 1))
  | ORevert id =>
      match split_at_id id (m_snaps m) with
      | Some (before, W) => Some (RUnit, mkMachine W before (m_next m))
      | None => None
      end
  | _ => Some (w_answer op (m_world m), mkMachine (w_change op (m_world m)) (m_snaps m) (m_next m))
  end.

(** The same operation on [StateDB]. *)
Definition state_step {D T E} `{StateTrie T} `{StateDatabase D T} (s : StateDB D T) (op : state_op) : outcome E (state_res * StateDB D T) :=
  match op with
  | OAddBalance a n => let! s := AddBalance a n s in Ok (RUnit, s)
  | OSubBalance a n => let! s := SubBalance a n s in Ok (RUnit, s)
  | OSetBalance a n => let! s := SetBalance a n s in Ok (RUnit, s)
  | OSetNonce a n => let! s := SetNonce a n s in Ok (RUnit, s)
  | OSetCode a code => let! s := SetCode a code s in Ok (RUnit, s)
  | OSetState a k v => let! s := SetState a k v s in Ok (RUnit, s)
  | OSetStateByteArray a k v => let! s := SetStateByteArray a k v s in Ok (RUnit, s)
  | OSuicide a => let! (b, s) := Suicide a s in Ok (RBool b, s)
  | OCreateAccount a => let! s := CreateAccount a s in Ok (RUnit, s)
  | OAddLog l => Ok (RUnit, AddLog l s)
  | OAddPreimage h p => Ok (RUnit, AddPreimage h p s)
  | OAddRefund g => Ok (RUnit, AddRefund g s)
  | OSnapshot => let '(id, s) := Snapshot s in Ok (RZ id, s)
  | ORevert id => let! s := RevertToSnapshot id s in Ok (RUnit, s)
  | OExist a => let! (b, s) := Exist a s in Ok (RBool b, s)
  | OGetBalance a => let! (n, s) := GetBalance a s in Ok (RZ n, s)
  | OGetNonce a => let! (n, s) := GetNonce a s in Ok (RZ n, s)
  | OGetCode a => let! (c, s) := GetCode a s in Ok (ROption c, s)
  | OGetCodeHash a => let! (c, s) := GetCodeHash a s in Ok (RBytes c, s)
  | OGetState a k => let! (v, s) := GetState a k s in Ok (RBytes v, s)
  | OGetStateByteArray a k => let! (v, s) := GetStateByteArray a k s in Ok (RBytes v, s)
  | OHasSuicided a => let! (b, s) := HasSuicided a s in Ok (RBool b, s)
  | OGetRefund => Ok (RZ (GetRefund s), s)
  | OGetLogs h => Ok (RLogs (GetLogs h s), s)
  end.
End Spec.

(** What the state database relies on: a healthy store. Tries answer from a fixed
    map and reading changes nothing in it; the trie of a new account is empty. *)
Class StateStoreLaws (D T : Type) `{StateTrie T} `{StateDatabase D T} := {
  tr_rep : T -> (bytes -> option bytes) -> Prop;
  tr_get_ok t f k : tr_rep t f -> exists t', tr_TryGet t k = Ok (f k, t') /\ tr_rep t' f;
  open_empty db ah : exists t, OpenStorageTrie db ah zero_hash = Ok t /\ tr_rep t (fun _ => None)
}.

Section Refine.
Context `{HCL : CryptoLaws} {D T : Type} `{HT : StateTrie T} `{HD : StateDatabase D T} `{HL : !StateStoreLaws D T} {E : Type}.
Context (db : D) (A : bytes -> option bytes).

(** ** What an object shows *)

Definition obj_reads (o : stateObject T) (f : bytes -> option bytes) : Prop :=
  match so_trie o with
  | Some t => tr_rep t f
  | None => exists t, OpenStorageTrie db (so_addrHash o) (acc_Root (so_data o)) = Ok t /\ tr_rep t f
  end.

(** The slot an entry of the trie stands for. *)
Definition slot_view (enc : option bytes) : hash := match slot_value enc with Ok (v, _) => v | _ => zero_hash end.

Definition code_view (o : stateObject T) : option bytes :=
  match so_code o with
  | Some c => Some c
  | None =>
      if bool_decide (acc_CodeHash (so_data o) = emptyCodeHash) then None
      else ContractCode db (so_addrHash o) (BytesToHash (acc_CodeHash (so_data o)))
  end.

Record shows (o : stateObject T) (c : acct) : Prop := {
  sh_live : so_deleted o = false;
  sh_nonce : acc_Nonce (so_data o) = a_nonce c;
  sh_balance : acc_Balance (so_data o) = a_balance c;
  sh_codehash : acc_CodeHash (so_data o) = a_codehash c;
  sh_hash_len : zlen (a_codehash c) = 32;
  sh_code : code_view o = a_code c;
  sh_suicided : so_suicided o = a_suicided c;
  sh_reads : exists f, obj_reads o f /\ (forall k, slot_value (f k) <> Panic) /\
    (forall k, default (slot_view (f k)) (so_cachedStorage o !! k) = a_storage c k) /\
    (forall k, default (default [] (f k)) (so_cachedStorageByteArray o !! k) = a_bytes c k)
}.

Definition obj_wf (a : address) (o : stateObject T) : Prop := so_address o = a /\ so_addrHash o = Keccak256 a.

(** An account in the trie. *)
Definition acct_of (a : address) : option Account :=
  match A a with
  | Some (b :: enc) => match DecodeBytes Account_DecodeRLP (b :: enc) with Ok data => Some data | _ => None end
  | _ => None
  end.

Definition cell (a : address) (slot : option (stateObject T)) (c : option acct) : Prop :=
  match slot with
  | Some o => obj_wf a o /\ (if so_deleted o then c = None /\ acct_of a = None else exists c', c = Some c' /\ shows o c')
  | None =>
      match acct_of a with
      | Some data => exists c', c = Some c' /\ shows (newObject a data true) c'
      | None => c = None
      end
  end.

Record rep (s : StateDB D T) (W : world) : Prop := {
  r_db : s_db s = db;
  r_trie : tr_rep (s_trie s) A;
  r_cells : forall a, cell a (s_stateObjects s !! a) (w_accts W a);
  r_refund : s_refund s = w_refund W;
  r_logs : forall h, GetLogs h s = w_logs W h;
  r_logSize : s_logSize s = w_logSize W;
  r_logs_u64 : is_u64 (w_logSize W);
  r_preimages : s_preimages s = w_preimages W;
  r_tx : (s_thash s, s_bhash s, s_txIndex s) = w_tx W
}.

(** The journal and the snapshots are the same. *)
Definition same_log (s s' : StateDB D T) : Prop :=
  s_journal s' = s_journal s /\ s_validRevisions s' = s_validRevisions s /\ s_nextRevisionId s' = s_nextRevisionId s.

Lemma same_log_refl s : same_log s s.
Proof. done. Qed.

Lemma same_log_trans s1 s2 s3 : same_log s1 s2 -> same_log s2 s3 -> same_log s1 s3.
Proof. unfold same_log. intuition congruence. Qed.

(** Two worlds that differ at one account only. *)
Definition off (a : address) (W W' : world) : Prop :=
  (forall b, b <> a -> w_accts W' b = w_accts W b) /\ w_refund W' = w_refund W /\ w_logs W' = w_logs W /\
  w_logSize W' = w_logSize W /\ w_preimages W' = w_preimages W /\ w_tx W' = w_tx W.

Lemma off_refl a W : off a W W.
Proof. by split_and!. Qed.

Lemma off_set a W c : off a W (w_set W a c).
Proof. split_and!; try done. intros b Hb. simpl. by apply fn_set_ne. Qed.

Lemma off_unset a W c : off a (w_set W a c) W.
Proof. split_and!; try done. intros b Hb. simpl. symmetry. by apply fn_set_ne. Qed.

(** Storing an object that shows an account. *)
Lemma rep_put s W W' a o c : rep s W -> off a W W' -> w_accts W' a = Some c -> obj_wf a o -> shows o c -> rep (setStateObject o s) W'.
Proof.
  intros [R1 R2 R3 R4 R5 R6 R7 R8 R9] (O1 & O2 & O3 & O4 & O5 & O6) Hc Hwf Hs. constructor; simpl; try congruence.
  - intros b. destruct Hwf as [Ha Hh]. rewrite Ha. destruct (decide (b = a)) as [->|Hb].
    + rewrite lookup_insert_eq, Hc. split; [done|]. rewrite (sh_live _ _ Hs). eauto.
    + rewrite lookup_insert_ne, O1 by done. apply R3.
  - intros h. rewrite O3. apply R5.
Qed.

Lemma rep_fire s W o : rep s W -> rep (fire o s) W.
Proof. intros [R1 R2 R3 R4 R5 R6 R7 R8 R9]. unfold fire. destruct (so_onDirty o); by constructor. Qed.

Lemma rep_log s W e : rep s W -> rep (log_change s e) W.
Proof. intros [R1 R2 R3 R4 R5 R6 R7 R8 R9]. by constructor. Qed.

Lemma shows_flags o c t d : shows o c -> shows (with_flags o (so_suicided o) t (so_deleted o) d) c.
Proof. intros [S1 S2 S3 S4 S5 S6 S7 S8]. by constructor. Qed.

Lemma rep_update s W W' a o c : rep s W -> off a W W' -> w_accts W' a = Some c -> obj_wf a o -> shows o c -> rep (update_object o s) W'.
Proof.
  intros HR HO Hc Hwf Hs. unfold update_object. eapply rep_put; [by apply rep_fire|done|done|done|]. by apply shows_flags.
Qed.

Lemma same_log_fire s o : same_log s (fire o s).
Proof. unfold fire. by destruct (so_onDirty o). Qed.

Lemma same_log_update s o : same_log s (update_object o s).
Proof. unfold update_object. eapply same_log_trans; [apply (same_log_fire s o)|done]. Qed.

(** ** Reading objects *)

Lemma getStateObject_ok a s W : rep s W ->
  exists o s', getStateObject (E:=E) a s = Ok (o, s') /\ rep s' W /\ same_log s s' /\
    match w_accts W a with
    | Some c => exists obj, o = Some obj /\ obj_wf a obj /\ shows obj c
    | None => o = None /\ acct_of a = None
    end.
Proof.
  intros HR. pose proof HR as [R1 R2 R3 R4 R5 R6 R7 R8 R9]. specialize (R3 a). unfold getStateObject.
  destruct (s_stateObjects s !! a) as [o|] eqn:Eo; simpl in R3.
  - destruct R3 as [Hwf Hc]. destruct (so_deleted o).
    + destruct Hc as [-> Ha]. by eexists _, s.
    + destruct Hc as (c & -> & Hs). eexists _, s. split_and!; [done|done|done|]. by exists o.
  - destruct (tr_get_ok (s_trie s) A a R2) as (t & -> & Ht). unfold acct_of in R3 |- *.
    assert (HR' : rep (with_trie s t) W) by (constructor; simpl; try done; apply HR).
    destruct (A a) as [[|b enc]|]; [rewrite R3; by eexists _, _|..|rewrite R3; by eexists _, _].
    destruct (DecodeBytes Account_DecodeRLP (b :: enc)) as [data|e|] eqn:Ed.
    + destruct R3 as (c & Ec & Hs). eexists _, _. split; [done|]. rewrite Ec. split; [|split; [done|by eexists]].
      by eapply rep_put; [exact HR'|apply off_refl|exact Ec|done|].
    + rewrite R3. by eexists _, _.
    + exfalso. revert Ed. unfold DecodeBytes. repeat case_match; done.
Qed.

Lemma getTrie_ok o f : obj_reads o f -> exists t, getTrie (E:=E) db o = Ok (t, with_oTrie o (Some t)) /\ tr_rep t f.
Proof.
  unfold obj_reads, getTrie. destruct (so_trie o) as [t|] eqn:Et.
  - intros Ht. exists t. split; [|done]. do 2 f_equal. destruct o. simpl in *. by rewrite Et.
  - intros (t & -> & Ht). by exists t.
Qed.

(** The trie of an object and its error do not show. *)
Lemma shows_trie o c f t : shows o c -> obj_reads o f -> tr_rep t f -> (forall k, slot_value (f k) <> Panic) ->
  (forall k, default (slot_view (f k)) (so_cachedStorage o !! k) = a_storage c k) ->
  (forall k, default (default [] (f k)) (so_cachedStorageByteArray o !! k) = a_bytes c k) -> shows (with_oTrie o (Some t)) c.
Proof. intros [S1 S2 S3 S4 S5 S6 S7 S8] Hf Ht Hp H1 H2. constructor; try done. by exists f. Qed.

Lemma shows_err o c e : shows o c -> shows (obj_setError e o) c.
Proof. intros [S1 S2 S3 S4 S5 S6 S7 S8]. unfold obj_setError. destruct (so_dbErr o); by constructor. Qed.

Lemma wf_err a o e : obj_wf a o -> obj_wf a (obj_setError e o).
Proof. unfold obj_setError. by destruct (so_dbErr o). Qed.

Lemma obj_GetState_ok a k o c : shows o c -> obj_wf a o ->
  exists o', obj_GetState (E:=E) db k o = Ok (a_storage c k, o') /\ shows o' c /\ obj_wf a o'.
Proof.
  intros Hs Hwf. pose proof (sh_reads _ _ Hs) as (f & Hf & Hp & H1 & H2). unfold obj_GetState. pose proof (H1 k) as Hk.
  destruct (so_cachedStorage o !! k) as [v|] eqn:Ev; [simpl in Hk; subst; by eexists|]. simpl in Hk.
  destruct (getTrie_ok o f Hf) as (t & -> & Ht). cbn [obind]. destruct (tr_get_ok t f k Ht) as (t' & -> & Ht').
  unfold slot_view in Hk. specialize (Hp k) as Hpk. destruct (slot_value (f k)) as [[v err]| |] eqn:Es; [|done|done]. subst v. eexists. split; [done|].
  pose proof (shows_trie o c f t' Hs Hf Ht' Hp H1 H2) as Hs'. set (o1 := with_oTrie (with_oTrie o (Some t)) (Some t')).
  change (with_oTrie o (Some t')) with o1 in Hs'.
  assert (Hs1 : shows (match err with Some e => obj_setError e o1 | None => o1 end) c) by (destruct err; [by apply shows_err|done]).
  assert (Hw1 : obj_wf a (match err with Some e => obj_setError e o1 | None => o1 end)) by (destruct err; [by apply wf_err|done]).
  assert (Hc1 : so_cachedStorage (match err with Some e => obj_setError e o1 | None => o1 end) = so_cachedStorage o).
  { destruct err; [|done]. unfold obj_setError. by destruct (so_dbErr o1). }
  assert (Hr1 : obj_reads (match err with Some e => obj_setError e o1 | None => o1 end) f).
  { destruct err; [|done]. unfold obj_setError. by destruct (so_dbErr o1). }
  assert (Hb1 : so_cachedStorageByteArray (match err with Some e => obj_setError e o1 | None => o1 end) = so_cachedStorageByteArray o).
  { destruct err; [|done]. unfold obj_setError. by destruct (so_dbErr o1). }
  destruct (match err with Some e => obj_setError e o1 | None => o1 end) as [] eqn:Eo. simpl in *. subst.
  case_bool_decide; [done|]. split; [|done]. destruct Hs1 as [S1 S2 S3 S4 S5 S6 S7 S8]. constructor; try done. exists f. split; [done|]. split; [done|].
  simpl. split; [|done]. intros k'. destruct (decide (k' = k)) as [->|Hne]; [by rewrite lookup_insert_eq|].
  rewrite lookup_insert_ne by done. apply H1.
Qed.

Lemma obj_GetBytes_ok a k o c : shows o c -> obj_wf a o ->
  exists o', obj_GetStateByteArray (E:=E) db k o = Ok (a_bytes c k, o') /\ shows o' c /\ obj_wf a o'.
Proof.
  intros Hs Hwf. pose proof (sh_reads _ _ Hs) as (f & Hf & Hp & H1 & H2). unfold obj_GetStateByteArray. pose proof (H2 k) as Hk.
  destruct (so_cachedStorageByteArray o !! k) as [v|] eqn:Ev; [simpl in Hk; subst; by eexists|]. simpl in Hk.
  destruct (getTrie_ok o f Hf) as (t & -> & Ht). cbn [obind]. destruct (tr_get_ok t f k Ht) as (t' & -> & Ht').
  eexists. rewrite Hk. split; [done|]. pose proof (shows_trie o c f t' Hs Hf Ht' Hp H1 H2) as Hs'.
  destruct (length (a_bytes c k) =? 0)%nat; [done|]. split; [|done]. destruct Hs' as [S1 S2 S3 S4 S5 S6 S7 S8]. constructor; try done.
  exists f. split; [done|]. split; [done|]. simpl. split; [done|]. intros k'. destruct (decide (k' = k)) as [->|Hne]; [by rewrite lookup_insert_eq|].
  rewrite lookup_insert_ne by done. apply H2.
Qed.

Lemma obj_Code_ok a o c : shows o c -> obj_wf a o -> exists o', obj_Code (E:=E) db o = Ok (a_code c, o') /\ shows o' c /\ obj_wf a o'.
Proof.
  intros Hs Hwf. pose proof Hs as [S1 S2 S3 S4 S5 S6 S7 S8]. unfold obj_Code. unfold code_view in S6.
  destruct (so_code o) as [code|] eqn:Ec; [rewrite <- S6; by eexists|]. case_bool_decide as Hh; [rewrite <- S6; by eexists|].
  destruct (ContractCode db (so_addrHash o) (BytesToHash (acc_CodeHash (so_data o)))) as [code|] eqn:Eq.
  - rewrite <- S6. eexists. split; [done|]. split; [|done]. by constructor.
  - rewrite <- S6. eexists. split; [done|]. split; [|by apply wf_err]. apply shows_err. constructor; try done. unfold code_view. simpl.
    by rewrite bool_decide_false, Eq.
Qed.

(** ** Changing objects *)

Lemma shows_balance o c b : shows o c -> shows (with_balance o b) (set_balance c b).
Proof. intros [S1 S2 S3 S4 S5 S6 S7 S8]. by constructor. Qed.

Lemma shows_nonce o c n : shows o c -> shows (with_nonce o n) (set_nonce c n).
Proof. intros [S1 S2 S3 S4 S5 S6 S7 S8]. by constructor. Qed.

Lemma shows_suicide o c b n : shows o c -> shows (with_balance (with_flags o b (so_touched o) (so_deleted o) (so_onDirty o)) n) (set_suicided c b n).
Proof. intros [S1 S2 S3 S4 S5 S6 S7 S8]. by constructor. Qed.

(** The code in the database for a hash. *)
Definition store_code (a : address) (h : bytes) : option bytes :=
  if bool_decide (h = emptyCodeHash) then None
  else ContractCode db (Keccak256 a) (BytesToHash h).

Lemma shows_code a o c h code : shows o c -> obj_wf a o -> zlen h = 32 -> (code = None -> store_code a h = None) ->
  shows (with_codeHash (with_code o code true) h) (set_code c h code).
Proof.
  intros [S1 S2 S3 S4 S5 S6 S7 S8] [_ Hwf] Hh Hc. constructor; try done. unfold code_view. simpl. destruct code; [done|].
  unfold store_code in Hc. rewrite <- Hwf in Hc. by apply Hc.
Qed.

Lemma shows_no_code a o c : shows o c -> obj_wf a o -> a_code c = None -> store_code a (a_codehash c) = None.
Proof.
  intros [S1 S2 S3 S4 S5 S6 S7 S8] [_ Hwf] Hc. unfold code_view in S6. rewrite Hc, Hwf, S4 in S6. by destruct (so_code o).
Qed.

Lemma shows_storage o c c' k v d : shows o c' -> (forall k', k' <> k -> a_storage c k' = a_storage c' k') -> a_storage c k = v ->
  c = mkAcct (a_nonce c') (a_balance c') (a_codehash c') (a_code c') (a_suicided c') (a_storage c) (a_bytes c') ->
  shows (with_storage o (<[k := v]> (so_cachedStorage o)) d) c.
Proof.
  intros [S1 S2 S3 S4 S5 S6 S7 (f & Hf & Hp & H1 & H2)] Hk Hv ->. constructor; try done. exists f. split; [done|]. split; [done|]. simpl. split; [|done].
  intros k'. destruct (decide (k' = k)) as [->|Hne]; [by rewrite lookup_insert_eq|]. rewrite lookup_insert_ne by done.
  rewrite H1. symmetry. by apply Hk.
Qed.

Lemma shows_bytes o c c' k v d : shows o c' -> (forall k', k' <> k -> a_bytes c k' = a_bytes c' k') -> a_bytes c k = v ->
  c = mkAcct (a_nonce c') (a_balance c') (a_codehash c') (a_code c') (a_suicided c') (a_storage c') (a_bytes c) ->
  shows (with_bytes o (<[k := v]> (so_cachedStorageByteArray o)) d) c.
Proof.
  intros [S1 S2 S3 S4 S5 S6 S7 (f & Hf & Hp & H1 & H2)] Hk Hv ->. constructor; try done. exists f. split; [done|]. split; [done|]. simpl. split; [done|].
  intros k'. destruct (decide (k' = k)) as [->|Hne]; [by rewrite lookup_insert_eq|]. rewrite lookup_insert_ne by done.
  rewrite H2. symmetry. by apply Hk.
Qed.

Lemma shows_fresh a : shows (newObject a zero_account true) fresh.
Proof.
  constructor; try done.
  - apply Keccak256_ok.
  - unfold code_view. simpl. by rewrite bool_decide_true.
  - destruct (open_empty db (Keccak256 a)) as (t & Ht & Hr). exists (fun _ => None). split; [by exists t|]. split; [done|].
    split; intros k; simpl; by rewrite lookup_empty.
Qed.

(** ** Entries of the journal *)

(** An entry leads from every state that shows a world to one that shows the other. *)
Definition undoes (e : journalEntry T) (W' W : world) : Prop :=
  forall s, rep s W' -> exists s', undo (E:=E) e s = Ok s' /\ rep s' W /\ same_log s s'.

(** Entries that change the object of an account. *)
Lemma undoes_live a W' W c c' (f : stateObject T -> stateObject T) :
  off a W' W -> w_accts W' a = Some c' -> w_accts W a = Some c ->
  (forall o, obj_wf a o -> shows o c' -> obj_wf a (f o) /\ shows (f o) c) ->
  forall s, rep s W' -> exists s', with_live (E:=E) a s (fun o => update_object (f o)) = Ok s' /\ rep s' W /\ same_log s s'.
Proof.
  intros Ho Hc' Hc Hf s HR. unfold with_live. destruct (getStateObject_ok a s W' HR) as (o & s1 & -> & HR1 & Hl & Hobj).
  rewrite Hc' in Hobj. destruct Hobj as (obj & -> & Hwf & Hs). cbn [obind]. eexists. split; [done|]. destruct (Hf obj Hwf Hs).
  split; [by eapply rep_update|]. eapply same_log_trans; [exact Hl|apply same_log_update].
Qed.

Lemma undoes_balance a W' W c : off a W' W -> w_accts W a = Some c -> (exists b, w_accts W' a = Some (set_balance c b)) ->
  undoes (balanceChange a (a_balance c)) W' W.
Proof.
  intros Ho Hc [b Hc']. refine (undoes_live a W' W c _ (fun o => with_balance o (a_balance c)) Ho Hc' Hc _). intros o Hwf Hs.
  split; [done|]. apply (shows_balance _ _ (a_balance c)) in Hs. by destruct c.
Qed.

Lemma undoes_nonce a W' W c : off a W' W -> w_accts W a = Some c -> (exists b, w_accts W' a = Some (set_nonce c b)) ->
  undoes (nonceChange a (a_nonce c)) W' W.
Proof.
  intros Ho Hc [b Hc']. refine (undoes_live a W' W c _ (fun o => with_nonce o (a_nonce c)) Ho Hc' Hc _). intros o Hwf Hs.
  split; [done|]. apply (shows_nonce _ _ (a_nonce c)) in Hs. by destruct c.
Qed.

Lemma undoes_storage a W' W c k : off a W' W -> w_accts W a = Some c -> (exists v, w_accts W' a = Some (set_storage c k v)) ->
  undoes (storageChange a k (a_storage c k)) W' W.
Proof.
  intros Ho Hc [v Hc']. refine (undoes_live a W' W c _ (fun o => with_storage o (<[k := a_storage c k]> (so_cachedStorage o)) (<[k := a_storage c k]> (so_dirtyStorage o))) Ho Hc' Hc _).
  intros o Hwf Hs. split; [done|]. eapply shows_storage; [exact Hs| |done|by destruct c]. intros k' Hk. simpl. by rewrite fn_set_ne.
Qed.

Lemma undoes_bytes a W' W c k : off a W' W -> w_accts W a = Some c -> (exists v, w_accts W' a = Some (set_bytes c k v)) ->
  undoes (storageByteArrayChange a k (a_bytes c k)) W' W.
Proof.
  intros Ho Hc [v Hc']. refine (undoes_live a W' W c _ (fun o => with_bytes o (<[k := a_bytes c k]> (so_cachedStorageByteArray o)) (<[k := a_bytes c k]> (so_dirtyStorageByteArray o))) Ho Hc' Hc _).
  intros o Hwf Hs. split; [done|]. eapply shows_bytes; [exact Hs| |done|by destruct c]. intros k' Hk. simpl. by rewrite fn_set_ne.
Qed.

Lemma undoes_code a W' W c : off a W' W -> w_accts W a = Some c -> (exists h code, w_accts W' a = Some (set_code c h code)) ->
  zlen (a_codehash c) = 32 -> (a_code c = None -> store_code a (a_codehash c) = None) ->
  undoes (codeChange a (a_code c) (a_codehash c)) W' W.
Proof.
  intros Ho Hc (h & code & Hc') Hlen Hcode.
  refine (undoes_live a W' W c _ (fun o => with_codeHash (with_code o (a_code c) true) (BytesToHash (a_codehash c))) Ho Hc' Hc _).
  intros o Hwf Hs. split; [done|]. rewrite BytesToHash_id by done.
  apply (shows_code a _ _ (a_codehash c) (a_code c)) in Hs; try done. by destruct c.
Qed.

Lemma undoes_suicide a W' W c : off a W' W -> w_accts W a = Some c -> (exists b n, w_accts W' a = Some (set_suicided c b n)) ->
  undoes (suicideChange a (a_suicided c) (a_balance c)) W' W.
Proof.
  intros Ho Hc (b & n & Hc') s HR. simpl. destruct (getStateObject_ok a s W' HR) as (o & s1 & -> & HR1 & Hl & Hobj).
  rewrite Hc' in Hobj. destruct Hobj as (obj & -> & Hwf & Hs). cbn [obind]. eexists. split; [done|]. split.
  - eapply rep_update; [done|done|exact Hc|done|]. apply (shows_suicide _ _ (a_suicided c) (a_balance c)) in Hs. by destruct c.
  - eapply same_log_trans; [exact Hl|apply same_log_update].
Qed.

Lemma undoes_create a W' W : off a W' W -> w_accts W a = None -> acct_of a = None -> undoes (createObjectChange a) W' W.
Proof.
  intros (O1 & O2 & O3 & O4 & O5 & O6) Hc Ha s [R1 R2 R3 R4 R5 R6 R7 R8 R9]. eexists. split; [done|]. split; [|done].
  constructor; simpl; try congruence.
  - intros b. destruct (decide (b = a)) as [->|Hb]; [rewrite lookup_delete_eq; simpl; by rewrite Ha|].
    rewrite lookup_delete_ne, O1 by done. apply R3.
  - intros h. rewrite O3. apply R5.
Qed.

Lemma undoes_reset a W' W c prev : off a W' W -> w_accts W a = Some c -> obj_wf a prev -> shows prev c -> undoes (resetObjectChange prev) W' W.
Proof. intros Ho Hc Hwf Hs s HR. eexists. split; [done|]. split; [by eapply rep_put|done]. Qed.

Lemma undoes_touch a W c p d : w_accts W a = Some c -> undoes (touchChange a p d) W W.
Proof.
  intros Hc s HR. simpl. destruct (negb p && _); [|by exists s]. unfold with_live.
  destruct (getStateObject_ok a s W HR) as (o & s1 & -> & HR1 & Hl & Hobj). rewrite Hc in Hobj.
  destruct Hobj as (obj & -> & Hwf & Hs). cbn [obind]. eexists. split; [done|].
  assert (HR2 : rep (setStateObject (with_flags obj (so_suicided obj) p (so_deleted obj) (so_onDirty obj)) s1) W).
  { eapply rep_put; [done|apply off_refl|exact Hc|done|]. by apply shows_flags. }
  destruct d; [split; [done|]|split; [|]]; try by destruct Hl as (L1 & L2 & L3); split_and!.
  destruct HR2 as [R1 R2 R3 R4 R5 R6 R7 R8 R9]. by constructor.
Qed.

Lemma undoes_refund W g : undoes (refundChange (w_refund W)) (w_change (OAddRefund g) W) W.
Proof. intros s [R1 R2 R3 R4 R5 R6 R7 R8 R9]. eexists. split; [done|]. split; [by constructor|done]. Qed.

Lemma undoes_preimage W h p : w_preimages W !! h = None -> undoes (addPreimageChange h) (w_change (OAddPreimage h p) W) W.
Proof.
  intros Hp s [R1 R2 R3 R4 R5 R6 R7 R8 R9]. simpl in *. rewrite Hp in *. eexists. split; [done|]. split; [|done]. constructor; try done.
  simpl. rewrite R8. simpl. by apply delete_insert_id.
Qed.

Lemma u64_pred n : is_u64 n -> u64 (u64 (n + 1) - 1) = n.
Proof. unfold is_u64, u64. intros. rewrite Zminus_mod_idemp_l, Z.add_simpl_r. by apply Z.mod_small. Qed.

Lemma undoes_log W l : is_u64 (w_logSize W) -> undoes (addLogChange (w_tx W).1.1) (w_change (OAddLog l) W) W.
Proof.
  intros Hu s [R1 R2 R3 R4 R5 R6 R7 R8 R9]. simpl in *. set (h := (w_tx W).1.1) in *. rewrite R5, fn_set_eq.
  assert (Hlogs : forall h' x, GetLogs h' (with_logs s (match x with [] => delete h (s_logs s) | _ => <[h := x]> (s_logs s) end) (u64 (s_logSize s - 1))) =
    if decide (h' = h) then x else w_logs W h').
  { intros h' x. unfold GetLogs. simpl. destruct (decide (h' = h)) as [->|Hne].
    - destruct x; [by rewrite lookup_delete_eq|by rewrite lookup_insert_eq].
    - transitivity (GetLogs h' s); [|rewrite R5; by apply fn_set_ne]. unfold GetLogs.
      destruct x; [by rewrite lookup_delete_ne|by rewrite lookup_insert_ne]. }
  assert (Hrep : forall x, x = w_logs W h -> rep (with_logs s (match x with [] => delete h (s_logs s) | _ => <[h := x]> (s_logs s) end) (u64 (s_logSize s - 1))) W).
  { intros x ->. constructor; try done.
    - intros h'. rewrite Hlogs. by case_decide; subst.
    - simpl. rewrite R6. by apply u64_pred. }
  specialize (Hrep (w_logs W h) eq_refl). destruct (w_logs W h) as [|l0 ls]; simpl in *.
  - eexists. split; [done|]. by split.
  - destruct (ls ++ [stamped W l]) as [|x xs] eqn:El; [by destruct ls|].
    assert (Hlen : length xs = length ls) by (apply (f_equal length) in El; rewrite length_app in El; simpl in *; lia).
    eexists. split; [done|]. split; [|done]. cbn. rewrite <- El, Hlen. by rewrite take_app_length.
Qed.
End Refine.
