(* ===== verification/StateTheorems.v ===== *)
(** Claims on the state database: it refines the machine with copies. *)
From S2P Require Import Prelude RlpEncode RlpDecode RlpRaw Storage IstanbulTypes ValidatorSet Trie StateDB StateSpec.

Lemma map_reverse {A B} (f : A -> B) l : map f (reverse l) = reverse (map f l).
Proof. exact (fmap_reverse f l). Qed.

Section Refine.
Context `{HCL : CryptoLaws} {D T : Type} `{HT : StateTrie T} `{HD : StateDatabase D T} `{HL : !StateStoreLaws D T} {E : Type}.
Context (db : D) (A : bytes -> option bytes).
Abbreviation rep := (rep db A).
Abbreviation undoes := (undoes (E:=E) db A).

(** ** Runs of the journal *)

(** The entries between two worlds, the oldest first. *)
Inductive chain : world -> list (journalEntry T) -> world -> Prop :=
| chain_nil W : chain W [] W
| chain_cons W e W1 es W' : undoes e W1 W -> chain W1 es W' -> chain W (e :: es) W'.

Lemma chain_app W es W1 es' W' : chain W es W1 -> chain W1 es' W' -> chain W (es ++ es') W'.
Proof. induction 1; [done|]. intros. econstructor; [done|]. auto. Qed.

Lemma chain_one e W W' : undoes e W' W -> chain W [e] W'.
Proof. intros. econstructor; [done|constructor]. Qed.

Lemma undo_all_app es es' (s : StateDB D T) : undo_all (E:=E) (es ++ es') s = let! s := undo_all (E:=E) es s in undo_all (E:=E) es' s.
Proof. revert s. induction es as [|e es IH]; intros s; [done|]. simpl. destruct (undo e s); [|done|done]. apply IH. Qed.

(** Undoing them from the newest to the oldest leads back. *)
Lemma chain_undo W es W' : chain W es W' -> forall s, rep s W' ->
  exists s', undo_all (E:=E) (reverse es) s = Ok s' /\ rep s' W /\ same_log s s'.
Proof.
  induction 1 as [W|W e W1 es W' He _ IH]; intros s HR; [by exists s|]. destruct (IH s HR) as (s1 & E1 & HR1 & Hl1).
  destruct (He s1 HR1) as (s2 & E2 & HR2 & Hl2). exists s2. rewrite reverse_cons, undo_all_app, E1. cbn [obind undo_all]. rewrite E2.
  split_and!; [done|done|by eapply same_log_trans].
Qed.

(** A step from one world to another that the journal records. *)
Definition moves (s : StateDB D T) (W : world) (s' : StateDB D T) (W' : world) : Prop :=
  rep s' W' /\ exists es, s_journal s' = s_journal s ++ es /\ chain W es W' /\
    s_validRevisions s' = s_validRevisions s /\ s_nextRevisionId s' = s_nextRevisionId s.

Lemma moves_trans s W s1 W1 s2 W2 : moves s W s1 W1 -> moves s1 W1 s2 W2 -> moves s W s2 W2.
Proof.
  intros (_ & es & J1 & C1 & V1 & N1) (HR & es' & J2 & C2 & V2 & N2). split; [done|]. exists (es ++ es').
  rewrite J2, J1, app_assoc. split_and!; [done|by eapply chain_app|congruence..].
Qed.

Lemma moves_same s s' W : rep s' W -> same_log s s' -> moves s W s' W.
Proof. intros HR (J & V & N). split; [done|]. exists []. rewrite app_nil_r. split_and!; try done. constructor. Qed.

Lemma moves_one s W s' W' e : rep s' W' -> undoes e W' W -> s_journal s' = s_journal s ++ [e] ->
  s_validRevisions s' = s_validRevisions s -> s_nextRevisionId s' = s_nextRevisionId s -> moves s W s' W'.
Proof. intros HR He J V N. split; [done|]. exists [e]. split_and!; try done. by apply chain_one. Qed.

(** The same for an update of an object after an entry. *)
Lemma moves_update s W W' a o c e : rep s W -> off a W W' -> w_accts W' a = Some c -> obj_wf a o -> shows db o c -> undoes e W' W ->
  moves s W (update_object o (log_change s e)) W'.
Proof.
  intros HR Ho Hc Hwf Hs He. destruct (same_log_update (log_change s e) o) as (J & V & N).
  eapply moves_one; [|exact He|exact J|exact V|exact N]. eapply rep_update; [by apply rep_log|done..].
Qed.

(** ** Operations *)

Lemma w_set_at W a c : w_accts (w_set W a c) a = Some c.
Proof. apply fn_set_eq. Qed.

Lemma createObject_ok a s W c : rep s W -> c = set_balance fresh (a_balance (acct_at W a)) ->
  exists o prev s1, createObject (E:=E) a s = Ok (o, prev, s1) /\ obj_wf a o /\ shows db o fresh /\
    match prev with
    | Some p => w_accts W a = Some (acct_at W a) /\ shows db p (acct_at W a)
    | None => w_accts W a = None
    end /\ moves s W s1 (w_set W a fresh) /\
    (forall p, prev = Some p -> moves s W (setBalance (acc_Balance (so_data p)) o s1) (w_set W a c)).
Proof.
  intros HR ->. destruct (getStateObject_ok (E:=E) db A a s W HR) as (prev & s1 & EG & HR1 & Hl & Hobj).
  unfold createObject. rewrite EG. cbn [obind]. set (e := match prev with None => _ | Some p => _ end).
  set (nw := fired _). assert (Hnw : shows db nw fresh) by (apply shows_flags; exact (shows_nonce db _ _ 0 (shows_fresh db a))).
  set (sf := fire _ s1). assert (HRf : rep sf W) by by apply rep_fire.
  assert (Hlf : same_log s sf) by (eapply same_log_trans; [exact Hl|apply same_log_fire]).
  assert (Hput : forall cc (o : stateObject T), obj_wf a o -> shows db o cc -> undoes e (w_set W a cc) W ->
    moves s W (setStateObject o (log_change sf e)) (w_set W a cc)).
  { intros cc o Hwf Hs He. destruct Hlf as (J & V & N). eapply moves_one; [|exact He|exact (f_equal (fun j => j ++ [e]) J)|exact V|exact N].
    eapply rep_put; [by apply rep_log|apply off_set|apply w_set_at|done|done]. }
  assert (He : forall cc, undoes e (w_set W a cc) W).
  { intros cc. subst e. destruct (w_accts W a) as [c|] eqn:Ec.
    - destruct Hobj as (p & -> & Hwf & Hs). by eapply undoes_reset; [apply off_unset|..].
    - destruct Hobj as [-> Ha]. by apply undoes_create; [apply off_unset|..]. }
  eexists _, _, _. split; [done|]. split; [done|]. split; [done|]. unfold acct_at. destruct (w_accts W a) as [c|] eqn:Ec.
  - destruct Hobj as (p & -> & Hwf & Hs). split; [done|]. split; [by apply Hput|]. intros p' [= <-].
    change (setBalance (acc_Balance (so_data p)) nw (setStateObject nw (log_change sf e))) with
      (setStateObject (fired (with_balance nw (acc_Balance (so_data p)))) (setStateObject nw (log_change sf e))).
    assert (Hs2 : shows db (fired (with_balance nw (acc_Balance (so_data p)))) (set_balance fresh (a_balance c))).
    { apply shows_flags. rewrite (sh_balance _ _ _ Hs). by apply shows_balance. }
    simpl default. destruct (Hput _ (fired (with_balance nw (acc_Balance (so_data p)))) (conj eq_refl eq_refl) Hs2 (He _)) as (HR2 & Hm). split; [|exact Hm].
    eapply (rep_put _ _ _ (w_set W a fresh)); [by apply Hput|..|apply w_set_at|done|done].
    split_and!; try done. intros b Hb. simpl. by rewrite !fn_set_ne.
  - destruct Hobj as [-> Ha]. split; [done|]. split; [by apply Hput|]. done.
Qed.

Lemma GetOrNew_ok a s W : rep s W ->
  exists o s1, GetOrNewStateObject (E:=E) a s = Ok (o, s1) /\ obj_wf a o /\ shows db o (acct_at W a) /\ moves s W s1 (w_touch W a) /\
    w_accts (w_touch W a) a = Some (acct_at W a).
Proof.
  intros HR. destruct (getStateObject_ok (E:=E) db A a s W HR) as (o & s1 & EG & HR1 & Hl & Hobj).
  unfold GetOrNewStateObject, w_touch, acct_at in *. rewrite EG. cbn [obind]. destruct (w_accts W a) as [c|] eqn:Ec.
  - destruct Hobj as (obj & -> & Hwf & Hs). exists obj, s1. split_and!; try done. by apply moves_same.
  - destruct Hobj as [-> Ha]. destruct (createObject_ok a s1 W _ HR1 eq_refl) as (n & p & s2 & -> & Hwf & Hs & _ & Hm & _).
    cbn [obind]. exists n, s2. split_and!; try done; [|apply w_set_at]. by eapply moves_trans; [apply moves_same|].
Qed.

Lemma off_touch a W c : off a (w_touch W a) (w_set W a c).
Proof.
  unfold w_touch. destruct (w_accts W a); [apply off_set|]. split_and!; try done. intros b Hb. simpl. by rewrite !fn_set_ne.
Qed.

Lemma off_touch' a W c : off a (w_set W a c) (w_touch W a).
Proof.
  unfold w_touch. destruct (w_accts W a); [apply off_unset|]. split_and!; try done. intros b Hb. simpl. by rewrite !fn_set_ne.
Qed.

(** An operation that changes the object of an account, creating it when needed. *)
Lemma modify_ok a s W c (f : stateObject T -> StateDB D T -> outcome E (StateDB D T)) : rep s W ->
  (forall o s1, rep s1 (w_touch W a) -> w_accts (w_touch W a) a = Some (acct_at W a) -> obj_wf a o -> shows db o (acct_at W a) ->
    exists o' e, f o s1 = Ok (update_object o' (log_change s1 e)) /\ obj_wf a o' /\ shows db o' c /\ undoes e (w_set W a c) (w_touch W a)) ->
  exists s', (let! (o, s) := GetOrNewStateObject (E:=E) a s in f o s) = Ok s' /\ moves s W s' (w_set W a c).
Proof.
  intros HR Hf. destruct (GetOrNew_ok a s W HR) as (o & s1 & -> & Hwf & Hs & Hm & Ha). cbn [obind].
  destruct (Hf o s1 (proj1 Hm) Ha Hwf Hs) as (o' & e & -> & Hwf' & Hs' & He). eexists. split; [done|]. eapply moves_trans; [exact Hm|].
  eapply moves_update; [apply Hm|apply off_touch|apply w_set_at|done..].
Qed.

Lemma SetBalance_ok a n s W : rep s W -> exists s', SetBalance (E:=E) a n s = Ok s' /\ moves s W s' (w_set W a (set_balance (acct_at W a) n)).
Proof.
  intros HR. apply (modify_ok a s W _ (fun o s => Ok (obj_SetBalance n o s)) HR). intros o s1 HR1 Ha Hwf Hs.
  exists (with_balance o n), (balanceChange a (a_balance (acct_at W a))). split.
  { unfold obj_SetBalance, setBalance. by rewrite (proj1 Hwf), (sh_balance _ _ _ Hs). }
  split; [done|]. split; [by apply shows_balance|]. apply undoes_balance; [apply off_touch'|done|]. eexists. apply w_set_at.
Qed.

Lemma AddBalance_ok a n s W : rep s W -> exists s', AddBalance (E:=E) a n s = Ok s' /\ moves s W s' (w_change (OAddBalance a n) W).
Proof.
  intros HR. unfold AddBalance. simpl w_change. destruct (GetOrNew_ok a s W HR) as (o & s1 & E1 & Hwf & Hs & Hm & Ha).
  unfold obj_AddBalance. destruct (n >? 0) eqn:En.
  - destruct (SetBalance_ok a (a_balance (acct_at W a) + n) s W HR) as (s' & E' & Hm'). exists s'. split; [|done].
    rewrite <- E'. unfold SetBalance. rewrite E1. cbn [obind]. by rewrite (sh_balance _ _ _ Hs).
  - rewrite E1. cbn [obind]. eexists. split; [done|]. destruct (n =? 0); [|done]. destruct (obj_empty o); [|done]. eapply moves_trans; [exact Hm|].
    unfold touch. destruct (same_log_fire (log_change s1 (touchChange (so_address o) (so_touched o) (negb (so_onDirty o)))) o) as (J & V & N).
    eapply moves_one; [|by eapply undoes_touch|rewrite <- (proj1 Hwf); exact J|exact V|exact N].
    eapply rep_put; [apply rep_fire, rep_log, Hm|apply off_refl|exact Ha|done|]. by apply shows_flags.
Qed.

Lemma SubBalance_ok a n s W : rep s W -> exists s', SubBalance (E:=E) a n s = Ok s' /\ moves s W s' (w_change (OSubBalance a n) W).
Proof.
  intros HR. unfold SubBalance. simpl w_change. destruct (GetOrNew_ok a s W HR) as (o & s1 & E1 & Hwf & Hs & Hm & Ha).
  unfold obj_SubBalance. destruct (n >? 0) eqn:En.
  - destruct (SetBalance_ok a (a_balance (acct_at W a) - n) s W HR) as (s' & E' & Hm'). exists s'. split; [|done].
    rewrite <- E'. unfold SetBalance. rewrite E1. cbn [obind]. by rewrite (sh_balance _ _ _ Hs).
  - rewrite E1. cbn [obind]. by eexists.
Qed.

Lemma SetNonce_ok a n s W : rep s W -> exists s', SetNonce (E:=E) a n s = Ok s' /\ moves s W s' (w_set W a (set_nonce (acct_at W a) n)).
Proof.
  intros HR. apply (modify_ok a s W _ (fun o s => Ok (obj_SetNonce n o s)) HR). intros o s1 HR1 Ha Hwf Hs.
  exists (with_nonce o n), (nonceChange a (a_nonce (acct_at W a))). split.
  { unfold obj_SetNonce, setNonce. by rewrite (proj1 Hwf), (sh_nonce _ _ _ Hs). }
  split; [done|]. split; [by apply shows_nonce|]. apply undoes_nonce; [apply off_touch'|done|]. eexists. apply w_set_at.
Qed.

Lemma SetCode_ok a code s W : rep s W ->
  exists s', SetCode (E:=E) a code s = Ok s' /\ moves s W s' (w_change (OSetCode a code) W).
Proof.
  intros HR. apply (modify_ok a s W _ (fun o s => obj_SetCode _ code o s) HR). intros o s1 HR1 Ha Hwf Hs. unfold obj_SetCode.
  rewrite (r_db _ _ _ _ HR1). destruct (obj_Code_ok (E:=E) db a o _ Hs Hwf) as (o' & -> & Hs' & Hwf'). cbn [obind].
  eexists _, _. split; [done|]. split; [done|]. split.
  - eapply shows_code; [exact Hs'|exact Hwf'|apply Keccak256_ok|]. intros ->. unfold store_code. by rewrite bool_decide_true.
  - rewrite (proj1 Hwf'), (sh_codehash _ _ _ Hs'). apply undoes_code; [apply off_touch'|done|eexists _, _; apply w_set_at|apply Hs'|].
    intros. by eapply shows_no_code.
Qed.

Lemma SetState_ok a k v s W : rep s W ->
  exists s', SetState (E:=E) a k v s = Ok s' /\ moves s W s' (w_change (OSetState a k v) W).
Proof.
  intros HR. apply (modify_ok a s W _ (fun o s => obj_SetState k v o s) HR). intros o s1 HR1 Ha Hwf Hs. unfold obj_SetState.
  rewrite (r_db _ _ _ _ HR1). destruct (obj_GetState_ok (E:=E) db a k o _ Hs Hwf) as (o' & -> & Hs' & Hwf'). cbn [obind].
  eexists _, _. split; [done|]. split; [done|]. split.
  - eapply shows_storage; [exact Hs'|intros k' Hk; simpl; by rewrite fn_set_ne|simpl; by rewrite fn_set_eq|done].
  - rewrite (proj1 Hwf'). apply undoes_storage; [apply off_touch'|done|]. eexists. apply w_set_at.
Qed.

Lemma SetStateByteArray_ok a k v s W : rep s W ->
  exists s', SetStateByteArray (E:=E) a k v s = Ok s' /\ moves s W s' (w_change (OSetStateByteArray a k v) W).
Proof.
  intros HR. apply (modify_ok a s W _ (fun o s => obj_SetStateByteArray k v o s) HR). intros o s1 HR1 Ha Hwf Hs. unfold obj_SetStateByteArray.
  rewrite (r_db _ _ _ _ HR1). destruct (obj_GetBytes_ok (E:=E) db a k o _ Hs Hwf) as (o' & -> & Hs' & Hwf'). cbn [obind].
  eexists _, _. split; [done|]. split; [done|]. split.
  - eapply shows_bytes; [exact Hs'|intros k' Hk; simpl; by rewrite fn_set_ne|simpl; by rewrite fn_set_eq|done].
  - rewrite (proj1 Hwf'). apply undoes_bytes; [apply off_touch'|done|]. eexists. apply w_set_at.
Qed.

Lemma Suicide_ok a s W : rep s W ->
  exists s', Suicide (E:=E) a s = Ok (bool_decide (is_Some (w_accts W a)), s') /\ moves s W s' (w_change (OSuicide a) W).
Proof.
  intros HR. destruct (getStateObject_ok (E:=E) db A a s W HR) as (o & s1 & EG & HR1 & Hl & Hobj). unfold Suicide. rewrite EG. cbn [obind]. simpl w_change.
  destruct (w_accts W a) as [c|] eqn:Ec.
  - destruct Hobj as (obj & -> & Hwf & Hs). rewrite bool_decide_true by eauto. eexists. split; [done|].
    eapply moves_trans; [by apply moves_same|]. eapply moves_update; [done|apply off_set|apply w_set_at|done|by apply shows_suicide|].
    rewrite (sh_suicided _ _ _ Hs), (sh_balance _ _ _ Hs). apply undoes_suicide; [apply off_unset|done|]. eexists _, _. apply w_set_at.
  - destruct Hobj as [-> _]. rewrite bool_decide_false by (by intros [? ?]). eexists. split; [done|]. by apply moves_same.
Qed.

Lemma CreateAccount_ok a s W : rep s W -> exists s', CreateAccount (E:=E) a s = Ok s' /\ moves s W s' (w_change (OCreateAccount a) W).
Proof.
  intros HR. destruct (createObject_ok a s W _ HR eq_refl) as (o & prev & s1 & EC & Hwf & Hs & Hp & Hm & Hm'). unfold CreateAccount. rewrite EC.
  cbn [obind]. eexists. split; [done|]. destruct prev as [p|]; [by apply Hm'|]. simpl w_change. unfold acct_at. rewrite Hp. exact Hm.
Qed.

(** ** Reads *)

Lemma read_ok {R} a s W (f : option (stateObject T) -> R) (r : R) : rep s W ->
  (forall o, match w_accts W a with Some c => exists obj, o = Some obj /\ obj_wf a obj /\ shows db obj c | None => o = None end -> f o = r) ->
  exists s', (let! (o, s) := getStateObject (E:=E) a s in Ok (f o, s)) = Ok (r, s') /\ moves s W s' W.
Proof.
  intros HR Hf. destruct (getStateObject_ok (E:=E) db A a s W HR) as (o & s1 & -> & HR1 & Hl & Hobj). cbn [obind]. exists s1.
  split; [|by apply moves_same]. rewrite (Hf o); [done|]. destruct (w_accts W a); [done|]. apply Hobj.
Qed.

(** Reads that keep what they loaded in the object. *)
Lemma load_ok {R} a s W (f : D -> stateObject T -> outcome E (R * stateObject T)) (r0 r : R) : rep s W ->
  match w_accts W a with
  | Some c => forall o, obj_wf a o -> shows db o c -> exists o', f db o = Ok (r, o') /\ shows db o' c /\ obj_wf a o'
  | None => r0 = r
  end ->
  exists s', (let! (o, s) := getStateObject (E:=E) a s in
    match o with Some o => let! (v, o) := f (s_db s) o in Ok (v, setStateObject o s) | None => Ok (r0, s) end) = Ok (r, s') /\ moves s W s' W.
Proof.
  intros HR Hf. destruct (getStateObject_ok (E:=E) db A a s W HR) as (o & s1 & -> & HR1 & Hl & Hobj). cbn [obind].
  destruct (w_accts W a) as [c|] eqn:Ec.
  - destruct Hobj as (obj & -> & Hwf & Hs). rewrite (r_db _ _ _ _ HR1). destruct (Hf obj Hwf Hs) as (o' & -> & Hs' & Hwf'). cbn [obind].
    eexists. split; [done|]. apply moves_same; [|done]. eapply rep_put; [done|apply off_refl|exact Ec|done|done].
  - destruct Hobj as [-> _]. rewrite Hf. eexists. split; [done|]. by apply moves_same.
Qed.

(** ** Snapshots *)

(** Snapshots and the entries between them, the newest first; [hi] is where the
    entries up to world [W] end. *)
Fixpoint linked (j : list (journalEntry T)) (hi : nat) (W : world) (rs : list revision) (ss : list (Z * world)) : Prop :=
  match rs, ss with
  | [], [] => True
  | r :: rs, (id, V) :: ss =>
      rev_id r = id /\ (rev_journalIndex r <= hi)%nat /\ chain V (drop (rev_journalIndex r) (take hi j)) W /\
      linked j (rev_journalIndex r) V rs ss
  | _, _ => False
  end.

Lemma linked_prefix j j' : forall rs ss hi W, take hi j = take hi j' -> linked j hi W rs ss -> linked j' hi W rs ss.
Proof.
  induction rs as [|r rs IH]; intros [|[id V] ss] hi W Hj; simpl; try done. intros (H1 & H2 & H3 & H4). rewrite <- Hj. split_and!; try done.
  eapply IH; [|exact H4]. apply (f_equal (take (rev_journalIndex r))) in Hj. by rewrite !take_take, !Nat.min_l in Hj by done.
Qed.

Lemma linked_more j es W W' rs ss : linked j (length j) W rs ss -> chain W es W' -> linked (j ++ es) (length (j ++ es)) W' rs ss.
Proof.
  destruct rs as [|r rs], ss as [|[id V] ss]; simpl; try done. intros (H1 & H2 & H3 & H4) Hc. split_and!; [done|rewrite length_app; lia|..].
  - rewrite firstn_all in *. rewrite drop_app_le by done. by eapply chain_app.
  - eapply linked_prefix; [|exact H4]. by rewrite take_app_le.
Qed.

Lemma linked_ids j : forall rs ss hi W, linked j hi W rs ss -> map fst ss = map rev_id rs.
Proof. induction rs as [|r rs IH]; intros [|[id V] ss] hi W; simpl; try done. intros (H1 & _ & _ & H4). f_equal; [done|]. by eapply IH. Qed.

Lemma linked_find j r rs2 : forall rs1 ss hi W, linked j hi W (rs1 ++ r :: rs2) ss -> (hi <= length j)%nat ->
  exists ss1 V ss2, ss = ss1 ++ (rev_id r, V) :: ss2 /\ (rev_journalIndex r <= hi)%nat /\
    chain V (drop (rev_journalIndex r) (take hi j)) W /\ linked j (rev_journalIndex r) V rs2 ss2.
Proof.
  induction rs1 as [|r1 rs1 IH]; intros [|[id V] ss] hi W; simpl; try done; intros (H1 & H2 & H3 & H4) Hhi.
  - exists [], V, ss. by subst id.
  - destruct (IH ss _ V H4 ltac:(lia)) as (ss1 & V2 & ss2 & -> & H5 & H6 & H7). exists ((id, V) :: ss1), V2, ss2. split_and!; try done; [lia|].
    rewrite <- (take_drop (rev_journalIndex r1) (take hi j)), take_take, Nat.min_l by done.
    rewrite drop_app_le by (rewrite length_take; lia). by eapply chain_app.
Qed.

Lemma Search_loop_ok f n : (forall i k, (i <= k)%nat -> f i = true -> f k = true) -> forall fuel i j,
  (j - i <= fuel)%nat -> (i <= j <= n)%nat -> (forall k, (k < i)%nat -> f k = false) -> (forall k, (j <= k < n)%nat -> f k = true) ->
  let r := Search_loop fuel f i j in (r <= n)%nat /\ (forall k, (k < r)%nat -> f k = false) /\ (forall k, (r <= k < n)%nat -> f k = true).
Proof.
  intros Hm. induction fuel as [|fuel IH]; intros i j Hf Hij Hi Hj; cbn [Search_loop]; cbv zeta.
  { replace j with i in * by lia. by split_and!; [lia|..]. }
  destruct (Nat.ltb_spec i j) as [Hlt|Hge]; [|replace j with i in * by lia; by split_and!; [lia|..]].
  set (h := ((i + j) / 2)%nat).
  assert (Hh : (i <= h < j)%nat) by (subst h; split; [apply Nat.div_le_lower_bound; lia|apply Nat.Div0.div_lt_upper_bound; lia]).
  clearbody h. destruct (f h) eqn:Eh; cbn [negb].
  - apply IH; try done; [lia|lia|]. intros k Hk. by apply (Hm h); [lia|].
  - apply IH; try done; [lia|lia|]. intros k Hk. destruct (f k) eqn:Ek; [|done]. rewrite (Hm k h) in Eh; [done|lia|done].
Qed.

Definition rev_test (revs : list revision) (id : Z) (i : nat) : bool := match revs !! i with Some r => rev_id r >=? id | None => true end.

Lemma sorted_lookup revs : StronglySorted Z.lt (map rev_id revs) -> forall i k ri rk, (i < k)%nat -> revs !! i = Some ri -> revs !! k = Some rk ->
  rev_id ri < rev_id rk.
Proof.
  intros Hs. remember (map rev_id revs) as ids eqn:Ei. revert revs Ei.
  induction Hs as [|x ids _ IH Hf]; intros [|r revs] [=] i k ri rk Hik Hi Hk; [done|]. subst. destruct k as [|k]; [lia|]. simpl in Hk.
  destruct i as [|i]; simpl in Hi.
  - injection Hi as ->. rewrite Forall_forall in Hf. apply Hf. apply list_elem_of_lookup. exists k. by rewrite list_lookup_fmap, Hk.
  - by eapply IH; [done|apply Nat.succ_lt_mono, Hik|..].
Qed.

Lemma Search_revs revs id : StronglySorted Z.lt (map rev_id revs) ->
  let idx := sort_Search (length revs) (rev_test revs id) in
  (forall k r, (k < idx)%nat -> revs !! k = Some r -> rev_id r < id) /\ (forall r, revs !! idx = Some r -> id <= rev_id r).
Proof.
  intros Hs. simpl. unfold sort_Search.
  destruct (Search_loop_ok (rev_test revs id) (length revs)) with (fuel := length revs) (i := 0%nat) (j := length revs) as (H1 & H2 & H3); try lia.
  - intros i k Hik. unfold rev_test. destruct (revs !! k) as [rk|] eqn:Ek; [|done]. pose proof (lookup_lt_Some _ _ _ Ek).
    destruct (revs !! i) as [ri|] eqn:Ei; [|apply lookup_ge_None in Ei; lia]. rewrite !Z.geb_leb, !Z.leb_le.
    destruct (decide (i = k)) as [->|]; [rewrite Ei in Ek; injection Ek as ->; lia|].
    pose proof (sorted_lookup revs Hs i k ri rk ltac:(lia) Ei Ek). lia.
  - set (idx := Search_loop _ _ _ _) in *. clearbody idx. split.
    + intros k r Hk Er. specialize (H2 k Hk). unfold rev_test in H2. rewrite Er, Z.geb_leb in H2. by apply Z.leb_gt in H2.
    + intros r Er. specialize (H3 _ (conj (Nat.le_refl _) (lookup_lt_Some _ _ _ Er))). unfold rev_test in H3. rewrite Er, Z.geb_leb in H3.
      by apply Z.leb_le in H3.
Qed.

Lemma split_at_id_none id ss : id ∉ map fst ss -> split_at_id id ss = None.
Proof.
  induction ss as [|[i V] ss IH]; [done|]. simpl. intros Hni. apply not_elem_of_cons in Hni as [H1 H2].
  rewrite (proj2 (Z.eqb_neq _ _)) by congruence. by rewrite IH.
Qed.

Lemma split_at_id_some id V ss1 ss2 : id ∉ map fst ss1 -> split_at_id id (ss1 ++ (id, V) :: ss2) = Some (ss1, V).
Proof.
  induction ss1 as [|[i U] ss IH]; simpl; intros Hni; [by rewrite Z.eqb_refl|]. apply not_elem_of_cons in Hni as [H1 H2].
  rewrite (proj2 (Z.eqb_neq _ _)) by congruence. by rewrite IH.
Qed.

(** ** The refinement *)

Record inv (s : StateDB D T) (m : machine) : Prop := {
  i_rep : rep s (m_world m);
  i_linked : linked (s_journal s) (length (s_journal s)) (m_world m) (reverse (s_validRevisions s)) (reverse (m_snaps m));
  i_sorted : StronglySorted Z.lt (map rev_id (s_validRevisions s));
  i_below : Forall (fun r => rev_id r < s_nextRevisionId s) (s_validRevisions s);
  i_next : m_next m = s_nextRevisionId s
}.

Lemma moves_inv s m s' W' : inv s m -> moves s (m_world m) s' W' -> inv s' (mkMachine W' (m_snaps m) (m_next m)).
Proof.
  intros [I1 I2 I3 I4 I5] (HR & es & J & C & V & N). constructor; simpl; [done|..]; rewrite ?V, ?N; try done.
  rewrite J. by eapply linked_more.
Qed.

Lemma Snapshot_inv s m : inv s m -> inv (Snapshot s).2 (mkMachine (m_world m) (m_snaps m ++ [(m_next m, m_world m)]) (m_next m + 1)).
Proof.
  intros [I1 I2 I3 I4 I5]. constructor; simpl; [|..|by rewrite I5].
  - destruct I1 as [R1 R2 R3 R4 R5 R6 R7 R8 R9]. by constructor.
  - rewrite !reverse_app. simpl. split_and!; [done|done|rewrite firstn_all, drop_all; constructor|]. done.
  - rewrite map_app. simpl. apply StronglySorted_app; split_and!; [|done|repeat constructor].
    intros x y Hx Hy. apply list_elem_of_singleton in Hy as ->. apply list_elem_of_fmap in Hx as (r & -> & Hr). rewrite Forall_forall in I4. by apply I4.
  - apply Forall_app. split; [|repeat constructor; simpl; lia]. eapply Forall_impl; [exact I4|]. simpl. lia.
Qed.

Lemma Revert_inv s m id : inv s m ->
  match split_at_id id (m_snaps m) with
  | Some (before, V) => exists s', RevertToSnapshot (E:=E) id s = Ok s' /\ inv s' (mkMachine V before (m_next m))
  | None => RevertToSnapshot (E:=E) id s = Panic
  end.
Proof.
  intros [I1 I2 I3 I4 I5]. unfold RevertToSnapshot. set (idx := sort_Search _ _).
  destruct (Search_revs (s_validRevisions s) id I3) as [H1 H2]. change (sort_Search _ _) with idx in H1, H2.
  assert (Hids : map fst (m_snaps m) = map rev_id (s_validRevisions s)).
  { apply linked_ids in I2. rewrite !map_reverse in I2. apply (f_equal reverse) in I2. by rewrite !reverse_involutive in I2. }
  destruct (s_validRevisions s !! idx) as [r|] eqn:Er.
  2: { rewrite split_at_id_none; [done|]. rewrite Hids. intros Hin. apply list_elem_of_fmap in Hin as (r & -> & Hr).
       apply list_elem_of_lookup in Hr as [k Hk]. apply lookup_ge_None in Er. pose proof (lookup_lt_Some _ _ _ Hk).
       specialize (H1 k r ltac:(lia) Hk). lia. }
  specialize (H2 r eq_refl). destruct (Z.eqb_spec (rev_id r) id) as [Eid|Hne]; simpl.
  2: { rewrite split_at_id_none; [done|]. rewrite Hids. intros Hin. apply list_elem_of_fmap in Hin as (r' & -> & Hr).
       apply list_elem_of_lookup in Hr as [k Hk]. destruct (decide (k < idx)%nat); [specialize (H1 k r' ltac:(lia) Hk); lia|].
       destruct (decide (k = idx)) as [->|]; [rewrite Er in Hk; injection Hk as ->; done|].
       pose proof (sorted_lookup _ I3 idx k r r' ltac:(lia) Er Hk). lia. }
  pose proof (take_drop_middle _ _ _ Er) as Erevs. rewrite <- Erevs, reverse_app, reverse_cons, <- app_assoc in I2. simpl in I2.
  destruct (linked_find _ r _ _ _ _ _ I2 (Nat.le_refl _)) as (ss1 & V & ss2 & Ess & Hle & Hc & Hl). rewrite firstn_all in Hc.
  apply (f_equal reverse) in Ess. rewrite reverse_involutive, reverse_app, reverse_cons, <- app_assoc in Ess. simpl in Ess.
  rewrite Ess, Eid, split_at_id_some.
  2: { apply linked_ids in Hl. rewrite map_reverse, Hl, map_reverse, reverse_involutive. intros Hin. apply list_elem_of_fmap in Hin as (r' & E' & Hr).
       apply list_elem_of_lookup in Hr as [k Hk]. apply lookup_take_Some in Hk as [Hk Hlt]. specialize (H1 k r' Hlt Hk). lia. }
  destruct (chain_undo _ _ _ Hc s I1) as (s' & -> & HR & J & VR & N). cbn [obind]. eexists. split; [done|]. constructor; simpl.
  - destruct HR as [R1 R2 R3 R4 R5 R6 R7 R8 R9]. by constructor.
  - rewrite J, VR, length_take, Nat.min_l, reverse_involutive by done. eapply linked_prefix; [|exact Hl]. by rewrite take_take, Nat.min_l.
  - rewrite VR. rewrite <- Erevs, map_app in I3. by apply StronglySorted_app in I3 as (_ & I3 & _).
  - rewrite VR, N. by apply Forall_take.
  - by rewrite N.
Qed.

(** One step, whatever the operation. *)
Lemma step_ok s m op : inv s m ->
  match m_step m op with
  | Some (r, m') => exists s', state_step (E:=E) s op = Ok (r, s') /\ inv s' m'
  | None => state_step (E:=E) s op = Panic
  end.
Proof.
  intros Hi. pose proof (i_rep _ _ Hi) as HR.
  assert (Hmut : forall r f W', (exists s', f s = Ok s' /\ moves s (m_world m) s' W') ->
    exists s', (let! s' := f s in Ok (r, s') : outcome E (state_res * StateDB D T)) = Ok (r, s') /\ inv s' (mkMachine W' (m_snaps m) (m_next m))).
  { intros r f W' (s' & -> & Hm). exists s'. split; [done|]. by eapply moves_inv. }
  assert (Hget : forall R (f : StateDB D T -> outcome E (R * StateDB D T)) (g : R -> state_res) r W',
    (exists s', f s = Ok (r, s') /\ moves s (m_world m) s' W') ->
    exists s', (let! (x, s') := f s in Ok (g x, s')) = Ok (g r, s') /\ inv s' (mkMachine W' (m_snaps m) (m_next m))).
  { intros R f g r W' (s' & -> & Hm). exists s'. split; [done|]. by eapply moves_inv. }
  assert (Hone : forall s' W' e, rep s' W' -> undoes e W' (m_world m) -> s_journal s' = s_journal s ++ [e] ->
    s_validRevisions s' = s_validRevisions s -> s_nextRevisionId s' = s_nextRevisionId s -> inv s' (mkMachine W' (m_snaps m) (m_next m))).
  { intros. eapply moves_inv; [done|]. by eapply moves_one. }
  pose proof HR as [R1 R2 R3 R4 R5 R6 R7 R8 R9].
  destruct op; cbn [m_step state_step].
  - by apply Hmut, AddBalance_ok.
  - by apply Hmut, SubBalance_ok.
  - by apply Hmut, SetBalance_ok.
  - by apply Hmut, SetNonce_ok.
  - by apply Hmut, SetCode_ok.
  - by apply Hmut, SetState_ok.
  - by apply Hmut, SetStateByteArray_ok.
  - by apply (Hget _ _ RBool), Suicide_ok.
  - by apply Hmut, CreateAccount_ok.
  - eexists. split; [done|]. assert (Eh : s_thash s = (w_tx (m_world m)).1.1) by by rewrite <- R9.
    eapply (Hone _ _ (addLogChange (s_thash s))); [|rewrite Eh; by apply undoes_log|done..]. constructor; try done.
    + intros h. unfold GetLogs, AddLog. simpl. rewrite Eh. unfold fn_set. destruct (decide (h = _)) as [->|Hne].
      * rewrite lookup_insert_eq. simpl. rewrite <- Eh. specialize (R5 (s_thash s)). unfold GetLogs in R5. rewrite R5. unfold stamped. by rewrite <- R9, R6.
      * rewrite lookup_insert_ne by done. apply R5.
    + simpl. by rewrite R6.
    + simpl. unfold is_u64, u64. apply Z.mod_pos_bound. lia.
  - unfold AddPreimage. destruct (s_preimages s !! h) as [q|] eqn:Eq.
    + eexists. split; [done|]. rewrite R8 in Eq. cbn [w_change]. rewrite Eq. by destruct m.
    + eexists. split; [done|]. rewrite R8 in Eq. eapply Hone; [|by apply (undoes_preimage _ _ _ _ p)|done..].
      cbn [w_change]. rewrite Eq. constructor; try done. simpl. by rewrite R8.
  - eexists. split; [done|]. eapply (Hone _ _ (refundChange (s_refund s))); [|rewrite R4; apply undoes_refund|done..].
    constructor; try done. simpl. by rewrite R4.
  - eexists. split; [rewrite (i_next _ _ Hi); done|]. apply (Snapshot_inv s m Hi).
  - pose proof (Revert_inv s m id Hi) as Hr. destruct (split_at_id id (m_snaps m)) as [[before V]|]; [|by rewrite Hr].
    destruct Hr as (s' & -> & Hi'). by exists s'.
  - apply (Hget _ _ RBool). eapply (read_ok a s (m_world m)); [done|]. intros o. destruct (w_accts (m_world m) a).
    + intros (obj & -> & _). by rewrite bool_decide_true by eauto.
    + intros ->. by rewrite bool_decide_false by (by intros [? ?]).
  - apply (Hget _ _ RZ). eapply (read_ok a s (m_world m)); [done|]. intros o. destruct (w_accts (m_world m) a); [|by intros ->].
    intros (obj & -> & _ & Hs). apply (sh_balance _ _ _ Hs).
  - apply (Hget _ _ RZ). eapply (read_ok a s (m_world m)); [done|]. intros o. destruct (w_accts (m_world m) a); [|by intros ->].
    intros (obj & -> & _ & Hs). apply (sh_nonce _ _ _ Hs).
  - apply (Hget _ _ ROption). apply (load_ok a s (m_world m) (fun db => obj_Code db)); [done|]. destruct (w_accts (m_world m) a); [|done].
    intros o Hwf Hs. by apply obj_Code_ok.
  - apply (Hget _ _ RBytes). eapply (read_ok a s (m_world m)); [done|]. intros o. destruct (w_accts (m_world m) a); [|by intros ->].
    intros (obj & -> & _ & Hs). rewrite (sh_codehash _ _ _ Hs). apply BytesToHash_id, Hs.
  - apply (Hget _ _ RBytes). apply (load_ok a s (m_world m) (fun db => obj_GetState db k)); [done|]. destruct (w_accts (m_world m) a); [|done].
    intros o Hwf Hs. by apply obj_GetState_ok.
  - apply (Hget _ _ RBytes). apply (load_ok a s (m_world m) (fun db => obj_GetStateByteArray db k)); [done|]. destruct (w_accts (m_world m) a); [|done].
    intros o Hwf Hs. by apply obj_GetBytes_ok.
  - apply (Hget _ _ RBool). eapply (read_ok a s (m_world m)); [done|]. intros o. destruct (w_accts (m_world m) a); [|by intros ->].
    intros (obj & -> & _ & Hs). apply (sh_suicided _ _ _ Hs).
  - exists s. cbn [w_answer]. rewrite <- R4. split; [done|]. by destruct m.
  - exists s. cbn [w_answer]. rewrite <- R5. split; [done|]. by destruct m.
Qed.

(** ** Claims *)

Fixpoint state_run (s : StateDB D T) (ops : list state_op) : outcome E (list state_res * StateDB D T) :=
  match ops with
  | [] => Ok ([], s)
  | op :: ops => let! (r, s) := state_step s op in let! (rs, s) := state_run s ops in Ok (r :: rs, s)
  end.

Fixpoint m_run (m : machine) (ops : list state_op) : option (list state_res * machine) :=
  match ops with
  | [] => Some ([], m)
  | op :: ops =>
      match m_step m op with
      | Some (r, m) => match m_run m ops with Some (rs, m) => Some (r :: rs, m) | None => None end
      | None => None
      end
  end.

Lemma run_ok ops : forall s m, inv s m ->
  match m_run m ops with
  | Some (rs, m') => exists s', state_run s ops = Ok (rs, s') /\ inv s' m'
  | None => state_run s ops = Panic
  end.
Proof.
  induction ops as [|op ops IH]; intros s m Hi; simpl; [by exists s|]. pose proof (step_ok s m op Hi) as Hs.
  destruct (m_step m op) as [[r m1]|]; [|by rewrite Hs]. destruct Hs as (s1 & -> & Hi1). cbn [obind]. specialize (IH s1 m1 Hi1).
  destruct (m_run m1 ops) as [[rs m2]|]; [|by rewrite IH]. destruct IH as (s2 & -> & Hi2). by exists s2.
Qed.

(** The accounts of a trie whose storage tries are readable. *)
Definition healthy (stored : address -> bytes -> option bytes) : Prop :=
  forall a data, acct_of A a = Some data -> zlen (acc_CodeHash data) = 32 /\
    exists t, OpenStorageTrie db (Keccak256 a) (acc_Root data) = Ok t /\ tr_rep t (stored a) /\ forall k, slot_value (stored a k) <> Panic.

Definition loaded (stored : address -> bytes -> option bytes) (a : address) : option acct :=
  match acct_of A a with
  | Some data => Some (mkAcct (acc_Nonce data) (acc_Balance data) (acc_CodeHash data) (store_code db a (acc_CodeHash data)) false
                   (fun k => slot_view (stored a k)) (fun k => default [] (stored a k)))
  | None => None
  end.

Definition first_world stored : world := mkWorld (loaded stored) 0 (fun _ => []) 0 ∅ (zero_hash, zero_hash, 0).

Lemma New_inv stored root t : OpenTrie db root = Ok t -> tr_rep t A -> healthy stored ->
  exists s, state_New root db = Ok s /\ inv s (mkMachine (first_world stored) [] 0).
Proof.
  intros Ho Ht Hh. unfold state_New. rewrite Ho. cbn [obind]. eexists. split; [done|]. constructor; simpl; try done; [|constructor].
  constructor; simpl; try done. intros a. rewrite lookup_empty. unfold cell, loaded. destruct (acct_of A a) as [data|] eqn:Ea; [|done].
  destruct (Hh a data Ea) as (H1 & ts & H2 & H3 & H4). eexists. split; [done|]. constructor; try done. exists (stored a). split; [by exists ts|]. split; [done|].
  split; intros k; simpl; by rewrite lookup_empty.
Qed.


(** Operations that leave a snapshot alone. *)
Definition keeps (id : Z) (op : state_op) : Prop := match op with ORevert i => id < i | _ => True end.

Lemma split_at_id_skip id snaps rest : Forall (fun p : Z * world => p.1 < id) snaps ->
  split_at_id id (snaps ++ rest) = match split_at_id id rest with Some (b, U) => Some (snaps ++ b, U) | None => None end.
Proof.
  induction 1 as [|[i X] snaps Hi _ IH]; simpl in *; [by destruct (split_at_id id rest) as [[b U]|]|].
  rewrite (proj2 (Z.eqb_neq _ _)), IH by lia. by destruct (split_at_id id rest) as [[b U]|].
Qed.

Lemma m_step_keeps m op r m' id W snaps later : m_step m op = Some (r, m') -> keeps id op -> m_snaps m = snaps ++ (id, W) :: later ->
  Forall (fun p => p.1 < id) snaps -> id < m_next m -> exists later', m_snaps m' = snaps ++ (id, W) :: later' /\ id < m_next m'.
Proof.
  intros Hs Hk Es Hlt Hid. destruct op; simpl in Hs; try (injection Hs as <- <-; by exists later).
  - injection Hs as <- <-. simpl. exists (later ++ [(m_next m, m_world m)]). rewrite Es, <- app_assoc. split; [done|lia].
  - simpl in Hk. rewrite Es, split_at_id_skip in Hs by (eapply Forall_impl; [exact Hlt|]; simpl; lia). simpl in Hs.
    rewrite (proj2 (Z.eqb_neq _ _)) in Hs by lia. destruct (split_at_id id0 later) as [[b U]|]; [|done]. injection Hs as <- <-. by exists b.
Qed.

Lemma m_run_keeps id W snaps ops : forall m rs m' later, m_run m ops = Some (rs, m') -> Forall (keeps id) ops -> m_snaps m = snaps ++ (id, W) :: later ->
  Forall (fun p => p.1 < id) snaps -> id < m_next m -> exists later', m_snaps m' = snaps ++ (id, W) :: later'.
Proof.
  induction ops as [|op ops IH]; intros m rs m' later Hr Hk Es Hlt Hid; simpl in Hr; [injection Hr as <- <-; by exists later|].
  inversion_clear Hk as [|? ? Hk1 Hk2]. destruct (m_step m op) as [[r m1]|] eqn:E1; [|done].
  destruct (m_run m1 ops) as [[rs1 m2]|] eqn:E2; [|done]. injection Hr as <- <-.
  destruct (m_step_keeps _ _ _ _ _ _ _ _ E1 Hk1 Es Hlt Hid) as (later1 & Es1 & Hid1). by eapply IH.
Qed.

End Refine.
