(* ===== verification/SecureTrie.v ===== *)
(** Tries with hashed keys and the database of the state:
    [trie/secure_trie.go] and [core/state/database.go].

    [SecureTrie] and [cachingDB] implement the interfaces that the state
    database is proved against. *)
From S2P Require Import Prelude RlpEncode Storage IstanbulTypes ValidatorSet KeccakCrypto TrieNode Trie TrieTree TrieRep TrieTheorems TrieRoot StateDB StateSpec.

(** The cache of key preimages belongs to one trie: a copy starts its own. *)
Record SecureTrie (DB : Type) := mkSecure {
  sec_trie : Trie DB;
  sec_KeyCache : gmap bytes bytes;
  sec_owner : bool
}.
Arguments mkSecure {DB}.
Arguments sec_trie {DB}.
Arguments sec_KeyCache {DB}.
Arguments sec_owner {DB}.

(** The bytes of "secure-key-". *)
Definition secureKeyPrefix : bytes := [115; 101; 99; 117; 114; 101; 45; 107; 101; 121; 45].

Section Secure.
Context `{HC : Crypto} {DB : Type} `{HDB : Database DB}.
Implicit Types t : SecureTrie DB.

Definition NewSecure (root : hash) (db : DB) (cachelimit : Z) : outcome trie_err (SecureTrie DB) :=
  let! trie := Trie_New root (Some db) in Ok (mkSecure (SetCacheLimit trie cachelimit) ∅ false).

Definition hashKey (key : bytes) : bytes := Keccak256 key.
Definition secKey (key : bytes) : bytes := secureKeyPrefix ++ key.

Definition getSecKeyCache t : gmap bytes bytes := if sec_owner t then sec_KeyCache t else ∅.

Definition sec_TryGet t (key : bytes) : outcome trie_err (option bytes * SecureTrie DB) :=
  let! (v, trie) := TryGet (sec_trie t) (hashKey key) in Ok (v, mkSecure trie (sec_KeyCache t) (sec_owner t)).

Definition sec_TryUpdate t (key value : bytes) : outcome trie_err (SecureTrie DB) :=
  let hk := hashKey key in
  let! trie := TryUpdate (sec_trie t) hk value in
  Ok (mkSecure trie (<[hk := key]> (getSecKeyCache t)) true).

(** The cached preimage of the key is forgotten; after a failed deletion no trie
    is returned, so the cache it leaves is not part of the model. *)
Definition sec_TryDelete t (key : bytes) : outcome trie_err (SecureTrie DB) :=
  let hk := hashKey key in
  let cache := delete hk (getSecKeyCache t) in
  let! trie := TryDelete (sec_trie t) hk in Ok (mkSecure trie cache true).

Definition sec_Get t (key : bytes) : outcome trie_err (option bytes * SecureTrie DB) :=
  match sec_TryGet t key with Err _ => Ok (None, t) | r => r end.
Definition sec_Update t (key value : bytes) : outcome trie_err (SecureTrie DB) :=
  match sec_TryUpdate t key value with Err _ => Ok t | r => r end.
Definition sec_Delete t (key : bytes) : outcome trie_err (SecureTrie DB) :=
  match sec_TryDelete t key with Err _ => Ok t | r => r end.

Definition GetKey t (shaKey : bytes) : option bytes :=
  match getSecKeyCache t !! shaKey with
  | Some key => Some key
  | None => match t_db (sec_trie t) with Some db => db_Get (secKey shaKey) db | None => None end
  end.

Definition sec_Hash t : outcome trie_err (hash * SecureTrie DB) :=
  let! (h, trie) := Trie_Hash (sec_trie t) in Ok (h, mkSecure trie (sec_KeyCache t) (sec_owner t)).

(** A copy does not own the cache. *)
Definition sec_Copy t : SecureTrie DB := mkSecure (sec_trie t) (sec_KeyCache t) false.

(** Writing the preimages, in any order. *)
Fixpoint put_keys (keys : list (bytes * bytes)) (db : DB) : option DB :=
  match keys with
  | [] => Some db
  | (hk, key) :: keys => match db_Put (secKey hk) key db with Some db => put_keys keys db | None => None end
  end.

(** [CommitTo]: the preimages, then the nodes. *)
Definition sec_CommitTo `{GoRange} t (db : DB) : outcome trie_err (hash * SecureTrie DB) * option DB :=
  let cache := getSecKeyCache t in
  match put_keys (go_range (map_to_list cache)) db with
  | None => (Err PutError, None)
  | Some db =>
      match CommitTo (sec_trie t) db with
      | (Ok (h, trie), db) => (Ok (h, mkSecure trie ∅ true), db)
      | (Err e, db) => (Err e, db)
      | (Panic, db) => (Panic, db)
      end
  end.

#[export] Instance secure_StateTrie : StateTrie (SecureTrie DB) := {|
  tr_TryGet := sec_TryGet;
  tr_TryUpdate := sec_TryUpdate;
  tr_TryDelete := sec_TryDelete;
  tr_Hash := sec_Hash
|}.

(** ** The database of the state *)

Definition MaxTrieCacheGen : Z := 120.
Definition maxPastTries : nat := 12.

(** The cache of code sizes only remembers lengths and is left out. *)
Record cachingDB := mkCachingDB { cdb_db : DB; cdb_pastTries : list (SecureTrie DB) }.

Definition NewDatabase (db : DB) : cachingDB := mkCachingDB db [].

(** The newest past trie with the root. *)
Fixpoint find_trie (root : hash) (tries : list (SecureTrie DB)) : outcome trie_err (option (SecureTrie DB)) :=
  match tries with
  | [] => Ok None
  | t :: tries => let! (h, _) := sec_Hash t in if bool_decide (h = root) then Ok (Some (sec_Copy t)) else find_trie root tries
  end.

Definition cdb_OpenTrie (db : cachingDB) (root : hash) : outcome trie_err (SecureTrie DB) :=
  let! found := find_trie root (reverse (cdb_pastTries db)) in
  match found with Some t => Ok t | None => NewSecure root (cdb_db db) MaxTrieCacheGen end.

Definition pushTrie (t : SecureTrie DB) (db : cachingDB) : cachingDB :=
  mkCachingDB (cdb_db db)
    ((if (maxPastTries <=? length (cdb_pastTries db))%nat then drop 1 (cdb_pastTries db) else cdb_pastTries db) ++ [t]).

Definition cdb_OpenStorageTrie (db : cachingDB) (addrHash root : hash) : outcome trie_err (SecureTrie DB) := NewSecure root (cdb_db db) 0.

Definition cdb_ContractCode (db : cachingDB) (addrHash codeHash : hash) : option bytes := db_Get codeHash (cdb_db db).
Definition cdb_ContractCodeSize (db : cachingDB) (addrHash codeHash : hash) : option Z := zlen <$> cdb_ContractCode db addrHash codeHash.

#[export] Instance caching_StateDatabase : StateDatabase cachingDB (SecureTrie DB) := {|
  OpenTrie := cdb_OpenTrie;
  OpenStorageTrie := cdb_OpenStorageTrie;
  ContractCode := cdb_ContractCode;
  ContractCodeSize := cdb_ContractCodeSize
|}.
End Secure.
Arguments cachingDB DB : clear implicits.

(** ** What a secure trie promises *)

Section Laws.
Context `{HCL : CryptoLaws} {DB : Type} `{HDB : Database DB}.

Definition sec_rep (t : SecureTrie DB) (f : bytes -> option bytes) : Prop :=
  exists m, trie_rep (sec_trie t) m /\ forall k, f k = m !! Keccak256 k.

Lemma hash_key_ok k : key_ok (Keccak256 k).
Proof. destruct (Keccak256_ok k) as [H1 H2]. split; [done|]. rewrite H2. done. Qed.

Lemma sec_TryGet_ok t f k : sec_rep t f -> exists t', sec_TryGet t k = Ok (f k, t') /\ sec_rep t' f.
Proof.
  intros (m & Hm & Hf). unfold sec_TryGet, hashKey. destruct (TryGet_refines _ m (Keccak256 k) Hm (hash_key_ok k)) as (T' & -> & Hr). simpl.
  rewrite <- Hf. eexists. split; [done|]. by exists m.
Qed.

Lemma trie_rep_limit (T : Trie DB) m l : trie_rep T m -> trie_rep (SetCacheLimit T l) m.
Proof. by intros (t & Hc & Hm & Hr); exists t. Qed.

Lemma NewSecure_ok root (db : DB) l T m : Trie_New root (Some db) = Ok T -> trie_rep T m ->
  exists t, NewSecure root db l = Ok t /\ sec_rep t (fun k => m !! Keccak256 k).
Proof. intros E Hr. unfold NewSecure. rewrite E. simpl. eexists. split; [done|]. exists m. split; [by apply trie_rep_limit|done]. Qed.

Lemma nil_trie_rep (db : option DB) root g l : trie_rep (mkTrie nilNode db root g l) ∅.
Proof.
  exists TNil. split_and!; [by left| |constructor]. split; [by intros k v ?%lookup_empty_Some|].
  intros key v. split; [by intros ?%has_nil_inv|]. intros (k & _ & E). by rewrite lookup_empty in E.
Qed.

#[export] Instance secure_laws : StateStoreLaws (cachingDB DB) (SecureTrie DB).
Proof.
  refine {| tr_rep := sec_rep |}.
  - apply sec_TryGet_ok.
  - intros db ah. destruct (NewSecure_ok zero_hash (cdb_db db) 0 (mkTrie nilNode (Some (cdb_db db)) zero_hash 0 0) ∅ eq_refl (nil_trie_rep _ _ _ _))
      as (t & E & m & Hm & Hf).
    exists t. split; [done|]. exists m. split; [done|]. intros k. by rewrite <- Hf, lookup_empty.
Defined.
End Laws.
