(* ===== verification/StateCommit.v ===== *)
(** Writing the state to its tries: [Finalise], [IntermediateRoot], [CommitTo]
    and [Copy] of [core/state/statedb.go] with [updateTrie], [CommitTrie] and
    [deepCopy] of [core/state/state_object.go]. *)
From S2P Require Import Prelude RlpEncode Storage IstanbulTypes ValidatorSet Trie StateDB.

(** A trie that can be written to a database. *)
Class StateTrieCommit (T W : Type) := {
  tr_CommitTo : T -> W -> outcome trie_err (hash * T) * option W;
  w_Put : bytes -> bytes -> W -> option W
}.

Section Commit.
Context `{HC : Crypto} {D T : Type} `{HT : StateTrie T} `{HD : StateDatabase D T} `{HR : GoRange} {E : Type}.
Implicit Types (o : stateObject T) (s : StateDB D T).

(** [bytes.TrimLeft] of zero bytes. *)
Fixpoint trim_zeros (b : bytes) : bytes := match b with 0 :: b' => trim_zeros b' | _ => b end.

(** A write to the storage trie; its error is remembered. *)
Definition try_write (r : outcome trie_err T) (t : T) o : outcome E (T * stateObject T) :=
  match r with
  | Ok t' => Ok (t', o)
  | Err e => Ok (t, obj_setError (TrieError e) o)
  | Panic => Panic
  end.

(** The entry of the trie for a slot. *)
Definition slot_entry (value : hash) : bytes := match EncodeToBytes (VBytes (trim_zeros value)) with Ok v => v | _ => [] end.

Fixpoint write_slots (slots : list (hash * hash)) (t : T) o : outcome E (T * stateObject T) :=
  match slots with
  | [] => Ok (t, o)
  | (key, value) :: slots =>
      let! (t, o) :=
        if bool_decide (value = zero_hash) then try_write (tr_TryDelete t key) t o
        else try_write (tr_TryUpdate t key (slot_entry value)) t o in
      write_slots slots t o
  end.

Fixpoint write_arrays (slots : list (hash * bytes)) (t : T) o : outcome E (T * stateObject T) :=
  match slots with
  | [] => Ok (t, o)
  | (key, value) :: slots =>
      let! (t, o) :=
        if (length value =? 0)%nat then try_write (tr_TryDelete t key) t o else try_write (tr_TryUpdate t key value) t o in
      write_arrays slots t o
  end.

(** [updateTrie]: the dirty slots, then the dirty byte arrays; nothing is dirty after it. *)
Definition updateTrie (db : D) o : outcome E (T * stateObject T) :=
  let! (t, o) := getTrie db o in
  let! (t, o) := write_slots (go_range (map_to_list (so_dirtyStorage o))) t o in
  let! (t, o) := write_arrays (go_range (map_to_list (so_dirtyStorageByteArray o))) t o in
  Ok (t, with_oTrie (with_bytes (with_storage o (so_cachedStorage o) ∅) (so_cachedStorageByteArray o) ∅) (Some t)).

(** A failing hash is not returned by the trie. *)
Definition hash_of_trie (t : T) : outcome E (hash * T) :=
  match tr_Hash t with Ok r => Ok r | _ => Panic end.

Definition updateRoot (db : D) o : outcome E (stateObject T) :=
  let! (t, o) := updateTrie db o in
  let! (h, t) := hash_of_trie t in
  Ok (with_root (with_oTrie o (Some t)) h).

(** A write to the account trie. *)
Definition write_account (r : outcome trie_err T) s : outcome E (StateDB D T) :=
  match r with
  | Ok t => Ok (with_trie s t)
  | Err e => Ok (setError (TrieError e) s)
  | Panic => Panic
  end.

(** An account that cannot be encoded panics. *)
Definition updateStateObject o s : outcome E (StateDB D T) :=
  match EncodeToBytes (Account_value (so_data o)) with
  | Ok data => write_account (tr_TryUpdate (s_trie s) (so_address o) data) s
  | _ => Panic
  end.

Definition deleteStateObject o s : outcome E (StateDB D T) :=
  let o := with_flags o (so_suicided o) (so_touched o) true (so_onDirty o) in
  write_account (tr_TryDelete (s_trie s) (so_address o)) (setStateObject o s).

(** The body of the loop of [Finalise]; a dirty address without an object is a nil pointer. *)
Definition finalise_object (deleteEmptyObjects : bool) (addr : address) s : outcome E (StateDB D T) :=
  match s_stateObjects s !! addr with
  | None => Panic
  | Some o =>
      if so_suicided o || (deleteEmptyObjects && obj_empty o) then deleteStateObject o s
      else
        let! o := updateRoot (s_db s) o in
        updateStateObject o (setStateObject o s)
  end.

Fixpoint finalise_loop (deleteEmptyObjects : bool) (addrs : list address) s : outcome E (StateDB D T) :=
  match addrs with
  | [] => Ok s
  | a :: addrs => let! s := finalise_object deleteEmptyObjects a s in finalise_loop deleteEmptyObjects addrs s
  end.

Definition Finalise (deleteEmptyObjects : bool) s : outcome E (StateDB D T) :=
  let! s := finalise_loop deleteEmptyObjects (go_range (elements (s_stateObjectsDirty s))) s in
  Ok (clearJournalAndRefund s).

Definition IntermediateRoot (deleteEmptyObjects : bool) s : outcome E (hash * StateDB D T) :=
  let! s := Finalise deleteEmptyObjects s in
  let! (h, t) := hash_of_trie (s_trie s) in
  Ok (h, with_trie s t).

(** [DeleteSuicides]: nothing is dirty after it. *)
Fixpoint delete_suicides (addrs : list address) s : outcome E (StateDB D T) :=
  match addrs with
  | [] => Ok s
  | a :: addrs =>
      match s_stateObjects s !! a with
      | None => Panic
      | Some o =>
          let s := if so_suicided o then setStateObject (with_flags o true (so_touched o) true (so_onDirty o)) s else s in
          delete_suicides addrs (with_objects s (s_stateObjects s) (s_stateObjectsDirty s ∖ {[a]}))
      end
  end.

Definition DeleteSuicides s : outcome E (StateDB D T) :=
  let s := clearJournalAndRefund s in delete_suicides (go_range (elements (s_stateObjectsDirty s))) s.

(** ** Copies *)

(** [deepCopy]: the cache of the slots is the dirty slots. *)
Definition deepCopy o (onDirty : bool) : stateObject T :=
  mkObject (so_address o) (Keccak256 (so_address o)) (so_data o) None (so_trie o) (so_code o) (so_dirtyStorage o) (so_dirtyStorage o)
    (so_cachedStorageByteArray o) (so_dirtyStorageByteArray o) (so_dirtyCode o) (so_suicided o) false (so_deleted o) onDirty.

(** [StorageTrie]: a copy with the changes written. *)
Definition StorageTrie (a : address) s : outcome E (option T * StateDB D T) :=
  let! (o, s) := getStateObject a s in
  match o with
  | None => Ok (None, s)
  | Some o => let! (t, _) := updateTrie (s_db s) (deepCopy o false) in Ok (Some t, s)
  end.

Fixpoint copy_objects (addrs : list address) s (m : gmap address (stateObject T)) : outcome E (gmap address (stateObject T)) :=
  match addrs with
  | [] => Ok m
  | a :: addrs =>
      match s_stateObjects s !! a with
      | None => Panic
      | Some o => copy_objects addrs s (<[a := deepCopy o true]> m)
      end
  end.

(** [Copy]: the dirty objects, the refund, the logs and the preimages; the journal is empty. *)
Definition Copy s : outcome E (StateDB D T) :=
  let! m := copy_objects (go_range (elements (s_stateObjectsDirty s))) s ∅ in
  Ok (mkState (s_db s) (s_trie s) m (s_stateObjectsDirty s) None (s_refund s) zero_hash zero_hash 0 (s_logs s) (s_logSize s) (s_preimages s) [] [] 0).

(** ** Commits *)

Section To.
Context {W : Type} `{HW : StateTrieCommit T W}.

(** An error that was remembered, or one of the database. *)
Inductive commit_err := RememberedError (e : state_err) | WriteError | CommitError (e : trie_err).

(** [CommitTrie]: the root changes only when all nodes were written. *)
Definition CommitTrie (db : D) (dbw : W) o : outcome commit_err (stateObject T * W) :=
  match updateTrie db o with
  | Ok (t, o) =>
      match so_dbErr o with
      | Some e => Err (RememberedError e)
      | None =>
          match tr_CommitTo t dbw with
          | (Ok (root, t), Some dbw) => Ok (with_root (with_oTrie o (Some t)) root, dbw)
          | (Err e, _) => Err (CommitError e)
          | _ => Panic
          end
      end
  | _ => Panic
  end.

(** The body of the loop of [CommitTo] for an object. *)
Definition commit_object (deleteEmptyObjects : bool) (addr : address) (dbw : W) s : outcome commit_err (StateDB D T * W) :=
  match s_stateObjects s !! addr with
  | None => Ok (s, dbw)
  | Some o =>
      let isDirty := bool_decide (addr ∈ s_stateObjectsDirty s) in
      let! (s, dbw) :=
        if so_suicided o || (isDirty && deleteEmptyObjects && obj_empty o) then
          match deleteStateObject o s with Ok s => Ok (s, dbw) | _ => Panic end
        else if isDirty then
          let! (o, dbw) :=
            match so_code o with
            | Some code =>
                if so_dirtyCode o then
                  match w_Put (acc_CodeHash (so_data o)) code dbw with
                  | Some dbw => Ok (with_code o (so_code o) false, dbw)
                  | None => Err WriteError
                  end
                else Ok (o, dbw)
            | None => Ok (o, dbw)
            end in
          let! (o, dbw) := CommitTrie (s_db s) dbw o in
          match updateStateObject o (setStateObject o s) with Ok s => Ok (s, dbw) | _ => Panic end
        else Ok (s, dbw) in
      Ok (with_objects s (s_stateObjects s) (s_stateObjectsDirty s ∖ {[addr]}), dbw)
  end.

Fixpoint commit_loop (deleteEmptyObjects : bool) (addrs : list address) (dbw : W) s : outcome commit_err (StateDB D T * W) :=
  match addrs with
  | [] => Ok (s, dbw)
  | a :: addrs => let! (s, dbw) := commit_object deleteEmptyObjects a dbw s in commit_loop deleteEmptyObjects addrs dbw s
  end.

(** [CommitTo] over all live objects, then the account trie. *)
Definition state_CommitTo (deleteEmptyObjects : bool) (dbw : W) s : outcome commit_err (hash * StateDB D T * W) :=
  let! (s, dbw) := commit_loop deleteEmptyObjects (go_range (map fst (map_to_list (s_stateObjects s)))) dbw s in
  match tr_CommitTo (s_trie s) dbw with
  | (Ok (root, t), Some dbw) => Ok (root, clearJournalAndRefund (with_trie s t), dbw)
  | (Err e, _) => Err (CommitError e)
  | _ => Panic
  end.
End To.
End Commit.
