(* ===== verification/StateFinalise.v ===== *)
(** What [Finalise] writes: the encodings of accounts and slots, and the entries
    of the tries afterwards. *)
From S2P Require Import Prelude RlpEncode RlpDecode RlpCodec RlpTheorems RlpRaw Storage IstanbulTypes ValidatorSet TrieRep Trie TrieTheorems TrieRoot StateDB StateSpec SecureTrie StateCommit.

(** ** Encodings *)

Definition account_ok (d : Account) : Prop :=
  is_u64 (acc_Nonce d) /\ 0 <= acc_Balance d /\ is_hash (acc_Root d) /\ bytes_ok (acc_CodeHash d).

Definition acct_enc (d : Account) : bytes := rlp_enc (Account_value d).

Lemma account_decodes : decodes acct_enc Account_DecodeRLP account_ok.
Proof.
  pose proof (decodes_iso _ _ _
    (fun a : Z * (Z * (hash * (bytes * unit))) => mkAccount a.1 a.2.1 a.2.2.1 a.2.2.2.1)
    (fun d => (acc_Nonce d, (acc_Balance d, (acc_Root d, (acc_CodeHash d, tt)))))
    account_ok
    (struct_decodes _ _ _
      (field_cons_decodes _ _ _ _ _ _ (codec_decodes _ _ _ uint64_codec)
      (field_cons_decodes _ _ _ _ _ _ (codec_decodes _ _ _ bigInt_codec)
      (field_cons_decodes _ _ _ _ _ _ (codec_decodes _ _ _ (byteArray_codec HashLength ltac:(done)))
      (field_cons_decodes _ _ _ _ _ _ (codec_decodes _ _ _ byteSlice_codec)
       field_nil_decodes)))))) as D.
  intros d s r st Hd Hi Hp Hst Hf. destruct (D ltac:(by intros [] ?; unfold account_ok, is_hash in *; simpl in *; tauto) d s r st)
    as (s' & E & A); auto.
  exists s'. split; [|done]. revert E. unfold Account_DecodeRLP, sbind.
  destruct (makeStructDecoder _ s) as [[e|(n & b & h & c & u)] s1]; done.
Qed.

Lemma account_value_ok d : account_ok d -> value_ok (Account_value d).
Proof. intros (? & ? & [? ?] & ?). apply ok_struct. by repeat (constructor; [first [done|by constructor]|]). Qed.

(** An account survives the account trie. *)
Lemma account_roundtrip d : account_ok d -> zlen (acct_enc d) < 2 ^ 56 ->
  EncodeToBytes (Account_value d) = Ok (acct_enc d) /\ DecodeBytes Account_DecodeRLP (acct_enc d) = Ok d /\
  bytes_ok (acct_enc d) /\ 0 < zlen (acct_enc d).
Proof.
  intros Hd Hz. pose proof (account_value_ok d Hd) as Hv. assert (zlen (acct_enc d) < 2 ^ 64) by lia.
  split; [by apply EncodeToBytes_ref|]. assert (Hb : bytes_ok (acct_enc d)) by by apply rlp_enc_ok.
  split; [by apply (DecodeBytes_decodes _ _ _ d account_decodes)|]. split; [done|].
  unfold acct_enc, Account_value. simpl. match goal with |- 0 < zlen (rlp_list ?p) => pose proof (zlen_rlp_list_ge p); unfold zlen in *; lia end.
Qed.

Lemma trim_zeros_spec v : exists n, v = replicate n 0 ++ trim_zeros v.
Proof.
  induction v as [|x v [n IH]]; [by exists 0%nat|]. simpl. destruct x as [|p|p]; [|by exists 0%nat|by exists 0%nat].
  exists (S n). simpl. by f_equal.
Qed.

Lemma trim_zeros_nil v : trim_zeros v = [] -> v = replicate (length v) 0.
Proof. intros E. destruct (trim_zeros_spec v) as [n Hn]. rewrite E, app_nil_r in Hn. rewrite Hn at 2. by rewrite length_replicate. Qed.

(** A slot survives the storage trie: leading zeros are dropped and come back. *)
Lemma slot_roundtrip v : is_hash v -> v <> zero_hash ->
  slot_value (Some (slot_entry v)) = Ok (v, None) /\ bytes_ok (slot_entry v) /\ 0 < zlen (slot_entry v) < 2 ^ 56.
Proof.
  intros [Hb Hl] Hnz. unfold HashLength in Hl. destruct (trim_zeros_spec v) as [n Hn].
  assert (Ht : bytes_ok (trim_zeros v)) by (rewrite Hn in Hb; by apply Forall_app in Hb as [_ Hb]).
  assert (Hlen : Z.of_nat n + zlen (trim_zeros v) = 32) by (rewrite Hn in Hl; unfold zlen in *; rewrite length_app, length_replicate in Hl; lia).
  assert (Hpos : 0 < zlen (trim_zeros v)).
  { destruct (trim_zeros v) as [|x t] eqn:Et; [|unfold zlen; simpl; lia]. destruct Hnz. rewrite (trim_zeros_nil v Et). unfold zero_hash.
    f_equal. unfold zlen in Hl. lia. }
  assert (Hv : value_ok (VBytes (trim_zeros v))) by by constructor.
  pose proof (rlp_str_len (trim_zeros v) ltac:(lia)) as Hsl. pose proof (zlen_rlp_str_ge (trim_zeros v)) as Hge.
  unfold slot_entry. rewrite EncodeToBytes_ref by (done || (simpl; lia)). simpl rlp_enc.
  assert (Hok : bytes_ok (rlp_str (trim_zeros v))) by (apply rlp_str_ok; [done|lia]).
  split; [|split; [done|lia]]. unfold slot_value. destruct (Split_str (trim_zeros v) []) as (k & E & _); [rewrite app_nil_r; split; [done|lia]|].
  rewrite app_nil_r in E. destruct (rlp_str (trim_zeros v)) as [|b enc]; [unfold zlen in *; simpl in *; lia|]. rewrite E. do 2 f_equal.
  unfold BytesToHash, HashLength. rewrite Z.gtb_ltb, (proj2 (Z.ltb_ge _ _)) by lia.
  replace (Z.to_nat (32 - zlen (trim_zeros v))) with n by lia. done.
Qed.

(** ** Tries as maps *)

(** What [Finalise] relies on: writes to a trie are writes to a map, under the keys
    the trie uses, and the root hash is one of the map. *)
Class StateTrieMaps (T : Type) `{StateTrie T} := {
  tr_key : bytes -> bytes;
  tr_map : T -> gmap bytes bytes -> Prop;
  tr_root : gmap bytes bytes -> hash -> Prop;
  tm_update t m k v : tr_map t m -> bytes_ok v -> 0 < zlen v < 2 ^ 56 ->
    exists t', tr_TryUpdate t k v = Ok t' /\ tr_map t' (<[tr_key k := v]> m);
  tm_delete t m k : tr_map t m -> exists t', tr_TryDelete t k = Ok t' /\ tr_map t' (delete (tr_key k) m);
  tm_hash t m : tr_map t m -> exists h t', tr_Hash t = Ok (h, t') /\ is_hash h /\ tr_root m h /\ tr_map t' m
}.

Section Writes.
Context `{HC : Crypto} {D T : Type} `{HT : StateTrie T} `{HD : StateDatabase D T} `{HM : !StateTrieMaps T} `{HR : GoRangeLaws} {E : Type}.

(** Entries to write; [None] deletes. *)
Definition put_entry (m : gmap bytes bytes) (e : bytes * option bytes) : gmap bytes bytes :=
  match e.2 with Some v => <[tr_key e.1 := v]> m | None => delete (tr_key e.1) m end.
Definition put_entries (es : list (bytes * option bytes)) (m : gmap bytes bytes) : gmap bytes bytes := fold_left put_entry es m.

Definition slot_change (p : hash * hash) : bytes * option bytes := (p.1, if bool_decide (p.2 = zero_hash) then None else Some (slot_entry p.2)).
Definition array_change (p : hash * bytes) : bytes * option bytes := (p.1, if (length p.2 =? 0)%nat then None else Some p.2).

Lemma write_slots_ok (o : stateObject T) slots : forall t m, tr_map t m -> Forall (fun p => is_hash p.2) slots ->
  exists t', write_slots (E:=E) slots t o = Ok (t', o) /\ tr_map t' (put_entries (map slot_change slots) m).
Proof.
  induction slots as [|[k v] slots IH]; intros t m Ht Hv; [by exists t|]. inversion_clear Hv as [|? ? Hv1 Hv2]. simpl in Hv1. cbn [write_slots map].
  unfold put_entries. simpl fold_left. unfold put_entry at 2, slot_change. simpl. case_bool_decide as Hz.
  - destruct (tm_delete t m k Ht) as (t1 & -> & Ht1). cbn. by apply IH.
  - destruct (slot_roundtrip v Hv1 Hz) as (_ & Hb & Hl). destruct (tm_update t m k (slot_entry v) Ht Hb Hl) as (t1 & -> & Ht1). cbn. by apply IH.
Qed.

Lemma write_arrays_ok (o : stateObject T) slots : forall t m, tr_map t m -> Forall (fun p => bytes_ok p.2 /\ zlen p.2 < 2 ^ 56) slots ->
  exists t', write_arrays (E:=E) slots t o = Ok (t', o) /\ tr_map t' (put_entries (map array_change slots) m).
Proof.
  induction slots as [|[k v] slots IH]; intros t m Ht Hv; [by exists t|]. inversion_clear Hv as [|? ? [Hv1 Hv1'] Hv2]. simpl in Hv1, Hv1'. cbn [write_arrays map].
  unfold put_entries. simpl fold_left. unfold put_entry at 2, array_change. simpl. destruct (Nat.eqb_spec (length v) 0) as [Hz|Hz].
  - destruct (tm_delete t m k Ht) as (t1 & -> & Ht1). cbn. by apply IH.
  - destruct (tm_update t m k v Ht Hv1 ltac:(unfold zlen in *; lia)) as (t1 & -> & Ht1). cbn. by apply IH.
Qed.

(** Keys that the trie keeps apart. *)
Context (K : bytes -> Prop) (K_inj : forall a b, K a -> K b -> tr_key a = tr_key b -> a = b).

Lemma put_entries_lookup es : forall m k, NoDup (map fst es) -> Forall (fun e => K e.1) es -> K k ->
  put_entries es m !! tr_key k = match list_to_map (M:=gmap bytes (option bytes)) es !! k with Some e => e | None => m !! tr_key k end.
Proof.
  induction es as [|[k0 e] es IH]; intros m k Hn HK Hk; [done|]. inversion_clear Hn as [|? ? Hni Hn']. inversion_clear HK as [|? ? Hk0 HK'].
  simpl in Hk0. change (put_entries ((k0, e) :: es) m) with (put_entries es (put_entry m (k0, e))). rewrite IH by done. simpl.
  destruct (decide (k = k0)) as [->|Hne].
  - rewrite lookup_insert_eq. rewrite not_elem_of_list_to_map_1 by exact Hni. unfold put_entry. simpl. destruct e; [apply lookup_insert_eq|apply lookup_delete_eq].
  - rewrite lookup_insert_ne by done. destruct (list_to_map es !! k); [done|]. unfold put_entry. simpl.
    assert (tr_key k0 <> tr_key k) by (intros E0; apply Hne; symmetry; by apply K_inj).
    destruct e; [by apply lookup_insert_ne|by apply lookup_delete_ne].
Qed.

(** The changes of a dirty map, in the order of the range. *)
Lemma range_changes {V} (f : bytes * V -> bytes * option bytes) (g : V -> option bytes) (d : gmap bytes V) k m :
  (forall p, f p = (p.1, g p.2)) -> (forall k, is_Some (d !! k) -> K k) -> K k ->
  put_entries (map f (go_range (map_to_list d))) m !! tr_key k = match d !! k with Some v => g v | None => m !! tr_key k end.
Proof.
  intros Hf Hd Hk. set (l := go_range (map_to_list d)). assert (Hp : l ≡ₚ map_to_list d) by apply go_range_perm.
  assert (El : map f l = (fun p => (p.1, g p.2)) <$> l) by (apply map_ext; apply Hf).
  assert (Hfst : map fst (map f l) = map fst l) by (rewrite map_map; apply map_ext; intros p; by rewrite Hf).
  assert (Hn : NoDup (map fst l)) by (rewrite Hp; apply NoDup_fst_map_to_list).
  assert (HL : list_to_map (M:=gmap bytes (option bytes)) (map f l) !! k = g <$> d !! k).
  { rewrite El. replace (d !! k) with (list_to_map (M:=gmap bytes V) l !! k).
    - clear. induction l as [|[k' v] l IH]; [done|]. simpl. destruct (decide (k = k')) as [->|]; [by rewrite !lookup_insert_eq|by rewrite !lookup_insert_ne].
    - rewrite (list_to_map_proper l (map_to_list d)) by done. by rewrite list_to_map_to_list. }
  rewrite put_entries_lookup, HL; [by destruct (d !! k)|by rewrite Hfst| |done].
  rewrite El. apply Forall_fmap, Forall_forall. intros [k' v] Hin. simpl. apply Hd. rewrite Hp in Hin. apply elem_of_map_to_list in Hin. eauto.
Qed.

(** ** Objects *)

Definition obj_map (db : D) (o : stateObject T) (m : gmap bytes bytes) : Prop :=
  match so_trie o with
  | Some t => tr_map t m
  | None => exists t, OpenStorageTrie db (so_addrHash o) (acc_Root (so_data o)) = Ok t /\ tr_map t m
  end.

(** What a slot of the storage trie holds after the dirty slots and arrays were written. *)
Definition slot_after (o : stateObject T) (m : gmap bytes bytes) (k : bytes) : option bytes :=
  match so_dirtyStorageByteArray o !! k with
  | Some v => if (length v =? 0)%nat then None else Some v
  | None =>
      match so_dirtyStorage o !! k with
      | Some v => if bool_decide (v = zero_hash) then None else Some (slot_entry v)
      | None => m !! tr_key k
      end
  end.

(** An object whose account and slots can be written. *)
Record obj_ready (db : D) (a : address) (o : stateObject T) (m : gmap bytes bytes) : Prop := {
  rd_addr : so_address o = a;
  rd_map : obj_map db o m;
  rd_slots : forall k v, so_dirtyStorage o !! k = Some v -> K k /\ is_hash v;
  rd_arrays : forall k v, so_dirtyStorageByteArray o !! k = Some v -> K k /\ bytes_ok v /\ zlen v < 2 ^ 56;
  rd_account : forall h, is_hash h -> account_ok (so_data (with_root o h)) /\ zlen (acct_enc (so_data (with_root o h))) < 2 ^ 56
}.

Lemma getTrie_map db o m : obj_map db o m -> exists t, getTrie (E:=E) db o = Ok (t, with_oTrie o (Some t)) /\ tr_map t m.
Proof.
  unfold obj_map, getTrie. destruct (so_trie o) as [t|] eqn:Et.
  - intros Ht. exists t. split; [|done]. do 2 f_equal. destruct o. simpl in *. by rewrite Et.
  - intros (t & -> & Ht). by exists t.
Qed.

Lemma updateRoot_ok db a o m : obj_ready db a o m -> exists o' h m', updateRoot (E:=E) db o = Ok o' /\ so_address o' = a /\
  so_data o' = so_data (with_root o h) /\ is_hash h /\ tr_root m' h /\ forall k, K k -> m' !! tr_key k = slot_after o m k.
Proof.
  intros [R1 R2 R3 R4 R5]. destruct (getTrie_map db o m R2) as (t & EG & Ht). unfold updateRoot, updateTrie. rewrite EG. cbn [obind].
  set (ls := go_range (map_to_list (so_dirtyStorage o))). set (la := go_range (map_to_list (so_dirtyStorageByteArray o))).
  destruct (write_slots_ok (with_oTrie o (Some t)) ls t m Ht) as (t1 & E1 & Ht1).
  { apply Forall_forall. intros [k v] Hin. unfold ls in Hin. rewrite go_range_perm in Hin. apply elem_of_map_to_list in Hin. by apply (R3 k). }
  change (so_dirtyStorage (with_oTrie o (Some t))) with (so_dirtyStorage o). fold ls. rewrite E1. cbn [obind].
  destruct (write_arrays_ok (with_oTrie o (Some t)) la t1 _ Ht1) as (t2 & E2 & Ht2).
  { apply Forall_forall. intros [k v] Hin. unfold la in Hin. rewrite go_range_perm in Hin. apply elem_of_map_to_list in Hin. by apply (R4 k). }
  change (so_dirtyStorageByteArray (with_oTrie o (Some t))) with (so_dirtyStorageByteArray o). fold la. rewrite E2. cbn [obind].
  destruct (tm_hash t2 _ Ht2) as (h & t3 & EH & Hh & Hr & Ht3). unfold hash_of_trie. rewrite EH. cbn [obind]. eexists _, h, _. split; [done|].
  split_and!; try done. intros k Hk. unfold la, ls. rewrite (range_changes array_change (fun v => if (length v =? 0)%nat then None else Some v)); [|done| |done].
  - rewrite (range_changes slot_change (fun v => if bool_decide (v = zero_hash) then None else Some (slot_entry v))); [done|done| |done].
    intros k' [v Hv]. by apply (R3 k' v).
  - intros k' [v Hv]. by apply (R4 k' v).
Qed.

(** ** The account trie *)

(** The entry of an account after [Finalise]. *)
Definition final_entry (del : bool) (o : stateObject T) (m : gmap bytes bytes) (e : option bytes) : Prop :=
  if so_suicided o || (del && obj_empty o) then e = None
  else exists h m', e = Some (acct_enc (so_data (with_root o h))) /\ is_hash h /\ tr_root m' h /\
    forall k, K k -> m' !! tr_key k = slot_after o m k.

Lemma finalise_object_ok del a s o m ma : tr_map (s_trie s) ma -> s_stateObjects s !! a = Some o -> obj_ready (s_db s) a o m ->
  exists s' e o', finalise_object (E:=E) del a s = Ok s' /\ tr_map (s_trie s') (put_entry ma (a, e)) /\ final_entry del o m e /\
    s_stateObjects s' = <[a := o']> (s_stateObjects s) /\ s_db s' = s_db s /\ s_stateObjectsDirty s' = s_stateObjectsDirty s.
Proof.
  intros Ht Eo Hr. unfold finalise_object, final_entry. rewrite Eo. destruct (so_suicided o || (del && obj_empty o)).
  - unfold deleteStateObject. simpl. rewrite (rd_addr _ _ _ _ Hr). destruct (tm_delete (s_trie s) ma a Ht) as (t & -> & Ht'). simpl.
    eexists _, None, _. split_and!; [done|done|done|simpl; by rewrite (rd_addr _ _ _ _ Hr)|done|done].
  - destruct (updateRoot_ok (s_db s) a o m Hr) as (o' & h & m' & EU & Ha & Hd & Hh & Hroot & Hm). rewrite EU. cbn [obind].
    unfold updateStateObject. rewrite Hd, Ha. destruct (rd_account _ _ _ _ Hr h Hh) as [Hok Hz].
    destruct (account_roundtrip _ Hok Hz) as (-> & _ & Hb & Hpos). cbn [s_trie setStateObject with_objects].
    destruct (tm_update (s_trie s) ma a _ Ht Hb ltac:(split; [exact Hpos|exact Hz])) as (t & -> & Ht'). simpl.
    eexists _, (Some _), o'. split_and!; [done|exact Ht'| |simpl; by rewrite Ha|done|done]. exists h, m'. by split_and!.
Qed.

Lemma finalise_loop_ok del addrs : forall s ma (ms : address -> gmap bytes bytes), tr_map (s_trie s) ma -> NoDup addrs ->
  (forall a, a ∈ addrs -> exists o, s_stateObjects s !! a = Some o /\ obj_ready (s_db s) a o (ms a)) ->
  exists s' es, finalise_loop (E:=E) del addrs s = Ok s' /\ tr_map (s_trie s') (put_entries es ma) /\ map fst es = addrs /\
    (forall a e, (a, e) ∈ es -> exists o, s_stateObjects s !! a = Some o /\ final_entry del o (ms a) e) /\
    s_stateObjectsDirty s' = s_stateObjectsDirty s.
Proof.
  induction addrs as [|a addrs IH]; intros s ma ms Ht Hn Hall; [exists s, []; split_and!; try done; by intros ? ? ?%elem_of_nil|].
  inversion_clear Hn as [|? ? Hni Hn']. destruct (Hall a ltac:(constructor)) as (o & Eo & Hr).
  destruct (finalise_object_ok del a s o (ms a) ma Ht Eo Hr) as (s1 & e & o' & E1 & Ht1 & He & Hobj & Hdb & Hdirty).
  destruct (IH s1 _ ms Ht1 Hn') as (s2 & es & E2 & Ht2 & Hfst & Hes & Hd2).
  { intros b Hb. destruct (Hall b ltac:(by right)) as (ob & Eb & Hrb). exists ob. rewrite Hobj, Hdb. split; [|done].
    rewrite lookup_insert_ne; [done|congruence]. }
  exists s2, ((a, e) :: es). cbn [finalise_loop]. rewrite E1. cbn [obind]. split_and!; [done|done|simpl; by f_equal| |congruence].
  intros b f [[= -> ->]|Hin]%elem_of_cons; [eauto|]. destruct (Hes b f Hin) as (ob & Eb & Hf). rewrite Hobj in Eb.
  assert (b ∈ addrs) by (rewrite <- Hfst; apply list_elem_of_fmap; by exists (b, f)).
  rewrite lookup_insert_ne in Eb by congruence. eauto.
Qed.

(** C15: [Finalise] writes every change to the tries: for a state whose dirty objects are
    live, readable and encodable, whatever the order of the ranges, it does not
    panic; afterwards the account trie holds for every dirty account the encoding
    of its data with the root of a storage trie in which exactly the dirty slots
    and byte arrays changed, nothing for accounts that were suicided or, when empty
    objects are deleted, are empty, and what it held before for all others. *)
Theorem Finalise_writes (del : bool) (s : StateDB D T) (m : gmap bytes bytes) (ms : address -> gmap bytes bytes) : tr_map (s_trie s) m ->
  (forall a, a ∈ s_stateObjectsDirty s -> K a /\ exists o, s_stateObjects s !! a = Some o /\ obj_ready (s_db s) a o (ms a)) ->
  exists s' m', Finalise (E:=E) del s = Ok s' /\ tr_map (s_trie s') m' /\ s_journal s' = [] /\ s_refund s' = 0 /\
    forall a, K a -> if decide (a ∈ s_stateObjectsDirty s)
      then exists o, s_stateObjects s !! a = Some o /\ final_entry del o (ms a) (m' !! tr_key a)
      else m' !! tr_key a = m !! tr_key a.
Proof.
  intros Ht Hd. unfold Finalise. set (addrs := go_range (elements (s_stateObjectsDirty s))).
  assert (Hp : addrs ≡ₚ elements (s_stateObjectsDirty s)) by apply go_range_perm.
  assert (Hin : forall a, a ∈ addrs <-> a ∈ s_stateObjectsDirty s) by (intros a; rewrite Hp; apply elem_of_elements).
  destruct (finalise_loop_ok del addrs s m ms Ht) as (s1 & es & -> & Ht1 & Hfst & Hes & _).
  { rewrite Hp. apply NoDup_elements. }
  { intros a Ha. apply Hin in Ha. by apply Hd. }
  cbn [obind]. eexists _, _. split; [done|]. split; [exact Ht1|]. split; [done|]. split; [done|]. intros a Ha.
  assert (Hn : NoDup (map fst es)) by (rewrite Hfst, Hp; apply NoDup_elements).
  assert (HK : Forall (fun e => K e.1) es).
  { apply Forall_forall. intros [b e] Hb. simpl. apply Hd, Hin. rewrite <- Hfst. apply list_elem_of_fmap. by exists (b, e). }
  rewrite put_entries_lookup by done. destruct (list_to_map es !! a) as [e|] eqn:Ea.
  - apply elem_of_list_to_map in Ea; [|done]. destruct (Hes a e Ea) as (o & Eo & Hf).
    rewrite decide_True by (apply Hin; rewrite <- Hfst; apply list_elem_of_fmap; by exists (a, e)). eauto.
  - apply not_elem_of_list_to_map_2 in Ea. rewrite decide_False; [done|]. intros Hdirty. apply Ea. change (es.*1) with (map fst es). rewrite Hfst. by apply Hin.
Qed.
End Writes.

(** ** Secure tries *)

Section Secure.
Context `{HCL : CryptoLaws} {DB : Type} `{HDB : DatabaseKeeps DB}.

Lemma root_is_hash m h : map_root m h -> is_hash h.
Proof.
  intros (t & _ & _ & ->). unfold root_of. destruct t; try apply Keccak256_ok. split; [apply be_pad_ok|done].
Qed.

#[export] Instance secure_maps : StateTrieMaps (SecureTrie DB).
Proof.
  refine {| tr_key := Keccak256; tr_map t m := trie_rep (sec_trie t) m; tr_root := map_root |}.
  - intros t m k v Ht Hb Hl. simpl. unfold sec_TryUpdate, hashKey.
    destruct (TryUpdate_refines (sec_trie t) m (Keccak256 k) v Ht (hash_key_ok k)) as (T' & -> & HT'); [split; [done|lia]|]. simpl.
    eexists. split; [done|]. unfold updated in HT'. destruct (Z.eqb_spec (zlen v) 0); [lia|done].
  - intros t m k Ht. simpl. unfold sec_TryDelete, hashKey.
    destruct (TryDelete_refines (sec_trie t) m (Keccak256 k) Ht (hash_key_ok k)) as (T' & -> & HT'). simpl. by eexists.
  - intros t m Ht. simpl. unfold sec_Hash. destruct (Trie_Hash_ok (sec_trie t) m Ht) as (h & T' & -> & Hm & HT' & _). simpl.
    eexists _, _. split_and!; [done|by eapply root_is_hash|done|done].
Defined.
End Secure.
