(* ===== verification/StateClaims.v ===== *)
(** Further claims on the state database: the set of dirty accounts, and what the
    code does where it departs from what it says. *)
From S2P Require Import Prelude RlpEncode RlpDecode RlpTheorems Storage IstanbulTypes ValidatorSet KeccakCrypto RoundState TrieNode TrieRep Trie TrieTheorems StateDB StateSpec StateTheorems SecureTrie StateCommit StateFinalise.

(** ** Dirty accounts are live *)

Section Dirty.
Context `{HC : Crypto} {D T : Type} `{HT : StateTrie T} `{HD : StateDatabase D T} {E : Type}.
Implicit Types (o : stateObject T) (s : StateDB D T).

Definition dirty_live s : Prop := forall a, a ∈ s_stateObjectsDirty s -> is_Some (s_stateObjects s !! a).

Lemma live_set o s : dirty_live s -> dirty_live (setStateObject o s).
Proof. intros Hl a Ha. simpl. destruct (decide (a = so_address o)) as [->|]; [rewrite lookup_insert_eq; eauto|rewrite lookup_insert_ne by done; by apply Hl]. Qed.

(** Calling [onDirty] before the object is stored. *)
Lemma live_fire_set o o' s : so_address o' = so_address o -> dirty_live s -> dirty_live (setStateObject o' (fire o s)).
Proof.
  intros Ha Hl a Hin. assert (Hc : a = so_address o' \/ a ∈ s_stateObjectsDirty s).
  { revert Hin. unfold fire. destruct (so_onDirty o); simpl; [|by right]. rewrite elem_of_union, elem_of_singleton, Ha. tauto. }
  assert (Hobj : s_stateObjects (setStateObject o' (fire o s)) = <[so_address o' := o']> (s_stateObjects s)) by (unfold fire; by destruct (so_onDirty o)).
  rewrite Hobj. destruct (decide (a = so_address o')) as [->|Hne]; [rewrite lookup_insert_eq; eauto|].
  rewrite lookup_insert_ne by done. apply Hl. by destruct Hc.
Qed.

Lemma live_update o s : dirty_live s -> dirty_live (update_object o s).
Proof. intros Hl. by apply live_fire_set. Qed.

Lemma live_log s e : dirty_live s -> dirty_live (log_change s e).
Proof. done. Qed.

Lemma live_get a s (r : option (stateObject T)) s' : dirty_live s -> getStateObject (E:=E) a s = Ok (r, s') -> dirty_live s'.
Proof.
  intros Hl. unfold getStateObject, setError. repeat case_match; intros Eg; simplify_eq; try done; by apply live_set.
Qed.

Lemma live_create a s o p s' : dirty_live s -> createObject (E:=E) a s = Ok (o, p, s') -> dirty_live s'.
Proof.
  intros Hl. unfold createObject. destruct (getStateObject a s) as [[prev s1]| |] eqn:Eg; simpl; [|done|done]. intros Ec. simplify_eq.
  pose proof (live_get a s _ _ Hl Eg) as Hl1. intros b Hb. exact (live_fire_set (with_nonce (newObject a zero_account true) 0) (fired (with_nonce (newObject a zero_account true) 0)) _ eq_refl Hl1 b Hb).
Qed.

Lemma live_getnew a s o s' : dirty_live s -> GetOrNewStateObject (E:=E) a s = Ok (o, s') -> dirty_live s'.
Proof.
  intros Hl. unfold GetOrNewStateObject. destruct (getStateObject a s) as [[[p|] s1]| |] eqn:Eg; simpl; try done; [intros [= <- <-]; by eapply live_get|].
  destruct (createObject a s1) as [[[n q] s2]| |] eqn:Ec; simpl; try done. intros [= <- <-]. eapply live_create; [|exact Ec]. by eapply live_get.
Qed.

Lemma live_undo e s s' : dirty_live s -> undo (E:=E) e s = Ok s' -> dirty_live s'.
Proof.
  intros Hl. assert (Hw : forall a (f : stateObject T -> StateDB D T -> StateDB D T), (forall o s, dirty_live s -> dirty_live (f o s)) ->
    with_live (E:=E) a s f = Ok s' -> dirty_live s').
  { intros a f Hf. unfold with_live. destruct (getStateObject a s) as [[[o|] s1]| |] eqn:Eg; simpl; try done. intros [= <-]. apply Hf. by eapply live_get. }
  destruct e; simpl; try (apply Hw; intros; by apply live_update); try (intros [= <-]; done).
  - intros [= <-] b. simpl. rewrite elem_of_difference, not_elem_of_singleton. intros [Hb Hne]. rewrite lookup_delete_ne by done. by apply Hl.
  - intros [= <-]. by apply live_set.
  - destruct (getStateObject account s) as [[[o|] s1]| |] eqn:Eg; simpl; try done; intros [= <-]; [apply live_update|]; by eapply live_get.
  - repeat case_match; intros [= <-]; done.
  - destruct (negb prev && _); [|by intros [= <-]]. apply Hw. intros o s0 Hl0. destruct prevDirty; [by apply live_set|].
    intros b Hb. apply (live_set (with_flags o (so_suicided o) prev (so_deleted o) (so_onDirty o)) s0 Hl0 b). simpl in Hb |- *. set_solver.
Qed.

Lemma live_undo_all es : forall s s', dirty_live s -> undo_all (E:=E) es s = Ok s' -> dirty_live s'.
Proof.
  induction es as [|e es IH]; intros s s' Hl; simpl; [by intros [= <-]|]. destruct (undo e s) as [s1| |] eqn:Eu; simpl; try done.
  apply IH. by eapply live_undo.
Qed.

(** Operations that end in an update of an object. *)
Lemma live_modify a s s' (f : stateObject T -> StateDB D T -> outcome E (StateDB D T)) : dirty_live s ->
  (forall o s1 s2, dirty_live s1 -> f o s1 = Ok s2 -> dirty_live s2) ->
  (let! (o, s) := GetOrNewStateObject (E:=E) a s in f o s) = Ok s' -> dirty_live s'.
Proof. intros Hl Hf. destruct (GetOrNewStateObject a s) as [[o s1]| |] eqn:Eg; simpl; try done. apply Hf. by eapply live_getnew. Qed.

Lemma live_step op s r s' : dirty_live s -> state_step (E:=E) s op = Ok (r, s') -> dirty_live s'.
Proof.
  intros Hl. assert (Hmod : forall (m : outcome E (StateDB D T)) x, (forall s1, m = Ok s1 -> dirty_live s1) -> (let! s := m in Ok (x, s)) = Ok (r, s') -> dirty_live s').
  { intros m x Hm. destruct m; simpl; try done. intros [= _ <-]. by apply Hm. }
  assert (Hget : forall {R} (m : outcome E (R * StateDB D T)) (g : R -> state_res), (forall v s1, m = Ok (v, s1) -> dirty_live s1) ->
    (let! (v, s) := m in Ok (g v, s)) = Ok (r, s') -> dirty_live s').
  { intros R m g Hm. destruct m as [[v s1]| |]; simpl; try done. intros [= _ <-]. by eapply Hm. }
  assert (Hread : forall {R} a (g : option (stateObject T) -> R) v s1, (let! (o, s) := getStateObject (E:=E) a s in Ok (g o, s)) = Ok (v, s1) -> dirty_live s1).
  { intros R a g v s1. destruct (getStateObject a s) as [[o s2]| |] eqn:Eg; simpl; try done. intros [= _ <-]. by eapply live_get. }
  destruct op; simpl.
  - apply Hmod. intros s1. apply live_modify; [done|]. intros o s2 s3 H2 [= <-]. unfold obj_AddBalance, touch. repeat case_match; try done; [by apply live_update|by apply live_fire_set].
  - apply Hmod. intros s1. apply live_modify; [done|]. intros o s2 s3 H2 [= <-]. unfold obj_SubBalance. case_match; [by apply live_update|done].
  - apply Hmod. intros s1. apply live_modify; [done|]. intros o s2 s3 H2 [= <-]. by apply live_update.
  - apply Hmod. intros s1. apply live_modify; [done|]. intros o s2 s3 H2 [= <-]. by apply live_update.
  - apply Hmod. intros s1. apply live_modify; [done|]. intros o s2 s3 H2. unfold obj_SetCode.
    destruct (obj_Code (s_db s2) o) as [[c o']| |]; simpl; try done. intros [= <-]. by apply live_update.
  - apply Hmod. intros s1. apply live_modify; [done|]. intros o s2 s3 H2. unfold obj_SetState.
    destruct (obj_GetState (s_db s2) k o) as [[c o']| |]; simpl; try done. intros [= <-]. by apply live_update.
  - apply Hmod. intros s1. apply live_modify; [done|]. intros o s2 s3 H2. unfold obj_SetStateByteArray.
    destruct (obj_GetStateByteArray (s_db s2) k o) as [[c o']| |]; simpl; try done. intros [= <-]. by apply live_update.
  - apply (Hget _ _ RBool). intros v s1. unfold Suicide. destruct (getStateObject a s) as [[[o|] s2]| |] eqn:Eg; simpl; try done; intros [= _ <-].
    + apply live_update. by eapply live_get in Eg.
    + by eapply live_get.
  - apply Hmod. intros s1. unfold CreateAccount. destruct (createObject a s) as [[[n p] s2]| |] eqn:Ec; simpl; try done. intros [= <-].
    apply live_create in Ec; [|done]. destruct p; [by apply live_update|done].
  - by intros [= _ <-].
  - intros [= _ <-]. unfold AddPreimage. by case_match.
  - by intros [= _ <-].
  - by intros [= _ <-].
  - apply Hmod. intros s1. unfold RevertToSnapshot. repeat case_match; try done. destruct (undo_all _ s) as [s2| |] eqn:Eu; simpl; try done.
    intros [= <-]. exact (live_undo_all _ s s2 Hl Eu).
  - apply (Hget _ _ RBool). intros v s1. apply Hread.
  - apply (Hget _ _ RZ). intros v s1. apply Hread.
  - apply (Hget _ _ RZ). intros v s1. apply Hread.
  - apply (Hget _ _ ROption). intros v s1. unfold GetCode. destruct (getStateObject a s) as [[[o|] s2]| |] eqn:Eg; simpl; try done; pose proof (live_get a s _ s2 Hl Eg).
    + destruct (obj_Code (s_db s2) o) as [[c o']| |]; simpl; try done. intros [= _ <-]. by apply live_set.
    + by intros [= _ <-].
  - apply (Hget _ _ RBytes). intros v s1. apply Hread.
  - apply (Hget _ _ RBytes). intros v s1. unfold GetState. destruct (getStateObject a s) as [[[o|] s2]| |] eqn:Eg; simpl; try done; pose proof (live_get a s _ s2 Hl Eg).
    + destruct (obj_GetState (s_db s2) k o) as [[c o']| |]; simpl; try done. intros [= _ <-]. by apply live_set.
    + by intros [= _ <-].
  - apply (Hget _ _ RBytes). intros v s1. unfold GetStateByteArray. destruct (getStateObject a s) as [[[o|] s2]| |] eqn:Eg; simpl; try done; pose proof (live_get a s _ s2 Hl Eg).
    + destruct (obj_GetStateByteArray (s_db s2) k o) as [[c o']| |]; simpl; try done. intros [= _ <-]. by apply live_set.
    + by intros [= _ <-].
  - apply (Hget _ _ RBool). intros v s1. apply Hread.
  - by intros [= _ <-].
  - by intros [= _ <-].
Qed.

(** Every dirty address has a live object: [Finalise], [Copy] and [DeleteSuicides]
    look dirty addresses up in the map of live objects and use what they find
    without a test; after any sequence of operations on a new state, reverts
    included, and even on a broken store, none of them meets a nil object. *)
Theorem dirty_objects_live root (db : D) s ops rs s' : state_New root db = Ok s -> state_run (E:=E) s ops = Ok (rs, s') ->
  forall a, a ∈ s_stateObjectsDirty s' -> exists o, s_stateObjects s' !! a = Some o.
Proof.
  intros Hn Hr. assert (Hl : dirty_live s).
  { unfold state_New in Hn. destruct (OpenTrie db root); simpl in Hn; try done. injection Hn as <-. intros x Hx. simpl in Hx. set_solver. }
  assert (Hl' : dirty_live s'); [|exact Hl']. clear Hn. revert s rs Hl Hr. induction ops as [|op ops IH]; intros s rs Hl; simpl; [by intros [= _ <-]|].
  destruct (state_step s op) as [[r s1]| |] eqn:E1; simpl; try done. destruct (state_run s1 ops) as [[rs1 s2]| |] eqn:E2; simpl; try done.
  intros [= _ <-]. eapply IH; [|exact E2]. by eapply live_step.
Qed.
End Dirty.

(** ** Where the code departs from what it says *)

Definition demo_store : cachingDB MemDatabase := NewDatabase (∅ : MemDatabase).

(** A state over a trie, with nothing loaded. *)
Definition over (t : SecureTrie MemDatabase) : StateDB (cachingDB MemDatabase) (SecureTrie MemDatabase) :=
  mkState demo_store t ∅ ∅ None 0 zero_hash zero_hash 0 ∅ 0 ∅ [] [] 0.

(** The trie with one account. *)
Definition demo_trie_of (a : address) (d : Account) : SecureTrie MemDatabase :=
  match NewSecure zero_hash (∅ : MemDatabase) 0 with
  | Ok t => match sec_TryUpdate t a (acct_enc d) with Ok t => t | _ => t end
  | _ => mkSecure (mkTrie nilNode None zero_hash 0 0) ∅ false
  end.

Definition demo_addr : address := sample_address 7.
Definition empty_account : Account := mkAccount 0 0 emptyRoot emptyCodeHash.
Definition rich_account : Account := mkAccount 1 5 emptyRoot emptyCodeHash.

(** Part of a result, or a default. *)
Definition ask {A B} (r : outcome Empty_set A) (f : A -> B) : option B := match r with Ok a => Some (f a) | _ => None end.

(** An update that is lost: [touch] sets [onDirty] to nil and marks the account as
    dirty; undoing it removes the mark but not the nil. For an account that is in
    the trie and empty, a value transfer of zero that is reverted makes every
    later change of the account in the same state invisible to [Finalise]: here 5
    are added to the balance, the state shows them, and the tries written by
    [Finalise] do not have them. *)
Theorem touch_revert_loses_update :
  let s := over (demo_trie_of demo_addr empty_account) in
  let ops := [OSnapshot; OAddBalance demo_addr 0; ORevert 0; OAddBalance demo_addr 5; OGetBalance demo_addr] in
  ask (state_run s ops) fst = Some [RZ 0; RUnit; RUnit; RUnit; RZ 5] /\
  ask (let! (_, s) := state_run s ops in
       let! s := Finalise true s in
       let! (n, s) := GetBalance demo_addr s in
       let! (m, _) := GetBalance demo_addr (over (s_trie s)) in Ok (n, m)) id = Some (5, 0).
Proof. vm_compute. split; exact eq_refl. Qed.

(** [Empty] is not restored by a revert: an account counts as empty only when it
    has no dirty slot, and undoing a write leaves the slot dirty. *)
Theorem revert_leaves_nonempty :
  let s := over (demo_trie_of demo_addr empty_account) in
  let ops := [OSnapshot; OSetState demo_addr (be_pad 32 1) (be_pad 32 1); ORevert 0; OGetState demo_addr (be_pad 32 1)] in
  ask (state_Empty demo_addr s) fst = Some true /\
  ask (let! (rs, s) := state_run s ops in let! (b, _) := state_Empty demo_addr s in Ok (last rs, b)) id = Some (Some (RBytes zero_hash), false).
Proof. vm_compute. split; exact eq_refl. Qed.

(** [Copy] is documented as deep and independent but shares the account trie: what
    is finalised on the copy, the original reads. The original is the same
    record with the trie the copy has written to. *)
Theorem copy_shares_trie :
  let s := over (demo_trie_of demo_addr rich_account) in
  ask (GetBalance demo_addr s) fst = Some 5 /\
  ask (let! c := Copy s in
       let! c := SetBalance demo_addr 7 c in
       let! c := Finalise true c in
       let! (n, _) := GetBalance demo_addr (with_trie s (s_trie c)) in Ok n) id = Some 7.
Proof. vm_compute. split; exact eq_refl. Qed.

(** The root depends on the flag for empty accounts: after a transaction that
    touched an account that does not exist, finalised with deletion as
    [ApplyTransaction] does, the root that the Istanbul engine puts into the
    header when [IsEIP158] is false is not the root that [ValidateState]
    computes, since the deleted account is written back. *)
Theorem istanbul_root_mismatch :
  let s := over (mkSecure (mkTrie nilNode (Some (∅ : MemDatabase)) zero_hash 0 0) ∅ false) in
  let processed := let! (_, s) := state_run s [OAddBalance demo_addr 0] in Finalise true s in
  ask (let! s := processed in let! (h, _) := IntermediateRoot true s in Ok h) id = Some emptyRoot /\
  ask (let! s := processed in let! (h, _) := IntermediateRoot false s in Ok (bool_decide (h = emptyRoot))) id = Some false.
Proof. vm_compute. split; exact eq_refl. Qed.

(** ** Witnesses *)

Definition nil_trie : SecureTrie MemDatabase := mkSecure (mkTrie nilNode (Some (∅ : MemDatabase)) zero_hash 0 0) ∅ false.
Definition opened_trie : SecureTrie MemDatabase := mkSecure (mkTrie nilNode (Some (∅ : MemDatabase)) zero_hash 0 MaxTrieCacheGen) ∅ false.

Lemma opened_rep : tr_rep (D:=cachingDB MemDatabase) opened_trie (fun _ => None).
Proof. exists ∅. split; [apply nil_trie_rep|]. intros k. by rewrite lookup_empty. Qed.

Lemma opened_ok : OpenTrie demo_store zero_hash = Ok opened_trie.
Proof. vm_compute. exact eq_refl. Qed.

Lemma opened_healthy : healthy demo_store (fun _ => None) (fun _ _ => None).
Proof. intros a data E. discriminate E. Qed.

Definition demo_ops : list state_op :=
  [OAddBalance demo_addr 5; OSnapshot; OSetNonce demo_addr 3; OSetState demo_addr (be_pad 32 1) (be_pad 32 2); OSnapshot; OSuicide demo_addr;
   ORevert 1; OGetBalance demo_addr; OGetState demo_addr (be_pad 32 1); ORevert 0; OGetNonce demo_addr; OGetState demo_addr (be_pad 32 1)].

Definition demo_machine : machine := mkMachine (first_world demo_store (fun _ => None) (fun _ _ => None)) [] 0.


Definition demo_nested : list state_op := [OAddBalance demo_addr 5; OSnapshot; OCreateAccount demo_addr; ORevert 1].

Lemma demo_nested_runs s : inv (E:=Empty_set) demo_store (fun _ => None) s demo_machine ->
  exists rs s1, state_run (E:=Empty_set) s (OSnapshot :: demo_nested) = Ok (rs, s1).
Proof.
  intros Hi. pose proof (run_ok (E:=Empty_set) demo_store (fun _ => None) (OSnapshot :: demo_nested) s _ Hi) as Hr.
  assert (Hm : option_map (fun _ => tt) (m_run demo_machine (OSnapshot :: demo_nested)) = Some tt) by (vm_compute; exact eq_refl).
  destruct (m_run demo_machine (OSnapshot :: demo_nested)) as [[rs m]|]; [|discriminate Hm]. destruct Hr as (s1 & E1 & _). by exists rs, s1.
Qed.


Definition demo_object : stateObject (SecureTrie MemDatabase) := with_balance (newObject demo_addr zero_account false) 5.
Definition demo_dirty : StateDB (cachingDB MemDatabase) (SecureTrie MemDatabase) :=
  mkState demo_store nil_trie {[demo_addr := demo_object]} {[demo_addr]} None 0 zero_hash zero_hash 0 ∅ 0 ∅ [] [] 0.

Lemma demo_ready : obj_ready (fun a => a = demo_addr) demo_store demo_addr demo_object ∅.
Proof.
  constructor.
  - exact eq_refl.
  - exists (mkSecure (mkTrie nilNode (Some (∅ : MemDatabase)) zero_hash 0 0) ∅ false). split; [vm_compute; exact eq_refl|]. apply nil_trie_rep.
  - intros k v E. discriminate E.
  - intros k v E. discriminate E.
  - intros h Hh. change (so_data (with_root demo_object h)) with (mkAccount 0 5 h (Keccak256 [])).
    pose proof (Keccak256_ok []) as [Hb Hl]. destruct Hh as [Hhb Hhl]. unfold HashLength in *. revert Hb Hl. generalize (Keccak256 []). intros c Hb Hl. split.
    + unfold account_ok, is_u64, is_hash. simpl. split_and!; [lia|lia|lia|exact Hhb|exact Hhl|exact Hb].
    + unfold acct_enc, Account_value. cbn [rlp_enc map acc_Nonce acc_Balance acc_Root acc_CodeHash].
      match goal with |- zlen (rlp_list ?p) < _ => assert (Hp : zlen p <= 100); [|pose proof (rlp_list_len p ltac:(lia)); lia] end.
      cbn [concat]. rewrite !zlen_app. pose proof (rlp_str_len h ltac:(lia)). pose proof (rlp_str_len c ltac:(lia)).
      change (zlen (rlp_str (be_bytes 0))) with 1. change (zlen (rlp_str (be_bytes (default 0 (Some 5))))) with 1. change (zlen (@nil Z)) with 0. lia.
Qed.

Lemma demo_live : s_stateObjects demo_dirty !! demo_addr = Some demo_object.
Proof. exact (lookup_singleton_eq demo_addr demo_object). Qed.

Lemma demo_is_dirty : demo_addr ∈ s_stateObjectsDirty demo_dirty.
Proof. exact (proj2 (elem_of_singleton (C:=gset address) demo_addr demo_addr) eq_refl). Qed.

Lemma demo_kept : so_suicided demo_object || (true && obj_empty demo_object) = false.
Proof. vm_compute. exact eq_refl. Qed.

Lemma Finalise_writes_witness : exists s' m', Finalise (E:=Empty_set) true demo_dirty = Ok s' /\ tr_map (s_trie s') m' /\
  exists h, m' !! tr_key demo_addr = Some (acct_enc (so_data (with_root demo_object h))).
Proof.
  destruct (Finalise_writes (E:=Empty_set) (fun a => a = demo_addr) ltac:(intros a b -> -> _; exact eq_refl) true demo_dirty ∅ (fun _ => ∅))
    as (s' & m' & E & Hm & _ & _ & Hall).
  - apply nil_trie_rep.
  - intros a Ha. change (a ∈ ({[demo_addr]} : gset address)) in Ha. apply elem_of_singleton in Ha as ->. split; [exact eq_refl|].
    exists demo_object. split; [exact demo_live|exact demo_ready].
  - exists s', m'. split; [exact E|]. split; [exact Hm|]. specialize (Hall demo_addr eq_refl). rewrite decide_True in Hall by exact demo_is_dirty.
    destruct Hall as (o & Eo & Hf). rewrite demo_live in Eo. injection Eo as <-.
    unfold final_entry in Hf. rewrite demo_kept in Hf. destruct Hf as (h & m2 & Ef & _). exists h. exact Ef.
Defined.

Lemma dirty_objects_live_witness : exists s rs s', state_New zero_hash demo_store = Ok s /\ state_run (E:=Empty_set) s [OSetBalance demo_addr 5] = Ok (rs, s') /\
  exists o, s_stateObjects s' !! demo_addr = Some o.
Proof.
  eexists _, _, _. split; [vm_compute; exact eq_refl|]. split; [vm_compute; exact eq_refl|].
  eapply (dirty_objects_live (E:=Empty_set) zero_hash demo_store _ [OSetBalance demo_addr 5]); [vm_compute; exact eq_refl|vm_compute; exact eq_refl|].
  apply elem_of_elements. vm_compute. left.
Defined.
