(* ===== verification/VmProg.v ===== *)
(** Programs over the state of the virtual machine.

    The virtual machine reaches the account state, the chain and the flag that
    aborts it through an interface ([vm.StateDB] of [core/vm/interface.go],
    [GetHashFunc] and [abort] of [core/vm/evm.go]).  Its calls are the events of a
    free monad, so that one model of the machine runs on [StateDB] and is
    verified against the machine that copies worlds. *)
From S2P Require Import Prelude RlpEncode RlpDecode RlpRaw Storage IstanbulTypes ValidatorSet Transaction Trie StateDB StateSpec StateTheorems.

(** ** Events *)

(** [vm.StateDB], [Context.GetHash] and a read of [abort].  A slice of bytes that
    is empty is nil. *)
Inductive vm_ev : Type -> Type :=
| EvCreateAccount (a : address) : vm_ev unit
| EvSubBalance (a : address) (n : Z) : vm_ev unit
| EvAddBalance (a : address) (n : Z) : vm_ev unit
| EvGetBalance (a : address) : vm_ev Z
| EvGetNonce (a : address) : vm_ev Z
| EvSetNonce (a : address) (n : Z) : vm_ev unit
| EvGetCodeHash (a : address) : vm_ev hash
| EvGetCode (a : address) : vm_ev bytes
| EvSetCode (a : address) (code : bytes) : vm_ev unit
| EvGetCodeSize (a : address) : vm_ev Z
| EvAddRefund (n : Z) : vm_ev unit
| EvGetRefund : vm_ev Z
| EvGetState (a : address) (k : hash) : vm_ev hash
| EvSetState (a : address) (k v : hash) : vm_ev unit
| EvGetStateByteArray (a : address) (k : hash) : vm_ev bytes
| EvSetStateByteArray (a : address) (k : hash) (v : bytes) : vm_ev unit
| EvSuicide (a : address) : vm_ev bool
| EvHasSuicided (a : address) : vm_ev bool
| EvExist (a : address) : vm_ev bool
| EvEmpty (a : address) : vm_ev bool
| EvRevertToSnapshot (id : Z) : vm_ev unit
| EvSnapshot : vm_ev Z
| EvAddLog (l : Log) : vm_ev unit
| EvAddPreimage (h : hash) (p : bytes) : vm_ev unit
| EvGetHash (n : Z) : vm_ev hash
| EvAborted : vm_ev bool.

(** A panic tells which byte strings had been hashed, see [accident]. *)
Inductive prog (A : Type) : Type :=
| Return (a : A)
| Crash (codes : list bytes)
| OutOfFuel
| Do (R : Type) (e : vm_ev R) (k : R -> prog A).
Arguments Return {A}.
Arguments Crash {A}.
Arguments OutOfFuel {A}.
Arguments Do {A R}.

Fixpoint pbind {A B} (p : prog A) (f : A -> prog B) : prog B :=
  match p with
  | Return a => f a
  | Crash c => Crash c
  | OutOfFuel => OutOfFuel
  | Do e k => Do e (fun r => pbind (k r) f)
  end.

Definition call {R} (e : vm_ev R) : prog R := Do e Return.

Notation "'do' x '<-' c ';' k" := (pbind c (fun x => k)) (at level 10, x pattern, c at level 100, k at level 200) : go_scope.
Notation "'do!' c ';' k" := (pbind c (fun _ => k)) (at level 10, c at level 100, k at level 200) : go_scope.

(** ** Reasoning *)

(** Two different byte strings with the same hash, or one whose hash is no scalar of
    the curve of the signatures. *)
Definition accident `{Crypto} (codes : list bytes) : Prop :=
  (exists c1 c2, c1 ∈ codes /\ c2 ∈ codes /\ c1 <> c2 /\ Keccak256 c1 = Keccak256 c2) \/
  (exists c, c ∈ codes /\ ~ 0 < be_value (Keccak256 c) < secp256k1_N).

Section Wp.
Context `{HC : Crypto} {M : Type}.
(** What an event needs, and what it may answer. *)
Context (pre : forall R, vm_ev R -> M -> Prop) (post : forall R, vm_ev R -> M -> R -> M -> Prop).
Arguments pre {R}.
Arguments post {R}.

(** The program ends in a result with [Q]; a panic is only possible with an
    accident. *)
Fixpoint wp {A} (p : prog A) (Q : A -> M -> Prop) (m : M) : Prop :=
  match p with
  | Return a => Q a m
  | Crash codes => accident codes
  | OutOfFuel => False
  | Do e k => pre e m /\ forall r m', post e m r m' -> wp (k r) Q m'
  end.

Lemma wp_conseq {A} (p : prog A) (Q Q' : A -> M -> Prop) m : wp p Q m -> (forall a m', Q a m' -> Q' a m') -> wp p Q' m.
Proof.
  revert m. induction p as [a|c| |R e k IH]; simpl; intros m Hp HQ; auto.
  destruct Hp as [Hpre Hk]. split; [done|]. intros r m' Hr. by apply IH, HQ; [apply Hk|..].
Qed.

Lemma wp_then {A B} (p : prog A) (f : A -> prog B) Q m : wp p (fun a m' => wp (f a) Q m') m -> wp (pbind p f) Q m.
Proof.
  revert m. induction p as [a|c| |R e k IH]; simpl; intros m Hp; auto.
  destruct Hp as [Hpre Hk]. split; [done|]. intros r m' Hr. by apply IH, Hk.
Qed.

(** The rule of consequence and of composition at once. *)
Lemma wp_seq {A B} (p : prog A) (f : A -> prog B) P Q m :
  wp p P m -> (forall a m', P a m' -> wp (f a) Q m') -> wp (pbind p f) Q m.
Proof. intros Hp Hf. apply wp_then. by eapply wp_conseq. Qed.

(** The same for a program that is composed to the right. *)
Lemma wp_assoc {A B C} (p : prog A) (e : A -> prog B) (f : B -> prog C) P Q m :
  wp (pbind p e) P m -> (forall b m', P b m' -> wp (f b) Q m') -> wp (pbind p (fun a => pbind (e a) f)) Q m.
Proof.
  intros Hp Hf. revert m Hp. induction p as [a|c| |R ev k IH]; simpl; intros m Hp; auto; [by eapply wp_seq|].
  destruct Hp as [Hpre Hk]. split; [done|]. intros r m' Hr. by apply IH, Hk.
Qed.

Lemma wp_call {R} (e : vm_ev R) (Q : R -> M -> Prop) m : pre e m -> (forall r m', post e m r m' -> Q r m') -> wp (call e) Q m.
Proof. simpl. auto. Qed.
End Wp.

(** ** Running a program *)

Inductive presult (A S : Type) :=
| PDone (a : A) (s : S)
| PCrash (codes : list bytes)
| PFuel
| PBroken.
Arguments PDone {A S}.
Arguments PCrash {A S}.
Arguments PFuel {A S}.
Arguments PBroken {A S}.

Fixpoint run_prog {A S} (h : forall R, vm_ev R -> S -> option (R * S)) (p : prog A) (s : S) : presult A S :=
  match p with
  | Return a => PDone a s
  | Crash codes => PCrash codes
  | OutOfFuel => PFuel
  | Do e k => match h _ e s with Some (r, s) => run_prog h (k r) s | None => PBroken end
  end.

(** A handler that answers as the specification of the events allows runs every
    verified program to its postcondition. *)
Lemma wp_run `{HC : Crypto} {M A S} pre post (h : forall R, vm_ev R -> S -> option (R * S)) (R : S -> M -> Prop) (p : prog A) Q :
  (forall X (e : vm_ev X) s m, R s m -> pre X e m -> exists r s' m', h X e s = Some (r, s') /\ post X e m r m' /\ R s' m') ->
  forall s m, R s m -> wp pre post p Q m ->
  match run_prog h p s with
  | PDone a s' => exists m', R s' m' /\ Q a m'
  | PCrash codes => accident codes
  | _ => False
  end.
Proof.
  intros Hh. induction p as [a|c| |X e k IH]; simpl; intros s m Hs Hp; [by exists m|done..|].
  destruct Hp as [Hpre Hk]. destruct (Hh X e s m Hs Hpre) as (r & s' & m' & -> & Hr & Hs'). by apply (IH r s' m'), Hk.
Qed.

(** ** The events of the state database *)

Definition opt_code (code : bytes) : option bytes := match code with [] => None | _ => Some code end.

Definition as_unit (r : state_res) : option unit := match r with RUnit => Some tt | _ => None end.
Definition as_Z (r : state_res) : option Z := match r with RZ z => Some z | _ => None end.
Definition as_bool (r : state_res) : option bool := match r with RBool b => Some b | _ => None end.
Definition as_bytes (r : state_res) : option bytes := match r with RBytes b => Some b | ROption b => Some (default [] b) | _ => None end.

(** The operation of the state an event stands for, and how its result is read.
    Emptiness and the size of code are not among the operations. *)
Definition ev_op {R} (e : vm_ev R) : option (state_op * (state_res -> option R)) :=
  match e with
  | EvCreateAccount a => Some (OCreateAccount a, as_unit)
  | EvSubBalance a n => Some (OSubBalance a n, as_unit)
  | EvAddBalance a n => Some (OAddBalance a n, as_unit)
  | EvGetBalance a => Some (OGetBalance a, as_Z)
  | EvGetNonce a => Some (OGetNonce a, as_Z)
  | EvSetNonce a n => Some (OSetNonce a n, as_unit)
  | EvGetCodeHash a => Some (OGetCodeHash a, as_bytes)
  | EvGetCode a => Some (OGetCode a, as_bytes)
  | EvSetCode a code => Some (OSetCode a (opt_code code), as_unit)
  | EvAddRefund n => Some (OAddRefund n, as_unit)
  | EvGetRefund => Some (OGetRefund, as_Z)
  | EvGetState a k => Some (OGetState a k, as_bytes)
  | EvSetState a k v => Some (OSetState a k v, as_unit)
  | EvGetStateByteArray a k => Some (OGetStateByteArray a k, as_bytes)
  | EvSetStateByteArray a k v => Some (OSetStateByteArray a k v, as_unit)
  | EvSuicide a => Some (OSuicide a, as_bool)
  | EvHasSuicided a => Some (OHasSuicided a, as_bool)
  | EvExist a => Some (OExist a, as_bool)
  | EvRevertToSnapshot id => Some (ORevert id, as_unit)
  | EvSnapshot => Some (OSnapshot, as_Z)
  | EvAddLog l => Some (OAddLog l, as_unit)
  | EvAddPreimage h p => Some (OAddPreimage h p, as_unit)
  | EvGetCodeSize _ | EvEmpty _ | EvGetHash _ | EvAborted => None
  end.

Section Events.
Context `{HC : Crypto}.

Definition ev_pre R (e : vm_ev R) (m : machine) : Prop :=
  match e with EvRevertToSnapshot id => is_Some (split_at_id id (m_snaps m)) | _ => True end.

(** [Empty] also looks at storage that is written to the trie later, so that an
    account without nonce, balance and code may be reported as not empty. *)
Definition ev_post R (e : vm_ev R) (m : machine) : R -> machine -> Prop :=
  match ev_op e with
  | Some (op, read) => fun r m' => exists res, m_step m op = Some (res, m') /\ read res = Some r
  | None => fun r m' => m' = m /\
      match e in vm_ev R return R -> Prop with
      | EvEmpty a => fun b => match w_accts (m_world m) a with
                              | None => b = true
                              | Some c => b = true -> a_nonce c = 0 /\ a_balance c = 0
                              end
      | EvGetCodeSize a => fun n => 0 <= n
      | EvGetHash n => fun h => is_hash h
      | _ => fun _ => True
      end r
  end.
End Events.

(** ** The state database as a handler *)

Section Handler.
Context `{HCL : CryptoLaws} {D T : Type} `{HT : StateTrie T} `{HD : StateDatabase D T}.
(** The hashes of earlier blocks, and whether the [n]-th look at [abort] finds it set. *)
Context (getHash : Z -> hash) (aborted : nat -> bool).

Definition ok_some {E A} (o : outcome E A) : option A := match o with Ok a => Some a | _ => None end.

(** A panic of the state database has no answer. *)
Definition state_handler R (e : vm_ev R) (st : StateDB D T * nat) : option (R * (StateDB D T * nat)) :=
  let '(s, n) := st in
  match ev_op e with
  | Some (op, read) =>
      match state_step (E := Empty_set) s op with
      | Ok (res, s) => match read res with Some r => Some (r, (s, n)) | None => None end
      | _ => None
      end
  | None =>
      match e in vm_ev R return option (R * (StateDB D T * nat)) with
      | EvGetCodeSize a => '(r, s) ← ok_some (GetCodeSize (E := Empty_set) a s); Some (r, (s, n))
      | EvEmpty a => '(r, s) ← ok_some (state_Empty (E := Empty_set) a s); Some (r, (s, n))
      | EvGetHash i => Some (getHash i, (s, n))
      | EvAborted => Some (aborted n, (s, S n))
      | _ => None
      end
  end.

Context `{HL : !StateStoreLaws D T} (db : D) (A : bytes -> option bytes).
Context (Hhash : forall n, is_hash (getHash n)) (Hsize : forall d a h n, ContractCodeSize d a h = Some n -> 0 <= n).

Lemma inv_rep s s' m : inv (E := Empty_set) db A s m -> rep db A s' (m_world m) -> same_log s s' -> inv (E := Empty_set) db A s' m.
Proof. intros Hi Hr Hl. apply (moves_inv (E := Empty_set) db A s m s' (m_world m)) in Hi; [by destruct m|]. by apply moves_same. Qed.

(** The state database answers events as the machine of worlds does. *)
Lemma state_handler_ok X (e : vm_ev X) st m : inv (E := Empty_set) db A st.1 m -> ev_pre X e m ->
  exists r st' m', state_handler X e st = Some (r, st') /\ ev_post X e m r m' /\ inv (E := Empty_set) db A st'.1 m'.
Proof.
  destruct st as [s n]. simpl. intros Hi Hpre. unfold ev_post.
  assert (forall op (read : state_res -> option X) res m1 r, m_step m op = Some (res, m1) -> read res = Some r -> ev_op e = Some (op, read) ->
    exists r st' m', state_handler X e (s, n) = Some (r, st') /\ (exists res, m_step m op = Some (res, m') /\ read res = Some r) /\ inv (E := Empty_set) db A st'.1 m') as K.
  { intros op read res m1 r Hm Hr He. pose proof (step_ok (E := Empty_set) db A s m op Hi) as Hs. rewrite Hm in Hs.
    destruct Hs as (s' & Es & Hi'). exists r, (s', n), m1. unfold state_handler. rewrite He, Es, Hr. eauto. }
  destruct e; cbn [ev_op] in *; try (by eapply K; simpl; eauto).
  - destruct (getStateObject_ok (E := Empty_set) db A a s (m_world m) (i_rep (E := Empty_set) _ _ _ _ Hi)) as (o & s' & Eo & Hr & Hl & Ho).
    unfold state_handler, GetCodeSize. cbn [ev_op]. rewrite Eo. cbn [obind ok_some]. apply (inv_rep _ _ _ Hi) in Hl as Hi'; [|done].
    destruct o as [o|]; simpl; [|by eexists 0, (s', n), m].
    destruct (so_code o) as [c|]; simpl; [eexists (zlen c), (s', n), m; split_and!; try done; apply zlen_nonneg|].
    destruct (ContractCodeSize _ _ _) as [k|] eqn:Ek; simpl; [eexists k, (s', n), m; split_and!; try done; by eapply Hsize|].
    eexists 0, (setError _ s', n), m. split_and!; try done. simpl. apply (inv_rep s'); [done| |].
    all: unfold setError; destruct (s_dbErr s'); try done. destruct Hr. by constructor.
  - destruct (getStateObject_ok (E := Empty_set) db A a s (m_world m) (i_rep (E := Empty_set) _ _ _ _ Hi)) as (o & s' & Eo & Hr & Hl & Ho).
    unfold state_handler, state_Empty. cbn [ev_op]. rewrite Eo. simpl. eexists _, (s', n), m. split_and!; try done; [|by apply (inv_rep s)].
    destruct (w_accts _ a) as [c|]; [|by destruct Ho as [-> _]]. destruct Ho as (obj & -> & _ & Hsh). intros He. unfold obj_empty in He.
    zbool. destruct Hsh. split; congruence.
  - destruct Hpre as [[before V] Hs]. eapply K; [simpl; by rewrite Hs| |]; simpl; eauto.
  - by eexists _, (s, n), m.
  - by eexists _, (s, S n), m.
Qed.
End Handler.
