(* ===== verification/VmData.v ===== *)
(** Memory, contracts, code analysis and helpers of the virtual machine:
    [core/vm/memory.go], [contract.go], [analysis.go], [common.go], [gas.go],
    [errors.go], [opcodes.go], [stack_table.go], and the constants of [params].

    A slice of a byte slice within its capacity but beyond its length counts as a
    panic here. *)
From S2P Require Import Prelude Storage IstanbulTypes ValidatorSet Trie BigMath.

(** ** [params/protocol_params.go] and [params/gas_table.go] *)

Definition CallValueTransferGas : Z := 9000.
Definition CallNewAccountGas : Z := 25000.
Definition QuadCoeffDiv : Z := 512.
Definition SstoreSetGas : Z := 20000.
Definition LogDataGas : Z := 8.
Definition CallStipend : Z := 2300.
Definition Sha3Gas : Z := 30.
Definition Sha3WordGas : Z := 6.
Definition SstoreResetGas : Z := 5000.
Definition SstoreClearGas : Z := 5000.
Definition SstoreRefundGas : Z := 15000.
Definition JumpdestGas : Z := 1.
Definition CreateDataGas : Z := 200.
Definition CallCreateDepth : Z := 1024.
Definition LogGas : Z := 375.
Definition CopyGas : Z := 3.
Definition StackLimit : Z := 1024.
Definition LogTopicGas : Z := 375.
Definition CreateGas : Z := 32000.
Definition SuicideRefundGas : Z := 24000.
Definition MemoryGas : Z := 3.
Definition MaxCodeSize : Z := 24576.

Record GasTable := mkGasTable {
  ExtcodeSize : Z; ExtcodeCopy : Z; Balance : Z; SLoad : Z; Calls : Z; Suicide_gas : Z; ExpByte : Z; CreateBySuicide : Z
}.

Definition GasTableHomestead : GasTable := mkGasTable 20 20 20 50 40 0 10 0.
Definition GasTableEIP150 : GasTable := mkGasTable 700 700 400 200 700 5000 10 25000.
Definition GasTableEIP158 : GasTable := mkGasTable 700 700 400 200 700 5000 50 25000.

(** [ChainConfig.GasTable]: whatever the block. *)
Definition chain_GasTable : GasTable := GasTableEIP158.

(** ** [core/vm/errors.go] and the errors of the interpreter *)

Inductive vm_err :=
| ErrOutOfGas | ErrCodeStoreOutOfGas | ErrDepth | ErrInsufficientBalance | ErrContractAddressCollision
| errGasUintOverflow | errWriteProtection | errReturnDataOutOfBounds | errExecutionReverted | errMaxCodeSizeExceeded
| errInvalidOpcode (op : Z) | errInvalidJump (op pos : Z) | errStackUnderflow (len n : Z) | errStackLimit (len : Z)
| errPrecompile (code : nat).

#[global] Instance vm_err_eq : EqDecision vm_err.
Proof. solve_decision. Defined.

(** ** Slices *)

(** [b[lo:hi]] *)
Definition slice {E} (b : bytes) (lo hi : Z) : outcome E bytes :=
  if (0 <=? lo) && (lo <=? hi) && (hi <=? zlen b) then Ok (take (Z.to_nat (hi - lo)) (drop (Z.to_nat lo) b)) else Panic.

(** [copy] of [src] over the start of [dst]. *)
Definition copy_bytes (dst src : bytes) : bytes := take (length dst) src ++ drop (length src) dst.

(** [common.RightPadBytes] with a length that is not negative. *)
Definition RightPadBytes (b : bytes) (l : Z) : bytes :=
  if l <=? zlen b then b else b ++ replicate (Z.to_nat (l - zlen b)) 0.

(** [common.BigToHash] and [common.BigToAddress] *)
Definition BigToHash (b : Z) : hash := BytesToHash (be_bytes (Z.abs b)).
Definition BytesToAddress (b : bytes) : address :=
  let b := if zlen b >? 20 then drop (Z.to_nat (zlen b - 20)) b else b in
  replicate (Z.to_nat (20 - zlen b)) 0 ++ b.
Definition BigToAddress (b : Z) : address := BytesToAddress (be_bytes (Z.abs b)).

(** ** [core/vm/memory.go] *)

Record Memory := mkMemory { mem_store : bytes; mem_lastGasCost : Z }.

Definition NewMemory : Memory := mkMemory [] 0.

Definition mem_Len (m : Memory) : Z := zlen (mem_store m).

Definition mem_Set (m : Memory) (offset size : Z) (value : bytes) : outcome vm_err Memory :=
  if size >? mem_Len m then Panic
  else if size >? 0 then
    let hi := u64 (offset + size) in
    let! window := slice (mem_store m) offset hi in
    Ok (mkMemory (take (Z.to_nat offset) (mem_store m) ++ copy_bytes window value ++ drop (Z.to_nat hi) (mem_store m)) (mem_lastGasCost m))
  else Ok m.

Definition mem_Resize (m : Memory) (size : Z) : Memory :=
  if mem_Len m <? size then mkMemory (mem_store m ++ replicate (Z.to_nat (size - mem_Len m)) 0) (mem_lastGasCost m) else m.

(** A negative size cannot be allocated. *)
Definition mem_Get (m : Memory) (offset size : Z) : outcome vm_err bytes :=
  if size =? 0 then Ok []
  else if mem_Len m >? offset then
    if size <? 0 then Panic
    else let! src := slice (mem_store m) offset (i64 (offset + size)) in Ok (copy_bytes (replicate (Z.to_nat size) 0) src)
  else Ok [].

Definition mem_GetPtr (m : Memory) (offset size : Z) : outcome vm_err bytes :=
  if size =? 0 then Ok []
  else if mem_Len m >? offset then slice (mem_store m) offset (i64 (offset + size))
  else Ok [].

(** ** [core/vm/common.go] *)

Definition calcMemSize (off l : Z) : Z := if l =? 0 then 0 else off + l.

Definition getData (data : bytes) (start size : Z) : outcome vm_err bytes :=
  let length := zlen data in
  let start := if start >? length then length else start in
  let endp := u64 (start + size) in
  let endp := if endp >? length then length else endp in
  let! d := slice data start endp in Ok (RightPadBytes d (i64 size)).

Definition getDataBig (data : bytes) (start size : Z) : outcome vm_err bytes :=
  let dlen := zlen data in
  let s := BigMin start dlen in
  let e := BigMin (s + size) dlen in
  let! d := slice data (big_Uint64 s) (big_Uint64 e) in Ok (RightPadBytes d (i64 (big_Uint64 size))).

Definition bigUint64 (v : Z) : Z * bool := (big_Uint64 v, big_BitLen v >? 64).

Definition toWordSize (size : Z) : Z :=
  if size >? MaxUint64 - 31 then MaxUint64 / 32 + 1 else u64 (size + 31) / 32.

Definition allZero (b : bytes) : bool := forallb (fun x => x =? 0) b.

(** ** [core/vm/gas.go] *)

Definition GasQuickStep : Z := 2.
Definition GasFastestStep : Z := 3.
Definition GasFastStep : Z := 5.
Definition GasMidStep : Z := 8.
Definition GasSlowStep : Z := 10.
Definition GasExtStep : Z := 20.

Definition callGas (gt : GasTable) (availableGas base callCost : Z) : Z * option vm_err :=
  let capped :=
    if CreateBySuicide gt >? 0 then
      let availableGas := u64 (availableGas - base) in
      let gas := availableGas - availableGas / 64 in
      if (big_BitLen callCost >? 64) || (gas <? big_Uint64 callCost) then Some gas else None
    else None in
  match capped with
  | Some gas => (gas, None)
  | None => if big_BitLen callCost >? 64 then (0, Some errGasUintOverflow) else (big_Uint64 callCost, None)
  end.

(** ** [core/vm/stack_table.go]: conditions on the number of elements *)

Definition stack_require (len n : Z) : option vm_err := if len <? n then Some (errStackUnderflow len n) else None.

Definition makeStackFunc (pop push : Z) (len : Z) : option vm_err :=
  match stack_require len pop with
  | Some e => Some e
  | None => if len + push - pop >? StackLimit then Some (errStackLimit len) else None
  end.

Definition makeDupStackFunc (n : Z) : Z -> option vm_err := makeStackFunc n (n + 1).
Definition makeSwapStackFunc (n : Z) : Z -> option vm_err := makeStackFunc n n.

(** ** [core/vm/opcodes.go] *)

Definition STOP := 0x00.
Definition ADD := 0x01.
Definition MUL := 0x02.
Definition SUB := 0x03.
Definition DIV := 0x04.
Definition SDIV := 0x05.
Definition MOD := 0x06.
Definition SMOD := 0x07.
Definition ADDMOD := 0x08.
Definition MULMOD := 0x09.
Definition EXP := 0x0a.
Definition SIGNEXTEND := 0x0b.
Definition LT := 0x10.
Definition GT := 0x11.
Definition SLT := 0x12.
Definition SGT := 0x13.
Definition EQ := 0x14.
Definition ISZERO := 0x15.
Definition AND := 0x16.
Definition OR := 0x17.
Definition XOR := 0x18.
Definition NOT := 0x19.
Definition BYTE := 0x1a.
Definition SHA3 := 0x20.
Definition ADDRESS := 0x30.
Definition BALANCE := 0x31.
Definition ORIGIN := 0x32.
Definition CALLER := 0x33.
Definition CALLVALUE := 0x34.
Definition CALLDATALOAD := 0x35.
Definition CALLDATASIZE := 0x36.
Definition CALLDATACOPY := 0x37.
Definition CODESIZE := 0x38.
Definition CODECOPY := 0x39.
Definition GASPRICE := 0x3a.
Definition EXTCODESIZE := 0x3b.
Definition EXTCODECOPY := 0x3c.
Definition RETURNDATASIZE := 0x3d.
Definition RETURNDATACOPY := 0x3e.
Definition BLOCKHASH := 0x40.
Definition COINBASE := 0x41.
Definition TIMESTAMP := 0x42.
Definition NUMBER := 0x43.
Definition DIFFICULTY := 0x44.
Definition GASLIMIT := 0x45.
Definition POP := 0x50.
Definition MLOAD := 0x51.
Definition MSTORE := 0x52.
Definition MSTORE8 := 0x53.
Definition SLOAD := 0x54.
Definition SSTORE := 0x55.
Definition JUMP := 0x56.
Definition JUMPI := 0x57.
Definition PC := 0x58.
Definition MSIZE := 0x59.
Definition GAS := 0x5a.
Definition JUMPDEST := 0x5b.
Definition PUSH1 := 0x60.
Definition PUSH32 := 0x7f.
Definition DUP1 := 0x80.
Definition SWAP1 := 0x90.
Definition LOG0 := 0xa0.
Definition CREATE := 0xf0.
Definition CALL := 0xf1.
Definition CALLCODE := 0xf2.
Definition RETURN := 0xf3.
Definition DELEGATECALL := 0xf4.
Definition STATICCALL := 0xfa.
Definition REVERT := 0xfd.
Definition SELFDESTRUCT := 0xff.

Definition IsPush (op : Z) : bool := (PUSH1 <=? op) && (op <=? PUSH32).
Definition IsStaticJump (op : Z) : bool := op =? JUMP.

(** ** [core/vm/analysis.go] *)

(** The loop of [jumpdests]; every iteration moves on by at least one. *)
Fixpoint jumpdests_loop (fuel : nat) (code : bytes) (pc : Z) (m : bytes) : bytes :=
  match fuel with
  | O => m
  | S fuel' =>
      match code !! Z.to_nat pc with
      | None => m
      | Some op =>
          if op =? JUMPDEST then
            jumpdests_loop fuel' code (pc + 1) (alter (fun x => Z.lor x (Z.shiftl 1 (pc `mod` 8))) (Z.to_nat (pc / 8)) m)
          else if IsPush op then jumpdests_loop fuel' code (pc + (op - PUSH1 + 1) + 1) m
          else jumpdests_loop fuel' code (pc + 1) m
      end
  end.

Definition jumpdests (code : bytes) : bytes :=
  jumpdests_loop (length code) code 0 (replicate (Z.to_nat (zlen code / 8 + 1)) 0).

(** [destinations]: the analysed codes by hash. *)
Abbreviation destinations := (gmap hash bytes).

Definition dest_has (d : destinations) (codehash : hash) (code : bytes) (dest : Z) : outcome vm_err (bool * destinations) :=
  let udest := big_Uint64 dest in
  if (big_BitLen dest >=? 63) || (udest >=? zlen code) then Ok (false, d)
  else
    let '(m, d) := match d !! codehash with Some m => (m, d) | None => let m := jumpdests code in (m, <[codehash := m]> d) end in
    match m !! Z.to_nat (udest / 8) with
    | None => Panic
    | Some b => Ok (negb (Z.land b (Z.shiftl 1 (udest `mod` 8)) =? 0), d)
    end.

(** ** [core/vm/contract.go] *)

(** Of the caller, a contract keeps what [AsDelegate] reads of it when it is a
    contract; [c_jumpdests] is a reference to a map that contracts share. *)
Record Contract := mkContract {
  c_CallerAddress : address;
  c_caller : option (address * option Z);
  c_self : address;
  c_jumpdests : nat;
  c_Code : bytes;
  c_CodeHash : hash;
  c_CodeAddr : option address;
  c_Input : bytes;
  c_Gas : Z;
  c_value : option Z;
  c_DelegateCall : bool
}.

Definition with_gas (c : Contract) (gas : Z) : Contract :=
  mkContract (c_CallerAddress c) (c_caller c) (c_self c) (c_jumpdests c) (c_Code c) (c_CodeHash c) (c_CodeAddr c) (c_Input c) gas (c_value c) (c_DelegateCall c).
Definition with_input (c : Contract) (input : bytes) : Contract :=
  mkContract (c_CallerAddress c) (c_caller c) (c_self c) (c_jumpdests c) (c_Code c) (c_CodeHash c) (c_CodeAddr c) input (c_Gas c) (c_value c) (c_DelegateCall c).

(** [ContractRef]: an account or a running contract. *)
Inductive ContractRef := AccountRef (a : address) | ContractOf (c : Contract).

Definition ref_Address (r : ContractRef) : address := match r with AccountRef a => a | ContractOf c => c_self c end.

(** [NewContract] with the maps of destinations there are: a contract that is
    called by an account gets a new one. *)
Definition NewContract (maps : list destinations) (caller : ContractRef) (object : address) (value : option Z) (gas : Z)
    : Contract * list destinations :=
  match caller with
  | ContractOf parent =>
      (mkContract (c_self parent) (Some (c_CallerAddress parent, c_value parent)) object (c_jumpdests parent) [] zero_hash None [] gas value false, maps)
  | AccountRef a => (mkContract a None object (length maps) [] zero_hash None [] gas value false, maps ++ [∅])
  end.

Definition AsDelegate (c : Contract) : outcome vm_err Contract :=
  match c_caller c with
  | None => Panic
  | Some (addr, value) =>
      Ok (mkContract addr (c_caller c) (c_self c) (c_jumpdests c) (c_Code c) (c_CodeHash c) (c_CodeAddr c) (c_Input c) (c_Gas c) value true)
  end.

Definition GetByte (c : Contract) (n : Z) : Z := if n <? zlen (c_Code c) then default 0 (c_Code c !! Z.to_nat n) else 0.
Definition GetOp (c : Contract) (n : Z) : Z := GetByte c n.

Definition UseGas (c : Contract) (gas : Z) : bool * Contract :=
  if c_Gas c <? gas then (false, c) else (true, with_gas c (c_Gas c - gas)).

Definition SetCallCode (c : Contract) (addr : address) (h : hash) (code : bytes) : Contract :=
  mkContract (c_CallerAddress c) (c_caller c) (c_self c) (c_jumpdests c) code h (Some addr) (c_Input c) (c_Gas c) (c_value c) (c_DelegateCall c).
Definition contract_SetCode (c : Contract) (h : hash) (code : bytes) : Contract :=
  mkContract (c_CallerAddress c) (c_caller c) (c_self c) (c_jumpdests c) code h (c_CodeAddr c) (c_Input c) (c_Gas c) (c_value c) (c_DelegateCall c).
