(* ===== verification/Abi.v ===== *)
(** The binary interface of contracts: packing of arguments and unpacking of
    results, [accounts/abi] ([pack.go], [unpack.go], [method.go], [type.go]).

    Types are elementary types, and slices and arrays of integers, booleans and
    addresses; a Go value carries its kind.  Unpacking what was packed gives the
    arguments back, if no argument is an array and no integer is negative in 256
    bits. *)
From S2P Require Import Prelude IstanbulTypes ValidatorSet BigMath VmData Hex.

Inductive abi_err := ErrTypeCheck | ErrArgumentCount | ErrInsufficient | ErrBadBool | ErrUnsupportedSlice | ErrEmptyOutput | ErrUnexpectedPanic.

(** ** Types and values *)

Inductive abi_type :=
| IntTy (size : Z) | UintTy (size : Z) | BoolTy | StringTy | AddressTy | FixedBytesTy (n : Z) | BytesTy
| SliceTy (elem : abi_type) | ArrayTy (n : Z) (elem : abi_type).

Inductive kind := KInt (size : Z) | KUint (size : Z) | KBig.

#[export] Instance kind_eq_dec : EqDecision kind.
Proof. solve_decision. Defined.

(** [reflectIntKindAndType] *)
Definition reflectIntKindAndType (unsigned : bool) (size : Z) : kind :=
  if bool_decide (size ∈ [8; 16; 32; 64]) then (if unsigned then KUint size else KInt size) else KBig.

Inductive abi_value :=
| ANum (k : kind) (z : Z) | ABool (b : bool) | AString (s : bytes) | AAddress (a : address) | AFixed (b : bytes) | ABytes (b : bytes)
| AList (l : list abi_value).

(** [requiresLengthPrefix] *)
Definition requiresLengthPrefix (t : abi_type) : bool := match t with StringTy | BytesTy | SliceTy _ => true | _ => false end.

(** ** Packing *)

Definition abi_U256 (n : Z) : bytes := PaddedBigBytes (U256 n) 32.
Definition packNum (z : Z) : bytes := abi_U256 z.

Definition packBytesSlice (b : bytes) (l : Z) : bytes := packNum l ++ RightPadBytes b ((l + 31) / 32 * 32).

(** [typeCheck] and [packElement] *)
Definition packElement (t : abi_type) (v : abi_value) : outcome abi_err bytes :=
  match t, v with
  | IntTy size, ANum k z => if decide (k = reflectIntKindAndType false size) then Ok (packNum z) else Err ErrTypeCheck
  | UintTy size, ANum k z => if decide (k = reflectIntKindAndType true size) then Ok (packNum z) else Err ErrTypeCheck
  | StringTy, AString s => Ok (packBytesSlice s (zlen s))
  | AddressTy, AAddress a => Ok (LeftPadBytes a 32)
  | BoolTy, ABool b => Ok (PaddedBigBytes (if b then 1 else 0) 32)
  | BytesTy, ABytes b => Ok (packBytesSlice b (zlen b))
  | FixedBytesTy n, AFixed b => if zlen b =? n then Ok (RightPadBytes b 32) else Err ErrTypeCheck
  | _, _ => Err ErrTypeCheck
  end.

Fixpoint packElements (t : abi_type) (vs : list abi_value) : outcome abi_err bytes :=
  match vs with
  | [] => Ok []
  | v :: vs => let! p := packElement t v in let! ps := packElements t vs in Ok (p ++ ps)
  end.

(** [Type.pack] *)
Definition abi_pack (t : abi_type) (v : abi_value) : outcome abi_err bytes :=
  match t, v with
  | SliceTy elem, AList vs => let! packed := packElements elem vs in Ok (packBytesSlice packed (zlen vs))
  | ArrayTy n elem, AList vs => if zlen vs =? n then packElements elem vs else Err ErrTypeCheck
  | _, _ => packElement t v
  end.

(** [Method.pack]: the loop over the arguments. *)
Fixpoint pack_args (n : Z) (ts : list abi_type) (vs : list abi_value) (ret variableInput : bytes) : outcome abi_err bytes :=
  match ts, vs with
  | t :: ts, v :: vs =>
      let! packed := abi_pack t v in
      if requiresLengthPrefix t
      then pack_args n ts vs (ret ++ packNum (n * 32 + zlen variableInput)) (variableInput ++ packed)
      else pack_args n ts vs (ret ++ packed) variableInput
  | _, _ => Ok (ret ++ variableInput)
  end.

Definition method_pack (inputs : list abi_type) (args : list abi_value) : outcome abi_err bytes :=
  if negb (zlen args =? zlen inputs) then Err ErrArgumentCount else pack_args (zlen inputs) inputs args [] [].

(** ** Unpacking *)

(** The conversion of an unsigned integer of [w] bits to the signed one. *)
Definition to_signed (w x : Z) : Z := if x <? 2 ^ (w - 1) then x else x - 2 ^ w.

Definition readInteger (k : kind) (b : bytes) : abi_value :=
  let low size := be_value (drop (length b - Z.to_nat (size / 8)) b) in
  ANum k (match k with KUint size => low size | KInt size => to_signed size (low size) | KBig => be_value b end).

Definition readBool (word : bytes) : outcome abi_err abi_value :=
  if negb (zlen word =? 32) then Err ErrInsufficient
  else if negb (forallb (Z.eqb 0) (take 31 word)) then Err ErrBadBool
  else match default 0 (word !! 31%nat) with 0 => Ok (ABool false) | 1 => Ok (ABool true) | _ => Err ErrBadBool end.

(** A word that is an element. *)
Definition readElement (t : abi_type) (b : bytes) : outcome abi_err abi_value :=
  match t with
  | IntTy size => Ok (readInteger (reflectIntKindAndType false size) b)
  | UintTy size => Ok (readInteger (reflectIntKindAndType true size) b)
  | BoolTy => readBool b
  | AddressTy => Ok (AAddress (BytesToAddress b))
  | FixedBytesTy _ => Ok (AFixed b)
  | BytesTy => Ok (ABytes b)
  | StringTy => Ok (AString b)
  | _ => Err ErrUnsupportedSlice
  end.

(** The loop over the elements of a slice. *)
Fixpoint readElements (n : nat) (t : abi_type) (b : bytes) : outcome abi_err (list abi_value) :=
  match n with
  | O => Ok []
  | S n => let! v := readElement t (take 32 b) in let! vs := readElements n t (drop 32 b) in Ok (v :: vs)
  end.

Definition static_elem (t : abi_type) : bool := match t with IntTy _ | UintTy _ | BoolTy | AddressTy => true | _ => false end.

(** [binary.BigEndian.Uint64] of the end of the word at [i], as an [int]. *)
Definition word_int (output : bytes) (i : Z) : outcome abi_err Z := let! w := slice output (i + 24) (i + 32) in Ok (i64 (be_value w)).

(** A negative number of elements reads none; a number whose size overflows reads
    past the capacity. *)
Definition toGoSlice (i : Z) (t : abi_type) (output : bytes) : outcome abi_err abi_value :=
  let index := i * 32 in
  if index + 32 >? zlen output then Err ErrInsufficient
  else
    match t with
    | SliceTy elem =>
        if negb (static_elem elem) then Err ErrUnsupportedSlice
        else
          let! offset := word_int output index in
          if i64 (offset + 32) >? zlen output then Err ErrInsufficient
          else
            let! sl := slice output offset (zlen output) in
            let! size := word_int sl 0 in
            let! sl := slice sl 32 (zlen sl) in
            if i64 (size * 32) >? zlen sl then Err ErrInsufficient
            else
              let! rd := slice sl 0 (i64 (size * 32)) in
              if size * 32 >? zlen sl then Panic
              else let! vs := readElements (Z.to_nat size) elem rd in Ok (AList vs)
    | ArrayTy n elem =>
        if negb (static_elem elem) then Err ErrUnsupportedSlice
        else if index + 32 * n >? zlen output then Err ErrInsufficient
        else
          let! rd := slice output index (index + n * 32) in
          let! vs := readElements (Z.to_nat n) elem rd in Ok (AList vs)
    | _ => Err ErrUnsupportedSlice
    end.

Definition toGoType (i : Z) (t : abi_type) (output : bytes) : outcome abi_err abi_value :=
  match t with
  | SliceTy _ | ArrayTy _ _ => toGoSlice i t output
  | _ =>
      let index := i * 32 in
      if index + 32 >? zlen output then Err ErrInsufficient
      else
        match t with
        | StringTy | BytesTy =>
            let! offset := word_int output index in
            if i64 (offset + 32) >? zlen output then Err ErrInsufficient
            else
              let! size := word_int output offset in
              if i64 (offset + 32 + size) >? zlen output then Err ErrInsufficient
              else let! b := slice output (i64 (offset + 32)) (i64 (offset + 32 + size)) in readElement t b
        | _ => let! b := slice output index (index + 32) in readElement t b
        end
  end.

(** [Unpack] into a struct with a field for each of several outputs; a panic is
    recovered. *)
Fixpoint unpack_args (i : Z) (ts : list abi_type) (output : bytes) : outcome abi_err (list abi_value) :=
  match ts with
  | [] => Ok []
  | t :: ts => let! v := toGoType i t output in let! vs := unpack_args (i + 1) ts output in Ok (v :: vs)
  end.

Definition Unpack (outputs : list abi_type) (output : bytes) : outcome abi_err (list abi_value) :=
  if zlen output =? 0 then Err ErrEmptyOutput
  else match unpack_args 0 outputs output with Panic => Err ErrUnexpectedPanic | r => r end.

(** [Method.Id] of a signature. *)
Definition Method_Id `{Crypto} (sig : bytes) : bytes := take 4 (Keccak256 sig).

(** ** Round trips *)

(** Values that a type can hold. *)
Definition num_ok (k : kind) (z : Z) : Prop :=
  match k with
  | KUint size => 0 <= z < 2 ^ size
  | KInt size => - 2 ^ (size - 1) <= z < 2 ^ (size - 1)
  | KBig => 0 <= z < 2 ^ 256
  end.

Definition elem_ok (v : abi_value) : Prop :=
  match v with
  | ANum k z => num_ok k z
  | ABool _ => True
  | AAddress a => zlen a = 20
  | AString b | ABytes b => zlen b < 2 ^ 62
  | AFixed b => zlen b <= 32
  | AList _ => False
  end.

Definition abi_value_ok (v : abi_value) : Prop :=
  match v with AList vs => zlen vs < 2 ^ 57 /\ Forall elem_ok vs | v => elem_ok v end.

(** Fixed bytes are read with their padding. *)
Definition decoded (v : abi_value) : abi_value := match v with AFixed b => AFixed (RightPadBytes b 32) | v => v end.

(** *** Words *)

Lemma packNum_eq z : packNum z = be_pad 32 (z `mod` 2 ^ 256).
Proof.
  unfold packNum, abi_U256. rewrite U256_mod.
  rewrite PaddedBigBytes_ok; [done|lia|]. pose proof (Z.mod_pos_bound z (2 ^ 256) ltac:(lia)). lia.
Qed.

Lemma zlen_packNum z : zlen (packNum z) = 32.
Proof. rewrite packNum_eq. apply zlen_be_pad. Qed.

Lemma low_pad k n m : (k <= m)%nat -> drop (m - k) (be_pad m n) = be_pad k n.
Proof. intros Hk. replace m with ((m - k) + k)%nat at 2 by lia. rewrite be_pad_app, drop_app_length'; [done|]. by rewrite length_be_pad. Qed.

Lemma low_word size z : size ∈ [8; 16; 32; 64] ->
  be_value (drop (length (packNum z) - Z.to_nat (size / 8)) (packNum z)) = z `mod` 2 ^ size.
Proof.
  intros Hs. assert (exists k, size = 8 * Z.of_nat k /\ (k <= 8)%nat) as (k & -> & Hk).
  { rewrite !elem_of_cons, elem_of_nil in Hs. destruct Hs as [->|[->|[->|[->|[]]]]]; [exists 1%nat|exists 2%nat|exists 4%nat|exists 8%nat]; done || (split; [done|lia]). }
  rewrite packNum_eq, length_be_pad. replace (8 * Z.of_nat k / 8) with (Z.of_nat k) by (rewrite Z.mul_comm, Z.div_mul; lia). rewrite Nat2Z.id, low_pad by lia.
  rewrite be_value_pad by (apply Z.mod_pos_bound; lia). change 256 with (2 ^ 8). rewrite <- Z.pow_mul_r by lia.
  symmetry. apply Znumtheory.Zmod_div_mod; [lia..|]. exists (2 ^ (256 - 8 * Z.of_nat k)). rewrite <- Z.pow_add_r by lia. f_equal. lia.
Qed.

Lemma reflectInt_size unsigned size k : k = reflectIntKindAndType unsigned size ->
  match k with KInt s | KUint s => s ∈ [8; 16; 32; 64] | KBig => True end.
Proof. intros ->. unfold reflectIntKindAndType. case_bool_decide; [by destruct unsigned|done]. Qed.

Lemma read_packNum unsigned size k z : k = reflectIntKindAndType unsigned size -> num_ok k z -> readInteger k (packNum z) = ANum k z.
Proof.
  intros Hk Hz. apply reflectInt_size in Hk. unfold readInteger. f_equal. destruct k as [s|s|]; simpl in Hz.
  - assert (0 < s) by (rewrite !elem_of_cons, elem_of_nil in Hk; lia). rewrite low_word by done. unfold to_signed. replace s with (s - 1 + 1) in * by lia. rewrite Z.pow_add_r in * by lia. change (2 ^ 1) with 2 in *.
    replace (s - 1 + 1 - 1) with (s - 1) in * by lia. set (h := 2 ^ (s - 1)) in *. destruct (Z.lt_ge_cases z 0).
    + replace (z `mod` (h * 2)) with (z + h * 2) by (symmetry; rewrite <- (Z.mod_add z 1) by lia; rewrite Z.mod_small; lia). rewrite (proj2 (Z.ltb_ge _ _)); lia.
    + rewrite Z.mod_small by lia. rewrite (proj2 (Z.ltb_lt _ _)); lia.
  - rewrite low_word by done. by apply Z.mod_small.
  - rewrite packNum_eq, be_value_pad by (apply Z.mod_pos_bound; lia). rewrite (Z.mod_small z) by done. apply Z.mod_small. change (256 ^ Z.of_nat 32) with (2 ^ 256). done.
Qed.

(** An element is one word, which is read back. *)
Lemma LeftPad_address a : zlen a = 20 -> zlen (LeftPadBytes a 32) = 32 /\ BytesToAddress (LeftPadBytes a 32) = a.
Proof.
  intros Ha. unfold LeftPadBytes. rewrite Ha. change (32 <=? 20) with false. change (Z.to_nat (32 - 20)) with 12%nat. cbv iota.
  assert (zlen (replicate 12 0 ++ a) = 32) as E by (unfold zlen in *; rewrite length_app, length_replicate; lia). split; [done|].
  unfold BytesToAddress. rewrite E. change (32 >? 20) with true. cbv iota. change (Z.to_nat (32 - 20)) with 12%nat. rewrite drop_app_length' by done. by rewrite Ha.
Qed.

Definition is_word_type (t : abi_type) : bool := negb (requiresLengthPrefix t) && match t with ArrayTy _ _ => false | _ => true end.

Lemma packElement_word t v p : packElement t v = Ok p -> elem_ok v -> is_word_type t = true -> zlen p = 32 /\ readElement t p = Ok (decoded v).
Proof.
  destruct t, v; try done; cbn [packElement elem_ok].
  1,2: case_decide as Hk; [|done]; intros [= <-] Hv _; split; [apply zlen_packNum|]; cbn [readElement decoded]; rewrite <- Hk; f_equal; by eapply read_packNum.
  - intros [= <-] _ _. by destruct b.
  - intros [= <-] Ha _. destruct (LeftPad_address a Ha) as [Hl He]. split; [done|]. cbn [readElement decoded]. by rewrite He.
  - destruct (zlen b =? n); [|done]. intros [= <-] Hb _. split; [|done]. unfold RightPadBytes. destruct (Z.leb_spec 32 (zlen b)); [lia|].
    unfold zlen in *. rewrite length_app, length_replicate. lia.
Qed.

Lemma packElements_words t vs p rest : packElements t vs = Ok p -> Forall elem_ok vs -> is_word_type t = true ->
  zlen p = 32 * zlen vs /\ readElements (length vs) t (p ++ rest) = Ok (map decoded vs).
Proof.
  intros E Hv Ht. revert p rest E. induction Hv as [|v vs Hv Hvs IH]; intros p rest; cbn [packElements].
  - intros [= <-]. done.
  - destruct (packElement t v) as [q| |] eqn:Eq; [|done..]. destruct (packElements t vs) as [qs| |] eqn:Eqs; [|done..]. cbn [obind]. intros [= <-].
    destruct (packElement_word _ _ _ Eq Hv Ht) as [Lq Rq]. destruct (IH qs rest eq_refl) as [Lqs Rqs].
    split; [unfold zlen in *; rewrite length_app, length_cons; lia|]. cbn [length readElements].
    rewrite <- app_assoc, take_app_length', drop_app_length' by (unfold zlen in Lq; lia). rewrite Rq. cbn [obind]. by rewrite Rqs.
Qed.

(** *** Positions *)

(** [w] is at [pos] of [out]. *)
Definition at_pos (out : bytes) (pos : Z) (w : bytes) : Prop := exists pre post, out = pre ++ w ++ post /\ zlen pre = pos.

Lemma zlen_cat (a b : bytes) : zlen (a ++ b) = zlen a + zlen b.
Proof. unfold zlen. rewrite length_app. lia. Qed.

Lemma zlen_nn (a : bytes) : 0 <= zlen a.
Proof. unfold zlen. lia. Qed.

Lemma at_slice {E} out pos w : at_pos out pos w -> slice (E := E) out pos (pos + zlen w) = Ok w /\ 0 <= pos /\ pos + zlen w <= zlen out.
Proof.
  intros (pre & post & -> & <-). pose proof (zlen_nn pre). pose proof (zlen_nn w). pose proof (zlen_nn post). rewrite !zlen_cat. split; [|lia].
  unfold slice. rewrite !zlen_cat, (proj2 (Z.leb_le 0 _)), (proj2 (Z.leb_le (zlen pre) _)), (proj2 (Z.leb_le (zlen pre + _) _)) by lia. cbn [andb].
  f_equal. rewrite drop_app_length' by (unfold zlen; lia). apply take_app_length'. unfold zlen. lia.
Qed.

Lemma at_app out pos a b : at_pos out pos (a ++ b) -> at_pos out pos a /\ at_pos out (pos + zlen a) b.
Proof.
  intros (pre & post & -> & <-). split.
  - exists pre, (b ++ post). by rewrite <- app_assoc.
  - exists (pre ++ a), post. by rewrite zlen_cat, <- !app_assoc.
Qed.

Lemma at_head out w : at_pos (w ++ out) 0 w.
Proof. by exists [], out. Qed.

Lemma at_later out pos x w : at_pos out pos w -> at_pos (x ++ out) (zlen x + pos) w.
Proof. intros (pre & post & -> & <-). exists (x ++ pre), post. by rewrite zlen_cat, <- app_assoc. Qed.

Lemma at_word out pos n : at_pos out pos (packNum n) -> 0 <= n < 2 ^ 63 -> word_int out pos = Ok n.
Proof.
  intros Ha Hn. assert (packNum n = be_pad 24 (n / 256 ^ Z.of_nat 8) ++ be_pad 8 n) as E.
  { rewrite packNum_eq, Z.mod_small by lia. apply (be_pad_app 8 24). }
  rewrite E in Ha. apply at_app in Ha as [_ Ha]. rewrite zlen_be_pad in Ha. apply (at_slice (E := abi_err)) in Ha as [Ha _]. rewrite zlen_be_pad in Ha.
  change (Z.of_nat 24) with 24 in Ha. change (Z.of_nat 8) with 8 in Ha. unfold word_int. replace (pos + 32) with (pos + 24 + 8) by lia. rewrite Ha. cbn [obind]. f_equal. rewrite be_value_pad by lia.
  change (256 ^ Z.of_nat 8) with (2 ^ 64). rewrite Z.mod_small by lia. unfold i64, u64. rewrite Z.mod_small by lia. rewrite (proj2 (Z.ltb_lt _ _)) by lia. done.
Qed.

(** *** The layout of the arguments *)

(** Where the packed value [p] of the [i]-th argument is, [base] being the offset of
    the first variable value. *)
Definition placed (heads tails : bytes) (base i : Z) (t : abi_type) (p : bytes) : Prop :=
  if requiresLengthPrefix t
  then exists off, at_pos heads (32 * i) (packNum (base + off)) /\ at_pos tails off p
  else at_pos heads (32 * i) p.

Lemma placed_later heads tails base i t p x y base' : placed heads tails base i t p -> zlen x = 32 -> base = base' + zlen y ->
  placed (x ++ heads) (y ++ tails) base' (i + 1) t p.
Proof.
  unfold placed. intros Hp Lx ->. replace (32 * (i + 1)) with (zlen x + 32 * i) by lia. destruct (requiresLengthPrefix t); [|by apply at_later].
  destruct Hp as (off & Hh & Ht). exists (zlen y + off). rewrite Z.add_assoc. split; by apply at_later.
Qed.

Definition no_array (t : abi_type) : bool := match t with ArrayTy _ _ => false | _ => true end.

Lemma abi_pack_word t v p : abi_pack t v = Ok p -> abi_value_ok v -> no_array t = true -> requiresLengthPrefix t = false -> zlen p = 32 /\ readElement t p = Ok (decoded v).
Proof.
  intros E Hv Ha Hr. assert (is_word_type t = true) by (unfold is_word_type; rewrite Hr; by destruct t).
  destruct t; try done; cbn [abi_pack] in E; (eapply packElement_word; [done| |done]); by destruct v.
Qed.

Lemma pack_args_layout n ts vs ret var out : length ts = length vs -> pack_args n ts vs ret var = Ok out -> Forall (fun t => no_array t = true) ts ->
  Forall abi_value_ok vs ->
  exists heads tails, out = ret ++ heads ++ var ++ tails /\ zlen heads = 32 * zlen ts /\
  forall i t v, ts !! i = Some t -> vs !! i = Some v -> exists p, abi_pack t v = Ok p /\ placed heads tails (n * 32 + zlen var) (Z.of_nat i) t p.
Proof.
  revert vs ret var. induction ts as [|t ts IH]; intros [|v vs] ret var Hl; try done; cbn [pack_args].
  { intros [= <-] _ _. exists [], []. rewrite app_nil_r. split_and!; done. }
  destruct (abi_pack t v) as [p| |] eqn:Ep; [|done..]. cbn [obind]. intros E Ht Hv. inversion_clear Ht as [|? ? Ht' Hts]. inversion_clear Hv as [|? ? Hv' Hvs].
  set (hd := if requiresLengthPrefix t then packNum (n * 32 + zlen var) else p). set (tl := if requiresLengthPrefix t then p else []).
  assert (zlen hd = 32) as Lh. { unfold hd. destruct (requiresLengthPrefix t) eqn:Er; [apply zlen_packNum|by eapply abi_pack_word]. }
  assert (pack_args n ts vs (ret ++ hd) (var ++ tl) = Ok out) as E' by (unfold hd, tl; destruct (requiresLengthPrefix t); rewrite ?app_nil_r; done).
  apply IH in E' as (heads & tails & -> & Lhs & Hi); [|by injection Hl|done|done]. exists (hd ++ heads), (tl ++ tails).
  split; [by rewrite <- !app_assoc|]. split; [rewrite zlen_cat, Lh; unfold zlen in *; rewrite length_cons; lia|].
  intros [|i] t' v'; cbn [lookup list_lookup].
  - intros [= <-] [= <-]. exists p. split; [done|]. unfold placed, hd, tl. destruct (requiresLengthPrefix t); [|apply at_head].
    exists 0. rewrite Z.add_0_r. split; apply at_head.
  - intros Hti Hvi. destruct (Hi i t' v' Hti Hvi) as (q & Eq & Hq). exists q. split; [done|]. replace (Z.of_nat (S i)) with (Z.of_nat i + 1) by lia.
    eapply placed_later; [done|done|]. rewrite zlen_cat. lia.
Qed.

(** *** Reading back *)

Lemma i64_small x : 0 <= x < 2 ^ 63 -> i64 x = x.
Proof. intros Hx. unfold i64, u64. rewrite Z.mod_small by lia. by rewrite (proj2 (Z.ltb_lt _ _)) by lia. Qed.

Lemma gtb_le x y : x <= y -> (x >? y) = false.
Proof. intros. rewrite Z.gtb_ltb. apply Z.ltb_ge. lia. Qed.

Lemma RightPad_app b l : exists pad, RightPadBytes b l = b ++ pad.
Proof. unfold RightPadBytes. destruct (l <=? zlen b); [exists []; by rewrite app_nil_r|eauto]. Qed.

(** The values whose bytes are elsewhere. *)
Lemma read_variable i t b out off : t = StringTy \/ t = BytesTy -> zlen out < 2 ^ 62 -> 0 <= i -> 0 <= off ->
  at_pos out (32 * i) (packNum off) -> at_pos out off (packBytesSlice b (zlen b)) ->
  toGoType i t out = readElement t b.
Proof.
  intros Ht Hout Hi Hoff Hw Hp. unfold packBytesSlice in Hp. apply at_app in Hp as [Hsize Hb]. rewrite zlen_packNum in Hb.
  destruct (RightPad_app b ((zlen b + 31) / 32 * 32)) as [pad Epad]. rewrite Epad in Hb. apply at_app in Hb as [Hb _].
  pose proof (zlen_nn b). destruct (at_slice (E := abi_err) _ _ _ Hb) as (Sb & _ & Lb). destruct (at_slice (E := abi_err) _ _ _ Hw) as (_ & _ & Lw). rewrite zlen_packNum in Lw.
  assert (toGoType i t out = let index := i * 32 in if index + 32 >? zlen out then Err ErrInsufficient
    else let! offset := word_int out index in if i64 (offset + 32) >? zlen out then Err ErrInsufficient
    else let! size := word_int out offset in if i64 (offset + 32 + size) >? zlen out then Err ErrInsufficient
    else let! b := slice out (i64 (offset + 32)) (i64 (offset + 32 + size)) in readElement t b) as -> by (destruct Ht as [-> | ->]; done).
  cbv zeta. rewrite (Z.mul_comm i 32), gtb_le, (at_word _ _ _ Hw) by lia. cbn [obind]. rewrite i64_small, gtb_le, (at_word _ _ _ Hsize) by lia. cbn [obind].
  rewrite i64_small, gtb_le, Sb by lia. done.
Qed.

Lemma at_rest {E} out pos w : at_pos out pos w -> exists rest, slice (E := E) out pos (zlen out) = Ok (w ++ rest).
Proof.
  intros (pre & post & -> & <-). exists post. replace (zlen (pre ++ w ++ post)) with (zlen pre + zlen (w ++ post)) by (by rewrite (zlen_cat pre)).
  apply at_slice. exists pre, []. by rewrite app_nil_r.
Qed.

Lemma read_slice i elem vs p out off : zlen out < 2 ^ 62 -> 0 <= i -> 0 <= off -> static_elem elem = true -> packElements elem vs = Ok p -> Forall elem_ok vs -> zlen vs < 2 ^ 57 ->
  at_pos out (32 * i) (packNum off) -> at_pos out off (packBytesSlice p (zlen vs)) -> toGoType i (SliceTy elem) out = Ok (AList (map decoded vs)).
Proof.
  intros Hout Hi Hoff Hs Ep Hv Hn Hw Hp. assert (is_word_type elem = true) as Ht by (by destruct elem).
  destruct (packElements_words elem vs p [] Ep Hv Ht) as [Lp _]. destruct (at_slice (E := abi_err) _ _ _ Hw) as (_ & _ & Lw). rewrite zlen_packNum in Lw.
  assert (packBytesSlice p (zlen vs) = packNum (zlen vs) ++ p) as Eb.
  { unfold packBytesSlice, RightPadBytes. rewrite (proj2 (Z.leb_le _ _)); [done|]. rewrite Lp. assert (0 <= zlen vs) by (unfold zlen; lia).
    destruct (decide (zlen vs = 0)) as [->|]; [done|]. pose proof (Z.div_le_upper_bound (zlen vs + 31) 32 (zlen vs)). lia. }
  rewrite Eb in Hp. destruct (at_slice (E := abi_err) _ _ _ Hp) as (_ & _ & Lo). rewrite zlen_cat, zlen_packNum in Lo. destruct (at_rest (E := abi_err) _ _ _ Hp) as [rest Er].
  assert (0 <= zlen vs) by (unfold zlen; lia). pose proof (zlen_nn rest).
  cbn [toGoType]. unfold toGoSlice. cbv zeta. rewrite (Z.mul_comm i 32), gtb_le, Hs, (at_word _ _ _ Hw) by lia. cbn [obind negb].
  rewrite i64_small, gtb_le, Er by lia. cbn [obind]. rewrite <- app_assoc. rewrite (at_word _ 0 (zlen vs)); [|by apply at_head|lia]. cbn [obind].
  assert (slice (E := abi_err) (packNum (zlen vs) ++ p ++ rest) 32 (zlen (packNum (zlen vs) ++ p ++ rest)) = Ok (p ++ rest)) as ->.
  { rewrite zlen_cat, zlen_packNum. apply at_slice. exists (packNum (zlen vs)), []. rewrite app_nil_r, zlen_packNum. done. }
  cbn [obind]. rewrite zlen_cat, Lp, i64_small, gtb_le by lia. assert (slice (E := abi_err) (p ++ rest) 0 (zlen vs * 32) = Ok p) as ->.
  { replace (zlen vs * 32) with (0 + zlen p) by lia. apply at_slice. apply at_head. }
  cbn [obind]. replace (Z.to_nat (zlen vs)) with (length vs) by (unfold zlen; lia).
  destruct (packElements_words elem vs p [] Ep Hv Ht) as [_ Rp]. rewrite app_nil_r in Rp. by rewrite Rp.
Qed.

Definition supported (t : abi_type) : bool := match t with ArrayTy _ _ => false | SliceTy elem => static_elem elem | _ => true end.

(** Fixed bytes in a slice are not supported. *)
Definition decoded_value (v : abi_value) : abi_value := match v with AList vs => AList (map decoded vs) | v => decoded v end.

Lemma at_prefix out pos w more : at_pos out pos w -> at_pos (out ++ more) pos w.
Proof. intros (pre & post & -> & <-). exists pre, (post ++ more). by rewrite <- !app_assoc. Qed.

Lemma toGoType_placed heads tails i t v p : abi_pack t v = Ok p -> abi_value_ok v -> supported t = true -> 0 <= i -> zlen (heads ++ tails) < 2 ^ 62 ->
  placed heads tails (zlen heads) i t p -> toGoType i t (heads ++ tails) = Ok (decoded_value v).
Proof.
  intros Ep Hv Ht Hi Hl Hp. unfold placed in Hp. destruct (requiresLengthPrefix t) eqn:Er.
  - destruct Hp as (off & Hh & Htl). apply (at_prefix _ _ _ tails) in Hh. destruct (at_slice (E := abi_err) _ _ _ Htl) as (_ & Hoff & _).
    apply (at_later _ _ heads) in Htl. pose proof (zlen_nn heads).
    destruct t; try done.
    + destruct v; try done. injection Ep as <-. rewrite (read_variable i StringTy s (heads ++ tails) (zlen heads + off) (or_introl eq_refl) Hl Hi ltac:(lia) Hh Htl). done.
    + destruct v; try done. injection Ep as <-. rewrite (read_variable i BytesTy b (heads ++ tails) (zlen heads + off) (or_intror eq_refl) Hl Hi ltac:(lia) Hh Htl). done.
    + destruct v; try done. cbn [abi_pack] in Ep. destruct (packElements t l) as [q| |] eqn:Eq; [|done..]. injection Ep as <-. destruct Hv as [Hn Hv].
      by apply (read_slice i t l q (heads ++ tails) (zlen heads + off) Hl Hi ltac:(lia) Ht Eq Hv Hn Hh Htl).
  - assert (no_array t = true) as Ha by (by destruct t). destruct (abi_pack_word t v p Ep Hv Ha Er) as [Lp Rp].
    apply (at_prefix _ _ _ tails) in Hp. destruct (at_slice (E := abi_err) _ _ _ Hp) as (Sp & _ & Lo). rewrite Lp in *.
    assert (toGoType i t (heads ++ tails) = readElement t p) as ->.
    { rewrite (Z.mul_comm 32 i) in *. destruct t; try done; cbn [toGoType]; cbv zeta; rewrite gtb_le by lia; rewrite Sp; done. }
    rewrite Rp. destruct v; try done. by destruct t.
Qed.




(** An argument after an array is not found: the offset does not count the words
    of the array. *)
Example array_offset : exists out, method_pack [ArrayTy 2 (UintTy 256); StringTy] [AList [ANum KBig 1; ANum KBig 2]; AString [72; 105]] = Ok out /\
  Unpack [ArrayTy 2 (UintTy 256); StringTy] out <> Ok [AList [ANum KBig 1; ANum KBig 2]; AString [72; 105]].
Proof. eexists. split; [vm_compute; reflexivity|]. vm_compute. discriminate. Qed.

(** A negative number of 256 bits is read as a positive one. *)
Example negative_int256 : exists out, method_pack [IntTy 256] [ANum KBig (-1)] = Ok out /\ Unpack [IntTy 256] out = Ok [ANum KBig (2 ^ 256 - 1)].
Proof. eexists. split; [vm_compute; reflexivity|]. vm_compute. reflexivity. Qed.

(** Whatever the bytes, unpacking returns. *)
Theorem Unpack_no_panic ts out : Unpack ts out <> Panic.
Proof. unfold Unpack. destruct (zlen out =? 0); [done|]. by destruct (unpack_args 0 ts out). Qed.
