(* ===== verification/Ota.v ===== *)
(** One-time accounts: [core/vm/ota_storage.go] and the reserved addresses of
    [core/vm/precompiled_contracts_addr.go].

    The balance of a one-time account is stored under its abscissa AX at one address,
    its full address at an address made of the balance, and the key images of
    accounts that were spent at a third one. *)
From S2P Require Import Prelude RlpEncode RlpDecode RlpRaw Storage IstanbulTypes ValidatorSet Trie StateDB StateSpec StateTheorems BigMath VmProg VmData Hex.

(** ** Results of native contracts *)

Definition res (A : Type) : Type := A + vm_err.

Definition rbind {A B} (p : prog (res A)) (f : A -> prog (res B)) : prog (res B) :=
  pbind p (fun r => match r with inl a => f a | inr e => Return (inr e) end).

Notation "'try' x '<-' c ';' k" := (rbind c (fun x => k)) (at level 10, x pattern, c at level 100, k at level 200) : go_scope.

Definition ok {A} (a : A) : prog (res A) := Return (inl a).
Definition fail {A} (e : vm_err) : prog (res A) := Return (inr e).
Definition look {A} (e : vm_ev A) : prog (res A) := do r <- call e; ok r.

(** A computation without effects. *)
Definition lift {E A} (err : E -> vm_err) (o : outcome E A) : prog (res A) :=
  match o with Ok a => ok a | Err e => fail (err e) | Panic => Crash [] end.

Definition ErrUnknown := errPrecompile 1.
Definition ErrInvalidOTAAddr := errPrecompile 2.
Definition ErrInvalidOTAAX := errPrecompile 3.
Definition ErrOTAExistAlready := errPrecompile 4.
Definition ErrOTABalanceIsZero := errPrecompile 5.
Definition errInvalidInputParam := errPrecompile 6.
Definition errOTANotExist := errPrecompile 7.
Definition errDifferentBalances := errPrecompile 8.

Definition WAddressLength : Z := 66.

(** ** Addresses *)

Definition otaBalanceStorageAddr : address := BytesToAddress (be_bytes 300).
Definition otaImageStorageAddr : address := BytesToAddress (be_bytes 301).

(** The decimal text of a number that is not negative. *)
Fixpoint decimal (fuel : nat) (n : Z) (acc : bytes) : bytes :=
  match fuel with
  | O => acc
  | S fuel => let acc := (48 + n `mod` 10) :: acc in if n <? 10 then acc else decimal fuel (n / 10) acc
  end.
Definition big_String (n : Z) : bytes := decimal (S (Z.to_nat (Z.log2 n))) n [].

Definition HexToAddress (s : bytes) : address := BytesToAddress (FromHex s).

(** [OTABalance2ContractAddr] *)
Definition OTABalance2ContractAddr (balance : Z) : address := HexToAddress (big_String balance).

Definition GetAXFromWanAddr (otaWanAddr : bytes) : outcome vm_err bytes :=
  if negb (zlen otaWanAddr =? WAddressLength) then Err ErrInvalidOTAAddr else Ok (take 32 (drop 1 otaWanAddr)).

Definition IsAXPointToWanAddr (AX otaWanAddr : bytes) : bool :=
  match GetAXFromWanAddr otaWanAddr with Ok findAX => bool_decide (findAX = AX) | _ => false end.

(** ** Storage *)

Definition GetOtaBalanceFromAX (otaAX : bytes) : prog (res Z) :=
  if negb (zlen otaAX =? HashLength) then fail ErrInvalidOTAAX
  else
    try balance <- look (EvGetStateByteArray otaBalanceStorageAddr (BytesToHash otaAX));
    if zlen balance =? 0 then ok 0 else ok (be_value balance).

Definition SetOtaBalanceToAX (otaAX : bytes) (balance : Z) : prog (res unit) :=
  if negb (zlen otaAX =? HashLength) then fail ErrInvalidOTAAX
  else look (EvSetStateByteArray otaBalanceStorageAddr (BytesToHash otaAX) (be_bytes (Z.abs balance))).

(** Whether it exists, and its balance. *)
Definition CheckOTAAXExist (otaAX : bytes) : prog (res (option Z)) :=
  if negb (zlen otaAX =? HashLength) then fail ErrInvalidOTAAX
  else
    try balance <- GetOtaBalanceFromAX otaAX;
    if balance =? 0 then ok None else ok (Some balance).

Definition CheckOTALongAddrExist (otaLongAddr : bytes) : prog (res (option Z)) :=
  if negb (zlen otaLongAddr =? 33) then fail ErrInvalidOTAAX
  else
    let otaAX := take 32 (drop 1 otaLongAddr) in
    try balance <- GetOtaBalanceFromAX otaAX;
    if balance =? 0 then ok None
    else
      try otaStored <- look (EvGetStateByteArray (OTABalance2ContractAddr balance) (BytesToHash otaAX));
      if zlen otaStored =? 0 then ok None
      else
        try stored <- lift id (slice otaStored 0 33);
        if bool_decide (otaLongAddr = stored) then ok (Some balance) else ok None.

(** [balance] is the balance of the accounts before. *)
Fixpoint bat_check (otaLongAddrs : list bytes) (balance : option Z) : prog (res (option Z)) :=
  match otaLongAddrs with
  | [] => ok balance
  | otaLongAddr :: rest =>
      if negb (zlen otaLongAddr =? 33) then fail ErrInvalidOTAAX
      else
        try found <- CheckOTALongAddrExist otaLongAddr;
        match found with
        | None => fail errOTANotExist
        | Some balanceTmp =>
            if balanceTmp =? 0 then fail ErrOTABalanceIsZero
            else match balance with
                 | None => bat_check rest (Some balanceTmp)
                 | Some b => if b =? balanceTmp then bat_check rest balance else fail errDifferentBalances
                 end
        end
  end.

Definition BatCheckOTAExist (otaLongAddrs : list bytes) : prog (res (option Z)) :=
  if bool_decide (otaLongAddrs = []) then fail ErrUnknown else bat_check otaLongAddrs None.

Definition setOTA (balance : Z) (otaWanAddr : bytes) : prog (res unit) :=
  try otaAX <- lift id (GetAXFromWanAddr otaWanAddr);
  try _ <- look (EvSetStateByteArray (OTABalance2ContractAddr balance) (BytesToHash otaAX) otaWanAddr);
  SetOtaBalanceToAX otaAX balance.

Definition AddOTAIfNotExist (balance : Z) (otaWanAddr : bytes) : prog (res bool) :=
  try otaAX <- lift id (GetAXFromWanAddr otaWanAddr);
  try found <- CheckOTAAXExist (BytesToHash otaAX);
  match found with
  | Some _ => fail ErrOTAExistAlready
  | None => try _ <- setOTA balance otaWanAddr; ok true
  end.

Definition GetOTAInfoFromAX (otaAX : bytes) : prog (res (bytes * Z)) :=
  if zlen otaAX <? HashLength then fail ErrInvalidOTAAX
  else
    let otaAddrKey := BytesToHash otaAX in
    try balance <- GetOtaBalanceFromAX otaAddrKey;
    if balance =? 0 then fail ErrOTABalanceIsZero
    else try otaValue <- look (EvGetStateByteArray (OTABalance2ContractAddr balance) otaAddrKey); ok (otaValue, balance).

Section Image.
Context `{HC : Crypto}.

(** The value stored for a key image, nil if there is none. *)
Definition CheckOTAImageExist (otaImage : bytes) : prog (res (option bytes)) :=
  if zlen otaImage =? 0 then fail errInvalidInputParam
  else
    try otaImageValue <- look (EvGetStateByteArray otaImageStorageAddr (Keccak256 otaImage));
    if zlen otaImageValue =? 0 then ok None else ok (Some otaImageValue).

Definition AddOTAImage (otaImage value : bytes) : prog (res unit) :=
  if (zlen otaImage =? 0) || (zlen value =? 0) then fail errInvalidInputParam
  else look (EvSetStateByteArray otaImageStorageAddr (Keccak256 otaImage) value).
End Image.

(** ** Traversals of the storage *)

(** The values are those [ForEachStorageByteArray] passes to its callback. *)
Definition sum_values (values : list bytes) : Z := foldl (fun t v => if zlen v =? 0 then t else t + be_value v) 0 values.
Definition GetUnspendOTATotalBalance (balances images : list bytes) : Z := sum_values balances - sum_values images.

Record GetOTASetEnv := mkEnv {
  env_otaAX : bytes;
  env_setNum : Z;
  env_getNum : Z;
  env_loopTimes : Z;
  env_rnd : Z;
  env_otaWanAddrSet : list bytes;
  env_draws : nat
}.

Section GetOTASet.
(** The numbers [rand.Intn(100)] returns. *)
Context (Intn100 : nat -> Z).

Definition OTAInSet (env : GetOTASetEnv) (ota : bytes) : bool := existsb (fun e => bool_decide (e = ota)) (env_otaWanAddrSet env).
Definition UpdateRnd (env : GetOTASetEnv) : GetOTASetEnv :=
  mkEnv (env_otaAX env) (env_setNum env) (env_getNum env) (env_loopTimes env) (Intn100 (env_draws env) + 1) (env_otaWanAddrSet env) (S (env_draws env)).
Definition IsSetFull (env : GetOTASetEnv) : bool := env_getNum env >=? env_setNum env.

Definition RandomSelOTA (env : GetOTASetEnv) (value : bytes) : bool * GetOTASetEnv :=
  let loopTimes := env_loopTimes env + 1 in
  if loopTimes `mod` env_rnd env =? 0
  then (true, UpdateRnd (mkEnv (env_otaAX env) (env_setNum env) (env_getNum env + 1) loopTimes (env_rnd env) (env_otaWanAddrSet env ++ [value]) (env_draws env)))
  else (false, mkEnv (env_otaAX env) (env_setNum env) (env_getNum env) loopTimes (env_rnd env) (env_otaWanAddrSet env) (env_draws env)).

(** Whether the traversal goes on. *)
Definition doOTAStorageTravelCallBack (env : GetOTASetEnv) (value : bytes) : bool * GetOTASetEnv :=
  if IsAXPointToWanAddr (env_otaAX env) value then (true, env)
  else if OTAInSet env value then (true, env)
  else
    let '(bGet, env) := RandomSelOTA env value in
    if bGet then (negb (IsSetFull env), env) else (true, env).

(** One traversal: the environment, the number of elements seen, and whether an
    address was invalid. *)
Fixpoint travel (values : list bytes) (env : GetOTASetEnv) (count : Z) : GetOTASetEnv * Z * bool :=
  match values with
  | [] => (env, count, false)
  | value :: values =>
      if negb (zlen value =? WAddressLength) then (env, count + 1, true)
      else
        let '(bContinue, env) := doOTAStorageTravelCallBack env value in
        if bContinue then travel values env (count + 1) else (env, count + 1, false)
  end.

Inductive ota_set_err := ErrInvalidOTAInSet | ErrNoOTA | ErrTooMoreRequired.

(** The outer loop; the number of elements is not reset.  [None] is running on. *)
Fixpoint ota_set_loop (fuel : nat) (values : list bytes) (env : GetOTASetEnv) (count : Z) : option (list bytes + ota_set_err) :=
  match fuel with
  | O => None
  | S fuel =>
      let '(env, count, bad) := travel values env count in
      if IsSetFull env then Some (inl (env_otaWanAddrSet env))
      else if bad then Some (inr ErrInvalidOTAInSet)
      else if count =? 0 then Some (inr ErrNoOTA)
      else if env_setNum env >=? count then Some (inr ErrTooMoreRequired)
      else ota_set_loop fuel values env count
  end.

Definition GetOTASet (fuel : nat) (values : list bytes) (otaAX : bytes) (setNum : Z) : option (list bytes + ota_set_err) :=
  ota_set_loop fuel values (UpdateRnd (mkEnv otaAX setNum 0 0 0 [] O)) 0.
End GetOTASet.

(** ** The set of one-time accounts *)

Section OtaSet.
Context (Intn100 : nat -> Z) (HIntn : forall n, 0 <= Intn100 n < 100).
Context (values : list bytes) (otaAX : bytes) (setNum : Z) (Hvalid : Forall (fun v => zlen v = WAddressLength) values).

(** Accounts other than the one that asks. *)
Definition other (v : bytes) : Prop := v ∈ values /\ IsAXPointToWanAddr otaAX v = false.

Record env_ok (env : GetOTASetEnv) : Prop := {
  ek_AX : env_otaAX env = otaAX;
  ek_num : env_setNum env = setNum;
  ek_get : env_getNum env = zlen (env_otaWanAddrSet env);
  ek_loop : 0 <= env_loopTimes env;
  ek_rnd : 1 <= env_rnd env <= 100;
  ek_dup : NoDup (env_otaWanAddrSet env);
  ek_other : Forall other (env_otaWanAddrSet env);
  ek_full : zlen (env_otaWanAddrSet env) <= setNum
}.

(** How many candidates may still be passed over before the set is full. *)
Definition patience (env : GetOTASetEnv) : Z :=
  100 * (setNum - env_getNum env - 1) + (env_rnd env - env_loopTimes env `mod` env_rnd env).

Lemma patience_bounds env : env_ok env -> 100 * (setNum - env_getNum env - 1) < patience env <= 100 * (setNum - env_getNum env).
Proof. intros []. unfold patience. pose proof (Z.mod_pos_bound (env_loopTimes env) (env_rnd env) ltac:(lia)). lia. Qed.

Lemma OTAInSet_iff env v : OTAInSet env v = true <-> v ∈ env_otaWanAddrSet env.
Proof.
  unfold OTAInSet. rewrite existsb_exists. split.
  - intros (x & Hx & E). apply bool_decide_eq_true in E as <-. by apply list_elem_of_In.
  - intros Hv. exists v. split; [by apply list_elem_of_In|by apply bool_decide_eq_true].
Qed.

(** A candidate is taken or passed over. *)
Lemma select_ok env v b env' : env_ok env -> IsSetFull env = false -> other v -> v ∉ env_otaWanAddrSet env -> RandomSelOTA Intn100 env v = (b, env') ->
  env_ok env' /\ patience env' < patience env /\ (b = false -> IsSetFull env' = false).
Proof.
  intros Hk Hf Ho Hn. pose proof (patience_bounds env Hk) as Hp. destruct Hk as [K1 K2 K3 K4 K5 K6 K7 K8]. unfold IsSetFull in Hf. rewrite Z.geb_leb in Hf. apply Z.leb_gt in Hf. unfold RandomSelOTA.
  assert (zlen (env_otaWanAddrSet env ++ [v]) = zlen (env_otaWanAddrSet env) + 1) as Hz by (unfold zlen; rewrite length_app; simpl; lia).
  destruct (Z.eqb_spec ((env_loopTimes env + 1) `mod` env_rnd env) 0) as [E|E]; intros [= <- <-].
  - pose proof (HIntn (env_draws env)) as Hr.
    assert (env_ok (UpdateRnd Intn100 (mkEnv (env_otaAX env) (env_setNum env) (env_getNum env + 1) (env_loopTimes env + 1) (env_rnd env) (env_otaWanAddrSet env ++ [v]) (env_draws env)))) as Hk'.
    { constructor; simpl; try done; rewrite ?Hz; try lia; [|by apply Forall_app; split; [|constructor]]. apply NoDup_app. split_and!; [done|set_solver|apply NoDup_singleton]. }
    split; [done|]. split; [|done]. pose proof (patience_bounds _ Hk') as Hp'. simpl in Hp'. lia.
  - split; [by constructor; simpl; try lia|]. unfold patience, IsSetFull in *. simpl. rewrite Z.geb_leb. split; [|intros _; apply Z.leb_gt; lia].
    assert ((env_loopTimes env + 1) `mod` env_rnd env = env_loopTimes env `mod` env_rnd env + 1); [|lia].
    rewrite <- Zplus_mod_idemp_l in *. pose proof (Z.mod_pos_bound (env_loopTimes env) (env_rnd env) ltac:(lia)).
    destruct (Z.eq_dec (env_loopTimes env `mod` env_rnd env + 1) (env_rnd env)) as [Er|]; [|apply Z.mod_small; lia].
    rewrite Er, Z.mod_same in E by lia. done.
Qed.

Lemma travel_ok vs env count env' count' bad : Forall (fun v => v ∈ values) vs -> env_ok env -> IsSetFull env = false -> travel Intn100 vs env count = (env', count', bad) ->
  bad = false /\ env_ok env' /\ patience env' <= patience env /\ (IsSetFull env' = false -> count' = count + zlen vs) /\
  ((exists v, v ∈ vs /\ other v /\ v ∉ env_otaWanAddrSet env) -> patience env' < patience env).
Proof.
  intros Hv. revert env count. induction Hv as [|v vs Hv Hvs IH]; intros env count Hk Hf; cbn [travel].
  { intros [= <- <- <-]. split_and!; try done; [intros _; unfold zlen; simpl; lia|]. intros (v & Hin & _). by apply elem_of_nil in Hin. }
  pose proof (proj1 (Forall_forall _ _) Hvalid v Hv) as Hlen. rewrite (proj2 (Z.eqb_eq _ _) Hlen). cbn [negb].
  assert (zlen (v :: vs) = 1 + zlen vs) as Hz by (unfold zlen; rewrite length_cons; lia).
  (* the account is passed over *)
  assert (Hpass : v ∈ env_otaWanAddrSet env \/ IsAXPointToWanAddr otaAX v = true -> travel Intn100 vs env (count + 1) = (env', count', bad) ->
    bad = false /\ env_ok env' /\ patience env' <= patience env /\ (IsSetFull env' = false -> count' = count + zlen (v :: vs)) /\
    ((exists w, w ∈ v :: vs /\ other w /\ w ∉ env_otaWanAddrSet env) -> patience env' < patience env)).
  { intros Hp E. destruct (IH env (count + 1) Hk Hf E) as (-> & K & P & C & X). split_and!; try done; [intros Hn; specialize (C Hn); lia|].
    intros (w & Hw & Ho & Hn). apply X. exists w. split_and!; try done. apply elem_of_cons in Hw as [-> |]; [|done]. destruct Ho as [_ Ho]. destruct Hp; [done|congruence]. }
  unfold doOTAStorageTravelCallBack. rewrite (ek_AX env Hk). destruct (IsAXPointToWanAddr otaAX v) eqn:Eown; [by apply Hpass; right|].
  destruct (OTAInSet env v) eqn:Ein; [apply Hpass; left; by apply OTAInSet_iff|].
  assert (v ∉ env_otaWanAddrSet env) as Hnin by (intros H; apply OTAInSet_iff in H; congruence).
  destruct (RandomSelOTA Intn100 env v) as [b env1] eqn:Er. destruct (select_ok env v b env1 Hk Hf (conj Hv Eown) Hnin Er) as (K1 & P1 & F1).
  destruct b; [destruct (IsSetFull env1) eqn:Ef|]; cbn [negb].
  - intros [= <- <- <-]. split_and!; try done; [lia|congruence].
  - intros E. destruct (IH env1 (count + 1) K1 Ef E) as (-> & K & P & C & X). split_and!; try done; try lia. intros Hn. specialize (C Hn). lia.
  - intros E. destruct (IH env1 (count + 1) K1 (F1 eq_refl) E) as (-> & K & P & C & X). split_and!; try done; try lia. intros Hn. specialize (C Hn). lia.
Qed.

(** Enough other accounts. *)
Context (others : list bytes) (Hothers : NoDup others) (Hsub : Forall other others) (Henough : setNum <= zlen others) (Hmore : setNum < zlen values) (Hpos : 1 <= setNum).

Lemma candidate env : env_ok env -> IsSetFull env = false -> exists v, v ∈ values /\ other v /\ v ∉ env_otaWanAddrSet env.
Proof.
  intros [] Hf. unfold IsSetFull in Hf. rewrite Z.geb_leb in Hf. apply Z.leb_gt in Hf.
  destruct (decide (Forall (fun v => v ∈ env_otaWanAddrSet env) others)) as [Hall|Hn].
  - assert (length others <= length (env_otaWanAddrSet env))%nat; [|unfold zlen in *; lia]. apply NoDup_incl_length; [by apply NoDup_ListNoDup|].
    intros x Hx. apply list_elem_of_In in Hx. rewrite Forall_forall in Hall. by apply list_elem_of_In, Hall.
  - apply not_Forall_Exists in Hn; [|apply _]. apply Exists_exists in Hn as (v & Hv & Hnin). exists v. destruct (proj1 (Forall_forall _ _) Hsub v Hv) as [Hin Ho]. split_and!; done.
Qed.

Lemma ota_set_loop_ok fuel env count : env_ok env -> IsSetFull env = false -> 0 <= count -> patience env <= Z.of_nat fuel ->
  exists set, ota_set_loop Intn100 fuel values env count = Some (inl set) /\ zlen set = setNum /\ NoDup set /\ Forall other set.
Proof.
  revert env count. induction fuel as [|fuel IH]; intros env count Hk Hf Hc Hp.
  { pose proof (patience_bounds env Hk). destruct Hk. unfold IsSetFull in Hf. rewrite Z.geb_leb in Hf. apply Z.leb_gt in Hf. lia. }
  cbn [ota_set_loop]. destruct (travel Intn100 values env count) as [[env' count'] bad] eqn:E.
  destruct (travel_ok values env count env' count' bad) as (-> & K & P & C & X); [by apply Forall_forall|done..|].
  destruct (IsSetFull env') eqn:Ef.
  - exists (env_otaWanAddrSet env'). split; [done|]. destruct K. split_and!; try done. unfold IsSetFull in Ef. rewrite Z.geb_leb in Ef. apply Z.leb_le in Ef. lia.
  - specialize (C eq_refl). specialize (X (candidate env Hk Hf)). assert (0 <= zlen values) by (unfold zlen; lia).
    rewrite (proj2 (Z.eqb_neq count' 0)), (ek_num _ K), Z.geb_leb, (proj2 (Z.leb_gt _ _)) by lia. apply IH; [done|done|lia|lia].
Qed.
End OtaSet.

(** C40: The set of mixing accounts: when more accounts of the balance are stored than
    asked for, and enough of them are not the one that asks, then whatever random
    numbers are drawn, the search ends within 100 traversals for each account, with
    the number asked for of distinct stored accounts, none of them the one that
    asks. *)
Theorem GetOTASet_total Intn100 values otaAX setNum others fuel : (forall n, 0 <= Intn100 n < 100) -> Forall (fun v => zlen v = WAddressLength) values ->
  NoDup others -> Forall (other values otaAX) others -> setNum <= zlen others -> setNum < zlen values -> 1 <= setNum -> 100 * setNum <= Z.of_nat fuel ->
  exists set, GetOTASet Intn100 fuel values otaAX setNum = Some (inl set) /\ zlen set = setNum /\ NoDup set /\ Forall (other values otaAX) set.
Proof.
  intros Hr Hv Hd Ho He Hm Hp Hfuel. unfold GetOTASet. pose proof (Hr O).
  assert (env_ok values otaAX setNum (UpdateRnd Intn100 (mkEnv otaAX setNum 0 0 0 [] 0))) as K by (constructor; simpl; try done; try lia; [constructor|unfold zlen; simpl; lia]).
  eapply (ota_set_loop_ok Intn100 Hr values otaAX setNum Hv others); try done.
  - unfold IsSetFull. simpl. rewrite Z.geb_leb. apply Z.leb_gt. lia.
  - pose proof (patience_bounds _ _ _ _ K) as Hpb. simpl in Hpb. lia.
Qed.

Lemma GetOTASet_total_witness : exists set, GetOTASet (fun n => Z.of_nat n `mod` 100) 200 [replicate 66 1; replicate 66 2; replicate 66 3] (replicate 32 3) 2 = Some (inl set) /\ zlen set = 2.
Proof.
  destruct (GetOTASet_total (fun n => Z.of_nat n `mod` 100) [replicate 66 1; replicate 66 2; replicate 66 3] (replicate 32 3) 2 [replicate 66 1; replicate 66 2] 200) as (set & E & L & _).
  - intros n. apply Z.mod_pos_bound. lia.
  - repeat constructor.
  - apply (bool_decide_unpack _). vm_compute. exact I.
  - repeat constructor; vm_compute; try reflexivity; set_solver.
  - vm_compute. discriminate.
  - reflexivity.
  - lia.
  - lia.
  - exists set. done.
Defined.
