(* ===== verification/VmCore.v ===== *)
(** The instructions of the virtual machine: [core/vm/stack.go],
    [core/vm/instructions.go] and the calls of [core/vm/evm.go].

    The stack is a list with its top first.  Integers are values: the pool that
    recycles integers the stack has given up ([intpool.go]) does not show.
    [Run] of the interpreter is an argument of the calls, which are arguments of
    the instructions that call.

    Calls between contracts: [core/vm/evm.go], [CanTransfer] and [Transfer] of
    [core/evm.go], [RunPrecompiledContract] of [core/vm/contracts.go], and the
    instructions that call.  [Run] of the interpreter is the argument [rec]. *)
From S2P Require Import Prelude RlpEncode RlpDecode RlpRaw Storage IstanbulTypes ValidatorSet Trie StateDB StateSpec StateTheorems BigMath VmProg VmData.

(** ** State *)

(** The fields of [EVM] and [Interpreter] that change.  [evm_maps] are the maps
    of analysed codes that contracts refer to; [evm_codes] is a ghost: the codes
    that were given to a contract. *)
Record EVM := mkEVM {
  evm_depth : Z;
  evm_readOnly : bool;
  evm_returnData : bytes;
  evm_maps : list destinations;
  evm_codes : list bytes
}.

Definition with_depth (g : EVM) d := mkEVM d (evm_readOnly g) (evm_returnData g) (evm_maps g) (evm_codes g).
Definition with_readOnly (g : EVM) r := mkEVM (evm_depth g) r (evm_returnData g) (evm_maps g) (evm_codes g).
Definition with_returnData (g : EVM) d := mkEVM (evm_depth g) (evm_readOnly g) d (evm_maps g) (evm_codes g).
Definition with_maps (g : EVM) m := mkEVM (evm_depth g) (evm_readOnly g) (evm_returnData g) m (evm_codes g).
Definition with_code_seen (g : EVM) c := mkEVM (evm_depth g) (evm_readOnly g) (evm_returnData g) (evm_maps g) (c :: evm_codes g).

(** [Context] without its functions, and the [Config] that matters. *)
Record BlockContext := mkContext {
  Origin : address;
  GasPrice : Z;
  Coinbase : address;
  GasLimit : Z;
  BlockNumber : Z;
  Time : Z;
  Difficulty : Z
}.

Record Config := mkConfig {
  NoRecursion : bool;
  DisableGasMetering : bool;
  EnablePreimageRecording : bool
}.

(** The local variables of [Run]. *)
Record frame := mkFrame {
  f_pc : Z;
  f_stack : list Z;
  f_mem : Memory;
  f_contract : Contract
}.

Definition set_pc (f : frame) pc := mkFrame pc (f_stack f) (f_mem f) (f_contract f).
Definition set_stack (f : frame) st := mkFrame (f_pc f) st (f_mem f) (f_contract f).
Definition set_mem (f : frame) mem := mkFrame (f_pc f) (f_stack f) mem (f_contract f).
Definition set_contract (f : frame) c := mkFrame (f_pc f) (f_stack f) (f_mem f) c.

(** ** A monad for instructions *)

Definition IM (A : Type) : Type := frame -> EVM -> prog (A * frame * EVM).

Definition iret {A} (a : A) : IM A := fun f g => Return (a, f, g).
Definition ibind {A B} (c : IM A) (k : A -> IM B) : IM B := fun f g => do (a, f, g) <- c f g; k a f g.
Definition ipanic {A} : IM A := fun f g => Crash (evm_codes g).
Definition ievent {R} (e : vm_ev R) : IM R := fun f g => do r <- call e; Return (r, f, g).
Definition get_frame : IM frame := fun f g => Return (f, f, g).
Definition get_evm : IM EVM := fun f g => Return (g, f, g).
Definition put_frame (f' : frame) : IM unit := fun _ g => Return (tt, f', g).
Definition put_evm (g' : EVM) : IM unit := fun f _ => Return (tt, f, g').

(** Pure code has no errors of its own here. *)
Definition ilift {A} (o : outcome vm_err A) : IM A := match o with Ok a => iret a | _ => ipanic end.

Notation "'let~' x ':=' c 'in' k" := (ibind c (fun x => k)) (at level 10, x pattern, c at level 100, k at level 200) : go_scope.
Notation "'let~!' c 'in' k" := (ibind c (fun _ => k)) (at level 10, c at level 100, k at level 200) : go_scope.

(** What an instruction returns: bytes and an error. *)
Definition executionFunc : Type := IM (bytes * option vm_err).

Definition nothing : executionFunc := iret ([], None).

(** ** [core/vm/stack.go] *)

Definition pop : IM Z := let~ f := get_frame in
  match f_stack f with x :: st => let~! put_frame (set_stack f st) in iret x | [] => ipanic end.

Definition push (x : Z) : IM unit := let~ f := get_frame in put_frame (set_stack f (x :: f_stack f)).

Definition Back (n : nat) : IM Z := let~ f := get_frame in match f_stack f !! n with Some x => iret x | None => ipanic end.

(** [swap] of the top with the [n]-th element, [1] being the top. *)
Definition stack_swap (n : nat) : IM unit := let~ f := get_frame in
  match f_stack f !! O, f_stack f !! (n - 1)%nat with
  | Some x, Some y => put_frame (set_stack f (<[(n - 1)%nat := x]> (<[O := y]> (f_stack f))))
  | _, _ => ipanic
  end.

Definition stack_dup (n : nat) : IM unit := let~ f := get_frame in
  match f_stack f !! (n - 1)%nat with Some x => push x | None => ipanic end.

(** ** Parts of the state in [IM] *)

Definition contract : IM Contract := let~ f := get_frame in iret (f_contract f).
Definition memory_Get (offset size : Z) : IM bytes := let~ f := get_frame in ilift (mem_Get (f_mem f) offset size).
Definition memory_GetPtr (offset size : Z) : IM bytes := let~ f := get_frame in ilift (mem_GetPtr (f_mem f) offset size).
Definition memory_Set (offset size : Z) (value : bytes) : IM unit := let~ f := get_frame in
  let~ mem := ilift (mem_Set (f_mem f) offset size value) in put_frame (set_mem f mem).

(** [contract.jumpdests.has(contract.CodeHash, contract.Code, pos)] *)
Definition has_dest (pos : Z) : IM bool := let~ c := contract in let~ g := get_evm in
  match evm_maps g !! c_jumpdests c with
  | None => ipanic
  | Some d => let~ (b, d) := ilift (dest_has d (c_CodeHash c) (c_Code c) pos) in
              let~! put_evm (with_maps g (<[c_jumpdests c := d]> (evm_maps g))) in iret b
  end.

Section Instructions.
Context `{HC : Crypto} (ctx : BlockContext) (cfg : Config).

(** ** Arithmetic and logic: [core/vm/instructions.go] *)

(** Pop two operands, push the result. *)
Definition binop (op : Z -> Z -> Z) : executionFunc :=
  let~ x := pop in let~ y := pop in let~! push (op x y) in nothing.

Definition opAdd : executionFunc := binop (fun x y => U256 (x + y)).
Definition opSub : executionFunc := binop (fun x y => U256 (x - y)).
Definition opMul : executionFunc := binop (fun x y => U256 (x * y)).
Definition opDiv : executionFunc := binop (fun x y => if negb (y =? 0) then U256 (x / y) else 0).

Definition opSdiv : executionFunc := binop (fun x y =>
  let x := S256 x in let y := S256 y in
  if y =? 0 then 0
  else let n := if x * y <? 0 then -1 else 1 in
       let res := Z.abs x / Z.abs y in U256 (res * n)).

Definition opMod : executionFunc := binop (fun x y => if y =? 0 then 0 else U256 (x `mod` y)).

Definition opSmod : executionFunc := binop (fun x y =>
  let x := S256 x in let y := S256 y in
  if y =? 0 then 0
  else let n := if x <? 0 then -1 else 1 in
       let res := Z.abs x `mod` Z.abs y in U256 (res * n)).

Definition opExp : executionFunc := binop (fun base exponent => (Exp base exponent).1).

(** The second operand is popped only when it changes. *)
Definition opSignExtend : executionFunc :=
  let~ back := pop in
  if back <? 31 then
    let bit := u64 (big_Uint64 back * 8 + 7) in
    let~ num := pop in
    let mask := Z.shiftl 1 bit - 1 in
    let num := if Z.testbit num bit then Z.lor num (Z.lnot mask) else Z.land num mask in
    let~! push (U256 num) in nothing
  else nothing.

Definition opNot : executionFunc := let~ x := pop in let~! push (U256 (Z.lnot x)) in nothing.

Definition bool_word (b : bool) : Z := if b then 1 else 0.

Definition opLt : executionFunc := binop (fun x y => bool_word (x <? y)).
Definition opGt : executionFunc := binop (fun x y => bool_word (x >? y)).
Definition opSlt : executionFunc := binop (fun x y => bool_word (S256 x <? S256 (S256 y))).
Definition opSgt : executionFunc := binop (fun x y => bool_word (S256 x >? S256 y)).
Definition opEq : executionFunc := binop (fun x y => bool_word (x =? y)).
Definition opIszero : executionFunc := let~ x := pop in let~! push (bool_word (negb (x >? 0))) in nothing.
Definition opAnd : executionFunc := binop Z.land.
Definition opOr : executionFunc := binop Z.lor.
Definition opXor : executionFunc := binop Z.lxor.

(** The second operand is changed in place. *)
Definition opByte : executionFunc := binop (fun th val => if th <? 32 then Byte val 32 (big_Int64 th) else 0).

Definition opAddmod : executionFunc :=
  let~ x := pop in let~ y := pop in let~ z := pop in
  let~! push (if z >? 0 then U256 ((x + y) `mod` z) else 0) in nothing.

Definition opMulmod : executionFunc :=
  let~ x := pop in let~ y := pop in let~ z := pop in
  let~! push (if z >? 0 then U256 ((x * y) `mod` z) else 0) in nothing.

(** ** Environment *)

Definition opSha3 : executionFunc :=
  let~ offset := pop in let~ size := pop in
  let~ data := memory_Get (big_Int64 offset) (big_Int64 size) in
  let h := Keccak256 data in
  let~! (if EnablePreimageRecording cfg then ievent (EvAddPreimage (BytesToHash h) data) else iret tt) in
  let~! push (be_value h) in nothing.

Definition opAddress : executionFunc := let~ c := contract in let~! push (be_value (c_self c)) in nothing.

Definition opBalance : executionFunc :=
  let~ a := pop in let~ balance := ievent (EvGetBalance (BigToAddress a)) in let~! push balance in nothing.

Definition opOrigin : executionFunc := let~! push (be_value (Origin ctx)) in nothing.
Definition opCaller : executionFunc := let~ c := contract in let~! push (be_value (c_CallerAddress c)) in nothing.

(** A nil value is dereferenced. *)
Definition opCallValue : executionFunc :=
  let~ c := contract in match c_value c with Some v => let~! push v in nothing | None => ipanic end.

Definition opCallDataLoad : executionFunc :=
  let~ start := pop in let~ c := contract in
  let~ data := ilift (getDataBig (c_Input c) start 32) in let~! push (be_value data) in nothing.

Definition opCallDataSize : executionFunc := let~ c := contract in let~! push (zlen (c_Input c)) in nothing.

Definition opCallDataCopy : executionFunc :=
  let~ memOffset := pop in let~ dataOffset := pop in let~ length := pop in
  let~ c := contract in
  let~ data := ilift (getDataBig (c_Input c) dataOffset length) in
  let~! memory_Set (big_Uint64 memOffset) (big_Uint64 length) data in nothing.

Definition opReturnDataSize : executionFunc := let~ g := get_evm in let~! push (zlen (evm_returnData g)) in nothing.

Definition opReturnDataCopy : executionFunc :=
  let~ memOffset := pop in let~ dataOffset := pop in let~ length := pop in
  let~ g := get_evm in
  let endp := dataOffset + length in
  if (big_BitLen endp >? 64) || (zlen (evm_returnData g) <? big_Uint64 endp) then iret ([], Some errReturnDataOutOfBounds)
  else
    let~ data := ilift (slice (evm_returnData g) (big_Uint64 dataOffset) (big_Uint64 endp)) in
    let~! memory_Set (big_Uint64 memOffset) (big_Uint64 length) data in nothing.

Definition opExtCodeSize : executionFunc :=
  let~ a := pop in let~ n := ievent (EvGetCodeSize (BigToAddress a)) in let~! push n in nothing.

Definition opCodeSize : executionFunc := let~ c := contract in let~! push (zlen (c_Code c)) in nothing.

Definition opCodeCopy : executionFunc :=
  let~ memOffset := pop in let~ codeOffset := pop in let~ length := pop in
  let~ c := contract in
  let~ data := ilift (getDataBig (c_Code c) codeOffset length) in
  let~! memory_Set (big_Uint64 memOffset) (big_Uint64 length) data in nothing.

Definition opExtCodeCopy : executionFunc :=
  let~ a := pop in let~ memOffset := pop in let~ codeOffset := pop in let~ length := pop in
  let~ code := ievent (EvGetCode (BigToAddress a)) in
  let~ data := ilift (getDataBig code codeOffset length) in
  let~! memory_Set (big_Uint64 memOffset) (big_Uint64 length) data in nothing.

Definition opGasprice : executionFunc := let~! push (GasPrice ctx) in nothing.

Definition opBlockhash : executionFunc :=
  let~ num := pop in
  let n := BlockNumber ctx - 257 in
  if (num >? n) && (num <? BlockNumber ctx) then
    let~ h := ievent (EvGetHash (big_Uint64 num)) in let~! push (be_value h) in nothing
  else let~! push 0 in nothing.

Definition opCoinbase : executionFunc := let~! push (be_value (Coinbase ctx)) in nothing.
Definition opTimestamp : executionFunc := let~! push (U256 (Time ctx)) in nothing.
Definition opNumber : executionFunc := let~! push (U256 (BlockNumber ctx)) in nothing.
Definition opDifficulty : executionFunc := let~! push (U256 (Difficulty ctx)) in nothing.
Definition opGasLimit : executionFunc := let~! push (U256 (GasLimit ctx)) in nothing.

(** ** Stack, memory, storage and flow *)

Definition opPop : executionFunc := let~! pop in nothing.

Definition opMload : executionFunc :=
  let~ offset := pop in let~ data := memory_Get (big_Int64 offset) 32 in let~! push (be_value data) in nothing.

Definition opMstore : executionFunc :=
  let~ mStart := pop in let~ val := pop in
  let~! memory_Set (big_Uint64 mStart) 32 (PaddedBigBytes val 32) in nothing.

Definition opMstore8 : executionFunc :=
  let~ off := pop in let~ val := pop in
  let~ f := get_frame in
  let i := big_Int64 off in
  if (0 <=? i) && (i <? mem_Len (f_mem f)) then
    let~! put_frame (set_mem f (mkMemory (<[Z.to_nat i := u8 (Z.land (big_Int64 val) 0xff)]> (mem_store (f_mem f))) (mem_lastGasCost (f_mem f)))) in nothing
  else ipanic.

Definition opSload : executionFunc :=
  let~ loc := pop in let~ c := contract in
  let~ v := ievent (EvGetState (c_self c) (BigToHash loc)) in let~! push (be_value v) in nothing.

Definition opSstore : executionFunc :=
  let~ loc := pop in let~ val := pop in let~ c := contract in
  let~! ievent (EvSetState (c_self c) (BigToHash loc) (BigToHash val)) in nothing.

Definition invalid_jump (pos : Z) : executionFunc :=
  let~ c := contract in iret ([], Some (errInvalidJump (GetOp c (big_Uint64 pos)) pos)).

Definition jump_to (pos : Z) : executionFunc :=
  let~ b := has_dest pos in
  if negb b then invalid_jump pos
  else let~ f := get_frame in let~! put_frame (set_pc f (big_Uint64 pos)) in nothing.

Definition opJump : executionFunc := let~ pos := pop in jump_to pos.

Definition opJumpi : executionFunc :=
  let~ pos := pop in let~ cond := pop in
  if negb (cond =? 0) then jump_to pos
  else let~ f := get_frame in let~! put_frame (set_pc f (u64 (f_pc f + 1))) in nothing.

Definition opJumpdest : executionFunc := nothing.
Definition opPc : executionFunc := let~ f := get_frame in let~! push (f_pc f) in nothing.
Definition opMsize : executionFunc := let~ f := get_frame in let~! push (mem_Len (f_mem f)) in nothing.
Definition opGas : executionFunc := let~ c := contract in let~! push (c_Gas c) in nothing.

Definition opReturn : executionFunc :=
  let~ offset := pop in let~ size := pop in
  let~ ret := memory_GetPtr (big_Int64 offset) (big_Int64 size) in iret (ret, None).

Definition opRevert : executionFunc :=
  let~ offset := pop in let~ size := pop in
  let~ ret := memory_GetPtr (big_Int64 offset) (big_Int64 size) in iret (ret, None).

Definition opStop : executionFunc := nothing.

Definition opSuicide : executionFunc :=
  let~ c := contract in
  let~ balance := ievent (EvGetBalance (c_self c)) in
  let~ a := pop in
  let~! ievent (EvAddBalance (BigToAddress a) balance) in
  let~! ievent (EvSuicide (c_self c)) in nothing.

Fixpoint pop_topics (n : nat) : IM (list hash) :=
  match n with
  | O => iret []
  | S n' => let~ x := pop in let~ rest := pop_topics n' in iret (BigToHash x :: rest)
  end.

(** The state fills in the transaction and the index of a log. *)
Definition makeLog (size : nat) : executionFunc :=
  let~ mStart := pop in let~ mSize := pop in
  let~ topics := pop_topics size in
  let~ d := memory_Get (big_Int64 mStart) (big_Int64 mSize) in
  let~ c := contract in
  let~! ievent (EvAddLog (mkLog (c_self c) topics d (big_Uint64 (BlockNumber ctx)) zero_hash 0 zero_hash 0 false)) in nothing.

Definition makePush (size pushByteSize : Z) : executionFunc :=
  let~ f := get_frame in
  let codeLen := zlen (c_Code (f_contract f)) in
  let next := i64 (f_pc f + 1) in
  let startMin := if next <? codeLen then next else codeLen in
  let endMin := if startMin + pushByteSize <? codeLen then startMin + pushByteSize else codeLen in
  let~ data := ilift (slice (c_Code (f_contract f)) startMin endMin) in
  let~! push (be_value (RightPadBytes data pushByteSize)) in
  let~ f := get_frame in
  let~! put_frame (set_pc f (u64 (f_pc f + size))) in nothing.

Definition makeDup (size : nat) : executionFunc := let~! stack_dup size in nothing.
Definition makeSwap (size : nat) : executionFunc := let~! stack_swap (size + 1) in nothing.

End Instructions.

(** [crypto.CreateAddress] *)
Definition CreateAddress `{Crypto} (b : address) (nonce : Z) : address :=
  let data := match EncodeToBytes (VSlice [VBytes b; VUint nonce]) with Ok d => d | _ => [] end in
  BytesToAddress (drop 12 (Keccak256 data)).

(** The interface [PrecompiledContract]; native contracts run on the same state. *)
Record PrecompiledContract := mkPrecompiled {
  RequiredGas : bytes -> Z;
  pc_Run : bytes -> Contract -> prog (bytes * option vm_err)
}.

(** [PrecompiledContractsByzantium] *)
Class Precompiles := precompiled : address -> option PrecompiledContract.

Definition wanCoinPrecompileAddr : address := BytesToAddress [100].
Definition wanStampPrecompileAddr : address := BytesToAddress [200].

(** [core/evm.go] *)
Definition CanTransfer (addr : address) (amount : Z) : prog bool :=
  do balance <- call (EvGetBalance addr); Return (balance >=? amount).

Definition Transfer (sender recipient : address) (amount : Z) : prog unit :=
  do! call (EvSubBalance sender amount); call (EvAddBalance recipient amount).

Section Calls.
Context `{HC : Crypto} `{HP : Precompiles} (cfg : Config).

(** [Interpreter.Run]: what is returned, and the contract it leaves. *)
Definition Runner : Type := Contract -> bytes -> EVM -> prog (bytes * option vm_err * Contract * EVM).
Context (rec : Runner).

Definition RunPrecompiledContract (p : PrecompiledContract) (input : bytes) (c : Contract) (g : EVM)
    : prog (bytes * option vm_err * Contract * EVM) :=
  let gas := RequiredGas p input in
  let '(ok, c) := UseGas c gas in
  if ok then do (ret, err) <- pc_Run p input c; Return (ret, err, c, g) else Return ([], Some ErrOutOfGas, c, g).

Definition run_contract (c : Contract) (input : bytes) (g : EVM) : prog (bytes * option vm_err * Contract * EVM) :=
  match c_CodeAddr c with
  | Some a => match precompiled a with Some p => RunPrecompiledContract p input c g | None => rec c input g end
  | None => rec c input g
  end.

(** What the calls return: bytes, the gas left, an error. *)
Definition CallResult : Type := bytes * Z * option vm_err * EVM.

(** [NewContract] *)
Definition new_contract (g : EVM) (caller : ContractRef) (object : address) (value : option Z) (gas : Z) : Contract * EVM :=
  let '(c, maps) := NewContract (evm_maps g) caller object value gas in (c, with_maps g maps).

(** [SetCallCode] with the code and the code hash of an account, then [run]. *)
Definition run_code (c : Contract) (addr : address) (input : bytes) (g : EVM) : prog (bytes * option vm_err * Contract * EVM) :=
  do h <- call (EvGetCodeHash addr);
  do code <- call (EvGetCode addr);
  run_contract (SetCallCode c addr h code) input (with_code_seen g code).

(** An error reverts the state; unless it is a revert, it takes all gas. *)
Definition end_call (snapshot : Z) (r : bytes * option vm_err * Contract * EVM) : prog CallResult :=
  let '(ret, err, c, g) := r in
  match err with
  | None => Return (ret, c_Gas c, None, g)
  | Some e =>
      do! call (EvRevertToSnapshot snapshot);
      let c := if decide (e = errExecutionReverted) then c else (UseGas c (c_Gas c)).2 in
      Return (ret, c_Gas c, Some e, g)
  end.

Definition evm_Call (caller : ContractRef) (addr : address) (input : bytes) (gas value : Z) (g : EVM) : prog CallResult :=
  if NoRecursion cfg && (evm_depth g >? 0) then Return ([], gas, None, g)
  else if evm_depth g >? CallCreateDepth then Return ([], gas, Some ErrDepth, g)
  else
    do can <- CanTransfer (ref_Address caller) value;
    if negb can then Return ([], gas, Some ErrInsufficientBalance, g)
    else
      do snapshot <- call EvSnapshot;
      do known <- call (EvExist addr);
      if negb known && bool_decide (precompiled addr = None) && (value =? 0) then Return ([], gas, None, g)
      else
        do! (if known then Return tt else call (EvCreateAccount addr));
        do! (if negb (bool_decide (addr = wanCoinPrecompileAddr)) && negb (bool_decide (addr = wanStampPrecompileAddr))
             then Transfer (ref_Address caller) addr value else Return tt);
        let '(c, g) := new_contract g caller addr (Some value) gas in
        do r <- run_code c addr input g;
        end_call snapshot r.

Definition evm_CallCode (caller : ContractRef) (addr : address) (input : bytes) (gas value : Z) (g : EVM) : prog CallResult :=
  if NoRecursion cfg && (evm_depth g >? 0) then Return ([], gas, None, g)
  else if evm_depth g >? CallCreateDepth then Return ([], gas, Some ErrDepth, g)
  else
    do can <- CanTransfer (ref_Address caller) value;
    if negb can then Return ([], gas, Some ErrInsufficientBalance, g)
    else
      do snapshot <- call EvSnapshot;
      let '(c, g) := new_contract g caller (ref_Address caller) (Some value) gas in
      do r <- run_code c addr input g;
      end_call snapshot r.

Definition evm_DelegateCall (caller : ContractRef) (addr : address) (input : bytes) (gas : Z) (g : EVM) : prog CallResult :=
  if NoRecursion cfg && (evm_depth g >? 0) then Return ([], gas, None, g)
  else if evm_depth g >? CallCreateDepth then Return ([], gas, Some ErrDepth, g)
  else
    do snapshot <- call EvSnapshot;
    let '(c, g) := new_contract g caller (ref_Address caller) None gas in
    match AsDelegate c with
    | Ok c => do r <- run_code c addr input g; end_call snapshot r
    | _ => Crash (evm_codes g)
    end.

(** [readOnly] is reset at the end by the call that has set it. *)
Definition evm_StaticCall (caller : ContractRef) (addr : address) (input : bytes) (gas : Z) (g : EVM) : prog CallResult :=
  if NoRecursion cfg && (evm_depth g >? 0) then Return ([], gas, None, g)
  else if evm_depth g >? CallCreateDepth then Return ([], gas, Some ErrDepth, g)
  else
    let was := evm_readOnly g in
    let g := with_readOnly g true in
    do snapshot <- call EvSnapshot;
    let '(c, g) := new_contract g caller addr (Some 0) gas in
    do r <- run_code c addr input g;
    do (ret, leftOver, err, g) <- end_call snapshot r;
    Return (ret, leftOver, err, with_readOnly g was).

(** The end of [Create]: the code is paid for and stored. *)
Definition end_create (snapshot : Z) (addr : address) (r : bytes * option vm_err * Contract * EVM) : prog (bytes * address * Z * option vm_err * EVM) :=
  let '(ret, err, c, g) := r in
  let maxCodeSizeExceeded := zlen ret >? MaxCodeSize in
  do (err, c) <-
    (if bool_decide (err = None) && negb maxCodeSizeExceeded then
       let createDataGas := u64 (zlen ret * CreateDataGas) in
       let '(ok, c) := UseGas c createDataGas in
       if ok then do! call (EvSetCode addr ret); Return (err, c) else Return (Some ErrCodeStoreOutOfGas, c)
     else Return (err, c));
  do c <-
    (if maxCodeSizeExceeded || negb (bool_decide (err = None)) then
       do! call (EvRevertToSnapshot snapshot);
       Return (if decide (err = Some errExecutionReverted) then c else (UseGas c (c_Gas c)).2)
     else Return c);
  let err := if maxCodeSizeExceeded && bool_decide (err = None) then Some errMaxCodeSizeExceeded else err in
  Return (ret, addr, c_Gas c, err, g).

Definition evm_Create (caller : ContractRef) (code : bytes) (gas value : Z) (g : EVM) : prog (bytes * address * Z * option vm_err * EVM) :=
  if evm_depth g >? CallCreateDepth then Return ([], zero_address, gas, Some ErrDepth, g)
  else
    do can <- CanTransfer (ref_Address caller) value;
    if negb can then Return ([], zero_address, gas, Some ErrInsufficientBalance, g)
    else
      do nonce <- call (EvGetNonce (ref_Address caller));
      do! call (EvSetNonce (ref_Address caller) (u64 (nonce + 1)));
      let addr := CreateAddress (ref_Address caller) nonce in
      do empty <- call (EvEmpty addr);
      if negb empty then Return ([], zero_address, 0, Some ErrContractAddressCollision, g)
      else
        do snapshot <- call EvSnapshot;
        do! call (EvCreateAccount addr);
        do! call (EvSetNonce addr 1);
        do! Transfer (ref_Address caller) addr value;
        let '(c, g) := new_contract g caller addr (Some value) gas in
        let c := SetCallCode c addr (Keccak256 code) code in
        let g := with_code_seen g code in
        if NoRecursion cfg && (evm_depth g >? 0) then Return ([], addr, gas, None, g)
        else do r <- run_contract c [] g; end_create snapshot addr r.

(** ** The instructions that call *)

(** A call on behalf of the running contract. *)
Definition icall {A} (p : EVM -> prog (A * EVM)) : IM A := fun f g => do (a, g) <- p g; Return (a, f, g).

Definition add_gas (gas : Z) : IM unit := let~ f := get_frame in
  put_frame (set_contract f (with_gas (f_contract f) (u64 (c_Gas (f_contract f) + gas)))).

Definition opCreate : executionFunc :=
  let~ value := pop in let~ offset := pop in let~ size := pop in
  let~ input := memory_Get (big_Int64 offset) (big_Int64 size) in
  let~ c := contract in
  let gas := c_Gas c - c_Gas c / 64 in
  let c := (UseGas c gas).2 in
  let~ f := get_frame in
  let~! put_frame (set_contract f c) in
  let~ (res, addr, returnGas, suberr) := icall (evm_Create (ContractOf c) input gas value) in
  let~! push (match suberr with Some _ => 0 | None => be_value addr end) in
  let~! add_gas returnGas in
  iret (if decide (suberr = Some errExecutionReverted) then (res, None) else ([], None)).

(** What the calls have in common after the call. *)
Definition after_call (retOffset retSize : Z) (r : bytes * Z * option vm_err) : executionFunc :=
  let '(ret, returnGas, err) := r in
  let~! push (match err with Some _ => 0 | None => 1 end) in
  let~! (if bool_decide (err = None) || bool_decide (err = Some errExecutionReverted)
         then memory_Set (big_Uint64 retOffset) (big_Uint64 retSize) ret else iret tt) in
  let~! add_gas returnGas in
  iret (ret, None).

Definition opCall : executionFunc :=
  let~ gas := pop in
  let~ addr := pop in let~ value := pop in
  let~ inOffset := pop in let~ inSize := pop in
  let~ retOffset := pop in let~ retSize := pop in
  let value := U256 value in
  let~ args := memory_Get (big_Int64 inOffset) (big_Int64 inSize) in
  let gas := if negb (value =? 0) then u64 (big_Uint64 gas + CallStipend) else big_Uint64 gas in
  let~ c := contract in
  let~ r := icall (evm_Call (ContractOf c) (BigToAddress addr) args gas value) in
  after_call retOffset retSize r.

Definition opCallCode : executionFunc :=
  let~ gas := pop in
  let~ addr := pop in let~ value := pop in
  let~ inOffset := pop in let~ inSize := pop in
  let~ retOffset := pop in let~ retSize := pop in
  let value := U256 value in
  let~ args := memory_Get (big_Int64 inOffset) (big_Int64 inSize) in
  let gas := if negb (value =? 0) then u64 (big_Uint64 gas + CallStipend) else big_Uint64 gas in
  let~ c := contract in
  let~ r := icall (evm_CallCode (ContractOf c) (BigToAddress addr) args gas value) in
  after_call retOffset retSize r.

Definition opDelegateCall : executionFunc :=
  let~ gas := pop in let~ to := pop in
  let~ inOffset := pop in let~ inSize := pop in
  let~ outOffset := pop in let~ outSize := pop in
  let~ args := memory_Get (big_Int64 inOffset) (big_Int64 inSize) in
  let~ c := contract in
  let~ r := icall (evm_DelegateCall (ContractOf c) (BigToAddress to) args (big_Uint64 gas)) in
  after_call outOffset outSize r.

Definition opStaticCall : executionFunc :=
  let~ gas := pop in let~ addr := pop in
  let~ inOffset := pop in let~ inSize := pop in
  let~ retOffset := pop in let~ retSize := pop in
  let~ args := memory_Get (big_Int64 inOffset) (big_Int64 inSize) in
  let~ c := contract in
  let~ r := icall (evm_StaticCall (ContractOf c) (BigToAddress addr) args (big_Uint64 gas)) in
  after_call retOffset retSize r.

End Calls.
