(* ===== verification/VmInterp.v ===== *)
(** The costs of instructions, the table of instructions and the interpreter:
    [core/vm/gas_table.go], [memory_table.go], [jump_table.go] and
    [interpreter.go].  Tracing is left out. *)
From S2P Require Import Prelude RlpEncode RlpDecode RlpRaw Storage IstanbulTypes ValidatorSet Trie StateDB StateSpec StateTheorems BigMath VmProg VmData VmCore.

(** ** [core/vm/memory_table.go] *)

(** The memory needed for [len] bytes at [off], both on the stack. *)
Definition mem_at (off len : nat) : IM Z := let~ o := Back off in let~ l := Back len in iret (calcMemSize o l).

(** The larger of two. *)
Definition mem_max (o1 l1 o2 l2 : nat) : IM Z := let~ x := mem_at o1 l1 in let~ y := mem_at o2 l2 in iret (BigMax x y).

Definition memorySha3 : IM Z := mem_at 0 1.
Definition memoryCallDataCopy : IM Z := mem_at 0 2.
Definition memoryReturnDataCopy : IM Z := mem_at 0 2.
Definition memoryCodeCopy : IM Z := mem_at 0 2.
Definition memoryExtCodeCopy : IM Z := mem_at 1 3.
Definition memoryMLoad : IM Z := let~ o := Back 0 in iret (calcMemSize o 32).
Definition memoryMStore8 : IM Z := let~ o := Back 0 in iret (calcMemSize o 1).
Definition memoryMStore : IM Z := let~ o := Back 0 in iret (calcMemSize o 32).
Definition memoryCreate : IM Z := mem_at 1 2.
Definition memoryCall : IM Z := mem_max 5 6 3 4.
Definition memoryCallCode : IM Z := mem_max 5 6 3 4.
Definition memoryDelegateCall : IM Z := mem_max 4 5 2 3.
Definition memoryStaticCall : IM Z := mem_max 4 5 2 3.
Definition memoryReturn : IM Z := mem_at 0 1.
Definition memoryRevert : IM Z := mem_at 0 1.
Definition memoryLog : IM Z := mem_at 0 1.

(** ** [core/vm/gas_table.go] *)

(** A cost, or an error; [gt] and the requested memory size are arguments. *)
Definition gasFunc : Type := GasTable -> Z -> IM (Z + vm_err).

Definition gas_ok (gas : Z) : IM (Z + vm_err) := iret (inl gas).
Definition gas_err (e : vm_err) : IM (Z + vm_err) := iret (inr e).

(** Continue with a cost, or return the error. *)
Definition gas_bind (c : IM (Z + vm_err)) (k : Z -> IM (Z + vm_err)) : IM (Z + vm_err) :=
  let~ r := c in match r with inl gas => k gas | inr e => gas_err e end.

Notation "'gas~' x ':=' c 'in' k" := (gas_bind c (fun x => k)) (at level 10, x name, c at level 100, k at level 200) : go_scope.

(** An overflow of checked arithmetic or of a conversion is [errGasUintOverflow]. *)
Definition checked (r : Z * bool) : IM (Z + vm_err) := if r.2 then gas_err errGasUintOverflow else gas_ok r.1.

Definition memory_cost (mem : Memory) (newMemSize : Z) : (Z + vm_err) * Memory :=
  if newMemSize =? 0 then (inl 0, mem)
  else if newMemSize >? 0xffffffffe0 then (inr errGasUintOverflow, mem)
  else
    let newMemSizeWords := toWordSize newMemSize in
    let newMemSize := u64 (newMemSizeWords * 32) in
    if newMemSize >? mem_Len mem then
      let square := u64 (newMemSizeWords * newMemSizeWords) in
      let linCoef := u64 (newMemSizeWords * MemoryGas) in
      let quadCoef := square / QuadCoeffDiv in
      let newTotalFee := u64 (linCoef + quadCoef) in
      let fee := u64 (newTotalFee - mem_lastGasCost mem) in
      (inl fee, mkMemory (mem_store mem) newTotalFee)
    else (inl 0, mem).

Definition memoryGasCost (newMemSize : Z) : IM (Z + vm_err) :=
  let~ f := get_frame in
  let '(r, mem) := memory_cost (f_mem f) newMemSize in
  let~! put_frame (set_mem f mem) in iret r.

Definition constGasFunc (gas : Z) : gasFunc := fun _ _ => gas_ok gas.

(** Memory, a constant and a price for each word of a length on the stack. *)
Definition copy_gas (base : Z) (len : nat) (price : Z) (memorySize : Z) : IM (Z + vm_err) :=
  gas~ gas := memoryGasCost memorySize in
  gas~ gas := checked (SafeAdd gas base) in
  let~ l := Back len in
  gas~ words := checked (bigUint64 l) in
  gas~ words := checked (SafeMul (toWordSize words) price) in
  checked (SafeAdd gas words).

Definition gasCallDataCopy : gasFunc := fun _ n => copy_gas GasFastestStep 2 CopyGas n.
Definition gasReturnDataCopy : gasFunc := fun _ n => copy_gas GasFastestStep 2 CopyGas n.
Definition gasCodeCopy : gasFunc := fun _ n => copy_gas GasFastestStep 2 CopyGas n.
Definition gasExtCodeCopy : gasFunc := fun gt n => copy_gas (ExtcodeCopy gt) 3 CopyGas n.
Definition gasSha3 : gasFunc := fun _ n => copy_gas Sha3Gas 1 Sha3WordGas n.

Definition EmptyHash (h : hash) : bool := bool_decide (h = zero_hash).

Definition gasSStore : gasFunc := fun _ _ =>
  let~ y := Back 1 in let~ x := Back 0 in
  let~ c := contract in
  let~ val := ievent (EvGetState (c_self c) (BigToHash x)) in
  if EmptyHash val && negb (EmptyHash (BigToHash y)) then gas_ok SstoreSetGas
  else if negb (EmptyHash val) && EmptyHash (BigToHash y) then
    let~! ievent (EvAddRefund SstoreRefundGas) in gas_ok SstoreClearGas
  else gas_ok SstoreResetGas.

Definition makeGasLog (n : Z) : gasFunc := fun _ memorySize =>
  let~ s := Back 1 in
  gas~ requestedSize := checked (bigUint64 s) in
  gas~ gas := memoryGasCost memorySize in
  gas~ gas := checked (SafeAdd gas LogGas) in
  gas~ gas := checked (SafeAdd gas (u64 (n * LogTopicGas))) in
  gas~ memorySizeGas := checked (SafeMul requestedSize LogDataGas) in
  checked (SafeAdd gas memorySizeGas).

(** Memory and a constant. *)
Definition mem_gas (base : Z) (memorySize : Z) : IM (Z + vm_err) :=
  gas~ gas := memoryGasCost memorySize in checked (SafeAdd gas base).

Definition gasMLoad : gasFunc := fun _ n => mem_gas GasFastestStep n.
Definition gasMStore8 : gasFunc := fun _ n => mem_gas GasFastestStep n.
Definition gasMStore : gasFunc := fun _ n => mem_gas GasFastestStep n.
Definition gasCreate : gasFunc := fun _ n => mem_gas CreateGas n.

Definition gasBalance : gasFunc := fun gt _ => gas_ok (Balance gt).
Definition gasExtCodeSize : gasFunc := fun gt _ => gas_ok (ExtcodeSize gt).
Definition gasSLoad : gasFunc := fun gt _ => gas_ok (SLoad gt).

Definition gasExp : gasFunc := fun gt _ =>
  let~ e := Back 1 in
  let expByteLen := (big_BitLen e + 7) / 8 in
  checked (SafeAdd (u64 (expByteLen * ExpByte gt)) GasSlowStep).

(** The end of the costs of calls: the gas for the callee replaces the top of the
    stack and is part of the cost. *)
Definition call_gas (gt : GasTable) (gas : Z) : IM (Z + vm_err) :=
  let~ c := contract in
  let~ requested := Back 0 in
  match callGas gt (c_Gas c) gas requested with
  | (_, Some e) => gas_err e
  | (cg, None) =>
      let~ f := get_frame in
      let~! put_frame (set_stack f (<[O := cg]> (f_stack f))) in
      checked (SafeAdd gas cg)
  end.

Definition gasCall : gasFunc := fun gt memorySize =>
  let gas := Calls gt in
  let~ v := Back 2 in
  let transfersValue := negb (v =? 0) in
  let~ a := Back 1 in
  let~ new := (if transfersValue then ievent (EvEmpty (BigToAddress a)) else iret false) in
  let gas := if new then u64 (gas + CallNewAccountGas) else gas in
  let gas := if transfersValue then u64 (gas + CallValueTransferGas) else gas in
  gas~ memoryGas := memoryGasCost memorySize in
  gas~ gas := checked (SafeAdd gas memoryGas) in
  call_gas gt gas.

Definition gasCallCode : gasFunc := fun gt memorySize =>
  let gas := Calls gt in
  let~ v := Back 2 in
  let gas := if negb (v =? 0) then u64 (gas + CallValueTransferGas) else gas in
  gas~ memoryGas := memoryGasCost memorySize in
  gas~ gas := checked (SafeAdd gas memoryGas) in
  call_gas gt gas.

Definition gasReturn : gasFunc := fun _ n => memoryGasCost n.
Definition gasRevert : gasFunc := fun _ n => memoryGasCost n.

Definition gasSuicide : gasFunc := fun gt _ =>
  let gas := Suicide_gas gt in
  let~ a := Back 0 in
  let~ c := contract in
  let~ empty := ievent (EvEmpty (BigToAddress a)) in
  let~ new := (if empty then let~ b := ievent (EvGetBalance (c_self c)) in iret (negb (b =? 0)) else iret false) in
  let gas := if new then u64 (gas + CreateBySuicide gt) else gas in
  let~ suicided := ievent (EvHasSuicided (c_self c)) in
  let~! (if negb suicided then ievent (EvAddRefund SuicideRefundGas) else iret tt) in
  gas_ok gas.

Definition gasDelegateCall : gasFunc := fun gt memorySize =>
  gas~ gas := memoryGasCost memorySize in
  gas~ gas := checked (SafeAdd gas (Calls gt)) in
  call_gas gt gas.

Definition gasStaticCall : gasFunc := fun gt memorySize =>
  gas~ gas := memoryGasCost memorySize in
  gas~ gas := checked (SafeAdd gas (Calls gt)) in
  call_gas gt gas.

Definition gasPush : gasFunc := fun _ _ => gas_ok GasFastestStep.
Definition gasSwap : gasFunc := fun _ _ => gas_ok GasFastestStep.
Definition gasDup : gasFunc := fun _ _ => gas_ok GasFastestStep.

(** ** [core/vm/jump_table.go] *)

Record operation := mkOperation {
  execute : executionFunc;
  gasCost : gasFunc;
  validateStack : Z -> option vm_err;
  memorySize : option (IM Z);
  halts : bool;
  jumps : bool;
  writes : bool;
  reverts : bool;
  returns : bool
}.

Definition oper (ex : executionFunc) (gas : gasFunc) (st : Z -> option vm_err) : operation := mkOperation ex gas st None false false false false false.
Definition oper_mem (ex : executionFunc) (gas : gasFunc) (st : Z -> option vm_err) (mem : IM Z) : operation := mkOperation ex gas st (Some mem) false false false false false.

Section Table.
Context `{HC : Crypto} `{HP : Precompiles} (ctx : BlockContext) (cfg : Config) (rec : Runner).

(** The instructions with one entry each; an operation that is not valid has none. *)
Definition single_instructions : list (Z * operation) := [
  (STOP, mkOperation opStop (constGasFunc 0) (makeStackFunc 0 0) None true false false false false);
  (ADD, oper opAdd (constGasFunc GasFastestStep) (makeStackFunc 2 1));
  (MUL, oper opMul (constGasFunc GasFastStep) (makeStackFunc 2 1));
  (SUB, oper opSub (constGasFunc GasFastestStep) (makeStackFunc 2 1));
  (DIV, oper opDiv (constGasFunc GasFastStep) (makeStackFunc 2 1));
  (SDIV, oper opSdiv (constGasFunc GasFastStep) (makeStackFunc 2 1));
  (MOD, oper opMod (constGasFunc GasFastStep) (makeStackFunc 2 1));
  (SMOD, oper opSmod (constGasFunc GasFastStep) (makeStackFunc 2 1));
  (ADDMOD, oper opAddmod (constGasFunc GasMidStep) (makeStackFunc 3 1));
  (MULMOD, oper opMulmod (constGasFunc GasMidStep) (makeStackFunc 3 1));
  (EXP, oper opExp gasExp (makeStackFunc 2 1));
  (SIGNEXTEND, oper opSignExtend (constGasFunc GasFastStep) (makeStackFunc 2 1));
  (LT, oper opLt (constGasFunc GasFastestStep) (makeStackFunc 2 1));
  (GT, oper opGt (constGasFunc GasFastestStep) (makeStackFunc 2 1));
  (SLT, oper opSlt (constGasFunc GasFastestStep) (makeStackFunc 2 1));
  (SGT, oper opSgt (constGasFunc GasFastestStep) (makeStackFunc 2 1));
  (EQ, oper opEq (constGasFunc GasFastestStep) (makeStackFunc 2 1));
  (ISZERO, oper opIszero (constGasFunc GasFastestStep) (makeStackFunc 1 1));
  (AND, oper opAnd (constGasFunc GasFastestStep) (makeStackFunc 2 1));
  (XOR, oper opXor (constGasFunc GasFastestStep) (makeStackFunc 2 1));
  (OR, oper opOr (constGasFunc GasFastestStep) (makeStackFunc 2 1));
  (NOT, oper opNot (constGasFunc GasFastestStep) (makeStackFunc 1 1));
  (BYTE, oper opByte (constGasFunc GasFastestStep) (makeStackFunc 2 1));
  (SHA3, oper_mem (opSha3 cfg) gasSha3 (makeStackFunc 2 1) memorySha3);
  (ADDRESS, oper opAddress (constGasFunc GasQuickStep) (makeStackFunc 0 1));
  (BALANCE, oper opBalance gasBalance (makeStackFunc 1 1));
  (ORIGIN, oper (opOrigin ctx) (constGasFunc GasQuickStep) (makeStackFunc 0 1));
  (CALLER, oper opCaller (constGasFunc GasQuickStep) (makeStackFunc 0 1));
  (CALLVALUE, oper opCallValue (constGasFunc GasQuickStep) (makeStackFunc 0 1));
  (CALLDATALOAD, oper opCallDataLoad (constGasFunc GasFastestStep) (makeStackFunc 1 1));
  (CALLDATASIZE, oper opCallDataSize (constGasFunc GasQuickStep) (makeStackFunc 0 1));
  (CALLDATACOPY, oper_mem opCallDataCopy gasCallDataCopy (makeStackFunc 3 0) memoryCallDataCopy);
  (CODESIZE, oper opCodeSize (constGasFunc GasQuickStep) (makeStackFunc 0 1));
  (CODECOPY, oper_mem opCodeCopy gasCodeCopy (makeStackFunc 3 0) memoryCodeCopy);
  (GASPRICE, oper (opGasprice ctx) (constGasFunc GasQuickStep) (makeStackFunc 0 1));
  (EXTCODESIZE, oper opExtCodeSize gasExtCodeSize (makeStackFunc 1 1));
  (EXTCODECOPY, oper_mem opExtCodeCopy gasExtCodeCopy (makeStackFunc 4 0) memoryExtCodeCopy);
  (BLOCKHASH, oper (opBlockhash ctx) (constGasFunc GasExtStep) (makeStackFunc 1 1));
  (COINBASE, oper (opCoinbase ctx) (constGasFunc GasQuickStep) (makeStackFunc 0 1));
  (TIMESTAMP, oper (opTimestamp ctx) (constGasFunc GasQuickStep) (makeStackFunc 0 1));
  (NUMBER, oper (opNumber ctx) (constGasFunc GasQuickStep) (makeStackFunc 0 1));
  (DIFFICULTY, oper (opDifficulty ctx) (constGasFunc GasQuickStep) (makeStackFunc 0 1));
  (GASLIMIT, oper (opGasLimit ctx) (constGasFunc GasQuickStep) (makeStackFunc 0 1));
  (POP, oper opPop (constGasFunc GasQuickStep) (makeStackFunc 1 0));
  (MLOAD, oper_mem opMload gasMLoad (makeStackFunc 1 1) memoryMLoad);
  (MSTORE, oper_mem opMstore gasMStore (makeStackFunc 2 0) memoryMStore);
  (MSTORE8, oper_mem opMstore8 gasMStore8 (makeStackFunc 2 0) memoryMStore8);
  (SLOAD, oper opSload gasSLoad (makeStackFunc 1 1));
  (SSTORE, mkOperation opSstore gasSStore (makeStackFunc 2 0) None false false true false false);
  (JUMP, mkOperation opJump (constGasFunc GasMidStep) (makeStackFunc 1 0) None false true false false false);
  (JUMPI, mkOperation opJumpi (constGasFunc GasSlowStep) (makeStackFunc 2 0) None false true false false false);
  (PC, oper opPc (constGasFunc GasQuickStep) (makeStackFunc 0 1));
  (MSIZE, oper opMsize (constGasFunc GasQuickStep) (makeStackFunc 0 1));
  (GAS, oper opGas (constGasFunc GasQuickStep) (makeStackFunc 0 1));
  (JUMPDEST, oper opJumpdest (constGasFunc JumpdestGas) (makeStackFunc 0 0));
  (CREATE, mkOperation (opCreate cfg rec) gasCreate (makeStackFunc 3 1) (Some memoryCreate) false false true false true);
  (CALL, mkOperation (opCall cfg rec) gasCall (makeStackFunc 7 1) (Some memoryCall) false false false false true);
  (CALLCODE, mkOperation (opCallCode cfg rec) gasCallCode (makeStackFunc 7 1) (Some memoryCall) false false false false true);
  (RETURN, mkOperation opReturn gasReturn (makeStackFunc 2 0) (Some memoryReturn) true false false false false);
  (SELFDESTRUCT, mkOperation opSuicide gasSuicide (makeStackFunc 1 0) None true false true false false)
].

(** [PUSH1] to [PUSH32], [DUP1] to [DUP16], [SWAP1] to [SWAP16], [LOG0] to [LOG4];
    [n] counts from 1, for logs from 0. *)
Definition push_instruction (n : Z) : operation := oper (makePush n n) gasPush (makeStackFunc 0 1).
Definition dup_instruction (n : Z) : operation := oper (makeDup (Z.to_nat n)) gasDup (makeDupStackFunc n).
Definition swap_instruction (n : Z) : operation := oper (makeSwap (Z.to_nat n)) gasSwap (makeSwapStackFunc (n + 1)).
Definition log_instruction (n : Z) : operation :=
  mkOperation (makeLog ctx (Z.to_nat n)) (makeGasLog n) (makeStackFunc (n + 2) 0) (Some memoryLog) false false true false false.

Fixpoint find_instruction (op : Z) (l : list (Z * operation)) : option operation :=
  match l with [] => None | (k, o) :: l => if k =? op then Some o else find_instruction op l end.

Definition NewFrontierInstructionSet (op : Z) : option operation :=
  if (PUSH1 <=? op) && (op <=? PUSH32) then Some (push_instruction (op - PUSH1 + 1))
  else if (DUP1 <=? op) && (op <? DUP1 + 16) then Some (dup_instruction (op - DUP1 + 1))
  else if (SWAP1 <=? op) && (op <? SWAP1 + 16) then Some (swap_instruction (op - SWAP1 + 1))
  else if (LOG0 <=? op) && (op <? LOG0 + 5) then Some (log_instruction (op - LOG0))
  else find_instruction op single_instructions.

Definition NewHomesteadInstructionSet (op : Z) : option operation :=
  if op =? DELEGATECALL then Some (mkOperation (opDelegateCall cfg rec) gasDelegateCall (makeStackFunc 6 1) (Some memoryDelegateCall) false false false false true)
  else NewFrontierInstructionSet op.

Definition NewByzantiumInstructionSet (op : Z) : option operation :=
  if op =? STATICCALL then Some (mkOperation (opStaticCall cfg rec) gasStaticCall (makeStackFunc 6 1) (Some memoryStaticCall) false false false false true)
  else if op =? RETURNDATASIZE then Some (oper opReturnDataSize (constGasFunc GasQuickStep) (makeStackFunc 0 1))
  else if op =? RETURNDATACOPY then Some (oper_mem opReturnDataCopy gasReturnDataCopy (makeStackFunc 3 0) memoryReturnDataCopy)
  else if op =? REVERT then Some (mkOperation opRevert gasRevert (makeStackFunc 2 0) (Some memoryRevert) false false false true true)
  else NewHomesteadInstructionSet op.

(** ** [core/vm/interpreter.go] *)

Definition enforceRestrictions (op : Z) (o : operation) : IM (option vm_err) :=
  let~ g := get_evm in
  if evm_readOnly g then
    if writes o then iret (Some errWriteProtection)
    else if op =? CALL then
      let~ v := Back 2 in iret (if big_BitLen v >? 0 then Some errWriteProtection else None)
    else iret None
  else iret None.

(** What an iteration of [Run] ends with: a result, or the next iteration. *)
Inductive flow := Continue | Halt (ret : bytes) (err : option vm_err).

(** The size of the memory an operation needs, in whole words. *)
Definition required_memory (o : operation) : IM (Z + vm_err) :=
  match memorySize o with
  | None => gas_ok 0
  | Some size =>
      let~ n := size in
      gas~ memSize := checked (bigUint64 n) in
      checked (SafeMul (toWordSize memSize) 32)
  end.

(** The gas is consumed unless metering is disabled; every error is [ErrOutOfGas]. *)
Definition charge (o : operation) (memorySize : Z) : IM (option vm_err) :=
  if negb (DisableGasMetering cfg) then
    let~ cost := gasCost o chain_GasTable memorySize in
    match cost with
    | inr _ => iret (Some ErrOutOfGas)
    | inl cost =>
        let~ f := get_frame in
        let '(ok, c) := UseGas (f_contract f) cost in
        let~! put_frame (set_contract f c) in
        iret (if ok then None else Some ErrOutOfGas)
    end
  else iret None.

Definition resize (memorySize : Z) : IM unit :=
  if memorySize >? 0 then let~ f := get_frame in put_frame (set_mem f (mem_Resize (f_mem f) memorySize)) else iret tt.

(** From the execution to the end of the iteration. *)
Definition perform (o : operation) : IM flow :=
  let~ (res, err) := execute o in
  let~! (if returns o then let~ g := get_evm in put_evm (with_returnData g res) else iret tt) in
  match err with
  | Some e => iret (Halt [] (Some e))
  | None =>
      if reverts o then iret (Halt res (Some errExecutionReverted))
      else if halts o then iret (Halt res None)
      else let~! (if negb (jumps o) then let~ f := get_frame in put_frame (set_pc f (u64 (f_pc f + 1))) else iret tt) in
           iret Continue
  end.

Definition step_operation (op : Z) (o : operation) : IM flow :=
  let~ f := get_frame in
  match validateStack o (zlen (f_stack f)) with
  | Some e => iret (Halt [] (Some e))
  | None =>
      let~ denied := enforceRestrictions op o in
      match denied with
      | Some e => iret (Halt [] (Some e))
      | None =>
          let~ size := required_memory o in
          match size with
          | inr e => iret (Halt [] (Some e))
          | inl memorySize =>
              let~ e := charge o memorySize in
              match e with
              | Some e => iret (Halt [] (Some e))
              | None => let~! resize memorySize in perform o
              end
          end
      end
  end.

(** One iteration of the loop of [Run]. *)
Definition step : IM flow :=
  let~ abort := ievent EvAborted in
  if abort then iret (Halt [] None)
  else
    let~ f := get_frame in
    let op := GetOp (f_contract f) (f_pc f) in
    match NewByzantiumInstructionSet op with
    | None => iret (Halt [] (Some (errInvalidOpcode op)))
    | Some o => step_operation op o
    end.
End Table.

Section Run.
Context `{HC : Crypto} `{HP : Precompiles} (ctx : BlockContext) (cfg : Config).

(** [Run] around its loop. *)
Definition run_with (loop : frame -> EVM -> prog (bytes * option vm_err * frame * EVM)) : Runner := fun c input g =>
  let g := with_returnData (with_depth g (evm_depth g + 1)) [] in
  do (ret, err, c, g) <-
    (if zlen (c_Code c) =? 0 then Return ([], None, c, g)
     else do (ret, err, f, g) <- loop (mkFrame 0 [] NewMemory (with_input c input)) g; Return (ret, err, f_contract f, g));
  Return (ret, err, c, with_depth g (evm_depth g - 1)).

(** The loop of [Run]; the fuel bounds iterations and the depth of calls. *)
Fixpoint run_loop (fuel : nat) (f : frame) (g : EVM) : prog (bytes * option vm_err * frame * EVM) :=
  match fuel with
  | O => OutOfFuel
  | S fuel' =>
      do (r, f, g) <- step ctx cfg (run_with (run_loop fuel')) f g;
      match r with
      | Continue => run_loop fuel' f g
      | Halt ret err => Return (ret, err, f, g)
      end
  end.

Definition Run (fuel : nat) : Runner := run_with (run_loop fuel).

(** [NewEVM] *)
Definition NewEVM : EVM := mkEVM 0 false [] [] [].
End Run.
