(* ===== verification/VmJump.v ===== *)
(** Where a contract may jump to: the bit map of [jumpdests] against the
    definition by instruction boundaries.

    Arithmetic and logic of the virtual machine: the instructions compute the
    functions on 256-bit words that the machine is defined by. *)
From S2P Require Import Prelude RlpEncode RlpDecode RlpRaw Storage IstanbulTypes ValidatorSet Trie StateDB StateSpec StateTheorems BigMath VmProg VmData VmCore VmInterp.

(** ** Specification *)

(** The number of bytes after an instruction that belong to it. *)
Definition immediate (op : Z) : Z := if IsPush op then op - PUSH1 + 1 else 0.

(** Instructions that follow each other from [pc] to [d]. *)
Inductive reach (code : bytes) : Z -> Z -> Prop :=
| reach_here pc : reach code pc pc
| reach_next pc op d : code !! Z.to_nat pc = Some op -> reach code (pc + immediate op + 1) d -> reach code pc d.

(** A jump destination is a [JUMPDEST] that starts an instruction. *)
Definition valid_dest (code : bytes) (d : Z) : Prop := reach code 0 d /\ code !! Z.to_nat d = Some JUMPDEST.

(** ** The bit map *)

Definition bit (m : bytes) (d : Z) : bool := match m !! Z.to_nat (d / 8) with Some b => Z.testbit b (d `mod` 8) | None => false end.

Lemma bit_zero n d : bit (replicate n 0) d = false.
Proof.
  unfold bit. destruct (replicate n 0 !! Z.to_nat (d / 8)) as [b|] eqn:E; [|done].
  apply lookup_replicate in E as [-> _]. apply Z.testbit_0_l.
Qed.

Lemma bit_set m pc d : 0 <= pc -> 0 <= d -> pc / 8 < zlen m ->
  bit (alter (fun x => Z.lor x (Z.shiftl 1 (pc `mod` 8))) (Z.to_nat (pc / 8)) m) d = bit m d || (d =? pc).
Proof.
  intros Hp Hd Hl. unfold bit. pose proof (Z.mod_pos_bound pc 8 ltac:(lia)) as Mp. pose proof (Z.mod_pos_bound d 8 ltac:(lia)) as Md.
  pose proof (Z.div_mod pc 8 ltac:(lia)) as Dp. pose proof (Z.div_mod d 8 ltac:(lia)) as Dd.
  assert (0 <= pc / 8) by (apply Z.div_pos; lia). assert (0 <= d / 8) by (apply Z.div_pos; lia).
  destruct (Z.eq_dec (d / 8) (pc / 8)) as [E|E].
  - rewrite E, list_lookup_alter_eq. destruct (lookup_lt_is_Some_2 m (Z.to_nat (pc / 8))) as [b Hb]; [unfold zlen in Hl; lia|].
    rewrite Hb. simpl. rewrite Z.lor_spec. f_equal. rewrite Z.shiftl_spec by lia.
    destruct (Z.eqb_spec d pc) as [->|Hn]; [by rewrite Z.sub_diag|].
    destruct (Z.lt_ge_cases (d `mod` 8) (pc `mod` 8)); [by apply Z.testbit_neg_r; lia|].
    change 1 with (2 ^ 0). rewrite Z.pow2_bits_false by lia. done.
  - rewrite list_lookup_alter_ne by lia. destruct (Z.eqb_spec d pc) as [->|Hn]; [lia|]. by rewrite orb_false_r.
Qed.

Lemma immediate_nonneg op : 0 <= immediate op.
Proof. unfold immediate, IsPush. destruct (PUSH1 <=? op) eqn:E; simpl; [|lia]. destruct (op <=? PUSH32); zbool; lia. Qed.

Lemma reach_ge code pc d : reach code pc d -> pc <= d.
Proof. induction 1 as [|pc op d Hop Hr IH]; [lia|]. pose proof (immediate_nonneg op). lia. Qed.

Lemma jumpdests_loop_length fuel code : forall pc m, length (jumpdests_loop fuel code pc m) = length m.
Proof.
  induction fuel as [|fuel IH]; intros pc m; simpl; [done|]. destruct (code !! Z.to_nat pc) as [op|]; [|done].
  destruct (op =? JUMPDEST); [rewrite IH; apply length_alter|]. by destruct (IsPush op); rewrite IH.
Qed.

(** The loop sets the bits of the destinations it reaches, and needs no more
    iterations than there are bytes left. *)
Lemma jumpdests_loop_ok fuel code d : forall pc m, 0 <= pc -> 0 <= d -> zlen code - pc <= Z.of_nat fuel -> zlen code / 8 < zlen m ->
  bit (jumpdests_loop fuel code pc m) d = true <-> bit m d = true \/ reach code pc d /\ code !! Z.to_nat d = Some JUMPDEST.
Proof.
  induction fuel as [|fuel IH]; intros pc m Hp Hd Hf Hl; simpl.
  - split; [auto|]. intros [?|[Hr Hj]]; [done|]. apply reach_ge in Hr. apply lookup_lt_Some in Hj. unfold zlen in *. lia.
  - destruct (code !! Z.to_nat pc) as [op|] eqn:Eop; cycle 1.
    { split; [auto|]. intros [?|[Hr Hj]]; [done|]. apply reach_ge in Hr. apply lookup_lt_Some in Hj. apply lookup_ge_None in Eop. lia. }
    assert (forall q, immediate op = q ->
      (reach code pc d <-> d = pc \/ reach code (pc + q + 1) d)) as Hstep.
    { intros q Hq. split.
      - intros Hr. inversion Hr as [|? op' ? Hop' Hr']; subst; [auto|]. right. congruence.
      - intros [->|Hr]; [constructor|]. eapply reach_next; [done|]. by rewrite Hq. }
    pose proof (immediate_nonneg op) as Him.
    destruct (Z.eqb_spec op JUMPDEST) as [->|Hj].
    + rewrite IH by (try lia; unfold zlen; by rewrite length_alter). rewrite bit_set; try done.
      2:{ apply lookup_lt_Some in Eop. eapply Z.le_lt_trans; [|exact Hl]. apply Z.div_le_mono; unfold zlen; lia. }
      specialize (Hstep 0 eq_refl). rewrite Z.add_0_r in Hstep. rewrite orb_true_iff, Z.eqb_eq, Hstep. naive_solver.
    + assert (code !! Z.to_nat d = Some JUMPDEST -> d <> pc) as Hne by (intros ? ->; congruence).
      destruct (IsPush op) eqn:Epush.
      * assert (immediate op = op - PUSH1 + 1) as Ei by (unfold immediate; by rewrite Epush).
        rewrite IH by lia. rewrite (Hstep _ Ei). naive_solver.
      * assert (immediate op = 0) as Ei by (unfold immediate; by rewrite Epush).
        rewrite IH by lia. specialize (Hstep _ Ei). rewrite Z.add_0_r in Hstep. rewrite Hstep. naive_solver.
Qed.

Lemma length_jumpdests code : zlen (jumpdests code) = zlen code / 8 + 1.
Proof.
  unfold zlen at 1, jumpdests. rewrite jumpdests_loop_length, length_replicate, Z2Nat.id; [done|].
  pose proof (Z.div_pos (zlen code) 8). pose proof (zlen_nonneg code). lia.
Qed.

Lemma jumpdests_ok code d : 0 <= d -> bit (jumpdests code) d = true <-> valid_dest code d.
Proof.
  intros Hd. unfold jumpdests. pose proof (zlen_nonneg code). pose proof (Z.div_pos (zlen code) 8 ltac:(lia) ltac:(lia)).
  rewrite jumpdests_loop_ok; try done; [|unfold zlen; lia|].
  - rewrite bit_zero. unfold valid_dest. naive_solver.
  - unfold zlen at 2. rewrite length_replicate. lia.
Qed.

(** A cache whose entry for the code, if there is one, is the analysis of it. *)
Definition cached_ok (d : destinations) (h : hash) (code : bytes) : Prop := forall m, d !! h = Some m -> m = jumpdests code.

(** [has] never panics and decides valid destinations; destinations are within
    the code, so comparing 63 bits loses none. *)
Lemma dest_has_ok d h code dest : cached_ok d h code -> 0 <= dest -> zlen code < 2 ^ 62 ->
  exists b d', dest_has d h code dest = Ok (b, d') /\ (b = true <-> valid_dest code dest) /\
    (d' = d \/ d' = <[h := jumpdests code]> d) /\ (b = true -> dest < zlen code).
Proof.
  intros Hc Hd Hlen. unfold dest_has. destruct ((big_BitLen dest >=? 63) || (big_Uint64 dest >=? zlen code)) eqn:E.
  - exists false, d. split_and!; auto; [|done]. split; [done|]. intros [_ Hj]. exfalso. apply lookup_lt_Some in Hj.
    assert (dest < zlen code) by (unfold zlen; lia). apply orb_true_iff in E as [E|E]; zbool.
    + assert (2 ^ 62 <= Z.abs dest) by (apply big_BitLen_ge; lia). lia.
    + rewrite big_Uint64_id in E by (unfold is_u64; lia). lia.
  - apply orb_false_iff in E as [E1 E2]. zbool. assert (dest < 2 ^ 62) by (rewrite <- (Z.abs_eq dest) by done; apply big_BitLen_bound; lia).
    rewrite big_Uint64_id in * by (unfold is_u64; lia).
    assert (forall d' : destinations, exists b, match jumpdests code !! Z.to_nat (dest / 8) with
        | Some b => Ok (negb (Z.land b (Z.shiftl 1 (dest `mod` 8)) =? 0), d') | None => Panic end = Ok (E := vm_err) (b, d') /\ (b = true <-> valid_dest code dest)) as K.
    { intros d'. destruct (lookup_lt_is_Some_2 (jumpdests code) (Z.to_nat (dest / 8))) as [b Hb].
      { pose proof (length_jumpdests code) as L. pose proof (Z.div_le_mono dest (zlen code) 8). pose proof (Z.div_pos dest 8). unfold zlen in *. lia. }
      rewrite Hb. eexists. split; [done|]. rewrite <- (jumpdests_ok code dest Hd). unfold bit. rewrite Hb.
      pose proof (Z.mod_pos_bound dest 8 ltac:(lia)). rewrite Z.shiftl_mul_pow2, Z.mul_1_l by lia.
      rewrite negb_true_iff, Z.eqb_neq. split.
      - intros Hn. destruct (Z.testbit b (dest `mod` 8)) eqn:Et; [done|]. exfalso. apply Hn. apply Z.bits_inj'. intros i Hi.
        rewrite Z.land_spec, Z.testbit_0_l, Z.pow2_bits_eqb by lia. destruct (Z.eqb_spec (dest `mod` 8) i) as [<-|]; [by rewrite Et|apply andb_false_r].
      - intros Ht Hz. assert (Z.testbit (Z.land b (2 ^ (dest `mod` 8))) (dest `mod` 8) = true) as B
          by (rewrite Z.land_spec, Z.pow2_bits_true, Ht by lia; done). rewrite Hz, Z.testbit_0_l in B. done. }
    destruct (d !! h) as [m|] eqn:Em.
    + rewrite (Hc m Em). destruct (K d) as (b & -> & Hb). exists b, d. split_and!; auto.
    + destruct (K (<[h := jumpdests code]> d)) as (b & -> & Hb). eexists b, _. split_and!; auto.
Qed.

(** ** Specification *)

Definition word (x : Z) : Z := x `mod` 2 ^ 256.

(** Two's complement. *)
Definition signed (x : Z) : Z := if x <? 2 ^ 255 then x else x - 2 ^ 256.

(** The low [k] bits of [x] as a signed number. *)
Definition sign_extend (k x : Z) : Z := let v := x `mod` 2 ^ k in if v <? 2 ^ (k - 1) then v else v - 2 ^ k.

Definition flag (P : bool) : Z := if P then 1 else 0.

(** The stack after an instruction. *)
Definition arith (op : Z) (stack : list Z) : option (list Z) :=
  match stack with
  | x :: y :: st =>
      let bin r := Some (r :: st) in
      if op =? ADD then bin (word (x + y))
      else if op =? MUL then bin (word (x * y))
      else if op =? SUB then bin (word (x - y))
      else if op =? DIV then bin (if y =? 0 then 0 else x / y)
      else if op =? SDIV then bin (if y =? 0 then 0 else word (Z.quot (signed x) (signed y)))
      else if op =? MOD then bin (if y =? 0 then 0 else x `mod` y)
      else if op =? SMOD then bin (if y =? 0 then 0 else word (Z.rem (signed x) (signed y)))
      else if op =? EXP then bin (word (x ^ y))
      else if op =? SIGNEXTEND then bin (if x <? 31 then word (sign_extend (8 * x + 8) y) else y)
      else if op =? LT then bin (flag (x <? y))
      else if op =? GT then bin (flag (y <? x))
      else if op =? SLT then bin (flag (signed x <? signed y))
      else if op =? SGT then bin (flag (signed y <? signed x))
      else if op =? EQ then bin (flag (x =? y))
      else if op =? AND then bin (Z.land x y)
      else if op =? OR then bin (Z.lor x y)
      else if op =? XOR then bin (Z.lxor x y)
      else if op =? BYTE then bin (if x <? 32 then (y / 256 ^ (31 - x)) `mod` 256 else 0)
      else if op =? NOT then Some (2 ^ 256 - 1 - x :: y :: st)
      else if op =? ISZERO then Some (flag (x =? 0) :: y :: st)
      else match st with
           | z :: st =>
               if op =? ADDMOD then Some ((if z =? 0 then 0 else (x + y) `mod` z) :: st)
               else if op =? MULMOD then Some ((if z =? 0 then 0 else (x * y) `mod` z) :: st)
               else None
           | [] => None
           end
  | _ => None
  end.

(** ** Words *)

Lemma word_of x : U256 x = word x.
Proof. apply U256_mod. Qed.

Lemma signed_of x : S256 x = signed x.
Proof. reflexivity. Qed.

Lemma word_range x : is_word (word x).
Proof. apply Z.mod_pos_bound. lia. Qed.

Lemma word_id x : is_word x -> word x = x.
Proof. intros. by apply Z.mod_small. Qed.

Lemma land_word x y : is_word x -> is_word y -> is_word (Z.land x y).
Proof.
  unfold is_word. intros Hx Hy. split; [apply Z.land_nonneg; lia|].
  rewrite <- (U256_id y) by done. unfold U256. rewrite Z.land_assoc. apply U256_word.
Qed.

Lemma lor_word x y : is_word x -> is_word y -> is_word (Z.lor x y).
Proof. intros Hx Hy. rewrite <- (U256_id x), <- (U256_id y) by done. unfold U256. rewrite <- Z.land_lor_distr_l. apply U256_word. Qed.

Lemma lxor_word x y : is_word x -> is_word y -> is_word (Z.lxor x y).
Proof.
  intros Hx Hy. rewrite <- (U256_id x), <- (U256_id y) by done. unfold U256.
  replace (Z.lxor (Z.land x tt256m1) (Z.land y tt256m1)) with (U256 (Z.lxor x y)); [apply U256_word|].
  apply Z.bits_inj'. intros i Hi. unfold U256. rewrite Z.land_spec, !Z.lxor_spec, !Z.land_spec.
  by destruct (Z.testbit x i), (Z.testbit y i), (Z.testbit tt256m1 i).
Qed.

Lemma signed_0 y : is_word y -> (signed y =? 0) = (y =? 0).
Proof. unfold is_word, signed. intros. destruct (y <? 2 ^ 255) eqn:E; [done|]. zbool. destruct (Z.eqb_spec (y - 2 ^ 256) 0), (Z.eqb_spec y 0); lia. Qed.

Lemma signed_twice y : is_word y -> signed (signed y) = signed y.
Proof. unfold is_word, signed. intros. destruct (y <? 2 ^ 255) eqn:E; [by rewrite E|]. destruct (Z.ltb_spec (y - 2 ^ 256) (2 ^ 255)); lia. Qed.

Lemma quot_by_abs X Y : Y <> 0 -> Z.abs X / Z.abs Y * (if X * Y <? 0 then -1 else 1) = Z.quot X Y.
Proof.
  intros HY. rewrite Z.quot_div by done. destruct (Z.ltb_spec (X * Y) 0).
  - replace (Z.sgn X * Z.sgn Y) with (-1) by (rewrite <- Z.sgn_mul; symmetry; apply Z.sgn_neg_iff; lia). lia.
  - destruct (Z.eq_dec X 0) as [->|]; [rewrite Z.div_0_l by lia; lia|].
    replace (Z.sgn X * Z.sgn Y) with 1 by (rewrite <- Z.sgn_mul; symmetry; apply Z.sgn_pos_iff; nia). lia.
Qed.

Lemma rem_by_abs X Y : Y <> 0 -> Z.abs X `mod` Z.abs Y * (if X <? 0 then -1 else 1) = Z.rem X Y.
Proof.
  intros HY. rewrite Z.rem_mod by done. destruct (Z.ltb_spec X 0).
  - rewrite (proj2 (Z.sgn_neg_iff X)) by lia. lia.
  - destruct (Z.eq_dec X 0) as [->|]; [by rewrite Z.mod_0_l by lia|]. rewrite (proj2 (Z.sgn_pos_iff X)) by lia. lia.
Qed.

(** Setting or clearing all bits from [k] on is sign extension. *)
Lemma sign_bits k x : 0 <= k ->
  (if Z.testbit x k then Z.lor x (Z.lnot (Z.shiftl 1 k - 1)) else Z.land x (Z.shiftl 1 k - 1)) = sign_extend (k + 1) x.
Proof.
  intros Hk. rewrite Z.shiftl_mul_pow2, Z.mul_1_l by done. replace (2 ^ k - 1) with (Z.ones k) by (rewrite Z.ones_equiv; lia).
  unfold sign_extend. rewrite Z.add_simpl_r. pose proof (Z.mod_pos_bound x (2 ^ k) ltac:(lia)) as B.
  assert (x `mod` 2 ^ (k + 1) = x `mod` 2 ^ k + (if Z.testbit x k then 2 ^ k else 0)) as ->.
  { rewrite Z.pow_add_r, Z.rem_mul_r by lia. f_equal. rewrite <- Z.shiftr_div_pow2 by done. change (2 ^ 1) with 2.
    rewrite <- Z.bit0_mod, Z.shiftr_spec, Z.add_0_l by lia. destruct (Z.testbit x k); simpl; lia. }
  destruct (Z.testbit x k) eqn:E.
  - destruct (Z.ltb_spec (x `mod` 2 ^ k + 2 ^ k) (2 ^ k)); [lia|].
    assert (Z.lnot (Z.ones k) = - 2 ^ k) as L by (rewrite Z.ones_equiv; unfold Z.lnot; lia).
    rewrite Z.pow_add_r by lia. transitivity (x `mod` 2 ^ k + - 2 ^ k); [|lia]. rewrite <- L.
    rewrite <- Z.land_ones by done. rewrite Z.add_nocarry_lxor; cycle 1.
    { apply Z.bits_inj'. intros i Hi. rewrite !Z.land_spec, Z.lnot_spec, Z.testbit_0_l by done. by destruct (Z.testbit x i), (Z.testbit (Z.ones k) i). }
    apply Z.bits_inj'. intros i Hi. rewrite Z.lor_spec, Z.lxor_spec, Z.land_spec, Z.lnot_spec by done.
    destruct (Z.testbit x i), (Z.testbit (Z.ones k) i); done.
  - rewrite Z.add_0_r, Z.land_ones by done. by destruct (Z.ltb_spec (x `mod` 2 ^ k) (2 ^ k)); [|lia].
Qed.

Lemma lnot_word x : is_word x -> U256 (Z.lnot x) = 2 ^ 256 - 1 - x.
Proof.
  intros Hx. unfold is_word in Hx. rewrite U256_mod. replace (Z.lnot x) with (2 ^ 256 - 1 - x + (-1) * 2 ^ 256) by (unfold Z.lnot; lia).
  rewrite Z_mod_plus_full. apply Z.mod_small. lia.
Qed.

Lemma flag_word b : is_word (flag b).
Proof. by destruct b. Qed.

Lemma mod_word a z : is_word z -> 0 < z -> is_word (a `mod` z).
Proof. unfold is_word. intros Hz H0. pose proof (Z.mod_pos_bound a z H0). lia. Qed.

Section Execute.
Context `{HC : Crypto} `{HP : Precompiles} (ctx : BlockContext) (cfg : Config) (rec : Runner).

(** An instruction that turns one stack into another and does nothing else. *)
Definition computes (op : Z) (st st' : list Z) : Prop :=
  exists o, NewByzantiumInstructionSet ctx cfg rec op = Some o /\
    forall f g, f_stack f = st -> execute o f g = Return ([], None, set_stack f st', g).

Lemma binop_computes op h x y r st : NewByzantiumInstructionSet ctx cfg rec op <> None ->
  (forall o, NewByzantiumInstructionSet ctx cfg rec op = Some o -> execute o = binop h) -> h x y = r -> computes op (x :: y :: st) (r :: st).
Proof.
  intros Hv Ho <-. destruct (NewByzantiumInstructionSet ctx cfg rec op) as [o|] eqn:E; [|done]. exists o. split; [done|].
  intros f g Hf. rewrite (Ho o eq_refl). unfold binop, pop, push, ibind, get_frame, put_frame, iret, nothing. simpl. rewrite Hf. done.
Qed.

(** Look an instruction up. *)
Ltac by_binop := match goal with |- computes _ (?x :: ?y :: _) (?r :: _) =>
  eapply binop_computes; [discriminate|intros ? [= <-]; reflexivity|] end.

Ltac by_steps := eexists; split; [reflexivity|]; intros f g Hf;
  unfold execute, oper, opNot, opIszero, opAddmod, opMulmod, opSignExtend, pop, push, ibind, get_frame, put_frame, iret, nothing;
  simpl; rewrite Hf; simpl.

Lemma signextend_computes x y st : is_word x -> computes SIGNEXTEND (x :: y :: st) ((if x <? 31 then word (sign_extend (8 * x + 8) y) else y) :: st).
Proof.
  intros Hx. unfold is_word in Hx. by_steps. destruct (Z.ltb_spec x 31) as [Hl|Hl]; simpl; [|by destruct f].
  rewrite big_Uint64_id by (unfold is_u64; lia). replace (u64 (x * 8 + 7)) with (8 * x + 7) by (rewrite u64_id by (unfold is_u64; lia); lia).
  rewrite sign_bits, word_of by lia. replace (8 * x + 7 + 1) with (8 * x + 8) by lia. done.
Qed.

Lemma sdiv_computes x y st : is_word x -> is_word y -> computes SDIV (x :: y :: st) ((if y =? 0 then 0 else word (Z.quot (signed x) (signed y))) :: st).
Proof.
  intros Hx Hy. by_binop. simpl. rewrite !signed_of, signed_0 by done. destruct (Z.eqb_spec y 0) as [->|Hn]; [done|].
  rewrite word_of, quot_by_abs; [done|]. intros E. apply Z.eqb_eq in E. rewrite signed_0 in E by done. zbool. done.
Qed.

Lemma smod_computes x y st : is_word x -> is_word y -> computes SMOD (x :: y :: st) ((if y =? 0 then 0 else word (Z.rem (signed x) (signed y))) :: st).
Proof.
  intros Hx Hy. by_binop. simpl. rewrite !signed_of, signed_0 by done. destruct (Z.eqb_spec y 0) as [->|Hn]; [done|].
  rewrite word_of, rem_by_abs; [done|]. intros E. apply Z.eqb_eq in E. rewrite signed_0 in E by done. zbool. done.
Qed.

Lemma byte_computes x y st : is_word x -> is_word y -> computes BYTE (x :: y :: st) ((if x <? 32 then (y / 256 ^ (31 - x)) `mod` 256 else 0) :: st).
Proof.
  unfold is_word. intros Hx Hy. by_binop. simpl. destruct (Z.ltb_spec x 32); [|done]. rewrite big_Int64_id by lia.
  unfold Byte. destruct (Z.geb_spec x 32); [lia|]. rewrite bigEndianByteAt_ok by lia. by replace (32 - 1 - x) with (31 - x) by lia.
Qed.

Lemma div_word x y : is_word x -> 0 < y -> is_word (x / y).
Proof. unfold is_word. intros Hx Hy. split; [apply Z.div_pos; lia|]. eapply Z.le_lt_trans; [|apply Hx]. apply Z.div_le_upper_bound; nia. Qed.

Lemma word_pos y : is_word y -> y <> 0 -> 0 < y.
Proof. unfold is_word. lia. Qed.

Create HintDb word_db.
#[local] Hint Resolve word_range flag_word land_word lor_word lxor_word mod_word div_word word_pos : word_db.

Lemma small_word n : 0 <= n < 256 -> is_word n.
Proof. unfold is_word. lia. Qed.

(** The arithmetic, comparison and bit instructions of the machine compute their
    functions on words, and leave words. *)
Lemma arith_ok op st st' : Forall is_word st -> arith op st = Some st' -> computes op st st' /\ Forall is_word st'.
Proof.
  intros Hw. unfold arith. destruct st as [|x [|y st]]; try done.
  apply Forall_cons in Hw as [Hx Hw]. apply Forall_cons in Hw as [Hy Hst].
  repeat match goal with
  | |- (if op =? ?c then _ else _) = _ -> _ => destruct (Z.eqb_spec op c) as [->|_]; [intros [= <-]|]
  end.
  - split; [by_binop; apply word_of|]. auto with word_db.
  - split; [by_binop; apply word_of|]. auto with word_db.
  - split; [by_binop; apply word_of|]. auto with word_db.
  - split; [by_binop|].
    + simpl. destruct (Z.eqb_spec y 0); simpl; [done|]. apply U256_id. auto with word_db.
    + constructor; [|done]. destruct (Z.eqb_spec y 0); [by apply small_word|auto with word_db].
  - split; [by apply sdiv_computes|]. constructor; [|done]. destruct (y =? 0); [by apply small_word|auto with word_db].
  - split; [by_binop|].
    + simpl. destruct (Z.eqb_spec y 0); simpl; [done|]. apply U256_id. auto with word_db.
    + constructor; [|done]. destruct (Z.eqb_spec y 0); [by apply small_word|auto with word_db].
  - split; [by apply smod_computes|]. constructor; [|done]. destruct (y =? 0); [by apply small_word|auto with word_db].
  - split; [by_binop; apply Exp_ok, Hy|]. auto with word_db.
  - split; [by apply signextend_computes|]. constructor; [|done]. destruct (x <? 31); auto with word_db.
  - split; [by_binop; done|]. auto with word_db.
  - split; [by_binop; simpl; by rewrite Z.gtb_ltb|]. auto with word_db.
  - split; [by_binop; simpl; by rewrite !signed_of, signed_twice|]. auto with word_db.
  - split; [by_binop; simpl; by rewrite Z.gtb_ltb|]. auto with word_db.
  - split; [by_binop; done|]. auto with word_db.
  - split; [by_binop; done|]. auto with word_db.
  - split; [by_binop; done|]. auto with word_db.
  - split; [by_binop; done|]. auto with word_db.
  - split; [by apply byte_computes|]. constructor; [|done].
    destruct (x <? 32); apply small_word; [apply Z.mod_pos_bound|]; lia.
  - split; [by_steps; by rewrite lnot_word|]. constructor; [unfold is_word in *; lia|auto].
  - split; [by_steps|constructor; auto with word_db]. unfold is_word in Hx. rewrite Z.gtb_ltb.
    by destruct (Z.ltb_spec 0 x), (Z.eqb_spec x 0); try lia.
  - destruct st as [|z st]; [done|]. apply Forall_cons in Hst as [Hz Hst].
    destruct (Z.eqb_spec op ADDMOD) as [->|_]; [|destruct (Z.eqb_spec op MULMOD) as [->|_]; [|done]]; intros [= <-].
    all: assert (forall a, (if z >? 0 then U256 (a `mod` z) else 0) = if z =? 0 then 0 else a `mod` z) as E
      by (intros a; unfold is_word in Hz; rewrite Z.gtb_ltb; destruct (Z.ltb_spec 0 z), (Z.eqb_spec z 0); try lia; apply U256_id; auto with word_db).
    all: split; [by_steps; by rewrite E|]; constructor; [|done].
    all: destruct (Z.eqb_spec z 0); [by apply small_word|auto with word_db].
Qed.
End Execute.
