(* ===== verification/VmInv.v ===== *)
(** The invariants of a run of the virtual machine: of the account state, of the
    machine and of a running contract, and how they evolve. *)
From S2P Require Import Prelude RlpEncode RlpDecode RlpRaw Storage IstanbulTypes ValidatorSet Trie StateDB StateSpec StateTheorems BigMath VmProg VmData Ota VmCore VmInterp VmJump.

Abbreviation nonneg := (Forall (fun x => 0 <= x)).

(** Byte strings that Go can index. *)
Definition small (b : bytes) : Prop := bytes_ok b /\ zlen b < 2 ^ 62.

Lemma small_nil : small [].
Proof. by split; [constructor|]. Qed.

Section State.
Context `{HCL : CryptoLaws} `{HP : Precompiles}.

(** ** The account state *)

(** What is stored under a name that is no hash: one-time accounts, but for the two
    addresses of their balances and key images. *)
Definition stored_ok (a : address) (v : bytes) : Prop :=
  bytes_ok v /\ (a <> otaBalanceStorageAddr -> a <> otaImageStorageAddr -> v = [] \/ zlen v = WAddressLength).

Record acct_ok (a : address) (c : acct) : Prop := {
  ao_balance : 0 <= a_balance c;
  ao_code : small (default [] (a_code c));
  ao_codehash : a_codehash c = Keccak256 (default [] (a_code c));
  ao_storage k : is_hash (a_storage c k);
  ao_bytes k : stored_ok a (a_bytes c k)
}.

Definition world_ok (W : world) : Prop := forall a c, w_accts W a = Some c -> acct_ok a c.

Definition exists_at (m : machine) (a : address) : Prop := is_Some (w_accts (m_world m) a).

Record machine_ok (m : machine) : Prop := {
  mo_world : world_ok (m_world m);
  mo_snaps : Forall (fun p => world_ok p.2) (m_snaps m);
  mo_refund : 0 <= w_refund (m_world m);
  mo_refunds : Forall (fun p => 0 <= w_refund p.2) (m_snaps m);
  mo_sorted : StronglySorted Z.lt (map fst (m_snaps m));
  mo_below : Forall (fun p => p.1 < m_next m) (m_snaps m)
}.

(** The state moves on: snapshots that were there are there, accounts stay. *)
Record mrel (m m' : machine) : Prop := {
  mr_ok : machine_ok m';
  mr_exists a : exists_at m a -> exists_at m' a;
  mr_snaps : m_snaps m `prefix_of` m_snaps m';
  mr_next : m_next m <= m_next m'
}.

Lemma mrel_refl m : machine_ok m -> mrel m m.
Proof. intros. constructor; auto. lia. Qed.

Lemma mrel_trans m1 m2 m3 : mrel m1 m2 -> mrel m2 m3 -> mrel m1 m3.
Proof. intros [] []. constructor; auto; [by etrans|lia]. Qed.

(** Nothing is changed that a contract or a log reader can see, except for
    accounts of native contracts. *)
Record quiet (m m' : machine) : Prop := {
  q_accts a : precompiled a = None -> w_accts (m_world m') a = w_accts (m_world m) a;
  q_refund : w_refund (m_world m') = w_refund (m_world m);
  q_logs : w_logs (m_world m') = w_logs (m_world m);
  q_logSize : w_logSize (m_world m') = w_logSize (m_world m)
}.

Lemma quiet_refl m : quiet m m.
Proof. by constructor. Qed.

Lemma quiet_trans m1 m2 m3 : quiet m1 m2 -> quiet m2 m3 -> quiet m1 m3.
Proof. intros [] []. constructor; try congruence. intros a Ha. rewrite q_accts1, q_accts0; auto. Qed.

Lemma quiet_world m m' : m_world m' = m_world m -> quiet m m'.
Proof. intros E. constructor; intros; by rewrite E. Qed.

(** ** Events *)

Lemma acct_ok_fresh a : acct_ok a fresh.
Proof. constructor; simpl; [lia|apply small_nil|done| |].
  - intros _. split; [|done]. by apply Forall_replicate.
  - intros _. split; [constructor|by left]. Qed.

Lemma world_ok_set W a c : world_ok W -> acct_ok a c -> world_ok (w_set W a c).
Proof.
  intros HW Hc b c' E. unfold w_set, fn_set in E. simpl in E. destruct (decide (b = a)); [by simplify_eq|by eapply HW].
Qed.

Lemma acct_ok_at W a : world_ok W -> acct_ok a (acct_at W a).
Proof. intros HW. unfold acct_at. destruct (w_accts W a) as [c|] eqn:E; simpl; [by eapply HW|apply acct_ok_fresh]. Qed.

Lemma w_set_exists W a c b : is_Some (w_accts W b) -> is_Some (w_accts (w_set W a c) b).
Proof. unfold w_set, fn_set. simpl. destruct (decide (b = a)); eauto. Qed.

Lemma w_touch_id W a : is_Some (w_accts W a) -> w_touch W a = W.
Proof. unfold w_touch. by intros [c ->]. Qed.

(** A change of the world that keeps it sound. *)
Definition good_change (op : state_op) (m : machine) : Prop :=
  world_ok (w_change op (m_world m)) /\ 0 <= w_refund (w_change op (m_world m)) /\ forall b, exists_at m b -> is_Some (w_accts (w_change op (m_world m)) b).

Lemma good_set op m a c : machine_ok m -> w_change op (m_world m) = w_set (m_world m) a c -> acct_ok a c -> good_change op m.
Proof.
  intros Hm E Hc. unfold good_change. rewrite E. split; [apply world_ok_set; [apply Hm|done]|]. split; [apply Hm|]. intros b. apply w_set_exists.
Qed.

Lemma good_touch op m a : machine_ok m -> w_change op (m_world m) = w_touch (m_world m) a -> good_change op m.
Proof.
  intros Hm E. unfold w_touch in E. destruct (w_accts (m_world m) a); [|eapply good_set; [done..|apply acct_ok_fresh]].
  unfold good_change. rewrite E. split_and!; [apply Hm..|auto].
Qed.

Lemma good_same op m : machine_ok m -> w_accts (w_change op (m_world m)) = w_accts (m_world m) -> w_refund (m_world m) <= w_refund (w_change op (m_world m)) -> good_change op m.
Proof. intros Hm E Hr. pose proof (mo_refund m Hm). split_and!; [|lia|by rewrite E]. intros b c. rewrite E. apply Hm. Qed.

Lemma mrel_change m m' W : machine_ok m -> m' = mkMachine W (m_snaps m) (m_next m) -> world_ok W -> 0 <= w_refund W ->
  (forall a, exists_at m a -> is_Some (w_accts W a)) -> mrel m m'.
Proof. intros [] -> HW HR HE. constructor; [by constructor|done|done|simpl; lia]. Qed.

Lemma good_mrel op m : machine_ok m -> good_change op m -> mrel m (mkMachine (w_change op (m_world m)) (m_snaps m) (m_next m)).
Proof. intros Hm (? & ? & ?). by eapply mrel_change. Qed.

(** What an event is allowed to be called with. *)
Definition ev_ok {R} (e : vm_ev R) (m : machine) : Prop :=
  match e with
  | EvSubBalance a n => n <= a_balance (acct_at (m_world m) a)
  | EvSetCode _ code => small code
  | EvSetState _ _ v => is_hash v
  | EvSetStateByteArray a _ v => stored_ok a v
  | EvAddRefund n => 0 <= n
  | EvRevertToSnapshot _ => False
  | _ => True
  end.

(** Events that only look. *)
Definition ev_reads {R} (e : vm_ev R) : bool :=
  match e with
  | EvGetBalance _ | EvGetNonce _ | EvGetRefund | EvGetCodeHash _ | EvGetCode _ | EvGetCodeSize _ | EvGetState _ _ | EvGetStateByteArray _ _
  | EvHasSuicided _ | EvExist _ | EvEmpty _ | EvGetHash _ | EvAborted => true
  | _ => false
  end.

Lemma ev_reads_same R (e : vm_ev R) m r m' : ev_reads e = true -> ev_post R e m r m' -> m' = m.
Proof.
  destruct m as [W sn n]. destruct e; simpl; intros Hr; try done; unfold ev_post; cbn [ev_op]; try (by intros [-> _]).
  all: intros (res & [= <- <-] & _); done.
Qed.

Lemma ev_mrel R (e : vm_ev R) m r m' : machine_ok m -> ev_post R e m r m' -> ev_ok e m -> mrel m m'.
Proof.
  intros Hm Hp He. destruct (ev_reads e) eqn:Er; [apply (ev_reads_same _ _ _ _ _ Er) in Hp as ->; by apply mrel_refl|].
  pose proof (mo_world m Hm) as HW. pose proof (acct_ok_at (m_world m)) as Hat.
  destruct e; try done; unfold ev_post in Hp; cbn [ev_op] in Hp; destruct Hp as (res & Hs & _); cbn [m_step] in Hs.
  all: match type of Hs with Some (_, ?M) = _ => assert (M = m') as E by congruence; clear Hs; destruct E end.
  all: try (apply good_mrel; [done|]); cbn [ev_ok] in He.
  - eapply good_set; [done|reflexivity|]. destruct (acct_ok_fresh a). destruct (Hat a HW). by constructor.
  - cbn [w_change]. destruct (Z.gtb_spec n 0).
    + eapply good_set; [done|simpl; rewrite (proj2 (Z.gtb_lt n 0)) by lia; reflexivity|]. destruct (Hat a HW). constructor; try done. simpl. lia.
    + eapply good_touch; [done|simpl]. destruct (Z.gtb_spec n 0); [lia|reflexivity].
  - cbn [w_change]. destruct (Z.gtb_spec n 0).
    + eapply good_set; [done|simpl; rewrite (proj2 (Z.gtb_lt n 0)) by lia; reflexivity|]. destruct (Hat a HW). constructor; try done. simpl. lia.
    + eapply good_touch; [done|simpl]. destruct (Z.gtb_spec n 0); [lia|reflexivity].
  - eapply good_set; [done|reflexivity|]. destruct (Hat a HW). by constructor.
  - eapply good_set; [done|reflexivity|]. destruct (Hat a HW). constructor; try done; simpl. by destruct code.
  - apply good_same; [done..|simpl; lia].
  - eapply good_set; [done|reflexivity|]. destruct (Hat a HW). constructor; try done. intros k'. simpl. unfold fn_set. by destruct (decide (k' = k)).
  - eapply good_set; [done|reflexivity|]. destruct (Hat a HW). constructor; try done. intros k'. simpl. unfold fn_set. by destruct (decide (k' = k)).
  - destruct (w_accts (m_world m) a) as [c|] eqn:Ea; cycle 1.
    { apply good_same; [done|simpl; by rewrite Ea..]. }
    eapply good_set; [done|simpl; rewrite Ea; reflexivity|]. destruct (HW a c Ea). by constructor.
  - destruct Hm. constructor; simpl; [|done|by apply prefix_app_r|lia]. constructor; simpl; [done| |done| | |].
    + by apply Forall_app; split; [|constructor].
    + by apply Forall_app; split; [|constructor].
    + rewrite map_app. simpl. apply StronglySorted_app_2; [|done|by repeat constructor].
      intros x y Hx Hy. apply list_elem_of_singleton in Hy as ->. apply list_elem_of_fmap in Hx as (p & -> & Hp).
      rewrite Forall_forall in mo_below0. by apply mo_below0.
    + apply Forall_app; split; [eapply Forall_impl; [done|]; intros []; simpl; lia|]. constructor; simpl; [lia|done].
  - apply good_same; [done..|simpl; lia].
  - apply good_same; [done|simpl; by destruct (w_preimages _ !! h)..].
Qed.

(** *** What reads answer *)

Lemma post_GetBalance a m r m' : machine_ok m -> ev_post Z (EvGetBalance a) m r m' -> m' = m /\ 0 <= r /\ r = a_balance (acct_at (m_world m) a).
Proof.
  intros Hm Hp. assert (m' = m) as -> by exact (ev_reads_same _ (EvGetBalance a) m r m' eq_refl Hp). split; [done|].
  destruct Hp as (res & [= <-] & [= <-]). unfold acct_at. destruct (w_accts (m_world m) a) as [c|] eqn:E; simpl; [|done].
  split; [|done]. by apply (mo_world _ Hm a c).
Qed.

Lemma post_GetState a k m r m' : machine_ok m -> ev_post hash (EvGetState a k) m r m' -> m' = m /\ is_hash r.
Proof.
  intros Hm Hp. assert (m' = m) as -> by exact (ev_reads_same _ (EvGetState a k) m r m' eq_refl Hp). split; [done|].
  destruct Hp as (res & [= <-] & [= <-]). destruct (w_accts (m_world m) a) as [c|] eqn:E; [by apply (mo_world _ Hm a c)|by apply (ao_storage a fresh (acct_ok_fresh a) [])].
Qed.

Lemma post_GetCode a m r m' : machine_ok m -> ev_post bytes (EvGetCode a) m r m' ->
  m' = m /\ small r /\ (r <> [] -> exists_at m a) /\ forall c, w_accts (m_world m) a = Some c -> r = default [] (a_code c).
Proof.
  intros Hm Hp. assert (m' = m) as -> by exact (ev_reads_same _ (EvGetCode a) m r m' eq_refl Hp). split; [done|].
  destruct Hp as (res & [= <-] & [= <-]). unfold exists_at. destruct (w_accts (m_world m) a) as [c|] eqn:E; simpl.
  - split_and!; [by apply (mo_world _ Hm a c)|eauto|]. by intros c' [= <-].
  - split_and!; [apply small_nil|done|done].
Qed.

Lemma post_GetCodeHash a m r m' : machine_ok m -> ev_post hash (EvGetCodeHash a) m r m' ->
  m' = m /\ forall c, w_accts (m_world m) a = Some c -> r = Keccak256 (default [] (a_code c)).
Proof.
  intros Hm Hp. assert (m' = m) as -> by exact (ev_reads_same _ (EvGetCodeHash a) m r m' eq_refl Hp). split; [done|].
  destruct Hp as (res & [= <-] & [= <-]). intros c Hc. rewrite Hc. by apply (mo_world _ Hm a c).
Qed.

Lemma post_Exist a m r m' : ev_post bool (EvExist a) m r m' -> m' = m /\ (r = true <-> exists_at m a).
Proof.
  intros Hp. assert (m' = m) as -> by exact (ev_reads_same _ (EvExist a) m r m' eq_refl Hp). split; [done|].
  destruct Hp as (res & [= <-] & [= <-]). apply bool_decide_eq_true.
Qed.

Lemma post_Snapshot m r m' : ev_post Z EvSnapshot m r m' ->
  r = m_next m /\ m' = mkMachine (m_world m) (m_snaps m ++ [(m_next m, m_world m)]) (m_next m + 1).
Proof. intros (res & [= <- <-] & [= <-]). done. Qed.
End State.

(** ** Native contracts *)

(** What native contracts promise: up to [pc_limit] units of gas they do not panic
    and keep the state sound; the ones that are [pc_pure] do not change the state. *)
Class PrecompileLaws `{HCL : CryptoLaws} `{HP : Precompiles} := {
  pc_pure : address -> bool;
  pc_limit : Z;
  pc_gas_ok a p input : precompiled a = Some p -> 0 <= RequiredGas p input;
  pc_run_ok a p input c m : precompiled a = Some p -> small input -> (exists v, c_value c = Some v /\ 0 <= v) -> machine_ok m ->
    RequiredGas p input < pc_limit ->
    wp ev_pre ev_post (pc_Run p input c) (fun '(ret, err) m' => small ret /\ mrel m m' /\ (pc_pure a = true -> m_world m' = m_world m)) m
}.

Section Frames.
Context `{HPL : PrecompileLaws}.

Definition all_pure : Prop := forall a p, precompiled a = Some p -> pc_pure a = true.

(** ** The machine *)

(** An analysis that is cached is the one of a code that was run. *)
Record evm_ok (g : EVM) : Prop := {
  eo_maps d h m : d ∈ evm_maps g -> d !! h = Some m -> exists code, code ∈ evm_codes g /\ Keccak256 code = h /\ m = jumpdests code;
  eo_return : small (evm_returnData g)
}.

Record erel (g g' : EVM) : Prop := {
  er_ok : evm_ok g';
  er_depth : evm_depth g' = evm_depth g;
  er_readOnly : evm_readOnly g' = evm_readOnly g;
  er_maps : (length (evm_maps g) <= length (evm_maps g'))%nat;
  er_codes : evm_codes g ⊆ evm_codes g'
}.

Lemma erel_refl g : evm_ok g -> erel g g.
Proof. by constructor. Qed.

Lemma erel_trans g1 g2 g3 : erel g1 g2 -> erel g2 g3 -> erel g1 g3.
Proof. intros [] []. constructor; auto; [congruence..|lia|set_solver]. Qed.

(** With pure native contracts, a read-only machine changes nothing. *)
Definition static (g : EVM) (m m' : machine) : Prop := all_pure -> evm_readOnly g = true -> quiet m m'.

(** Everything moves on. *)
Definition moves_on (g : EVM) (m : machine) (g' : EVM) (m' : machine) : Prop := erel g g' /\ mrel m m' /\ static g m m'.

Lemma moves_refl g m : evm_ok g -> machine_ok m -> moves_on g m g m.
Proof. intros. split_and!; [by apply erel_refl|by apply mrel_refl|]. intros _ _. apply quiet_refl. Qed.

Lemma moves_on_trans g1 m1 g2 m2 g3 m3 : moves_on g1 m1 g2 m2 -> moves_on g2 m2 g3 m3 -> moves_on g1 m1 g3 m3.
Proof.
  intros (E1 & M1 & S1) (E2 & M2 & S2). split_and!; [by eapply erel_trans|by eapply mrel_trans|].
  intros Hp Hr. eapply quiet_trans; [by apply S1|]. apply S2; [done|]. by rewrite (er_readOnly _ _ E1).
Qed.

(** A read, and a change outside of a read-only call. *)
Lemma moves_event R (e : vm_ev R) g m r m' : evm_ok g -> machine_ok m -> ev_post R e m r m' -> ev_ok e m ->
  ev_reads e = true \/ evm_readOnly g = false -> moves_on g m g m'.
Proof.
  intros Hg Hm Hp He Hs. split_and!; [by apply erel_refl|by eapply ev_mrel|]. intros _ Hr.
  destruct Hs as [Hs|]; [|congruence]. apply (ev_reads_same _ _ _ _ _ Hs) in Hp as ->. apply quiet_refl.
Qed.

(** ** Contracts and frames *)

Definition value_ok (v : option Z) : Prop := exists x, v = Some x /\ 0 <= x.

Record contract_ok (c : Contract) (g : EVM) (m : machine) : Prop := {
  co_code : small (c_Code c);
  co_hash : c_Code c <> [] -> c_CodeHash c = Keccak256 (c_Code c);
  co_seen : c_Code c ∈ evm_codes g;
  co_input : small (c_Input c);
  co_gas : is_u64 (c_Gas c);
  co_value : value_ok (c_value c);
  co_self : bytes_ok (c_self c);
  co_caller : bytes_ok (c_CallerAddress c);
  co_parent a v : c_caller c = Some (a, v) -> bytes_ok a /\ value_ok v;
  co_map : (c_jumpdests c < length (evm_maps g))%nat;
  co_exists : c_Code c <> [] -> exists_at m (c_self c)
}.

Lemma contract_moves c g m g' m' : contract_ok c g m -> moves_on g m g' m' -> contract_ok c g' m'.
Proof.
  intros [] (E & M & _). constructor; auto.
  - by apply (er_codes _ _ E).
  - pose proof (er_maps _ _ E). lia.
  - intros Hc. by apply (mr_exists _ _ M), co_exists0.
Qed.

Lemma contract_with_gas c g m n : contract_ok c g m -> is_u64 n -> contract_ok (with_gas c n) g m.
Proof. intros [] Hn. by constructor. Qed.

(** The price of memory of [w] words. *)
Definition memory_fee (w : Z) : Z := 3 * w + w * w / 512.

(** The limit of the code, and the size up to which the price does not overflow. *)
Definition max_memory : Z := 0xffffffffe0.
Definition exact_memory : Z := 0x1fffffffe0.

Record mem_ok (mem : Memory) : Prop := {
  mk_bytes : bytes_ok (mem_store mem);
  mk_words : (32 | mem_Len mem);
  mk_max : mem_Len mem <= max_memory;
  mk_cost : is_u64 (mem_lastGasCost mem);
  mk_fee : mem_Len mem <= exact_memory -> mem_lastGasCost mem = memory_fee (mem_Len mem / 32)
}.

Record frame_ok (f : frame) (g : EVM) (m : machine) : Prop := {
  fo_pc : 0 <= f_pc f <= zlen (c_Code (f_contract f)) + 33;
  fo_stack : nonneg (f_stack f);
  fo_limit : zlen (f_stack f) <= StackLimit;
  fo_mem : mem_ok (f_mem f);
  fo_code : c_Code (f_contract f) <> [];
  fo_contract : contract_ok (f_contract f) g m
}.

Lemma mem_ok_new : mem_ok NewMemory.
Proof. constructor; try done. by exists 0. Qed.
End Frames.
