(* ===== verification/VmExec.v ===== *)
(** Every instruction that does not call runs without a panic on a frame with
    enough operands and memory, and keeps the invariants. *)
From S2P Require Import Prelude RlpEncode RlpDecode RlpRaw Storage IstanbulTypes ValidatorSet Trie StateDB StateSpec StateTheorems BigMath VmProg VmData VmCore VmInterp VmJump VmInv.

(** ** Byte strings and memory *)

Lemma slice_ok {E} b lo hi : 0 <= lo <= hi -> hi <= zlen b ->
  exists r, slice (E := E) b lo hi = Ok r /\ zlen r = hi - lo /\ (bytes_ok b -> bytes_ok r).
Proof.
  intros Hl Hh. unfold slice. rewrite (proj2 (Z.leb_le 0 lo)), (proj2 (Z.leb_le lo hi)), (proj2 (Z.leb_le hi (zlen b))) by lia. simpl.
  eexists. split; [done|]. split; [|intros; by apply Forall_take, Forall_drop].
  unfold zlen in *. rewrite length_take, length_drop. lia.
Qed.

Lemma copy_bytes_ok dst src : bytes_ok dst -> bytes_ok src -> bytes_ok (copy_bytes dst src) /\ zlen (copy_bytes dst src) = zlen dst.
Proof.
  intros Hd Hs. unfold copy_bytes. split; [by apply Forall_app; split; [apply Forall_take|apply Forall_drop]|].
  unfold zlen. rewrite length_app, length_take, length_drop. lia.
Qed.

Lemma zeros_ok n : bytes_ok (replicate n 0).
Proof. by apply Forall_replicate. Qed.

Lemma zlen_zeros n : 0 <= n -> zlen (replicate (Z.to_nat n) 0) = n.
Proof. intros. unfold zlen. rewrite length_replicate. lia. Qed.

Lemma RightPadBytes_ok b l : bytes_ok b -> bytes_ok (RightPadBytes b l).
Proof. intros Hb. unfold RightPadBytes. destruct (l <=? zlen b); [done|]. apply Forall_app; split; [done|apply zeros_ok]. Qed.

Lemma be_value_nonneg b : bytes_ok b -> 0 <= be_value b.
Proof. intros Hb. apply be_value_bound in Hb. lia. Qed.

Lemma getDataBig_ok data start size : small data -> 0 <= start -> 0 <= size -> exists d, getDataBig data start size = Ok d /\ bytes_ok d.
Proof.
  intros [Hb Hl] Hs Hn. unfold getDataBig, BigMin. pose proof (zlen_nonneg data).
  set (s := if start >? zlen data then zlen data else start). assert (0 <= s <= zlen data) by (subst s; rewrite Z.gtb_ltb; destruct (Z.ltb_spec (zlen data) start); lia).
  set (e := if s + size >? zlen data then zlen data else s + size).
  assert (s <= e <= zlen data) by (subst e; rewrite Z.gtb_ltb; destruct (Z.ltb_spec (zlen data) (s + size)); lia).
  rewrite !big_Uint64_id by (unfold is_u64; lia). destruct (slice_ok (E := vm_err) data s e) as (r & -> & _ & Hr); [lia..|].
  eexists. split; [done|]. auto using RightPadBytes_ok.
Qed.

Section Memory.
Context (mem : Memory) (Hmem : mem_ok mem).

Lemma mem_len_bound : 0 <= mem_Len mem < 2 ^ 62.
Proof. split; [apply zlen_nonneg|]. eapply Z.le_lt_trans; [apply Hmem|done]. Qed.

(** A region that the memory covers is read and written in bounds. *)
Lemma mem_region off size : 0 <= off -> 0 <= size -> calcMemSize off size <= mem_Len mem -> size = 0 \/ 0 < size /\ off + size <= mem_Len mem.
Proof. unfold calcMemSize. destruct (Z.eqb_spec size 0); [auto|]. right. lia. Qed.

Lemma mem_Get_ok off size : 0 <= off -> 0 <= size -> calcMemSize off size <= mem_Len mem ->
  exists b, mem_Get mem (big_Int64 off) (big_Int64 size) = Ok b /\ small b.
Proof.
  intros Ho Hs Hc. pose proof mem_len_bound as B. assert (2 ^ 62 < 2 ^ 63) by done. unfold mem_Get.
  destruct (mem_region off size Ho Hs Hc) as [->|[H0 H1]]; [exists []; by split; [|apply small_nil]|].
  rewrite !big_Int64_id by lia. rewrite (proj2 (Z.eqb_neq size 0)), (proj2 (Z.gtb_lt _ off)), (proj2 (Z.ltb_ge size 0)) by lia.
  rewrite i64_id by lia. destruct (slice_ok (E := vm_err) (mem_store mem) off (off + size)) as (r & -> & Hl & Hr); [lia|apply H1|].
  simpl. eexists. split; [done|]. destruct (copy_bytes_ok (replicate (Z.to_nat size) 0) r) as [K1 K2]; [apply zeros_ok|apply Hr, Hmem|].
  split; [done|]. rewrite K2, zlen_zeros by lia. lia.
Qed.

Lemma mem_GetPtr_ok off size : 0 <= off -> 0 <= size -> calcMemSize off size <= mem_Len mem ->
  exists b, mem_GetPtr mem (big_Int64 off) (big_Int64 size) = Ok b /\ small b.
Proof.
  intros Ho Hs Hc. pose proof mem_len_bound as B. assert (2 ^ 62 < 2 ^ 63) by done. unfold mem_GetPtr.
  destruct (mem_region off size Ho Hs Hc) as [->|[H0 H1]]; [exists []; by split; [|apply small_nil]|].
  rewrite !big_Int64_id by lia. rewrite (proj2 (Z.eqb_neq size 0)), (proj2 (Z.gtb_lt _ off)) by lia.
  rewrite i64_id by lia. destruct (slice_ok (E := vm_err) (mem_store mem) off (off + size)) as (r & -> & Hl & Hr); [lia|apply H1|].
  eexists. split; [done|]. split; [apply Hr, Hmem|lia].
Qed.

Lemma mem_ok_store store : bytes_ok store -> zlen store = mem_Len mem -> mem_ok (mkMemory store (mem_lastGasCost mem)).
Proof. intros Hb Hl. destruct Hmem. unfold mem_Len in *. constructor; unfold mem_Len; simpl; rewrite ?Hl; done. Qed.

Lemma mem_Set_ok off size value : 0 <= off -> 0 <= size -> calcMemSize off size <= mem_Len mem -> bytes_ok value ->
  exists mem', mem_Set mem (big_Uint64 off) (big_Uint64 size) value = Ok mem' /\ mem_ok mem'.
Proof.
  intros Ho Hs Hc Hv. pose proof mem_len_bound as B. assert (2 ^ 62 < 2 ^ 64) by done. unfold mem_Set.
  destruct (mem_region off size Ho Hs Hc) as [->|[H0 H1]].
  { rewrite big_Uint64_id by done. destruct (Z.gtb_spec 0 (mem_Len mem)); [lia|]. by exists mem. }
  rewrite !big_Uint64_id by (unfold is_u64; lia). destruct (Z.gtb_spec size (mem_Len mem)); [lia|]. destruct (Z.gtb_spec size 0); [|lia].
  rewrite u64_id by (unfold is_u64; lia).
  destruct (slice_ok (E := vm_err) (mem_store mem) off (off + size)) as (r & -> & Hl & Hr); [lia|apply H1|]. simpl.
  eexists. split; [done|]. destruct (copy_bytes_ok r value) as [K1 K2]; [apply Hr, Hmem|done|]. apply mem_ok_store.
  - apply Forall_app; split; [apply Forall_take, Hmem|]. apply Forall_app; split; [done|apply Forall_drop, Hmem].
  - rewrite !zlen_app, K2, Hl. unfold mem_Len, zlen in *. rewrite length_take, length_drop. lia.
Qed.
End Memory.

(** Memory of whole words is never below what it is asked for. *)
Lemma calcMemSize_nonneg off l : 0 <= off -> 0 <= l -> 0 <= calcMemSize off l.
Proof. unfold calcMemSize. intros. destruct (l =? 0); lia. Qed.

Lemma big_Bytes_ok n : bytes_ok (be_bytes n).
Proof. apply be_pad_ok. Qed.

Lemma BytesToHash_ok b : bytes_ok b -> is_hash (BytesToHash b).
Proof.
  intros Hb. unfold BytesToHash. change HashLength with 32.
  set (b' := if zlen b >? 32 then _ else b). assert (bytes_ok b' /\ zlen b' <= 32) as [H1 H2].
  { subst b'. destruct (Z.gtb_spec (zlen b) 32); [|done]. split; [by apply Forall_drop|]. unfold zlen in *. rewrite length_drop. lia. }
  split; [apply Forall_app; split; [apply zeros_ok|done]|]. rewrite zlen_app, zlen_zeros by lia. change HashLength with 32. lia.
Qed.

Lemma BigToHash_ok n : is_hash (BigToHash n).
Proof. apply BytesToHash_ok, big_Bytes_ok. Qed.

Lemma BytesToAddress_bytes b : bytes_ok b -> bytes_ok (BytesToAddress b).
Proof.
  intros Hb. unfold BytesToAddress. apply Forall_app; split; [apply zeros_ok|]. destruct (zlen b >? 20); [by apply Forall_drop|done].
Qed.

Lemma BigToAddress_bytes n : bytes_ok (BigToAddress n).
Proof. apply BytesToAddress_bytes, big_Bytes_ok. Qed.

(** ** Specification of an instruction *)

Section Exec.
Context `{HPL : PrecompileLaws} (ctx : BlockContext) (cfg : Config).

Abbreviation WP p Q m := (wp ev_pre ev_post p Q m).

Definition exec_post (pops pushes : nat) (jumps : bool) (f : frame) (g : EVM) (m : machine) (r : bytes * option vm_err * frame * EVM) (m' : machine) : Prop :=
  let '(ret, err, f', g') := r in
  small ret /\ moves_on g m g' m' /\ f_contract f' = f_contract f /\ mem_ok (f_mem f') /\ nonneg (f_stack f') /\
  (err = None -> (length (f_stack f') + pops = length (f_stack f) + pushes)%nat) /\
  (err = None -> 0 <= f_pc f' <= (if jumps then zlen (c_Code (f_contract f)) else f_pc f + 32)).

(** [need] is the memory it uses; [write] tells that it may change the state. *)
Definition exec_ok (ex : executionFunc) (pops pushes : nat) (need : list Z -> Z) (jumps write : bool) : Prop :=
  forall f g m, frame_ok f g m -> evm_ok g -> machine_ok m -> f_pc f < zlen (c_Code (f_contract f)) ->
  (pops <= length (f_stack f))%nat -> need (f_stack f) <= mem_Len (f_mem f) -> (write = true -> evm_readOnly g = false) ->
  WP (ex f g) (exec_post pops pushes jumps f g m) m.

Definition no_memory (_ : list Z) : Z := 0.

(** The memory for [len] bytes at [off], both on the stack. *)
Definition need_at (off len : nat) (st : list Z) : Z := calcMemSize (default 0 (st !! off)) (default 0 (st !! len)).
Definition need_const (n : Z) (st : list Z) : Z := calcMemSize (default 0 (st !! O)) n.

(** What is left to show at the end of a run, and when it did not touch machine and state. *)
Lemma post_moved pops pushes (jumps : bool) (f : frame) (g g' : EVM) (m m' : machine) (ret : bytes) (err : option vm_err) (f' : frame) :
  moves_on g m g' m' -> small ret -> f_contract f' = f_contract f -> mem_ok (f_mem f') ->
  nonneg (f_stack f') -> (err = None -> (length (f_stack f') + pops = length (f_stack f) + pushes)%nat) ->
  (err = None -> 0 <= f_pc f' <= (if jumps then zlen (c_Code (f_contract f)) else f_pc f + 32)) -> exec_post pops pushes jumps f g m (ret, err, f', g') m'.
Proof. intros. unfold exec_post. split_and!; auto. Qed.

Lemma post_same pops pushes (jumps : bool) (f : frame) (g : EVM) (m : machine) (ret : bytes) (err : option vm_err) (f' : frame) :
  evm_ok g -> machine_ok m -> small ret -> f_contract f' = f_contract f -> mem_ok (f_mem f') ->
  nonneg (f_stack f') -> (err = None -> (length (f_stack f') + pops = length (f_stack f) + pushes)%nat) ->
  (err = None -> 0 <= f_pc f' <= (if jumps then zlen (c_Code (f_contract f)) else f_pc f + 32)) -> exec_post pops pushes jumps f g m (ret, err, f', g) m.
Proof. intros. apply post_moved; auto using moves_refl. Qed.
End Exec.

(** Symbolic execution: open the frame, give the operands names, run. *)
Ltac open_frame :=
  intros f g m Hf Hg Hm Hpc Hlen Hneed Hwrite; destruct f as [pc st mem c], Hf as [Fpc Fst Flim Fmem Fcode Fc]; cbn [f_pc f_stack f_mem f_contract] in *;
  repeat match goal with
  | H : (S _ <= length ?st)%nat |- _ => destruct st as [|? ?]; [simpl in H; lia|]; apply Forall_cons in Fst as [? Fst]; simpl in H; apply le_S_n in H
  end.

Ltac run_vm :=
  cbn [binop ibind iret ipanic ievent get_frame get_evm put_frame put_evm ilift nothing pop push Back contract memory_Get memory_GetPtr memory_Set
       pbind call f_pc f_stack f_mem f_contract set_pc set_stack set_mem set_contract wp].

Ltac norm_frame := unfold set_pc, set_stack, set_mem, set_contract; cbn [f_pc f_stack f_mem f_contract].

Ltac finish_goals := cbn [f_pc f_stack f_mem f_contract set_pc set_stack set_mem set_contract]; auto using small_nil;
  try (apply Forall_cons; split; auto); try match goal with |- _ = None -> _ => intros _ end; try (simpl in *; lia).
Ltac finish_vm := apply post_same; finish_goals.
Ltac finish_moved := apply post_moved; finish_goals.

Section Instr.
Context `{HPL : PrecompileLaws} (ctx : BlockContext) (cfg : Config).


Lemma binop_ok h : (forall x y, 0 <= x -> 0 <= y -> 0 <= h x y) -> exec_ok (binop h) 2 1 no_memory false false.
Proof. intros Hh. open_frame. run_vm. finish_vm. Qed.

Lemma U256_nonneg x : 0 <= U256 x.
Proof. apply U256_word. Qed.

Lemma bool_nonneg b : 0 <= bool_word b.
Proof. by destruct b. Qed.

#[local] Hint Resolve U256_nonneg bool_nonneg : core.

Lemma opAdd_ok : exec_ok opAdd 2 1 no_memory false false.
Proof. apply binop_ok. auto. Qed.
Lemma opSub_ok : exec_ok opSub 2 1 no_memory false false.
Proof. apply binop_ok. auto. Qed.
Lemma opMul_ok : exec_ok opMul 2 1 no_memory false false.
Proof. apply binop_ok. auto. Qed.
Lemma opDiv_ok : exec_ok opDiv 2 1 no_memory false false.
Proof. apply binop_ok. intros x y ? ?. cbv beta zeta. destruct (negb (y =? 0)); auto. lia. Qed.
Lemma opSdiv_ok : exec_ok opSdiv 2 1 no_memory false false.
Proof. apply binop_ok. intros x y ? ?. cbv beta zeta. destruct (S256 y =? 0); auto. lia. Qed.
Lemma opMod_ok : exec_ok opMod 2 1 no_memory false false.
Proof. apply binop_ok. intros x y ? ?. cbv beta zeta. destruct (y =? 0); auto. lia. Qed.
Lemma opSmod_ok : exec_ok opSmod 2 1 no_memory false false.
Proof. apply binop_ok. intros x y ? ?. cbv beta zeta. destruct (S256 y =? 0); auto. lia. Qed.
Lemma opExp_ok : exec_ok opExp 2 1 no_memory false false.
Proof. apply binop_ok. intros x y ? ?. rewrite Exp_ok by done. apply Z.mod_pos_bound. lia. Qed.
Lemma opLt_ok : exec_ok opLt 2 1 no_memory false false.
Proof. apply binop_ok. auto. Qed.
Lemma opGt_ok : exec_ok opGt 2 1 no_memory false false.
Proof. apply binop_ok. auto. Qed.
Lemma opSlt_ok : exec_ok opSlt 2 1 no_memory false false.
Proof. apply binop_ok. auto. Qed.
Lemma opSgt_ok : exec_ok opSgt 2 1 no_memory false false.
Proof. apply binop_ok. auto. Qed.
Lemma opEq_ok : exec_ok opEq 2 1 no_memory false false.
Proof. apply binop_ok. auto. Qed.
Lemma opAnd_ok : exec_ok opAnd 2 1 no_memory false false.
Proof. apply binop_ok. intros x y ? ?. apply Z.land_nonneg. auto. Qed.
Lemma opOr_ok : exec_ok opOr 2 1 no_memory false false.
Proof. apply binop_ok. intros x y ? ?. apply Z.lor_nonneg. auto. Qed.
Lemma opXor_ok : exec_ok opXor 2 1 no_memory false false.
Proof. apply binop_ok. intros x y ? ?. apply Z.lxor_nonneg. tauto. Qed.
Lemma opByte_ok : exec_ok opByte 2 1 no_memory false false.
Proof.
  apply binop_ok. intros x y ? ?. destruct (x <? 32); [|done]. unfold Byte. destruct (big_Int64 x >=? 32); [done|].
  unfold bigEndianByteAt. destruct (big_Bits y !! _); [apply u8_byte|done].
Qed.

Lemma opSignExtend_ok : exec_ok opSignExtend 2 1 no_memory false false.
Proof. open_frame. unfold opSignExtend. run_vm. destruct (_ <? 31); run_vm; finish_vm. Qed.

Lemma opNot_ok : exec_ok opNot 1 1 no_memory false false.
Proof. open_frame. unfold opNot. run_vm. finish_vm. Qed.
Lemma opIszero_ok : exec_ok opIszero 1 1 no_memory false false.
Proof. open_frame. unfold opIszero. run_vm. finish_vm. Qed.
Lemma opAddmod_ok : exec_ok opAddmod 3 1 no_memory false false.
Proof. open_frame. unfold opAddmod. run_vm. finish_vm. by destruct (_ >? 0). Qed.
Lemma opMulmod_ok : exec_ok opMulmod 3 1 no_memory false false.
Proof. open_frame. unfold opMulmod. run_vm. finish_vm. by destruct (_ >? 0). Qed.

(** ** Environment *)

Record ctx_ok : Prop := {
  cx_origin : bytes_ok (Origin ctx);
  cx_gasprice : 0 <= GasPrice ctx;
  cx_coinbase : bytes_ok (Coinbase ctx)
}.
Context (Hctx : ctx_ok).

#[local] Hint Resolve be_value_nonneg cx_origin cx_gasprice cx_coinbase zlen_nonneg : core.

Lemma keccak_bytes b : bytes_ok (Keccak256 b).
Proof. apply Keccak256_ok. Qed.
#[local] Hint Resolve keccak_bytes : core.

(** An event in front: its answer. *)
Ltac event H := split; [exact I|]; intros ? ? H; run_vm.

Lemma opSha3_ok : exec_ok (opSha3 cfg) 2 1 (need_at 0 1) false false.
Proof.
  open_frame. unfold opSha3. run_vm. destruct (mem_Get_ok mem Fmem z z0) as (b & -> & _); [done..|]. run_vm.
  destruct (EnablePreimageRecording cfg); run_vm; [|finish_vm]. event He.
  finish_moved. split_and!; [by apply erel_refl|exact (ev_mrel _ _ m _ _ Hm He I)|]. intros _ _.
  destruct He as (res & [= <- <-] & _). simpl. destruct (w_preimages _ !! _); [apply quiet_world|]; done.
Qed.

Lemma opAddress_ok : exec_ok opAddress 0 1 no_memory false false.
Proof. open_frame. unfold opAddress. run_vm. finish_vm. apply be_value_nonneg, Fc. Qed.

Lemma opBalance_ok : exec_ok opBalance 1 1 no_memory false false.
Proof. open_frame. unfold opBalance. run_vm. event He. apply post_GetBalance in He as (-> & ? & _); [|done]. finish_vm. Qed.

Lemma opOrigin_ok : exec_ok (opOrigin ctx) 0 1 no_memory false false.
Proof. open_frame. unfold opOrigin. run_vm. finish_vm. Qed.

Lemma opCaller_ok : exec_ok opCaller 0 1 no_memory false false.
Proof. open_frame. unfold opCaller. run_vm. finish_vm. apply be_value_nonneg, Fc. Qed.

Lemma opCallValue_ok : exec_ok opCallValue 0 1 no_memory false false.
Proof. open_frame. unfold opCallValue. run_vm. destruct (co_value _ _ _ Fc) as (v & -> & Hv). run_vm. finish_vm. Qed.

Lemma opCallDataLoad_ok : exec_ok opCallDataLoad 1 1 no_memory false false.
Proof.
  open_frame. unfold opCallDataLoad. run_vm. destruct (getDataBig_ok (c_Input c) z 32) as (d & -> & Hd); [apply Fc|done..|]. run_vm. finish_vm.
Qed.

Lemma opCallDataSize_ok : exec_ok opCallDataSize 0 1 no_memory false false.
Proof. open_frame. unfold opCallDataSize. run_vm. finish_vm. Qed.

(** Copying to memory. *)
Lemma memory_Set_post pops f g m off size value : nonneg (f_stack f) -> mem_ok (f_mem f) -> evm_ok g -> machine_ok m -> 0 <= off -> 0 <= size ->
  calcMemSize off size <= mem_Len (f_mem f) -> bytes_ok value -> 0 <= f_pc f -> forall f0, f_contract f0 = f_contract f -> f_pc f0 = f_pc f ->
  (length (f_stack f) + pops = length (f_stack f0))%nat ->
  wp ev_pre ev_post ((let~! memory_Set (big_Uint64 off) (big_Uint64 size) value in nothing) f g) (exec_post pops 0 false f0 g m) m.
Proof.
  intros Hs Hmem Hg Hm Ho Hn Hc Hv Hp f0 E1 E2 E3. destruct f as [pc st mem c]. simpl in *. run_vm.
  destruct (mem_Set_ok mem Hmem off size value) as (mem' & -> & Hmem'); [done..|]. run_vm. apply post_same; simpl; auto using small_nil; intros _; lia.
Qed.

Ltac by_memory_Set := apply memory_Set_post; simpl in *; try done; try lia.

Lemma opCallDataCopy_ok : exec_ok opCallDataCopy 3 0 (need_at 0 2) false false.
Proof.
  open_frame. unfold opCallDataCopy. run_vm. destruct (getDataBig_ok (c_Input c) z0 z1) as (d & -> & Hd); [apply Fc|done..|]. by_memory_Set.
Qed.

Lemma opReturnDataSize_ok : exec_ok opReturnDataSize 0 1 no_memory false false.
Proof. open_frame. unfold opReturnDataSize. run_vm. finish_vm. Qed.

Lemma opReturnDataCopy_ok : exec_ok opReturnDataCopy 3 0 (need_at 0 2) false false.
Proof.
  open_frame. unfold opReturnDataCopy. run_vm. destruct ((big_BitLen (z0 + z1) >? 64) || _) eqn:E; run_vm.
  - apply post_same; simpl; auto using small_nil; done.
  - apply orb_false_iff in E as [E1 E2]. rewrite Z.gtb_ltb in E1. zbool. apply big_BitLen_bound in E1 as B; [|done].
    rewrite Z.abs_eq in B by lia. rewrite big_Uint64_id in E2 by (unfold is_u64; lia). rewrite !(big_Uint64_id z0), (big_Uint64_id (z0 + z1)) by (unfold is_u64; lia).
    destruct (slice_ok (E := vm_err) (evm_returnData g) z0 (z0 + z1)) as (r & -> & _ & Hr); [lia..|]. by_memory_Set. apply Hr, Hg.
Qed.

Lemma opExtCodeSize_ok : exec_ok opExtCodeSize 1 1 no_memory false false.
Proof. open_frame. unfold opExtCodeSize. run_vm. event He. destruct He as [-> Hr]. finish_vm. Qed.

Lemma opCodeSize_ok : exec_ok opCodeSize 0 1 no_memory false false.
Proof. open_frame. unfold opCodeSize. run_vm. finish_vm. Qed.

Lemma opCodeCopy_ok : exec_ok opCodeCopy 3 0 (need_at 0 2) false false.
Proof.
  open_frame. unfold opCodeCopy. run_vm. destruct (getDataBig_ok (c_Code c) z0 z1) as (d & -> & Hd); [apply Fc|done..|]. by_memory_Set.
Qed.

Lemma opExtCodeCopy_ok : exec_ok opExtCodeCopy 4 0 (need_at 1 3) false false.
Proof.
  open_frame. unfold opExtCodeCopy. run_vm. event He. apply post_GetCode in He as (-> & Hs & _); [|done].
  destruct (getDataBig_ok r z1 z2) as (d & -> & Hd); [done..|]. by_memory_Set.
Qed.

Lemma opGasprice_ok : exec_ok (opGasprice ctx) 0 1 no_memory false false.
Proof. open_frame. unfold opGasprice. run_vm. finish_vm. Qed.

Lemma opBlockhash_ok : exec_ok (opBlockhash ctx) 1 1 no_memory false false.
Proof.
  open_frame. unfold opBlockhash. run_vm. destruct (_ && _); run_vm; [|finish_vm]. event He. destruct He as [-> Hr]. finish_vm. apply be_value_nonneg, Hr.
Qed.

Lemma opCoinbase_ok : exec_ok (opCoinbase ctx) 0 1 no_memory false false.
Proof. open_frame. unfold opCoinbase. run_vm. finish_vm. Qed.
Lemma opTimestamp_ok : exec_ok (opTimestamp ctx) 0 1 no_memory false false.
Proof. open_frame. unfold opTimestamp. run_vm. finish_vm. Qed.
Lemma opNumber_ok : exec_ok (opNumber ctx) 0 1 no_memory false false.
Proof. open_frame. unfold opNumber. run_vm. finish_vm. Qed.
Lemma opDifficulty_ok : exec_ok (opDifficulty ctx) 0 1 no_memory false false.
Proof. open_frame. unfold opDifficulty. run_vm. finish_vm. Qed.
Lemma opGasLimit_ok : exec_ok (opGasLimit ctx) 0 1 no_memory false false.
Proof. open_frame. unfold opGasLimit. run_vm. finish_vm. Qed.

(** ** Stack, memory and storage *)

Lemma opPop_ok : exec_ok opPop 1 0 no_memory false false.
Proof. open_frame. unfold opPop. run_vm. finish_vm. Qed.

Lemma opMload_ok : exec_ok opMload 1 1 (need_const 32) false false.
Proof.
  open_frame. unfold opMload. run_vm. destruct (mem_Get_ok mem Fmem z 32) as (b & E & Hb & _); [done..|].
  change (big_Int64 32) with 32 in E. rewrite E. run_vm. finish_vm.
Qed.

Lemma PaddedBigBytes_bytes x n : 0 <= x -> bytes_ok (PaddedBigBytes x n).
Proof.
  intros Hx. unfold PaddedBigBytes. destruct (_ >=? n); [apply big_Bytes_ok|]. unfold ReadBits.
  rewrite <- (app_nil_r (replicate _ _)) at 2. rewrite length_replicate, read_words_ok by apply words_of_range. rewrite app_nil_r. apply be_pad_ok.
Qed.

Lemma opMstore_ok : exec_ok opMstore 2 0 (need_const 32) false false.
Proof.
  open_frame. unfold opMstore. run_vm. destruct (mem_Set_ok mem Fmem z 32 (PaddedBigBytes z0 32)) as (mem' & E & Hmem'); [done..|by apply PaddedBigBytes_bytes|].
  change (big_Uint64 32) with 32 in E. rewrite E. run_vm. finish_vm.
Qed.

Lemma opMstore8_ok : exec_ok opMstore8 2 0 (need_const 1) false false.
Proof.
  open_frame. unfold opMstore8. run_vm. unfold need_const, calcMemSize in Hneed. simpl in Hneed. pose proof (mem_len_bound mem Fmem).
  rewrite (big_Int64_id z) by lia. rewrite (proj2 (Z.leb_le 0 z)), (proj2 (Z.ltb_lt z (mem_Len mem))) by lia. cbn [andb]. run_vm. finish_vm.
  apply mem_ok_store; [done|apply Forall_insert; [apply Fmem|apply u8_byte]|]. unfold mem_Len, zlen. by rewrite length_insert.
Qed.

Lemma opSload_ok : exec_ok opSload 1 1 no_memory false false.
Proof. open_frame. unfold opSload. run_vm. event He. apply post_GetState in He as (-> & Hr); [|done]. finish_vm. apply be_value_nonneg, Hr. Qed.

Lemma opSstore_ok : exec_ok opSstore 2 0 no_memory false true.
Proof.
  open_frame. unfold opSstore. run_vm. event He. finish_moved. eapply moves_event; eauto. apply BigToHash_ok.
Qed.

Lemma opSuicide_ok : exec_ok opSuicide 1 0 no_memory false true.
Proof.
  open_frame. unfold opSuicide. run_vm. event He. apply post_GetBalance in He as (-> & Hb & _); [|done]. event H1. event H2.
  pose proof (moves_event _ _ g m _ _ Hg Hm H1 I (or_intror (Hwrite eq_refl))) as M1.
  finish_moved. eapply moves_on_trans; [exact M1|]. destruct M1 as (_ & [Hm' _ _ _] & _).
  exact (moves_event _ _ g m' _ _ Hg Hm' H2 I (or_intror (Hwrite eq_refl))).
Qed.

(** ** Flow *)

(** The cache answers for the running code, or two codes collide. *)
Lemma dest_has_safe (c : Contract) g m d dest : contract_ok c g m -> c_Code c <> [] -> evm_ok g -> d ∈ evm_maps g -> 0 <= dest ->
  match dest_has d (c_CodeHash c) (c_Code c) dest with
  | Ok (b, d') => (b = true -> dest < zlen (c_Code c)) /\ (d' = d \/ d' = <[c_CodeHash c := jumpdests (c_Code c)]> d)
  | _ => accident (evm_codes g)
  end.
Proof.
  intros Hc Hne Hg Hd Hp. assert (cached_ok d (c_CodeHash c) (c_Code c) \/ accident (evm_codes g)) as [Hok|K].
  { destruct (d !! c_CodeHash c) as [a|] eqn:Ea; [|left; intros a'; congruence].
    destruct (eo_maps g Hg d _ a Hd Ea) as (code & H1 & H2 & H3).
    destruct (decide (code = c_Code c)) as [->|Hn]; [left; intros a'; congruence|].
    right. left. exists code, (c_Code c). split_and!; [done|apply Hc|done|]. rewrite H2. by apply Hc. }
  - destruct (dest_has_ok d (c_CodeHash c) (c_Code c) dest Hok Hp) as (b & d' & -> & _ & H1 & H2); [apply Hc|]. auto.
  - unfold dest_has. destruct ((_ >=? _) || _) eqn:E; [split; [done|auto]|]. apply orb_false_iff in E as [E1 E2]. zbool.
    assert (dest < 2 ^ 63) as B by (rewrite <- (Z.abs_eq dest) by done; apply big_BitLen_bound; lia).
    rewrite big_Uint64_id in E2 by (split; [done|]; by eapply Z.lt_trans).
    destruct (d !! c_CodeHash c); simpl; by destruct (_ !! Z.to_nat _); auto.
Qed.

Lemma has_dest_wp pos f g m : frame_ok f g m -> evm_ok g -> machine_ok m -> 0 <= pos ->
  wp ev_pre ev_post (has_dest pos f g) (fun '(b, f', g') m' => f' = f /\ m' = m /\ moves_on g m g' m /\ (b = true -> pos < zlen (c_Code (f_contract f)))) m.
Proof.
  intros Hf Hg Hm Hp. unfold has_dest. destruct f as [pc st mem c], Hf as [_ _ _ _ Hne Hc]. cbn [f_contract] in *. run_vm.
  assert (is_Some (evm_maps g !! c_jumpdests c)) as [d Hd] by (apply lookup_lt_is_Some_2, Hc). rewrite Hd.
  pose proof (dest_has_safe c g m d pos Hc Hne Hg (list_elem_of_lookup_2 _ _ _ Hd) Hp) as K.
  destruct (dest_has d (c_CodeHash c) (c_Code c) pos) as [[b d']|e|]; run_vm; [|done..]. destruct K as [K1 K2]. split_and!; auto.
  split_and!; [|by apply mrel_refl|intros _ _; apply quiet_refl]. constructor; simpl; auto; [|by rewrite length_insert].
  constructor; simpl; [|apply Hg]. intros d0 h b0 H1 H2. apply list_elem_of_lookup in H1 as (i & Hi). apply list_lookup_insert_Some in Hi as [(<- & <- & _)|[_ Hi]].
  - destruct K2 as [->| ->]; [eapply (eo_maps g Hg d); [by eapply list_elem_of_lookup_2|done]|].
    apply lookup_insert_Some in H2 as [[<- <-]|[_ H2]]; [|eapply (eo_maps g Hg d); [by eapply list_elem_of_lookup_2|done]].
    exists (c_Code c). split_and!; [apply Hc| |done]. symmetry. by apply Hc.
  - eapply (eo_maps g Hg d0); [by eapply list_elem_of_lookup_2|done].
Qed.

Lemma jump_to_wp pos pops f0 f g m : frame_ok f g m -> evm_ok g -> machine_ok m -> 0 <= pos -> f_contract f = f_contract f0 ->
  (length (f_stack f) + pops = length (f_stack f0))%nat ->
  wp ev_pre ev_post (jump_to pos f g) (exec_post pops 0 true f0 g m) m.
Proof.
  intros Hf Hg Hm Hp Ec El. unfold jump_to, ibind. eapply wp_seq; [by apply has_dest_wp|]. intros [[b f'] g'] m' (-> & -> & M & Hb).
  destruct Hf as [_ Fst _ Fmem _ Fc]. destruct b; run_vm.
  - specialize (Hb eq_refl). assert (zlen (c_Code (f_contract f)) < 2 ^ 62) by apply Fc. rewrite big_Uint64_id by (unfold is_u64; lia).
    apply post_moved; simpl; auto using small_nil; [lia|]. rewrite <- Ec. lia.
  - apply post_moved; simpl; auto using small_nil; done.
Qed.

Lemma opJump_ok : exec_ok opJump 1 0 no_memory true false.
Proof.
  open_frame. unfold opJump. run_vm. apply jump_to_wp; simpl; auto; [|lia]. constructor; simpl in *; auto. rewrite zlen_cons in Flim. lia.
Qed.

Lemma opJumpi_ok : exec_ok opJumpi 2 0 no_memory true false.
Proof.
  open_frame. unfold opJumpi. run_vm. destruct (negb (z0 =? 0)); run_vm.
  - apply jump_to_wp; simpl; auto; [|lia]. constructor; simpl in *; auto. rewrite !zlen_cons in Flim. lia.
  - assert (zlen (c_Code c) < 2 ^ 62) by apply Fc. finish_vm. rewrite u64_id by (unfold is_u64; lia). lia.
Qed.

Lemma opJumpdest_ok : exec_ok opJumpdest 0 0 no_memory false false.
Proof. open_frame. unfold opJumpdest. run_vm. finish_vm. Qed.
Lemma opPc_ok : exec_ok opPc 0 1 no_memory false false.
Proof. open_frame. unfold opPc. run_vm. finish_vm. Qed.
Lemma opMsize_ok : exec_ok opMsize 0 1 no_memory false false.
Proof. open_frame. unfold opMsize. run_vm. finish_vm. Qed.
Lemma opGas_ok : exec_ok opGas 0 1 no_memory false false.
Proof. open_frame. unfold opGas. run_vm. finish_vm. apply Fc. Qed.

Lemma opReturn_ok : exec_ok opReturn 2 0 (need_at 0 1) false false.
Proof. open_frame. unfold opReturn. run_vm. destruct (mem_GetPtr_ok mem Fmem z z0) as (b & -> & Hb); [done..|]. run_vm. finish_vm. Qed.
Lemma opRevert_ok : exec_ok opRevert 2 0 (need_at 0 1) false false.
Proof. open_frame. unfold opRevert. run_vm. destruct (mem_GetPtr_ok mem Fmem z z0) as (b & -> & Hb); [done..|]. run_vm. finish_vm. Qed.

(** ** Families *)

Lemma pop_topics_ok n : forall pc st mem c g, (n <= length st)%nat -> exists topics, pop_topics n (mkFrame pc st mem c) g = Return (topics, mkFrame pc (drop n st) mem c, g).
Proof.
  induction n as [|n IH]; intros pc st mem c g Hl; [by exists []|]. destruct st as [|x st]; [simpl in Hl; lia|]. simpl in Hl.
  destruct (IH pc st mem c g) as (topics & E); [lia|]. exists (BigToHash x :: topics). cbn [pop_topics]. run_vm. norm_frame. unfold ibind at 1. by rewrite E.
Qed.

Lemma makeLog_ok n : exec_ok (makeLog ctx n) (n + 2) 0 (need_at 0 1) false true.
Proof.
  replace (n + 2)%nat with (S (S n)) by lia. open_frame. unfold makeLog. run_vm. destruct (pop_topics_ok n pc st mem c g Hlen) as (topics & E).
  norm_frame. unfold ibind at 1. rewrite E. run_vm. destruct (mem_Get_ok mem Fmem z z0) as (b & -> & _); [done..|]. run_vm. event He.
  finish_moved; [|by apply Forall_drop|simpl; rewrite length_drop; lia]. exact (moves_event _ _ g m _ _ Hg Hm He I (or_intror (Hwrite eq_refl))).
Qed.

Lemma makePush_ok n : 0 <= n <= 32 -> exec_ok (makePush n n) 0 1 no_memory false false.
Proof.
  intros Hn. open_frame. unfold makePush. run_vm. assert (zlen (c_Code c) < 2 ^ 62) by apply Fc. assert (2 ^ 62 < 2 ^ 63) by done.
  rewrite i64_id by lia. set (lo := if _ <? _ then _ else _). set (hi := if lo + n <? zlen (c_Code c) then _ else _).
  assert (0 <= lo <= hi /\ hi <= zlen (c_Code c)) as [L1 L2].
  { subst lo hi. repeat match goal with |- context [?a <? ?b] => destruct (Z.ltb_spec a b) end; lia. }
  destruct (slice_ok (E := vm_err) (c_Code c) lo hi L1 L2) as (r & -> & _ & Hr). run_vm. finish_vm.
  - apply be_value_nonneg, RightPadBytes_ok, Hr, Fc.
  - rewrite u64_id by (unfold is_u64; lia). lia.
Qed.

Lemma makeDup_ok n : (1 <= n)%nat -> exec_ok (makeDup n) n (n + 1) no_memory false false.
Proof.
  intros Hn f g m Hf Hg Hm Hpc Hlen Hneed Hwrite. destruct f as [pc st mem c], Hf as [Fpc Fst Flim Fmem Fcode Fc]. cbn [f_pc f_stack f_mem f_contract] in *.
  unfold makeDup, stack_dup. run_vm. destruct (lookup_lt_is_Some_2 st (n - 1)) as [x Hx]; [lia|]. rewrite Hx. run_vm. finish_vm.
  rewrite Forall_lookup in Fst. by eapply Fst.
Qed.

Lemma makeSwap_ok n : exec_ok (makeSwap n) (n + 1) (n + 1) no_memory false false.
Proof.
  intros f g m Hf Hg Hm Hpc Hlen Hneed Hwrite. destruct f as [pc st mem c], Hf as [Fpc Fst Flim Fmem Fcode Fc]. cbn [f_pc f_stack f_mem f_contract] in *.
  unfold makeSwap, stack_swap. run_vm. destruct (lookup_lt_is_Some_2 st 0) as [x Hx]; [lia|].
  destruct (lookup_lt_is_Some_2 st (n + 1 - 1)) as [y Hy]; [lia|]. rewrite Hx, Hy. run_vm. rewrite Forall_lookup in Fst.
  finish_vm; [|simpl; rewrite !length_insert; lia]. repeat apply Forall_insert; [by apply Forall_lookup|by eapply Fst..].
Qed.
End Instr.
