(* ===== verification/VmStep.v ===== *)
(** The costs of instructions, and one iteration of the interpreter for an
    instruction that does not call. *)
From S2P Require Import Prelude RlpEncode RlpDecode RlpRaw Storage IstanbulTypes ValidatorSet Trie StateDB StateSpec StateTheorems BigMath VmProg VmData VmCore VmInterp VmJump VmInv VmExec.

(** ** Sizes and prices of memory *)

Lemma toWordSize_ok n : is_u64 n -> 0 <= toWordSize n <= 2 ^ 59 /\ n <= 32 * toWordSize n < n + 32.
Proof.
  unfold is_u64, toWordSize, MaxUint64. intros Hn. change ((2 ^ 64 - 1) / 32 + 1) with (2 ^ 59). rewrite Z.gtb_ltb.
  destruct (Z.ltb_spec (2 ^ 64 - 1 - 31) n); [lia|]. rewrite u64_id by (unfold is_u64; lia).
  pose proof (Z.div_mod (n + 31) 32 ltac:(lia)). pose proof (Z.mod_pos_bound (n + 31) 32 ltac:(lia)). lia.
Qed.

Lemma toWordSize_words w : 0 <= w <= 2 ^ 40 -> toWordSize (w * 32) = w.
Proof. intros Hw. destruct (toWordSize_ok (w * 32)); [unfold is_u64; lia|]. lia. Qed.

Lemma memory_fee_mono w1 w2 : 0 <= w1 <= w2 -> memory_fee w1 <= memory_fee w2.
Proof. intros Hw. unfold memory_fee. pose proof (Z.div_le_mono (w1 * w1) (w2 * w2) 512 ltac:(lia) ltac:(nia)). lia. Qed.

Lemma mem_Resize_0 mem : mem_Resize mem 0 = mem.
Proof. unfold mem_Resize. destruct (Z.ltb_spec (mem_Len mem) 0) as [H|]; [|done]. pose proof (zlen_nonneg (mem_store mem)). unfold mem_Len in H. lia. Qed.

(** Memory that was paid for and is about to be resized. *)
Definition mem_ready (mem : Memory) (n : Z) : Prop := mem_ok (mem_Resize mem n) /\ n <= mem_Len (mem_Resize mem n).

Lemma mem_ready_0 mem : mem_ok mem -> mem_ready mem 0.
Proof. intros Hm. unfold mem_ready. rewrite mem_Resize_0. split; [done|]. apply zlen_nonneg. Qed.

Lemma memory_total_exact w : 0 <= w -> w * 32 <= exact_memory ->
  u64 (u64 (w * MemoryGas) + u64 (w * w) / QuadCoeffDiv) = memory_fee w /\ is_u64 (memory_fee w).
Proof.
  unfold exact_memory. intros H0 Hw. rewrite (u64_id (w * w)), (u64_id (w * MemoryGas)) by (unfold is_u64, MemoryGas; nia).
  change MemoryGas with 3. change QuadCoeffDiv with 512.
  assert (0 <= w * w / 512 <= 2 ^ 55) by (split; [apply Z.div_pos; nia|apply Z.div_le_upper_bound; nia]).
  assert (is_u64 (memory_fee w)) by (unfold is_u64, memory_fee; lia). split; [|done].
  rewrite <- (u64_id (memory_fee w)) by done. unfold memory_fee. f_equal. lia.
Qed.

(** Memory after it was extended to [n] bytes. *)
Lemma mem_ready_more mem cost n : mem_ok mem -> mem_Len mem < n -> (32 | n) -> n <= max_memory -> is_u64 cost ->
  (n <= exact_memory -> cost = memory_fee (n / 32)) -> mem_ready (mkMemory (mem_store mem) cost) n.
Proof.
  intros Hm Hl Hd Hx Hc Hf. unfold mem_ready, mem_Resize, mem_Len in *. simpl. rewrite (proj2 (Z.ltb_lt _ n)) by lia.
  pose proof (zlen_nonneg (mem_store mem)).
  assert (zlen (mem_store mem ++ replicate (Z.to_nat (n - zlen (mem_store mem))) 0) = n) as El by (rewrite zlen_app, zlen_zeros; lia).
  split; [|simpl; lia]. constructor; unfold mem_Len; simpl; rewrite ?El; auto. apply Forall_app; split; [apply Hm|apply zeros_ok].
Qed.

(** The price of an extension up to [exact_memory] is the difference of the prices
    of the sizes; whatever it is, the memory is ready. *)
Lemma memory_cost_ok mem n r mem' : mem_ok mem -> 0 <= n -> (32 | n) -> memory_cost mem n = (r, mem') ->
  match r with
  | inl fee => is_u64 fee /\ mem_ready mem' n /\
      (Z.max n (mem_Len mem) <= exact_memory -> fee = memory_fee (Z.max n (mem_Len mem) / 32) - memory_fee (mem_Len mem / 32))
  | inr e => e = errGasUintOverflow /\ max_memory < n /\ mem' = mem
  end.
Proof.
  intros Hm Hn [w Hw] Hc. pose proof Hm as [M1 [wm M2] M3 M4 M5]. unfold memory_cost in Hc. pose proof (zlen_nonneg (mem_store mem)) as ML.
  change (zlen (mem_store mem)) with (mem_Len mem) in ML.
  destruct (Z.eqb_spec n 0) as [->|Hn0].
  { simplify_eq. rewrite Z.max_r by lia. split; [done|]. split; [by apply mem_ready_0|lia]. }
  fold max_memory in Hc. rewrite Z.gtb_ltb in Hc. destruct (Z.ltb_spec max_memory n); [by simplify_eq|].
  subst n. unfold max_memory in *. rewrite toWordSize_words in Hc by lia. rewrite (u64_id (w * 32)) in Hc by (unfold is_u64; lia).
  rewrite Z.gtb_ltb in Hc. destruct (Z.ltb_spec (mem_Len mem) (w * 32)) as [Hl|Hl]; simplify_eq.
  - rewrite Z.max_l by lia. split; [apply u64_range|]. set (total := u64 (u64 (w * MemoryGas) + _)).
    assert (w * 32 <= exact_memory -> total = memory_fee w /\ is_u64 (memory_fee w)) as Htotal by (apply memory_total_exact; lia).
    assert (mem_Len mem / 32 = wm) as Ewm by (rewrite M2, Z.div_mul; lia). rewrite Z.div_mul, Ewm by lia. split.
    + apply mem_ready_more; [done|lia|by exists w|unfold max_memory; lia|apply u64_range|]. rewrite Z.div_mul by lia. apply Htotal.
    + intros Hx. rewrite M5, Ewm by lia. destruct (Htotal Hx) as [-> HB]. apply u64_id. unfold is_u64 in *.
      pose proof (memory_fee_mono wm w ltac:(lia)). pose proof (memory_fee_mono 0 wm ltac:(lia)). change (memory_fee 0) with 0 in *. lia.
  - rewrite Z.max_r by lia. split; [done|]. split; [|lia]. unfold mem_ready, mem_Resize. rewrite (proj2 (Z.ltb_ge _ _)) by lia. split; [done|lia].
Qed.

(** ** Specification of costs *)

Section Gas.
Context `{HPL : PrecompileLaws}.

Definition gas_post (least : Z) (n : Z) (f : frame) (g : EVM) (m : machine) (x : (Z + vm_err) * frame * EVM) (m' : machine) : Prop :=
  let '(r, f', g') := x in
  g' = g /\ moves_on g m g m' /\ f_contract f' = f_contract f /\ f_pc f' = f_pc f /\ f_stack f' = f_stack f /\
  match r with inl cost => least <= cost < 2 ^ 64 /\ mem_ready (f_mem f') n | inr _ => True end.

(** At least [least] is charged; without [uses], the operation has no memory. *)
Definition gas_spec (gf : gasFunc) (pops : nat) (least : Z) (uses write : bool) : Prop :=
  forall f g m n, frame_ok f g m -> evm_ok g -> machine_ok m -> (pops <= length (f_stack f))%nat -> 0 <= n -> (32 | n) ->
  (uses = false -> n = 0) -> (write = true -> evm_readOnly g = false) ->
  wp ev_pre ev_post (gf chain_GasTable n f g) (gas_post least n f g m) m.

Lemma const_gas gas pops : 0 <= gas < 2 ^ 64 -> gas_spec (constGasFunc gas) pops gas false false.
Proof.
  intros Hb f g m n Hf Hg Hm _ _ _ Hn _. simpl. split_and!; auto using moves_refl; [lia..|]. rewrite Hn by done. apply mem_ready_0, Hf.
Qed.

(** Memory is charged first in a run of costs. *)
Lemma memoryGasCost_wp n (k : Z -> IM (Z + vm_err)) f g m Q : mem_ok (f_mem f) -> 0 <= n -> (32 | n) ->
  (forall fee mem', is_u64 fee -> mem_ready mem' n -> wp ev_pre ev_post (k fee (set_mem f mem') g) Q m) ->
  (forall e f', f_contract f' = f_contract f -> f_pc f' = f_pc f -> f_stack f' = f_stack f -> Q (inr e, f', g) m) ->
  wp ev_pre ev_post (gas_bind (memoryGasCost n) k f g) Q m.
Proof.
  intros Hm Hn Hd Hk He. unfold gas_bind, memoryGasCost. run_vm. destruct (memory_cost (f_mem f) n) as [r mem'] eqn:E. run_vm.
  apply (memory_cost_ok _ _ _ _ Hm Hn Hd) in E. destruct r as [fee|e]; run_vm; [apply Hk; apply E|]. by apply He.
Qed.

(** A checked sum, product or conversion: the result, or an error. *)
Lemma checked_wp r (k : Z -> IM (Z + vm_err)) f g m Q :
  (r.2 = false -> wp ev_pre ev_post (k r.1 f g) Q m) -> Q (inr errGasUintOverflow, f, g) m ->
  wp ev_pre ev_post (gas_bind (checked r) k f g) Q m.
Proof. intros Hk He. unfold gas_bind, checked. destruct r as [x []]; run_vm; [done|]. by apply Hk. Qed.

Lemma checked_last r f g m Q : (r.2 = false -> Q (inl r.1, f, g) m) -> Q (inr errGasUintOverflow, f, g) m ->
  wp ev_pre ev_post (checked r f g) Q m.
Proof. intros Hk He. unfold checked. destruct r as [x []]; run_vm; [done|]. by apply Hk. Qed.

Lemma SafeAdd_fits x y : is_u64 x -> is_u64 y -> (SafeAdd x y).2 = false -> (SafeAdd x y).1 = x + y /\ is_u64 (x + y).
Proof. intros Hx Hy. rewrite SafeAdd_ok by done. destruct (Z.ltb_spec (x + y) (2 ^ 64)); [|done]. unfold is_u64 in *. simpl. lia. Qed.

Lemma SafeMul_fits x y : is_u64 x -> is_u64 y -> (SafeMul x y).2 = false -> (SafeMul x y).1 = x * y /\ is_u64 (x * y).
Proof.
  intros Hx Hy. rewrite SafeMul_ok by done. simpl. intros Hz. zbool. unfold is_u64 in *. rewrite u64_id by (unfold is_u64; nia). nia.
Qed.

Lemma bigUint64_fits x : 0 <= x -> (bigUint64 x).2 = false -> (bigUint64 x).1 = x /\ is_u64 x.
Proof.
  intros Hx. unfold bigUint64. simpl. rewrite Z.gtb_ltb. intros Hb. zbool. apply big_BitLen_bound in Hb; [|done]. rewrite Z.abs_eq in Hb by done.
  assert (is_u64 x) by done. by rewrite big_Uint64_id.
Qed.

Lemma gas_error least n f g m e f' : evm_ok g -> machine_ok m -> f_contract f' = f_contract f -> f_pc f' = f_pc f -> f_stack f' = f_stack f ->
  gas_post least n f g m (inr e, f', g) m.
Proof. intros. simpl. split_and!; auto using moves_refl. Qed.

Lemma gas_value least n f g m cost mem' : evm_ok g -> machine_ok m -> least <= cost -> is_u64 cost -> mem_ready mem' n ->
  gas_post least n f g m (inl cost, set_mem f mem', g) m.
Proof. intros ? ? ? [] ?. simpl. split_and!; auto using moves_refl. Qed.

Lemma back_wp {A} i (k : Z -> IM A) f g m Q : (i < length (f_stack f))%nat -> nonneg (f_stack f) ->
  (forall x, f_stack f !! i = Some x -> 0 <= x -> wp ev_pre ev_post (k x f g) Q m) -> wp ev_pre ev_post (ibind (Back i) k f g) Q m.
Proof.
  intros Hi Hs Hk. destruct (lookup_lt_is_Some_2 _ _ Hi) as [x Hx]. unfold Back. run_vm. rewrite Hx. run_vm. apply Hk; [done|].
  rewrite Forall_lookup in Hs. by eapply Hs.
Qed.

Lemma mem_gas_ok base pops : is_u64 base -> gas_spec (fun _ n => mem_gas base n) pops base true false.
Proof.
  intros Hb f g m n Hf Hg Hm Hlen Hn Hd _ _. unfold mem_gas. apply memoryGasCost_wp; [apply Hf|done..| |intros; by apply gas_error].
  intros fee mem' Hfee Hr. apply checked_last; [|by apply gas_error]. intros E. apply SafeAdd_fits in E as [-> Hs]; [|done..].
  apply gas_value; auto. unfold is_u64 in *. lia.
Qed.

Lemma copy_gas_ok base len price pops : is_u64 base -> is_u64 price -> (len < pops)%nat -> gas_spec (fun _ n => copy_gas base len price n) pops base true false.
Proof.
  intros Hb Hp Hl f g m n Hf Hg Hm Hlen Hn Hd _ _. unfold copy_gas. apply memoryGasCost_wp; [apply Hf|done..| |intros; by apply gas_error].
  intros fee mem' Hfee Hr. apply checked_wp; [|by apply gas_error]. intros E1. apply SafeAdd_fits in E1 as [-> Hs]; [|done..].
  apply back_wp; [simpl; lia|apply Hf|]. intros x _ Hx. apply checked_wp; [|by apply gas_error]. intros E2. apply bigUint64_fits in E2 as [-> Hu]; [|done].
  destruct (toWordSize_ok x Hu) as [Hw _].
  apply checked_wp; [|by apply gas_error]. intros E3. apply SafeMul_fits in E3 as [-> Hm3]; [|unfold is_u64; lia|done].
  apply checked_last; [|by apply gas_error]. intros E4. apply SafeAdd_fits in E4 as [-> Hs4]; [|done..].
  apply gas_value; auto. unfold is_u64 in *. lia.
Qed.

Lemma log_gas_ok k pops : 0 <= k <= 4 -> (2 <= pops)%nat -> gas_spec (makeGasLog k) pops 375 true true.
Proof.
  intros Hk Hp f g m n Hf Hg Hm Hlen Hn Hd _ _. unfold makeGasLog. apply back_wp; [lia|apply Hf|]. intros x _ Hx.
  apply checked_wp; [|by apply gas_error]. intros E0. apply bigUint64_fits in E0 as [-> Hu]; [|done].
  apply memoryGasCost_wp; [apply Hf|done..| |intros; by apply gas_error]. intros fee mem' Hfee Hr.
  apply checked_wp; [|by apply gas_error]. intros E1. apply SafeAdd_fits in E1 as [-> Hs]; [|done|done].
  change LogTopicGas with 375. rewrite (u64_id (k * 375)) by (unfold is_u64; lia).
  apply checked_wp; [|by apply gas_error]. intros E2. apply SafeAdd_fits in E2 as [-> Hs2]; [|done|unfold is_u64; lia].
  apply checked_wp; [|by apply gas_error]. intros E3. apply SafeMul_fits in E3 as [-> Hs3]; [|done..].
  apply checked_last; [|by apply gas_error]. intros E4. apply SafeAdd_fits in E4 as [-> Hs4]; [|done..].
  apply gas_value; auto. unfold is_u64, LogGas in *. lia.
Qed.

Lemma return_gas_ok pops : gas_spec (fun _ n => memoryGasCost n) pops 0 true false.
Proof.
  intros f g m n Hf Hg Hm Hlen Hn Hd _ _. unfold memoryGasCost. run_vm. destruct (memory_cost (f_mem f) n) as [r mem'] eqn:E. run_vm.
  apply (memory_cost_ok _ _ _ _ (fo_mem _ _ _ Hf) Hn Hd) in E. destruct r as [fee|e]; [|by apply gas_error].
  destruct E as ([] & Hr & _). apply gas_value; auto. by split.
Qed.

(** The frame stays as it is. *)
Lemma gas_fixed least n f g m cost m' : frame_ok f g m -> moves_on g m g m' -> n = 0 -> least <= cost < 2 ^ 64 -> gas_post least n f g m (inl cost, f, g) m'.
Proof. intros Hf Hmv -> Hc. simpl. split_and!; auto; [lia..|]. apply mem_ready_0, Hf. Qed.

Lemma exp_gas_ok pops : (2 <= pops)%nat -> gas_spec gasExp pops 10 false false.
Proof.
  intros Hp f g m n Hf Hg Hm Hlen Hn Hd Hu _. unfold gasExp. apply back_wp; [lia|apply Hf|]. intros x _ Hx.
  pose proof (u64_range ((big_BitLen x + 7) / 8 * ExpByte chain_GasTable)) as HU. apply checked_last; [|by apply gas_error].
  intros E. apply SafeAdd_fits in E as [-> Hs]; [|done|done]. apply gas_fixed; auto using moves_refl. unfold is_u64, GasSlowStep in *. lia.
Qed.

Lemma sstore_gas_ok pops : (2 <= pops)%nat -> gas_spec gasSStore pops 5000 false true.
Proof.
  intros Hp f g m n Hf Hg Hm Hlen Hn Hd Hu Hw. unfold gasSStore. apply back_wp; [lia|apply Hf|]. intros y _ Hy. apply back_wp; [lia|apply Hf|]. intros x _ Hx.
  run_vm. split; [exact I|]. intros v m1 He. apply post_GetState in He as (-> & _); [|done]. run_vm.
  destruct (EmptyHash v && negb (EmptyHash (BigToHash y))); run_vm; [apply gas_fixed; auto using moves_refl; done|].
  destruct (negb (EmptyHash v) && EmptyHash (BigToHash y)); run_vm; [|apply gas_fixed; auto using moves_refl; done].
  split; [exact I|]. intros [] m1 He. apply gas_fixed; auto; [|done]. exact (moves_event _ _ g m _ _ Hg Hm He ltac:(done) (or_intror (Hw eq_refl))).
Qed.

Lemma suicide_gas_ok pops : (1 <= pops)%nat -> gas_spec gasSuicide pops 5000 false true.
Proof.
  intros Hp f g m n Hf Hg Hm Hlen Hn Hd Hu Hw. unfold gasSuicide. apply back_wp; [lia|apply Hf|]. intros x _ Hx. run_vm.
  split; [exact I|]. intros b m1 [-> _].
  assert (forall new : bool, wp ev_pre ev_post ((let gas := if new then u64 (Suicide_gas chain_GasTable + CreateBySuicide chain_GasTable) else Suicide_gas chain_GasTable in
    let~ suicided := ievent (EvHasSuicided (c_self (f_contract f))) in
    let~! (if negb suicided then ievent (EvAddRefund SuicideRefundGas) else iret tt) in gas_ok gas) f g) (gas_post 5000 n f g m) m) as K.
  { intros new. set (gas := if new then _ else _). assert (5000 <= gas < 2 ^ 64) by (by destruct new). cbv zeta. run_vm.
    split; [exact I|]. intros s m1 He. pose proof (ev_reads_same _ (EvHasSuicided _) _ _ _ eq_refl He) as ->.
    destruct (negb s); run_vm; [|apply gas_fixed; auto using moves_refl].
    split; [exact I|]. intros [] m1 He'. apply gas_fixed; auto. exact (moves_event _ _ g m _ _ Hg Hm He' ltac:(done) (or_intror (Hw eq_refl))). }
  destruct b; run_vm; [|apply (K false)]. split; [exact I|]. intros v m1 He. apply post_GetBalance in He as (-> & _ & _); [|done]. apply (K (negb (v =? 0))).
Qed.
End Gas.

(** ** One iteration *)

Section Step.
Context `{HPL : PrecompileLaws} (cfg : Config) (Hmeter : DisableGasMetering cfg = false).

(** The gas is left that is left; the loop goes on with less gas. *)
Definition step_post (f : frame) (g : EVM) (m : machine) (x : flow * frame * EVM) (m' : machine) : Prop :=
  let '(r, f', g') := x in
  moves_on g m g' m' /\ is_u64 (c_Gas (f_contract f')) /\
  match r with
  | Continue => frame_ok f' g' m' /\ c_Gas (f_contract f') < c_Gas (f_contract f)
  | Halt ret _ => small ret /\ c_Gas (f_contract f') <= c_Gas (f_contract f)
  end.

Lemma halt_post f g m f' e : frame_ok f g m -> evm_ok g -> machine_ok m -> f_contract f' = f_contract f -> step_post f g m (Halt [] (Some e), f', g) m.
Proof. intros Hf Hg Hm E. simpl. rewrite E. split; [by apply moves_refl|]. split; [apply Hf|]. split; [apply small_nil|lia]. Qed.

Definition mem_spec (o : operation) (pops : nat) (need : list Z -> Z) : Prop :=
  match memorySize o with
  | None => need = no_memory
  | Some p => (forall f g, (pops <= length (f_stack f))%nat -> p f g = Return (need (f_stack f), f, g)) /\
              (forall st, nonneg st -> (pops <= length st)%nat -> 0 <= need st)
  end.

Lemma validate_ok pops pushes len : makeStackFunc pops pushes len = None -> pops <= len /\ len + pushes - pops <= StackLimit.
Proof.
  unfold makeStackFunc, stack_require. destruct (Z.ltb_spec len pops); [done|]. rewrite Z.gtb_ltb. destruct (Z.ltb_spec StackLimit (len + pushes - pops)); [done|lia].
Qed.

Lemma required_memory_wp {A} o pops need (k : Z + vm_err -> IM A) f g m Q : mem_spec o pops need -> nonneg (f_stack f) -> (pops <= length (f_stack f))%nat ->
  (forall e, wp ev_pre ev_post (k (inr e) f g) Q m) ->
  (forall n, 0 <= n -> (32 | n) -> need (f_stack f) <= n -> (memorySize o = None -> n = 0) -> wp ev_pre ev_post (k (inl n) f g) Q m) ->
  wp ev_pre ev_post (ibind (required_memory o) k f g) Q m.
Proof.
  intros Hspec Hst Hlen He Hk. unfold required_memory. unfold mem_spec in Hspec. destruct (memorySize o) as [p|]; cycle 1.
  { run_vm. apply Hk; auto; [lia|by exists 0|by subst need]. }
  destruct Hspec as [Hp Hnn]. specialize (Hp f g Hlen). specialize (Hnn _ Hst Hlen). unfold ibind at 1 2. rewrite Hp. run_vm.
  apply wp_then, checked_wp; [|apply He]. intros E. apply bigUint64_fits in E as [-> Hu]; [|done]. destruct (toWordSize_ok _ Hu) as [W1 W2].
  apply checked_last; [|apply He]. intros E. apply SafeMul_fits in E as [-> _]; [|unfold is_u64; lia|done]. apply Hk; [lia|by eexists|lia|done].
Qed.

(** Restrictions of read-only calls for an operation other than a call. *)
Lemma restrictions_wp {A} op o (k : option vm_err -> IM A) f g m Q : op <> CALL ->
  (forall e, wp ev_pre ev_post (k (Some e) f g) Q m) -> ((writes o = true -> evm_readOnly g = false) -> wp ev_pre ev_post (k None f g) Q m) ->
  wp ev_pre ev_post (ibind (enforceRestrictions op o) k f g) Q m.
Proof.
  intros Hop He Hk. unfold enforceRestrictions. run_vm. destruct (evm_readOnly g); run_vm; [|by apply Hk].
  destruct (writes o) eqn:Ew; run_vm; [apply He|]. rewrite (proj2 (Z.eqb_neq op CALL)) by done. run_vm. apply Hk. done.
Qed.

Lemma charge_wp {A} o pops least write n (k : option vm_err -> IM A) f g m Q : gas_spec (gasCost o) pops least (bool_decide (memorySize o <> None)) write ->
  frame_ok f g m -> evm_ok g -> machine_ok m -> (pops <= length (f_stack f))%nat -> 0 <= n -> (32 | n) -> (memorySize o = None -> n = 0) ->
  (write = true -> evm_readOnly g = false) ->
  (forall e f' m', moves_on g m g m' -> f_contract f' = f_contract f -> wp ev_pre ev_post (k (Some e) f' g) Q m') ->
  (forall cost mem' m', moves_on g m g m' -> least <= cost <= c_Gas (f_contract f) -> mem_ready mem' n ->
    wp ev_pre ev_post (k None (mkFrame (f_pc f) (f_stack f) mem' (with_gas (f_contract f) (c_Gas (f_contract f) - cost))) g) Q m') ->
  wp ev_pre ev_post (ibind (charge cfg o n) k f g) Q m.
Proof.
  intros Hgas Hf Hg Hm Hlen Hn Hd Hnone Hw He Hk. unfold charge. rewrite Hmeter. unfold ibind at 1 2. cbn [negb]. apply wp_then, wp_then.
  eapply wp_conseq; [apply (Hgas f g m n); auto; by intros ?%bool_decide_eq_false%dec_stable; auto|].
  intros [[r f1] g1] m1 (-> & Hmv & E1 & E2 & E3 & Hr). destruct r as [cost|e]; run_vm; [|by apply He]. destruct Hr as [Hc Hready].
  unfold UseGas. rewrite E1. destruct (Z.ltb_spec (c_Gas (f_contract f)) cost); run_vm; [by apply He|].
  unfold set_contract. rewrite E2, E3. apply Hk; auto. lia.
Qed.

Lemma resize_wp {A} n (k : unit -> IM A) f g m Q : 0 <= n ->
  wp ev_pre ev_post (k tt (set_mem f (mem_Resize (f_mem f) n)) g) Q m -> wp ev_pre ev_post (ibind (resize n) k f g) Q m.
Proof.
  intros Hn Hk. unfold resize. destruct (Z.gtb_spec n 0); run_vm; [done|]. replace n with 0 in Hk by lia. rewrite mem_Resize_0 in Hk. by destruct f.
Qed.

Lemma evm_ok_return g ret : evm_ok g -> small ret -> evm_ok (with_returnData g ret).
Proof. intros [] Hr. by constructor. Qed.

Lemma moves_return g m g' m' ret : moves_on g m g' m' -> small ret -> moves_on g m (with_returnData g' ret) m'.
Proof. intros ([] & M & S) Hr. split_and!; [|done..]. constructor; simpl; auto using evm_ok_return. Qed.

(** The end of an iteration, for an instruction with its specification. *)
Lemma perform_wp o pops pushes need write f0 f g m : exec_ok (execute o) pops pushes need (jumps o) write ->
  frame_ok f g m -> evm_ok g -> machine_ok m -> f_pc f < zlen (c_Code (f_contract f)) -> (pops <= length (f_stack f))%nat ->
  need (f_stack f) <= mem_Len (f_mem f) -> (write = true -> evm_readOnly g = false) ->
  zlen (f_stack f) + Z.of_nat pushes - Z.of_nat pops <= StackLimit -> c_Gas (f_contract f) <= c_Gas (f_contract f0) ->
  (halts o || reverts o = false -> c_Gas (f_contract f) < c_Gas (f_contract f0)) ->
  wp ev_pre ev_post (perform o f g) (step_post f0 g m) m.
Proof.
  intros Hex Hf Hg Hm Hpc Hlen Hneed Hw Hlim Hle Hlt. unfold perform. unfold ibind at 1. eapply wp_seq; [by apply Hex|].
  intros [[[ret err] f'] g'] m' (Hr & Hmv & Ec & Hmem & Hst & Hlen' & Hpc').
  assert (is_u64 (c_Gas (f_contract f'))) by (rewrite Ec; apply Hf).
  set (g2 := if returns o then with_returnData g' ret else g').
  assert (moves_on g m g2 m') as Hmv2 by (subst g2; destruct (returns o); auto using moves_return).
  assert (forall k : unit -> IM flow, wp ev_pre ev_post (k tt f' g2) (step_post f0 g m) m' ->
    wp ev_pre ev_post (ibind (if returns o then let~ g := get_evm in put_evm (with_returnData g ret) else iret tt) k f' g') (step_post f0 g m) m') as K
    by (intros k; subst g2; destruct (returns o); by run_vm).
  apply K. clear K. destruct err as [e|]; run_vm.
  { split_and!; auto using small_nil. by rewrite Ec. }
  specialize (Hlen' eq_refl). specialize (Hpc' eq_refl). destruct (reverts o) eqn:Erev; run_vm; [split_and!; auto; by rewrite Ec|].
  destruct (halts o) eqn:Eh; run_vm; [split_and!; auto; by rewrite Ec|]. specialize (Hlt eq_refl).
  assert (contract_ok (f_contract f') g2 m') as Hc' by (rewrite Ec; by apply (contract_moves _ g m); [apply Hf|]).
  assert (zlen (f_stack f') <= StackLimit) by (unfold zlen in *; lia). destruct Hf as [Fpc _ _ _ Fcode Fc].
  assert (zlen (c_Code (f_contract f)) < 2 ^ 62) by apply Fc.
  destruct (jumps o); cbn [negb]; run_vm; split_and!; auto; try (by rewrite Ec).
  - constructor; rewrite ?Ec; auto; [lia|by rewrite <- Ec].
  - constructor; simpl; rewrite ?Ec; auto; [|by rewrite <- Ec]. rewrite u64_id by (unfold is_u64; lia). lia.
  - simpl. by rewrite Ec.
Qed.

(** One iteration with an instruction that does not call. *)
Lemma step_simple op o pops pushes need least : validateStack o = makeStackFunc (Z.of_nat pops) (Z.of_nat pushes) -> op <> CALL ->
  mem_spec o pops need -> gas_spec (gasCost o) pops least (bool_decide (memorySize o <> None)) (writes o) -> 0 <= least ->
  exec_ok (execute o) pops pushes need (jumps o) (writes o) -> (halts o || reverts o = false -> 0 < least) ->
  forall f g m, frame_ok f g m -> evm_ok g -> machine_ok m -> f_pc f < zlen (c_Code (f_contract f)) ->
  wp ev_pre ev_post (step_operation cfg op o f g) (step_post f g m) m.
Proof.
  intros Hv Hop Hms Hgas Hl0 Hex Hleast f g m Hf Hg Hm Hpc. unfold step_operation. run_vm. rewrite Hv.
  destruct (makeStackFunc _ _ _) as [e|] eqn:Ev; run_vm; [by apply halt_post|]. apply validate_ok in Ev as [V1 V2].
  assert (pops <= length (f_stack f))%nat as Hlen by (unfold zlen in V1; lia).
  apply restrictions_wp; [done|intros e; by apply halt_post|]. intros Hw.
  eapply required_memory_wp; [done|apply Hf|done|intros e; by apply halt_post|]. intros n Hn Hd Hneed Hnone.
  eapply charge_wp; [done..| |].
  { intros e f' m' Hmv Ec. run_vm. unfold step_post. rewrite Ec. split; [done|]. split; [apply Hf|]. split; [apply small_nil|lia]. }
  intros cost mem' m' Hmv Hc [R1 R2]. apply resize_wp; [done|]. pose proof Hmv as (_ & [Hm' _ _ _] & _).
  assert (is_u64 (c_Gas (f_contract f))) as HG by apply Hf. unfold is_u64 in HG.
  eapply wp_conseq; [eapply (perform_wp o pops pushes need (writes o) f)|]; simpl; auto; try lia; [|..].
  - destruct Hf. constructor; simpl; auto. apply (contract_moves _ g m); [|done]. apply contract_with_gas; [done|]. unfold is_u64. lia.
  - intros Hh. specialize (Hleast Hh). lia.
  - intros [[r f'] g'] m2 (Hmv2 & H2). split; [|done]. by eapply moves_on_trans.
Qed.
End Step.
