(* ===== verification/VmSafe.v ===== *)
(** Calls keep the invariants: a call returns at most the gas it was given, and
    undoes its effects when it fails.

    The creation of contracts, the instructions that call, and the interpreter. *)
From S2P Require Import Prelude RlpEncode RlpDecode RlpRaw Storage IstanbulTypes ValidatorSet Trie StateDB StateSpec StateTheorems BigMath VmProg VmData VmCore VmInterp VmJump VmInv VmExec VmStep.

Section Calls.
Context `{HPL : PrecompileLaws} (cfg : Config).

Definition run_post (c : Contract) (g : EVM) (m : machine) (x : bytes * option vm_err * Contract * EVM) (m' : machine) : Prop :=
  let '(ret, err, c', g') := x in small ret /\ 0 <= c_Gas c' <= c_Gas c /\ moves_on g m g' m'.

(** An interpreter that runs every contract with less than [N] gas. *)
Definition runner_ok (N : Z) (rec : Runner) : Prop := forall c input g m, contract_ok c g m -> small input -> evm_ok g -> machine_ok m -> c_Gas c < N ->
  wp ev_pre ev_post (rec c input g) (run_post c g m) m.

Lemma seen_moves g m code : evm_ok g -> machine_ok m -> moves_on g m (with_code_seen g code) m.
Proof.
  intros [Hmaps Hret] Hm. split_and!; [|by apply mrel_refl|intros _ _; apply quiet_refl]. constructor; simpl; auto; [|set_solver].
  constructor; simpl; [|done]. intros d h a Hd Ha. destruct (Hmaps d h a Hd Ha) as (code' & Hc & ?). exists code'. split; [set_solver|done].
Qed.

Context (N : Z) (rec : Runner) (Hrec : runner_ok N rec) (HLim : N <= pc_limit).

(** ** Running a contract *)

Lemma precompiled_wp a p input c g m : precompiled a = Some p -> small input -> value_ok (c_value c) -> is_u64 (c_Gas c) -> c_Gas c < N -> evm_ok g -> machine_ok m ->
  wp ev_pre ev_post (RunPrecompiledContract p input c g) (run_post c g m) m.
Proof.
  intros Hp Hi Hv Hgas Hlim Hg Hm. unfold RunPrecompiledContract, UseGas. pose proof (pc_gas_ok a p input Hp). unfold is_u64 in Hgas.
  destruct (Z.ltb_spec (c_Gas c) (RequiredGas p input)); simpl; [split_and!; auto using small_nil, moves_refl; lia|].
  eapply wp_seq; [apply (pc_run_ok a); auto; lia|]. intros [ret err] m' (Hr & Hmr & Hpure). simpl. split_and!; auto; [lia..|].
  split_and!; [by apply erel_refl|done|]. intros Hall _. apply quiet_world, Hpure. by eapply Hall.
Qed.

Lemma run_contract_wp c input g m : contract_ok c g m -> small input -> evm_ok g -> machine_ok m -> c_Gas c < N ->
  wp ev_pre ev_post (run_contract rec c input g) (run_post c g m) m.
Proof.
  intros Hc Hi Hg Hm Hgas. unfold run_contract. destruct (c_CodeAddr c) as [a|]; [|by apply Hrec].
  destruct (precompiled a) as [p|] eqn:Ep; [|by apply Hrec]. eapply precompiled_wp; eauto; apply Hc.
Qed.

(** A contract before it gets the code of [addr]. *)
Record shell_ok (c : Contract) (addr : address) (g : EVM) (m : machine) : Prop := {
  sl_input : c_Input c = [];
  sl_gas : is_u64 (c_Gas c);
  sl_value : value_ok (c_value c);
  sl_self : bytes_ok (c_self c);
  sl_caller : bytes_ok (c_CallerAddress c);
  sl_parent a v : c_caller c = Some (a, v) -> bytes_ok a /\ value_ok v;
  sl_map : (c_jumpdests c < length (evm_maps g))%nat;
  sl_exists : exists_at m (c_self c) \/ c_self c = addr
}.

Lemma shell_contract c addr h code g m : shell_ok c addr g m -> small code -> (code <> [] -> h = Keccak256 code) -> (code <> [] -> exists_at m addr) ->
  contract_ok (SetCallCode c addr h code) (with_code_seen g code) m.
Proof.
  intros [] Hs Hh Hx. constructor; simpl; auto; [constructor|by rewrite sl_input0; apply small_nil|].
  intros Hne. destruct sl_exists0 as [|E]; [done|]. unfold exists_at. rewrite E. by apply Hx.
Qed.

Lemma run_code_wp c addr input g m : shell_ok c addr g m -> small input -> evm_ok g -> machine_ok m -> c_Gas c < N ->
  wp ev_pre ev_post (run_code rec c addr input g) (run_post c g m) m.
Proof.
  intros Hc Hi Hg Hm HN. unfold run_code. cbn [pbind call wp]. split; [exact I|]. intros h m1 H1. apply post_GetCodeHash in H1 as (-> & Hh); [|done].
  split; [exact I|]. intros code m1 H2. apply post_GetCode in H2 as (-> & Hs & Hx & Hcode); [|done].
  pose proof (seen_moves g m code Hg Hm) as Hmv. eapply wp_conseq; [apply run_contract_wp|]; auto; [|apply Hmv|].
  - apply shell_contract; auto. intros Hne. destruct (Hx Hne) as [ac Hac]. by rewrite (Hh ac Hac), (Hcode ac Hac).
  - intros [[[ret err] c'] g'] m' (Hr & Hgas & Hm'). split_and!; auto; [apply Hgas..|]. by eapply moves_on_trans.
Qed.

(** ** Snapshots *)

Definition snapshot_of (m : machine) : machine := mkMachine (m_world m) (m_snaps m ++ [(m_next m, m_world m)]) (m_next m + 1).

Lemma revert_snapshot m m' : machine_ok m -> mrel (snapshot_of m) m' ->
  ev_pre unit (EvRevertToSnapshot (m_next m)) m' /\
  forall r m'', ev_post unit (EvRevertToSnapshot (m_next m)) m' r m'' -> m'' = mkMachine (m_world m) (m_snaps m) (m_next m').
Proof.
  intros Hm [_ _ [later Hs] _]. simpl in Hs.
  assert (split_at_id (m_next m) (m_snaps m') = Some (m_snaps m, m_world m)) as E.
  { rewrite Hs, <- app_assoc, split_at_id_skip by apply Hm. simpl. by rewrite Z.eqb_refl, app_nil_r. }
  split; [simpl; by rewrite E|]. intros r m'' (res & Hst & _). simpl in Hst. rewrite E in Hst. by simplify_eq.
Qed.

Lemma reverted_moves g m g' m' : machine_ok m -> erel g g' -> mrel (snapshot_of m) m' -> moves_on g m g' (mkMachine (m_world m) (m_snaps m) (m_next m')).
Proof.
  intros Hm He [_ _ _ Hn]. simpl in Hn. split_and!; [done| |intros _ _; by apply quiet_world].
  destruct Hm. constructor; simpl; auto; [|lia]. constructor; simpl; auto. eapply Forall_impl; [done|]. simpl. intros. lia.
Qed.

Lemma snapshot_moves g m : evm_ok g -> machine_ok m -> moves_on g m g (snapshot_of m).
Proof.
  intros Hg Hm. split_and!; [by apply erel_refl| |intros _ _; by apply quiet_world].
  apply (ev_mrel Z EvSnapshot m (m_next m)); [done| |exact I]. by eexists.
Qed.

(** The errors after which gas is left: a revert, and those before a contract is run. *)
Definition keeps_gas (e : vm_err) : bool := bool_decide (e = errExecutionReverted \/ e = ErrDepth \/ e = ErrInsufficientBalance).

(** What every call promises. *)
Definition call_post (gas : Z) (g : EVM) (m : machine) (x : CallResult) (m' : machine) : Prop :=
  let '(ret, leftOver, err, g') := x in
  small ret /\ 0 <= leftOver <= gas /\ moves_on g m g' m' /\ (err <> None -> m_world m' = m_world m) /\
  (forall e, err = Some e -> keeps_gas e = false -> leftOver = 0).

Lemma end_call_wp gas c g m x m' : machine_ok m -> c_Gas c <= gas -> run_post c g (snapshot_of m) x m' -> moves_on g m x.2 m' ->
  wp ev_pre ev_post (end_call (m_next m) x) (call_post gas g m) m'.
Proof.
  destruct x as [[[ret err] c'] g']. intros Hm Hgas (Hr & Hc & Hmv) Hall. simpl in Hall. unfold end_call. destruct err as [e|]; cycle 1.
  { simpl. split_and!; auto; try lia; done. }
  pose proof Hmv as (He & Hmr & _). destruct (revert_snapshot m m' Hm Hmr) as [Hpre Hpost]. cbn [pbind call wp]. split; [done|].
  intros r m'' Hrev. rewrite (Hpost r m'' Hrev). simpl. unfold UseGas.
  assert (forall k : Contract, 0 <= c_Gas k <= gas -> (keeps_gas e = false -> c_Gas k = 0) ->
    call_post gas g m (ret, c_Gas k, Some e, g') (mkMachine (m_world m) (m_snaps m) (m_next m'))) as K.
  { intros k Hk Hz. split_and!; auto; [apply Hk..|by apply reverted_moves|]. by intros e' [= <-]. }
  destruct (decide (e = errExecutionReverted)) as [->|]; apply K; [lia|done|..]; rewrite (proj2 (Z.ltb_ge _ _)) by lia; simpl; lia.
Qed.

(** ** Callers *)

Record caller_ok (r : ContractRef) (g : EVM) (m : machine) : Prop := {
  cl_address : bytes_ok (ref_Address r);
  cl_exists : exists_at m (ref_Address r);
  cl_contract c : r = ContractOf c -> contract_ok c g m
}.

Lemma caller_moves r g m g' m' : caller_ok r g m -> moves_on g m g' m' -> caller_ok r g' m'.
Proof.
  intros [] Hmv. constructor; auto; [|by intros c ->; eapply contract_moves; eauto]. destruct Hmv as (_ & [_ Hx _ _] & _). by apply Hx.
Qed.

(** A new contract is a shell, and the machine has its map of destinations. *)
Lemma new_contract_ok g m caller object value gas c g' addr : evm_ok g -> machine_ok m -> caller_ok caller g m -> bytes_ok object -> value_ok value -> is_u64 gas ->
  exists_at m object \/ object = addr -> new_contract g caller object value gas = (c, g') ->
  shell_ok c addr g' m /\ moves_on g m g' m /\ c_Gas c = gas.
Proof.
  intros Hg Hm [Ha Hx Hc] Ho Hv Hgas Hex. unfold new_contract, NewContract. destruct caller as [a|c0]; intros [= <- <-].
  - split_and!; [|split_and!; [|by apply mrel_refl|intros _ _; apply quiet_refl]|done].
    + constructor; simpl; auto; [done|]. rewrite length_app. simpl. lia.
    + constructor; simpl; auto; [|rewrite length_app; lia]. destruct Hg as [Hmaps Hret]. constructor; simpl; [|done].
      intros d h b Hd Hb. apply elem_of_app in Hd as [Hd|Hd%list_elem_of_singleton]; [by eapply Hmaps|]. subst d. by rewrite lookup_empty in Hb.
  - specialize (Hc c0 eq_refl). replace (with_maps g (evm_maps g)) with g by (by destruct g).
    split_and!; [|by apply moves_refl|done]. constructor; simpl; auto; [|apply Hc]. intros a v [= <- <-]. split; apply Hc.
Qed.

Lemma AsDelegate_ok c c0 g m addr gas : contract_ok c0 g m -> is_u64 gas -> exists_at m (c_self c0) ->
  new_contract g (ContractOf c0) (c_self c0) None gas = (c, g) -> exists c', AsDelegate c = Ok c' /\ shell_ok c' addr g m /\ c_Gas c' = gas.
Proof.
  intros Hc Hgas Hx. unfold new_contract, NewContract. simpl. intros [= <- _]. eexists. split; [done|]. split; [|done].
  constructor; simpl; auto; try apply Hc. intros a v [= <- <-]. split; apply Hc.
Qed.

(** ** Transfers *)

Lemma can_transfer_wp {A} a n (k : bool -> prog A) Q m : machine_ok m -> wp ev_pre ev_post (k false) Q m ->
  (n <= a_balance (acct_at (m_world m) a) -> wp ev_pre ev_post (k true) Q m) -> wp ev_pre ev_post (pbind (CanTransfer a n) k) Q m.
Proof.
  intros Hm Hf Ht. unfold CanTransfer. cbn [pbind call wp]. split; [exact I|]. intros b m1 He. apply post_GetBalance in He as (-> & _ & Hb); [|done].
  rewrite Z.geb_leb. destruct (Z.leb_spec n b); [apply Ht; lia|done].
Qed.

Lemma transfer_wp {A} from to n (k : unit -> prog A) Q g m : evm_ok g -> machine_ok m -> exists_at m from -> n <= a_balance (acct_at (m_world m) from) -> 0 <= n ->
  (evm_readOnly g = true -> n = 0 /\ exists_at m to) ->
  (forall m', moves_on g m g m' -> exists_at m' to -> wp ev_pre ev_post (k tt) Q m') -> wp ev_pre ev_post (pbind (Transfer from to n) k) Q m.
Proof.
  intros Hg Hm Hx Hb Hn Hst Hk. unfold Transfer. cbn [pbind call wp]. split; [exact I|]. intros [] m1 H1. split; [exact I|]. intros [] m2 H2.
  pose proof (ev_mrel _ (EvSubBalance from n) m tt m1 Hm H1 Hb) as M1. pose proof (mr_ok _ _ M1) as Hm1.
  pose proof (ev_mrel _ (EvAddBalance to n) m1 tt m2 Hm1 H2 I) as M2.
  assert (exists_at m2 to) as Hto.
  { destruct H2 as (res & [= <- <-] & _). unfold exists_at. simpl. destruct (n >? 0); [|unfold w_touch; destruct (w_accts (m_world m1) to) eqn:E; [by rewrite E|]].
    all: unfold w_set; simpl; rewrite fn_set_eq; eauto. }
  apply Hk; [|done]. split_and!; [by apply erel_refl|by eapply mrel_trans|]. intros _ Hr. destruct (Hst Hr) as [-> Ht]. apply quiet_world.
  destruct H1 as (res & [= <- <-] & _). destruct H2 as (res & [= <- <-] & _). simpl. rewrite (w_touch_id _ from) by done. by rewrite w_touch_id.
Qed.

(** ** Calls *)

Lemma call_early gas g m ret err : evm_ok g -> machine_ok m -> 0 <= gas -> ret = [] -> (forall e, err = Some e -> keeps_gas e = true) ->
  call_post gas g m (ret, gas, err, g) m.
Proof. intros Hg Hm Hgas -> He. split_and!; auto using small_nil, moves_refl; [lia..|]. intros e Ee. by rewrite (He e Ee). Qed.

(** Every early return keeps the gas. *)
Ltac early := apply call_early; [done..|by intros e [= <-]].

Lemma snapshot_wp {A} (k : Z -> prog A) Q m : wp ev_pre ev_post (k (m_next m)) Q (snapshot_of m) -> wp ev_pre ev_post (pbind (call EvSnapshot) k) Q m.
Proof. intros Hk. cbn [pbind call wp]. split; [exact I|]. intros r m1 H1. apply post_Snapshot in H1 as [-> ->]. done. Qed.

(** From the contract on: run, and end the call. *)
Lemma call_tail c addr input gas g0 g m m1 : machine_ok m -> shell_ok c addr g m1 -> small input -> evm_ok g -> machine_ok m1 -> c_Gas c < N -> c_Gas c <= gas ->
  moves_on g0 (snapshot_of m) g m1 -> moves_on g0 m g0 (snapshot_of m) ->
  wp ev_pre ev_post (pbind (run_code rec c addr input g) (end_call (m_next m))) (call_post gas g0 m) m1.
Proof.
  intros Hm Hc Hi Hg Hm1 HN Hgas Hmv Hsn. eapply wp_seq; [by apply run_code_wp|]. intros [[[ret err] c'] g'] m' (Hr & Hc' & Hmv').
  assert (moves_on g0 (snapshot_of m) g' m') as Hall by (by eapply moves_on_trans).
  apply (end_call_wp gas c); auto; [by unfold run_post|]. by eapply moves_on_trans.
Qed.

Lemma evm_Call_wp caller addr input gas value g m : caller_ok caller g m -> bytes_ok addr -> small input -> is_u64 gas -> gas < N -> 0 <= value ->
  (evm_readOnly g = true -> value = 0) -> evm_ok g -> machine_ok m ->
  wp ev_pre ev_post (evm_Call cfg rec caller addr input gas value g) (call_post gas g m) m.
Proof.
  intros Hc Ha Hi Hgas HN Hv Hst Hg Hm. pose proof Hgas as [Hgas0 _]. unfold evm_Call. destruct (NoRecursion cfg && _); [early|].
  destruct (evm_depth g >? CallCreateDepth); [early|].
  apply can_transfer_wp; [done|early|]. intros Hb. cbn [negb]. pose proof (snapshot_moves g m Hg Hm) as Hsn.
  apply snapshot_wp. cbn [pbind call wp]. split; [exact I|]. intros known m1 H1. apply post_Exist in H1 as [-> Hk].
  destruct (negb known && bool_decide (precompiled addr = None) && (value =? 0)) eqn:Eskip.
  { simpl. split_and!; auto using small_nil; [lia..|done]. }
  set (m0 := snapshot_of m) in *. assert (machine_ok m0) as Hm0 by apply Hsn.
  assert (forall m1, moves_on g m0 g m1 -> exists_at m1 addr -> a_balance (acct_at (m_world m1) (ref_Address caller)) = a_balance (acct_at (m_world m) (ref_Address caller)) ->
    wp ev_pre ev_post (do! (if negb (bool_decide (addr = wanCoinPrecompileAddr)) && negb (bool_decide (addr = wanStampPrecompileAddr))
             then Transfer (ref_Address caller) addr value else Return tt);
        let '(c, g) := new_contract g caller addr (Some value) gas in do r <- run_code rec c addr input g; end_call (m_next m) r) (call_post gas g m) m1) as K.
  { intros m1 Hmv Hx Eb. assert (machine_ok m1) as Hm1 by apply Hmv. assert (moves_on g m g m1) as Hmv0 by (by eapply moves_on_trans).
    assert (caller_ok caller g m1) as Hc1 by (by eapply caller_moves).
    assert (forall m2, moves_on g m0 g m2 -> exists_at m2 addr -> wp ev_pre ev_post (let '(c, g) := new_contract g caller addr (Some value) gas in
      do r <- run_code rec c addr input g; end_call (m_next m) r) (call_post gas g m) m2) as K2.
    { intros m2 Hmv2 Hx2. destruct (new_contract g caller addr (Some value) gas) as [c g2] eqn:En.
      assert (machine_ok m2) by apply Hmv2. assert (caller_ok caller g m2) by (eapply caller_moves; [exact Hc|]; exact (moves_on_trans _ _ _ _ _ _ Hsn Hmv2)).
      destruct (new_contract_ok g m2 caller addr (Some value) gas c g2 addr) as (Hsh & Hmvn & Eg); auto; [by exists value|].
      assert (evm_ok g2) by apply Hmvn. apply call_tail; auto; try lia. by eapply moves_on_trans. }
    match goal with |- context [if ?b then Transfer _ _ _ else _] => destruct b end; [|by apply K2].
    eapply transfer_wp; [done..|apply Hc1|lia|done| |].
    - intros Hr. split; [by apply Hst|done].
    - intros m2 Hmv2 Hx2. apply K2; [|done]. by eapply moves_on_trans. }
  destruct known.
  { apply K; [by apply moves_refl|by apply Hk|done]. }
  simpl. split; [exact I|]. intros [] m1 H1. apply K.
  - split_and!; [by apply erel_refl|exact (ev_mrel _ (EvCreateAccount addr) m0 _ _ Hm0 H1 I)|]. intros _ Hr. rewrite (Hst Hr) in Eskip.
    destruct H1 as (res & [= <- <-] & _). constructor; try done. intros a Hpc. simpl. unfold fn_set. destruct (decide (a = addr)) as [->|]; [|done].
    rewrite bool_decide_eq_true_2 in Eskip by done. done.
  - destruct H1 as (res & [= <- <-] & _). unfold exists_at. simpl. rewrite fn_set_eq. eauto.
  - destruct H1 as (res & [= <- <-] & _). unfold acct_at. simpl. unfold fn_set. destruct (decide (ref_Address caller = addr)) as [->|]; done.
Qed.

Lemma evm_CallCode_wp caller addr input gas value g m : caller_ok caller g m -> small input -> is_u64 gas -> gas < N -> 0 <= value ->
  evm_ok g -> machine_ok m ->
  wp ev_pre ev_post (evm_CallCode cfg rec caller addr input gas value g) (call_post gas g m) m.
Proof.
  intros Hc Hi Hgas HN Hv Hg Hm. pose proof Hgas as [Hgas0 _]. unfold evm_CallCode. destruct (NoRecursion cfg && _); [early|].
  destruct (evm_depth g >? CallCreateDepth); [early|].
  apply can_transfer_wp; [done|early|]. intros Hb. cbn [negb]. pose proof (snapshot_moves g m Hg Hm) as Hsn. apply snapshot_wp.
  destruct (new_contract g caller (ref_Address caller) (Some value) gas) as [c g2] eqn:En. assert (machine_ok (snapshot_of m)) by apply Hsn.
  assert (caller_ok caller g (snapshot_of m)) as Hc1 by (by eapply caller_moves).
  destruct (new_contract_ok g (snapshot_of m) caller (ref_Address caller) (Some value) gas c g2 addr) as (Hsh & Hmvn & Eg); auto; [apply Hc|by exists value|left; apply Hc1|].
  assert (evm_ok g2) by apply Hmvn. apply call_tail; auto; lia.
Qed.

(** A delegate call is only possible from a contract. *)
Lemma evm_DelegateCall_wp c0 addr input gas g m : contract_ok c0 g m -> exists_at m (c_self c0) -> small input -> is_u64 gas -> gas < N ->
  evm_ok g -> machine_ok m ->
  wp ev_pre ev_post (evm_DelegateCall cfg rec (ContractOf c0) addr input gas g) (call_post gas g m) m.
Proof.
  intros Hc Hx Hi Hgas HN Hg Hm. pose proof Hgas as [Hgas0 _]. unfold evm_DelegateCall. destruct (NoRecursion cfg && _); [early|].
  destruct (evm_depth g >? CallCreateDepth); [early|]. pose proof (snapshot_moves g m Hg Hm) as Hsn. apply snapshot_wp.
  assert (machine_ok (snapshot_of m)) by apply Hsn. assert (contract_ok c0 g (snapshot_of m)) as Hc1 by (by eapply contract_moves).
  destruct (new_contract g (ContractOf c0) (ref_Address (ContractOf c0)) None gas) as [c g2] eqn:En.
  assert (g2 = g) as -> by (unfold new_contract, NewContract in En; simplify_eq; by destruct g).
  destruct (AsDelegate_ok c c0 g (snapshot_of m) addr gas) as (c' & -> & Hsh & Eg); auto. apply call_tail; auto; try lia. by apply moves_refl.
Qed.

Lemma moves_readOnly g m g' m' : moves_on (with_readOnly g true) m g' m' -> erel g (with_readOnly g' (evm_readOnly g)).
Proof. intros ([Hok H1 H2 H3 H4] & _ & _). constructor; simpl in *; auto. destruct Hok. by constructor. Qed.

(** With pure native contracts, a static call changes nothing. *)
Lemma evm_StaticCall_wp caller addr input gas g m : caller_ok caller g m -> bytes_ok addr -> small input -> is_u64 gas -> gas < N ->
  evm_ok g -> machine_ok m ->
  wp ev_pre ev_post (evm_StaticCall cfg rec caller addr input gas g) (fun x m' => call_post gas g m x m' /\ (all_pure -> quiet m m')) m.
Proof.
  intros Hc Ha Hi Hgas HN Hg Hm. pose proof Hgas as [Hgas0 _]. unfold evm_StaticCall.
  destruct (NoRecursion cfg && _); [split; [early|intros; apply quiet_refl]|].
  destruct (evm_depth g >? CallCreateDepth); [split; [early|intros; apply quiet_refl]|].
  set (g1 := with_readOnly g true). assert (evm_ok g1) as Hg1 by (destruct Hg; by constructor).
  pose proof (snapshot_moves g1 m Hg1 Hm) as Hsn. apply snapshot_wp. assert (machine_ok (snapshot_of m)) by apply Hsn.
  destruct (new_contract g1 caller addr (Some 0) gas) as [c g2] eqn:En.
  assert (caller_ok caller g1 (snapshot_of m)) as Hc1.
  { eapply (caller_moves _ g1 m); [|done]. destruct Hc as [H1 H2 H3]. constructor; auto. intros c0 E. destruct (H3 c0 E). by constructor. }
  destruct (new_contract_ok g1 (snapshot_of m) caller addr (Some 0) gas c g2 addr) as (Hsh & Hmvn & Eg); auto; [by exists 0|].
  assert (evm_ok g2) by apply Hmvn. rewrite <- Eg in *.
  pose proof (call_tail c addr input (c_Gas c) g1 g2 m (snapshot_of m) Hm Hsh Hi ltac:(done) ltac:(done) HN ltac:(lia) Hmvn Hsn) as Ht.
  eapply wp_assoc; [exact Ht|]. intros [[[ret leftOver] err] g3] m3 (Hr & Hl & Hmv & Herr). simpl. pose proof Hmv as (_ & Hmr & Hq).
  split; [split_and!; auto; [apply Hl|apply Hl| |apply Herr|apply Herr]|intros Hp; by apply Hq]. split_and!; [by eapply moves_readOnly|done|]. intros Hp _. by apply Hq.
Qed.
End Calls.

Section Create.
Context `{HPL : PrecompileLaws} (cfg : Config) (N : Z) (rec : Runner) (Hrec : runner_ok N rec) (HLim : N <= pc_limit).

Definition create_post (gas : Z) (g : EVM) (m : machine) (x : bytes * address * Z * option vm_err * EVM) (m' : machine) : Prop :=
  let '(ret, addr, leftOver, err, g') := x in small ret /\ bytes_ok addr /\ 0 <= leftOver <= gas /\ moves_on g m g' m'.

(** Outside of read-only calls only soundness of the state matters. *)
Lemma moves_write g m m' : evm_ok g -> evm_readOnly g = false -> mrel m m' -> moves_on g m g m'.
Proof. intros Hg Hr Hm. split_and!; [by apply erel_refl|done|]. intros _ Hst. congruence. Qed.

Lemma end_create_wp gas addr c g m x m' : machine_ok m -> evm_readOnly g = false -> bytes_ok addr -> c_Gas c <= gas -> run_post c g (snapshot_of m) x m' -> moves_on g m x.2 m' ->
  wp ev_pre ev_post (end_create (m_next m) addr x) (create_post gas g m) m'.
Proof.
  destruct x as [[[ret err] c'] g']. intros Hm Hro Ha Hgas (Hr & Hc & Hmv) Hall. simpl in Hall. unfold end_create, UseGas.
  pose proof Hmv as (He & Hmr & _). assert (evm_readOnly g' = false) as Hro' by (rewrite (er_readOnly _ _ He); done).
  assert (evm_ok g') as Hg' by apply He. assert (machine_ok m') as Hm' by apply Hmr.
  (* the part that reverts *)
  assert (forall (big : bool) e k m1, 0 <= c_Gas k <= gas -> mrel (snapshot_of m) m1 -> moves_on g m g' m1 ->
    wp ev_pre ev_post (do c0 <- (if big || negb (bool_decide (e = None)) then do! call (EvRevertToSnapshot (m_next m));
        Return (if decide (e = Some errExecutionReverted) then k else (UseGas k (c_Gas k)).2) else Return k);
      let err := if big && bool_decide (e = None) then Some errMaxCodeSizeExceeded else e in Return (ret, addr, c_Gas c0, err, g')) (create_post gas g m) m1) as K.
  { intros big e k m1 Hk Hm1 Hall1. destruct (big || _); simpl; [|split_and!; auto; apply Hk].
    destruct (revert_snapshot m m1 Hm Hm1) as [Hpre Hpost]. split; [exact Hpre|]. intros r m2 Hrev. rewrite (Hpost r m2 Hrev). simpl.
    pose proof (reverted_moves g m g' m1 Hm He Hm1). unfold UseGas.
    destruct (decide _); simpl; [split_and!; auto; apply Hk|]. rewrite (proj2 (Z.ltb_ge _ _)) by lia. simpl. split_and!; auto; lia. }
  pose proof (u64_range (zlen ret * CreateDataGas)) as HU. unfold is_u64 in HU.
  destruct (bool_decide (err = None) && negb (zlen ret >? MaxCodeSize)) eqn:E; [|apply (K _ err c' m'); auto; lia].
  destruct (Z.ltb_spec (c_Gas c') (u64 (zlen ret * CreateDataGas))); [apply (K _ (Some ErrCodeStoreOutOfGas) c' m'); auto; lia|].
  cbn [pbind call wp]. split; [exact I|]. intros [] m1 H1. pose proof (ev_mrel _ (EvSetCode addr ret) m' tt m1 Hm' H1 Hr) as M1.
  apply (K _ err (with_gas c' _) m1); simpl; [lia|by eapply mrel_trans|]. eapply moves_on_trans; [exact Hall|]. by apply moves_write.
Qed.

Lemma CreateAddress_bytes a n : bytes_ok (CreateAddress a n).
Proof. unfold CreateAddress. apply BytesToAddress_bytes, Forall_drop, Keccak256_ok. Qed.

Lemma event_wp {A R} (e : vm_ev R) (k : R -> prog A) Q m : ev_pre R e m -> (forall r m', ev_post R e m r m' -> wp ev_pre ev_post (k r) Q m') ->
  wp ev_pre ev_post (pbind (call e) k) Q m.
Proof. intros Hpre Hk. cbn [pbind call wp]. auto. Qed.

Lemma evm_Create_wp caller code gas value g m : caller_ok caller g m -> small code -> is_u64 gas -> gas < N -> 0 <= value -> evm_readOnly g = false ->
  evm_ok g -> machine_ok m -> wp ev_pre ev_post (evm_Create cfg rec caller code gas value g) (create_post gas g m) m.
Proof.
  intros Hc Hcode Hgas HN Hv Hro Hg Hm. pose proof Hgas as [Hgas0 _]. unfold evm_Create.
  assert (bytes_ok zero_address) as Hz by apply zeros_ok.
  assert (forall left err m', moves_on g m g m' -> 0 <= left <= gas -> create_post gas g m ([], zero_address, left, err, g) m') as Hearly
    by (intros; split_and!; auto using small_nil; lia).
  destruct (evm_depth g >? CallCreateDepth); [apply Hearly; [by apply moves_refl|lia]|].
  apply can_transfer_wp; [done|apply Hearly; [by apply moves_refl|lia]|]. intros Hb. cbn [negb].
  apply event_wp; [exact I|]. intros nonce m1 H1. pose proof (ev_reads_same _ (EvGetNonce _) _ _ _ eq_refl H1) as ->. clear H1.
  apply event_wp; [exact I|]. intros [] m1 H1. pose proof (ev_mrel _ (EvSetNonce _ _) m tt m1 Hm H1 I) as M1.
  assert (a_balance (acct_at (m_world m1) (ref_Address caller)) = a_balance (acct_at (m_world m) (ref_Address caller))) as Eb1.
  { destruct H1 as (res & [= <- <-] & _). unfold acct_at at 1. simpl. by rewrite fn_set_eq. }
  set (addr := CreateAddress (ref_Address caller) nonce). pose proof (CreateAddress_bytes (ref_Address caller) nonce) as Ha. fold addr in Ha.
  apply event_wp; [exact I|]. intros empty m2 H2. pose proof (ev_reads_same _ (EvEmpty _) _ _ _ eq_refl H2) as ->. clear H2.
  pose proof (moves_write g m m1 Hg Hro M1) as Hmv1. destruct empty; cbn [negb]; [|apply Hearly; [done|lia]].
  assert (machine_ok m1) as Hm1 by apply M1. pose proof (snapshot_moves g m1 Hg Hm1) as Hsn. apply snapshot_wp. set (ms := snapshot_of m1) in *.
  assert (machine_ok ms) as Hms by apply Hsn.
  apply event_wp; [exact I|]. intros [] m2 H2. pose proof (ev_mrel _ (EvCreateAccount _) ms tt m2 Hms H2 I) as M2. assert (machine_ok m2) as Hm2 by apply M2.
  assert (exists_at m2 addr /\ a_balance (acct_at (m_world m2) (ref_Address caller)) = a_balance (acct_at (m_world m) (ref_Address caller))) as [Hx2 Eb2].
  { rewrite <- Eb1. destruct H2 as (res & [= <- <-] & _). unfold exists_at. simpl. rewrite fn_set_eq. split; [eauto|].
    unfold acct_at at 1. simpl. unfold fn_set. by destruct (decide (ref_Address caller = addr)) as [->|]. }
  apply event_wp; [exact I|]. intros [] m3 H3. pose proof (ev_mrel _ (EvSetNonce _ _) m2 tt m3 Hm2 H3 I) as M3. assert (machine_ok m3) as Hm3 by apply M3.
  assert (a_balance (acct_at (m_world m3) (ref_Address caller)) = a_balance (acct_at (m_world m) (ref_Address caller))) as Eb3.
  { rewrite <- Eb2. destruct H3 as (res & [= <- <-] & _). unfold acct_at at 1. simpl. unfold fn_set. destruct (decide (ref_Address caller = addr)) as [->|]; done. }
  assert (moves_on g ms g m3) as Hmv3 by (apply moves_write; [done..|by eapply mrel_trans]).
  assert (moves_on g m g m3) as Hmv03 by (eapply moves_on_trans; [exact Hmv1|]; eapply moves_on_trans; [exact Hsn|exact Hmv3]).
  eapply (transfer_wp _ _ _ _ _ g); [done|done|by apply (caller_moves _ _ _ _ _ Hc Hmv03)|lia|done|congruence|]. intros m4 Hmv4 Hx4.
  assert (machine_ok m4) as Hm4 by apply Hmv4. assert (moves_on g ms g m4) as Hmvs4 by exact (moves_on_trans _ _ _ _ _ _ Hmv3 Hmv4).
  assert (moves_on g m g m4) as Hmv04 by exact (moves_on_trans _ _ _ _ _ _ Hmv03 Hmv4).
  destruct (new_contract g caller addr (Some value) gas) as [c g2] eqn:En.
  destruct (new_contract_ok g m4 caller addr (Some value) gas c g2 addr) as (Hsh & Hmvn & Eg); auto; [by apply (caller_moves _ _ _ _ _ Hc Hmv04)|by exists value|].
  assert (evm_ok g2) as Hg2 by apply Hmvn. pose proof (seen_moves g2 m4 code Hg2 Hm4) as Hseen. cbv zeta.
  assert (moves_on g m4 (with_code_seen g2 code) m4) as Hmvc by exact (moves_on_trans _ _ _ _ _ _ Hmvn Hseen).
  destruct (NoRecursion cfg && _).
  { split_and!; auto using small_nil; [lia..|]. exact (moves_on_trans _ _ _ _ _ _ Hmv04 Hmvc). }
  eapply wp_seq; [apply (run_contract_wp N rec Hrec HLim); [|apply small_nil|apply Hseen|done|]|].
  - by apply shell_contract.
  - simpl. lia.
  - intros x m' Hpost. assert (run_post c g ms x m' /\ moves_on g m x.2 m') as [P1 P2].
    { destruct x as [[[ret err] c'] g']. destruct Hpost as (Hr & Hgs & Hmv').
      assert (moves_on g m4 g' m') as Hmv4' by exact (moves_on_trans _ _ _ _ _ _ Hmvc Hmv'). split; [|exact (moves_on_trans _ _ _ _ _ _ Hmv04 Hmv4')].
      split_and!; auto; [apply Hgs..|]. exact (moves_on_trans _ _ _ _ _ _ Hmvs4 Hmv4'). }
    destruct x as [[[ret err] c'] g'].
    assert (moves_on g m1 g' m') as P3.
    { destruct P1 as (_ & _ & P1). exact (moves_on_trans _ _ _ _ _ _ Hsn P1). }
    eapply wp_conseq; [apply (end_create_wp gas addr c g m1); auto; lia|].
    intros [[[[ret' addr'] left'] err'] g''] m'' (H1' & H2' & H3' & H4'). split_and!; auto; [apply H3'..|]. exact (moves_on_trans _ _ _ _ _ _ Hmv1 H4').
Qed.
End Create.
