(* ===== verification/VmLoop.v ===== *)
(** The instructions that call: their costs, their execution, and one iteration of
    the interpreter for each of them. *)
From S2P Require Import Prelude RlpEncode RlpDecode RlpRaw Storage IstanbulTypes ValidatorSet Trie StateDB StateSpec StateTheorems BigMath VmProg VmData VmCore VmInterp VmJump VmInv VmExec VmStep VmSafe.

(** ** Costs *)

(** The gas a call may give to its callee, from the operands: the first one, and a
    stipend when a value is sent. *)
Definition stipend (v : Z) : Z := if v =? 0 then 0 else CallStipend.
Definition gas_only (st : list Z) : Z := default 0 (st !! 0%nat).
Definition gas_and_stipend (st : list Z) : Z := gas_only st + stipend (default 0 (st !! 2%nat)).
Definition nothing_more (st : list Z) : Z := 0.

Section Gas.
Context `{HPL : PrecompileLaws}.

(** The cost is more than what the callee gets, which is put on the stack. *)
Definition call_gas_post (extra : list Z -> Z) (n : Z) (f : frame) (g : EVM) (m : machine) (x : (Z + vm_err) * frame * EVM) (m' : machine) : Prop :=
  let '(r, f', g') := x in
  g' = g /\ m' = m /\ f_contract f' = f_contract f /\ f_pc f' = f_pc f /\
  match r with
  | inl cost => exists cg, f_stack f' = <[0%nat := cg]> (f_stack f) /\ 0 <= cg /\ 0 <= extra (f_stack f') < cost /\ is_u64 cost /\ mem_ready (f_mem f') n
  | inr _ => True
  end.

Definition call_gas_spec (gf : gasFunc) (pops : nat) (extra : list Z -> Z) : Prop :=
  forall f g m n, frame_ok f g m -> evm_ok g -> machine_ok m -> (pops <= length (f_stack f))%nat -> 0 <= n -> (32 | n) ->
  wp ev_pre ev_post (gf chain_GasTable n f g) (call_gas_post extra n f g m) m.

Lemma call_gas_error extra n f g m e f' : f_contract f' = f_contract f -> f_pc f' = f_pc f -> call_gas_post extra n f g m (inr e, f', g) m.
Proof. intros. simpl. auto. Qed.

Lemma callGas_range gas base requested : is_u64 gas -> 0 <= requested -> is_u64 base -> exists cg, callGas chain_GasTable gas base requested = (cg, None) /\ is_u64 cg.
Proof.
  intros Hg Hr Hb. unfold callGas. change (CreateBySuicide chain_GasTable >? 0) with true. cbv zeta iota. pose proof (u64_range (gas - base)) as [H1 H2].
  pose proof (Z.div_le_upper_bound (u64 (gas - base)) 64 (u64 (gas - base)) ltac:(lia) ltac:(lia)). pose proof (Z.div_pos (u64 (gas - base)) 64 H1 ltac:(lia)).
  destruct (big_BitLen requested >? 64) eqn:E; simpl; [eexists; split; [done|unfold is_u64; lia]|].
  destruct (_ <? _); eexists; (split; [done|]); [unfold is_u64; lia|apply u64_range].
Qed.

Lemma call_gas_wp extra base n f0 f g m : frame_ok f0 g m -> f_stack f = f_stack f0 -> f_contract f = f_contract f0 -> f_pc f = f_pc f0 ->
  (1 <= length (f_stack f0))%nat -> is_u64 base -> mem_ready (f_mem f) n ->
  (forall cg, is_u64 cg -> 0 <= extra (<[0%nat := cg]> (f_stack f0)) < base + cg) ->
  wp ev_pre ev_post (call_gas chain_GasTable base f g) (call_gas_post extra n f0 g m) m.
Proof.
  intros Hf Es Ec Ep Hl Hb Hr Hx. unfold call_gas. run_vm. apply back_wp; rewrite ?Es; [lia|apply Hf|]. intros x _ H0.
  assert (is_u64 (c_Gas (f_contract f0))) as Hgas by apply Hf. rewrite Ec.
  destruct (callGas_range (c_Gas (f_contract f0)) base x) as (cg & -> & Hcg); [done..|]. run_vm.
  apply checked_last; [|by apply call_gas_error]. intros E. apply SafeAdd_fits in E as [-> Hs]; [|done..]. simpl. rewrite Es.
  split_and!; auto. exists cg. split_and!; auto; try apply Hx; auto; apply Hcg.
Qed.

Lemma gas_only_insert cg st : (1 <= length st)%nat -> gas_only (<[0%nat := cg]> st) = cg.
Proof. intros Hl. unfold gas_only. by rewrite list_lookup_insert_eq. Qed.

Lemma stipend_insert cg st : (3 <= length st)%nat -> gas_and_stipend (<[0%nat := cg]> st) = cg + stipend (default 0 (st !! 2%nat)).
Proof. intros Hl. unfold gas_and_stipend. by rewrite gas_only_insert, list_lookup_insert_ne by lia. Qed.

Lemma stipend_range v : 0 <= stipend v <= CallStipend.
Proof. unfold stipend. by destruct (v =? 0). Qed.

(** [DELEGATECALL] and [STATICCALL] *)
Lemma gasDelegateCall_ok pops : (1 <= pops)%nat -> call_gas_spec gasDelegateCall pops gas_only.
Proof.
  intros Hp f g m n Hf Hg Hm Hlen Hn Hd. unfold gasDelegateCall. apply memoryGasCost_wp; [apply Hf|done..| |intros; by apply call_gas_error].
  intros fee mem' Hfee Hr. apply checked_wp; [|by apply call_gas_error]. intros E. apply SafeAdd_fits in E as [-> Hs]; [|done..].
  apply call_gas_wp; auto; [lia|]. intros cg [Hcg _]. rewrite gas_only_insert by lia. destruct Hfee. change (Calls chain_GasTable) with 700. lia.
Qed.

(** [CALL] and [CALLCODE], from the charge for memory on. *)
Lemma value_gas_wp base n pops v f g m : frame_ok f g m -> (3 <= pops)%nat -> (pops <= length (f_stack f))%nat -> 0 <= n -> (32 | n) ->
  f_stack f !! 2%nat = Some v -> is_u64 base -> stipend v < base ->
  wp ev_pre ev_post ((gas~ memoryGas := memoryGasCost n in gas~ gas := checked (SafeAdd base memoryGas) in call_gas chain_GasTable gas) f g)
    (call_gas_post gas_and_stipend n f g m) m.
Proof.
  intros Hf Hp Hlen Hn Hd Ev Hb Hx. apply memoryGasCost_wp; [apply Hf|done..| |intros; by apply call_gas_error].
  intros fee mem' Hfee Hr. apply checked_wp; [|by apply call_gas_error]. intros E. apply SafeAdd_fits in E as [-> Hs]; [|done..].
  apply call_gas_wp; auto; [lia|]. intros cg [Hcg _]. rewrite stipend_insert, Ev by lia. simpl. destruct Hfee. pose proof (stipend_range v). lia.
Qed.

Lemma gasCallCode_ok : call_gas_spec gasCallCode 7 gas_and_stipend.
Proof.
  intros f g m n Hf Hg Hm Hlen Hn Hd. unfold gasCallCode. apply back_wp; [lia|apply Hf|]. intros v Ev Hv. cbv zeta.
  apply (value_gas_wp _ _ 7 v); auto; [by destruct (v =? 0)|]. unfold stipend. by destruct (v =? 0).
Qed.

Lemma gasCall_ok : call_gas_spec gasCall 7 gas_and_stipend.
Proof.
  intros f g m n Hf Hg Hm Hlen Hn Hd. unfold gasCall. apply back_wp; [lia|apply Hf|]. intros v Ev Hv. cbv zeta. apply back_wp; [lia|apply Hf|]. intros a _ _.
  assert (forall new : bool, wp ev_pre ev_post ((let gas := if new then u64 (Calls chain_GasTable + CallNewAccountGas) else Calls chain_GasTable in
     let gas := if negb (v =? 0) then u64 (gas + CallValueTransferGas) else gas in
     gas~ memoryGas := memoryGasCost n in gas~ gas := checked (SafeAdd gas memoryGas) in call_gas chain_GasTable gas) f g) (call_gas_post gas_and_stipend n f g m) m) as K.
  { intros new. cbv zeta. apply (value_gas_wp _ _ 7 v); auto; [by destruct new, (v =? 0)|]. unfold stipend. by destruct new, (v =? 0). }
  destruct (negb (v =? 0)); run_vm; [|apply (K false)]. split; [exact I|]. intros b m1 He.
  pose proof (ev_reads_same _ (EvEmpty _) _ _ _ eq_refl He) as ->. apply K.
Qed.

Lemma gasCreate_ok : call_gas_spec gasCreate 3 nothing_more.
Proof.
  intros f g m n Hf Hg Hm Hlen Hn Hd. unfold gasCreate, mem_gas. apply memoryGasCost_wp; [apply Hf|done..| |intros; by apply call_gas_error].
  intros fee mem' Hfee Hr. apply checked_last; [|by apply call_gas_error]. intros E. apply SafeAdd_fits in E as [-> Hs]; [|done..].
  destruct (lookup_lt_is_Some_2 (f_stack f) 0) as [x Hx]; [lia|]. assert (0 <= x) by (eapply (proj1 (Forall_lookup _ _) (fo_stack _ _ _ Hf)); eauto).
  simpl. split_and!; auto. exists x. rewrite list_insert_id by done. split_and!; auto; unfold nothing_more; [lia|]. destruct Hfee. change CreateGas with 32000. lia.
Qed.
End Gas.

(** ** Execution *)

(** The larger of two regions. *)
Definition need_max (o1 l1 o2 l2 : nat) (st : list Z) : Z := BigMax (need_at o1 l1 st) (need_at o2 l2 st).

Lemma BigMax_ok x y : BigMax x y = Z.max x y.
Proof. unfold BigMax. destruct (Z.ltb_spec x y); lia. Qed.

Section Exec.
Context `{HPL : PrecompileLaws} (cfg : Config) (N : Z) (rec : Runner) (Hrec : runner_ok N rec) (HLim : N <= pc_limit).

(** The gas of the callee that is left comes back. *)
Definition call_exec_post (pops : nat) (extra : list Z -> Z) (f : frame) (g : EVM) (m : machine) (x : bytes * option vm_err * frame * EVM) (m' : machine) : Prop :=
  let '(ret, err, f', g') := x in
  small ret /\ err = None /\ moves_on g m g' m' /\
  (exists n, f_contract f' = with_gas (f_contract f) n /\ 0 <= n <= c_Gas (f_contract f) + extra (f_stack f)) /\
  mem_ok (f_mem f') /\ nonneg (f_stack f') /\ (length (f_stack f') + pops = length (f_stack f) + 1)%nat /\ f_pc f' = f_pc f.

(** [allowed] is what read-only calls are restricted to. *)
Definition call_exec_ok (ex : executionFunc) (pops : nat) (need extra : list Z -> Z) (allowed : bool -> list Z -> Prop) : Prop :=
  forall f g m, frame_ok f g m -> evm_ok g -> machine_ok m -> (pops <= length (f_stack f))%nat -> need (f_stack f) <= mem_Len (f_mem f) ->
  allowed (evm_readOnly g) (f_stack f) -> c_Gas (f_contract f) + extra (f_stack f) < 2 ^ 64 -> c_Gas (f_contract f) + extra (f_stack f) < N ->
  wp ev_pre ev_post (ex f g) (call_exec_post pops extra f g m) m.

Definition always (readOnly : bool) (st : list Z) : Prop := True.
Definition no_value (readOnly : bool) (st : list Z) : Prop := readOnly = true -> default 0 (st !! 2%nat) = 0.
Definition never (readOnly : bool) (st : list Z) : Prop := readOnly = false.

Lemma icall_wp {A B} (p : EVM -> prog (A * EVM)) (k : A -> IM B) P Q f g m : wp ev_pre ev_post (p g) P m ->
  (forall a g' m', P (a, g') m' -> wp ev_pre ev_post (k a f g') Q m') -> wp ev_pre ev_post (ibind (icall p) k f g) Q m.
Proof.
  intros Hp Hk. unfold ibind, icall. apply wp_then, wp_then. eapply wp_conseq; [exact Hp|]. intros [a g'] m' Hpost. run_vm. by apply Hk.
Qed.

Lemma contract_caller c g m : contract_ok c g m -> c_Code c <> [] -> caller_ok (ContractOf c) g m.
Proof. intros Hc Hne. constructor; simpl; [apply Hc|by apply Hc|]. by intros c' [= <-]. Qed.

(** After the call: the result on the stack, its bytes in memory, the gas back. *)
Lemma after_call_wp ret left err retOffset retSize pops extra f0 pc st mem c g m g1 m1 : call_post (extra (f_stack f0)) g m (ret, left, err, g1) m1 ->
  f_contract f0 = c -> f_pc f0 = pc -> nonneg st -> mem_ok mem -> 0 <= retOffset -> 0 <= retSize -> calcMemSize retOffset retSize <= mem_Len mem -> 0 <= c_Gas c ->
  c_Gas c + extra (f_stack f0) < 2 ^ 64 -> (length st + pops = length (f_stack f0))%nat ->
  wp ev_pre ev_post (after_call retOffset retSize (ret, left, err) (mkFrame pc st mem c) g1) (call_exec_post pops extra f0 g m) m1.
Proof.
  intros (Hr & Hl & Hmv & _) Ec Ep Hst Hmem Ho Hs Hn H0 Hg Hlen. unfold after_call. run_vm.
  assert (forall mem', mem_ok mem' -> wp ev_pre ev_post ((let~! add_gas left in iret (ret, None)) (mkFrame pc ((match err with Some _ => 0 | None => 1 end) :: st) mem' c) g1)
    (call_exec_post pops extra f0 g m) m1) as K.
  { intros mem' Hmem'. unfold add_gas. run_vm. split_and!; auto; cbn [f_stack f_contract f_mem f_pc]; try lia.
    - eexists. rewrite Ec. split; [done|]. rewrite u64_id by (unfold is_u64; lia). lia.
    - apply Forall_cons. split; [by destruct err|done].
    - simpl. lia. }
  destruct (_ || _); run_vm; [|by apply K]. destruct (mem_Set_ok mem Hmem retOffset retSize ret) as (mem' & -> & Hmem'); [done..|apply Hr|]. run_vm. by apply K.
Qed.

(** Running an instruction that calls: open the frame with its operands. *)
Ltac open_call :=
  intros f g m Hf Hg Hm Hlen Hneed Hallow Hgas HN; destruct f as [pc st mem c], Hf as [Fpc Fst Flim Fmem Fcode Fc]; cbn [f_pc f_stack f_mem f_contract] in *;
  repeat match goal with
  | H : (S _ <= length ?st)%nat |- _ => destruct st as [|? ?]; [simpl in H; lia|]; apply Forall_cons in Fst as [? Fst]; simpl in H; apply le_S_n in H
  end.

Lemma callee_gas gas v : 0 <= gas -> gas + stipend v < 2 ^ 64 -> 
  let given := if negb (U256 v =? 0) then u64 (big_Uint64 gas + CallStipend) else big_Uint64 gas in is_u64 given /\ given <= gas + stipend v.
Proof.
  intros Hg Hs. pose proof (stipend_range v). rewrite big_Uint64_id by (unfold is_u64; lia). cbv zeta. destruct (Z.eqb_spec (U256 v) 0); simpl.
  - unfold is_u64. lia.
  - assert (stipend v = CallStipend) as E. { unfold stipend. destruct (Z.eqb_spec v 0); [by subst v|done]. }
    rewrite E in *. change CallStipend with 2300 in *. rewrite u64_id by (unfold is_u64; lia). unfold is_u64. lia.
Qed.

Lemma call_post_le gas gas' g m x m' : call_post gas g m x m' -> gas <= gas' -> call_post gas' g m x m'.
Proof. destruct x as [[[ret left] err] g']. intros (H1 & H2 & H3) Hle. split_and!; auto; try lia; apply H3. Qed.

Lemma need_max_both o1 l1 o2 l2 st n : need_max o1 l1 o2 l2 st <= n -> need_at o1 l1 st <= n /\ need_at o2 l2 st <= n.
Proof. unfold need_max. rewrite BigMax_ok. lia. Qed.

Lemma opCall_ok : call_exec_ok (opCall cfg rec) 7 (need_max 5 6 3 4) gas_and_stipend no_value.
Proof.
  open_call. unfold opCall. run_vm. apply need_max_both in Hneed as [Hret Harg]. unfold no_value, gas_and_stipend, gas_only in *. cbn in Hret, Harg, Hallow, Hgas, HN.
  destruct (mem_Get_ok mem Fmem z2 z3) as (args & -> & Hargs); [done..|]. run_vm. norm_frame.
  assert (is_u64 (c_Gas c)) as [C0 _] by apply Fc. pose proof (stipend_range z1). destruct (callee_gas z z1) as [G1 G2]; [done|lia|].
  eapply icall_wp; [apply (evm_Call_wp cfg N rec Hrec HLim)|]; auto.
  - by apply contract_caller.
  - apply BigToAddress_bytes.
  - lia.
  - apply U256_nonneg.
  - intros Hr. by rewrite (Hallow Hr).
  - intros [[ret left] err] g1 m1 Hcall. eapply after_call_wp; auto; try (simpl; lia). eapply call_post_le; [exact Hcall|]. exact G2.
Qed.

Lemma opCallCode_ok : call_exec_ok (opCallCode cfg rec) 7 (need_max 5 6 3 4) gas_and_stipend always.
Proof.
  open_call. unfold opCallCode. run_vm. apply need_max_both in Hneed as [Hret Harg]. unfold gas_and_stipend, gas_only in *. cbn in Hret, Harg, Hgas, HN.
  destruct (mem_Get_ok mem Fmem z2 z3) as (args & -> & Hargs); [done..|]. run_vm. norm_frame.
  assert (is_u64 (c_Gas c)) as [C0 _] by apply Fc. pose proof (stipend_range z1). destruct (callee_gas z z1) as [G1 G2]; [done|lia|].
  eapply icall_wp; [apply (evm_CallCode_wp cfg N rec Hrec HLim)|]; auto.
  - by apply contract_caller.
  - lia.
  - apply U256_nonneg.
  - intros [[ret left] err] g1 m1 Hcall. eapply after_call_wp; auto; try (simpl; lia). eapply call_post_le; [exact Hcall|]. exact G2.
Qed.

Lemma opDelegateCall_ok : call_exec_ok (opDelegateCall cfg rec) 6 (need_max 4 5 2 3) gas_only always.
Proof.
  open_call. unfold opDelegateCall. run_vm. apply need_max_both in Hneed as [Hret Harg]. unfold gas_only in *. cbn in Hret, Harg, Hgas, HN.
  destruct (mem_Get_ok mem Fmem z1 z2) as (args & -> & Hargs); [done..|]. run_vm. norm_frame.
  assert (is_u64 (c_Gas c)) as [C0 _] by apply Fc. rewrite (big_Uint64_id z) by (unfold is_u64; lia).
  eapply icall_wp; [apply (evm_DelegateCall_wp cfg N rec Hrec HLim)|]; auto; [by apply Fc|unfold is_u64; lia|lia|].
  intros [[ret left] err] g1 m1 Hcall. eapply after_call_wp; eauto; simpl; lia.
Qed.

Lemma opStaticCall_ok : call_exec_ok (opStaticCall cfg rec) 6 (need_max 4 5 2 3) gas_only always.
Proof.
  open_call. unfold opStaticCall. run_vm. apply need_max_both in Hneed as [Hret Harg]. unfold gas_only in *. cbn in Hret, Harg, Hgas, HN.
  destruct (mem_Get_ok mem Fmem z1 z2) as (args & -> & Hargs); [done..|]. run_vm. norm_frame.
  assert (is_u64 (c_Gas c)) as [C0 _] by apply Fc. rewrite (big_Uint64_id z) by (unfold is_u64; lia).
  eapply icall_wp; [apply (evm_StaticCall_wp cfg N rec Hrec HLim)|]; auto; [by apply contract_caller|apply BigToAddress_bytes|unfold is_u64; lia|lia|].
  intros [[ret left] err] g1 m1 [Hcall _]. eapply after_call_wp; eauto; simpl; lia.
Qed.

Lemma opCreate_ok : call_exec_ok (opCreate cfg rec) 3 (need_at 1 2) nothing_more never.
Proof.
  open_call. unfold opCreate. run_vm. cbn in Hneed, Hgas, HN. unfold nothing_more in *.
  destruct (mem_Get_ok mem Fmem z0 z1) as (input & -> & Hin); [done..|]. run_vm. norm_frame. pose proof (co_gas _ _ _ Fc) as [C0 C1].
  pose proof (Z.div_pos (c_Gas c) 64 C0 ltac:(lia)). pose proof (Z.div_le_upper_bound (c_Gas c) 64 (c_Gas c) ltac:(lia) ltac:(lia)).
  unfold UseGas. rewrite (proj2 (Z.ltb_ge _ _)) by lia. cbn [snd]. set (gas := c_Gas c - c_Gas c / 64) in *. set (c1 := with_gas c (c_Gas c - gas)).
  assert (contract_ok c1 g m) as Hc1 by (apply contract_with_gas; [done|unfold is_u64; lia]).
  eapply icall_wp; [apply (evm_Create_wp cfg N rec Hrec HLim)|]; auto; [by apply contract_caller|unfold is_u64; lia|lia|].
  intros [[[res addr] left] err] g1 m1 (Hr & Ha & Hl & Hmv). run_vm. unfold add_gas. run_vm.
  assert (forall r, small r -> call_exec_post 3 nothing_more (mkFrame pc (z :: z0 :: z1 :: st) mem c) g m (r, None, set_contract (set_stack (mkFrame pc st mem c1)
    ((match err with Some _ => 0 | None => be_value addr end) :: st)) (with_gas c1 (u64 (c_Gas c1 + left))), g1) m1) as K.
  { intros r Hr'. split_and!; auto; cbn [f_stack f_contract f_mem f_pc set_contract set_stack]; auto.
    - eexists. split; [done|]. unfold nothing_more. simpl. rewrite u64_id by (unfold is_u64; lia). lia.
    - apply Forall_cons. split; [|done]. destruct err; [done|]. by apply be_value_nonneg.
    - simpl. lia. }
  destruct (decide (err = Some errExecutionReverted)); apply K; auto using small_nil.
Qed.
End Exec.

(** ** One iteration *)

Section Step.
Context `{HPL : PrecompileLaws} (cfg : Config) (Hmeter : DisableGasMetering cfg = false).

(** What the restrictions of read-only calls leave. *)
Definition restricts (op : Z) (o : operation) (allowed : bool -> list Z -> Prop) : Prop :=
  forall A (k : option vm_err -> IM A) f g m Q, nonneg (f_stack f) -> (3 <= length (f_stack f))%nat -> (forall e, wp ev_pre ev_post (k (Some e) f g) Q m) ->
  (allowed (evm_readOnly g) (f_stack f) -> wp ev_pre ev_post (k None f g) Q m) -> wp ev_pre ev_post (ibind (enforceRestrictions op o) k f g) Q m.

Lemma restricts_always op o : op <> CALL -> restricts op o always.
Proof. intros Hop A k f g m Q _ _ He Hk. apply restrictions_wp; auto. intros _. by apply Hk. Qed.

Lemma restricts_never op o : op <> CALL -> writes o = true -> restricts op o never.
Proof. intros Hop Hw A k f g m Q _ _ He Hk. apply restrictions_wp; auto. intros Hro. by apply Hk, Hro. Qed.

Lemma restricts_call o : writes o = false -> restricts CALL o no_value.
Proof.
  intros Hw A k f g m Q Hst Hlen He Hk. unfold enforceRestrictions. run_vm. unfold no_value in Hk. destruct (evm_readOnly g); run_vm; [|by apply Hk].
  rewrite Hw. change (CALL =? CALL) with true. cbv iota. destruct (lookup_lt_is_Some_2 (f_stack f) 2) as [v Hv]; [lia|].
  unfold Back. run_vm. rewrite Hv. run_vm. destruct (Z.gtb_spec (big_BitLen v) 0) as [Hb|Hb]; [apply He|]. apply Hk. intros _. rewrite Hv. simpl.
  assert (0 <= v) as H0 by (rewrite Forall_lookup in Hst; by eapply Hst). apply big_BitLen_bound in Hb; lia.
Qed.

Lemma charge_call_wp {A} o pops extra n (k : option vm_err -> IM A) f g m Q : call_gas_spec (gasCost o) pops extra ->
  frame_ok f g m -> evm_ok g -> machine_ok m -> (pops <= length (f_stack f))%nat -> 0 <= n -> (32 | n) ->
  (forall e f', f_contract f' = f_contract f -> wp ev_pre ev_post (k (Some e) f' g) Q m) ->
  (forall cost cg mem', cost <= c_Gas (f_contract f) -> 0 <= cg -> 0 <= extra (<[0%nat := cg]> (f_stack f)) < cost -> mem_ready mem' n ->
    wp ev_pre ev_post (k None (mkFrame (f_pc f) (<[0%nat := cg]> (f_stack f)) mem' (with_gas (f_contract f) (c_Gas (f_contract f) - cost))) g) Q m) ->
  wp ev_pre ev_post (ibind (charge cfg o n) k f g) Q m.
Proof.
  intros Hgas Hf Hg Hm Hlen Hn Hd He Hk. unfold charge. rewrite Hmeter. unfold ibind at 1 2. cbn [negb]. apply wp_then, wp_then.
  eapply wp_conseq; [by apply (Hgas f g m n)|].
  intros [[r f1] g1] m1 (-> & -> & E1 & E2 & Hr). destruct r as [cost|e]; run_vm; [|by apply He]. destruct Hr as (cg & E3 & Hcg & Hx & Hc & Hready).
  unfold UseGas. rewrite E1. destruct (Z.ltb_spec (c_Gas (f_contract f)) cost); run_vm; [by apply He|].
  unfold set_contract. rewrite E2, E3. apply Hk; auto. by rewrite <- E3.
Qed.

(** The end of an iteration with a call. *)
Lemma perform_call_wp N o pops need extra allowed f0 f g m : call_exec_ok N (execute o) pops need extra allowed -> jumps o = false -> halts o || reverts o = false ->
  frame_ok f g m -> evm_ok g -> machine_ok m -> (1 <= pops <= length (f_stack f))%nat -> f_pc f < zlen (c_Code (f_contract f)) ->
  need (f_stack f) <= mem_Len (f_mem f) -> allowed (evm_readOnly g) (f_stack f) ->
  c_Gas (f_contract f) + extra (f_stack f) < c_Gas (f_contract f0) -> c_Gas (f_contract f0) <= N -> is_u64 (c_Gas (f_contract f0)) ->
  wp ev_pre ev_post (perform o f g) (step_post f0 g m) m.
Proof.
  intros Hex Hj Hh Hf Hg Hm Hlen Hpc Hneed Ha Hlt HN Hu. unfold perform. unfold ibind at 1. unfold is_u64 in Hu.
  eapply wp_seq; [apply Hex; auto; lia|]. intros [[[ret err] f'] g'] m' (Hr & -> & Hmv & (gas & Ec & Hgas) & Hmem & Hst & Hl & Ep).
  set (g2 := if returns o then with_returnData g' ret else g').
  assert (moves_on g m g2 m') as Hmv2 by (subst g2; destruct (returns o); auto using moves_return).
  assert (forall k : unit -> IM flow, wp ev_pre ev_post (k tt f' g2) (step_post f0 g m) m' ->
    wp ev_pre ev_post (ibind (if returns o then let~ g := get_evm in put_evm (with_returnData g ret) else iret tt) k f' g') (step_post f0 g m) m') as K
    by (intros k; subst g2; destruct (returns o); by run_vm).
  apply K. clear K. apply orb_false_iff in Hh as [-> ->]. rewrite Hj. cbn [negb]. run_vm. destruct Hf as [Fpc _ Flim _ Fcode Fc].
  assert (zlen (c_Code (f_contract f)) < 2 ^ 62) by apply Fc. split_and!; auto; simpl; rewrite ?Ec; simpl; [unfold is_u64; lia| |lia].
  constructor; simpl; rewrite ?Ec; auto.
  - rewrite Ep, u64_id by (unfold is_u64; lia). simpl. lia.
  - unfold zlen in *. lia.
  - simpl. apply contract_with_gas; [|unfold is_u64; lia]. by apply (contract_moves _ g m).
Qed.

Lemma step_call N op o pops need extra allowed : validateStack o = makeStackFunc (Z.of_nat pops) 1 -> (3 <= pops)%nat -> restricts op o allowed ->
  mem_spec o pops need -> (forall st cg, need (<[0%nat := cg]> st) = need st) -> (forall b st cg, allowed b st -> allowed b (<[0%nat := cg]> st)) ->
  call_gas_spec (gasCost o) pops extra -> call_exec_ok N (execute o) pops need extra allowed -> jumps o = false -> halts o || reverts o = false ->
  forall f g m, frame_ok f g m -> evm_ok g -> machine_ok m -> f_pc f < zlen (c_Code (f_contract f)) -> c_Gas (f_contract f) <= N ->
  wp ev_pre ev_post (step_operation cfg op o f g) (step_post f g m) m.
Proof.
  intros Hv Hp Hres Hms Hni Hai Hgas Hex Hj Hh f g m Hf Hg Hm Hpc HN. unfold step_operation. run_vm. rewrite Hv.
  destruct (makeStackFunc _ _ _) as [e|] eqn:Ev; run_vm; [by apply halt_post|]. apply validate_ok in Ev as [V1 V2].
  assert (pops <= length (f_stack f))%nat as Hlen by (unfold zlen in V1; lia). pose proof (fo_stack _ _ _ Hf) as Hst.
  apply Hres; [done|lia|intros e; by apply halt_post|]. intros Ha.
  eapply required_memory_wp; [done..|intros e; by apply halt_post|]. intros n Hn Hd Hneed _.
  eapply charge_call_wp; [done..|intros e f' Ec; by apply halt_post|]. intros cost cg mem' Hc Hcg Hx [R1 R2].
  apply resize_wp; [done|]. pose proof (co_gas _ _ _ (fo_contract _ _ _ Hf)) as HG. pose proof HG as [? ?].
  eapply (perform_call_wp N o pops need extra allowed f); simpl; auto; try lia; rewrite ?length_insert, ?Hni; auto; try lia.
  destruct Hf. constructor; simpl; auto; [by apply Forall_insert|unfold zlen in *; by rewrite length_insert|].
  apply contract_with_gas; [done|unfold is_u64; lia].
Qed.
End Step.
