(* ===== verification/VmTable.v ===== *)
(** Every entry of the table of instructions, and the loop of the interpreter: it
    returns when the fuel is more than the gas, and keeps the invariants. *)
From S2P Require Import Prelude RlpEncode RlpDecode RlpRaw Storage IstanbulTypes ValidatorSet Trie StateDB StateSpec StateTheorems BigMath VmProg VmData VmCore VmInterp VmJump VmInv VmExec VmStep VmSafe VmLoop.

(** ** Sizes of memory *)

Section Sizes.

Lemma Back_run {A} i (k : Z -> IM A) f g : (i < length (f_stack f))%nat -> ibind (Back i) k f g = k (default 0 (f_stack f !! i)) f g.
Proof. intros Hi. destruct (lookup_lt_is_Some_2 _ _ Hi) as [x Hx]. unfold Back, ibind. simpl. by rewrite Hx. Qed.

Lemma mem_at_run off len f g : (off < length (f_stack f))%nat -> (len < length (f_stack f))%nat ->
  mem_at off len f g = Return (need_at off len (f_stack f), f, g).
Proof. intros Ho Hl. unfold mem_at. by rewrite !Back_run. Qed.

Lemma default_nonneg st i : nonneg st -> 0 <= default 0 (st !! i).
Proof. intros Hs. destruct (st !! i) as [x|] eqn:E; simpl; [|lia]. by eapply (proj1 (Forall_lookup _ _) Hs). Qed.

Lemma need_at_nonneg off len st : nonneg st -> 0 <= need_at off len st.
Proof. intros Hs. apply calcMemSize_nonneg; by apply default_nonneg. Qed.

Lemma mem_at_spec off len pops o : memorySize o = Some (mem_at off len) -> (off < pops)%nat -> (len < pops)%nat -> mem_spec o pops (need_at off len).
Proof. intros E Ho Hl. unfold mem_spec. rewrite E. split; [intros; apply mem_at_run; lia|]. intros. by apply need_at_nonneg. Qed.

Lemma mem_const_spec n pops o : memorySize o = Some (let~ x := Back 0 in iret (calcMemSize x n)) -> 0 <= n -> (0 < pops)%nat -> mem_spec o pops (need_const n).
Proof.
  intros E Hn Hp. unfold mem_spec. rewrite E. split; [intros f g Hl; by rewrite Back_run by lia|].
  intros st Hs _. apply calcMemSize_nonneg; [by apply default_nonneg|done].
Qed.

Lemma mem_max_spec o1 l1 o2 l2 pops o : memorySize o = Some (mem_max o1 l1 o2 l2) -> (o1 < pops)%nat -> (l1 < pops)%nat -> (o2 < pops)%nat -> (l2 < pops)%nat ->
  mem_spec o pops (need_max o1 l1 o2 l2).
Proof.
  intros E H1 H2 H3 H4. unfold mem_spec. rewrite E. split.
  - intros f g Hl. unfold mem_max. unfold ibind at 1. rewrite mem_at_run by lia. cbn [pbind]. unfold ibind. by rewrite mem_at_run by lia.
  - intros st Hs _. unfold need_max. rewrite BigMax_ok. pose proof (need_at_nonneg o1 l1 st Hs). lia.
Qed.

Lemma mem_none o pops : memorySize o = None -> mem_spec o pops no_memory.
Proof. intros E. unfold mem_spec. by rewrite E. Qed.

(** Regions are not at the operand that the price of a call replaces. *)
Lemma need_at_insert off len st cg : (0 < off)%nat -> (0 < len)%nat -> need_at off len (<[0%nat := cg]> st) = need_at off len st.
Proof. intros Ho Hl. unfold need_at. by rewrite !list_lookup_insert_ne by lia. Qed.

Lemma need_max_insert o1 l1 o2 l2 st cg : (0 < o1)%nat -> (0 < l1)%nat -> (0 < o2)%nat -> (0 < l2)%nat ->
  need_max o1 l1 o2 l2 (<[0%nat := cg]> st) = need_max o1 l1 o2 l2 st.
Proof. intros. unfold need_max. by rewrite !need_at_insert. Qed.
End Sizes.

(** ** The table *)

Section Table.
Context `{HPL : PrecompileLaws} (ctx : BlockContext) (cfg : Config) (Hctx : ctx_ok ctx) (Hmeter : DisableGasMetering cfg = false).
Context (N : Z) (rec : Runner) (Hrec : runner_ok N rec) (HLim : N <= pc_limit).

(** An iteration with the instruction [o] for [op] keeps the invariants. *)
Definition entry_ok (op : Z) (o : operation) : Prop := forall f g m, frame_ok f g m -> evm_ok g -> machine_ok m ->
  (op <> STOP -> f_pc f < zlen (c_Code (f_contract f))) -> c_Gas (f_contract f) <= N -> wp ev_pre ev_post (step_operation cfg op o f g) (step_post f g m) m.

Lemma stop_entry : entry_ok STOP (mkOperation opStop (constGasFunc 0) (makeStackFunc 0 0) None true false false false false).
Proof.
  intros f g m Hf Hg Hm _ _. unfold step_operation. run_vm. cbn [validateStack]. destruct (makeStackFunc _ _ _); run_vm; [by apply halt_post|].
  apply restrictions_wp; [done|intros e; by apply halt_post|]. intros _. unfold required_memory. cbn [memorySize]. run_vm. unfold gas_ok. run_vm.
  pose proof (co_gas _ _ _ (fo_contract _ _ _ Hf)) as Hgas. eapply (charge_wp cfg Hmeter); [by apply (const_gas 0 0)|done|done|done|lia|lia|by exists 0|done|done| |].
  { intros e f' m' Hmv Ec. run_vm. unfold step_post. rewrite Ec. split; [done|]. split; [done|]. split; [apply small_nil|lia]. }
  intros cost mem' m' Hmv Hc _. apply resize_wp; [lia|]. unfold perform, opStop. cbn [execute returns reverts halts]. run_vm. unfold nothing. run_vm.
  simpl. split; [done|]. unfold is_u64 in *. split; [lia|]. split; [apply small_nil|lia].
Qed.

Lemma simple_entry op o pops pushes need least : op <> STOP -> validateStack o = makeStackFunc (Z.of_nat pops) (Z.of_nat pushes) -> op <> CALL ->
  mem_spec o pops need -> gas_spec (gasCost o) pops least (bool_decide (memorySize o <> None)) (writes o) -> 0 <= least ->
  exec_ok (execute o) pops pushes need (jumps o) (writes o) -> (halts o || reverts o = false -> 0 < least) -> entry_ok op o.
Proof. intros Hop. intros. intros f g m Hf Hg Hm Hpc _. eapply step_simple; eauto. Qed.

(** A cost without a read-only restriction also holds with it. *)
Lemma gas_spec_write gf pops least uses : gas_spec gf pops least uses false -> gas_spec gf pops least uses true.
Proof. intros Hgas f g m n ? ? ? ? ? ? ? _. by apply Hgas. Qed.

(** A constant price and no memory. *)
Lemma const_entry op ex gas pops pushes (jumps : bool) : op <> STOP -> op <> CALL -> 0 < gas < 2 ^ 64 -> exec_ok ex pops pushes no_memory jumps false ->
  entry_ok op (mkOperation ex (constGasFunc gas) (makeStackFunc (Z.of_nat pops) (Z.of_nat pushes)) None false jumps false false false).
Proof.
  intros H1 H2 Hg Hex. eapply (simple_entry _ _ pops pushes no_memory gas); simpl; auto; try lia; [by apply mem_none|].
  apply const_gas. lia.
Qed.

(** Memory with a region on the stack. *)
Lemma region_entry op ex gas pops pushes off len least (halts jumps writes reverts returns : bool) : op <> STOP -> op <> CALL -> (off < pops)%nat -> (len < pops)%nat -> 0 <= least ->
  gas_spec gas pops least true writes -> exec_ok ex pops pushes (need_at off len) jumps writes -> (halts || reverts = false -> 0 < least) ->
  entry_ok op (mkOperation ex gas (makeStackFunc (Z.of_nat pops) (Z.of_nat pushes)) (Some (mem_at off len)) halts jumps writes reverts returns).
Proof. intros. eapply (simple_entry _ _ pops pushes (need_at off len) least); simpl; auto. by apply mem_at_spec. Qed.

(** A price that depends on the state and no memory. *)
Lemma priced_entry op ex gas pops pushes least (halts writes : bool) : op <> STOP -> op <> CALL -> 0 < least ->
  gas_spec gas pops least false writes -> exec_ok ex pops pushes no_memory false writes ->
  entry_ok op (mkOperation ex gas (makeStackFunc (Z.of_nat pops) (Z.of_nat pushes)) None halts false writes false false).
Proof. intros. eapply (simple_entry _ _ pops pushes no_memory least); simpl; auto; [by apply mem_none|lia]. Qed.

(** A word or a byte of memory. *)
Lemma word_entry op ex n pops pushes : op <> STOP -> op <> CALL -> (0 < pops)%nat -> 0 <= n -> exec_ok ex pops pushes (need_const n) false false ->
  entry_ok op (oper_mem ex (fun _ n => mem_gas GasFastestStep n) (makeStackFunc (Z.of_nat pops) (Z.of_nat pushes)) (let~ o := Back 0 in iret (calcMemSize o n))).
Proof.
  intros. eapply (simple_entry _ _ pops pushes (need_const n) GasFastestStep); simpl; auto; [by apply mem_const_spec|by apply mem_gas_ok|done..].
Qed.

Lemma call_entry op ex gas pops o1 l1 o2 l2 extra allowed : op <> STOP -> (7 <= S pops)%nat -> (0 < o1 < pops)%nat -> (0 < l1 < pops)%nat -> (0 < o2 < pops)%nat -> (0 < l2 < pops)%nat ->
  restricts op (mkOperation ex gas (makeStackFunc (Z.of_nat pops) 1) (Some (mem_max o1 l1 o2 l2)) false false false false true) allowed ->
  (forall b st cg, allowed b st -> allowed b (<[0%nat := cg]> st)) ->
  call_gas_spec gas pops extra -> call_exec_ok N ex pops (need_max o1 l1 o2 l2) extra allowed ->
  entry_ok op (mkOperation ex gas (makeStackFunc (Z.of_nat pops) 1) (Some (mem_max o1 l1 o2 l2)) false false false false true).
Proof.
  intros Hop Hp H1 H2 H3 H4 Hr Ha Hg Hex f g m Hf Hg' Hm Hpc HN.
  eapply (step_call cfg Hmeter N op _ pops (need_max o1 l1 o2 l2) extra allowed); simpl; auto; [lia|apply mem_max_spec; auto; lia|].
  intros st cg. apply need_max_insert; lia.
Qed.

Lemma create_entry : entry_ok CREATE (mkOperation (opCreate cfg rec) gasCreate (makeStackFunc 3 1) (Some memoryCreate) false false true false true).
Proof.
  intros f g m Hf Hg Hm Hpc HN. eapply (step_call cfg Hmeter N CREATE _ 3 (need_at 1 2) nothing_more never); simpl; auto.
  - by apply restricts_never.
  - apply mem_at_spec; auto.
  - intros. by apply need_at_insert; lia.
  - apply gasCreate_ok.
  - by apply opCreate_ok.
Qed.

Lemma no_value_insert b st cg : no_value b st -> no_value b (<[0%nat := cg]> st).
Proof. unfold no_value. by rewrite list_lookup_insert_ne by lia. Qed.

Create HintDb vm_exec discriminated.
#[local] Hint Constants Opaque : vm_exec.
#[local] Hint Resolve opAdd_ok opSub_ok opMul_ok opDiv_ok opSdiv_ok opMod_ok opSmod_ok opExp_ok opLt_ok opGt_ok opSlt_ok opSgt_ok opEq_ok opAnd_ok opOr_ok opXor_ok
  opByte_ok opSignExtend_ok opNot_ok opIszero_ok opAddmod_ok opMulmod_ok opSha3_ok opAddress_ok opBalance_ok opOrigin_ok opCaller_ok opCallValue_ok opCallDataLoad_ok
  opCallDataSize_ok opCallDataCopy_ok opReturnDataSize_ok opReturnDataCopy_ok opExtCodeSize_ok opCodeSize_ok opCodeCopy_ok opExtCodeCopy_ok opGasprice_ok opBlockhash_ok
  opCoinbase_ok opTimestamp_ok opNumber_ok opDifficulty_ok opGasLimit_ok opPop_ok opMload_ok opMstore_ok opMstore8_ok opSload_ok opSstore_ok opSuicide_ok opJump_ok opJumpi_ok
  opJumpdest_ok opPc_ok opMsize_ok opGas_ok opReturn_ok opRevert_ok makePush_ok makeDup_ok makeSwap_ok makeLog_ok : vm_exec.

(** The entry at hand, with the number of operands from its condition on the stack. *)
Ltac arity k := match goal with |- context [makeStackFunc ?a ?b] => let p := eval compute in (Z.to_nat a) in let q := eval compute in (Z.to_nat b) in k p q end.
Ltac instr := solve [auto 2 with vm_exec nocore].
Ltac constant := arity ltac:(fun p q => apply (const_entry _ _ _ p q); [done|done|done|instr]).
Ltac priced least := arity ltac:(fun p q => apply (priced_entry _ _ _ p q least); [done|done|lia| |instr]).
Ltac region off len least := arity ltac:(fun p q => apply (region_entry _ _ _ p q off len least); [done|done|lia|lia|done| |instr|done]).

(** The entries that are neither of a constant price nor calls. *)
Lemma copy_entries : entry_ok SHA3 (oper_mem (opSha3 cfg) gasSha3 (makeStackFunc 2 1) memorySha3) /\
  entry_ok CALLDATACOPY (oper_mem opCallDataCopy gasCallDataCopy (makeStackFunc 3 0) memoryCallDataCopy) /\
  entry_ok CODECOPY (oper_mem opCodeCopy gasCodeCopy (makeStackFunc 3 0) memoryCodeCopy) /\
  entry_ok RETURNDATACOPY (oper_mem opReturnDataCopy gasReturnDataCopy (makeStackFunc 3 0) memoryReturnDataCopy) /\
  entry_ok EXTCODECOPY (oper_mem opExtCodeCopy gasExtCodeCopy (makeStackFunc 4 0) memoryExtCodeCopy).
Proof.
  split_and!.
  - region 0%nat 1%nat Sha3Gas. apply copy_gas_ok; [done|done|lia].
  - region 0%nat 2%nat GasFastestStep. apply copy_gas_ok; [done|done|lia].
  - region 0%nat 2%nat GasFastestStep. apply copy_gas_ok; [done|done|lia].
  - region 0%nat 2%nat GasFastestStep. apply copy_gas_ok; [done|done|lia].
  - region 1%nat 3%nat 700. refine (copy_gas_ok 700 3 CopyGas 4 _ _ _); [done|done|lia].
Qed.

Lemma flow_entries : entry_ok RETURN (mkOperation opReturn gasReturn (makeStackFunc 2 0) (Some memoryReturn) true false false false false) /\
  entry_ok REVERT (mkOperation opRevert gasRevert (makeStackFunc 2 0) (Some memoryRevert) false false false true true) /\
  entry_ok SELFDESTRUCT (mkOperation opSuicide gasSuicide (makeStackFunc 1 0) None true false true false false) /\
  entry_ok SSTORE (mkOperation opSstore gasSStore (makeStackFunc 2 0) None false false true false false) /\
  entry_ok EXP (oper opExp gasExp (makeStackFunc 2 1)).
Proof.
  split_and!.
  - region 0%nat 1%nat 0. apply return_gas_ok.
  - region 0%nat 1%nat 0. apply return_gas_ok.
  - priced 5000. by apply suicide_gas_ok.
  - priced 5000. by apply sstore_gas_ok.
  - priced 10. by apply exp_gas_ok.
Qed.

Lemma word_entries : entry_ok MLOAD (oper_mem opMload gasMLoad (makeStackFunc 1 1) memoryMLoad) /\
  entry_ok MSTORE (oper_mem opMstore gasMStore (makeStackFunc 2 0) memoryMStore) /\
  entry_ok MSTORE8 (oper_mem opMstore8 gasMStore8 (makeStackFunc 2 0) memoryMStore8).
Proof. split_and!; [apply (word_entry _ _ 32 1 1)|apply (word_entry _ _ 32 2 0)|apply (word_entry _ _ 1 2 0)]; try done; try lia; instr. Qed.

Lemma read_entries : entry_ok BALANCE (oper opBalance gasBalance (makeStackFunc 1 1)) /\ entry_ok EXTCODESIZE (oper opExtCodeSize gasExtCodeSize (makeStackFunc 1 1)) /\
  entry_ok SLOAD (oper opSload gasSLoad (makeStackFunc 1 1)).
Proof.
  split_and!; [priced 400; refine (const_gas 400 1 _); done|priced 700; refine (const_gas 700 1 _); done|priced 200; refine (const_gas 200 1 _); done].
Qed.

Lemma call_entries : entry_ok CALL (mkOperation (opCall cfg rec) gasCall (makeStackFunc 7 1) (Some memoryCall) false false false false true) /\
  entry_ok CALLCODE (mkOperation (opCallCode cfg rec) gasCallCode (makeStackFunc 7 1) (Some memoryCall) false false false false true) /\
  entry_ok DELEGATECALL (mkOperation (opDelegateCall cfg rec) gasDelegateCall (makeStackFunc 6 1) (Some memoryDelegateCall) false false false false true) /\
  entry_ok STATICCALL (mkOperation (opStaticCall cfg rec) gasStaticCall (makeStackFunc 6 1) (Some memoryStaticCall) false false false false true).
Proof.
  split_and!.
  - apply (call_entry _ _ _ 7 5 6 3 4 gas_and_stipend no_value); auto; try lia; [by apply restricts_call|apply no_value_insert|apply gasCall_ok|by apply opCall_ok].
  - apply (call_entry _ _ _ 7 5 6 3 4 gas_and_stipend always); auto; try lia; [by apply restricts_always|apply gasCallCode_ok|by apply opCallCode_ok].
  - apply (call_entry _ _ _ 6 4 5 2 3 gas_only always); auto; try lia; [by apply restricts_always|apply gasDelegateCall_ok; lia|by apply opDelegateCall_ok].
  - apply (call_entry _ _ _ 6 4 5 2 3 gas_only always); auto; try lia; [by apply restricts_always|apply gasDelegateCall_ok; lia|by apply opStaticCall_ok].
Qed.

Lemma single_ok : Forall (fun '(op, o) => entry_ok op o) (single_instructions ctx cfg rec).
Proof.
  destruct copy_entries as (? & ? & ? & _ & ?), flow_entries as (? & _ & ? & ? & ?), word_entries as (? & ? & ?), read_entries as (? & ? & ?), call_entries as (? & ? & _ & _).
  pose proof stop_entry. pose proof create_entry. unfold single_instructions. repeat apply Forall_cons_2; try apply Forall_nil_2; cbv beta iota; try assumption.
  all: match goal with |- entry_ok _ (oper _ (constGasFunc _) _) => constant | |- entry_ok _ (mkOperation _ (constGasFunc _) _ _ false _ _ _ _) => constant end.
Qed.

Lemma find_ok op o l : Forall (fun '(op, o) => entry_ok op o) l -> find_instruction op l = Some o -> entry_ok op o.
Proof.
  induction l as [|[k o'] l IH]; intros Hl; simpl; [done|]. apply Forall_cons in Hl as [H1 H2]. destruct (Z.eqb_spec k op) as [->|]; [by intros [= <-]|auto].
Qed.

(** ** Families *)

Lemma push_entry n : 1 <= n <= 32 -> entry_ok (PUSH1 + n - 1) (push_instruction n).
Proof.
  intros Hn. unfold push_instruction, oper. apply (const_entry _ _ _ 0 1); [unfold PUSH1, STOP; lia|unfold PUSH1, CALL; lia|done|]. apply makePush_ok. lia.
Qed.

Lemma dup_entry n : 1 <= n <= 16 -> entry_ok (DUP1 + n - 1) (dup_instruction n).
Proof.
  intros Hn. unfold dup_instruction, oper, makeDupStackFunc. replace n with (Z.of_nat (Z.to_nat n)) at 3 4 by lia. 
  pose proof (const_entry (DUP1 + n - 1) (makeDup (Z.to_nat n)) GasFastestStep (Z.to_nat n) (Z.to_nat n + 1) false) as K. rewrite Nat2Z.inj_add, Z2Nat.id in K by lia.
  rewrite Z2Nat.id by lia. apply K; [unfold DUP1, STOP; lia|unfold DUP1, CALL; lia|done|]. apply makeDup_ok. lia.
Qed.

Lemma swap_entry n : 1 <= n <= 16 -> entry_ok (SWAP1 + n - 1) (swap_instruction n).
Proof.
  intros Hn. unfold swap_instruction, oper, makeSwapStackFunc.
  pose proof (const_entry (SWAP1 + n - 1) (makeSwap (Z.to_nat n)) GasFastestStep (Z.to_nat n + 1) (Z.to_nat n + 1) false) as K. rewrite Nat2Z.inj_add, Z2Nat.id in K by lia.
  apply K; [unfold SWAP1, STOP; lia|unfold SWAP1, CALL; lia|done|]. apply makeSwap_ok.
Qed.

Lemma log_entry n : 0 <= n <= 4 -> entry_ok (LOG0 + n) (log_instruction ctx n).
Proof.
  intros Hn. unfold log_instruction.
  pose proof (region_entry (LOG0 + n) (makeLog ctx (Z.to_nat n)) (makeGasLog n) (Z.to_nat n + 2) 0 0 1 375 false false true false false) as K.
  rewrite Nat2Z.inj_add, Z2Nat.id in K by lia. apply K; try lia; [unfold LOG0, STOP; lia|unfold LOG0, CALL; lia|by apply log_gas_ok; lia|apply makeLog_ok].
Qed.

(** Every instruction of the chain. *)
Lemma table_ok op o : NewByzantiumInstructionSet ctx cfg rec op = Some o -> entry_ok op o.
Proof.
  destruct copy_entries as (_ & _ & _ & Hrd & _), flow_entries as (_ & Hrev & _), call_entries as (_ & _ & Hdel & Hstat).
  unfold NewByzantiumInstructionSet, NewHomesteadInstructionSet, NewFrontierInstructionSet.
  destruct (Z.eqb_spec op STATICCALL) as [->|]; [by intros [= <-]|]. destruct (Z.eqb_spec op RETURNDATASIZE) as [->|]; [intros [= <-]; constant|].
  destruct (Z.eqb_spec op RETURNDATACOPY) as [->|]; [by intros [= <-]|]. destruct (Z.eqb_spec op REVERT) as [->|]; [by intros [= <-]|].
  destruct (Z.eqb_spec op DELEGATECALL) as [->|]; [by intros [= <-]|].
  destruct ((PUSH1 <=? op) && (op <=? PUSH32)) eqn:E1.
  { intros [= <-]. apply andb_true_iff in E1 as [? ?]. zbool. replace op with (PUSH1 + (op - PUSH1 + 1) - 1) at 1 by lia. apply push_entry. unfold PUSH1, PUSH32 in *. lia. }
  destruct ((DUP1 <=? op) && (op <? DUP1 + 16)) eqn:E2.
  { intros [= <-]. apply andb_true_iff in E2 as [? ?]. zbool. replace op with (DUP1 + (op - DUP1 + 1) - 1) at 1 by lia. apply dup_entry. lia. }
  destruct ((SWAP1 <=? op) && (op <? SWAP1 + 16)) eqn:E3.
  { intros [= <-]. apply andb_true_iff in E3 as [? ?]. zbool. replace op with (SWAP1 + (op - SWAP1 + 1) - 1) at 1 by lia. apply swap_entry. lia. }
  destruct ((LOG0 <=? op) && (op <? LOG0 + 5)) eqn:E4.
  { intros [= <-]. apply andb_true_iff in E4 as [? ?]. zbool. replace op with (LOG0 + (op - LOG0)) at 1 by lia. apply log_entry. lia. }
  apply find_ok, single_ok.
Qed.
End Table.

(** ** The loop *)

Section Loop.
Context `{HPL : PrecompileLaws} (ctx : BlockContext) (cfg : Config) (Hctx : ctx_ok ctx) (Hmeter : DisableGasMetering cfg = false).

Lemma step_wp N rec f g m : runner_ok N rec -> N <= pc_limit -> frame_ok f g m -> evm_ok g -> machine_ok m -> c_Gas (f_contract f) <= N ->
  wp ev_pre ev_post (step ctx cfg rec f g) (step_post f g m) m.
Proof.
  intros Hrec HL Hf Hg Hm HN. unfold step. run_vm. split; [exact I|]. intros abort m1 He.
  pose proof (ev_reads_same _ EvAborted _ _ _ eq_refl He) as ->. destruct abort; run_vm.
  { split; [by apply moves_refl|]. split; [apply Hf|]. split; [apply small_nil|lia]. }
  destruct (NewByzantiumInstructionSet ctx cfg rec (GetOp (f_contract f) (f_pc f))) as [o|] eqn:Eo; [|run_vm; by apply halt_post].
  apply (table_ok ctx cfg Hctx Hmeter N rec Hrec HL) in Eo. apply Eo; auto. intros Hop. destruct (Z.lt_ge_cases (f_pc f) (zlen (c_Code (f_contract f)))) as [|Hge]; [done|].
  exfalso. apply Hop. unfold GetOp, GetByte. by rewrite (proj2 (Z.ltb_ge _ _)).
Qed.

Definition loop_post (f : frame) (g : EVM) (m : machine) (x : bytes * option vm_err * frame * EVM) (m' : machine) : Prop :=
  let '(ret, err, f', g') := x in small ret /\ 0 <= c_Gas (f_contract f') <= c_Gas (f_contract f) /\ moves_on g m g' m'.

Definition loop_ok (N : Z) (loop : frame -> EVM -> prog (bytes * option vm_err * frame * EVM)) : Prop :=
  forall f g m, frame_ok f g m -> evm_ok g -> machine_ok m -> c_Gas (f_contract f) < N -> wp ev_pre ev_post (loop f g) (loop_post f g m) m.

(** The machine inside of a run. *)
Definition inside (g : EVM) : EVM := with_returnData (with_depth g (evm_depth g + 1)) [].

Lemma inside_ok g : evm_ok g -> evm_ok (inside g).
Proof. intros []. constructor; simpl; auto using small_nil. Qed.

Lemma outside_moves g m g' m' : moves_on (inside g) m g' m' -> moves_on g m (with_depth g' (evm_depth g' - 1)) m'.
Proof.
  intros ([Hok H1 H2 H3 H4] & Hm & Hs). split_and!; [|done|done]. constructor; simpl in *; auto; [|lia]. destruct Hok. by constructor.
Qed.

Lemma run_with_ok N loop : loop_ok N loop -> runner_ok N (run_with loop).
Proof.
  intros Hl c input g m Hc Hi Hg Hm HN. unfold run_with. fold (inside g). pose proof (inside_ok g Hg) as Hg1. cbv zeta. pose proof (co_gas _ _ _ Hc) as [C0 _].
  destruct (Z.eqb_spec (zlen (c_Code c)) 0) as [E|E]; cbn [pbind wp].
  { split_and!; auto using small_nil; [lia..|]. by apply outside_moves, moves_refl. }
  apply wp_then, wp_then. set (f := mkFrame 0 [] NewMemory (with_input c input)).
  assert (c_Code c <> []) as Hne by (intros E'; by rewrite E' in E).
  assert (frame_ok f (inside g) m) as Hf.
  { subst f. constructor; simpl; auto; [pose proof (zlen_nonneg (c_Code c)); lia|done|apply mem_ok_new|]. destruct Hc. by constructor. }
  eapply wp_conseq; [apply (Hl f (inside g) m); auto|]. intros [[[ret err] f'] g'] m' (Hr & Hgas & Hmv). cbn [wp pbind].
  split_and!; auto; [apply Hgas..|]. by apply outside_moves.
Qed.

(** The fuel bounds both iterations and depth: each of them needs gas. *)
Lemma run_loop_ok fuel : loop_ok (Z.min (Z.of_nat fuel) pc_limit) (run_loop ctx cfg fuel).
Proof.
  induction fuel as [|fuel IH]; intros f g m Hf Hg Hm HN; pose proof (co_gas _ _ _ (fo_contract _ _ _ Hf)) as [C0 _]; [lia|]. cbn [run_loop].
  eapply wp_seq; [apply (step_wp (Z.min (Z.of_nat fuel) pc_limit)); auto; [by apply run_with_ok|lia|lia]|].
  intros [[r f'] g'] m' (Hmv & Hu & Hr). destruct r as [|ret err]; cbn [wp].
  - destruct Hr as [Hf' Hlt]. pose proof Hmv as (He & Hm' & _). eapply wp_conseq; [apply IH; auto; [apply He|apply Hm'|lia]|].
    intros [[[ret err] f''] g''] m'' (H1 & H2 & H3). split_and!; auto; try lia. exact (moves_on_trans _ _ _ _ _ _ Hmv H3).
  - destruct Hr as [H1 H2]. unfold is_u64 in Hu. split_and!; auto; lia.
Qed.

Lemma Run_ok fuel : runner_ok (Z.min (Z.of_nat fuel) pc_limit) (Run ctx cfg fuel).
Proof. apply run_with_ok, run_loop_ok. Qed.
End Loop.
