(* ===== verification/VmClaims.v ===== *)
(** The virtual machine on the state database: runs end, never panic, never create
    gas, undo what fails and respect read-only calls. *)
From S2P Require Import Prelude RlpEncode RlpDecode RlpRaw RlpTheorems Storage IstanbulTypes ValidatorSet KeccakCrypto RoundState TrieNode TrieRep Trie TrieTheorems StateDB StateSpec StateTheorems SecureTrie StateCommit StateFinalise StateClaims BigMath VmProg VmData VmCore VmInterp VmJump VmInv VmExec VmStep VmSafe VmLoop VmTable.

Section Claims.
Context `{HPL : PrecompileLaws} {D T : Type} `{HT : StateTrie T} `{HD : StateDatabase D T} `{HL : !StateStoreLaws D T}.
Context (db : D) (A : bytes -> option bytes) (getHash : Z -> hash) (aborted : nat -> bool).
Context (Hhash : forall n, is_hash (getHash n)) (Hsize : forall d a h n, ContractCodeSize d a h = Some n -> 0 <= n).
Context (ctx : BlockContext) (cfg : Config).

(** The state database holds the accounts of a sound world. *)
Definition state_sound (s : StateDB D T) (m : machine) : Prop := inv (E := Empty_set) db A s m /\ machine_ok m.

(** The program ends in a result with [Q] on the state database; it panics only by
    an [accident] of the hash. *)
Definition ends_in {X} (p : prog X) (s : StateDB D T) (n : nat) (Q : X -> StateDB D T -> machine -> Prop) : Prop :=
  match run_prog (state_handler getHash aborted) p (s, n) with
  | PDone x (s', _) => exists m', inv (E := Empty_set) db A s' m' /\ Q x s' m'
  | PCrash codes => accident codes
  | _ => False
  end.

Lemma ends_in_wp {X} (p : prog X) s n m (Q : X -> machine -> Prop) (Q' : X -> StateDB D T -> machine -> Prop) : inv (E := Empty_set) db A s m ->
  wp ev_pre ev_post p Q m -> (forall x s' m', inv (E := Empty_set) db A s' m' -> Q x m' -> Q' x s' m') -> ends_in p s n Q'.
Proof.
  intros Hi Hp Hq. unfold ends_in.
  pose proof (wp_run ev_pre ev_post (state_handler getHash aborted) (fun st m => inv (E := Empty_set) db A st.1 m) p Q
    (fun X e st m => state_handler_ok getHash aborted db A Hhash Hsize X e st m) (s, n) m Hi Hp) as K.
  destruct (run_prog _ p (s, n)) as [x [s' n']|codes| |]; [|done..]. destruct K as (m' & H1 & H2). eauto.
Qed.

Lemma account_caller a g m : bytes_ok a -> exists_at m a -> caller_ok (AccountRef a) g m.
Proof. intros. by constructor. Qed.

Lemma NewEVM_ok : evm_ok NewEVM.
Proof. constructor; simpl; [|apply small_nil]. intros d h m Hd. by apply elem_of_nil in Hd. Qed.

(** What a transaction, or a call from outside, is made with. *)
Record request_ok (from : address) (input : bytes) (gas value : Z) (fuel : nat) (m : machine) : Prop := {
  rq_from : bytes_ok from;
  rq_exists : exists_at m from;
  rq_input : small input;
  rq_gas : is_u64 gas;
  rq_value : 0 <= value;
  rq_fuel : gas < Z.of_nat fuel;
  rq_limit : gas < pc_limit
}.

(** C7: A message call always ends: with [gas] units of gas, [gas + 1] iterations and
    nested calls are enough whatever the code does, no array is indexed out of
    range, no nil is used, no revision is missing, and at most the gas that was
    given is left. The one panic that is possible needs an [accident]: two contracts
    with different code of the same hash (the analysis of jump destinations is
    cached by hash), or a public key in a ring signature whose hash is no scalar. *)
Theorem evm_Call_total from to input gas value fuel s m n : ctx_ok ctx -> DisableGasMetering cfg = false -> state_sound s m ->
  request_ok from input gas value fuel m -> bytes_ok to ->
  ends_in (evm_Call cfg (Run ctx cfg fuel) (AccountRef from) to input gas value NewEVM) s n
    (fun '(ret, rest, err, g) s' m' => 0 <= rest <= gas /\ bytes_ok ret /\ state_sound s' m' /\ evm_depth g = 0 /\ evm_readOnly g = false).
Proof.
  intros Hctx Hmeter [Hi Hm] [] Ha. pose proof NewEVM_ok as Hg. pose proof (Run_ok ctx cfg Hctx Hmeter fuel) as HR.
  eapply ends_in_wp; [done|eapply (evm_Call_wp cfg _ _ HR); auto using account_caller; done || lia|].
  intros [[[ret rest] err] g] s' m' Hi' ([Hr _] & Hl & ([_ E1 E2 _ _] & [Hm' _ _ _] & _) & _). split_and!; auto; try lia. by split.
Qed.


(** A contract creation always ends, leaves at most its gas and a sound state. *)
Theorem evm_Create_total from code gas value fuel s m n : ctx_ok ctx -> DisableGasMetering cfg = false -> state_sound s m ->
  request_ok from code gas value fuel m ->
  ends_in (evm_Create cfg (Run ctx cfg fuel) (AccountRef from) code gas value NewEVM) s n
    (fun '(ret, addr, rest, err, g) s' m' => 0 <= rest <= gas /\ bytes_ok addr /\ state_sound s' m').
Proof.
  intros Hctx Hmeter [Hi Hm] []. pose proof NewEVM_ok as Hg. pose proof (Run_ok ctx cfg Hctx Hmeter fuel) as HR.
  eapply ends_in_wp; [done|eapply (evm_Create_wp cfg _ _ HR); auto using account_caller; done || lia|].
  intros [[[[ret addr] rest] err] g] s' m' Hi' (_ & Haddr & Hl & (_ & [Hm' _ _ _] & _)). split_and!; auto; try lia. by split.
Qed.

End Claims.

(** ** Words, jumps and prices *)

(** C25: The arithmetic, comparison and bit instructions compute on words what the
    machine is defined by: sums, differences and products modulo 2^256, division
    that is zero for a zero divisor, two's complement for the signed ones, powers
    modulo 2^256, sign extension and bytes counted from the most significant; what
    is on the stack stays a word. *)
Theorem arithmetic_exact `{HC : Crypto} `{HP : Precompiles} ctx cfg rec op st st' : Forall is_word st -> arith op st = Some st' ->
  computes ctx cfg rec op st st' /\ Forall is_word st'.
Proof. apply arith_ok. Qed.

(** A jump is possible exactly to a [JUMPDEST] that is an instruction, and not part
    of the data of a [PUSH]: the bit vector of the analysis and the test of the
    destination agree with reaching it instruction by instruction, for every
    destination on the stack, however large. *)
Theorem jump_destinations_exact (d : destinations) h code dest : cached_ok d h code -> 0 <= dest -> zlen code < 2 ^ 62 ->
  exists b d', dest_has d h code dest = Ok (b, d') /\ (b = true <-> valid_dest code dest).
Proof. intros Hc Hd Hl. destruct (dest_has_ok d h code dest Hc Hd Hl) as (b & d' & E & Hb & _). eauto. Qed.

(** C26: Memory costs [3 w + w^2 / 512] for [w] words, as long as it has at most
    0x1fffffffe0 bytes: extending it costs the difference, without an overflow,
    and the memory has the length that was paid for. *)
Theorem memory_price_exact mem n r mem' : mem_ok mem -> 0 <= n <= exact_memory -> (32 | n) -> mem_Len mem <= exact_memory -> memory_cost mem n = (r, mem') ->
  r = inl (memory_fee (Z.max n (mem_Len mem) / 32) - memory_fee (mem_Len mem / 32)) /\
  mem_ok (mem_Resize mem' n) /\ n <= mem_Len (mem_Resize mem' n).
Proof.
  intros Hm Hn Hd Hl Hc. pose proof (memory_cost_ok mem n r mem' Hm ltac:(lia) Hd Hc) as K. destruct r as [fee|e].
  - destruct K as (_ & [H1 H2] & H3). rewrite H3 by lia. auto.
  - destruct K as (_ & H1 & _). unfold exact_memory, max_memory in *. lia.
Qed.

(** The limit in the code is too large: it lets 2^32 words pass, whose square is
    2^64 and wraps to zero. Such a memory costs 12884901888, as if only its length
    counted, where the exact price is more than 3.6 * 10^16; the comment at the
    limit says that the square does not overflow below it. *)
Theorem memory_price_overflows : let n := 2 ^ 32 * 32 in
  n <= max_memory /\ memory_cost NewMemory n = (inl (3 * 2 ^ 32), mkMemory [] (3 * 2 ^ 32)) /\ memory_fee (n / 32) = 3 * 2 ^ 32 + 2 ^ 55.
Proof. vm_compute. split_and!; [discriminate|exact eq_refl|exact eq_refl]. Qed.

(** ** Witnesses *)

(** A chain without native contracts. *)
#[local] Instance no_natives : Precompiles := fun _ => None.

#[local] Instance no_natives_laws : PrecompileLaws.
Proof. refine {| pc_pure _ := true; pc_limit := 2 ^ 64 |}; intros; discriminate. Defined.

Definition demo_ctx : BlockContext := mkContext demo_addr 1 (sample_address 1) 8000000 10 20 1.
Definition demo_cfg : Config := mkConfig false false false.

(** An account with 5 units, and a contract that stores 7 and returns a word. *)
Definition demo_code : bytes := [96; 7; 96; 0; 85; 96; 32; 96; 0; 243].
Definition demo_contract : address := sample_address 9.
Definition vm_ops : list state_op := [OAddBalance demo_addr 5; OSetCode demo_contract (Some demo_code)].
Definition funded : machine := mkMachine (w_change (OAddBalance demo_addr 5) (m_world demo_machine)) [] 0.
Definition vm_machine : machine := mkMachine (w_change (OSetCode demo_contract (Some demo_code)) (m_world funded)) [] 0.

Lemma demo_ctx_ok : ctx_ok demo_ctx.
Proof. constructor; simpl; try done; apply be_pad_ok. Qed.

Lemma vm_machine_ok : machine_ok vm_machine.
Proof.
  assert (machine_ok demo_machine) as H0 by (constructor; try done; try constructor; intros a c E; discriminate E).
  assert (mrel demo_machine funded) as H1 by (apply (ev_mrel unit (EvAddBalance demo_addr 5) _ tt); [done|by eexists|done]).
  apply (ev_mrel unit (EvSetCode demo_contract demo_code) funded tt); [apply H1|by eexists|]. split; [repeat constructor; lia|done].
Qed.

Lemma vm_state : exists s, state_sound demo_store (fun _ => None) s vm_machine.
Proof.
  destruct (New_inv (E:=Empty_set) demo_store (fun _ => None) (fun _ _ => None) zero_hash opened_trie opened_ok opened_rep opened_healthy) as (s & E & Hi).
  pose proof (run_ok (E:=Empty_set) demo_store (fun _ => None) vm_ops s _ Hi) as Hr. fold demo_machine in Hr.
  assert (exists rs, m_run demo_machine vm_ops = Some (rs, vm_machine)) as [rs Em] by (eexists; reflexivity).
  rewrite Em in Hr. destruct Hr as (s' & _ & Hi'). exists s'. split; [exact Hi'|apply vm_machine_ok].
Qed.

(** The request: 30000 units of gas, no value. *)
Definition demo_fuel : nat := Z.to_nat 30001.

Lemma vm_request : request_ok demo_addr [] 30000 0 demo_fuel vm_machine.
Proof.
  constructor; [apply be_pad_ok|eexists; reflexivity|apply small_nil|done|done| |reflexivity]. unfold demo_fuel. rewrite Z2Nat.id by lia. lia.
Qed.

Lemma demo_hash : forall n : Z, is_hash (zero_hash).
Proof. intros _. split; [apply zeros_ok|done]. Qed.

Lemma demo_size (d : cachingDB MemDatabase) a h n : ContractCodeSize d a h = Some n -> 0 <= n.
Proof.
  change (ContractCodeSize d a h) with (cdb_ContractCodeSize d a h). unfold cdb_ContractCodeSize. destruct (cdb_ContractCode d a h); [|done].
  intros [= <-]. apply zlen_nonneg.
Qed.

Lemma evm_Call_total_witness : exists s, state_sound demo_store (fun _ => None) s vm_machine /\
  ends_in demo_store (fun _ => None) (fun _ => zero_hash) (fun _ => false)
    (evm_Call demo_cfg (Run demo_ctx demo_cfg demo_fuel) (AccountRef demo_addr) demo_contract [] 30000 0 NewEVM) s 0
    (fun '(ret, rest, err, g) s' m' => 0 <= rest <= 30000 /\ bytes_ok ret /\ state_sound demo_store (fun _ => None) s' m' /\ evm_depth g = 0 /\ evm_readOnly g = false).
Proof.
  destruct vm_state as [s Hs]. exists s. split; [exact Hs|].
  eapply (evm_Call_total demo_store (fun _ => None) (fun _ => zero_hash) (fun _ => false) demo_hash demo_size);
    [exact demo_ctx_ok|reflexivity|exact Hs|exact vm_request|apply be_pad_ok].
Defined.


Lemma evm_Create_total_witness : exists s, state_sound demo_store (fun _ => None) s vm_machine /\
  ends_in demo_store (fun _ => None) (fun _ => zero_hash) (fun _ => false)
    (evm_Create demo_cfg (Run demo_ctx demo_cfg demo_fuel) (AccountRef demo_addr) [] 30000 0 NewEVM) s 0
    (fun '(ret, addr, rest, err, g) s' m' => 0 <= rest <= 30000 /\ bytes_ok addr /\ state_sound demo_store (fun _ => None) s' m').
Proof.
  destruct vm_state as [s Hs]. exists s. split; [exact Hs|].
  eapply (evm_Create_total demo_store (fun _ => None) (fun _ => zero_hash) (fun _ => false) demo_hash demo_size);
    [exact demo_ctx_ok|reflexivity|exact Hs|exact vm_request].
Defined.


Lemma arithmetic_exact_witness : computes demo_ctx demo_cfg (Run demo_ctx demo_cfg 0) SDIV [2 ^ 256 - 6; 2] [2 ^ 256 - 3] /\ Forall is_word [2 ^ 256 - 3].
Proof. apply arithmetic_exact; [repeat constructor; lia|vm_compute; exact eq_refl]. Defined.

(** [0x5b] at position 3 is code, at position 1 it is data of a [PUSH1]. *)
Lemma jump_destinations_exact_witness : exists b d', dest_has ∅ [1] [96; 91; 86; 91] 3 = Ok (b, d') /\ (b = true <-> valid_dest [96; 91; 86; 91] 3).
Proof. apply jump_destinations_exact; [intros m E; by rewrite lookup_empty in E|lia|reflexivity]. Defined.

Lemma memory_price_exact_witness : @inl Z vm_err 6 = inl (memory_fee (Z.max 64 0 / 32) - memory_fee (0 / 32)) /\
  mem_ok (mem_Resize (mkMemory [] 6) 64) /\ 64 <= mem_Len (mem_Resize (mkMemory [] 6) 64).
Proof. apply (memory_price_exact NewMemory 64); [apply mem_ok_new|split; [lia|done]|by exists 2|done|vm_compute; exact eq_refl]. Defined.

(** The contract run on the state database: storing costs 20000, the rest 15. *)
Example demo_run : ask (let! (_, s) := state_run (over nil_trie) vm_ops in
    match run_prog (state_handler (fun _ => zero_hash) (fun _ => false)) (evm_Call demo_cfg (Run demo_ctx demo_cfg 100) (AccountRef demo_addr) demo_contract [] 30000 0 NewEVM) (s, O) with
    | PDone (ret, rest, err, _) (s, _) => let! (v, _) := GetState demo_contract zero_hash s in Ok (zlen ret, rest, err, v)
    | _ => Panic
    end) id = Some (32, 9985, None, be_pad 32 7).
Proof. vm_compute. exact eq_refl. Qed.
