(* ===== verification/Native.v ===== *)
(** Native contracts: [core/vm/contracts.go] and the tables of
    [core/vm/precompiled_contracts_addr.go].

    Hash functions of Go and the pairing curve are interfaces.  The privacy contracts
    sell one-time accounts ([buyCoin], [buyStamp]) and pay their value back to who
    proves with a ring signature to own one of several ([refund]). *)
From S2P Require Import Prelude RlpEncode RlpDecode RlpRaw Storage IstanbulTypes ValidatorSet Trie StateDB StateSpec StateTheorems BigMath Transaction VmProg VmData VmCore Hex Curve RingSign Abi Ota.
From Stdlib Require Zpow_facts.
Import BitCurves.

Definition errParameters := errPrecompile 20.
Definition errMethodId := errPrecompile 21.
Definition errBuyCoin := errPrecompile 22.
Definition errRefundCoin := errPrecompile 23.
Definition errBuyStamp := errPrecompile 24.
Definition errBalance := errPrecompile 25.
Definition errStampValue := errPrecompile 26.
Definition errCoinValue := errPrecompile 27.
Definition ErrMismatchedValue := errPrecompile 28.
Definition ErrInvalidOTASet := errPrecompile 29.
Definition ErrOTAReused := errPrecompile 30.
Definition ErrInvalidRingSigned := errPrecompile 31.
Definition errNotOnCurve := errPrecompile 32.
Definition errInvalidCurvePoint := errPrecompile 33.
Definition errBadPairingInput := errPrecompile 34.
Definition errHexutil (e : hex_err) : vm_err :=
  errPrecompile (match e with
    | ErrEmptyString => 40 | ErrSyntax => 41 | ErrMissingPrefix => 42 | ErrOddLength => 43
    | ErrEmptyNumber => 44 | ErrLeadingZero => 45 | ErrUint64Range => 46 | ErrBig256Range => 47 end)%nat.

(** ** Libraries *)

Class NativeLib := {
  sha256_Sum256 : bytes -> bytes;
  ripemd160_Sum : bytes -> bytes
}.

(** [crypto/bn256] *)
Class Bn256 := {
  G1 : Type;
  G2 : Type;
  bn256_P : Z;
  G1_Unmarshal : bytes -> option G1;
  G1_CurvePoints : G1 -> Z * Z;
  G1_Add : G1 -> G1 -> G1;
  G1_ScalarMult : G1 -> Z -> G1;
  G1_Marshal : G1 -> bytes;
  G2_Unmarshal : bytes -> option G2;
  G2_CurvePoints : G2 -> (Z * Z) * (Z * Z);
  PairingCheck : list G1 -> list G2 -> bool
}.

(** What a native contract returns to the machine. *)
Definition native_result (p : prog (res bytes)) : prog (bytes * option vm_err) :=
  do r <- p; Return (match r with inl ret => (ret, None) | inr e => ([], Some e) end).

Definition pure_native (gas : bytes -> Z) (run : bytes -> outcome vm_err bytes) : PrecompiledContract :=
  mkPrecompiled gas (fun input _ => native_result (lift id (run input))).

(** ** Contracts of Ethereum *)

Definition words (input : bytes) : Z := (zlen input + 31) / 32.

Section Ethereum.
Context `{HC : Crypto} `{HN : NativeLib} `{HB : Bn256}.

Definition ecrecover_Run (input : bytes) : outcome vm_err bytes :=
  let input := RightPadBytes input 128 in
  let r := be_value (take 32 (drop 64 input)) in
  let s := be_value (take 32 (drop 96 input)) in
  let v := u8 (default 0 (input !! 63%nat) - 27) in
  if negb (allZero (take 31 (drop 32 input))) || negb (ValidateSignatureValues v r s false) then Ok []
  else match recover_address (take 32 input) (take 64 (drop 64 input) ++ [v]) with
       | None => Ok []
       | Some a => Ok (LeftPadBytes a 32)
       end.

Definition ecrecover : PrecompiledContract := pure_native (fun _ => 3000) ecrecover_Run.
Definition sha256hash : PrecompiledContract := pure_native (fun input => u64 (words input * 12 + 60)) (fun input => Ok (sha256_Sum256 input)).
Definition ripemd160hash : PrecompiledContract := pure_native (fun input => u64 (words input * 120 + 600)) (fun input => Ok (LeftPadBytes (ripemd160_Sum input) 32)).
Definition dataCopy : PrecompiledContract := pure_native (fun input => u64 (words input * 3 + 15)) (fun input => Ok input).

(** *** [bigModExp] *)

(** [getData] of 32 bytes does not fail. *)
Definition word_at (input : bytes) (start : Z) : Z := match getData input start 32 with Ok d => be_value d | _ => 0 end.

Definition after_lengths (input : bytes) : bytes := if zlen input >? 96 then drop 96 input else [].

Definition modexp_complexity (x : Z) : Z :=
  if x <=? 64 then x * x
  else if x <=? 1024 then x * x / 4 + (96 * x - 3072)
  else x * x / 16 + (480 * x - 199680).

Definition modexp_expHead (input : bytes) (baseLen expLen : Z) : Z :=
  if zlen input <=? baseLen then 0
  else match getData input (big_Uint64 baseLen) (if expLen >? 32 then 32 else big_Uint64 expLen) with Ok d => be_value d | _ => 0 end.

Definition bigModExp_RequiredGas (input : bytes) : Z :=
  let baseLen := word_at input 0 in
  let expLen := word_at input 32 in
  let modLen := word_at input 64 in
  let input := after_lengths input in
  let bitlen := big_BitLen (modexp_expHead input baseLen expLen) in
  let msb := if bitlen >? 0 then bitlen - 1 else 0 in
  let adjExpLen := (if expLen >? 32 then 8 * (expLen - 32) else 0) + msb in
  let gas := modexp_complexity (BigMax modLen baseLen) * BigMax adjExpLen 1 / 20 in
  if big_BitLen gas >? 64 then MaxUint64 else big_Uint64 gas.

Definition bigModExp_Run (input : bytes) : outcome vm_err bytes :=
  let baseLen := big_Uint64 (word_at input 0) in
  let expLen := big_Uint64 (word_at input 32) in
  let modLen := big_Uint64 (word_at input 64) in
  let input := after_lengths input in
  if (baseLen =? 0) && (modLen =? 0) then Ok []
  else
    let! base := getData input 0 baseLen in
    let! exp := getData input baseLen expLen in
    let! md := getData input (u64 (baseLen + expLen)) modLen in
    if big_BitLen (be_value md) =? 0 then Ok (LeftPadBytes [] (i64 modLen))
    else Ok (LeftPadBytes (be_bytes (Zpow_facts.Zpow_mod (be_value base) (be_value exp) (be_value md))) (i64 modLen)).

Definition bigModExp : PrecompiledContract := pure_native bigModExp_RequiredGas bigModExp_Run.

(** *** The pairing curve *)

Definition newCurvePoint (blob : bytes) : outcome vm_err G1 :=
  match G1_Unmarshal blob with
  | None => Err errNotOnCurve
  | Some p => let '(gx, gy) := G1_CurvePoints p in if (bn256_P <=? gx) || (bn256_P <=? gy) then Err errInvalidCurvePoint else Ok p
  end.

Definition newTwistPoint (blob : bytes) : outcome vm_err G2 :=
  match G2_Unmarshal blob with
  | None => Err errNotOnCurve
  | Some p =>
      let '((xr, xi), (yr, yi)) := G2_CurvePoints p in
      if (bn256_P <=? xr) || (bn256_P <=? xi) || (bn256_P <=? yr) || (bn256_P <=? yi) then Err errInvalidCurvePoint else Ok p
  end.

Definition bn256Add_Run (input : bytes) : outcome vm_err bytes :=
  let! bx := getData input 0 64 in
  let! x := newCurvePoint bx in
  let! b := getData input 64 64 in
  let! y := newCurvePoint b in
  Ok (G1_Marshal (G1_Add x y)).

Definition bn256ScalarMul_Run (input : bytes) : outcome vm_err bytes :=
  let! bp := getData input 0 64 in
  let! p := newCurvePoint bp in
  let! k := getData input 64 32 in
  Ok (G1_Marshal (G1_ScalarMult p (be_value k))).

(** The loop over the pairs of points. *)
Fixpoint pairing_points (n : nat) (input : bytes) : outcome vm_err (list G1 * list G2) :=
  match n with
  | O => Ok ([], [])
  | S n =>
      let! c := newCurvePoint (take 64 input) in
      let! t := newTwistPoint (take 128 (drop 64 input)) in
      let! (cs, ts) := pairing_points n (drop 192 input) in
      Ok (c :: cs, t :: ts)
  end.

Definition true32Byte : bytes := replicate 31 0 ++ [1].
Definition false32Byte : bytes := replicate 32 0.

Definition bn256Pairing_Run (input : bytes) : outcome vm_err bytes :=
  if zlen input `mod` 192 >? 0 then Err errBadPairingInput
  else
    let! (cs, ts) := pairing_points (Z.to_nat (zlen input / 192)) input in
    Ok (if PairingCheck cs ts then true32Byte else false32Byte).

Definition bn256Add : PrecompiledContract := pure_native (fun _ => 500) bn256Add_Run.
Definition bn256ScalarMul : PrecompiledContract := pure_native (fun _ => 40000) bn256ScalarMul_Run.
Definition bn256Pairing : PrecompiledContract := pure_native (fun input => u64 (100000 + zlen input / 192 * 80000)) bn256Pairing_Run.
End Ethereum.

(** ** Privacy contracts *)

(** The signatures buyCoinNote(string,uint256), refundCoin(string,uint256),
    getCoins() and buyStamp(string,uint256). *)
Definition buyCoinNote_sig : bytes := [98; 117; 121; 67; 111; 105; 110; 78; 111; 116; 101; 40; 115; 116; 114; 105; 110; 103; 44; 117; 105; 110; 116; 50; 53; 54; 41].
Definition refundCoin_sig : bytes := [114; 101; 102; 117; 110; 100; 67; 111; 105; 110; 40; 115; 116; 114; 105; 110; 103; 44; 117; 105; 110; 116; 50; 53; 54; 41].
Definition getCoins_sig : bytes := [103; 101; 116; 67; 111; 105; 110; 115; 40; 41].
Definition buyStamp_sig : bytes := [98; 117; 121; 83; 116; 97; 109; 112; 40; 115; 116; 114; 105; 110; 103; 44; 117; 105; 110; 116; 50; 53; 54; 41].

(** The outputs of the three methods: a string and a 256-bit number. *)
Definition string_and_value : list abi_type := [StringTy; UintTy 256].

(** [coinAbi.Unpack] and [stampAbi.Unpack] into such a struct. *)
Definition unpack_request (err : vm_err) (payload : bytes) : outcome vm_err (bytes * Z) :=
  match Unpack string_and_value payload with Ok [AString s; ANum _ v] => Ok (s, v) | _ => Err err end.

Definition finney : Z := 10 ^ 15.
Definition ether : Z := 10 ^ 18.

(** The keys of the maps are texts of these numbers. *)
Definition StampValueSet : list Z :=
  [1 * finney; 2 * finney; 5 * finney; 3 * finney; 6 * finney; 9 * finney; 30 * finney; 60 * finney; 90 * finney; 200 * finney; 300 * finney; 500 * finney].
Definition WanCoinValueSet : list Z :=
  [10 * ether; 20 * ether; 50 * ether; 100 * ether; 200 * ether; 500 * ether; 1000 * ether; 5000 * ether; 50000 * ether].

Definition GetSupportWanCoinOTABalances : list Z :=
  [10 * ether; 20 * ether; 50 * ether; 100 * ether; 200 * ether; 500 * ether; 1000 * ether; 5000 * ether; 50000 * ether].
Definition GetSupportStampOTABalances : list Z := [90 * finney; 200 * finney; 500 * finney].

(** [strings.Split] at one character. *)
Fixpoint split_at (sep : Z) (s : bytes) : list bytes :=
  match s with
  | [] => [[]]
  | c :: s =>
      if c =? sep then [] :: split_at sep s
      else match split_at sep s with w :: ws => (c :: w) :: ws | [] => [[c]] end
  end.

(** [keystore.ECDSAPKCompression] *)
Definition ECDSAPKCompression (p : point) : bytes := (if Z.testbit p.2 0 then 3 else 2) :: PaddedBigBytes p.1 32.

Record RingSignInfo := mkRingSignInfo {
  PublicKeys : list point;
  KeyImage : point;
  W_Random : list Z;
  Q_Random : list Z;
  OTABalance : Z
}.

(** The elements of a list, all or none. *)
Fixpoint decode_all {A} (f : bytes -> option A) (l : list bytes) : option (list A) :=
  match l with
  | [] => Some []
  | x :: l => match f x, decode_all f l with Some a, Some r => Some (a :: r) | _, _ => None end
  end.

Definition decode_key (s : bytes) : option point := ToECDSAPub (FromHex s).
Definition decode_number (s : bytes) : option Z := match DecodeBig s with Ok n => Some n | _ => None end.

Definition DecodeRingSignOut (s : bytes) : outcome vm_err (list point * point * list Z * list Z) :=
  match split_at 43 s with
  | ps :: k :: ws :: qs :: _ =>
      match decode_all decode_key (split_at 38 ps), decode_key k, decode_all decode_number (split_at 38 ws), decode_all decode_number (split_at 38 qs) with
      | Some publickeys, Some keyimage, Some w, Some q =>
          if negb (zlen publickeys =? zlen w) || negb (zlen publickeys =? zlen q) then Err ErrInvalidRingSigned
          else Ok (publickeys, keyimage, w, q)
      | _, _, _, _ => Err ErrInvalidRingSigned
      end
  | _ => Err ErrInvalidRingSigned
  end.

Section Privacy.
Context `{HC : Crypto} `{HE : EllipticCurve}.

Definition buyIdArr : bytes := Method_Id buyCoinNote_sig.
Definition refundIdArr : bytes := Method_Id refundCoin_sig.
Definition getCoinsIdArr : bytes := Method_Id getCoins_sig.
Definition stBuyId : bytes := Method_Id buyStamp_sig.

(** [VerifyRingSign] panics if the hash of a public key is no scalar. *)
Definition verify_ring (M : bytes) (keys : list point) (image : point) (c r : list Z) : prog (res bool) :=
  match VerifyRingSign M keys image c r with
  | Ok b => ok b
  | Err _ => ok false
  | Panic => Crash (map FromECDSAPub keys)
  end.

Definition FetchRingSignInfo (hashInput ringSignedStr : bytes) : prog (res RingSignInfo) :=
  try (keys, image, w, q) <- lift id (DecodeRingSignOut ringSignedStr);
  try found <- BatCheckOTAExist (map ECDSAPKCompression keys);
  match found with
  | None => fail ErrInvalidOTASet
  | Some balanceGet =>
      try valid <- verify_ring hashInput keys image w q;
      if negb valid then fail ErrInvalidRingSigned else ok (mkRingSignInfo keys image w q balanceGet)
  end.

(** *** Buying *)

(** [ValidBuyCoinReq]; nil is no value. *)
Definition ValidBuyCoinReq (payload : bytes) (txValue : option Z) : prog (res bytes) :=
  match txValue with
  | None => fail ErrUnknown
  | Some txValue =>
      if zlen payload =? 0 then fail ErrUnknown
      else
        try (otaAddr, value) <- lift id (unpack_request errBuyCoin payload);
        if negb (value =? txValue) then fail ErrMismatchedValue
        else if negb (bool_decide (value ∈ WanCoinValueSet)) then fail errCoinValue
        else
          try wanAddr <- lift errHexutil (Decode otaAddr);
          try ax <- lift id (GetAXFromWanAddr wanAddr);
          try found <- CheckOTAAXExist ax;
          match found with Some _ => fail ErrOTAReused | None => ok wanAddr end
  end.

(** [ValidBuyStampReq]: the error of [GetAXFromWanAddr] is dropped, with nil. *)
Definition ValidBuyStampReq (payload : bytes) (txValue : option Z) : prog (res bytes) :=
  match txValue with
  | None => fail ErrUnknown
  | Some txValue =>
      if zlen payload =? 0 then fail ErrUnknown
      else
        try (otaAddr, value) <- lift id (unpack_request errBuyStamp payload);
        if negb (value =? txValue) then fail ErrMismatchedValue
        else if negb (bool_decide (value ∈ StampValueSet)) then fail errStampValue
        else
          try wanAddr <- lift errHexutil (Decode otaAddr);
          let ax := match GetAXFromWanAddr wanAddr with Ok ax => ax | _ => [] end in
          try found <- CheckOTAAXExist ax;
          match found with Some _ => fail ErrOTAReused | None => ok wanAddr end
  end.

(** The common end of [buyCoin] and [buyStamp]. *)
Definition sell (err : vm_err) (c : Contract) (wanAddr : bytes) : prog (res bytes) :=
  let value := default 0 (c_value c) in
  do add <- AddOTAIfNotExist value wanAddr;
  match add with
  | inl true =>
      let addrSrc := c_CallerAddress c in
      try balance <- look (EvGetBalance addrSrc);
      if balance >=? value
      then try _ <- look (EvSubBalance addrSrc value); ok [1]
      else fail errBalance
  | _ => fail err
  end.

Definition buyCoin (payload : bytes) (c : Contract) : prog (res bytes) :=
  try otaAddr <- ValidBuyCoinReq payload (c_value c);
  sell errBuyCoin c otaAddr.

Definition buyStamp (payload : bytes) (c : Contract) : prog (res bytes) :=
  try wanAddr <- ValidBuyStampReq payload (c_value c);
  sell errBuyStamp c wanAddr.

(** *** Paying back *)

Definition ValidRefundReq (payload from : bytes) : prog (res (bytes * Z)) :=
  if (zlen payload =? 0) || (zlen from =? 0) then fail ErrUnknown
  else
    try (ringSignedData, value) <- lift id (unpack_request errRefundCoin payload);
    try info <- FetchRingSignInfo from ringSignedData;
    if negb (OTABalance info =? value) then fail ErrMismatchedValue
    else
      let kix := FromECDSAPub (KeyImage info) in
      try found <- CheckOTAImageExist kix;
      match found with Some _ => fail ErrOTAReused | None => ok (kix, value) end.

Definition refund (payload : bytes) (c : Contract) : prog (res bytes) :=
  try (kix, value) <- ValidRefundReq payload (c_CallerAddress c);
  try _ <- AddOTAImage kix (be_bytes value);
  try _ <- look (EvAddBalance (c_CallerAddress c) value);
  ok [1].

(** *** The contracts *)

Definition wanCoin_RequiredGas (input : bytes) : Z :=
  if zlen input <? 4 then 0
  else if bool_decide (take 4 input = refundIdArr) then
    match unpack_request errRefundCoin (drop 4 input) with
    | Ok (s, _) =>
        match DecodeRingSignOut s with
        | Ok (keys, _, _, _) => u64 (u64 (4000 * zlen keys) + 20000)
        | _ => 4000
        end
    | _ => 4000
    end
  else 20000 * 2.

Definition wanCoin_Run (input : bytes) (c : Contract) : prog (res bytes) :=
  if zlen input <? 4 then fail errParameters
  else if bool_decide (take 4 input = buyIdArr) then buyCoin (drop 4 input) c
  else if bool_decide (take 4 input = refundIdArr) then refund (drop 4 input) c
  else fail errMethodId.

Definition wanCoinSC : PrecompiledContract := mkPrecompiled wanCoin_RequiredGas (fun input c => native_result (wanCoin_Run input c)).

Definition wanStamp_Run (input : bytes) (c : Contract) : prog (res bytes) :=
  if zlen input <? 4 then fail errParameters
  else if bool_decide (take 4 input = stBuyId) then buyStamp (drop 4 input) c
  else fail errMethodId.

Definition wanchainStampSC : PrecompiledContract := mkPrecompiled (fun _ => 20000 * 2) (fun input c => native_result (wanStamp_Run input c)).

(** [ValidTx] of a transaction with a payload, a value and a sender. *)
Definition wanCoin_ValidTx (payload : bytes) (value : Z) (sender : res address) : prog (res unit) :=
  if zlen payload <? 4 then fail errParameters
  else if bool_decide (take 4 payload = buyIdArr) then try _ <- ValidBuyCoinReq (drop 4 payload) (Some value); ok tt
  else if bool_decide (take 4 payload = refundIdArr) then
    try from <- Return sender;
    try _ <- ValidRefundReq (drop 4 payload) from; ok tt
  else fail errParameters.

Definition wanStamp_ValidTx (payload : bytes) (value : Z) : prog (res unit) :=
  if zlen payload <? 4 then fail errParameters
  else if bool_decide (take 4 payload = stBuyId) then try _ <- ValidBuyStampReq (drop 4 payload) (Some value); ok tt
  else fail errParameters.
End Privacy.

(** ** The table *)

(** [PrecompiledContractsByzantium] *)
Definition byzantium `{Crypto} `{EllipticCurve} `{NativeLib} `{Bn256} : Precompiles := fun a =>
  if decide (a = BytesToAddress [1]) then Some ecrecover
  else if decide (a = BytesToAddress [2]) then Some sha256hash
  else if decide (a = BytesToAddress [3]) then Some ripemd160hash
  else if decide (a = BytesToAddress [4]) then Some dataCopy
  else if decide (a = BytesToAddress [5]) then Some bigModExp
  else if decide (a = BytesToAddress [6]) then Some bn256Add
  else if decide (a = BytesToAddress [7]) then Some bn256ScalarMul
  else if decide (a = BytesToAddress [8]) then Some bn256Pairing
  else if decide (a = wanCoinPrecompileAddr) then Some wanCoinSC
  else if decide (a = wanStampPrecompileAddr) then Some wanchainStampSC
  else None.
