(* ===== verification/NativeLaws.v ===== *)
(** What the native contracts do to the state, and that they keep the promises the
    virtual machine relies on ([PrecompileLaws]).

    The privacy contracts change the state exactly as they promise, and all native
    contracts keep the promises the virtual machine relies on. *)
From S2P Require Import Prelude RlpEncode RlpDecode RlpRaw Storage IstanbulTypes ValidatorSet Trie StateDB StateSpec StateTheorems BigMath Transaction VmProg VmData VmCore VmInterp VmJump VmInv VmExec Hex Curve RingSign Abi Ota Native.
Import BitCurves.

(** ** Rules for results *)

Section Rules.
Context `{HC : Crypto}.

Lemma wp_try {A B} (p : prog (res A)) (f : A -> prog (res B)) Q m :
  wp ev_pre ev_post p (fun r m' => match r with inl a => wp ev_pre ev_post (f a) Q m' | inr e => Q (inr e) m' end) m -> wp ev_pre ev_post (rbind p f) Q m.
Proof. intros Hp. unfold rbind. apply wp_then. eapply wp_conseq; [exact Hp|]. by intros []. Qed.

Lemma wp_lift {E A B} (err : E -> vm_err) (o : outcome E A) (f : A -> prog (res B)) Q m : o <> Panic -> (forall a, o = Ok a -> wp ev_pre ev_post (f a) Q m) -> (forall e, o = Err e -> Q (inr (err e)) m) ->
  wp ev_pre ev_post (rbind (lift err o) f) Q m.
Proof. intros Hp Ha He. apply wp_try. destruct o; cbn [lift ok fail wp]; auto. done. Qed.

(** What is stored under a name. *)
Definition bytes_at (W : world) (a : address) (k : hash) : bytes := match w_accts W a with Some c => a_bytes c k | None => [] end.

Lemma wp_get_bytes {B} a k (f : bytes -> prog (res B)) Q m :
  wp ev_pre ev_post (f (bytes_at (m_world m) a k)) Q m -> wp ev_pre ev_post (rbind (look (EvGetStateByteArray a k)) f) Q m.
Proof.
  intros Hq. apply wp_try. cbn [look call pbind wp]. split; [exact I|]. intros r m' Hp.
  pose proof (ev_reads_same _ (EvGetStateByteArray a k) m r m' eq_refl Hp) as ->. destruct Hp as (res & [= <-] & [= <-]). exact Hq.
Qed.

Lemma wp_get_balance {B} a (f : Z -> prog (res B)) Q m :
  wp ev_pre ev_post (f (a_balance (acct_at (m_world m) a))) Q m -> wp ev_pre ev_post (rbind (look (EvGetBalance a)) f) Q m.
Proof.
  intros Hq. apply wp_try. cbn [look call pbind wp]. split; [exact I|]. intros r m' Hp.
  pose proof (ev_reads_same _ (EvGetBalance a) m r m' eq_refl Hp) as ->. destruct Hp as (res & [= <-] & [= <-]). unfold acct_at in Hq. by destruct (w_accts (m_world m) a).
Qed.

(** An event that changes the world. *)
Definition changed (op : state_op) (m : machine) : machine := mkMachine (w_change op (m_world m)) (m_snaps m) (m_next m).

Lemma wp_set_bytes {B} a k v (f : unit -> prog (res B)) Q m :
  wp ev_pre ev_post (f tt) Q (changed (OSetStateByteArray a k v) m) -> wp ev_pre ev_post (rbind (look (EvSetStateByteArray a k v)) f) Q m.
Proof. intros Hq. apply wp_try. cbn [look call pbind wp]. split; [exact I|]. intros [] m' (res & [= <- <-] & _). exact Hq. Qed.

Lemma wp_set_last a k v Q m : Q (inl tt) (changed (OSetStateByteArray a k v) m) -> wp ev_pre ev_post (look (EvSetStateByteArray a k v)) Q m.
Proof. intros Hq. cbn [look call pbind wp]. split; [exact I|]. intros [] m' (res & [= <- <-] & _). exact Hq. Qed.

Lemma wp_add_balance {B} a n (f : unit -> prog (res B)) Q m :
  wp ev_pre ev_post (f tt) Q (changed (OAddBalance a n) m) -> wp ev_pre ev_post (rbind (look (EvAddBalance a n)) f) Q m.
Proof. intros Hq. apply wp_try. cbn [look call pbind wp]. split; [exact I|]. intros [] m' (res & [= <- <-] & _). exact Hq. Qed.

Lemma wp_sub_balance {B} a n (f : unit -> prog (res B)) Q m :
  wp ev_pre ev_post (f tt) Q (changed (OSubBalance a n) m) -> wp ev_pre ev_post (rbind (look (EvSubBalance a n)) f) Q m.
Proof. intros Hq. apply wp_try. cbn [look call pbind wp]. split; [exact I|]. intros [] m' (res & [= <- <-] & _). exact Hq. Qed.
End Rules.

(** ** Addresses of balances *)

(** Decimal digits are hexadecimal digits, so that no letter is in such an address. *)
Definition decimal_byte (b : Z) : Prop := 0 <= b < 256 /\ b `mod` 16 <= 9.

Lemma decimal_digits fuel n acc : Forall (fun c => 48 <= c <= 57) acc -> Forall (fun c => 48 <= c <= 57) (decimal fuel n acc).
Proof.
  revert n acc. induction fuel as [|fuel IH]; intros n acc Ha; [done|]. cbn [decimal]. pose proof (Z.mod_pos_bound n 10 ltac:(lia)).
  destruct (n <? 10); [|apply IH]; constructor; auto; lia.
Qed.

Lemma fromHexChar_decimal c : 48 <= c <= 57 -> fromHexChar c = Some (c - 48).
Proof. intros. unfold fromHexChar. rewrite (proj2 (Z.leb_le _ _)), (proj2 (Z.leb_le _ _)) by lia. done. Qed.

Lemma hex_decimal n s : (length s <= n)%nat -> Forall (fun c => 48 <= c <= 57) s -> Forall decimal_byte (hex_DecodeString s).1.
Proof.
  revert s. induction n as [|n IH]; intros [|a [|b s]] Hl Hs; try (by constructor); [simpl in Hl; lia|].
  inversion_clear Hs as [|? ? Ha Hs']. inversion_clear Hs' as [|? ? Hb Hs'']. cbn [hex_DecodeString]. rewrite !fromHexChar_decimal by done.
  specialize (IH s ltac:(simpl in Hl; lia) Hs''). destruct (hex_DecodeString s) as [r e].
  constructor; [|done]. split; [lia|]. rewrite Z.add_comm, Z.mod_add by lia. rewrite Z.mod_small; lia.
Qed.

Lemma FromHex_decimal s : Forall (fun c => 48 <= c <= 57) s -> Forall decimal_byte (FromHex s).
Proof.
  intros Hs. unfold FromHex. destruct (zlen s >? 1); [|constructor]. unfold Hex2Bytes. set (t := if Has0xPrefix s then drop 2 s else s).
  assert (Forall (fun c => 48 <= c <= 57) t) by (unfold t; destruct (Has0xPrefix s); [by apply Forall_drop|done]).
  destruct (zlen t `mod` 2 =? 1); eapply hex_decimal; eauto. constructor; [lia|done].
Qed.

Lemma OTABalance2ContractAddr_decimal n : Forall decimal_byte (OTABalance2ContractAddr n).
Proof.
  unfold OTABalance2ContractAddr, HexToAddress, BytesToAddress. assert (Forall decimal_byte (FromHex (big_String n))) as H by (apply FromHex_decimal, decimal_digits; constructor).
  apply Forall_app. split; [apply Forall_replicate; split; [lia|done]|]. destruct (_ >? 20); [by apply Forall_drop|done].
Qed.

Lemma OTABalance2ContractAddr_free n : OTABalance2ContractAddr n <> otaBalanceStorageAddr /\ OTABalance2ContractAddr n <> otaImageStorageAddr.
Proof.
  pose proof (OTABalance2ContractAddr_decimal n) as H. rewrite Forall_lookup in H. specialize (H 19%nat).
  split; intros E; rewrite E in H; [destruct (H 44 eq_refl) as [_ H']|destruct (H 45 eq_refl) as [_ H']]; by vm_compute in H'.
Qed.

(** ** One-time accounts *)

Section Accounts.
Context `{HCL : CryptoLaws} `{HP : Precompiles}.

(** The balance of an account. *)
Definition ota_balance (W : world) (ax : bytes) : Z := be_value (bytes_at W otaBalanceStorageAddr (BytesToHash ax)).

Lemma balance_wp {B} ax (f : Z -> prog (res B)) Q m : zlen ax = HashLength -> wp ev_pre ev_post (f (ota_balance (m_world m) ax)) Q m ->
  wp ev_pre ev_post (rbind (GetOtaBalanceFromAX ax) f) Q m.
Proof.
  intros Hax Hq. apply wp_try. unfold GetOtaBalanceFromAX. rewrite Hax. cbn [negb Z.eqb]. change (HashLength =? HashLength) with true. cbn [negb].
  apply wp_get_bytes. unfold ota_balance in Hq. set (b := bytes_at _ _ _) in *. destruct (Z.eqb_spec (zlen b) 0) as [E|]; cbn [ok wp]; [|done].
  destruct b; [done|]. unfold zlen in E. rewrite length_cons in E. lia.
Qed.

Lemma exist_wp {B} ax (f : option Z -> prog (res B)) Q m : zlen ax = HashLength ->
  wp ev_pre ev_post (f (if ota_balance (m_world m) ax =? 0 then None else Some (ota_balance (m_world m) ax))) Q m ->
  wp ev_pre ev_post (rbind (CheckOTAAXExist ax) f) Q m.
Proof.
  intros Hax Hq. apply wp_try. unfold CheckOTAAXExist. rewrite Hax. change (HashLength =? HashLength) with true. cbn [negb].
  apply balance_wp; [done|]. by destruct (_ =? 0).
Qed.

Lemma bytes_at_ok m a k : machine_ok m -> stored_ok a (bytes_at (m_world m) a k).
Proof. intros Hm. unfold bytes_at. destruct (w_accts (m_world m) a) as [c|] eqn:E; [|split; [constructor|by left]]. by apply (mo_world m Hm a c E). Qed.

(** Looking up accounts changes nothing; what is found has [R]. *)
Definition reads (m : machine) {A} (p : prog (res A)) (R : A -> Prop) : Prop :=
  wp ev_pre ev_post p (fun r m' => m' = m /\ match r with inl a => R a | inr _ => True end) m.

Lemma reads_try m {A B} (p : prog (res A)) (f : A -> prog (res B)) R S : reads m p R -> (forall a, R a -> reads m (f a) S) -> reads m (rbind p f) S.
Proof. intros Hp Hf. apply wp_try. eapply wp_conseq; [exact Hp|]. intros [a|e] m' [-> Ha]; [by apply Hf|done]. Qed.

Lemma reads_ok m {A} (a : A) (R : A -> Prop) : R a -> reads m (ok a) R.
Proof. done. Qed.

Lemma reads_fail m {A} e (R : A -> Prop) : reads m (fail e) R.
Proof. done. Qed.

Lemma reads_lift m {E A} (err : E -> vm_err) (o : outcome E A) : o <> Panic -> reads m (lift err o) (fun a => o = Ok a).
Proof. intros Ho. by destruct o. Qed.

Lemma reads_if m {A} (b : bool) (p q : prog (res A)) R : (b = true -> reads m p R) -> (b = false -> reads m q R) -> reads m (if b then p else q) R.
Proof. destruct b; auto. Qed.
End Accounts.

Create HintDb reads_db.
#[export] Hint Resolve reads_ok reads_fail : reads_db.

Section Reading.
Context `{HCL : CryptoLaws} `{HP : Precompiles} `{HE : EllipticCurve} (m : machine) (Hm : machine_ok m).

(** The balance that is found, if it is not zero. *)
Definition found_balance (ax : bytes) : option Z := if ota_balance (m_world m) ax =? 0 then None else Some (ota_balance (m_world m) ax).

Lemma reads_exist ax : zlen ax = HashLength -> reads m (CheckOTAAXExist ax) (fun o => o = found_balance ax).
Proof.
  intros Ha. unfold reads, CheckOTAAXExist. rewrite Ha. change (HashLength =? HashLength) with true. cbn [negb]. apply balance_wp; [done|].
  unfold found_balance. by destruct (_ =? 0).
Qed.

Lemma exist_bad_length ax : zlen ax <> HashLength -> CheckOTAAXExist ax = fail ErrInvalidOTAAX.
Proof. intros Ha. unfold CheckOTAAXExist. by rewrite (proj2 (Z.eqb_neq _ _)). Qed.

Lemma zlen_AX (a : bytes) : 33 <= zlen a -> zlen (take 32 (drop 1 a)) = HashLength.
Proof. intros Ha. unfold zlen in *. rewrite length_take, length_drop. change HashLength with 32. lia. Qed.

(** The account that is stored is sliced, which needs 33 bytes. *)
Lemma ota_balance_nonneg ax : 0 <= ota_balance (m_world m) ax.
Proof. unfold ota_balance. by apply be_value_bound, (bytes_at_ok m otaBalanceStorageAddr (BytesToHash ax)). Qed.

(** What is found has a positive balance. *)
Definition positive (o : option Z) : Prop := forall b, o = Some b -> 0 < b.

Lemma reads_long a : reads m (CheckOTALongAddrExist a) positive.
Proof.
  unfold reads, CheckOTALongAddrExist. destruct (Z.eqb_spec (zlen a) 33) as [Ha|]; cbn [negb]; [|done].
  apply balance_wp; [apply zlen_AX; lia|]. pose proof (ota_balance_nonneg (take 32 (drop 1 a))) as Hnn. set (b := ota_balance _ _) in *. destruct (Z.eqb_spec b 0); [done|].
  assert (positive (Some b)) as Hb by (intros ? [= <-]; lia). apply wp_get_bytes. set (st := bytes_at _ _ _).
  destruct (Z.eqb_spec (zlen st) 0) as [|Hn]; [done|].
  assert (zlen st = WAddressLength) as Hs.
  { destruct (bytes_at_ok m (OTABalance2ContractAddr b) (BytesToHash (take 32 (drop 1 a))) Hm) as [_ [E|E]]; [apply OTABalance2ContractAddr_free..| |done].
    exfalso. apply Hn. unfold st. by rewrite E. }
  destruct (slice_ok (E := vm_err) st 0 33) as (r & -> & _); [lia|rewrite Hs; done|]. cbn [lift id]. unfold ok. cbn [rbind pbind wp]. by destruct (bool_decide _).
Qed.

Lemma reads_bat l b : positive b -> reads m (bat_check l b) positive.
Proof.
  revert b. induction l as [|a l IH]; intros b Hb; cbn [bat_check]; [done|]. apply reads_if; [done|]. intros _. apply (reads_try m _ _ _ _ (reads_long a)).
  intros [v|] Hv; [|done]. apply reads_if; [done|]. intros _. destruct b as [b|]; [|by apply IH]. apply reads_if; [intros _; by apply IH|done].
Qed.

(** The value stored for a key image. *)
Definition image_value (W : world) (k : bytes) : bytes := bytes_at W otaImageStorageAddr (Keccak256 k).

Lemma reads_image k : reads m (CheckOTAImageExist k) (fun o => o = if zlen (image_value (m_world m) k) =? 0 then None else Some (image_value (m_world m) k)).
Proof. unfold reads, CheckOTAImageExist. destruct (zlen k =? 0); [done|]. apply wp_get_bytes. unfold image_value. by destruct (_ =? 0). Qed.

(** ** Ring signatures *)

Definition on_curve (p : point) : Prop := IsOnCurve S256 p.1 p.2 = true.

(** The C library multiplies every point by every scalar. *)
Context (mul_total : forall p k, on_curve p -> zlen k <= 32 -> 0 < be_value k < secp256k1_N -> is_Some (curve_mul p k)).

Definition small_number (n : Z) : Prop := 0 <= n < 2 ^ 256.

Lemma small_bytes n : small_number n -> zlen (be_bytes n) <= 32.
Proof.
  intros [H0 H1]. unfold be_bytes. rewrite zlen_be_pad. destruct (Z.eq_dec n 0) as [->|]; [done|]. pose proof (byte_len_bounds n ltac:(lia)) as [B _].
  assert (256 ^ (Z.of_nat (byte_len n) - 1) < 256 ^ 32) as P by (change (256 ^ 32) with (2 ^ 256); lia). apply Z.pow_lt_mono_r_iff in P; lia.
Qed.

Lemma ScalarMult_small p n : small_number n -> ScalarMult p (be_bytes n) = Ok (curve_mul p (be_bytes n)).
Proof. intros Hn. apply small_bytes in Hn. unfold ScalarMult. rewrite Z.gtb_ltb, (proj2 (Z.ltb_ge _ _)) by lia. done. Qed.

Lemma verify_left_total keys cs rs sum : Forall small_number cs -> Forall small_number rs -> exists o, verify_left keys cs rs sum = Ok o.
Proof.
  revert cs rs sum. induction keys as [|key keys IH]; intros [|c cs] [|r rs] sum Hc Hr; cbn [verify_left]; eauto. inversion_clear Hc. inversion_clear Hr.
  unfold ScalarBaseMult. rewrite !ScalarMult_small by done. cbn [obind]. destruct (curve_mul _ _); [|eauto]. cbn [obind]. destruct (curve_mul _ _); [|eauto].
  edestruct IH as [o ->]; [done..|]. cbn [obind]. eauto.
Qed.

(** The hash of a key is no scalar. *)
Definition bad_key (p : point) : Prop := ~ 0 < be_value (Keccak256 (FromECDSAPub p)) < secp256k1_N.

Lemma xScalarHashP_total n p : small_number n -> on_curve p -> (exists o, xScalarHashP (be_bytes n) p = Ok o) \/ bad_key p.
Proof.
  intros Hn Hp. unfold xScalarHashP, bad_key. set (h := Keccak256 (FromECDSAPub p)). assert (zlen h <= 32) as Hh by (pose proof (Keccak256_ok (FromECDSAPub p)) as [_ L]; unfold h; rewrite L; done).
  destruct (decide (0 < be_value h < secp256k1_N)) as [Hd|]; [|by right]. left. unfold ScalarMult at 1. rewrite Z.gtb_ltb, (proj2 (Z.ltb_ge _ _)) by lia. cbn [obind].
  destruct (mul_total p h Hp Hh Hd) as [q ->]. rewrite ScalarMult_small by done. eauto.
Qed.

Lemma verify_right_total image keys cs rs : Forall small_number cs -> Forall small_number rs -> Forall on_curve keys ->
  (exists o, verify_right image keys cs rs = Ok o) \/ Exists bad_key keys.
Proof.
  intros Hc Hr Hk. revert cs rs Hc Hr. induction Hk as [|key keys Hkey Hk IH]; intros [|c cs] [|r rs] Hc Hr; cbn [verify_right]; eauto. inversion_clear Hc. inversion_clear Hr.
  destruct (xScalarHashP_total r key) as [[o ->]|]; [done|done| |by right; apply Exists_cons_hd]. cbn [obind]. destruct o as [l|]; [|eauto].
  rewrite ScalarMult_small by done. cbn [obind]. destruct (curve_mul _ _); [|eauto]. destruct (IH cs rs) as [[o ->]|]; [done|done| |by right; apply Exists_cons_tl].
  cbn [obind]. eauto.
Qed.

Lemma verify_total M keys image cs rs : Forall small_number cs -> Forall small_number rs -> Forall on_curve keys ->
  (exists b, VerifyRingSign M keys image cs rs = Ok b) \/ Exists bad_key keys.
Proof.
  intros Hc Hr Hk. unfold VerifyRingSign. destruct (_ || _); [eauto|]. destruct (verify_left_total keys cs rs 0 Hc Hr) as [o ->]. cbn [obind]. destruct o as [[ls sum]|]; [|eauto].
  destruct (verify_right_total image keys cs rs Hc Hr Hk) as [[o ->]|]; [|by right]. cbn [obind]. destruct o; eauto.
Qed.

(** *** Requests *)

Lemma decode_all_ok {A} (f : bytes -> option A) (R : A -> Prop) l r : (forall x a, f x = Some a -> R a) -> decode_all f l = Some r -> Forall R r.
Proof.
  intros Hf. revert r. induction l as [|x l IH]; intros r; cbn [decode_all]; [by intros [= <-]; constructor|].
  destruct (f x) as [a|] eqn:Ea; [|done]. destruct (decode_all f l); [|done]. intros [= <-]. constructor; [by eapply Hf|by apply IH].
Qed.

Lemma decode_key_ok s p : decode_key s = Some p -> on_curve p.
Proof.
  unfold decode_key, ToECDSAPub. destruct (negb _); [done|]. destruct (Unmarshal S256 _) as [[x y]|]; [|done].
  destruct (_ || _) eqn:E; [done|]. intros [= <-]. apply orb_false_iff in E as [_ E]. unfold on_curve. by apply negb_false_iff in E.
Qed.

Lemma decode_number_ok s n : decode_number s = Some n -> small_number n.
Proof. unfold decode_number. destruct (DecodeBig s) as [k| |] eqn:E; [|done..]. intros [= <-]. by apply DecodeBig_exact in E as [? _]. Qed.

Lemma DecodeRingSignOut_ok s keys image w q : DecodeRingSignOut s = Ok (keys, image, w, q) ->
  Forall on_curve keys /\ Forall small_number w /\ Forall small_number q.
Proof.
  unfold DecodeRingSignOut. destruct (split_at 43 s) as [|ps [|k [|ws [|qs r]]]]; try done.
  destruct (decode_all decode_key _) as [pk|] eqn:Ek; [|done]. destruct (decode_key k); [|done]. destruct (decode_all decode_number (split_at 38 ws)) as [w'|] eqn:Ew; [|done].
  destruct (decode_all decode_number (split_at 38 qs)) as [q'|] eqn:Eq; [|done]. destruct (_ || _); [done|]. intros [= <- <- <- <-].
  split_and!; eapply decode_all_ok; eauto using decode_key_ok, decode_number_ok.
Qed.

Lemma DecodeRingSignOut_no_panic s : DecodeRingSignOut s <> Panic.
Proof. unfold DecodeRingSignOut. repeat (case_match; try done). Qed.

Lemma unpack_request_no_panic err payload : unpack_request err payload <> Panic.
Proof. unfold unpack_request. repeat (case_match; try done). Qed.

(** The key image a request proves. *)
Lemma reads_fetch M s : reads m (FetchRingSignInfo M s) (fun info => 0 < OTABalance info /\ exists keys w q, DecodeRingSignOut s = Ok (keys, KeyImage info, w, q)).
Proof.
  unfold reads, FetchRingSignInfo. apply wp_lift; [apply DecodeRingSignOut_no_panic| |done]. intros [[[keys image] w] q] E.
  destruct (DecodeRingSignOut_ok _ _ _ _ _ E) as (Hk & Hw & Hq). apply wp_try.
  assert (reads m (BatCheckOTAExist (map ECDSAPKCompression keys)) positive) as Hbat by (unfold BatCheckOTAExist; apply reads_if; [done|intros _; by apply reads_bat]).
  eapply wp_conseq; [exact Hbat|]. intros [[b|]|e] m' [-> Hp]; [|done..]. specialize (Hp b eq_refl). unfold verify_ring.
  destruct (verify_total M keys image w q Hw Hq Hk) as [[v ->]|Hbad].
  - cbn [rbind pbind ok wp]. destruct v; [|done]. cbn [negb wp ok]. split; [done|]. simpl. eauto.
  - destruct (VerifyRingSign M keys image w q) as [v|v|]; [destruct v; [|done]; cbn [rbind pbind ok wp negb]; split; [done|]; simpl; eauto|done|]. cbn [rbind pbind wp]. right.
    apply Exists_exists in Hbad as (p & Hin & Hb). exists (FromECDSAPub p). split; [|done]. apply list_elem_of_fmap. eauto.
Qed.

Lemma Decode_no_panic s : Decode s <> Panic.
Proof. unfold Decode. repeat (case_match; try done). Qed.

Lemma Decode_bytes s b : Decode s = Ok b -> bytes_ok b.
Proof. intros E. by apply hex_exact in E as [? _]. Qed.

Lemma GetAX_no_panic a : GetAXFromWanAddr a <> Panic.
Proof. unfold GetAXFromWanAddr. by destruct (negb _). Qed.

(** The account and value of a request to buy. *)
Definition buy_request (payload : bytes) : option (bytes * Z) :=
  match Unpack string_and_value payload with
  | Ok [AString s; ANum _ v] => match Decode s with Ok a => Some (a, v) | _ => None end
  | _ => None
  end.

(** What is known of an account that may be sold. *)
Definition sellable (values : list Z) (payload : bytes) (value : option Z) (a : bytes) : Prop :=
  exists v, value = Some v /\ v ∈ values /\ buy_request payload = Some (a, v) /\ (bytes_ok a /\ zlen a = WAddressLength) /\ ota_balance (m_world m) (take 32 (drop 1 a)) = 0.

Lemma found_none ax : None = found_balance ax -> ota_balance (m_world m) ax = 0.
Proof. unfold found_balance. destruct (Z.eqb_spec (ota_balance (m_world m) ax) 0); congruence. Qed.

Lemma unpack_request_inv err payload s v : unpack_request err payload = Ok (s, v) -> exists k, Unpack string_and_value payload = Ok [AString s; ANum k v].
Proof. unfold unpack_request. repeat (case_match; try done). intros [= <- <-]. eauto. Qed.

Lemma reads_buyCoinReq payload value : reads m (ValidBuyCoinReq payload value) (sellable WanCoinValueSet payload value).
Proof.
  unfold ValidBuyCoinReq. destruct value as [v|]; [|done]. apply reads_if; [done|]. intros _.
  apply (reads_try m _ _ _ _ (reads_lift m _ _ (unpack_request_no_panic errBuyCoin payload))). intros [ota value] Eu.
  apply reads_if; [done|]. intros Ev. apply negb_false_iff, Z.eqb_eq in Ev as ->. apply reads_if; [done|]. intros Es. apply negb_false_iff, bool_decide_eq_true in Es.
  apply (reads_try m _ _ _ _ (reads_lift m _ _ (Decode_no_panic ota))). intros wan Ed.
  apply (reads_try m _ _ _ _ (reads_lift m _ _ (GetAX_no_panic wan))). intros ax Ea. unfold GetAXFromWanAddr in Ea.
  destruct (Z.eqb_spec (zlen wan) WAddressLength) as [Hw|]; [|done]. injection Ea as <-.
  apply (reads_try m _ _ _ _ (reads_exist _ ltac:(apply zlen_AX; rewrite Hw; done))). intros [b|] Ef; [done|]. apply reads_ok.
  apply unpack_request_inv in Eu as [k Eu]. exists v. split_and!; eauto using found_none, Decode_bytes. unfold buy_request. by rewrite Eu, Ed.
Qed.

Lemma reads_buyStampReq payload value : reads m (ValidBuyStampReq payload value) (sellable StampValueSet payload value).
Proof.
  unfold ValidBuyStampReq. destruct value as [v|]; [|done]. apply reads_if; [done|]. intros _.
  apply (reads_try m _ _ _ _ (reads_lift m _ _ (unpack_request_no_panic errBuyStamp payload))). intros [ota value] Eu.
  apply reads_if; [done|]. intros Ev. apply negb_false_iff, Z.eqb_eq in Ev as ->. apply reads_if; [done|]. intros Es. apply negb_false_iff, bool_decide_eq_true in Es.
  apply (reads_try m _ _ _ _ (reads_lift m _ _ (Decode_no_panic ota))). intros wan Ed. unfold GetAXFromWanAddr.
  destruct (Z.eqb_spec (zlen wan) WAddressLength) as [Hw|]; cbn [negb]; [|by rewrite exist_bad_length].
  apply (reads_try m _ _ _ _ (reads_exist _ ltac:(apply zlen_AX; rewrite Hw; done))). intros [b|] Ef; [done|]. apply reads_ok.
  apply unpack_request_inv in Eu as [k Eu]. exists v. split_and!; eauto using found_none, Decode_bytes. unfold buy_request. by rewrite Eu, Ed.
Qed.

(** The key image and value of a request to be paid. *)
Definition refund_request (payload : bytes) : option (bytes * Z) :=
  match Unpack string_and_value payload with
  | Ok [AString s; ANum _ v] => match DecodeRingSignOut s with Ok (_, image, _, _) => Some (FromECDSAPub image, v) | _ => None end
  | _ => None
  end.

Lemma reads_refundReq payload from : reads m (ValidRefundReq payload from)
  (fun '(kix, v) => refund_request payload = Some (kix, v) /\ image_value (m_world m) kix = []).
Proof.
  unfold ValidRefundReq. apply reads_if; [done|]. intros _.
  apply (reads_try m _ _ _ _ (reads_lift m _ _ (unpack_request_no_panic errRefundCoin payload))). intros [data value] Eu.
  apply (reads_try m _ _ _ _ (reads_fetch from data)). intros info (_ & keys & w & q & Ed). apply reads_if; [done|]. intros _.
  apply (reads_try m _ _ _ _ (reads_image _)). intros [b|] Ei; [done|]. apply reads_ok. apply unpack_request_inv in Eu as [k Eu].
  split; [unfold refund_request; by rewrite Eu, Ed|]. destruct (Z.eqb_spec (zlen (image_value (m_world m) (FromECDSAPub (KeyImage info)))) 0) as [E|]; [|done].
  by apply zlen_0_inv.
Qed.
End Reading.

Import BitCurves.

(** ** Effects *)

Section Effects.
Context `{HCL : CryptoLaws} `{HP : Precompiles} `{HE : EllipticCurve}.
Context (mul_total : forall p k, on_curve p -> zlen k <= 32 -> 0 < be_value k < secp256k1_N -> is_Some (curve_mul p k)).

(** An account [a] of value [v] is stored. *)
Definition with_account (a : bytes) (v : Z) (m : machine) : machine :=
  let ax := BytesToHash (take 32 (drop 1 a)) in
  changed (OSetStateByteArray otaBalanceStorageAddr ax (be_bytes v)) (changed (OSetStateByteArray (OTABalance2ContractAddr v) ax a) m).

(** A key image [k] is stored with the value [v]. *)
Definition with_image (k : bytes) (v : Z) (m : machine) : machine := changed (OSetStateByteArray otaImageStorageAddr (Keccak256 k) (be_bytes v)) m.

Lemma changed_bytes_mrel m a k v : machine_ok m -> stored_ok a v -> mrel m (changed (OSetStateByteArray a k v) m).
Proof. intros Hm Hs. apply (ev_mrel unit (EvSetStateByteArray a k v) m tt); [done|by eexists|done]. Qed.

Lemma with_account_mrel m a v : machine_ok m -> bytes_ok a -> zlen a = WAddressLength -> mrel m (with_account a v m).
Proof.
  intros Hm Hb Ha. unfold with_account. set (m1 := changed _ m). assert (mrel m m1) as M1 by (apply changed_bytes_mrel; [done|]; split; [done|by right]).
  apply (mrel_trans _ m1); [done|]. apply changed_bytes_mrel; [apply M1|]. split; [apply be_bytes_ok|by intros Hne].
Qed.

Lemma with_image_mrel m k v : machine_ok m -> mrel m (with_image k v m).
Proof. intros Hm. apply changed_bytes_mrel; [done|]. split; [apply be_bytes_ok|by intros _ Hne]. Qed.

Lemma changed_bytes_balance m a k v b : a_balance (acct_at (m_world (changed (OSetStateByteArray a k v) m)) b) = a_balance (acct_at (m_world m) b).
Proof. unfold acct_at. simpl. unfold fn_set. by destruct (decide (b = a)) as [->|]. Qed.


Lemma sell_wp values payload c a err m : machine_ok m -> sellable m values payload (c_value c) a -> (forall v, v ∈ values -> 0 < v) ->
  wp ev_pre ev_post (sell err c a) (fun r m' => mrel m m' /\ match r with
    | inl ret => ret = [1] /\ exists v, c_value c = Some v /\ v ∈ values /\ buy_request payload = Some (a, v) /\ v <= a_balance (acct_at (m_world m) (c_CallerAddress c)) /\
        m' = changed (OSubBalance (c_CallerAddress c) v) (with_account a v m)
    | inr e => e = errBalance
    end) m.
Proof.
  intros Hm (v & Ev & Hv & Eb & [Hab Ha] & Hz) Hpos. unfold sell. rewrite Ev. change (default 0 (Some v)) with v. apply wp_then. set (ax := take 32 (drop 1 a)) in *.
  assert (zlen ax = HashLength) as Hax by (apply zlen_AX; rewrite Ha; done).
  assert (Eax : GetAXFromWanAddr a = Ok ax) by (unfold GetAXFromWanAddr; by rewrite Ha). unfold AddOTAIfNotExist. rewrite Eax.
  apply wp_lift; [done| |done]. intros ax' [= <-]. rewrite (BytesToHash_id ax Hax). apply exist_wp; [done|]. rewrite Hz. cbn [Z.eqb].
  apply wp_try. unfold setOTA. rewrite Eax. apply wp_lift; [done| |done]. intros ax' [= <-]. apply wp_set_bytes. unfold SetOtaBalanceToAX. rewrite Hax.
  change (HashLength =? HashLength) with true. cbn [negb]. apply wp_set_last. unfold ok at 1. match goal with |- wp _ _ (Return ?r) ?Q ?M => change (Q r M) end. cbv beta iota.
  specialize (Hpos v Hv). rewrite Z.abs_eq by lia.
  assert (Em : with_account a v m = changed (OSetStateByteArray otaBalanceStorageAddr (BytesToHash ax) (be_bytes v)) (changed (OSetStateByteArray (OTABalance2ContractAddr v) (BytesToHash ax) a) m)) by done.
  match goal with |- wp _ _ _ _ ?M => change M with (with_account a v m) end. pose proof (with_account_mrel m a v Hm Hab Ha) as M1. assert (Eq : a_balance (acct_at (m_world (with_account a v m)) (c_CallerAddress c)) = a_balance (acct_at (m_world m) (c_CallerAddress c))).
  { rewrite Em, !changed_bytes_balance. done. }
  apply wp_get_balance. rewrite Eq, Z.geb_leb. destruct (Z.leb_spec v (a_balance (acct_at (m_world m) (c_CallerAddress c)))) as [Hle|]; [|by split].
  apply wp_sub_balance. split; [|by eauto 10].
  apply (mrel_trans _ _ _ M1). apply (ev_mrel unit (EvSubBalance (c_CallerAddress c) v) (with_account a v m) tt); [apply M1|by eexists|]. unfold ev_ok. by rewrite Eq.
Qed.

Lemma WanCoinValueSet_pos v : v ∈ WanCoinValueSet -> 0 < v.
Proof. intros Hv. assert (Forall (fun v => 0 < v) WanCoinValueSet) as HF by (repeat constructor). rewrite Forall_forall in HF. auto. Qed.

Lemma StampValueSet_pos v : v ∈ StampValueSet -> 0 < v.
Proof. intros Hv. assert (Forall (fun v => 0 < v) StampValueSet) as HF by (repeat constructor). rewrite Forall_forall in HF. auto. Qed.

(** What buying does: the account is stored with its value, and the value is taken
    from the caller; the one failure after the account is stored is a balance that
    is too small. *)
Definition bought (values : list Z) (payload : bytes) (c : Contract) (m : machine) (r : res bytes) (m' : machine) : Prop :=
  match r with
  | inl ret => ret = [1] /\ exists a v, c_value c = Some v /\ v ∈ values /\ buy_request payload = Some (a, v) /\
      zlen a = WAddressLength /\ ota_balance (m_world m) (take 32 (drop 1 a)) = 0 /\
      v <= a_balance (acct_at (m_world m) (c_CallerAddress c)) /\ m' = changed (OSubBalance (c_CallerAddress c) v) (with_account a v m)
  | inr e => m' = m \/ e = errBalance
  end.

Lemma buyCoin_wp payload c m : machine_ok m -> wp ev_pre ev_post (buyCoin payload c) (fun r m' => mrel m m' /\ bought WanCoinValueSet payload c m r m') m.
Proof.
  intros Hm. unfold buyCoin. apply wp_try. eapply wp_conseq; [apply (reads_buyCoinReq m payload (c_value c))|].
  intros [a|e] m' [-> Hs]; [|split; [by apply mrel_refl|by left]]. eapply wp_conseq; [by eapply (sell_wp _ payload c a errBuyCoin m Hm Hs WanCoinValueSet_pos)|].
  intros [ret|e] m' [Hr H1]; (split; [done|]); [|by right]. destruct Hs as (v0 & _ & _ & _ & [_ Ha] & Hz). destruct H1 as (-> & v & ? & ? & ? & ? & ?). split; [done|]. exists a, v. split_and!; done.
Qed.

Lemma buyStamp_wp payload c m : machine_ok m -> wp ev_pre ev_post (buyStamp payload c) (fun r m' => mrel m m' /\ bought StampValueSet payload c m r m') m.
Proof.
  intros Hm. unfold buyStamp. apply wp_try. eapply wp_conseq; [apply (reads_buyStampReq m payload (c_value c))|].
  intros [a|e] m' [-> Hs]; [|split; [by apply mrel_refl|by left]]. eapply wp_conseq; [by eapply (sell_wp _ payload c a errBuyStamp m Hm Hs StampValueSet_pos)|].
  intros [ret|e] m' [Hr H1]; (split; [done|]); [|by right]. destruct Hs as (v0 & _ & _ & _ & [_ Ha] & Hz). destruct H1 as (-> & v & ? & ? & ? & ? & ?). split; [done|]. exists a, v. split_and!; done.
Qed.

(** What paying back does: a key image that was not there is stored with the value,
    and the value is added to the caller. *)
Definition paid (payload : bytes) (c : Contract) (m : machine) (r : res bytes) (m' : machine) : Prop :=
  match r with
  | inl ret => ret = [1] /\ exists k v, refund_request payload = Some (k, v) /\ image_value (m_world m) k = [] /\ be_bytes v <> [] /\
      m' = changed (OAddBalance (c_CallerAddress c) v) (with_image k v m)
  | inr _ => m' = m
  end.

Lemma refund_wp payload c m : machine_ok m -> wp ev_pre ev_post (refund payload c) (fun r m' => mrel m m' /\ paid payload c m r m') m.
Proof.
  intros Hm. unfold refund. apply wp_try. eapply wp_conseq; [apply (reads_refundReq m Hm mul_total payload (c_CallerAddress c))|].
  intros [[k v]|e] m' [-> Hs]; [|split; [by apply mrel_refl|done]]. destruct Hs as [Er Ei]. unfold AddOTAImage.
  destruct (_ || _) eqn:E; [split; [by apply mrel_refl|done]|]. apply orb_false_iff in E as [_ E]. apply Z.eqb_neq in E.
  apply wp_set_bytes. apply wp_add_balance. cbn [ok wp]. fold (with_image k v m). pose proof (with_image_mrel m k v Hm) as M1. split.
  - apply (mrel_trans _ _ _ M1). apply (ev_mrel unit (EvAddBalance (c_CallerAddress c) v) (with_image k v m) tt); [apply M1|by eexists|done].
  - split; [done|]. exists k, v. split_and!; try done. intros E'. apply E. by rewrite E'.
Qed.
End Effects.

(** ** Contracts without effects *)

Lemma getData_ok data start size : small data -> 0 <= start -> 0 <= size -> size + zlen data < 2 ^ 64 ->
  exists d, getData data start size = Ok d /\ bytes_ok d /\ (size < 2 ^ 63 -> zlen d = size).
Proof.
  intros [Hb Hl] Hs Hz Hw. unfold getData. set (s := if start >? zlen data then zlen data else start). pose proof (zlen_nonneg data).
  assert (0 <= s <= zlen data) as Hs' by (unfold s; rewrite Z.gtb_ltb; destruct (Z.ltb_spec (zlen data) start); lia).
  rewrite u64_id by (unfold is_u64; lia). set (e := if s + size >? zlen data then zlen data else s + size).
  assert (s <= e <= zlen data /\ e - s <= size) as He by (unfold e; rewrite Z.gtb_ltb; destruct (Z.ltb_spec (zlen data) (s + size)); lia).
  destruct (slice_ok (E := vm_err) data s e) as (r & -> & Lr & Hr); [lia|lia|]. cbn [obind]. eexists. split; [done|]. split; [apply RightPadBytes_ok; auto|].
  intros Hsz. rewrite i64_small by lia. unfold RightPadBytes. destruct (Z.leb_spec size (zlen r)); [lia|]. unfold zlen in *. rewrite length_app, length_replicate. lia.
Qed.

Lemma word_at_nonneg input start : small input -> 0 <= start -> 0 <= word_at input start.
Proof.
  intros Hi Hs. unfold word_at. destruct (getData_ok input start 32 Hi Hs ltac:(lia)) as (d & -> & Hd & _); [destruct Hi; lia|]. by apply be_value_nonneg.
Qed.

Lemma small_drop n b : small b -> small (drop n b).
Proof. intros [Hb Hl]. split; [by apply Forall_drop|]. unfold zlen in *. rewrite length_drop. lia. Qed.

Lemma after_lengths_small input : small input -> small (after_lengths input).
Proof. intros Hi. unfold after_lengths. destruct (_ >? 96); [by apply small_drop|apply small_nil]. Qed.

Lemma LeftPad_small b l : small b -> l < 2 ^ 62 -> small (LeftPadBytes b l).
Proof.
  intros [Hb Hl] H0. unfold LeftPadBytes. destruct (Z.leb_spec l (zlen b)); [by split|]. split; [apply Forall_app; split; [apply zeros_ok|done]|].
  unfold zlen in *. rewrite length_app, length_replicate. lia.
Qed.

Lemma complexity_ok x : 0 <= x -> 0 <= modexp_complexity x /\ (1 <= x -> 1 <= modexp_complexity x) /\ (2 ^ 40 <= x -> 2 ^ 76 <= modexp_complexity x).
Proof.
  intros Hx. unfold modexp_complexity. destruct (Z.leb_spec x 64); [split_and!; try nia; lia|].
  destruct (Z.leb_spec x 1024).
  - assert (0 <= x * x / 4) by (apply Z.div_pos; nia). split_and!; lia.
  - assert (0 <= x * x / 16) by (apply Z.div_pos; nia). split_and!; try lia. intros Hb. assert (2 ^ 76 <= x * x / 16); [|lia].
    apply Z.div_le_lower_bound; [lia|]. assert (2 ^ 40 * 2 ^ 40 <= x * x) by (apply Z.mul_le_mono_nonneg; lia). lia.
Qed.

(** What the price of [bigModExp] bounds. *)
Lemma modexp_price input : small input -> bigModExp_RequiredGas input < 2 ^ 62 ->
  let m := Z.max (word_at input 64) (word_at input 0) in m = 0 \/ (1 <= m < 2 ^ 40 /\ word_at input 32 < 3 * 2 ^ 62).
Proof.
  intros Hi Hg. cbv zeta. unfold bigModExp_RequiredGas in Hg.
  assert (BigMax (word_at input 64) (word_at input 0) = Z.max (word_at input 64) (word_at input 0)) as Em by (unfold BigMax; destruct (_ <? _) eqn:E; zbool; lia).
  rewrite Em in Hg. set (mx := Z.max _ _) in *. pose proof (word_at_nonneg input 0 Hi ltac:(lia)). pose proof (word_at_nonneg input 64 Hi ltac:(lia)). pose proof (word_at_nonneg input 32 Hi ltac:(lia)).
  set (adj := (if word_at input 32 >? 32 then _ else 0) + _) in Hg. assert (Ha : 8 * (word_at input 32 - 32) <= adj).
  { unfold adj. rewrite Z.gtb_ltb. set (bl := big_BitLen _). assert (0 <= (if bl >? 0 then bl - 1 else 0)) by (destruct (Z.gtb_spec bl 0); lia). destruct (Z.ltb_spec 32 (word_at input 32)); lia. }
  set (y := BigMax adj 1) in Hg. assert (adj <= y /\ 1 <= y) as [Hy Hy1] by (unfold y, BigMax; destruct (_ <? _) eqn:E; zbool; lia).
  destruct (complexity_ok mx ltac:(lia)) as (C0 & C1 & C2). set (gas := modexp_complexity mx * y / 20) in Hg.
  assert (0 <= gas) as G0 by (apply Z.div_pos; [nia|lia]).
  assert (gas < 2 ^ 62) as G.
  { destruct (Z.lt_ge_cases gas (2 ^ 62)) as [|Hge]; [done|]. exfalso. destruct (big_BitLen gas >? 64) eqn:Eb; [change MaxUint64 with (2 ^ 64 - 1) in Hg; lia|].
    rewrite Z.gtb_ltb in Eb. apply Z.ltb_ge in Eb. rewrite big_Uint64_id in Hg; [lia|]. split; [done|]. rewrite <- (Z.abs_eq gas) by done. by apply big_BitLen_bound. }
  assert (modexp_complexity mx * y < 20 * 2 ^ 62) as G' by (pose proof (Z.div_mod (modexp_complexity mx * y) 20 ltac:(lia)) as D; pose proof (Z.mod_pos_bound (modexp_complexity mx * y) 20 ltac:(lia)); change (modexp_complexity mx * y / 20) with gas in D; lia).
  destruct (Z.eq_dec mx 0) as [|Hne]; [by left|]. right. assert (1 <= mx) by lia. specialize (C1 ltac:(lia)). split; [split; [lia|]|].
  - destruct (Z.lt_ge_cases mx (2 ^ 40)) as [|Hge]; [done|]. specialize (C2 Hge). nia.
  - assert (y <= modexp_complexity mx * y) by nia. lia.
Qed.

Lemma bigModExp_safe input : small input -> bigModExp_RequiredGas input < 2 ^ 62 -> exists r, bigModExp_Run input = Ok r /\ small r.
Proof.
  intros Hi Hg. pose proof (modexp_price input Hi Hg) as Hp. cbv zeta in Hp. unfold bigModExp_Run.
  pose proof (word_at_nonneg input 0 Hi ltac:(lia)) as W0. pose proof (word_at_nonneg input 64 Hi ltac:(lia)) as W2. pose proof (word_at_nonneg input 32 Hi ltac:(lia)) as W1.
  set (b := word_at input 0) in *. set (e := word_at input 32) in *. set (md := word_at input 64) in *. clearbody b e md.
  destruct Hp as [Hz|[Hm He]].
  { assert (b = 0 /\ md = 0) as [-> ->] by lia. change (big_Uint64 0) with 0. cbn [Z.eqb andb]. eauto using small_nil. }
  rewrite !big_Uint64_id by (unfold is_u64; lia). destruct (_ && _) eqn:E; [eauto using small_nil|]. pose proof (after_lengths_small input Hi) as Ha. set (rest := after_lengths input) in *.
  assert (zlen rest < 2 ^ 62) by apply Ha.
  destruct (getData_ok rest 0 b Ha) as (d1 & -> & H1 & _); [lia..|]. cbn [obind]. destruct (getData_ok rest b e Ha) as (d2 & -> & H2 & _); [lia..|]. cbn [obind].
  pose proof (u64_range (b + e)) as [U0 _]. destruct (getData_ok rest (u64 (b + e)) md Ha) as (d3 & -> & H3 & L3); [lia..|]. cbn [obind].
  rewrite i64_small by lia. destruct (Z.eqb_spec (big_BitLen (be_value d3)) 0) as [|Hn]; [eexists; split; [done|]; apply LeftPad_small; [apply small_nil|lia]|].
  eexists. split; [done|]. apply LeftPad_small; [|lia]. split; [apply be_bytes_ok|]. specialize (L3 ltac:(lia)).
  pose proof (be_value_bound d3 H3) as V3. assert (be_value d3 <> 0) by (intros E0; by rewrite E0 in Hn).
  rewrite Zpow_facts.Zpow_mod_correct by lia. set (x := _ `mod` be_value d3). assert (0 <= x < be_value d3) by (apply Z.mod_pos_bound; lia).
  unfold be_bytes. rewrite zlen_be_pad. destruct (Z.eq_dec x 0) as [->|]; [done|]. pose proof (byte_len_bounds x ltac:(lia)) as [B _].
  assert (256 ^ (Z.of_nat (byte_len x) - 1) < 256 ^ zlen d3) as P by lia. apply Z.pow_lt_mono_r_iff in P; lia.
Qed.

(** ** The promises *)

(** What is relied on of the libraries: sizes of results, and that the C library
    multiplies points by scalars. *)
Class NativeLaws `{HC : Crypto} `{HE : EllipticCurve} `{HN : NativeLib} `{HB : Bn256} := {
  sha256_ok b : bytes_ok (sha256_Sum256 b) /\ zlen (sha256_Sum256 b) = 32;
  ripemd160_ok b : bytes_ok (ripemd160_Sum b) /\ zlen (ripemd160_Sum b) = 20;
  G1_Marshal_ok p : bytes_ok (G1_Marshal p) /\ zlen (G1_Marshal p) = 64;
  mul_total p k : on_curve p -> zlen k <= 32 -> 0 < be_value k < secp256k1_N -> is_Some (curve_mul p k)
}.

Section Table.
Context `{HCL : CryptoLaws} `{HE : EllipticCurve} `{HN : NativeLib} `{HB : Bn256} {HNL : NativeLaws}.

#[local] Existing Instance byzantium.

Definition keeps (input : bytes) (o : outcome vm_err bytes) : Prop := match o with Ok r => small r | Err _ => True | Panic => False end.

(** A contract without effects that does not panic. *)
Lemma pure_native_wp gas run input c m : machine_ok m -> keeps input (run input) ->
  wp ev_pre ev_post (pc_Run (pure_native gas run) input c) (fun '(ret, err) m' => small ret /\ mrel m m' /\ m_world m' = m_world m) m.
Proof.
  intros Hm Hk. unfold pure_native, native_result. cbn [pc_Run]. apply wp_then. destruct (run input) as [r|e|]; [| |done]; cbn [lift ok fail wp keeps] in *.
  - split_and!; [done|by apply mrel_refl|done].
  - split_and!; [apply small_nil|by apply mrel_refl|done].
Qed.

Lemma small_short b : bytes_ok b -> zlen b < 2 ^ 62 -> small b.
Proof. by split. Qed.

Lemma ecrecover_keeps input : keeps input (ecrecover_Run input).
Proof.
  unfold ecrecover_Run. destruct (_ || _); [apply small_nil|]. destruct (recover_address _ _) as [a|] eqn:E; [|apply small_nil].
  apply recover_ok in E as [Ha Hl]. apply LeftPad_small; [|done]. split; [done|]. rewrite Hl. done.
Qed.

Lemma newCurvePoint_no_panic b : newCurvePoint b <> Panic.
Proof. unfold newCurvePoint. repeat (case_match; try done). Qed.

Lemma newTwistPoint_no_panic b : newTwistPoint b <> Panic.
Proof. unfold newTwistPoint. repeat (case_match; try done). Qed.

Lemma G1_small p : small (G1_Marshal p).
Proof. destruct (G1_Marshal_ok p) as [Hb Hl]. split; [done|]. by rewrite Hl. Qed.

Lemma bn256Add_keeps input : small input -> keeps input (bn256Add_Run input).
Proof.
  intros Hi. assert (zlen input < 2 ^ 62) by apply Hi. unfold bn256Add_Run. destruct (getData_ok input 0 64 Hi) as (d & -> & _); [lia..|]. cbn [obind].
  pose proof (newCurvePoint_no_panic d). destruct (newCurvePoint d); [|done..]. cbn [obind]. destruct (getData_ok input 64 64 Hi) as (d' & -> & _); [lia..|]. cbn [obind].
  pose proof (newCurvePoint_no_panic d'). destruct (newCurvePoint d'); [|done..]. apply G1_small.
Qed.

Lemma bn256ScalarMul_keeps input : small input -> keeps input (bn256ScalarMul_Run input).
Proof.
  intros Hi. assert (zlen input < 2 ^ 62) by apply Hi. unfold bn256ScalarMul_Run. destruct (getData_ok input 0 64 Hi) as (d & -> & _); [lia..|]. cbn [obind].
  pose proof (newCurvePoint_no_panic d). destruct (newCurvePoint d); [|done..]. cbn [obind]. destruct (getData_ok input 64 32 Hi) as (d' & -> & _); [lia..|]. apply G1_small.
Qed.

Lemma pairing_no_panic n input : pairing_points n input <> Panic.
Proof.
  revert input. induction n as [|n IH]; intros input; cbn [pairing_points]; [done|]. pose proof (newCurvePoint_no_panic (take 64 input)). destruct (newCurvePoint _); [|done..].
  cbn [obind]. pose proof (newTwistPoint_no_panic (take 128 (drop 64 input))). destruct (newTwistPoint _); [|done..]. cbn [obind]. pose proof (IH (drop 192 input)).
  destruct (pairing_points n _) as [[cs ts]| |]; done.
Qed.

Lemma bn256Pairing_keeps input : keeps input (bn256Pairing_Run input).
Proof.
  unfold bn256Pairing_Run. destruct (_ >? 0); [done|]. pose proof (pairing_no_panic (Z.to_nat (zlen input / 192)) input). destruct (pairing_points _ _) as [[cs ts]| |]; [|done..].
  cbn [obind keeps]. split; [|by destruct (PairingCheck cs ts)]. destruct (PairingCheck cs ts); [apply Forall_app; split; [apply zeros_ok|by repeat constructor]|apply zeros_ok].
Qed.

Lemma wanCoin_wp input c m : machine_ok m -> wp ev_pre ev_post (wanCoin_Run input c) (fun r m' => mrel m m' /\ match r with inl ret => ret = [1] | inr _ => True end) m.
Proof.
  intros Hm. unfold wanCoin_Run. destruct (_ <? 4); [split; [by apply mrel_refl|done]|]. destruct (bool_decide _).
  { eapply wp_conseq; [by apply buyCoin_wp|]. intros [r|e] m' [H1 H2]; (split; [done|]); [apply H2|done]. }
  destruct (bool_decide _); [|split; [by apply mrel_refl|done]].
  eapply wp_conseq; [apply refund_wp; [apply mul_total|done]|]. intros [r|e] m' [H1 H2]; (split; [done|]); [apply H2|done].
Qed.

Lemma wanStamp_wp input c m : machine_ok m -> wp ev_pre ev_post (wanStamp_Run input c) (fun r m' => mrel m m' /\ match r with inl ret => ret = [1] | inr _ => True end) m.
Proof.
  intros Hm. unfold wanStamp_Run. destruct (_ <? 4); [split; [by apply mrel_refl|done]|]. destruct (bool_decide _); [|split; [by apply mrel_refl|done]].
  eapply wp_conseq; [by apply buyStamp_wp|]. intros [r|e] m' [H1 H2]; (split; [done|]); [apply H2|done].
Qed.

(** The contracts that only compute. *)
Definition only_computes (a : address) : bool := negb (bool_decide (a = wanCoinPrecompileAddr)) && negb (bool_decide (a = wanStampPrecompileAddr)).

Lemma privacy_native_wp (run : bytes -> Contract -> prog (res bytes)) input c m :
  wp ev_pre ev_post (run input c) (fun r m' => mrel m m' /\ match r with inl ret => ret = [1] | inr _ => True end) m ->
  wp ev_pre ev_post (native_result (run input c)) (fun '(ret, err) m' => small ret /\ mrel m m') m.
Proof.
  intros Hr. unfold native_result. apply wp_then. eapply wp_conseq; [exact Hr|]. intros [ret|e] m' [H1 H2]; cbn [wp]; [subst ret|]; (split; [|done]); [|apply small_nil].
  by apply small_short; [repeat constructor|].
Qed.

#[export] Instance byzantium_laws : PrecompileLaws.
Proof.
  refine {| pc_pure := only_computes; pc_limit := 2 ^ 62 |}.
  - intros a p input. unfold precompiled, byzantium. pose proof (zlen_nonneg input) as Hl. repeat (case_decide; [intros [= <-]; cbn [RequiredGas pure_native ecrecover sha256hash ripemd160hash dataCopy bigModExp bn256Add bn256ScalarMul bn256Pairing wanCoinSC wanchainStampSC]; try apply u64_range; try lia|]); [| |done].
    + unfold bigModExp_RequiredGas. cbv zeta. destruct (_ >? 64); [done|]. apply u64_range.
    + unfold wanCoin_RequiredGas. destruct (_ <? 4); [lia|]. destruct (bool_decide _); [|lia]. repeat (case_match; try lia). apply u64_range.
  - intros a p input c m Hp Hi _ Hm Hg.
    assert (Hpure : forall gas run, p = pure_native gas run -> keeps input (run input) ->
      wp ev_pre ev_post (pc_Run p input c) (fun '(ret, err) m' => small ret /\ mrel m m' /\ (only_computes a = true -> m_world m' = m_world m)) m).
    { intros gas run -> Hk. eapply wp_conseq; [by eapply pure_native_wp|]. intros [ret err] m' (H1 & H2 & H3). auto. }
    assert (Heff : forall gas run, p = mkPrecompiled gas (fun input c => native_result (run input c)) -> only_computes a = false ->
      wp ev_pre ev_post (run input c) (fun r m' => mrel m m' /\ match r with inl ret => ret = [1] | inr _ => True end) m ->
      wp ev_pre ev_post (pc_Run p input c) (fun '(ret, err) m' => small ret /\ mrel m m' /\ (only_computes a = true -> m_world m' = m_world m)) m).
    { intros gas run -> Ha Hw. cbn [pc_Run]. eapply wp_conseq; [by apply privacy_native_wp|]. intros [ret err] m' (H1 & H2). split_and!; [done|done|congruence]. }
    unfold precompiled, byzantium in Hp.
    repeat (case_decide; [injection Hp as <-; try (by eapply Hpure; [reflexivity|auto using ecrecover_keeps, bn256Add_keeps, bn256ScalarMul_keeps, bn256Pairing_keeps])|]); [..|done].
    + eapply Hpure; [reflexivity|]. destruct (sha256_ok input) as [Hb Hl]. apply small_short; [done|]. by rewrite Hl.
    + eapply Hpure; [reflexivity|]. destruct (ripemd160_ok input) as [Hb Hl]. apply LeftPad_small; [|done]. apply small_short; [done|]. by rewrite Hl.
    + eapply Hpure; [reflexivity|]. destruct (bigModExp_safe input Hi Hg) as (r & -> & Hr). exact Hr.
    + eapply Heff; [reflexivity|subst a; reflexivity|by apply wanCoin_wp].
    + eapply Heff; [reflexivity|subst a; reflexivity|by apply wanStamp_wp].
Defined.
End Table.
