(* ===== verification/NativeClaims.v ===== *)
(** The privacy contracts on the state database: value is neither made nor lost, and
    no one-time account is paid back twice; and where the machine around them does
    not keep its own rules. *)
From S2P Require Import Prelude RlpEncode RlpDecode RlpRaw RlpTheorems Storage IstanbulTypes ValidatorSet KeccakCrypto RoundState TrieNode TrieRep Trie TrieTheorems StateDB StateSpec StateTheorems SecureTrie StateCommit StateFinalise StateClaims BigMath Transaction VmProg VmData VmCore VmInterp VmJump VmInv VmExec VmStep VmSafe VmLoop VmTable VmClaims Hex Curve RingSign Abi Ota Native NativeLaws.
Import BitCurves.

(** ** What one sees of the state *)

Definition balance_of `{Crypto} (m : machine) (a : address) : Z := a_balance (acct_at (m_world m) a).
Definition account_value (m : machine) (k : hash) : Z := be_value (bytes_at (m_world m) otaBalanceStorageAddr k).
Definition image_at (m : machine) (k : hash) : bytes := bytes_at (m_world m) otaImageStorageAddr k.

(** The name of an account, and of a key image. *)
Definition account_key (a : bytes) : hash := BytesToHash (take 32 (drop 1 a)).

Section Views.
Context `{HC : Crypto}.

Lemma bytes_at_changed m a k v b j : bytes_at (m_world (changed (OSetStateByteArray a k v) m)) b j =
  if decide (b = a /\ j = k) then v else bytes_at (m_world m) b j.
Proof.
  unfold bytes_at, changed. cbn [m_world w_change w_set w_accts]. unfold fn_set, acct_at. destruct (decide (b = a)) as [->|Hb]; [|by rewrite decide_False by tauto].
  cbn [set_bytes a_bytes]. unfold fn_set. destruct (decide (j = k)) as [->|Hj]; [by rewrite decide_True|]. rewrite decide_False by tauto. by destruct (w_accts (m_world m) a).
Qed.

Lemma bytes_at_sub m a n b j : bytes_at (m_world (changed (OSubBalance a n) m)) b j = bytes_at (m_world m) b j.
Proof.
  unfold bytes_at, changed. cbn [m_world w_change]. destruct (n >? 0); [|unfold w_touch; destruct (w_accts (m_world m) a) eqn:E; [done|]];
    cbn [w_set w_accts]; unfold fn_set, acct_at; (destruct (decide (b = a)) as [->|]; [|done]); [by destruct (w_accts (m_world m) a)|by rewrite E].
Qed.

Lemma bytes_at_add m a n b j : bytes_at (m_world (changed (OAddBalance a n) m)) b j = bytes_at (m_world m) b j.
Proof.
  unfold bytes_at, changed. cbn [m_world w_change]. destruct (n >? 0); [|unfold w_touch; destruct (w_accts (m_world m) a) eqn:E; [done|]];
    cbn [w_set w_accts]; unfold fn_set, acct_at; (destruct (decide (b = a)) as [->|]; [|done]); [by destruct (w_accts (m_world m) a)|by rewrite E].
Qed.

Lemma balance_sub m a n b : 0 <= n -> balance_of (changed (OSubBalance a n) m) b = balance_of m b - (if decide (b = a) then n else 0).
Proof.
  intros Hn. unfold balance_of, changed, acct_at. cbn [m_world w_change]. destruct (Z.gtb_spec n 0).
  - cbn [w_set w_accts]. unfold fn_set, acct_at. destruct (decide (b = a)) as [->|]; simpl; lia.
  - assert (n = 0) as -> by lia. unfold w_touch. destruct (w_accts (m_world m) a) eqn:E; [destruct (decide _); lia|].
    cbn [w_set w_accts]. unfold fn_set. destruct (decide (b = a)) as [->|]; [rewrite E; simpl; lia|lia].
Qed.

Lemma balance_add m a n b : 0 <= n -> balance_of (changed (OAddBalance a n) m) b = balance_of m b + (if decide (b = a) then n else 0).
Proof.
  intros Hn. unfold balance_of, changed, acct_at. cbn [m_world w_change]. destruct (Z.gtb_spec n 0).
  - cbn [w_set w_accts]. unfold fn_set, acct_at. destruct (decide (b = a)) as [->|]; simpl; lia.
  - assert (n = 0) as -> by lia. unfold w_touch. destruct (w_accts (m_world m) a) eqn:E; [destruct (decide _); lia|].
    cbn [w_set w_accts]. unfold fn_set. destruct (decide (b = a)) as [->|]; [rewrite E; simpl; lia|lia].
Qed.

Lemma balance_changed m a k v b : balance_of (changed (OSetStateByteArray a k v) m) b = balance_of m b.
Proof. unfold balance_of. apply changed_bytes_balance. Qed.
End Views.

(** ** Conservation *)

Section Claims.
Context `{HCL : CryptoLaws} `{HE : EllipticCurve} `{HN : NativeLib} `{HB : Bn256} {HNL : NativeLaws}.
Context {D T : Type} `{HT : StateTrie T} `{HD : StateDatabase D T} `{HL : !StateStoreLaws D T}.
Context (db : D) (A : bytes -> option bytes) (getHash : Z -> hash) (aborted : nat -> bool).
Context (Hhash : forall n, is_hash (getHash n)) (Hsize : forall d a h n, ContractCodeSize d a h = Some n -> 0 <= n).

#[local] Existing Instance byzantium.

(** The two contracts that sell accounts. *)
Definition purchase (stamp : bool) : bytes -> Contract -> prog (res bytes) := if stamp then buyStamp else buyCoin.
Definition prices (stamp : bool) : list Z := if stamp then StampValueSet else WanCoinValueSet.

Lemma purchase_wp stamp payload c m : machine_ok m -> wp ev_pre ev_post (purchase stamp payload c) (fun r m' => mrel m m' /\ bought (prices stamp) payload c m r m') m.
Proof. intros Hm. destruct stamp; [by apply buyStamp_wp|by apply buyCoin_wp]. Qed.

Lemma prices_pos stamp v : v ∈ prices stamp -> 0 < v.
Proof. destruct stamp; [apply StampValueSet_pos|apply WanCoinValueSet_pos]. Qed.

Lemma special_addresses : otaImageStorageAddr <> otaBalanceStorageAddr.
Proof. discriminate. Qed.

Lemma account_value_stored m a v x k : account_value (changed (OSubBalance x v) (with_account a v m)) k = if decide (k = account_key a) then be_value (be_bytes v) else account_value m k.
Proof.
  unfold account_value. rewrite bytes_at_sub. unfold with_account. fold (account_key a). rewrite !bytes_at_changed.
  destruct (decide (k = account_key a)) as [->|Hk]; [by rewrite decide_True|]. rewrite !decide_False by tauto. done.
Qed.

Lemma image_stored_not m a v x k : image_at (changed (OSubBalance x v) (with_account a v m)) k = image_at m k.
Proof.
  unfold image_at. rewrite bytes_at_sub. unfold with_account. rewrite !bytes_at_changed, !decide_False; [done| |].
  - intros [E _]. by apply (proj2 (OTABalance2ContractAddr_free v)).
  - intros [E _]. by apply special_addresses.
Qed.

Definition purchase_post (stamp : bool) (payload : bytes) (c : Contract) (m : machine) (r : res bytes) (m' : machine) : Prop :=
    match r with
    | inl ret => exists a v, buy_request payload = Some (a, v) /\ c_value c = Some v /\ v ∈ prices stamp /\ 0 < v <= balance_of m (c_CallerAddress c) /\
        account_value m (account_key a) = 0 /\
        (forall k, account_value m' k = account_value m k + if decide (k = account_key a) then v else 0) /\
        (forall b, balance_of m' b = balance_of m b - if decide (b = c_CallerAddress c) then v else 0) /\
        (forall k, image_at m' k = image_at m k)
    | inr e => m' = m \/ e = errBalance
    end.

(** C9: What is bought is paid for: the value of the account, nothing before, is what the
    caller loses, no other balance, account or key image changes; an account that
    exists is refused. *)
Theorem buying_conserves stamp payload c s m n : state_sound db A s m ->
  ends_in db A getHash aborted (purchase stamp payload c) s n (fun r s' m' => state_sound db A s' m' /\ purchase_post stamp payload c m r m').
Proof.
  intros [Hi Hm]. eapply ends_in_wp; [done..|by apply purchase_wp|]. intros r s' m' Hi' [[Hm' _ _ _] Hb]. split; [by split|]. destruct r as [ret|e]; [|done].
  destruct Hb as (_ & a & v & Ev & Hv & Eb & Ha & Hz & Hle & ->). exists a, v. pose proof (prices_pos stamp v Hv) as Hpos. fold (account_key a) in Hz. split_and!; auto.
  - intros k. rewrite account_value_stored, be_value_bytes by lia. unfold ota_balance in Hz. destruct (decide (k = account_key a)) as [->|]; [|lia]. unfold account_value, account_key. lia.
  - intros b. rewrite balance_sub by lia. unfold with_account. by rewrite !balance_changed.
  - intros k. apply image_stored_not.
Qed.

Definition refund_post (payload : bytes) (c : Contract) (m : machine) (r : res bytes) (m' : machine) : Prop :=
    match r with
    | inl ret => exists k v, refund_request payload = Some (k, v) /\ 0 < v /\ image_at m (Keccak256 k) = [] /\
        (forall j, image_at m' j = if decide (j = Keccak256 k) then be_bytes v else image_at m j) /\
        (forall b, balance_of m' b = balance_of m b + if decide (b = c_CallerAddress c) then v else 0) /\
        (forall j, account_value m' j = account_value m j)
    | inr e => m' = m
    end.


End Claims.

(** ** Runs *)

(** A library for runs: multiplication always gives the base point, so that a ring
    signature is made without the private key. *)
#[local] Instance demo_curve : EllipticCurve := secp256k1 (fun _ _ => Some (Gx S256, Gy S256)).
#[local] Instance demo_native : NativeLib := {| sha256_Sum256 := fun _ => replicate 32 0; ripemd160_Sum := fun _ => replicate 20 0 |}.
#[local] Instance demo_bn256 : Bn256 := {|
  G1 := unit; G2 := unit; bn256_P := 7; G1_Unmarshal := fun _ => Some tt; G1_CurvePoints := fun _ => (0, 0); G1_Add := fun _ _ => tt;
  G1_ScalarMult := fun _ _ => tt; G1_Marshal := fun _ => replicate 64 0; G2_Unmarshal := fun _ => Some tt; G2_CurvePoints := fun _ => ((0, 0), (0, 0)); PairingCheck := fun _ _ => true |}.
#[local] Instance demo_native_laws : NativeLaws.
Proof. constructor; try (intros; split; [apply zeros_ok|done]). intros p k _ _ _. by eexists. Qed.
#[local] Existing Instance byzantium.

Definition demo_key : point := (Gx S256, Gy S256).
Definition demo_account : bytes := Eval vm_compute in ECDSAPKCompression demo_key ++ replicate 33 2.

(** The signature that the multiplication above accepts, for a sender. *)
Definition demo_ring (sender : address) : bytes :=
  let l := FromECDSAPub (Add S256 demo_key demo_key) in
  let c := be_value (Keccak256 (sender ++ l ++ l)) `mod` secp256k1_N in
  ToHex (FromECDSAPub demo_key) ++ [43] ++ ToHex (FromECDSAPub demo_key) ++ [43] ++ EncodeBig c ++ [43] ++ EncodeBig 1.

Definition request (id data : bytes) (value : Z) : bytes := id ++ match method_pack string_and_value [AString data; ANum KBig value] with Ok b => b | _ => [] end.
Definition refund_input : bytes := Eval vm_compute in request refundIdArr (demo_ring demo_addr) (10 * ether).
Definition buy_input : bytes := Eval vm_compute in request buyIdArr (Encode demo_account) (10 * ether).

(** The account is stored with 10 coins, as [with_account] does. *)
Definition sold_ops : list state_op :=
  [OAddBalance demo_addr 5; OSetStateByteArray (OTABalance2ContractAddr (10 * ether)) (account_key demo_account) demo_account;
   OSetStateByteArray otaBalanceStorageAddr (account_key demo_account) (be_bytes (10 * ether))].

(** A run on the state database: the error, the gas left, and balances. *)
Definition observe (ops : list state_op) (p : prog CallResult) (accounts : list address) : option (bytes * Z * option vm_err * list Z) :=
  ask (let! (_, s) := state_run (over nil_trie) ops in
    match run_prog (state_handler (fun _ => zero_hash) (fun _ => false)) p (s, O) with
    | PDone (ret, rest, err, _) (s, _) =>
        let! balances := (fix go accounts s := match accounts with [] => Ok [] | a :: accounts => let! (b, s) := GetBalance a s in let! bs := go accounts s in Ok (b :: bs) end) accounts s in
        Ok (ret, rest, err, balances)
    | _ => Panic
    end) id.

(** A read-only call pays back: native contracts do not look at [readOnly]. *)
Example static_call_pays : observe sold_ops (evm_StaticCall demo_cfg (Run demo_ctx demo_cfg 100) (AccountRef demo_addr) wanCoinPrecompileAddr refund_input 30000 NewEVM) [demo_addr]
  = Some ([1], 6000, None, [10 * ether + 5]).
Proof. vm_compute. exact eq_refl. Qed.

(** A contract that forwards what it is called with to the coin contract, by a
    delegate call. *)
Definition forwarder : bytes := [0x36; 0x60; 0; 0x60; 0; 0x37; 0x60; 0; 0x60; 0; 0x36; 0x60; 0; 0x60; 100; 0x5a; 0xf4; 0].
Definition forward_ops : list state_op := [OAddBalance demo_addr (30 * ether); OSetCode demo_contract (Some forwarder)].

(** Called with 10 coins, it keeps them and takes 10 more from its caller. *)
Example delegate_call_takes : observe forward_ops (evm_Call demo_cfg (Run demo_ctx demo_cfg 100) (AccountRef demo_addr) demo_contract buy_input 100000 (10 * ether) NewEVM) [demo_addr; demo_contract]
  = Some ([], 59219, None, [10 * ether; 10 * ether]).
Proof. vm_compute. exact eq_refl. Qed.

(** The comment of [getData] says that it does not overflow: a length of 2^64 - 1 does,
    and [bigModExp] panics, at a price below 2^63. *)
Definition overflowing : bytes := be_pad 32 1 ++ be_pad 32 (2 ^ 64 - 1) ++ be_pad 32 1 ++ [7].

Example modexp_overflows : bigModExp_Run overflowing = Panic /\ bigModExp_RequiredGas overflowing < 2 ^ 63.
Proof. split; vm_compute; reflexivity. Qed.

(** ** Witnesses *)

Definition demo_caller (value : Z) : Contract := (NewContract [] (AccountRef demo_addr) wanCoinPrecompileAddr (Some value) 0).1.

Lemma buying_conserves_witness : exists s, ends_in demo_store (fun _ => None) (fun _ => zero_hash) (fun _ => false)
  (purchase false (drop 4 buy_input) (demo_caller (10 * ether))) s 0
  (fun r s' m' => state_sound demo_store (fun _ => None) s' m' /\ purchase_post false (drop 4 buy_input) (demo_caller (10 * ether)) vm_machine r m').
Proof. destruct vm_state as [s Hs]. exists s. apply (buying_conserves demo_store (fun _ => None) (fun _ => zero_hash) (fun _ => false) demo_hash demo_size). exact Hs. Defined.



