(* ===== verification/Receipt.v ===== *)
(** Receipts, logs and Bloom filters: [core/types/receipt.go], [core/types/log.go],
    [core/types/bloom9.go].

    Receipts and logs have two RLP forms each, for the consensus and for storage; the
    decoders fill a receiver. A Bloom filter is an array of 256 bytes; a nil integer is
    [None] where the code leaves one. *)
From S2P Require Import Prelude RlpEncode RlpDecode RlpCodec RlpTheorems RlpRaw Storage IstanbulTypes ValidatorSet KeccakCrypto StateDB.

(** ** Logs *)

Definition log_hashes (l : list hash) : value := VSlice (map VBytes l).

Definition Log_EncodeRLP (l : Log) : value :=
  VStruct [VBytes (log_Address l); log_hashes (log_Topics l); VBytes (log_Data l)].

(** The derived fields of the receiver stay. *)
Definition Log_DecodeRLP (l : Log) : SM Log :=
  let* (a, (t, (d, _))) := makeStructDecoder (field_cons (decodeByteArray AddressLength)
    (field_cons (decodeListSlice (decodeByteArray HashLength)) (field_cons decodeByteSlice field_nil))) in
  sret (mkLog a t d (log_BlockNumber l) (log_TxHash l) (log_TxIndex l) (log_BlockHash l) (log_Index l) (log_Removed l)).

Definition LogForStorage_EncodeRLP (l : Log) : value :=
  VStruct [VBytes (log_Address l); log_hashes (log_Topics l); VBytes (log_Data l); VUint (log_BlockNumber l);
           VBytes (log_TxHash l); VUint (log_TxIndex l); VBytes (log_BlockHash l); VUint (log_Index l)].

Definition LogForStorage_DecodeRLP : SM Log :=
  let* (a, (t, (d, (n, (th, (ti, (bh, (i, _)))))))) := makeStructDecoder (field_cons (decodeByteArray AddressLength)
    (field_cons (decodeListSlice (decodeByteArray HashLength)) (field_cons decodeByteSlice (field_cons (decodeUint 64)
    (field_cons (decodeByteArray HashLength) (field_cons (decodeUint 64) (field_cons (decodeByteArray HashLength)
    (field_cons (decodeUint 64) field_nil)))))))) in
  sret (mkLog a t d n th ti bh i false).

(** A log that [new] made. *)
Definition new_log : Log := mkLog zero_address [] [] 0 zero_hash 0 zero_hash 0 false.

(** ** Receipts *)

Definition receiptStatusFailedRLP : bytes := [].
Definition receiptStatusSuccessfulRLP : bytes := [0x01].
Definition ReceiptStatusFailed : Z := 0.
Definition ReceiptStatusSuccessful : Z := 1.

Record Receipt := mkReceipt {
  PostState : bytes;
  Status : Z;
  CumulativeGasUsed : option Z;
  r_Bloom : bytes;
  r_Logs : list Log;
  r_TxHash : hash;
  ContractAddress : address;
  r_GasUsed : option Z
}.

Definition zero_bloom : bytes := replicate 256 0.

(** [new(Receipt)]. *)
Definition zero_receipt : Receipt := mkReceipt [] 0 None zero_bloom [] zero_hash zero_address None.

Definition NewReceipt (root : bytes) (failed : bool) (cumulativeGasUsed : Z) : Receipt :=
  mkReceipt root (if failed then ReceiptStatusFailed else ReceiptStatusSuccessful) (Some cumulativeGasUsed)
    zero_bloom [] zero_hash zero_address None.

Definition statusEncoding (r : Receipt) : bytes :=
  if zlen (PostState r) =? 0 then
    if Status r =? ReceiptStatusFailed then receiptStatusFailedRLP else receiptStatusSuccessfulRLP
  else PostState r.

(** "invalid receipt status". *)
Definition errReceiptStatus : rlp_err := customError 0.

Definition setStatus (postStateOrStatus : bytes) (r : Receipt) : rlp_err + Receipt :=
  let set p s := mkReceipt p s (CumulativeGasUsed r) (r_Bloom r) (r_Logs r) (r_TxHash r) (ContractAddress r) (r_GasUsed r) in
  if decide (postStateOrStatus = receiptStatusSuccessfulRLP) then inr (set (PostState r) ReceiptStatusSuccessful)
  else if decide (postStateOrStatus = receiptStatusFailedRLP) then inr (set (PostState r) ReceiptStatusFailed)
  else if zlen postStateOrStatus =? HashLength then inr (set postStateOrStatus (Status r))
  else inl errReceiptStatus.

Definition Receipt_EncodeRLP (r : Receipt) : value :=
  VStruct [VBytes (statusEncoding r); VBigInt (CumulativeGasUsed r); VBytes (r_Bloom r); VSlice (map Log_EncodeRLP (r_Logs r))].

Definition receiptRLP_decoder : SM (bytes * (Z * (bytes * (list Log * unit)))) :=
  makeStructDecoder (field_cons decodeByteSlice (field_cons decodeBigInt (field_cons (decodeByteArray 256)
    (field_cons (decodeListSlice (Log_DecodeRLP new_log)) field_nil)))).

Definition Receipt_DecodeRLP (r : Receipt) : SM Receipt :=
  let* dec := receiptRLP_decoder in
  let '(status, (gas, (bloom, (logs, _)))) := dec in
  match setStatus status r with
  | inl e => serr e
  | inr r => sret (mkReceipt (PostState r) (Status r) (Some gas) bloom logs (r_TxHash r) (ContractAddress r) (r_GasUsed r))
  end.

Definition ReceiptForStorage_EncodeRLP (r : Receipt) : value :=
  VStruct [VBytes (statusEncoding r); VBigInt (CumulativeGasUsed r); VBytes (r_Bloom r); VBytes (r_TxHash r);
           VBytes (ContractAddress r); VSlice (map LogForStorage_EncodeRLP (r_Logs r)); VBigInt (r_GasUsed r)].

Definition receiptStorageRLP_decoder : SM (bytes * (Z * (bytes * (hash * (address * (list Log * (Z * unit))))))) :=
  makeStructDecoder (field_cons decodeByteSlice (field_cons decodeBigInt (field_cons (decodeByteArray 256)
    (field_cons (decodeByteArray HashLength) (field_cons (decodeByteArray AddressLength)
    (field_cons (decodeListSlice LogForStorage_DecodeRLP) (field_cons decodeBigInt field_nil))))))).

Definition ReceiptForStorage_DecodeRLP (r : Receipt) : SM Receipt :=
  let* dec := receiptStorageRLP_decoder in
  let '(status, (gas, (bloom, (txhash, (contract, (logs, (used, _))))))) := dec in
  match setStatus status r with
  | inl e => serr e
  | inr r => sret (mkReceipt (PostState r) (Status r) (Some gas) bloom logs txhash contract (Some used))
  end.

(** [Receipts.GetRlp]. *)
Definition Receipts_GetRlp (r : Receipt) : outcome rlp_err bytes :=
  match EncodeToBytes (Receipt_EncodeRLP r) with Err _ => Panic | x => x end.

(** ** Bloom filters *)

Definition BloomByteLength : Z := 256.

Section Blooms.
Context `{Crypto}.

(** [SetBytes] on an array of zeroes. *)
Definition Bloom_SetBytes (b d : bytes) : outcome unit bytes :=
  if zlen b <? zlen d then Panic
  else Ok (take (length b - length d) b ++ d).

Definition BytesToBloom (d : bytes) : outcome unit bytes := Bloom_SetBytes zero_bloom d.

Definition Bloom_Big (b : bytes) : Z := be_value b.

(** The index of a bit: a [uint] of two bytes of the hash. *)
Definition bloom_bit (h : bytes) (i : nat) : Z :=
  Z.land (default 0 (h !! S i) + Z.shiftl (default 0 (h !! i)) 8) 2047.

Definition bloom9 (b : bytes) : Z :=
  let h := Keccak256 b in
  foldl (fun r i => Z.lor r (Z.shiftl 1 (bloom_bit h i))) 0 [0; 2; 4]%nat.

Definition Bloom_Add (b : bytes) (d : Z) : outcome unit bytes :=
  Bloom_SetBytes b (be_bytes (Z.lor (Bloom_Big b) (bloom9 (be_bytes d)))).

Definition log_bloom (bin : Z) (l : Log) : Z :=
  foldl (fun bin t => Z.lor bin (bloom9 t)) (Z.lor bin (bloom9 (log_Address l))) (log_Topics l).

Definition LogsBloom (logs : list Log) : Z := foldl log_bloom 0 logs.

Definition CreateBloom (receipts : list Receipt) : outcome unit bytes :=
  BytesToBloom (be_bytes (foldl (fun bin r => Z.lor bin (LogsBloom (r_Logs r))) 0 receipts)).

Definition BloomLookup (bin topic : bytes) : bool :=
  let cmp := bloom9 topic in Z.land (Bloom_Big bin) cmp =? cmp.

(** [Test] of an integer, whose bytes have no leading zeroes. *)
Definition Bloom_Test (b : bytes) (test : Z) : bool := BloomLookup b (be_bytes test).

Definition Bloom_TestBytes (b test : bytes) : bool := Bloom_Test b (be_value test).
End Blooms.

(** ** Codecs *)

Definition hash_list_enc (l : list hash) : bytes := rlp_list (concat (map rlp_str l)).

Definition log_ok (l : Log) : Prop :=
  is_address (log_Address l) /\ Forall is_hash (log_Topics l) /\ bytes_ok (log_Data l).

(** What the consensus knows of a log. *)
Definition consensus_log (l : Log) : Log := mkLog (log_Address l) (log_Topics l) (log_Data l) 0 zero_hash 0 zero_hash 0 false.

Lemma Log_codec : codec_ok (fun l => rlp_enc (Log_EncodeRLP l)) (Log_DecodeRLP new_log) (fun l => log_ok l /\ consensus_log l = l).
Proof.
  struct_codec_by
    (field_cons_body _ _ _ _ _ _ (byteArray_codec AddressLength ltac:(done))
      (field_cons_body _ _ _ _ _ _ (slice_codec (byteArray_codec HashLength ltac:(done)))
        (field_cons_body _ _ _ _ _ _ byteSlice_codec field_nil_body)))
    (fun '((a, (t, (d, _))) : bytes * (list bytes * (bytes * unit))) => mkLog a t d 0 zero_hash 0 zero_hash 0 false)
    (fun l => (log_Address l, (log_Topics l, (log_Data l, tt)))).
  - intros s. unfold Log_DecodeRLP, sbind. by destruct (makeStructDecoder _ s) as [[e|(a & t & d & u)] s'].
  - intros l. simpl. by rewrite map_map, app_nil_r.
  - intros [a t d n th ti bh i r] [(? & ? & ?) E]. unfold consensus_log in E. cbn in *. injection E as <- <- <- <- <- <-. done.
  - intros (a & t & d & []) (? & ? & ? & _). done.
Qed.

Definition stored_log_ok (l : Log) : Prop :=
  log_ok l /\ is_u64 (log_BlockNumber l) /\ is_hash (log_TxHash l) /\ is_u64 (log_TxIndex l) /\ is_hash (log_BlockHash l) /\
  is_u64 (log_Index l).

(** What the database knows of a log. *)
Definition stored_log (l : Log) : Log :=
  mkLog (log_Address l) (log_Topics l) (log_Data l) (log_BlockNumber l) (log_TxHash l) (log_TxIndex l) (log_BlockHash l) (log_Index l) false.

Lemma LogForStorage_codec : codec_ok (fun l => rlp_enc (LogForStorage_EncodeRLP l)) LogForStorage_DecodeRLP (fun l => stored_log_ok l /\ stored_log l = l).
Proof.
  pose proof (byteArray_codec HashLength ltac:(done)) as CH.
  struct_codec_by
    (field_cons_body _ _ _ _ _ _ (byteArray_codec AddressLength ltac:(done))
      (field_cons_body _ _ _ _ _ _ (slice_codec CH) (field_cons_body _ _ _ _ _ _ byteSlice_codec
        (field_cons_body _ _ _ _ _ _ uint64_codec (field_cons_body _ _ _ _ _ _ CH (field_cons_body _ _ _ _ _ _ uint64_codec
          (field_cons_body _ _ _ _ _ _ CH (field_cons_body _ _ _ _ _ _ uint64_codec field_nil_body))))))))
    (fun '((a, (t, (d, (n, (th, (ti, (bh, (i, _)))))))) : bytes * (list bytes * (bytes * (Z * (bytes * (Z * (bytes * (Z * unit)))))))) =>
      mkLog a t d n th ti bh i false)
    (fun l => (log_Address l, (log_Topics l, (log_Data l, (log_BlockNumber l, (log_TxHash l, (log_TxIndex l, (log_BlockHash l, (log_Index l, tt))))))))).
  - intros s. unfold LogForStorage_DecodeRLP, sbind.
    by destruct (makeStructDecoder _ s) as [[e|(a & t & d & n & th & ti & bh & i & u)] s'].
  - intros l. simpl. by rewrite map_map, app_nil_r.
  - intros [a t d n th ti bh i r] [((? & ? & ?) & ? & ? & ? & ? & ?) E]. unfold stored_log in E. cbn in *. injection E as <-.
    done.
  - intros (a & t & d & n & th & ti & bh & i & []) (? & ? & ? & ? & ? & ? & ? & ? & _). unfold stored_log_ok, log_ok, is_hash, is_address. cbn.
    split; [tauto|done].
Qed.

Lemma map_fix {A} (f : A -> A) (l : list A) : map f l = l <-> Forall (fun x => f x = x) l.
Proof. induction l as [|x l IH]; [by split|]. rewrite Forall_cons, <- IH. simpl. split; [by intros [= -> ?]|by intros [-> ->]]. Qed.

(** A receipt has a status or the root of a state. *)
Definition status_ok (r : Receipt) : Prop :=
  PostState r = [] /\ (Status r = ReceiptStatusFailed \/ Status r = ReceiptStatusSuccessful) \/ is_hash (PostState r) /\ Status r = 0.

Definition bloom_ok (b : bytes) : Prop := bytes_ok b /\ zlen b = BloomByteLength.

Definition gas_ok (g : option Z) : Prop := exists n, g = Some n /\ 0 <= n.

Lemma setStatus_encoding r r0 : status_ok r -> PostState r0 = [] -> Status r0 = 0 ->
  setStatus (statusEncoding r) r0 = inr (mkReceipt (PostState r) (Status r) (CumulativeGasUsed r0) (r_Bloom r0) (r_Logs r0) (r_TxHash r0) (ContractAddress r0) (r_GasUsed r0)).
Proof.
  intros Hs Hp Hz. unfold setStatus, statusEncoding.
  destruct Hs as [[-> [E|E]]|[[Hb Hl] E]]; rewrite E; [by rewrite Hp..|].
  assert (zlen (PostState r) =? 0 = false) as -> by (rewrite Hl; done).
  rewrite !decide_False by (intros Ep; rewrite Ep in Hl; done). by rewrite Hl, Hz.
Qed.

(** The status that a field stands for. *)
Lemma setStatus_inv b r0 r : bytes_ok b -> PostState r0 = [] -> Status r0 = 0 -> setStatus b r0 = inr r ->
  status_ok r /\ statusEncoding r = b /\
  r = mkReceipt (PostState r) (Status r) (CumulativeGasUsed r0) (r_Bloom r0) (r_Logs r0) (r_TxHash r0) (ContractAddress r0) (r_GasUsed r0).
Proof.
  intros Hb Hp Hz. unfold setStatus. destruct (decide (b = _)) as [->|N1].
  { intros [= <-]. rewrite Hp. split; [left; cbn; auto|done]. }
  destruct (decide (b = _)) as [->|N2].
  { intros [= <-]. rewrite Hp. split; [left; cbn; auto|done]. }
  destruct (zlen b =? HashLength) eqn:E; [|done]. zbool. intros [= <-]. unfold statusEncoding. cbn. rewrite E.
  split; [|done]. right. rewrite Hz. by split.
Qed.

Lemma setStatus_EOL b r : setStatus b r <> inl EOL.
Proof. unfold setStatus. repeat case_match; done. Qed.

Lemma statusEncoding_ok r : status_ok r -> bytes_ok (statusEncoding r).
Proof.
  intros [[E _]|[[Hb Hl] _]]; unfold statusEncoding; [|by rewrite Hl]. rewrite E.
  change (zlen [] =? 0) with true. destruct (Status r =? ReceiptStatusFailed); [constructor|]. repeat constructor; done.
Qed.

Definition receipt_ok (r : Receipt) : Prop :=
  status_ok r /\ gas_ok (CumulativeGasUsed r) /\ bloom_ok (r_Bloom r) /\ Forall log_ok (r_Logs r).

(** What the consensus and what the database know of a receipt. *)
Definition consensus_receipt (r : Receipt) : Receipt :=
  mkReceipt (PostState r) (Status r) (CumulativeGasUsed r) (r_Bloom r) (map consensus_log (r_Logs r)) zero_hash zero_address None.

Definition stored_receipt_ok (r : Receipt) : Prop :=
  receipt_ok r /\ Forall stored_log_ok (r_Logs r) /\ is_hash (r_TxHash r) /\ is_address (ContractAddress r) /\ gas_ok (r_GasUsed r).

Definition stored_receipt (r : Receipt) : Receipt :=
  mkReceipt (PostState r) (Status r) (CumulativeGasUsed r) (r_Bloom r) (map stored_log (r_Logs r)) (r_TxHash r) (ContractAddress r) (r_GasUsed r).

Lemma Receipt_codec : codec_ok (fun r => rlp_enc (Receipt_EncodeRLP r)) (Receipt_DecodeRLP zero_receipt)
  (fun r => receipt_ok r /\ consensus_receipt r = r).
Proof.
  pose proof (struct_codec _ _ _ (field_cons_body _ _ _ _ _ _ byteSlice_codec (field_cons_body _ _ _ _ _ _ bigInt_codec
    (field_cons_body _ _ _ _ _ _ (byteArray_codec 256 ltac:(done)) (field_cons_body _ _ _ _ _ _ (slice_codec Log_codec) field_nil_body))))) as C.
  eapply codec_ext_dec; [|eapply codec_ext; [|apply (codec_refine _ _ _
    (fun '((s, (g, (b, (l, _)))) : bytes * (Z * (bytes * (list Log * unit)))) => match setStatus s zero_receipt with
      | inl e => inl e
      | inr r => inr (mkReceipt (PostState r) (Status r) (Some g) b l zero_hash zero_address None) end)
    (fun r => (statusEncoding r, (default 0 (CumulativeGasUsed r), (r_Bloom r, (r_Logs r, tt))))) (fun r => receipt_ok r /\ consensus_receipt r = r) C)]].
  - intros s. unfold Receipt_DecodeRLP, receiptRLP_decoder, sbind.
    destruct (makeStructDecoder _ s) as [[e|(st & g & b & l & u)] s']; [done|]. destruct (setStatus st zero_receipt) as [e|r] eqn:E; [done|].
    unfold setStatus in E. repeat case_match; simplify_eq; done.
  - intros r. cbn. rewrite map_map, !app_nil_r. by destruct (CumulativeGasUsed r).
  - intros r [(Hs & (g & Eg & Hg) & Hb & Hl) E]. rewrite Eg. assert (El : map consensus_log (r_Logs r) = r_Logs r) by exact (f_equal r_Logs E). split.
    + split; [by apply statusEncoding_ok|]. split; [done|]. split; [done|]. split; [|done]. apply Forall_and. by split; [|apply map_fix].
    + rewrite setStatus_encoding by done. f_equal. etransitivity; [|exact E]. unfold consensus_receipt. by rewrite El, Eg.
  - intros (s & g & b & l & []) r (Hs & Hg & Hb & Hl & _). destruct (setStatus s zero_receipt) as [e|r'] eqn:E; [done|]. intros [= <-].
    destruct (setStatus_inv s zero_receipt r' Hs eq_refl eq_refl E) as (Hok & <- & Er). split; [split|].
    + repeat split; [done|by exists g|apply Hb..|]. eapply Forall_impl; [exact Hl|]. by intros ? [? _].
    + unfold consensus_receipt. cbn. f_equal. apply map_fix. eapply Forall_impl; [exact Hl|]. by intros ? [_ ?].
    + done.
  - intros (s & g & b & l & []). pose proof (setStatus_EOL s zero_receipt). destruct (setStatus s zero_receipt); congruence.
Qed.

Lemma Forall_fixed {A} (P : A -> Prop) f (l : list A) : Forall (fun x => P x /\ f x = x) l <-> Forall P l /\ map f l = l.
Proof. rewrite map_fix. apply Forall_and. Qed.

Lemma ReceiptForStorage_codec : codec_ok (fun r => rlp_enc (ReceiptForStorage_EncodeRLP r)) (ReceiptForStorage_DecodeRLP zero_receipt)
  (fun r => stored_receipt_ok r /\ stored_receipt r = r).
Proof.
  pose proof (struct_codec _ _ _ (field_cons_body _ _ _ _ _ _ byteSlice_codec (field_cons_body _ _ _ _ _ _ bigInt_codec
    (field_cons_body _ _ _ _ _ _ (byteArray_codec 256 ltac:(done)) (field_cons_body _ _ _ _ _ _ (byteArray_codec HashLength ltac:(done))
      (field_cons_body _ _ _ _ _ _ (byteArray_codec AddressLength ltac:(done)) (field_cons_body _ _ _ _ _ _ (slice_codec LogForStorage_codec)
        (field_cons_body _ _ _ _ _ _ bigInt_codec field_nil_body)))))))) as C.
  eapply codec_ext_dec; [|eapply codec_ext; [|apply (codec_refine _ _ _
    (fun '((s, (g, (b, (th, (a, (l, (u, _))))))) : bytes * (Z * (bytes * (hash * (address * (list Log * (Z * unit))))))) =>
      match setStatus s zero_receipt with
      | inl e => inl e
      | inr r => inr (mkReceipt (PostState r) (Status r) (Some g) b l th a (Some u)) end)
    (fun r => (statusEncoding r, (default 0 (CumulativeGasUsed r), (r_Bloom r, (r_TxHash r, (ContractAddress r, (r_Logs r, (default 0 (r_GasUsed r), tt))))))))
    (fun r => stored_receipt_ok r /\ stored_receipt r = r) C)]].
  - intros s. unfold ReceiptForStorage_DecodeRLP, receiptStorageRLP_decoder, sbind.
    destruct (makeStructDecoder _ s) as [[e|(st & g & b & th & a & l & w & u)] s']; [done|]. by destruct (setStatus st zero_receipt).
  - intros r. cbn. rewrite map_map, !app_nil_r. by destruct (CumulativeGasUsed r), (r_GasUsed r).
  - intros r [((Hs & (g & Eg & Hg) & Hb & _) & Hl & Hh & Ha & (u & Eu & Hu)) E]. rewrite Eg, Eu.
    assert (El : map stored_log (r_Logs r) = r_Logs r) by exact (f_equal r_Logs E). split.
    + do 5 (split; [by (apply statusEncoding_ok || idtac)|]). split; [by apply Forall_fixed|done].
    + rewrite setStatus_encoding by done. f_equal. etransitivity; [|exact E]. unfold stored_receipt. by rewrite El, Eg, Eu.
  - intros (s & g & b & th & a & l & u & []) r (Hs & Hg & Hb & Hh & Ha & Hl & Hu & _).
    destruct (setStatus s zero_receipt) as [e|r'] eqn:E; [done|]. intros [= <-].
    destruct (setStatus_inv s zero_receipt r' Hs eq_refl eq_refl E) as (Hok & <- & Er). apply Forall_fixed in Hl as [Hl El]. split; [split|].
    + split; [|split_and!; [done|exact Hh|exact Ha|by exists u]]. repeat split; [done|by exists g|apply Hb..|].
      eapply Forall_impl; [exact Hl|]. by intros ? [? _].
    + unfold stored_receipt. cbn. f_equal. exact El.
    + done.
  - intros (s & g & b & th & a & l & u & []). pose proof (setStatus_EOL s zero_receipt). destruct (setStatus s zero_receipt); congruence.
Qed.

(** *** Values *)

Lemma log_hashes_ok l : Forall is_hash l -> value_ok (log_hashes l).
Proof. intros H. apply ok_slice, Forall_map. eapply Forall_impl; [exact H|]. intros ? [? _]. by constructor. Qed.

Lemma Log_value_ok l : log_ok l -> value_ok (Log_EncodeRLP l).
Proof. intros (Ha & Ht & Hd). apply ok_struct. repeat apply Forall_cons_2; try apply Forall_nil_2; [constructor; apply Ha|by apply log_hashes_ok|by constructor]. Qed.

Lemma stored_Log_value_ok l : stored_log_ok l -> value_ok (LogForStorage_EncodeRLP l).
Proof.
  intros ((Ha & Ht & Hd) & Hn & Hh & Hi & Hb & Hx). apply ok_struct.
  repeat apply Forall_cons_2; try apply Forall_nil_2; try (by apply log_hashes_ok); constructor; try done; [apply Ha|apply Hh|apply Hb].
Qed.

Lemma Receipt_value_ok r : receipt_ok r -> value_ok (Receipt_EncodeRLP r).
Proof.
  intros (Hs & (g & Eg & Hg) & Hb & Hl). unfold Receipt_EncodeRLP. rewrite Eg. apply ok_struct.
  repeat apply Forall_cons_2; try apply Forall_nil_2; [constructor; by apply statusEncoding_ok|by constructor|constructor; apply Hb|].
  apply ok_slice, Forall_map. eapply Forall_impl; [exact Hl|]. apply Log_value_ok.
Qed.

Lemma stored_Receipt_value_ok r : stored_receipt_ok r -> value_ok (ReceiptForStorage_EncodeRLP r).
Proof.
  intros ((Hs & (g & Eg & Hg) & Hb & _) & Hl & Hh & Ha & (u & Eu & Hu)). unfold ReceiptForStorage_EncodeRLP. rewrite Eg, Eu. apply ok_struct.
  repeat apply Forall_cons_2; try apply Forall_nil_2;
    [constructor; by apply statusEncoding_ok|by constructor|constructor; apply Hb|constructor; apply Hh|constructor; apply Ha| |by constructor].
  apply ok_slice, Forall_map. eapply Forall_impl; [exact Hl|]. apply stored_Log_value_ok.
Qed.

(** ** Round trips *)

Lemma consensus_encode r : Receipt_EncodeRLP (consensus_receipt r) = Receipt_EncodeRLP r.
Proof. unfold Receipt_EncodeRLP. cbn. by rewrite map_map. Qed.

Lemma stored_encode r : ReceiptForStorage_EncodeRLP (stored_receipt r) = ReceiptForStorage_EncodeRLP r.
Proof. unfold ReceiptForStorage_EncodeRLP. cbn. by rewrite map_map. Qed.

Lemma consensus_ok r : receipt_ok r -> receipt_ok (consensus_receipt r) /\ consensus_receipt (consensus_receipt r) = consensus_receipt r.
Proof.
  intros (Hs & Hg & Hb & Hl). split; [split_and!; try done|].
  - apply Forall_map. eapply Forall_impl; [exact Hl|]. by intros ? (? & ? & ?).
  - unfold consensus_receipt. cbn. by rewrite map_map.
Qed.

Lemma stored_ok r : stored_receipt_ok r -> stored_receipt_ok (stored_receipt r) /\ stored_receipt (stored_receipt r) = stored_receipt r.
Proof.
  intros ((Hs & Hg & Hb & Hl) & Hl' & Hr). split; [split; [|split]; try done|].
  - split_and!; try done. apply Forall_map. eapply Forall_impl; [exact Hl|]. by intros ? (? & ? & ?).
  - apply Forall_map. eapply Forall_impl; [exact Hl'|]. by intros ? ((? & ? & ?) & ? & ? & ? & ? & ?).
  - unfold stored_receipt. cbn. by rewrite map_map.
Qed.

(** A receipt that was encoded for the consensus is decoded with its status, gas,
    filter and logs, without what is derived of them; one that was stored is read back
    with all fields but the mark of removed logs. *)
Theorem receipt_roundtrip r b b' : stored_receipt_ok r ->
  zlen (rlp_enc (Receipt_EncodeRLP r)) < 2 ^ 64 -> zlen (rlp_enc (ReceiptForStorage_EncodeRLP r)) < 2 ^ 64 ->
  EncodeToBytes (Receipt_EncodeRLP r) = Ok b -> EncodeToBytes (ReceiptForStorage_EncodeRLP r) = Ok b' ->
  DecodeBytes (Receipt_DecodeRLP zero_receipt) b = Ok (consensus_receipt r) /\
  DecodeBytes (ReceiptForStorage_DecodeRLP zero_receipt) b' = Ok (stored_receipt r).
Proof.
  intros Hs Hl Hl' E E'. pose proof (proj1 Hs) as Hr. split.
  - rewrite <- consensus_encode in E, Hl. destruct (consensus_ok r Hr) as [Hc Hi].
    eapply (encode_decodes _ _ _ _ _ (codec_decodes _ _ _ Receipt_codec)); [by split|by apply Receipt_value_ok|done|done].
  - rewrite <- stored_encode in E', Hl'. destruct (stored_ok r Hs) as [Hc Hi].
    eapply (encode_decodes _ _ _ _ _ (codec_decodes _ _ _ ReceiptForStorage_codec)); [by split|by apply stored_Receipt_value_ok|done|done].
Qed.

(** Only encodings of receipts are decoded. *)
Lemma receipt_canonical b r : input_ok b -> DecodeBytes (Receipt_DecodeRLP zero_receipt) b = Ok r ->
  receipt_ok r /\ consensus_receipt r = r /\ b = rlp_enc (Receipt_EncodeRLP r).
Proof. intros Hb E. destruct (DecodeBytes_sound Receipt_codec b r Hb E) as [[? ?] ?]. done. Qed.

(** ** No false negatives *)

Section Complete.
Context `{CryptoLaws}.

Definition covers (a c : Z) : Prop := Z.land a c = c.

Lemma covers_refl a : covers a a.
Proof. apply Z.land_diag. Qed.

Lemma covers_l a b c : covers a c -> covers (Z.lor a b) c.
Proof.
  unfold covers. intros E. apply Z.bits_inj'. intros n _. apply (f_equal (fun z => Z.testbit z n)) in E.
  rewrite Z.land_spec in *. rewrite Z.lor_spec. by destruct (Z.testbit a n), (Z.testbit b n), (Z.testbit c n).
Qed.

Lemma covers_r a b c : covers b c -> covers (Z.lor a b) c.
Proof. rewrite Z.lor_comm. apply covers_l. Qed.

(** Folds of [Z.lor] only add bits. *)
Lemma fold_covers {A} (f : Z -> A -> Z) l : (forall bin x c, covers bin c -> covers (f bin x) c) -> forall bin c, covers bin c -> covers (foldl f bin l) c.
Proof. intros Hf. induction l as [|x l IH]; simpl; auto. Qed.

Lemma fold_covers_in {A} (f : Z -> A -> Z) l x c : (forall bin x c, covers bin c -> covers (f bin x) c) -> x ∈ l -> (forall bin, covers (f bin x) c) ->
  forall bin, covers (foldl f bin l) c.
Proof.
  intros Hf Hin Hx. induction l as [|y l IH]; [by apply not_elem_of_nil in Hin|]. intros bin. simpl.
  apply elem_of_cons in Hin as [<-|Hin]; [by apply fold_covers|by apply IH].
Qed.

Lemma log_bloom_mono bin l c : covers bin c -> covers (log_bloom bin l) c.
Proof. intros Hc. apply fold_covers; [intros; by apply covers_l|by apply covers_l]. Qed.

(** What a log is found by. *)
Definition in_log (t : bytes) (l : Log) : Prop := t = log_Address l \/ t ∈ log_Topics l.

Lemma log_bloom_in t l bin : in_log t l -> covers (log_bloom bin l) (bloom9 t).
Proof.
  intros [->|Hin]; unfold log_bloom.
  - apply fold_covers; [intros; by apply covers_l|apply covers_r, covers_refl].
  - eapply fold_covers_in; [intros; by apply covers_l|exact Hin|intros; apply covers_r, covers_refl].
Qed.

Lemma LogsBloom_in t l logs : in_log t l -> l ∈ logs -> covers (LogsBloom logs) (bloom9 t).
Proof. intros Ht Hl. eapply fold_covers_in; [apply log_bloom_mono|exact Hl|intros; by apply log_bloom_in]. Qed.

(** *** Width *)

Definition bloom_range (n : Z) : Prop := 0 <= n < 2 ^ 2048.

Lemma lor_range a b : bloom_range a -> bloom_range b -> bloom_range (Z.lor a b).
Proof.
  unfold bloom_range. intros [Ha Ha'] [Hb Hb']. assert (0 <= Z.lor a b) by (by apply Z.lor_nonneg). split; [done|].
  destruct (Z.eq_dec (Z.lor a b) 0) as [->|]; [lia|]. apply Z.log2_lt_pow2; [lia|]. rewrite Z.log2_lor by done.
  destruct (Z.eq_dec a 0) as [->|]; destruct (Z.eq_dec b 0) as [->|]; rewrite ?Z.max_lub_lt_iff; repeat split; try (by apply Z.log2_lt_pow2; lia); done.
Qed.

Lemma fold_range {A} (f : Z -> A -> Z) l : (forall bin x, bloom_range bin -> bloom_range (f bin x)) -> forall bin, bloom_range bin -> bloom_range (foldl f bin l).
Proof. intros Hf. induction l; simpl; auto. Qed.

Lemma zero_range : bloom_range 0.
Proof. done. Qed.

Lemma bit_range h i : bloom_range (Z.shiftl 1 (bloom_bit h i)).
Proof.
  unfold bloom_bit. change 2047 with (Z.ones 11). rewrite Z.land_ones by done.
  pose proof (Z.mod_pos_bound (default 0 (h !! S i) + Z.shiftl (default 0 (h !! i)) 8) (2 ^ 11) eq_refl) as [H1 H2].
  rewrite Z.shiftl_mul_pow2, Z.mul_1_l by done. unfold bloom_range. split; [apply Z.pow_nonneg; lia|]. apply Z.pow_lt_mono_r; lia.
Qed.

Lemma bloom9_range b : bloom_range (bloom9 b).
Proof. apply fold_range; [intros; apply lor_range; [done|apply bit_range]|apply zero_range]. Qed.

Lemma LogsBloom_range logs : bloom_range (LogsBloom logs).
Proof.
  apply fold_range; [|apply zero_range]. intros bin l Hb.
  apply fold_range; [intros; apply lor_range; [done|apply bloom9_range]|apply lor_range; [done|apply bloom9_range]].
Qed.

Lemma be_value_zeroes k b : be_value (replicate k 0 ++ b) = be_value b.
Proof.
  rewrite be_value_app. assert (be_value (replicate k 0) = 0) as ->; [|lia].
  induction k as [|k IH]; [done|].
  change (replicate (S k) 0) with ([0] ++ replicate k 0). by rewrite be_value_app, IH.
Qed.

Lemma BytesToBloom_ok n : bloom_range n -> exists b, BytesToBloom (be_bytes n) = Ok b /\ bloom_ok b /\ Bloom_Big b = n.
Proof.
  intros Hn. unfold BytesToBloom, Bloom_SetBytes. assert (L : zlen (be_bytes n) <= 256).
  { unfold be_bytes. rewrite zlen_be_pad. change 256 with (Z.of_nat 256). apply Nat2Z.inj_le, byte_len_le. change (256 ^ Z.of_nat 256) with (2 ^ 2048). apply Hn. }
  change (zlen zero_bloom) with 256. zcase; [lia|]. eexists. split; [done|].
  change (length zero_bloom) with 256%nat. change zero_bloom with (replicate 256 0). rewrite take_replicate. split; [split|].
  - apply Forall_app. split; [by apply Forall_replicate|apply be_bytes_ok].
  - rewrite zlen_app. unfold zlen in *. rewrite length_replicate. unfold BloomByteLength. lia.
  - unfold Bloom_Big. rewrite be_value_zeroes. apply be_value_bytes, Hn.
Qed.

(** The filter of receipts is made without a panic, and finds every address and every
    topic of their logs; so does the filter of each receipt alone. *)
Theorem bloom_complete (receipts : list Receipt) :
  exists b, CreateBloom receipts = Ok b /\ bloom_ok b /\
    forall r l t, r ∈ receipts -> l ∈ r_Logs r -> in_log t l ->
      BloomLookup b t = true /\ (bytes_ok t -> head t <> Some 0 -> Bloom_TestBytes b t = true).
Proof.
  set (bin := foldl (fun bin r => Z.lor bin (LogsBloom (r_Logs r))) 0 receipts).
  assert (Hr : bloom_range bin) by (apply fold_range; [intros; apply lor_range; [done|apply LogsBloom_range]|apply zero_range]).
  destruct (BytesToBloom_ok bin Hr) as (b & E & Hb & Eb). exists b. split; [exact E|]. split; [done|]. intros r l t Hin Hl Ht.
  assert (L : BloomLookup b t = true).
  { unfold BloomLookup. rewrite Eb. apply Z.eqb_eq. refine (fold_covers_in _ _ r _ _ Hin _ 0); [intros; by apply covers_l|].
    intros. by apply covers_r, (LogsBloom_in t l). }
  split; [done|]. intros Hbt Hz. unfold Bloom_TestBytes, Bloom_Test. rewrite <- L. f_equal.
  destruct t as [|x t]; [done|]. apply be_bytes_value; [done|]. intros ->. done.
Qed.
End Complete.

(** ** Runs *)

Definition demo_topic : hash := replicate 31 0 ++ [1].

Definition demo_log : Log := mkLog (replicate 20 7) [demo_topic; replicate 32 9] [1; 2; 3] 5 (replicate 32 1) 0 (replicate 32 2) 0 true.

Definition demo_receipt : Receipt := mkReceipt [] 1 (Some 21000) zero_bloom [demo_log] (replicate 32 1) zero_address (Some 21000).

(** A topic that begins with a zero is in the filter, but [TestBytes] does not find it:
    it hashes the topic without its leading zeroes. *)
Theorem TestBytes_misses : match CreateBloom [demo_receipt] with
  | Ok b => BloomLookup b demo_topic = true /\ Bloom_TestBytes b demo_topic = false
  | _ => False end.
Proof. vm_compute. done. Qed.

Example demo_receipt_bytes : match EncodeToBytes (Receipt_EncodeRLP demo_receipt) with
  | Ok b => DecodeBytes (Receipt_DecodeRLP zero_receipt) b = Ok (consensus_receipt demo_receipt)
  | _ => False end.
Proof. vm_compute. done. Qed.

(** A receipt whose state is not a hash is encoded, and is not decoded. *)
Example bad_status : match EncodeToBytes (Receipt_EncodeRLP (mkReceipt [2] 1 (Some 0) zero_bloom [] zero_hash zero_address None)) with
  | Ok b => DecodeBytes (Receipt_DecodeRLP zero_receipt) b = Err errReceiptStatus
  | _ => False end.
Proof. vm_compute. done. Qed.

(** ** Witnesses *)

Lemma demo_receipt_ok : stored_receipt_ok demo_receipt.
Proof.
  assert (L : log_ok demo_log).
  { split_and!; [split; [by apply Forall_replicate|done]| |by repeat constructor].
    apply Forall_cons_2; [|apply Forall_cons_2; [|apply Forall_nil_2]]; (split; [|done]); [|by apply Forall_replicate].
    apply Forall_app. split; [by apply Forall_replicate|by repeat constructor]. }
  assert (Hh : is_hash (replicate 32 1)) by (split; [by apply Forall_replicate|done]).
  split; [split_and!|split_and!].
  - left. split; [done|by right].
  - by exists 21000.
  - split; [by apply Forall_replicate|done].
  - by apply Forall_cons_2.
  - apply Forall_cons_2; [|by apply Forall_nil_2]. split_and!; try done. split; [by apply Forall_replicate|done].
  - exact Hh.
  - split; [by apply Forall_replicate|done].
  - by exists 21000.
Qed.

Lemma receipt_roundtrip_witness : exists b b', EncodeToBytes (Receipt_EncodeRLP demo_receipt) = Ok b /\
  EncodeToBytes (ReceiptForStorage_EncodeRLP demo_receipt) = Ok b' /\
  DecodeBytes (Receipt_DecodeRLP zero_receipt) b = Ok (consensus_receipt demo_receipt) /\
  DecodeBytes (ReceiptForStorage_DecodeRLP zero_receipt) b' = Ok (stored_receipt demo_receipt).
Proof.
  eexists _, _. split; [vm_compute; reflexivity|]. split; [vm_compute; reflexivity|].
  apply receipt_roundtrip; [exact demo_receipt_ok|vm_compute; reflexivity..].
Defined.
