(* ===== verification/StateTransition.v ===== *)
(** The transition of a transaction: [core/state_transition.go] and [core/gaspool.go].

    A transaction buys its gas from the sender and from the pool of its block, runs,
    and gives back what is left; a privacy transaction pays with a stamp instead. *)
From S2P Require Import Prelude RlpEncode RlpDecode RlpRaw Storage IstanbulTypes ValidatorSet Trie StateDB StateSpec StateTheorems BigMath Transaction VmProg VmData VmCore VmInterp Hex Curve RingSign Abi Ota Native.

Import BitCurves.

(** [params/protocol_params.go] *)
Definition TxGas : Z := 21000.
Definition TxGasContractCreation : Z := 53000.
Definition TxDataZeroGas : Z := 4.
Definition TxDataNonZeroGas : Z := 68.
Definition RequiredGasPerMixPub : Z := 4000.

Inductive transition_err :=
| VmError (e : vm_err)
| ErrNonceTooHigh | ErrNonceTooLow | errInsufficientBalanceForGas | ErrGasLimitReached | ErrGasLimit
| ErrInvalidPrivacyValue | ErrInvalidGasPrice | ErrStampSpent | ErrAbi.

#[export] Instance transition_err_dec : EqDecision transition_err.
Proof. solve_decision. Defined.

(** The interface [Message], as [AsMessage] implements it. *)
Record Message := mkMessage {
  msg_from : address;
  msg_to : option address;
  msg_nonce : Z;
  msg_value : Z;
  msg_gas : Z;
  msg_gasPrice : Z;
  msg_data : bytes;
  msg_checkNonce : bool;
  msg_txType : Z
}.


(** ** The gas pool *)

Definition AddGas (gp amount : Z) : Z := gp + amount.
Definition SubGas (gp amount : Z) : option Z := if gp <? amount then None else Some (gp - amount).

(** ** The monad of a transition *)

(** What a [StateTransition] changes: its gas, its data and the shared pool. *)
Record StateTransition := mkTransition {
  st_gp : Z;
  st_gas : Z;
  st_initialGas : Z;
  st_data : bytes
}.

Definition TM (A : Type) : Type := StateTransition -> prog (StateTransition * (A + transition_err)).

Definition tret {A} (a : A) : TM A := fun st => Return (st, inl a).
Definition tfail {A} (e : transition_err) : TM A := fun st => Return (st, inr e).
Definition tbind {A B} (c : TM A) (k : A -> TM B) : TM B := fun st =>
  do (st, r) <- c st; match r with inl a => k a st | inr e => Return (st, inr e) end.
Definition tlift {A} (p : prog (A + transition_err)) : TM A := fun st => do r <- p; Return (st, r).
Definition tdo {A} (p : prog A) : TM A := fun st => do r <- p; Return (st, inl r).
Definition tget : TM StateTransition := fun st => Return (st, inl st).
Definition tput (st : StateTransition) : TM unit := fun _ => Return (st, inl tt).

Notation "'step' x '<-' c ';' k" := (tbind c (fun x => k)) (at level 10, x pattern, c at level 100, k at level 200) : go_scope.
Notation "'step!' c ';' k" := (tbind c (fun _ => k)) (at level 10, c at level 100, k at level 200) : go_scope.

Definition with_gp (st : StateTransition) (gp : Z) : StateTransition := mkTransition gp (st_gas st) (st_initialGas st) (st_data st).
Definition with_tgas (st : StateTransition) (gas : Z) : StateTransition := mkTransition (st_gp st) gas (st_initialGas st) (st_data st).

Definition pool_SubGas (amount : Z) : TM unit := step st <- tget;
  match SubGas (st_gp st) amount with Some gp => tput (with_gp st gp) | None => tfail ErrGasLimitReached end.

(** ** Gas *)

Definition IntrinsicGas (data : bytes) (contractCreation homestead : bool) : Z :=
  let igas := if contractCreation && homestead then TxGasContractCreation else TxGas in
  if zlen data >? 0 then
    let nz := zlen (filter (fun b => b <> 0) data) in
    igas + nz * TxDataNonZeroGas + (zlen data - nz) * TxDataZeroGas
  else igas.

Definition useGas (amount : Z) : TM unit := step st <- tget;
  if st_gas st <? amount then tfail (VmError ErrOutOfGas) else tput (with_tgas st (st_gas st - amount)).

Definition gasUsed (st : StateTransition) : Z := st_initialGas st - st_gas st.

(** ** Privacy transactions *)

Section Transition.
Context `{HC : Crypto} `{HE : EllipticCurve} `{HP : Precompiles}.

Record PrivacyTxInfo := mkPrivacyTxInfo {
  pi_KeyImage : point;
  pi_PublicKeys : list point;
  pi_W_Random : list Z;
  pi_Q_Random : list Z;
  pi_CallData : bytes;
  pi_StampBalance : Z;
  pi_StampTotalGas : Z;
  pi_GasLeftSubRingSign : Z
}.

Definition vm_result {A} (p : prog (res A)) : prog (A + transition_err) :=
  do r <- p; Return (match r with inl a => inl a | inr e => inr (VmError e) end).

Notation "'check' x '<-' c ';' k" := (pbind c (fun r => match r with inl x => k | inr e => Return (inr e) end))
  (at level 10, x pattern, c at level 100, k at level 200) : go_scope.

(** The outputs of the method [combine]. *)
Definition combine_outputs : list abi_type := [StringTy; BytesTy].

(** What is paid for the signature and for storing the key image. *)
Definition ring_gas (mixLen : Z) : Z := u64 (u64 (RequiredGasPerMixPub * mixLen) + SstoreSetGas).

(** A price of zero is divided by. *)
Definition FetchPrivacyTxInfo (hashInput input : bytes) (gasPrice : Z) : prog (PrivacyTxInfo + transition_err) :=
  if zlen input <? 4 then Return (inr (VmError ErrInvalidRingSigned))
  else
    match Unpack combine_outputs (drop 4 input) with
    | Ok [AString ringSignedData; ABytes cxtCallParams] =>
        check info <- vm_result (FetchRingSignInfo hashInput ringSignedData);
        if gasPrice =? 0 then Crash []
        else
          let stampGas := OTABalance info / gasPrice in
          if big_BitLen stampGas >? 64 then Return (inr (VmError ErrOutOfGas))
          else
            let StampTotalGas := big_Uint64 stampGas in
            let preSubGas := ring_gas (zlen (PublicKeys info)) in
            if StampTotalGas <? preSubGas then Return (inr (VmError ErrOutOfGas))
            else Return (inl (mkPrivacyTxInfo (KeyImage info) (PublicKeys info) (W_Random info) (Q_Random info)
                                cxtCallParams (OTABalance info) StampTotalGas (StampTotalGas - preSubGas)))
    | _ => Return (inr ErrAbi)
    end.

(** What the pool of transactions checks. *)
Definition ValidPrivacyTx (hashInput input : bytes) (gasPrice : option Z) (intrGas : option Z) (txValue gasLimit : Z) : prog (unit + transition_err) :=
  match intrGas with
  | None => Return (inr (VmError ErrOutOfGas))
  | Some intrGas =>
      if big_BitLen intrGas >? 64 then Return (inr (VmError ErrOutOfGas))
      else if negb (Z.sgn txValue =? 0) then Return (inr ErrInvalidPrivacyValue)
      else
        match gasPrice with
        | None => Return (inr ErrInvalidGasPrice)
        | Some gasPrice =>
            if gasPrice <=? 0 then Return (inr ErrInvalidGasPrice)
            else
              check info <- FetchPrivacyTxInfo hashInput input gasPrice;
              if pi_StampTotalGas info >? big_Uint64 gasLimit then Return (inr ErrGasLimit)
              else
                check found <- vm_result (CheckOTAImageExist (FromECDSAPub (pi_KeyImage info)));
                match found with
                | Some _ => Return (inr ErrStampSpent)
                | None => if pi_GasLeftSubRingSign info <? big_Uint64 intrGas then Return (inr (VmError ErrOutOfGas)) else Return (inl tt)
                end
        end
  end.

(** A stamp that was spent gives no gas, without an error; the error of storing the
    key image is dropped. *)
Definition PreProcessPrivacyTx (hashInput input : bytes) (gasPrice txValue : Z) : prog (bytes * Z * Z + transition_err) :=
  if negb (Z.sgn txValue =? 0) then Return (inr ErrInvalidPrivacyValue)
  else
    check info <- FetchPrivacyTxInfo hashInput input gasPrice;
    let kix := FromECDSAPub (pi_KeyImage info) in
    check found <- vm_result (CheckOTAImageExist kix);
    match found with
    | Some _ => Return (inl ([], 0, 0))
    | None =>
        do _ <- AddOTAImage kix (be_bytes (Z.abs (pi_StampBalance info)));
        Return (inl (pi_CallData info, pi_StampTotalGas info, pi_GasLeftSubRingSign info))
    end.

(** ** The transition *)

(** The virtual machine of the block: [rec] runs contracts, [coinbase] is paid. *)
Context (cfg : Config) (rec : Runner) (coinbase : address) (msg : Message).

Definition ensure (a : address) : prog unit := do known <- call (EvExist a); if known then Return tt else call (EvCreateAccount a).

Definition from_ref : TM address := step! tdo (ensure (msg_from msg)); tret (msg_from msg).

(** [to] of a message that has a recipient. *)
Definition to_ref (a : address) : TM address := step! tdo (ensure a); tret a.

Definition buyGas : TM unit :=
  let mgas := msg_gas msg in
  if big_BitLen mgas >? 64 then tfail (VmError ErrOutOfGas)
  else
    let mgval := mgas * msg_gasPrice msg in
    step sender <- from_ref;
    step balance <- tdo (call (EvGetBalance sender));
    if balance <? mgval then tfail errInsufficientBalanceForGas
    else
      step! pool_SubGas mgas;
      step st <- tget;
      step! tput (mkTransition (st_gp st) (u64 (st_gas st + big_Uint64 mgas)) mgas (st_data st));
      tdo (call (EvSubBalance sender mgval)).

Definition preCheck : TM unit :=
  step sender <- from_ref;
  step! (if msg_checkNonce msg then
           step nonce <- tdo (call (EvGetNonce sender));
           if nonce <? msg_nonce msg then tfail ErrNonceTooHigh
           else if nonce >? msg_nonce msg then tfail ErrNonceTooLow
           else tret tt
         else tret tt);
  buyGas.

(** The integer of the refund counter is not copied by the source: it is overwritten
    with the product, and reset by [Finalise] before it is read again. *)
Definition refundGas : TM unit :=
  step sender <- from_ref;
  step st <- tget;
  step! tdo (call (EvAddBalance sender (st_gas st * msg_gasPrice msg)));
  step counter <- tdo (call EvGetRefund);
  let refund := BigMin (gasUsed st / 2) counter in
  let st := with_tgas st (u64 (st_gas st + big_Uint64 refund)) in
  step! tput st;
  step! tdo (call (EvAddBalance sender (refund * msg_gasPrice msg)));
  tput (with_gp st (AddGas (st_gp st) (st_gas st))).

(** The part of [TransitionDb] for privacy transactions before the machine runs: the
    gas of the stamp. *)
Definition use_stamp (sender : address) : TM Z :=
  step st <- tget;
  step (pureCallData, total, useable) <- tlift (PreProcessPrivacyTx sender (st_data st) (msg_gasPrice msg) (msg_value msg));
  step! tput (mkTransition (st_gp st) useable useable pureCallData);
  step! pool_SubGas total;
  tret total.

(** The gas that is left is a [uint64]. *)
Definition execute (sender : address) : TM (bytes * option vm_err) :=
  step st <- tget;
  match msg_to msg with
  | None =>
      step (ret, _, gas, err, _) <- tdo (evm_Create cfg rec (AccountRef sender) (st_data st) (st_gas st) (msg_value msg) NewEVM);
      step! tput (with_tgas st (u64 gas)); tret (ret, err)
  | Some to =>
      step nonce <- tdo (call (EvGetNonce sender));
      step! tdo (call (EvSetNonce sender (u64 (nonce + 1))));
      step to <- to_ref to;
      step (ret, gas, err, _) <- tdo (evm_Call cfg rec (AccountRef sender) to (st_data st) (st_gas st) (msg_value msg) NewEVM);
      step! tput (with_tgas st (u64 gas)); tret (ret, err)
  end.

(** What is returned, the gas before and after refunds, and whether the machine failed. *)
Definition TransitionDb : TM (bytes * Z * Z * bool) :=
  let normal := IsNormalTransaction (msg_txType msg) in
  step! (if normal then preCheck else tret tt);
  step sender <- from_ref;
  step st <- tget;
  let intrinsicGas := IntrinsicGas (st_data st) (bool_decide (msg_to msg = None)) true in
  if big_BitLen intrinsicGas >? 64 then tfail (VmError ErrOutOfGas)
  else
    step stampTotalGas <- (if normal then tret 0 else use_stamp sender);
    step! useGas (big_Uint64 intrinsicGas);
    step (ret, vmerr) <- execute sender;
    if decide (vmerr = Some ErrInsufficientBalance) then tfail (VmError ErrInsufficientBalance)
    else
      step (requiredGas, usedGas) <- (if normal then
          step st <- tget; step! refundGas; step st' <- tget; tret (gasUsed st, gasUsed st')
        else tret (stampTotalGas, stampTotalGas));
      step! tdo (call (EvAddBalance coinbase (usedGas * msg_gasPrice msg)));
      tret (ret, requiredGas, usedGas, bool_decide (is_Some vmerr)).

Definition NewStateTransition (gp : Z) : StateTransition := mkTransition gp 0 0 (msg_data msg).

(** The pool after it, and the returned bytes, the gas used and whether it failed. *)
Definition ApplyMessage (gp : Z) : prog (Z * (bytes * Z * bool + transition_err)) :=
  do (st, r) <- TransitionDb (NewStateTransition gp);
  Return (st_gp st, match r with inl (ret, _, gasUsed, failed) => inl (ret, gasUsed, failed) | inr e => inr e end).
End Transition.
