(* ===== verification/TransitionClaims.v ===== *)
(** Transitions of transactions on the state database: what is paid for gas, by whom
    and to whom, and what a stamp pays. *)
From S2P Require Import Prelude RlpEncode RlpDecode RlpRaw RlpTheorems Storage IstanbulTypes ValidatorSet KeccakCrypto RoundState TrieNode TrieRep Trie TrieTheorems StateDB StateSpec StateTheorems SecureTrie StateCommit StateFinalise StateClaims BigMath Transaction VmProg VmData VmCore VmInterp VmJump VmInv VmExec VmStep VmSafe VmLoop VmTable VmClaims Hex Curve RingSign Abi Ota Native NativeLaws NativeClaims StateTransition.
Import BitCurves.

(** ** Payments *)

Definition add_balance (c : acct) (n : Z) : acct := set_balance c (a_balance c + n).

(** An amount at one address. *)
Definition at_addr (a : address) (n : Z) (b : address) : Z := if decide (b = a) then n else 0.

Section Payments.
Context `{HCL : CryptoLaws}.

(** Only balances change, by [d]. *)
Definition pays (m m' : machine) (d : address -> Z) : Prop :=
  (forall b, acct_at (m_world m') b = add_balance (acct_at (m_world m) b) (d b)) /\ w_refund (m_world m') = w_refund (m_world m).

Lemma add_balance_0 c n : n = 0 -> add_balance c n = c.
Proof. intros ->. unfold add_balance. rewrite Z.add_0_r. by destruct c. Qed.

Lemma pays_refl m d : (forall b, d b = 0) -> pays m m d.
Proof. intros Hd. split; [|done]. intros b. by rewrite add_balance_0. Qed.

Lemma pays_trans m1 m2 m3 d1 d2 d : pays m1 m2 d1 -> pays m2 m3 d2 -> (forall b, d b = d1 b + d2 b) -> pays m1 m3 d.
Proof.
  intros [E1 R1] [E2 R2] Hd. split; [|congruence]. intros b. rewrite E2, E1, Hd. unfold add_balance. simpl. f_equal. lia.
Qed.

Lemma pays_weaken m m' d d' : pays m m' d -> (forall b, d' b = d b) -> pays m m' d'.
Proof. intros [E R] Hd. split; [|done]. intros b. by rewrite Hd. Qed.

Lemma acct_at_set W a c b : acct_at (w_set W a c) b = if decide (b = a) then c else acct_at W b.
Proof. unfold acct_at. simpl. unfold fn_set. by destruct (decide (b = a)). Qed.

Lemma acct_at_touch W a b : acct_at (w_touch W a) b = acct_at W b.
Proof.
  unfold w_touch. destruct (w_accts W a) eqn:E; [done|]. rewrite acct_at_set. destruct (decide (b = a)) as [->|]; [|done]. unfold acct_at. by rewrite E.
Qed.

Lemma w_touch_refund W a : w_refund (w_touch W a) = w_refund W.
Proof. unfold w_touch. by destruct (w_accts W a). Qed.

(** A balance that is set to what it was, and [n] more. *)
Lemma pays_set m a n : pays m (mkMachine (w_set (m_world m) a (add_balance (acct_at (m_world m) a) n)) (m_snaps m) (m_next m)) (at_addr a n).
Proof.
  split; [|done]. intros b. cbn [m_world]. rewrite acct_at_set. unfold at_addr. destruct (decide (b = a)) as [->|]; [done|]. by rewrite add_balance_0.
Qed.

Lemma pays_touch m a : pays m (mkMachine (w_touch (m_world m) a) (m_snaps m) (m_next m)) (fun _ => 0).
Proof. split; [|apply w_touch_refund]. intros b. cbn [m_world]. by rewrite acct_at_touch, add_balance_0. Qed.

Lemma pays_add m a n : 0 <= n -> pays m (changed (OAddBalance a n) m) (at_addr a n).
Proof.
  intros Hn. unfold changed. cbn [w_change]. destruct (Z.gtb_spec n 0); [apply pays_set|]. eapply pays_weaken; [apply pays_touch|]. intros b. unfold at_addr.
  destruct (decide _); lia.
Qed.

Lemma pays_sub m a n : 0 <= n -> pays m (changed (OSubBalance a n) m) (at_addr a (- n)).
Proof.
  intros Hn. unfold changed. cbn [w_change]. destruct (Z.gtb_spec n 0); [apply pays_set|]. eapply pays_weaken; [apply pays_touch|]. intros b. unfold at_addr.
  destruct (decide _); lia.
Qed.

Lemma pays_create m a : w_accts (m_world m) a = None -> pays m (changed (OCreateAccount a) m) (fun _ => 0).
Proof.
  intros E. split; [|done]. intros b. unfold changed. cbn [m_world w_change]. rewrite acct_at_set, add_balance_0 by done.
  destruct (decide (b = a)) as [->|]; [|done]. unfold acct_at. by rewrite E.
Qed.
End Payments.

(** ** Rules *)

Section Rules.
Context `{HCL : CryptoLaws} `{HP : Precompiles}.

Definition twp {A} (c : TM A) (Q : A + transition_err -> StateTransition -> machine -> Prop) (st : StateTransition) (m : machine) : Prop :=
  wp ev_pre ev_post (c st) (fun x m' => Q x.2 x.1 m') m.

Lemma twp_bind {A B} (c : TM A) (k : A -> TM B) Q st m :
  twp c (fun r st' m' => match r with inl a => twp (k a) Q st' m' | inr e => Q (inr e) st' m' end) st m -> twp (tbind c k) Q st m.
Proof. intros Hc. unfold twp, tbind. apply wp_then. eapply wp_conseq; [exact Hc|]. by intros [st' [a|e]] m'. Qed.

Lemma twp_conseq {A} (c : TM A) (Q Q' : A + transition_err -> StateTransition -> machine -> Prop) st m :
  twp c Q st m -> (forall r st' m', Q r st' m' -> Q' r st' m') -> twp c Q' st m.
Proof. intros Hc HQ. eapply wp_conseq; [exact Hc|]. intros [st' r] m'. apply HQ. Qed.

(** The rule of composition with what is known of the first part. *)
Lemma twp_seq {A B} (c : TM A) (k : A -> TM B) P Q st m :
  twp c P st m -> (forall a st' m', P (inl a) st' m' -> twp (k a) Q st' m') -> (forall e st' m', P (inr e) st' m' -> Q (inr e) st' m') -> twp (tbind c k) Q st m.
Proof. intros Hc Ha He. apply twp_bind. eapply twp_conseq; [exact Hc|]. intros [a|e] st' m'; auto. Qed.

Lemma twp_do {A B} (p : prog A) (k : A -> TM B) Q st m : wp ev_pre ev_post p (fun a m' => twp (k a) Q st m') m -> twp (tbind (tdo p) k) Q st m.
Proof. intros Hp. apply twp_bind. unfold twp at 1, tdo. apply wp_then. eapply wp_conseq; [exact Hp|]. done. Qed.

Lemma twp_do_last {A} (p : prog A) Q st m : wp ev_pre ev_post p (fun a m' => Q (inl a) st m') m -> twp (tdo p) Q st m.
Proof. intros Hp. unfold twp, tdo. apply wp_then. eapply wp_conseq; [exact Hp|]. done. Qed.

Lemma twp_ret {A B} (a : A) (k : A -> TM B) Q st m : twp (k a) Q st m -> twp (tbind (tret a) k) Q st m.
Proof. intros Hk. by apply twp_bind. Qed.

Lemma twp_get {B} (k : StateTransition -> TM B) Q st m : twp (k st) Q st m -> twp (tbind tget k) Q st m.
Proof. intros Hk. by apply twp_bind. Qed.

Lemma twp_put {B} st' (k : unit -> TM B) Q st m : twp (k tt) Q st' m -> twp (tbind (tput st') k) Q st m.
Proof. intros Hk. by apply twp_bind. Qed.

(** *** Events *)

Lemma wp_balance a (Q : Z -> machine -> Prop) m : Q (balance_of m a) m -> wp ev_pre ev_post (call (EvGetBalance a)) Q m.
Proof.
  intros Hq. apply wp_call; [exact I|]. intros r m' Hp. pose proof (ev_reads_same _ (EvGetBalance a) m r m' eq_refl Hp) as ->.
  destruct Hp as (res & [= <-] & [= <-]). unfold balance_of, acct_at in Hq. by destruct (w_accts (m_world m) a).
Qed.

Definition nonce_of (m : machine) (a : address) : Z := a_nonce (acct_at (m_world m) a).

Lemma wp_nonce a (Q : Z -> machine -> Prop) m : Q (nonce_of m a) m -> wp ev_pre ev_post (call (EvGetNonce a)) Q m.
Proof.
  intros Hq. apply wp_call; [exact I|]. intros r m' Hp. pose proof (ev_reads_same _ (EvGetNonce a) m r m' eq_refl Hp) as ->.
  destruct Hp as (res & [= <-] & [= <-]). unfold nonce_of, acct_at in Hq. by destruct (w_accts (m_world m) a).
Qed.

Lemma wp_refund (Q : Z -> machine -> Prop) m : Q (w_refund (m_world m)) m -> wp ev_pre ev_post (call EvGetRefund) Q m.
Proof.
  intros Hq. apply wp_call; [exact I|]. intros r m' Hp. pose proof (ev_reads_same _ EvGetRefund m r m' eq_refl Hp) as ->.
  by destruct Hp as (res & [= <-] & [= <-]).
Qed.

Lemma wp_change (e : vm_ev unit) op (Q : unit -> machine -> Prop) m : ev_op e = Some (op, as_unit) -> m_step m op = Some (RUnit, changed op m) -> ev_pre unit e m ->
  Q tt (changed op m) -> wp ev_pre ev_post (call e) Q m.
Proof.
  intros He Hs Hpre Hq. apply wp_call; [done|]. intros [] m'. unfold ev_post. rewrite He, Hs. intros (res & [= <- <-] & _). exact Hq.
Qed.

Lemma mrel_changed (e : vm_ev unit) op m : ev_op e = Some (op, as_unit) -> m_step m op = Some (RUnit, changed op m) -> machine_ok m -> ev_ok e m -> mrel m (changed op m).
Proof. intros He Hs Hm Hok. apply (ev_mrel unit e m tt); [done| |done]. unfold ev_post. rewrite He. by exists RUnit. Qed.

Lemma wp_pay_in a n (Q : unit -> machine -> Prop) m : machine_ok m -> 0 <= n ->
  (forall m', mrel m m' -> exists_at m' a -> pays m m' (at_addr a n) -> Q tt m') -> wp ev_pre ev_post (call (EvAddBalance a n)) Q m.
Proof.
  intros Hm Hn Hq. apply (wp_change _ (OAddBalance a n)); try done. apply Hq; [by apply (mrel_changed (EvAddBalance a n))| |by apply pays_add].
  unfold exists_at, changed. cbn [m_world w_change]. destruct (n >? 0); [by exists (set_balance (acct_at (m_world m) a) (a_balance (acct_at (m_world m) a) + n)); apply w_set_at|].
  unfold w_touch. destruct (w_accts (m_world m) a) eqn:E; [eauto|]. eexists. apply w_set_at.
Qed.

Lemma wp_pay_out a n (Q : unit -> machine -> Prop) m : machine_ok m -> 0 <= n <= balance_of m a ->
  (forall m', mrel m m' -> pays m m' (at_addr a (- n)) -> Q tt m') -> wp ev_pre ev_post (call (EvSubBalance a n)) Q m.
Proof.
  intros Hm Hn Hq. apply (wp_change _ (OSubBalance a n)); try done.
  apply Hq; [apply (mrel_changed (EvSubBalance a n)); try done; simpl; unfold balance_of in Hn; lia|apply pays_sub; lia].
Qed.

Lemma ensure_wp a (Q : unit -> machine -> Prop) m : machine_ok m ->
  (forall m', mrel m m' -> exists_at m' a -> pays m m' (fun _ => 0) -> Q tt m') -> wp ev_pre ev_post (ensure a) Q m.
Proof.
  intros Hm Hq. unfold ensure. apply wp_then. apply wp_call; [exact I|]. intros known m' Hp. apply post_Exist in Hp as [-> Hk]. destruct known.
  - apply Hq; [by apply mrel_refl|by apply Hk|by apply pays_refl].
  - assert (w_accts (m_world m) a = None) as E. { destruct (w_accts (m_world m) a) eqn:E; [|done]. assert (false = true); [|done]. apply Hk. unfold exists_at. rewrite E. eauto. }
    apply (wp_change _ (OCreateAccount a)); try done. apply Hq; [by apply (mrel_changed (EvCreateAccount a))| |by apply pays_create].
    unfold exists_at, changed. simpl. rewrite fn_set_eq. eauto.
Qed.

Lemma mrel_machine m m' : mrel m m' -> machine_ok m'.
Proof. by intros []. Qed.
End Rules.

(** ** The steps of a transition *)

(** Payments add up. *)
Ltac pay_sum := intros; cbv beta; unfold at_addr; repeat destruct (decide _); subst; lia.

Section Steps.
Context `{HPL : PrecompileLaws} `{HE : EllipticCurve} (cfg : Config) (rec : Runner) (coinbase : address) (msg : Message).

(** A message as [AsMessage] makes it of a decoded transaction. *)
Record message_ok : Prop := {
  mg_from : bytes_ok (msg_from msg);
  mg_to a : msg_to msg = Some a -> bytes_ok a;
  mg_value : 0 <= msg_value msg;
  mg_gas : 0 <= msg_gas msg;
  mg_price : 0 <= msg_gasPrice msg;
  mg_data : small (msg_data msg)
}.
Context (Hmsg : message_ok).

Abbreviation from := (msg_from msg).
Abbreviation price := (msg_gasPrice msg).

Lemma from_wp {B} (k : address -> TM B) Q st m : machine_ok m ->
  (forall m', mrel m m' -> exists_at m' from -> pays m m' (fun _ => 0) -> twp (k from) Q st m') -> twp (tbind (from_ref msg) k) Q st m.
Proof. intros Hm Hk. apply twp_bind. unfold from_ref. apply twp_do. apply ensure_wp; [done|]. intros m' H1 H2 H3. by apply Hk. Qed.

(** Buying gas takes it from the pool and its price from the sender; nothing is taken
    when it fails. *)
Definition buy_post (st : StateTransition) (m : machine) (r : unit + transition_err) (st' : StateTransition) (m' : machine) : Prop :=
  mrel m m' /\ match r with
  | inl _ => 0 <= msg_gas msg <= st_gp st /\ msg_gas msg < 2 ^ 64 /\ st' = mkTransition (st_gp st - msg_gas msg) (msg_gas msg) (msg_gas msg) (st_data st) /\ exists_at m' from /\
      msg_gas msg * price <= balance_of m from /\ pays m m' (at_addr from (- (msg_gas msg * price)))
  | inr _ => st_gp st' = st_gp st /\ pays m m' (fun _ => 0)
  end.

Lemma BitLen_64 x : 0 <= x -> big_BitLen x >? 64 = false -> x < 2 ^ 64.
Proof.
  intros Hx. rewrite Z.gtb_ltb, Z.ltb_ge. unfold big_BitLen. destruct (Z.eqb_spec x 0); [lia|]. rewrite Z.abs_eq by done. intros Hl.
  destruct (Z.log2_spec x ltac:(lia)) as [_ Hx2]. eapply Z.lt_le_trans; [exact Hx2|]. apply Z.pow_le_mono_r; lia.
Qed.

Lemma balance_pays m m' d b : pays m m' d -> balance_of m' b = balance_of m b + d b.
Proof. intros [E _]. unfold balance_of. by rewrite E. Qed.

Lemma buyGas_wp st m : machine_ok m -> st_gas st = 0 -> twp (buyGas msg) (buy_post st m) st m.
Proof.
  intros Hm Hgas. pose proof (mg_gas Hmsg) as Hg. pose proof (mg_price Hmsg) as Hp. unfold buyGas.
  assert (forall m', mrel m m' -> pays m m' (fun _ => 0) -> forall e, buy_post st m (inr e) st m') as Hfail by (intros; by split_and!).
  destruct (big_BitLen (msg_gas msg) >? 64) eqn:El; [apply Hfail; [by apply mrel_refl|by apply pays_refl]|].
  apply BitLen_64 in El; [|done]. cbv zeta. apply from_wp; [done|]. intros m1 M1 X1 P1. apply twp_do, wp_balance.
  pose proof (balance_pays _ _ _ from P1) as Eb. rewrite Z.add_0_r in Eb. destruct (Z.ltb_spec (balance_of m1 from) (msg_gas msg * price)); [by apply Hfail|].
  apply twp_bind. unfold pool_SubGas. apply twp_get. unfold SubGas. destruct (Z.ltb_spec (st_gp st) (msg_gas msg)); [by apply Hfail|].
  change (twp (step st0 <- tget; step! tput (mkTransition (st_gp st0) (u64 (st_gas st0 + big_Uint64 (msg_gas msg))) (msg_gas msg) (st_data st0));
    tdo (call (EvSubBalance from (msg_gas msg * price)))) (buy_post st m) (with_gp st (st_gp st - msg_gas msg)) m1).
  apply twp_get, twp_put, twp_do_last. assert (0 <= msg_gas msg * price) by (apply Z.mul_nonneg_nonneg; lia). apply wp_pay_out; [by apply (mrel_machine m)|lia|]. intros m2 M2 P2.
  assert (is_u64 (msg_gas msg)) as Hu by (unfold is_u64; lia). cbn [with_gp st_gp st_gas st_data]. rewrite Hgas, Z.add_0_l, big_Uint64_id, u64_id by done.
  split; [by eapply mrel_trans|]. split_and!; try done; try lia; [by apply (mr_exists m1)|]. eapply pays_trans; [exact P1|exact P2|]. pay_sum.
Qed.

Lemma preCheck_wp st m : machine_ok m -> st_gas st = 0 -> twp (preCheck msg) (buy_post st m) st m.
Proof.
  intros Hm Hgas. unfold preCheck. apply from_wp; [done|]. intros m1 M1 X1 P1. assert (machine_ok m1) as Hm1 by apply M1.
  assert (forall e, buy_post st m (inr e) st m1) as Hfail by (intros; by split_and!).
  assert (twp (buyGas msg) (buy_post st m) st m1) as Hb.
  { eapply twp_conseq; [by apply buyGas_wp|]. intros r st' m' [M2 Hr]. split; [by eapply mrel_trans|]. pose proof (balance_pays _ _ _ from P1) as Eb. rewrite Z.add_0_r in Eb. destruct r as [[]|e].
    - destruct Hr as (H1 & H2 & -> & X2 & H3 & P2). split_and!; try done; try lia. eapply pays_trans; [exact P1|exact P2|]. pay_sum.
    - destruct Hr as [H1 P2]. split; [done|]. eapply pays_trans; [exact P1|exact P2|]. pay_sum. }
  apply twp_bind. destruct (msg_checkNonce msg); [|exact Hb]. apply twp_do, wp_nonce.
  destruct (nonce_of m1 from <? msg_nonce msg); [by apply Hfail|]. destruct (nonce_of m1 from >? msg_nonce msg); [by apply Hfail|exact Hb].
Qed.

(** What is left, with at most half of what was used, goes back to the sender and to
    the pool. *)
Definition refund_post (st : StateTransition) (m : machine) (r : unit + transition_err) (st' : StateTransition) (m' : machine) : Prop :=
  r = inl tt /\ mrel m m' /\ st_initialGas st' = st_initialGas st /\
  st_gas st <= st_gas st' <= st_gas st + gasUsed st / 2 /\ st_gp st' = st_gp st + st_gas st' /\ pays m m' (at_addr from (st_gas st' * price)).

Lemma refundGas_wp st m : machine_ok m -> 0 <= st_gas st <= st_initialGas st -> st_initialGas st < 2 ^ 64 -> twp (refundGas msg) (refund_post st m) st m.
Proof.
  intros Hm Hgas Hi. pose proof (mg_price Hmsg) as Hp. unfold refundGas. apply from_wp; [done|]. intros m1 M1 X1 P1. assert (machine_ok m1) as Hm1 by apply M1.
  apply twp_get, twp_do. apply wp_pay_in; [done|nia|]. intros m2 M2 X2 P2. assert (machine_ok m2) as Hm2 by apply M2. apply twp_do, wp_refund. cbv zeta.
  set (refund := BigMin (gasUsed st / 2) (w_refund (m_world m2))).
  assert (0 <= refund <= gasUsed st / 2) as Hr.
  { pose proof (mo_refund m2 Hm2). unfold refund, BigMin, gasUsed in *. assert (0 <= (st_initialGas st - st_gas st) / 2) by (apply Z.div_pos; lia). destruct (_ >? _) eqn:E; [apply Z.gtb_lt in E|rewrite Z.gtb_ltb, Z.ltb_ge in E]; lia. }
  assert (gasUsed st / 2 <= gasUsed st) as Hh by (unfold gasUsed; apply Z.div_le_upper_bound; lia).
  assert (is_u64 refund /\ is_u64 (st_gas st + refund)) as [U1 U2] by (unfold is_u64, gasUsed in *; lia).
  rewrite big_Uint64_id, u64_id by done. apply twp_put, twp_do. apply wp_pay_in; [done|nia|]. intros m3 M3 X3 P3. unfold twp, tput. cbn [wp].
  split_and!; try done; simpl; [eapply mrel_trans; [|exact M3]; by eapply mrel_trans|lia..|].
  eapply pays_trans; [eapply pays_trans; [exact P1|exact P2|reflexivity]|exact P3|]. pay_sum.
Qed.

(** *** The machine *)

Context (N : Z) (Hrec : runner_ok N rec) (HLim : N <= pc_limit).

(** The nonce of the sender counts messages; a creation counts its own. *)
Definition started (m m1 : machine) : Prop := forall b, acct_at (m_world m1) b =
  if decide (b = from /\ msg_to msg <> None) then set_nonce (acct_at (m_world m) b) (u64 (nonce_of m b + 1)) else acct_at (m_world m) b.

(** What the machine did between [m1] and [m']. *)
Definition exec_post (st : StateTransition) (m : machine) (r : bytes * option vm_err + transition_err) (st' : StateTransition) (m' : machine) : Prop :=
  exists ret err gas m1, r = inl (ret, err) /\ st' = with_tgas st gas /\ 0 <= gas <= st_gas st /\ started m m1 /\ mrel m m1 /\ mrel m1 m' /\
    (err <> None -> msg_to msg <> None -> m_world m' = m_world m1).

Lemma started_nonce m to : machine_ok m -> msg_to msg = Some to -> started m (changed (OSetNonce from (u64 (nonce_of m from + 1))) m).
Proof.
  intros Hm Et b. unfold changed. cbn [m_world w_change]. rewrite acct_at_set. destruct (decide (b = from)) as [->|Hb].
  - rewrite decide_True by (by rewrite Et). done.
  - by rewrite decide_False by tauto.
Qed.

Lemma started_pays m m1 m2 : started m m1 -> pays m1 m2 (fun _ => 0) -> started m m2.
Proof. intros H1 [H2 _] b. by rewrite H2, H1, add_balance_0. Qed.

Lemma execute_wp st m : machine_ok m -> exists_at m from -> small (st_data st) -> is_u64 (st_gas st) -> st_gas st < N ->
  twp (execute cfg rec msg from) (exec_post st m) st m.
Proof.
  intros Hm Hx Hd Hu HN. unfold execute. apply twp_get. pose proof (mg_value Hmsg) as Hv. pose proof NewEVM_ok as Hg.
  destruct (msg_to msg) as [to|] eqn:Et.
  - apply twp_do, wp_nonce, twp_do. apply (wp_change _ (OSetNonce from (u64 (nonce_of m from + 1)))); try done.
    pose proof (started_nonce m to Hm Et) as S1. set (m1 := changed _ m) in *.
    assert (mrel m m1) as M1 by (by apply (mrel_changed (EvSetNonce from (u64 (nonce_of m from + 1))))). assert (machine_ok m1) as Hm1 by apply M1.
    apply twp_bind. unfold to_ref. apply twp_do, ensure_wp; [done|]. intros m2 M2 X2 P2. change (twp (step (ret, gas, err, _) <- tdo (evm_Call cfg rec (AccountRef from) to (st_data st) (st_gas st) (msg_value msg) NewEVM);
      step! tput (with_tgas st (u64 gas)); tret (ret, err)) (exec_post st m) st m2). apply twp_do. assert (machine_ok m2) as Hm2 by apply M2.
    eapply wp_conseq; [apply (evm_Call_wp cfg N rec Hrec HLim (AccountRef from) to); auto; [apply account_caller; [apply Hmsg|by apply (mr_exists _ _ M2), (mr_exists _ _ M1)]|by apply (mg_to Hmsg)|done]|].
    intros [[[ret gas] err] g] m3 (_ & Hl & (_ & M3 & _) & He & _). apply twp_put. exists ret, err, gas, m2. unfold is_u64 in Hu. rewrite u64_id by (unfold is_u64; lia).
    split_and!; try done; try lia; [by eapply started_pays|by eapply mrel_trans|auto].
  - apply twp_do. eapply wp_conseq; [apply (evm_Create_wp cfg N rec Hrec HLim (AccountRef from)); auto; [apply account_caller; [apply Hmsg|done]]|].
    intros [[[[ret addr] gas] err] g] m3 (_ & _ & Hl & (_ & M3 & _)). apply twp_put. exists ret, err, gas, m. unfold is_u64 in Hu. rewrite u64_id by (unfold is_u64; lia).
    split_and!; try done; try lia; try (by apply mrel_refl). intros b. rewrite decide_False; [done|]. rewrite Et. tauto.
Qed.

(** *** Normal messages *)

Lemma IntrinsicGas_pos data creation homestead : TxGas <= IntrinsicGas data creation homestead.
Proof.
  unfold IntrinsicGas. set (base := if creation && homestead then TxGasContractCreation else TxGas). assert (TxGas <= base) by (unfold base; by destruct (creation && homestead)).
  destruct (zlen data >? 0); [|done]. pose proof (length_filter (fun b : Z => b <> 0) data). unfold zlen, TxDataNonZeroGas, TxDataZeroGas. lia.
Qed.

Lemma IntrinsicGas_nonneg data creation homestead : 0 <= IntrinsicGas data creation homestead.
Proof. pose proof (IntrinsicGas_pos data creation homestead). unfold TxGas in *. lia. Qed.

(** What the machine is left with, and the payments around it. *)
Definition settled (m : machine) (used : Z) (failed : bool) (m' : machine) : Prop :=
  exists m0 m1 m2, pays m m0 (at_addr from (- (msg_gas msg * price))) /\ started m0 m1 /\ mrel m1 m2 /\
    (failed = true -> msg_to msg <> None -> m_world m2 = m_world m1) /\
    pays m2 m' (fun b => at_addr from ((msg_gas msg - used) * price) b + at_addr coinbase (used * price) b).

Definition normal_post (gp : Z) (m : machine) (r : bytes * Z * Z * bool + transition_err) (st' : StateTransition) (m' : machine) : Prop :=
  mrel m m' /\ match r with
  | inl (ret, required, used, failed) =>
      IntrinsicGas (msg_data msg) (bool_decide (msg_to msg = None)) true <= required <= msg_gas msg /\ required - required / 2 <= used <= required /\
      msg_gas msg <= gp /\ st_gp st' = gp - used /\ msg_gas msg * price <= balance_of m from /\ settled m used failed m'
  | inr _ => st_gp st' = gp \/ st_gp st' = gp - msg_gas msg
  end.

(** The end of a normal message. *)
Lemma finish_wp gas0 gp m0 m1 m2 m ret failed st : machine_ok m2 -> mrel m m2 -> msg_gas msg <= gp -> msg_gas msg * price <= balance_of m from ->
  st = mkTransition (gp - msg_gas msg) gas0 (msg_gas msg) (msg_data msg) -> 0 <= gas0 -> msg_gas msg < 2 ^ 64 ->
  IntrinsicGas (msg_data msg) (bool_decide (msg_to msg = None)) true <= msg_gas msg - gas0 ->
  pays m m0 (at_addr from (- (msg_gas msg * price))) -> started m0 m1 -> mrel m1 m2 -> (failed = true -> msg_to msg <> None -> m_world m2 = m_world m1) ->
  twp (step (requiredGas, usedGas) <- (step st <- tget; step! refundGas msg; step st' <- tget; tret (gasUsed st, gasUsed st'));
      step! tdo (call (EvAddBalance coinbase (usedGas * price))); tret (ret, requiredGas, usedGas, failed)) (normal_post gp m) st m2.
Proof.
  intros Hm2 M2 Hgp Hb -> Hg0 Hg64 Hi P0 S1 M12 Hf. pose proof (mg_price Hmsg) as Hp. pose proof (IntrinsicGas_nonneg (msg_data msg) (bool_decide (msg_to msg = None)) true).
  apply twp_bind, twp_get. eapply twp_seq; [apply refundGas_wp; simpl; done || lia| |].
  - intros [] st' m3 (_ & M3 & Ei & Hl & Egp & P3). simpl in *. unfold gasUsed in Hl. simpl in Hl. apply twp_get. unfold twp at 1, tret. cbn [wp fst snd].
    assert (0 <= gasUsed st') as Hu by (unfold gasUsed; rewrite Ei; assert ((msg_gas msg - gas0) / 2 <= msg_gas msg - gas0) by (apply Z.div_le_upper_bound; lia); lia).
    apply twp_do, wp_pay_in; [by apply (mrel_machine m2)|nia|]. intros m4 M4 X4 P4. unfold twp, tret. cbn [wp fst snd].
    unfold normal_post, gasUsed in *. rewrite Ei in *. simpl in *. split; [eapply mrel_trans; [|exact M4]; by eapply mrel_trans|].
    split_and!; try done; try lia. exists m0, m1, m2. split_and!; try done. eapply pays_trans; [exact P3|exact P4|]. intros b.
    replace (msg_gas msg - (msg_gas msg - st_gas st')) with (st_gas st') by lia. done.
  - intros e st' m3 (E & _). discriminate E.
Qed.

Lemma TransitionDb_normal gp m : machine_ok m -> IsNormalTransaction (msg_txType msg) = true -> msg_gas msg < N ->
  twp (TransitionDb cfg rec coinbase msg) (normal_post gp m) (NewStateTransition msg gp) m.
Proof.
  intros Hm Hn HN. unfold TransitionDb. cbv zeta. rewrite Hn. eapply twp_seq; [by apply preCheck_wp| |].
  2: { intros e st' m' [M1 [E _]]. split; [done|]. left. exact E. }
  intros [] st1 m1 (M1 & Hg & Hg64 & -> & X1 & Hb & P1). cbn [st_gp NewStateTransition] in Hg. assert (machine_ok m1) as Hm1 by apply M1. apply from_wp; [done|]. intros m2 M2 X2 P2. apply twp_get.
  assert (machine_ok m2) as Hm2 by apply M2. assert (mrel m m2) as M02 by (by eapply mrel_trans). cbn [st_data st_gp NewStateTransition].
  set (intrinsic := IntrinsicGas _ _ _). pose proof (IntrinsicGas_nonneg (msg_data msg) (bool_decide (msg_to msg = None)) true) as Hi. fold intrinsic in Hi.
  assert (forall e st' m', mrel m m' -> st_gp st' = gp - msg_gas msg -> normal_post gp m (inr e) st' m') as Hfail by (intros; split; [done|by right]).
  destruct (big_BitLen intrinsic >? 64) eqn:El; [by apply Hfail|]. apply BitLen_64 in El; [|done]. apply twp_ret.
  apply twp_bind. unfold useGas. apply twp_get. rewrite big_Uint64_id by (unfold is_u64; lia). cbn [st_gas].
  destruct (Z.ltb_spec (msg_gas msg) intrinsic); [by apply Hfail|].
  set (st2 := with_tgas _ _). change (twp (step (ret, vmerr) <- execute cfg rec msg from; if decide (vmerr = Some ErrInsufficientBalance) then tfail (VmError ErrInsufficientBalance) else
    step (requiredGas, usedGas) <- (step st <- tget; step! refundGas msg; step st' <- tget; tret (gasUsed st, gasUsed st'));
    step! tdo (call (EvAddBalance coinbase (usedGas * price))); tret (ret, requiredGas, usedGas, bool_decide (is_Some vmerr))) (normal_post gp m) st2 m2).
  eapply twp_seq; [apply (execute_wp st2); [done|done|apply Hmsg|unfold is_u64; simpl; lia|simpl; lia]| |].
  2: { intros e st' m' (? & ? & ? & ? & E & _). discriminate E. }
  intros [ret vmerr] st3 m4 (ret' & err' & gas & m3 & [= <- <-] & -> & Hgas & S3 & M3 & M4 & Hf). simpl in Hgas.
  assert (mrel m m4) as M04 by (eapply mrel_trans; [exact M02|]; by eapply mrel_trans).
  destruct (decide _); [by apply Hfail|].
  eapply (finish_wp gas gp m2 m3); try done; try lia; [apply M04| |].
  - eapply pays_trans; [exact P1|exact P2|]. pay_sum.
  - rewrite bool_decide_eq_true. intros [e ->]. by apply Hf.
Qed.
End Steps.

(** ** Stamps *)

Section Stamps.
Context `{HPL : PrecompileLaws} `{HE : EllipticCurve}.
Context (mul_total : forall p k, on_curve p -> zlen k <= 32 -> 0 < be_value k < secp256k1_N -> is_Some (curve_mul p k)).

(** The key image of the stamp a payload is signed with. *)
Definition stamp_key (payload : bytes) : option bytes :=
  match Unpack combine_outputs (drop 4 payload) with
  | Ok [AString s; ABytes _] => match DecodeRingSignOut s with Ok (_, image, _, _) => Some (FromECDSAPub image) | _ => None end
  | _ => None
  end.

Lemma slice_small {E} b lo hi r : slice (E := E) b lo hi = Ok r -> small b -> small r.
Proof.
  unfold slice. destruct (_ && _); [|done]. intros [= <-] [Hb Hl]. split; [by apply Forall_take, Forall_drop|].
  unfold zlen in *. rewrite length_take, length_drop. lia.
Qed.

Lemma readElement_bytes t b v : readElement t b = Ok (ABytes v) -> v = b.
Proof. unfold readElement, readBool. repeat (case_match; try done); intros [= E]; done. Qed.

Lemma toGoType_bytes i b v : toGoType i BytesTy b = Ok (ABytes v) -> small b -> small v.
Proof.
  intros E Hb. cbn [toGoType] in E. repeat match type of E with
    | (if ?c then _ else _) = _ => destruct c; [discriminate|]
    | obind ?c _ = _ => destruct c eqn:?; [cbn [obind] in E|discriminate..]
    end.
  apply readElement_bytes in E as ->. by eapply slice_small.
Qed.

Lemma combine_small b s c : Unpack combine_outputs b = Ok [AString s; ABytes c] -> small b -> small c.
Proof.
  unfold Unpack, combine_outputs. destruct (zlen b =? 0); [done|]. cbn [unpack_args]. intros E Hb.
  destruct (toGoType 0 StringTy b) as [v1| |]; [|done..]. cbn [obind] in E. destruct (toGoType (0 + 1) BytesTy b) as [v2| |] eqn:E2; [|done..]. cbn [obind] in E.
  injection E as -> ->. by eapply toGoType_bytes.
Qed.

Definition reads_any (m : machine) {A E} (p : prog (A + E)) (R : A -> Prop) : Prop :=
  wp ev_pre ev_post p (fun r m' => m' = m /\ match r with inl a => R a | inr _ => True end) m.

(** What is known of a stamp. *)
Record stamp_ok (payload : bytes) (price : Z) (info : PrivacyTxInfo) : Prop := {
  sp_key : stamp_key payload = Some (FromECDSAPub (pi_KeyImage info));
  sp_balance : 0 < pi_StampBalance info;
  sp_total : pi_StampTotalGas info = pi_StampBalance info / price;
  sp_u64 : pi_StampTotalGas info < 2 ^ 64;
  sp_left : 0 <= pi_GasLeftSubRingSign info <= pi_StampTotalGas info;
  sp_data : small (pi_CallData info)
}.

Lemma FetchPrivacyTxInfo_wp m hashInput payload price : machine_ok m -> small payload -> 0 < price ->
  reads_any m (FetchPrivacyTxInfo hashInput payload price) (stamp_ok payload price).
Proof.
  intros Hm Hs Hp. unfold reads_any, FetchPrivacyTxInfo. destruct (zlen payload <? 4); [done|].
  destruct (Unpack combine_outputs (drop 4 payload)) as [vs|e|] eqn:Eu; [|done..]. destruct vs as [|v1 [|v2 [|]]]; try done; destruct v1; try done; destruct v2; try done. match type of Eu with _ = Ok [AString ?x; ABytes ?y] => rename x into s, y into c end.
  apply wp_then. unfold vm_result. apply wp_then. eapply wp_conseq; [apply (reads_fetch m Hm mul_total)|]. intros [info|e] m' [-> Hi]; [|done].
  cbn [wp]. destruct Hi as (Hb & keys & w & q & Ed). rewrite (proj2 (Z.eqb_neq price 0)) by lia. assert (0 <= OTABalance info / price) as Hn by (apply Z.div_pos; lia).
  destruct (big_BitLen (OTABalance info / price) >? 64) eqn:El; [done|]. apply BitLen_64 in El; [|done]. cbv zeta. rewrite big_Uint64_id by (unfold is_u64; lia).
  pose proof (u64_range (u64 (RequiredGasPerMixPub * zlen (PublicKeys info)) + SstoreSetGas)) as Hr. fold (ring_gas (zlen (PublicKeys info))) in Hr. unfold is_u64 in Hr.
  destruct (Z.ltb_spec (OTABalance info / price) (ring_gas (zlen (PublicKeys info)))); [done|]. split; [done|]. constructor; simpl; try done; try lia.
  - unfold stamp_key. by rewrite Eu, Ed.
  - eapply combine_small; [exact Eu|by apply small_drop].
Qed.

(** A stamp that was not spent is, and gives its gas; one that was gives none. *)
Definition pre_post (payload : bytes) (price : Z) (m : machine) (r : bytes * Z * Z + transition_err) (m' : machine) : Prop :=
  match r with
  | inl (data, total, useable) => m' = m /\ data = [] /\ total = 0 /\ useable = 0 \/
      exists k v, stamp_key payload = Some k /\ image_at m (Keccak256 k) = [] /\ 0 < v /\ m' = with_image k v m /\
        total = v / price /\ total < 2 ^ 64 /\ 0 <= useable <= total /\ small data
  | inr _ => m' = m
  end.

Lemma PreProcess_wp m hashInput payload price value : machine_ok m -> small payload -> 0 < price ->
  wp ev_pre ev_post (PreProcessPrivacyTx hashInput payload price value) (pre_post payload price m) m.
Proof.
  intros Hm Hs Hp. unfold PreProcessPrivacyTx. destruct (negb _); [done|]. apply wp_then. eapply wp_conseq; [by apply FetchPrivacyTxInfo_wp|].
  intros [info|e] m' [-> Hi]; [|done]. destruct Hi as [Hk Hb Ht H64 Hl Hd]. cbv zeta. set (kix := FromECDSAPub (pi_KeyImage info)) in *.
  apply wp_then. unfold vm_result. apply wp_then. eapply wp_conseq; [apply (reads_image m)|]. intros [o|e] m' [-> Ho]; [|done]. cbn [wp]. cbv beta iota.
  destruct o as [v|]; cbn [wp].
  { left. done. }
  assert (image_value (m_world m) kix = []) as Hz. { destruct (Z.eqb_spec (zlen (image_value (m_world m) kix)) 0) as [E|]; [by apply zlen_0_inv|done]. }
  rewrite Z.abs_eq by lia. unfold AddOTAImage.
  assert (zlen (be_bytes (pi_StampBalance info)) <> 0) as Hne.
  { intros E. apply zlen_0_inv in E. pose proof (be_value_bytes (pi_StampBalance info) ltac:(lia)) as Hv. rewrite E in Hv. assert (be_value [] = 0) by done. rewrite <- Hv in Hb. done. }
  rewrite (proj2 (Z.eqb_neq (zlen (be_bytes _)) 0)) by done. rewrite orb_false_r. destruct (Z.eqb_spec (zlen kix) 0) as [E|_].
  { exfalso. unfold kix, FromECDSAPub, Marshal in E. rewrite zlen_cons in E. pose proof (zlen_nonneg (be_pad (Z.to_nat (byteLen S256)) (pi_KeyImage info).1 ++ be_pad (Z.to_nat (byteLen S256)) (pi_KeyImage info).2)). lia. }
  apply wp_then, wp_set_last. fold (with_image kix (pi_StampBalance info) m). cbn [wp]. right. exists kix, (pi_StampBalance info). split_and!; try done; lia.
Qed.
End Stamps.

Section Privacy.
Context `{HPL : PrecompileLaws} `{HE : EllipticCurve}.
Context (mul_total : forall p k, on_curve p -> zlen k <= 32 -> 0 < be_value k < secp256k1_N -> is_Some (curve_mul p k)).
Context (cfg : Config) (rec : Runner) (coinbase : address) (msg : Message) (Hmsg : message_ok msg).
Context (N : Z) (Hrec : runner_ok N rec) (HLim : N <= pc_limit).

Abbreviation from := (msg_from msg).
Abbreviation price := (msg_gasPrice msg).

(** A stamp of value [v] pays: its key image [k] is recorded, the machine runs, and the
    proposer gets the price of the gas. *)
Definition stamped_run (m : machine) (k : bytes) (v used : Z) (failed : bool) (m' : machine) : Prop :=
  exists m0 m1 m2, (forall b, balance_of m0 b = balance_of m b) /\ image_at m0 (Keccak256 k) = be_bytes v /\ started msg m0 m1 /\ mrel m1 m2 /\
    (failed = true -> msg_to msg <> None -> m_world m2 = m_world m1) /\ pays m2 m' (at_addr coinbase (used * price)).

Definition privacy_post (gp : Z) (m : machine) (r : bytes * Z * Z * bool + transition_err) (st' : StateTransition) (m' : machine) : Prop :=
  mrel m m' /\ match r with
  | inl (ret, required, used, failed) => exists k v, stamp_key (msg_data msg) = Some k /\ image_at m (Keccak256 k) = [] /\ 0 < v /\
      used = v / price /\ required = used /\ IntrinsicGas (msg_data msg) (bool_decide (msg_to msg = None)) true <= used <= gp /\ st_gp st' = gp - used /\
      stamped_run m k v used failed m'
  | inr _ => st_gp st' = gp \/ exists v, 0 < v /\ st_gp st' = gp - v / price
  end.

Lemma bytes_at_acct W a k : bytes_at W a k = a_bytes (acct_at W a) k.
Proof. unfold bytes_at, acct_at. by destruct (w_accts W a). Qed.

Lemma image_pays m m' d k : pays m m' d -> image_at m' k = image_at m k.
Proof. intros [E _]. unfold image_at. by rewrite !bytes_at_acct, E. Qed.

(** The end of a privacy message, once the stamp is used. *)
Lemma privacy_end_wp gp m m1 m2 k v useable data : mrel m m1 -> pays m m1 (fun _ => 0) -> stamp_key (msg_data msg) = Some k -> image_at m1 (Keccak256 k) = [] -> 0 < v ->
  m2 = with_image k v m1 -> 0 < price -> v / price <= gp -> v / price < 2 ^ 64 -> 0 <= useable <= v / price -> small data -> v / price < N -> exists_at m1 from ->
  IntrinsicGas (msg_data msg) (bool_decide (msg_to msg = None)) true <= useable ->
  twp (step (ret, vmerr) <- execute cfg rec msg from;
      if decide (vmerr = Some ErrInsufficientBalance) then tfail (VmError ErrInsufficientBalance)
      else step (requiredGas, usedGas) <- tret (v / price, v / price);
        step! tdo (call (EvAddBalance coinbase (usedGas * price))); tret (ret, requiredGas, usedGas, bool_decide (is_Some vmerr)))
    (privacy_post gp m) (mkTransition (gp - v / price) (useable - IntrinsicGas (msg_data msg) (bool_decide (msg_to msg = None)) true) useable data) m2.
Proof.
  intros M1 P1 Hk Hi Hv -> Hp Hgp H64 Hu Hd HN X1 Hin. pose proof (IntrinsicGas_nonneg (msg_data msg) (bool_decide (msg_to msg = None)) true) as Hi0.
  assert (machine_ok m1) as Hm1 by apply M1. pose proof (with_image_mrel m1 k v Hm1) as M2. set (m2 := with_image k v m1) in *. assert (machine_ok m2) as Hm2 by apply M2.
  assert (mrel m m2) as M02 by (by eapply mrel_trans).
  eapply twp_seq; [apply (execute_wp cfg rec msg Hmsg N Hrec HLim); [done|by apply (mr_exists _ _ M2)|done|unfold is_u64; simpl; lia|simpl; lia]| |].
  2: { intros e st' m' (? & ? & ? & ? & E & _). discriminate E. }
  intros [ret vmerr] st3 m4 (ret' & err' & gas & m3 & [= <- <-] & -> & Hgas & S3 & M3 & M4 & Hf).
  assert (mrel m m4) as M04 by (eapply mrel_trans; [exact M02|]; by eapply mrel_trans).
  destruct (decide _); [split; [done|]; right; by exists v|]. apply twp_ret. apply twp_do. assert (0 <= v / price) by (apply Z.div_pos; lia).
  apply wp_pay_in; [apply M04|apply Z.mul_nonneg_nonneg; lia|]. intros m5 M5 X5 P5. unfold twp, tret. cbn [wp fst snd]. split; [by eapply mrel_trans|].
  exists k, v. split_and!; try done; try lia; [by rewrite <- (image_pays _ _ _ _ P1)|].
  exists m2, m3, m4. split_and!; try done.
  - intros b. unfold m2, with_image. rewrite balance_changed, (balance_pays _ _ _ b P1). lia.
  - unfold m2, with_image, image_at. by rewrite bytes_at_changed, decide_True.
  - rewrite bool_decide_eq_true. intros [e ->]. by apply Hf.
Qed.

Lemma TransitionDb_privacy gp m : machine_ok m -> IsNormalTransaction (msg_txType msg) = false -> 0 < price -> 0 <= gp < N ->
  twp (TransitionDb cfg rec coinbase msg) (privacy_post gp m) (NewStateTransition msg gp) m.
Proof.
  intros Hm Hn Hp HN. unfold TransitionDb. cbv zeta. rewrite Hn. apply twp_ret. apply from_wp; [done|]. intros m1 M1 X1 P1. assert (machine_ok m1) as Hm1 by apply M1.
  apply twp_get. cbn [st_data NewStateTransition]. pose proof (IntrinsicGas_nonneg (msg_data msg) (bool_decide (msg_to msg = None)) true) as Hi.
  set (intrinsic := IntrinsicGas _ _ _) in *. assert (forall e st' m', mrel m m' -> st_gp st' = gp -> privacy_post gp m (inr e) st' m') as Hfail by (intros; split; [done|by left]).
  destruct (big_BitLen intrinsic >? 64) eqn:El; [by apply Hfail|]. apply BitLen_64 in El; [|done]. apply twp_bind. unfold use_stamp. apply twp_get.
  apply twp_bind. unfold twp at 1, tlift. apply wp_then. eapply wp_conseq; [by apply PreProcess_wp; [done..|apply Hmsg|]|]. cbn [st_data].
  intros [[[data total] useable]|e] m2 Hpre; cbn [wp fst snd]; [|rewrite Hpre; by apply Hfail]. apply twp_put. apply twp_bind. unfold pool_SubGas. apply twp_get. cbn [st_gp NewStateTransition]. unfold SubGas.
  assert (0 < intrinsic) as Hpos by (eapply Z.lt_le_trans; [|apply IntrinsicGas_pos]; done).
  destruct Hpre as [(-> & -> & -> & ->)|(k & v & Hk & Hz & Hv & -> & -> & H64 & Hu & Hd)].
  - rewrite (proj2 (Z.ltb_ge gp 0)) by lia. unfold twp at 1, tput. cbn [wp fst snd]. unfold twp at 1, tret. cbn [wp fst snd]. apply twp_bind. unfold useGas. apply twp_get.
    rewrite big_Uint64_id by (unfold is_u64; lia). cbn [with_gp st_gas]. rewrite (proj2 (Z.ltb_lt 0 intrinsic)) by done. apply Hfail; [done|simpl; lia].
  - assert (mrel m (with_image k v m1)) as M2 by (eapply mrel_trans; [exact M1|by apply with_image_mrel]).
    destruct (Z.ltb_spec gp (v / price)); [by apply Hfail|]. unfold twp at 1, tput. cbn [wp fst snd]. unfold twp at 1, tret. cbn [wp fst snd].
    apply twp_bind. unfold useGas. apply twp_get. rewrite big_Uint64_id by (unfold is_u64; lia). cbn [with_gp st_gas].
    destruct (Z.ltb_spec useable intrinsic); [split; [done|right; by exists v]|]. eapply (privacy_end_wp gp m m1 (with_image k v m1) k v useable data M1 P1 Hk Hz Hv eq_refl Hp); [exact H0|exact H64|exact Hu|exact Hd|lia|exact X1|exact H1].
Qed.
End Privacy.

(** ** Claims *)

Section Claims.
Context `{HPL : PrecompileLaws} `{HE : EllipticCurve} {D T : Type} `{HT : StateTrie T} `{HD : StateDatabase D T} `{HL : !StateStoreLaws D T}.
Context (db : D) (A : bytes -> option bytes) (getHash : Z -> hash) (aborted : nat -> bool).
Context (Hhash : forall n, is_hash (getHash n)) (Hsize : forall d a h n, ContractCodeSize d a h = Some n -> 0 <= n).
Context (ctx : BlockContext) (cfg : Config).

(** The result of a transition on the state database. *)
Definition message_ends (fuel : nat) (msg : Message) (gp : Z) (s : StateDB D T) (n : nat) (Q : Z -> bytes * Z * bool + transition_err -> machine -> Prop) : Prop :=
  ends_in db A getHash aborted (ApplyMessage cfg (Run ctx cfg fuel) (Coinbase ctx) msg gp) s n
    (fun '(gp', r) s' m' => state_sound db A s' m' /\ Q gp' r m').

Lemma message_ends_wp fuel msg gp s m n Q Q' : state_sound db A s m ->
  twp (TransitionDb cfg (Run ctx cfg fuel) (Coinbase ctx) msg) Q (NewStateTransition msg gp) m ->
  (forall r st' m', Q r st' m' -> mrel m m' /\ Q' (st_gp st') (match r with inl (ret, _, used, failed) => inl (ret, used, failed) | inr e => inr e end) m') ->
  message_ends fuel msg gp s n Q'.
Proof.
  intros [Hi Hm] Ht HQ. unfold message_ends. eapply ends_in_wp with (Q := fun x m' => mrel m m' /\ Q' x.1 x.2 m'); [exact Hhash|exact Hsize|exact Hi| |].
  - unfold ApplyMessage. eapply wp_seq; [exact Ht|]. intros [st' r] m' Hr. cbn [wp]. exact (HQ r st' m' Hr).
  - intros [gp' r] s' m' Hi' [[Hm' _ _ _] Hr]. split; [by split|done].
Qed.

Lemma Run_within fuel msg : ctx_ok ctx -> DisableGasMetering cfg = false -> msg_gas msg < Z.of_nat fuel -> msg_gas msg < pc_limit ->
  runner_ok (Z.min (Z.of_nat fuel) pc_limit) (Run ctx cfg fuel) /\ msg_gas msg < Z.min (Z.of_nat fuel) pc_limit.
Proof. intros Hc Hm Hf Hl. split; [by apply Run_ok|lia]. Qed.

(** The accounts of a normal transaction balance: when it is accepted, at most its gas
    limit is used and at least half of its intrinsic gas; the pool of the block loses
    exactly what is used; the sender pays for its gas limit before the machine runs
    and gets the price of the rest back, the proposer of the block gets the price of
    what is used, and nobody else pays or is paid; a machine that fails leaves the
    state as it was. *)
Theorem message_accounting fuel msg gp s m n : ctx_ok ctx -> DisableGasMetering cfg = false -> state_sound db A s m -> message_ok msg ->
  IsNormalTransaction (msg_txType msg) = true -> msg_gas msg < Z.of_nat fuel -> msg_gas msg < pc_limit ->
  message_ends fuel msg gp s n (fun gp' r m' => match r with
    | inl (ret, used, failed) => 0 <= used <= msg_gas msg /\ IntrinsicGas (msg_data msg) (bool_decide (msg_to msg = None)) true <= 2 * used /\
        msg_gas msg <= gp /\ gp' = gp - used /\ msg_gas msg * msg_gasPrice msg <= balance_of m (msg_from msg) /\ settled (Coinbase ctx) msg m used failed m'
    | inr _ => gp' = gp \/ gp' = gp - msg_gas msg
    end).
Proof.
  intros Hctx Hmeter Hs Hmsg Hn Hf Hl. destruct (Run_within fuel msg Hctx Hmeter Hf Hl) as [HR HN].
  eapply message_ends_wp; [exact Hs|eapply (TransitionDb_normal cfg _ _ msg Hmsg _ HR); [lia|apply Hs|done|done]|].
  intros [[[[ret required] used] failed]|e] st' m' [M Hr]; (split; [done|]); [|done]. destruct Hr as (H1 & H2 & H3 & H4 & H5 & H6).
  pose proof (IntrinsicGas_nonneg (msg_data msg) (bool_decide (msg_to msg = None)) true). pose proof (Z.div_mod required 2 ltac:(lia)). pose proof (Z.mod_pos_bound required 2 ltac:(lia)).
  split_and!; try done; lia.
Qed.

(** A transaction that is accepted but fails costs its gas and nothing else: the
    sender loses the price of the gas that was used and has a new nonce, the proposer
    gets that price, and no other account changes, neither in its balance nor its
    code, storage or nonce. *)
Theorem failed_message_pays_gas fuel msg gp s m n : ctx_ok ctx -> DisableGasMetering cfg = false -> state_sound db A s m -> message_ok msg ->
  IsNormalTransaction (msg_txType msg) = true -> msg_gas msg < Z.of_nat fuel -> msg_gas msg < pc_limit -> msg_to msg <> None ->
  message_ends fuel msg gp s n (fun gp' r m' => forall ret used, r = inl (ret, used, true) ->
    forall b, acct_at (m_world m') b =
      add_balance (if decide (b = msg_from msg) then set_nonce (acct_at (m_world m) b) (u64 (nonce_of m b + 1)) else acct_at (m_world m) b)
        (at_addr (msg_from msg) (- (used * msg_gasPrice msg)) b + at_addr (Coinbase ctx) (used * msg_gasPrice msg) b)).
Proof.
  intros Hctx Hmeter Hs Hmsg Hn Hf Hl Hto. destruct (Run_within fuel msg Hctx Hmeter Hf Hl) as [HR HN].
  eapply message_ends_wp; [exact Hs|eapply (TransitionDb_normal cfg _ _ msg Hmsg _ HR); [lia|apply Hs|done|done]|].
  intros [[[[ret required] used] failed]|e] st' m' [M Hr]; (split; [done|]); [|done]. intros ret' used' [= <- <- ->] b.
  destruct Hr as (_ & _ & _ & _ & _ & m0 & m1 & m2 & [P0 _] & S1 & _ & Hw & [P2 _]). rewrite P2, (Hw eq_refl Hto), S1. unfold nonce_of. rewrite P0.
  unfold add_balance, at_addr. destruct (decide (b = msg_from msg)) as [->|Hb]; [rewrite decide_True by done|rewrite decide_False by tauto].
  all: destruct (acct_at (m_world m) _); unfold set_nonce, set_balance; simpl; f_equal; repeat destruct (decide _); lia.
Qed.
End Claims.

Section StampClaims.
Context `{HCL : CryptoLaws} `{HE : EllipticCurve} `{HN : NativeLib} `{HB : Bn256} {HNL : NativeLaws}.
Context {D T : Type} `{HT : StateTrie T} `{HD : StateDatabase D T} `{HL : !StateStoreLaws D T}.
Context (db : D) (A : bytes -> option bytes) (getHash : Z -> hash) (aborted : nat -> bool).
Context (Hhash : forall n, is_hash (getHash n)) (Hsize : forall d a h n, ContractCodeSize d a h = Some n -> 0 <= n).
Context (ctx : BlockContext) (cfg : Config).

#[local] Existing Instance byzantium.

(** The accounts of a privacy transaction balance: when it is accepted, its stamp had
    not been used, and is recorded as used; the gas is the value of the stamp divided
    by the price, of which the proposer of the block gets the price, at most the value
    of the stamp; the pool of the block loses that gas; the sender pays nothing. *)
Theorem stamp_accounting fuel msg gp s m n : ctx_ok ctx -> DisableGasMetering cfg = false -> state_sound db A s m -> message_ok msg ->
  IsNormalTransaction (msg_txType msg) = false -> 0 < msg_gasPrice msg -> 0 <= gp < Z.of_nat fuel -> gp < 2 ^ 62 ->
  message_ends db A getHash aborted ctx cfg fuel msg gp s n (fun gp' r m' => match r with
    | inl (ret, used, failed) => exists k v, stamp_key (msg_data msg) = Some k /\ image_at m (Keccak256 k) = [] /\ 0 < v /\
        used = v / msg_gasPrice msg /\ used * msg_gasPrice msg <= v /\ IntrinsicGas (msg_data msg) (bool_decide (msg_to msg = None)) true <= used /\
        gp' = gp - used /\ 0 <= gp' /\ stamped_run (Coinbase ctx) msg m k v used failed m'
    | inr _ => gp' = gp \/ exists v, 0 < v /\ gp' = gp - v / msg_gasPrice msg
    end).
Proof.
  intros Hctx Hmeter Hs Hmsg Hn Hp Hf Hl. eapply message_ends_wp; [exact Hhash|exact Hsize|exact Hs| |].
  - apply (TransitionDb_privacy mul_total cfg (Run ctx cfg fuel) (Coinbase ctx) msg Hmsg (Z.min (Z.of_nat fuel) pc_limit) (Run_ok ctx cfg Hctx Hmeter fuel)); [lia|apply Hs|exact Hn|exact Hp|].
    change pc_limit with (2 ^ 62). lia.
  - intros [[[[ret required] used] failed]|e] st' m' [M Hr]; (split; [done|]); [|done]. destruct Hr as (k & v & H1 & H2 & H3 & H4 & H5 & H6 & H7 & H8).
    exists k, v. split_and!; try done; try lia. subst used. rewrite Z.mul_comm. apply Z.mul_div_le. lia.
Qed.
End StampClaims.

(** ** Runs *)

#[local] Existing Instances NativeClaims.demo_curve NativeClaims.demo_native NativeClaims.demo_bn256 NativeClaims.demo_native_laws.
#[local] Existing Instance byzantium.

(** A message on the state database after some operations: the pool, the result, and
    balances. *)
Definition observe_message (ops : list state_op) (msg : Message) (gp : Z) (accounts : list address) : option (Z * (bytes * Z * bool + transition_err) * list Z) :=
  ask (let! (_, s) := state_run (over nil_trie) ops in
    match run_prog (state_handler (fun _ => zero_hash) (fun _ => false)) (ApplyMessage demo_cfg (Run demo_ctx demo_cfg 100) (Coinbase demo_ctx) msg gp) (s, O) with
    | PDone (gp, r) (s, _) =>
        let! balances := (fix go accounts s := match accounts with [] => Ok [] | a :: accounts => let! (b, s) := GetBalance a s in let! bs := go accounts s in Ok (b :: bs) end) accounts s in
        Ok (gp, r, balances)
    | _ => Panic
    end) id.

(** A transfer of 7 with a gas limit of 30000 at a price of 2. *)
Definition demo_message : Message := mkMessage demo_addr (Some demo_contract) 0 7 30000 2 [] true NORMAL_TX.

Example demo_transfer : observe_message [OAddBalance demo_addr 100000] demo_message 1000000 [demo_addr; demo_contract; Coinbase demo_ctx]
  = Some (979000, inl ([], 21000, false), [57993; 7; 42000]).
Proof. vm_compute. exact eq_refl. Qed.

(** A call signed with the account of 10 coins, as a stamp. *)
Definition privacy_message (price : Z) : Message :=
  mkMessage demo_addr (Some demo_contract) 0 0 0 price
    ([1; 2; 3; 4] ++ match method_pack combine_outputs [AString (demo_ring demo_addr); ABytes []] with Ok b => b | _ => [] end) false PRIVACY_TX.

Example demo_stamp : observe_message sold_ops (privacy_message (10 ^ 14)) 1000000 [demo_addr; Coinbase demo_ctx] = Some (900000, inl ([], 100000, false), [5; 10 * ether]).
Proof. vm_compute. exact eq_refl. Qed.

(** A price of zero makes every node that processes the transaction panic: only the
    pool of transactions, not the transition, looks at the price. *)
Theorem zero_price_panics : ask (let! (_, s) := state_run (over nil_trie) sold_ops in
    match run_prog (state_handler (fun _ => zero_hash) (fun _ => false)) (ApplyMessage demo_cfg (Run demo_ctx demo_cfg 100) (Coinbase demo_ctx) (privacy_message 0) 1000000) (s, O) with
    | PCrash codes => Ok codes
    | _ => Panic
    end) id = Some [].
Proof. vm_compute. exact eq_refl. Qed.

(** A stamp that is used again is refused. *)
Example demo_spent : observe_message (sold_ops ++ [OSetStateByteArray otaImageStorageAddr (Keccak256 (FromECDSAPub demo_key)) (be_bytes (10 * ether))]) (privacy_message (10 ^ 14)) 1000000 [Coinbase demo_ctx]
  = Some (1000000, inr (VmError ErrOutOfGas), [0]).
Proof. vm_compute. exact eq_refl. Qed.

(** ** Witnesses *)

Lemma demo_message_ok : message_ok demo_message.
Proof. constructor; [apply be_pad_ok|intros a [= <-]; apply be_pad_ok|discriminate|discriminate|discriminate|apply small_nil]. Qed.

Lemma privacy_message_ok : message_ok (privacy_message 7).
Proof.
  constructor; [apply be_pad_ok|intros a [= <-]; apply be_pad_ok|discriminate|discriminate|discriminate|].
  split; [apply (bool_decide_unpack _); vm_compute; exact I|vm_compute; reflexivity].
Qed.

Lemma message_accounting_witness : exists s, state_sound demo_store (fun _ => None) s vm_machine /\
  message_ends demo_store (fun _ => None) (fun _ => zero_hash) (fun _ => false) demo_ctx demo_cfg demo_fuel demo_message 1000000 s 0 (fun gp' r m' => match r with
    | inl (ret, used, failed) => 0 <= used <= 30000 /\ IntrinsicGas [] false true <= 2 * used /\ 30000 <= 1000000 /\ gp' = 1000000 - used /\
        30000 * 2 <= balance_of vm_machine demo_addr /\ settled (Coinbase demo_ctx) demo_message vm_machine used failed m'
    | inr _ => gp' = 1000000 \/ gp' = 1000000 - 30000
    end).
Proof.
  destruct vm_state as [s Hs]. exists s. split; [exact Hs|].
  apply (message_accounting demo_store (fun _ => None) (fun _ => zero_hash) (fun _ => false) demo_hash demo_size demo_ctx demo_cfg demo_fuel demo_message);
    [exact demo_ctx_ok|reflexivity|exact Hs|exact demo_message_ok|reflexivity|reflexivity|reflexivity].
Defined.

Lemma failed_message_pays_gas_witness : exists s, state_sound demo_store (fun _ => None) s vm_machine /\
  message_ends demo_store (fun _ => None) (fun _ => zero_hash) (fun _ => false) demo_ctx demo_cfg demo_fuel demo_message 1000000 s 0 (fun gp' r m' =>
    forall ret used, r = inl (ret, used, true) -> forall b, acct_at (m_world m') b =
      add_balance (if decide (b = demo_addr) then set_nonce (acct_at (m_world vm_machine) b) (u64 (nonce_of vm_machine b + 1)) else acct_at (m_world vm_machine) b)
        (at_addr demo_addr (- (used * 2)) b + at_addr (Coinbase demo_ctx) (used * 2) b)).
Proof.
  destruct vm_state as [s Hs]. exists s. split; [exact Hs|].
  apply (failed_message_pays_gas demo_store (fun _ => None) (fun _ => zero_hash) (fun _ => false) demo_hash demo_size demo_ctx demo_cfg demo_fuel demo_message);
    [exact demo_ctx_ok|reflexivity|exact Hs|exact demo_message_ok|reflexivity|reflexivity|reflexivity|discriminate].
Defined.

Lemma stamp_accounting_witness : exists s, state_sound demo_store (fun _ => None) s vm_machine /\
  message_ends demo_store (fun _ => None) (fun _ => zero_hash) (fun _ => false) demo_ctx demo_cfg demo_fuel (privacy_message 7) 10000 s 0 (fun gp' r m' => match r with
    | inl (ret, used, failed) => exists k v, stamp_key (msg_data (privacy_message 7)) = Some k /\ image_at vm_machine (Keccak256 k) = [] /\ 0 < v /\
        used = v / 7 /\ used * 7 <= v /\ IntrinsicGas (msg_data (privacy_message 7)) false true <= used /\ gp' = 10000 - used /\ 0 <= gp' /\
        stamped_run (Coinbase demo_ctx) (privacy_message 7) vm_machine k v used failed m'
    | inr _ => gp' = 10000 \/ exists v, 0 < v /\ gp' = 10000 - v / 7
    end).
Proof.
  destruct vm_state as [s Hs]. exists s. split; [exact Hs|].
  apply (stamp_accounting demo_store (fun _ => None) (fun _ => zero_hash) (fun _ => false) demo_hash demo_size demo_ctx demo_cfg demo_fuel (privacy_message 7));
    [exact demo_ctx_ok|reflexivity|exact Hs|exact privacy_message_ok|reflexivity|reflexivity| |reflexivity].
  split; [discriminate|reflexivity].
Defined.
