(* ===== verification/SnapshotProps.v ===== *)
(** Correctness of the vote snapshots: the incremental tally of
    [backend/snapshot.go] refines a ballot that recounts all votes, the
    validator set changes only by a majority of its members, and the sorted
    list of validators is what the extra data of a header needs. *)
From S2P Require Import Prelude RlpEncode RlpDecode IstanbulTypes ValidatorSet ValidatorProps IstanbulCore IstanbulHeader Storage Snapshot HeaderHash.

(** ** Specification: a ballot without a tally *)

Record ballot := mkBallot { b_members : gset address; b_votes : list Vote }.

Definition votes_about (a : address) (l : list Vote) : list Vote := filter (fun v => vt_Address v = a) l.

Definition count (a : address) (l : list Vote) : Z := zlen (votes_about a l).

(** A vote is meaningful when it asks for a change. *)
Definition meaningful (M : gset address) (a : address) (authorize : bool) : Prop :=
  authorize = bool_decide (a ∉ M).

#[export] Instance meaningful_dec M a b : Decision (meaningful M a b).
Proof. unfold meaningful. apply _. Defined.

(** What the vote of [validator] about [coinbase] does: it replaces an earlier
    vote of the same validator about the same candidate, and if more than half
    of the validators agree the candidate changes sides, its ballot is closed
    and a removed validator loses its votes. *)
Definition ballot_votes (validator : address) (number : Z) (coinbase : address) (authorize : bool)
    (b : ballot) : list Vote :=
  let kept := filter (fun v => ~ (vt_Validator v = validator /\ vt_Address v = coinbase)) (b_votes b) in
  if bool_decide (meaningful (b_members b) coinbase authorize)
  then kept ++ [mkVote validator number coinbase authorize] else kept.

Definition ballot_step (validator : address) (number : Z) (coinbase : address) (authorize : bool)
    (b : ballot) : ballot :=
  let votes := ballot_votes validator number coinbase authorize b in
  if count coinbase votes >? Z.of_nat (size (b_members b)) / 2 then
    if bool_decide (coinbase ∈ b_members b) then
      mkBallot (b_members b ∖ {[coinbase]})
        (filter (fun v => vt_Address v <> coinbase /\ vt_Validator v <> coinbase) votes)
    else
      mkBallot ({[coinbase]} ∪ b_members b) (filter (fun v => vt_Address v <> coinbase) votes)
  else mkBallot (b_members b) votes.

(** The meaning of a nonce. *)
Definition nonce_vote (nonce : bytes) : option bool :=
  if bool_decide (nonce = nonceAuthVote) then Some true
  else if bool_decide (nonce = nonceDropVote) then Some false else None.

(** What one header does to the ballot, errors included. *)
Definition ballot_apply (validator : address) (number : Z) (header : Header) (b : ballot)
    : outcome engine_err ballot :=
  if bool_decide (validator ∈ b_members b) then
    match nonce_vote (h_Nonce header) with
    | Some authorize => Ok (ballot_step validator number (h_Coinbase header) authorize b)
    | None => Err errInvalidVote
    end
  else Err errUnauthorized.

(** ** Invariant *)

Section Inv.
Context `{Crypto}.

Definition abs (s : Snapshot) : ballot := mkBallot (members (s_ValSet s)) (s_Votes s).

Definition vote_key (v : Vote) : address * address := (vt_Validator v, vt_Address v).

(** One vote per validator and candidate, cast by a validator, asking for a
    change. *)
Definition votes_ok (M : gset address) (l : list Vote) : Prop :=
  NoDup (map vote_key l) /\
  Forall (fun v => vt_Validator v ∈ M /\ meaningful M (vt_Address v) (vt_Authorize v)) l.

(** The tally is the number of votes. *)
Definition tally_of (M : gset address) (l : list Vote) (a : address) : option Tally :=
  if count a l =? 0 then None else Some (mkTally (bool_decide (a ∉ M)) (count a l)).

Definition snap_ok (s : Snapshot) : Prop :=
  set_ok (s_ValSet s) /\
  votes_ok (members (s_ValSet s)) (s_Votes s) /\
  forall a, s_Tally s !! a = tally_of (members (s_ValSet s)) (s_Votes s) a.

Lemma newSnapshot_ok epoch number h vs : set_ok vs -> snap_ok (newSnapshot epoch number h vs).
Proof. intros Hs. split; [done|]. split; [|done]. split; constructor. Qed.

Lemma copy_ok fresh s : snap_ok s -> snap_ok (copy fresh s) /\ abs (copy fresh s) = abs s.
Proof.
  intros (Hs & Hv & Ht). destruct (set_Copy_ok fresh _ Hs) as [Hs' E].
  unfold snap_ok, abs. simpl. rewrite E. done.
Qed.

Lemma checkVote_meaningful s a auth :
  set_ok (s_ValSet s) -> checkVote s a auth = bool_decide (meaningful (members (s_ValSet s)) a auth).
Proof.
  intros Hs. unfold checkVote. pose proof (GetByAddress_member (s_ValSet s) a) as G.
  destruct (GetByAddress (s_ValSet s) a) as [k [v|]]; symmetry.
  - assert (E : bool_decide (a ∉ members (s_ValSet s)) = false)
      by (apply bool_decide_eq_false; intros HN; apply HN, G; eauto).
    destruct auth; [apply bool_decide_false|apply bool_decide_true]; unfold meaningful; by rewrite E.
  - assert (E : bool_decide (a ∉ members (s_ValSet s)) = true)
      by (apply bool_decide_eq_true; rewrite G; naive_solver).
    destruct auth; [apply bool_decide_true|apply bool_decide_false]; unfold meaningful; by rewrite E.
Qed.

(** ** Counting *)

Lemma count_nil a : count a [] = 0.
Proof. done. Qed.

Lemma count_app a l1 l2 : count a (l1 ++ l2) = count a l1 + count a l2.
Proof. unfold count, votes_about. by rewrite filter_app, zlen_app. Qed.

Lemma count_cons a v l : count a (v :: l) = (if bool_decide (vt_Address v = a) then 1 else 0) + count a l.
Proof.
  unfold count, votes_about. rewrite filter_cons. case_decide as E.
  - by rewrite bool_decide_true, zlen_cons by done.
  - by rewrite bool_decide_false by done.
Qed.

Lemma count_nonneg a l : 0 <= count a l.
Proof. apply zlen_nonneg. Qed.

Lemma count_pos a l : 0 < count a l <-> exists v, v ∈ l /\ vt_Address v = a.
Proof.
  induction l as [|v l IH].
  { rewrite count_nil. split; [lia|]. by intros (? & ?%elem_of_nil & _). }
  rewrite count_cons. pose proof (count_nonneg a l). case_bool_decide as E.
  - split; [|lia]. intros _. exists v. by rewrite elem_of_cons; auto.
  - rewrite Z.add_0_l, IH. split; intros (w & Hw & Ew); exists w; rewrite elem_of_cons in *; [auto|].
    destruct Hw as [->|]; [done|auto].
Qed.

(** ** Single operations *)

(** [tallied M l t]: the map [t] is the tally of the votes [l]. *)
Definition tallied (M : gset address) (l : list Vote) (t : gmap address Tally) : Prop :=
  forall a, t !! a = tally_of M l a.

Lemma tally_of_count M l l' a : count a l = count a l' -> tally_of M l a = tally_of M l' a.
Proof. unfold tally_of. by intros ->. Qed.

Lemma uncast_other a auth s :
  s_Votes (uncast a auth s).2 = s_Votes s /\ s_ValSet (uncast a auth s).2 = s_ValSet s /\
  s_Epoch (uncast a auth s).2 = s_Epoch s /\ s_Number (uncast a auth s).2 = s_Number s /\
  s_Hash (uncast a auth s).2 = s_Hash s.
Proof. unfold uncast. by repeat case_match. Qed.

(** Reverting a counted vote. *)
Lemma uncast_tallied M l1 v l2 s :
  tallied M (l1 ++ v :: l2) (s_Tally s) -> meaningful M (vt_Address v) (vt_Authorize v) ->
  tallied M (l1 ++ l2) (s_Tally (uncast (vt_Address v) (vt_Authorize v) s).2).
Proof.
  intros Ht Hm a. set (b := vt_Address v) in *. unfold uncast.
  pose proof (Ht b) as Hb. pose proof (count_nonneg b (l1 ++ l2)) as Hn. unfold tally_of in Hb.
  assert (C : forall x, count x (l1 ++ v :: l2) = (if bool_decide (b = x) then 1 else 0) + count x (l1 ++ l2)).
  { intros x. rewrite !count_app, count_cons. unfold b. lia. }
  pose proof (C b) as Cb. rewrite bool_decide_true in Cb by done. rewrite Cb, (proj2 (Z.eqb_neq _ 0)) in Hb by lia.
  rewrite Hb. simpl. rewrite <- Hm, eqb_reflx. simpl.
  destruct (decide (a = b)) as [->|Hne].
  - unfold tally_of. repeat zcase; simpl.
    all: rewrite ?lookup_insert_eq, ?lookup_delete_eq; try done; try lia. rewrite <- Hm. repeat f_equal. lia.
  - assert (E : s_Tally s !! a = tally_of M (l1 ++ l2) a).
    { rewrite Ht. apply tally_of_count. rewrite C, bool_decide_false by done. lia. }
    zcase; simpl; by rewrite ?lookup_insert_ne, ?lookup_delete_ne by done.
Qed.

Lemma cast_tallied M l s a auth validator number :
  set_ok (s_ValSet s) -> M = members (s_ValSet s) -> tallied M l (s_Tally s) -> meaningful M a auth ->
  exists s', cast a auth s = (true, s') /\ s' = set_Tally (s_Tally s') s /\
    tallied M (l ++ [mkVote validator number a auth]) (s_Tally s').
Proof.
  intros Hs -> Ht Hm. unfold cast. rewrite checkVote_meaningful, bool_decide_true by done. simpl.
  eexists. split; [done|]. split; [done|]. simpl. intros x. unfold tally_of.
  rewrite count_app, count_cons, count_nil, Z.add_0_r. simpl. pose proof (count_nonneg x l) as Hn.
  destruct (decide (x = a)) as [->|Hne].
  - rewrite bool_decide_true by done. zcase; [lia|]. rewrite lookup_insert_eq, Ht. unfold tally_of.
    zcase; simpl; [|done]. rewrite <- Hm, Heqb0. done.
  - rewrite bool_decide_false by done. rewrite lookup_insert_ne by done. rewrite Ht, Z.add_0_r. done.
Qed.

Lemma cast_refused s a auth :
  set_ok (s_ValSet s) -> ~ meaningful (members (s_ValSet s)) a auth -> cast a auth s = (false, s).
Proof. intros Hs Hm. unfold cast. by rewrite checkVote_meaningful, bool_decide_false. Qed.

(** Snapshots that differ only in votes, tally and validators. *)
Definition same_head (s s' : Snapshot) : Prop :=
  s_Epoch s' = s_Epoch s /\ s_Number s' = s_Number s /\ s_Hash s' = s_Hash s.

#[export] Instance same_head_preorder : PreOrder same_head.
Proof. split; [done|]. intros x y z (? & ? & ?) (? & ? & ?). unfold same_head. split_and!; congruence. Qed.

Lemma votes_ok_filter M l (P : Vote -> Prop) `{forall v, Decision (P v)} :
  votes_ok M l -> votes_ok M (filter P l).
Proof.
  intros [Hn Hf]. pose proof (sublist_filter P l) as Hs. split.
  - eapply sublist_NoDup; [exact Hn|]. by apply (fmap_sublist vote_key).
  - rewrite Forall_forall in *. intros v Hv. apply Hf. by eapply elem_of_sublist.
Qed.

Lemma previous_vote_spec validator coinbase l :
  match previous_vote validator coinbase l with
  | Some (v, l') => exists l1 l2, l = l1 ++ v :: l2 /\ l' = l1 ++ l2 /\
      vt_Validator v = validator /\ vt_Address v = coinbase
  | None => Forall (fun v => ~ (vt_Validator v = validator /\ vt_Address v = coinbase)) l
  end.
Proof.
  induction l as [|v l IH]; simpl; [constructor|].
  destruct (bool_decide _ && bool_decide _) eqn:E; zbool.
  - apply bool_decide_eq_true in H0, H1. by exists [], l.
  - destruct (previous_vote validator coinbase l) as [[w l']|]; simpl.
    + destruct IH as (l1 & l2 & -> & -> & ? & ?). by exists (v :: l1), l2.
    + constructor; [|done]. intros [? ?]. by rewrite !bool_decide_true in E.
Qed.

Lemma filter_key_unique (l1 l2 : list Vote) v :
  NoDup (map vote_key (l1 ++ v :: l2)) ->
  filter (fun w => ~ (vt_Validator w = vt_Validator v /\ vt_Address w = vt_Address v)) (l1 ++ v :: l2) = l1 ++ l2.
Proof.
  intros Hn. rewrite map_app in Hn. simpl in Hn. apply NoDup_app in Hn as (_ & Hd & H2).
  inversion_clear H2 as [|? ? Hv _].
  assert (K : forall l, vote_key v ∉ map vote_key l ->
    filter (fun w => ~ (vt_Validator w = vt_Validator v /\ vt_Address w = vt_Address v)) l = l).
  { intros l Hl. apply filter_all, Forall_forall. intros w Hw [E1 E2]. apply Hl. apply list_elem_of_fmap. exists w.
    split; [unfold vote_key; by rewrite E1, E2|done]. }
  rewrite filter_app, filter_cons_False by tauto. f_equal; apply K; [|done].
  intros Hin. by apply (Hd _ Hin), list_elem_of_here.
Qed.

Lemma discard_previous_ok validator coinbase s :
  snap_ok s ->
  let s' := discard_previous validator coinbase s in
  snap_ok s' /\ same_head s s' /\ s_ValSet s' = s_ValSet s /\
  s_Votes s' = filter (fun v => ~ (vt_Validator v = validator /\ vt_Address v = coinbase)) (s_Votes s).
Proof.
  intros (Hs & Hv & Ht) s'. unfold s', discard_previous.
  pose proof (previous_vote_spec validator coinbase (s_Votes s)) as P.
  destruct (previous_vote validator coinbase (s_Votes s)) as [[v l']|].
  - destruct P as (l1 & l2 & El & -> & <- & <-).
    assert (Hm : meaningful (members (s_ValSet s)) (vt_Address v) (vt_Authorize v)).
    { destruct Hv as [_ Hf]. rewrite El in Hf. apply Forall_app in Hf as [_ Hf].
      by inversion_clear Hf as [|? ? [_ ?] _]. }
    rewrite El in Ht. pose proof (uncast_tallied _ l1 v l2 s Ht Hm) as Ht'.
    destruct (uncast_other (vt_Address v) (vt_Authorize v) s) as (_ & EV & EE & EN & EH).
    pose proof (votes_ok_filter _ _ (fun w => ~ (vt_Validator w = vt_Validator v /\ vt_Address w = vt_Address v)) Hv) as Hv'.
    rewrite El, filter_key_unique in Hv' by (destruct Hv as [Hn _]; by rewrite <- El).
    unfold snap_ok, same_head. cbn [set_Votes s_ValSet s_Votes s_Tally s_Epoch s_Number s_Hash]. rewrite EV, El.
    rewrite filter_key_unique by (destruct Hv as [Hn _]; by rewrite <- El). done.
  - split; [done|]. split; [done|]. split; [done|]. symmetry. by apply filter_all.
Qed.

(** The votes of a removed validator. *)
Lemma discard_cast_by_ok M who l : forall pre s,
  tallied M (pre ++ l) (s_Tally s) -> Forall (fun v => meaningful M (vt_Address v) (vt_Authorize v)) l ->
  let '(kept, s') := discard_cast_by who l s in
  kept = filter (fun v => vt_Validator v <> who) l /\ tallied M (pre ++ kept) (s_Tally s') /\
  same_head s s' /\ s_ValSet s' = s_ValSet s.
Proof.
  induction l as [|v l IH]; intros pre s Ht Hm; simpl.
  { done. }
  inversion_clear Hm as [|? ? Hmv Hml]. rewrite filter_cons. case_bool_decide as E.
  - rewrite decide_False by tauto. pose proof (uncast_tallied M pre v l s Ht Hmv) as Ht'.
    destruct (uncast_other (vt_Address v) (vt_Authorize v) s) as (_ & EV & EE & EN & EH).
    specialize (IH pre (uncast (vt_Address v) (vt_Authorize v) s).2 Ht' Hml).
    destruct (discard_cast_by who l _) as [kept s']. destruct IH as (-> & ? & (? & ? & ?) & ?).
    unfold same_head. split_and!; try done; congruence.
  - rewrite decide_True by done. specialize (IH (pre ++ [v]) s). rewrite <- app_assoc in IH.
    specialize (IH Ht Hml). destruct (discard_cast_by who l s) as [kept s']. destruct IH as (-> & Ht' & ? & ?).
    rewrite <- app_assoc in Ht'. done.
Qed.

Lemma discard_about_filter who l : discard_about who l = filter (fun v => vt_Address v <> who) l.
Proof.
  induction l as [|v l IH]; simpl; [done|]. rewrite filter_cons, IH. case_bool_decide; case_decide; naive_solver.
Qed.

Lemma votes_ok_snoc M l validator number coinbase authorize :
  votes_ok M l -> validator ∈ M -> meaningful M coinbase authorize ->
  Forall (fun v => ~ (vt_Validator v = validator /\ vt_Address v = coinbase)) l ->
  votes_ok M (l ++ [mkVote validator number coinbase authorize]).
Proof.
  intros [Hn Hf] Hval Hm Hnew. split.
  - rewrite map_app. apply NoDup_app. split; [done|]. split; [|apply NoDup_singleton].
    intros k Hk [= ->]%list_elem_of_singleton. apply list_elem_of_fmap in Hk as (w & [= -> ->] & Hw).
    rewrite Forall_forall in Hnew. by apply (Hnew w Hw).
  - apply Forall_app. split; [done|]. by apply Forall_singleton.
Qed.

Lemma ballot_votes_ok M l validator number coinbase authorize :
  votes_ok M l -> validator ∈ M -> votes_ok M (ballot_votes validator number coinbase authorize (mkBallot M l)).
Proof.
  intros Hl Hv. unfold ballot_votes. cbn. case_bool_decide; [|by apply votes_ok_filter].
  apply votes_ok_snoc; auto using votes_ok_filter. apply Forall_forall. intros w.
  rewrite list_elem_of_filter. tauto.
Qed.

(** The validators behind the votes about one candidate. *)
Definition supporters (c : address) (l : list Vote) : gset address :=
  list_to_set (map vt_Validator (votes_about c l)).

Lemma supporters_spec M l c :
  votes_ok M l ->
  supporters c l ⊆ M /\ Z.of_nat (size (supporters c l)) = count c l /\
  forall v, v ∈ supporters c l -> exists w, w ∈ l /\ vt_Validator w = v /\ vt_Address w = c /\ meaningful M c (vt_Authorize w).
Proof.
  intros Hl. destruct (votes_ok_filter M l (fun v => vt_Address v = c) Hl) as [Hn _]. destruct Hl as [_ Hf].
  rewrite Forall_forall in Hf.
  assert (X : forall v, v ∈ supporters c l -> exists w, w ∈ l /\ vt_Validator w = v /\ vt_Address w = c).
  { intros v. unfold supporters. rewrite elem_of_list_to_set. intros (w & -> & Hw)%list_elem_of_fmap.
    apply list_elem_of_filter in Hw as [? ?]. eauto. }
  split; [|split].
  - intros v (w & Hw & <- & _)%X. by apply Hf.
  - unfold supporters. rewrite size_list_to_set; [unfold count, zlen; by rewrite length_map|].
    apply (NoDup_fmap_1 (fun v => (v, c))). unfold votes_about.
    replace (fmap _ _) with (map vote_key (filter (fun v => vt_Address v = c) l)); [done|].
    change (fmap ?f ?m) with (map f m). rewrite map_map. apply map_ext_in. intros w Hw%list_elem_of_In.
    apply list_elem_of_filter in Hw as [<- _]. done.
  - intros v (w & Hw & <- & <-)%X. exists w. split_and!; try done. by apply Hf.
Qed.

Lemma ballot_step_change M l validator number c authorize :
  votes_ok M l -> validator ∈ M ->
  let b' := ballot_step validator number c authorize (mkBallot M l) in
  b_members b' <> M ->
  let S := supporters c (ballot_votes validator number c authorize (mkBallot M l)) in
  S ⊆ M /\ (size M < 2 * size S)%nat /\
  b_members b' = (if bool_decide (c ∈ M) then M ∖ {[c]} else {[c]} ∪ M).
Proof.
  intros Hl Hv b' Hne S. unfold b', ballot_step in *. cbn [b_members] in *.
  destruct (supporters_spec M _ c (ballot_votes_ok M l validator number c authorize Hl Hv)) as (HS & Hc & _).
  fold S in HS, Hc. destruct (count c _ >? _) eqn:G; [|done]. zbool. split; [done|]. split.
  - pose proof (Z.div_mod (Z.of_nat (size M)) 2 ltac:(lia)). pose proof (Z.mod_pos_bound (Z.of_nat (size M)) 2 ltac:(lia)). lia.
  - by case_bool_decide.
Qed.

(** The new vote. *)
Lemma cast_vote_ok s validator number coinbase authorize :
  snap_ok s -> validator ∈ members (s_ValSet s) ->
  Forall (fun v => ~ (vt_Validator v = validator /\ vt_Address v = coinbase)) (s_Votes s) ->
  let s' := match cast coinbase authorize s with
            | (true, s') => set_Votes (s_Votes s' ++ [mkVote validator number coinbase authorize]) s'
            | (false, s') => s'
            end in
  snap_ok s' /\ same_head s s' /\ s_ValSet s' = s_ValSet s /\
  s_Votes s' = if bool_decide (meaningful (members (s_ValSet s)) coinbase authorize)
               then s_Votes s ++ [mkVote validator number coinbase authorize] else s_Votes s.
Proof.
  intros (Hs & Hv & Ht) Hval Hnew. case_bool_decide as Hm.
  - destruct (cast_tallied _ (s_Votes s) s coinbase authorize validator number Hs eq_refl Ht Hm)
      as (s1 & -> & E & Ht'). rewrite E in Ht' |- *. cbn in Ht' |- *. split; [|done].
    split; [done|]. cbn. split; [|done]. by apply votes_ok_snoc.
  - rewrite cast_refused by done. done.
Qed.

(** A candidate that changes sides. *)
Lemma votes_ok_change M M' l who :
  votes_ok M l -> (forall a, a <> who -> a ∈ M <-> a ∈ M') ->
  Forall (fun v => vt_Address v <> who /\ (vt_Validator v <> who \/ who ∈ M')) l -> votes_ok M' l.
Proof.
  intros [Hn Hf] HM Hw. split; [done|]. rewrite Forall_forall in *. intros v Hv.
  destruct (Hf v Hv) as [H1 H2]. destruct (Hw v Hv) as [W1 W2]. split.
  - destruct (decide (vt_Validator v = who)) as [E|E]; [destruct W2; [done|by rewrite E]|by apply HM].
  - unfold meaningful in *. rewrite H2. apply bool_decide_ext. by rewrite HM.
Qed.

Lemma tallied_change M M' l t who :
  tallied M l t -> (forall a, a <> who -> a ∈ M <-> a ∈ M') ->
  tallied M' (filter (fun v => vt_Address v <> who) l) (delete who t).
Proof.
  intros Ht HM a. destruct (decide (a = who)) as [->|Hne].
  - rewrite lookup_delete_eq. unfold tally_of.
    set (l' := filter _ l). destruct (Z.eq_dec (count who l') 0) as [->|C]; [done|].
    pose proof (count_nonneg who l').
    destruct (proj1 (count_pos who l')) as (v & Hv & E); [lia|].
    by apply list_elem_of_filter in Hv as [? _].
  - rewrite lookup_delete_ne, Ht by done. unfold tally_of, count, votes_about.
    rewrite list_filter_filter_l by naive_solver.
    by rewrite (bool_decide_ext _ _ (not_iff_compat (HM a Hne))).
Qed.

Lemma pass_vote_ok fresh coinbase tally s :
  snap_ok s -> is_address coinbase -> ty_Authorize tally = bool_decide (coinbase ∉ members (s_ValSet s)) ->
  let s' := pass_vote fresh coinbase tally s in
  snap_ok s' /\ same_head s s' /\ policy (s_ValSet s') = policy (s_ValSet s) /\
  abs s' =
    if bool_decide (coinbase ∈ members (s_ValSet s)) then
      mkBallot (members (s_ValSet s) ∖ {[coinbase]})
        (filter (fun v => vt_Address v <> coinbase /\ vt_Validator v <> coinbase) (s_Votes s))
    else mkBallot ({[coinbase]} ∪ members (s_ValSet s)) (filter (fun v => vt_Address v <> coinbase) (s_Votes s)).
Proof.
  intros (Hs & Hv & Ht) Ha Et s'. unfold s', pass_vote. rewrite Et. clear s' Et.
  destruct (decide (coinbase ∈ members (s_ValSet s))) as [Hin|Hin].
  - rewrite (bool_decide_false (coinbase ∉ _)), (bool_decide_true (coinbase ∈ _)) by tauto.
    destruct (RemoveValidator coinbase (s_ValSet s)) as [b vs'] eqn:R.
    destruct (RemoveValidator_ok _ _ _ _ Hs R) as (Hs' & EM & _).
    assert (EP : policy vs' = policy (s_ValSet s)) by (unfold RemoveValidator in R; case_match; by simplify_eq).
    cbn. pose proof (discard_cast_by_ok (members (s_ValSet s)) coinbase (s_Votes s) [] (set_ValSet vs' s)) as D.
    destruct (discard_cast_by coinbase (s_Votes s) (set_ValSet vs' s)) as [kept s1].
    destruct D as (-> & Ht' & Hh & EV); [done|by destruct Hv as [_ Hf]; eapply Forall_impl; [exact Hf|]; intros ? []|].
    cbn in EV, Ht' |- *. rewrite discard_about_filter. unfold snap_ok, abs. cbn. rewrite EV, EM.
    assert (HM : forall a, a <> coinbase -> a ∈ members (s_ValSet s) <-> a ∈ members (s_ValSet s) ∖ {[coinbase]}) by set_solver.
    split; [split; [done|]; split|split; [done|split; [done|]]].
    + eapply votes_ok_change; [by apply votes_ok_filter, votes_ok_filter|exact HM|].
      apply Forall_forall. intros v. rewrite !list_elem_of_filter. tauto.
    + by apply (tallied_change _ _ _ _ _ Ht').
    + f_equal. rewrite list_filter_filter. apply list_filter_iff. tauto.
  - rewrite (bool_decide_true (coinbase ∉ _)), (bool_decide_false (coinbase ∈ _)) by tauto.
    destruct (AddValidator fresh coinbase (s_ValSet s)) as [b vs'] eqn:R.
    destruct (AddValidator_ok _ _ _ _ _ Hs Ha R) as (Hs' & EM & _).
    assert (EP : policy vs' = policy (s_ValSet s)) by (unfold AddValidator in R; case_match; by simplify_eq).
    cbn. rewrite discard_about_filter. unfold snap_ok, abs. cbn. rewrite EM.
    assert (HM : forall a, a <> coinbase -> a ∈ members (s_ValSet s) <-> a ∈ {[coinbase]} ∪ members (s_ValSet s)) by set_solver.
    split; [split; [done|]; split|done].
    + eapply votes_ok_change; [by apply votes_ok_filter|exact HM|].
      apply Forall_forall. intros v. rewrite list_elem_of_filter. set_solver.
    + by apply (tallied_change _ _ _ _ _ Ht).
Qed.

Definition outcome_map {A B} (f : A -> B) (x : outcome engine_err A) : outcome engine_err B :=
  match x with Ok a => Ok (f a) | Err e => Err e | Panic => Panic end.

(** The snapshot after a header has the same head, policy and invariant. *)
Definition steps_to (s s' : Snapshot) : Prop :=
  snap_ok s' /\ same_head s s' /\ policy (s_ValSet s') = policy (s_ValSet s).

Lemma steps_to_trans s1 s2 s3 : steps_to s1 s2 -> steps_to s2 s3 -> steps_to s1 s3.
Proof. intros (_ & H1 & P1) (O & H2 & P2). split; [done|]. split; [by etrans|congruence]. Qed.

Lemma apply_vote_ok fresh validator number header s :
  snap_ok s -> is_address (h_Coinbase header) ->
  outcome_map abs (apply_vote fresh validator number header s) = ballot_apply validator number header (abs s) /\
  forall s', apply_vote fresh validator number header s = Ok s' -> steps_to s s'.
Proof.
  intros Hok Ha. pose proof Hok as (Hs & _ & _). unfold apply_vote, ballot_apply, nonce_vote. cbn [b_members abs].
  pose proof (GetByAddress_member (s_ValSet s) validator) as G.
  destruct (GetByAddress (s_ValSet s) validator) as [k [v|]].
  2:{ rewrite bool_decide_false by (rewrite G; naive_solver). by split. }
  assert (Hval : validator ∈ members (s_ValSet s)) by (apply G; eauto).
  rewrite (bool_decide_true (validator ∈ _)) by done. clear G.
  set (c := h_Coinbase header) in *.
  destruct (discard_previous_ok validator c s Hok) as (Hok1 & Hh1 & EV1 & EL1).
  set (s1 := discard_previous validator c s) in *.
  assert (STEP : forall authorize,
    let s2 := match cast c authorize s1 with
              | (true, s') => set_Votes (s_Votes s' ++ [mkVote validator number c authorize]) s'
              | (false, s') => s' end in
    let tally := default (mkTally false 0) (s_Tally s2 !! c) in
    let s3 := if ty_Votes tally >? Size (s_ValSet s2) / 2 then pass_vote fresh c tally s2 else s2 in
    abs s3 = ballot_step validator number c authorize (abs s) /\ steps_to s s3).
  { intros authorize s2 tally s3.
    destruct (cast_vote_ok s1 validator number c authorize Hok1) as (Hok2 & Hh2 & EV2 & EL2); [by rewrite EV1| |].
    { rewrite EL1. apply Forall_forall. intros w. rewrite list_elem_of_filter. tauto. }
    fold s2 in Hok2, Hh2, EV2, EL2. rewrite EV1 in EV2, EL2. rewrite EL1 in EL2.
    change (s_Votes s2 = ballot_votes validator number c authorize (abs s)) in EL2.
    assert (Hc : ty_Votes tally = count c (s_Votes s2) /\
                 (0 < count c (s_Votes s2) -> ty_Authorize tally = bool_decide (c ∉ members (s_ValSet s2)))).
    { unfold tally. destruct Hok2 as (_ & _ & Ht2). rewrite Ht2. unfold tally_of. zcase; simpl; [lia|done]. }
    destruct Hc as [Hc1 Hc2]. unfold s3, ballot_step. rewrite <- EL2, Hc1. cbn [abs b_members].
    rewrite <- (size_members (s_ValSet s2)), EV2 by (apply Hok2).
    zcase; [|split; [unfold abs; by rewrite EV2|split; [done|split; [by etrans|congruence]]]].
    assert (0 <= Z.of_nat (size (members (s_ValSet s))) / 2) by (apply Z.div_pos; lia).
    destruct (pass_vote_ok fresh c tally s2 Hok2 Ha ltac:(apply Hc2; lia)) as (Hok3 & Hh3 & EP3 & ->).
    rewrite EV2 in *. split; [done|]. split; [done|]. split; [by do 2 (etrans; [eassumption|])|done]. }
  repeat case_bool_decide; simpl; [| |by split].
  - destruct (STEP true) as [-> HS]. split; [done|]. by intros s' [= <-].
  - destruct (STEP false) as [-> HS]. split; [done|]. by intros s' [= <-].
Qed.
End Inv.

(** ** Specification of [apply] on ballots *)

Section ApplySpec.
Context `{Crypto}.

Definition ballot_header (epoch : Z) (b : ballot) (header : Header) : outcome engine_err ballot :=
  let! number := header_number header in
  if epoch =? 0 then Panic
  else
    let b := if number `mod` epoch =? 0 then mkBallot (b_members b) [] else b in
    let! validator := recover_signer header in
    ballot_apply validator number header b.

Fixpoint ballot_headers (epoch : Z) (b : ballot) (headers : list Header) : outcome engine_err ballot :=
  match headers with
  | [] => Ok b
  | header :: rest => let! b' := ballot_header epoch b header in ballot_headers epoch b' rest
  end.

(** Headers [number + 1], [number + 2], ... *)
Definition ballot_chain (epoch number : Z) (b : ballot) (headers : list Header) : outcome engine_err ballot :=
  match headers with
  | [] => Ok b
  | first :: _ =>
      let! _ := check_contiguous headers in
      let! n0 := header_number first in
      if negb (n0 =? u64 (number + 1)) then Err errInvalidVotingChain
      else ballot_headers epoch b headers
  end.

End ApplySpec.

(** ** Refinement of [apply]

    [K] are the headers in play: Keccak does not collide on them. *)
Section Apply.
Context `{Crypto} {T : Type -> Type} `{ARCLaws T} (K : Header -> Prop).
Context (HK : collision_free K) (Hhash : forall h, K h -> hashable h).

(** The address cache knows only true signers. *)
Definition signers_ok (c : T address) : Prop :=
  forall k a h, arc_has c k a -> K h -> header_Hash h = k -> recover_signer h = Ok a.

Lemma same_hash_same_signer h h' :
  K h -> K h' -> header_Hash h = header_Hash h' -> recover_signer h = recover_signer h'.
Proof.
  intros Kh Kh' E. destruct (Hhash h Kh) as (O1 & F1 & _), (Hhash h' Kh') as (O2 & F2 & _).
  rewrite <- (recover_signer_normal h), <- (recover_signer_normal h') by done.
  f_equal. by apply (header_Hash_inj K); auto.
Qed.

(** The cache is transparent. *)
Lemma ecrecover_ok h c :
  K h -> signers_ok c -> exists c', ecrecover h c = (recover_signer h, c') /\ signers_ok c'.
Proof.
  intros Kh Hc. unfold ecrecover. destruct (arc_Get (header_Hash h) c) as [[a|] c'] eqn:G.
  - exists c'. split; [f_equal; symmetry; by apply (Hc (header_Hash h)); [eapply arc_Get_has|..]|].
    intros k b h' Hb. apply Hc. by eapply arc_has_Get.
  - assert (Hc' : signers_ok c') by (intros k b h' Hb; apply Hc; by eapply arc_has_Get).
    destruct (recover_signer h) as [a|e|] eqn:R; [|by exists c'..].
    eexists. split; [done|]. intros k b h' Hb Kh' E.
    apply arc_has_Add in Hb as [[-> ->]|Hb]; [|by eapply Hc'].
    rewrite <- R. by apply same_hash_same_signer.
Qed.

Lemma epoch_reset_ok epoch number s :
  snap_ok s ->
  outcome_map abs (epoch_reset epoch number s) =
    (if epoch =? 0 then Panic
     else Ok (if number `mod` epoch =? 0 then mkBallot (b_members (abs s)) [] else abs s)) /\
  forall s', epoch_reset epoch number s = Ok s' -> steps_to s s'.
Proof.
  intros Hok. unfold epoch_reset. zcase; [done|]. split; [by zcase|]. intros s' [= <-].
  zcase; [|by split]. split; [|done]. destruct Hok as (Hs & _ & _). split; [done|]. split; [|done]. split; constructor.
Qed.

Lemma apply_header_ok fresh epoch s h c :
  K h -> signers_ok c -> snap_ok s ->
  exists r c', apply_header fresh epoch s h c = (r, c') /\ signers_ok c' /\
    outcome_map abs r = ballot_header epoch (abs s) h /\ forall s', r = Ok s' -> steps_to s s'.
Proof.
  intros Kh Hc Hs. unfold apply_header, ballot_header, mbind, EM_bind, lift.
  destruct (header_number h) as [n|e|]; simpl; [|by exists (Err e), c|by exists Panic, c].
  destruct (epoch_reset_ok epoch n s Hs) as [E1 S1]. revert E1.
  destruct (epoch_reset epoch n s) as [s1|e|] eqn:R; simpl.
  - zcase; [done|]. intros [= E1]. rewrite <- E1. clear E1.
    destruct (ecrecover_ok h c Kh Hc) as (c' & -> & Hc').
    destruct (recover_signer h) as [v|e|]; simpl; [|by exists (Err e), c'|by exists Panic, c'].
    destruct (Hhash h Kh) as ((_ & _ & Ha & _) & _). destruct (S1 s1 eq_refl) as (Hs1 & Hh1 & Hp1).
    destruct (apply_vote_ok fresh v n h s1 Hs1 Ha) as [E2 S2].
    exists (apply_vote fresh v n h s1), c'. split; [done|]. split; [done|]. split; [done|].
    intros s' E. eapply steps_to_trans; [by split|]. by apply S2.
  - by zcase.
  - zcase; [|done]. intros _. by exists Panic, c.
Qed.

Lemma apply_headers_ok epoch headers : forall fresh s c,
  Forall K headers -> signers_ok c -> snap_ok s ->
  exists r c', apply_headers fresh epoch s headers c = (r, c') /\ signers_ok c' /\
    outcome_map abs r = ballot_headers epoch (abs s) headers /\ forall s', r = Ok s' -> steps_to s s'.
Proof.
  induction headers as [|h headers IH]; intros fresh s c HKs Hc Hs; simpl.
  { exists (Ok s), c. split; [done|]. split; [done|]. split; [done|]. intros s' [= <-]. by split. }
  inversion_clear HKs as [|? ? Kh HKs']. unfold mbind, EM_bind.
  destruct (apply_header_ok fresh epoch s h c Kh Hc Hs) as (r & c' & -> & Hc' & E & S). rewrite <- E.
  destruct r as [s1|e|]; simpl; [|by exists (Err e), c'|by exists Panic, c'].
  destruct (IH (fresh + 1) s1 c' HKs' Hc' (proj1 (S s1 eq_refl))) as (r & c2 & -> & Hc2 & E2 & S2).
  exists r, c2. split; [done|]. split; [done|]. split; [done|]. intros s' Es.
  eapply steps_to_trans; [by apply S|by apply S2].
Qed.

(** What [apply] promises about a result. *)
Definition applied (s : Snapshot) (headers : list Header) (s' : Snapshot) : Prop :=
  snap_ok s' /\ s_Epoch s' = s_Epoch s /\ policy (s_ValSet s') = policy (s_ValSet s) /\
  (headers <> [] -> s_Number s' = u64 (s_Number s + zlen headers)) /\
  s_Hash s' = from_option header_Hash (s_Hash s) (last headers).

Lemma last_List_last (l : list Header) h0 : l <> [] -> last l = Some (List.last l h0).
Proof.
  intros Hl. destruct (exists_last Hl) as (l' & x & ->). by rewrite last_snoc, List.last_last.
Qed.

Lemma apply_ok fresh s headers c :
  Forall K headers -> signers_ok c -> snap_ok s ->
  exists r c', apply fresh s headers c = (r, c') /\ signers_ok c' /\
    outcome_map abs r = ballot_chain (s_Epoch s) (s_Number s) (abs s) headers /\
    forall s', r = Ok s' -> applied s headers s'.
Proof.
  intros HKs Hc Hs. destruct headers as [|h0 rest].
  { exists (Ok s), c. split; [done|]. split; [done|]. split; [done|]. intros s' [= <-]. by split. }
  unfold apply, ballot_chain, mbind, EM_bind, lift, throw, lift.
  set (headers := h0 :: rest) in *.
  destruct (check_contiguous headers) as [[]|e|]; simpl; [|by exists (Err e), c|by exists Panic, c].
  destruct (header_number h0) as [n0|e|]; simpl; [|by exists (Err e), c|by exists Panic, c].
  destruct (negb _); [by exists (Err errInvalidVotingChain), c|].
  destruct (copy_ok fresh s Hs) as [Hs1 E1].
  destruct (apply_headers_ok (s_Epoch s) headers (fresh + Size (s_ValSet s)) (copy fresh s) c HKs Hc Hs1)
    as (r & c' & Er & Hc' & E & S).
  change (apply_headers (fresh + Size (s_ValSet s)) (s_Epoch s) (copy fresh s) headers c) with
    (apply_headers (T := T) (fresh + Size (s_ValSet s)) (s_Epoch s) (copy fresh s) (h0 :: rest) c) in Er.
  simpl in Er |- *. rewrite Er. rewrite E1 in E.
  destruct r as [s2|e|]; [|by exists (Err e), c'|by exists Panic, c'].
  eexists _, c'. split; [done|]. split; [done|]. split; [done|]. intros s' [= <-].
  destruct (S s2 eq_refl) as (Hs2 & (HE & HN & HH) & HP). cbn in HE, HN, HH, HP.
  split; [done|]. split; [done|]. split; [cbn; rewrite HP; unfold set_Copy, newDefaultSet; by zcase|].
  split; [intros _; cbn; by rewrite HN|]. cbn [s_Hash].
  change (match rest with [] => h0 | _ :: _ => List.last rest h0 end) with (List.last headers h0).
  by rewrite (last_List_last headers h0).
Qed.

End Apply.

(** ** The sorted list of validators *)

Definition addr_le (a b : address) : Prop := str_ltb b a = false.

#[export] Instance addr_le_trans : Transitive addr_le.
Proof.
  intros a b c. unfold addr_le. intros H1 H2.
  destruct (str_ltb_total a b) as [E|[->|E]]; [|done|congruence].
  destruct (str_ltb_total b c) as [E'|[->|E']]; [|done|congruence].
  apply str_ltb_antisym. by eapply str_ltb_trans.
Qed.

Lemma select_least_spec l : forall x m r,
  select_least x l = (m, r) -> m :: r ≡ₚ x :: l /\ Forall (addr_le m) r.
Proof.
  induction l as [|y l IH]; intros x m r E; simpl in E; [by simplify_eq|].
  destruct (str_ltb y x) eqn:L.
  - destruct (select_least y l) as [m' r'] eqn:S. simplify_eq. destruct (IH y m r' S) as [P F]. split.
    + rewrite <- P. apply Permutation_swap.
    + constructor; [|done].
      assert (My : m = y \/ addr_le m y).
      { assert (y ∈ m :: r') as [->|Hy]%elem_of_cons by (rewrite P; left); [by left|]. right.
        rewrite Forall_forall in F. by apply F. }
      assert (addr_le y x) by (by apply str_ltb_antisym). destruct My as [->|]; [done|by etrans].
  - destruct (select_least x l) as [m' r'] eqn:S. simplify_eq. destruct (IH x m r' S) as [P F]. split.
    + rewrite (Permutation_swap y m r'), P. apply Permutation_swap.
    + constructor; [|done].
      assert (x ∈ m :: r') as [->|Hx]%elem_of_cons by (rewrite P; left); [done|].
      rewrite Forall_forall in F. etrans; [by apply F|]. done.
Qed.

Lemma selection_sort_spec n : forall l, length l = n ->
  selection_sort n l ≡ₚ l /\ StronglySorted addr_le (selection_sort n l).
Proof.
  induction n as [|n IH]; intros [|x l] Hl; simpl in *; try done; [split; [done|constructor]|].
  destruct (select_least x l) as [m r] eqn:S. destruct (select_least_spec l x m r S) as [P F].
  pose proof (Permutation_length P) as Lr. simpl in Lr. destruct (IH r) as [P' SS]; [lia|]. split.
  - by rewrite P', P.
  - constructor; [done|]. by rewrite P'.
Qed.

Section Persist.
Context `{Crypto}.

Lemma snap_validators_perm s : snap_validators s ≡ₚ addresses (s_ValSet s).
Proof. by apply selection_sort_spec. Qed.

(** A snapshot that went through JSON: the proposer and the pointers of its
    validators are fresh, everything else is kept. *)
Lemma json_snapshot_ok fresh s :
  snap_ok s ->
  let s' := fromJSONStruct fresh (toJSONStruct s) in
  snap_ok s' /\ abs s' = abs s /\ same_head s s' /\ policy (s_ValSet s') = policy (s_ValSet s).
Proof.
  intros (Hs & Hv & Ht) s'.
  assert (Hset : set_ok (s_ValSet s') /\ members (s_ValSet s') = members (s_ValSet s)).
  { destruct (newDefaultSet_ok fresh (snap_validators s) (policy (s_ValSet s))) as [Hs' EM].
    - rewrite snap_validators_perm. apply Hs.
    - rewrite snap_validators_perm. apply Hs.
    - split; [exact Hs'|]. unfold s'. cbn. rewrite EM. unfold members. by rewrite snap_validators_perm. }
  destruct Hset as [Hs' EM]. split; [|split; [|split; [done|]]].
  - unfold snap_ok. by rewrite EM.
  - unfold abs. by rewrite EM.
  - unfold s'. cbn. unfold newDefaultSet. by zcase.
Qed.

End Persist.

(** ** Claims *)

(** C20: the votes are counted right.  [apply] keeps the snapshot well formed (one
    vote per validator and candidate, cast by validators, tally equal to the
    number of votes), and its result, errors and panics included, is the one of
    the ballot that has no tally and recounts all votes at every header; the
    address cache is transparent; number, hash, epoch and policy of the new
    snapshot are those of the last header. *)
Theorem apply_refines `{Crypto} {T : Type -> Type} `{ARCLaws T} (K : Header -> Prop)
    (fresh : Z) (s : Snapshot) (headers : list Header) (c : T address) :
  collision_free K -> (forall h, K h -> hashable h) ->
  Forall K headers -> signers_ok K c -> snap_ok s ->
  exists r c', apply fresh s headers c = (r, c') /\ signers_ok K c' /\
    outcome_map abs r = ballot_chain (s_Epoch s) (s_Number s) (abs s) headers /\
    forall s', r = Ok s' ->
      snap_ok s' /\ s_Epoch s' = s_Epoch s /\ policy (s_ValSet s') = policy (s_ValSet s) /\
      (headers <> [] -> s_Number s' = u64 (s_Number s + zlen headers)) /\
      s_Hash s' = from_option header_Hash (s_Hash s) (last headers).
Proof. intros HK Hh HKs Hc Hs. by apply (apply_ok K HK Hh). Qed.

(** C21: only a majority changes the validators.  If a header changes the
    validator set of a snapshot, it adds or removes exactly its coinbase, and
    more than half of the validators are behind it: its sealer, and validators
    whose recorded votes about that account ask for this change. *)
Theorem validator_change_majority `{Crypto} {T : Type -> Type} `{ARCLaws T} (K : Header -> Prop)
    (fresh : Z) (s s' : Snapshot) (h : Header) (c c' : T address) :
  collision_free K -> (forall h, K h -> hashable h) -> K h -> signers_ok K c -> snap_ok s ->
  apply fresh s [h] c = (Ok s', c') -> members (s_ValSet s') <> members (s_ValSet s) ->
  let M := members (s_ValSet s) in
  exists signer S, recover_signer h = Ok signer /\ signer ∈ M /\
    S ⊆ M /\ (size M < 2 * size S)%nat /\
    (forall v, v ∈ S -> v = signer \/ exists w, w ∈ s_Votes s /\ vt_Validator w = v /\
       vt_Address w = h_Coinbase h /\ vt_Authorize w = bool_decide (h_Coinbase h ∉ M)) /\
    members (s_ValSet s') =
      (if bool_decide (h_Coinbase h ∈ M) then M ∖ {[h_Coinbase h]} else {[h_Coinbase h]} ∪ M).
Proof.
  intros HK Hh Kh Hc Hs E Hne M.
  destruct (apply_ok K HK Hh fresh s [h] c) as (r & c1 & E1 & _ & B & _); [by apply Forall_singleton|done..|].
  rewrite E in E1. injection E1 as <- <-. simpl in B. unfold ballot_header in B.
  destruct (header_number h) as [n|e|]; simpl in B; [|done..]. destruct (negb _); [done|].
  destruct (s_Epoch s =? 0); [done|]. destruct (recover_signer h) as [v|e|]; simpl in B; [|done..].
  set (b := if _ =? 0 then mkBallot (members (s_ValSet s)) [] else abs s) in B.
  assert (Hb : exists l, b = mkBallot M l /\ votes_ok M l /\ l ⊆ s_Votes s).
  { unfold b. zcase; [exists []|exists (s_Votes s)]; (split; [done|split; [|set_solver]]).
    - split; constructor.
    - apply Hs. }
  destruct Hb as (l & Eb & Hl & Hsub). rewrite Eb in B. unfold ballot_apply in B. cbn in B.
  case_bool_decide as Hv; [|done]. destruct (nonce_vote (h_Nonce h)) as [auth|]; [|done]. simpl in B.
  injection B as B. destruct (ballot_step_change M l v n (h_Coinbase h) auth Hl Hv) as (HS & Hsz & EM).
  { by rewrite <- B. }
  pose proof (ballot_votes_ok M l v n (h_Coinbase h) auth Hl Hv) as HV.
  destruct (supporters_spec M _ (h_Coinbase h) HV) as (_ & _ & W).
  eexists v, _. split; [done|]. split; [done|]. split; [exact HS|]. split; [exact Hsz|].
  split; [|rewrite <- B in EM; exact EM]. intros u (w & Hw & <- & Ea & Hm)%W.
  unfold ballot_votes in Hw. cbn in Hw. case_bool_decide; [apply elem_of_app in Hw as [Hw|Hw]|].
  - right. exists w. apply list_elem_of_filter in Hw as [_ Hw]. split_and!; auto.
  - left. by apply list_elem_of_singleton in Hw as ->.
  - right. exists w. apply list_elem_of_filter in Hw as [_ Hw]. split_and!; auto.
Qed.

(** [validators()] lists exactly the validators in strictly ascending order. *)
Lemma snap_validators_sorted `{Crypto} (s : Snapshot) :
  set_ok (s_ValSet s) ->
  (forall a, a ∈ snap_validators s <-> a ∈ members (s_ValSet s)) /\
  StronglySorted (fun a b => str_ltb a b = true) (snap_validators s).
Proof.
  intros Hs. split; [intros a; by rewrite elem_of_members, snap_validators_perm|].
  assert (Hn : NoDup (snap_validators s)) by (rewrite snap_validators_perm; apply Hs).
  assert (HS : StronglySorted addr_le (snap_validators s)) by (by apply selection_sort_spec).
  revert Hn. induction HS as [|a l HS IH Hf]; intros Hn; [constructor|].
  inversion_clear Hn as [|? ? Ha Hn']. constructor; [auto|]. rewrite Forall_forall in *. intros b Hb.
  destruct (str_ltb_total a b) as [|[->|E]]; [done|done|]. by rewrite (Hf b Hb) in E.
Qed.

(** a snapshot survives the database.  What [store] wrote under a hash is
    what [loadSnapshot] reads there: the same block, votes, tally and
    validators, well formed again, with the epoch of the configuration. *)
Theorem store_load `{Crypto} `{SnapshotCodecLaws} {DB : Type} `{DatabaseLaws DB}
    (fresh epoch : Z) (s : Snapshot) (d d' : DB) (s' : Snapshot) :
  snap_ok s -> store s d = (Ok tt, d') -> (loadSnapshot fresh epoch (s_Hash s) d').1 = Ok s' ->
  snap_ok s' /\ abs s' = abs s /\ s_Epoch s' = epoch /\ s_Number s' = s_Number s /\
  s_Hash s' = s_Hash s /\ s_Tally s' = s_Tally s /\ policy (s_ValSet s') = policy (s_ValSet s).
Proof.
  intros Hs St Ld. unfold store, MarshalJSON in St. unfold loadSnapshot, UnmarshalJSON in Ld.
  destruct (json_Marshal (toJSONStruct s)) as [b|] eqn:J; [|done].
  destruct (db_Put _ b d) as [d1|] eqn:P; [|done]. injection St as <-.
  destruct (db_Get (dbKeySnapshotPrefix ++ s_Hash s) d1) as [blob|] eqn:G; [|done].
  destruct (db_Get_Put _ _ _ _ _ _ P G) as [[_ ->]|[? _]]; [|done].
  rewrite (json_roundtrip _ _ J) in Ld. simpl in Ld. injection Ld as <-.
  destruct (json_snapshot_ok fresh s Hs) as (Hs' & EA & _ & EP). by split.
Qed.
