(* ===== verification/Engine.v ===== *)
(** The consensus engine: [consensus/istanbul/backend/engine.go] and
    [backend.go].

    [EM] threads the caches and the database of the engine; errors and panics
    are values.  The chain ([consensus.ChainReader]), the clock, the signing key
    and the peers are parameters of the calls that use them. *)
From S2P Require Import Prelude BigMath RlpEncode RlpDecode IstanbulTypes ValidatorSet ValidatorProps RoundState IstanbulCore IstanbulHeader Storage Snapshot.

(** ** Environment *)

Record Config := mkConfig {
  cfg_RequestTimeout : Z;
  cfg_BlockPeriod : Z;
  cfg_ProposerPolicy : Z;
  cfg_Epoch : Z
}.

(** [consensus.ChainReader], as far as the engine uses it. *)
Record ChainReader := mkChain {
  GetHeader : hash -> Z -> option Header;
  GetHeaderByNumber : Z -> option Header
}.

Definition checkpointInterval : Z := 1024.
Definition defaultDifficulty : Z := 1.
Definition emptyNonce : bytes := replicate 8 0.

(** The caches and the database; [e_addresses] is the package variable
    [recentAddresses]. *)
Record estate (T : Type -> Type) (DB : Type) := mkEstate {
  e_addresses : T address;
  e_recents : T Snapshot;
  e_db : DB
}.
Arguments mkEstate {T DB}.
Arguments e_addresses {T DB}.
Arguments e_recents {T DB}.
Arguments e_db {T DB}.

Section Engine.
Context `{Crypto} `{SnapshotCodec} {T : Type -> Type} `{ARCCache T} {DB : Type} `{Database DB}.
Context (config : Config) (chain : ChainReader) (now fresh : Z).

Abbreviation M := (EM (estate T DB)).

Definition on_addresses {A} (m : EM (T address) A) : M A := fun s =>
  let '(r, c) := m (e_addresses s) in (r, mkEstate c (e_recents s) (e_db s)).

Definition on_db {A} (m : EM DB A) : M A := fun s =>
  let '(r, d) := m (e_db s) in (r, mkEstate (e_addresses s) (e_recents s) d).

Definition recents_Get (h : hash) : M (option Snapshot) := fun s =>
  let '(o, c) := arc_Get h (e_recents s) in (Ok o, mkEstate (e_addresses s) c (e_db s)).

Definition recents_Add (h : hash) (snap : Snapshot) : M unit := fun s =>
  (Ok tt, mkEstate (e_addresses s) (arc_Add h snap (e_recents s)) (e_db s)).

(** Replace an error by a value. *)
Definition catch {A} (m : M A) (f : engine_err -> A) : M A := fun s =>
  match m s with
  | (Err e, s') => (Ok (f e), s')
  | r => r
  end.

(** [loadSnapshot] whose error is dropped. *)
Definition try_load (h : hash) : M (option Snapshot) :=
  catch (snap ← on_db (loadSnapshot fresh (cfg_Epoch config) h); mret (Some snap)) (fun _ => None).

Definition Author (header : Header) : M address := on_addresses (ecrecover header).

(** A nil [*big.Int] has no methods. *)
Definition nonnil {A} (x : option A) : M A := match x with Some a => mret a | None => lift Panic end.

(** ** Header verification

    [snapshot] below calls [VerifyHeader] on the genesis header, and
    verification calls [snapshot]: the functions of this section take the
    snapshot function as an argument. *)
Section Verify.
Context (snapshot : Z -> hash -> list Header -> M Snapshot).

Definition verifySigner (header : Header) (parents : list Header) : M unit :=
  number ← lift (header_number header);
  if number =? 0 then throw errUnknownBlock
  else
    snap ← snapshot (u64 (number - 1)) (h_ParentHash header) parents;
    signer ← Author header;
    match GetByAddress (s_ValSet snap) signer with
    | (_, None) => throw errUnauthorized
    | (_, Some _) => mret tt
    end.

(** The loop over the committed seals: every seal must come from a validator
    that has not sealed yet. *)
Fixpoint check_seals (proposalSeal : bytes) (vals : defaultSet) (seals : list bytes) (validSeal : Z)
    : outcome engine_err Z :=
  match seals with
  | [] => Ok validSeal
  | seal :: rest =>
      match GetSignatureAddress proposalSeal seal with
      | Ok addr =>
          match RemoveValidator addr vals with
          | (true, vals') => check_seals proposalSeal vals' rest (validSeal + 1)
          | (false, _) => Err errInvalidCommittedSeals
          end
      | Err _ => Err errInvalidSignature
      | Panic => Panic
      end
  end.

Definition verifyCommittedSeals (header : Header) (parents : list Header) : M unit :=
  number ← lift (header_number header);
  if number =? 0 then mret tt
  else
    snap ← snapshot (u64 (number - 1)) (h_ParentHash header) parents;
    extra ← lift (ExtractIstanbulExtra header);
    if zlen (x_CommittedSeal extra) =? 0 then throw errEmptyCommittedSeals
    else
      let vals := set_Copy fresh (s_ValSet snap) in
      let proposalSeal := PrepareCommittedSeal (header_Hash header) in
      validSeal ← lift (check_seals proposalSeal vals (x_CommittedSeal extra) 0);
      if validSeal <=? 2 * F (s_ValSet snap) then throw errInvalidCommittedSeals
      else mret tt.

Definition parent_of (header : Header) (number : Z) (parents : list Header) : option Header :=
  match last parents with
  | Some p => Some p
  | None => GetHeader chain (h_ParentHash header) (u64 (number - 1))
  end.

Definition verifyCascadingFields (header : Header) (parents : list Header) : M unit :=
  number ← lift (header_number header);
  if number =? 0 then mret tt
  else
    match parent_of header number parents with
    | None => throw ErrUnknownAncestor
    | Some parent =>
        pn ← lift (header_number parent);
        if negb (pn =? u64 (number - 1)) || negb (bool_decide (header_Hash parent = h_ParentHash header))
        then throw ErrUnknownAncestor
        else
          pt ← nonnil (h_Time parent);
          ht ← nonnil (h_Time header);
          if u64 (big_Uint64 pt + cfg_BlockPeriod config) >? big_Uint64 ht then throw errInvalidTimestamp
          else
            snapshot (u64 (number - 1)) (h_ParentHash header) parents;;
            verifySigner header parents;;
            verifyCommittedSeals header parents
    end.

Definition verifyHeader_with (header : Header) (parents : list Header) : M unit :=
  match h_Number header with
  | None => throw errUnknownBlock
  | Some _ =>
      t ← nonnil (h_Time header);
      if t >? now then throw (errOther ErrFutureBlock)
      else
        match ExtractIstanbulExtra header with
        | Panic => lift Panic
        | Err _ => throw errInvalidExtraDataFormat
        | Ok _ =>
            if negb (bool_decide (h_Nonce header = emptyNonce))
               && negb (bool_decide (h_Nonce header = nonceAuthVote))
               && negb (bool_decide (h_Nonce header = nonceDropVote)) then throw errInvalidNonce
            else if negb (bool_decide (h_MixDigest header = IstanbulDigest)) then throw errInvalidMixDigest
            else if negb (bool_decide (h_UncleHash header = nilUncleHash)) then throw errInvalidUncleHash
            else if negb (bool_decide (h_Difficulty header = Some defaultDifficulty)) then throw errInvalidDifficulty
            else verifyCascadingFields header parents
        end
  end.

(** ** Snapshots *)

(** Block zero: verify the genesis header and make a snapshot of it. *)
Definition genesis_snapshot : M Snapshot :=
  genesis ← nonnil (GetHeaderByNumber chain 0);
  verifyHeader_with genesis [];;
  extra ← lift (ExtractIstanbulExtra genesis);
  let snap := newSnapshot (cfg_Epoch config) 0 (header_Hash genesis)
                (newDefaultSet fresh (x_Validators extra) (cfg_ProposerPolicy config)) in
  on_db (store snap);;
  mret snap.

(** The header at ([number], [h]): from the explicit parents if there are any
    left, otherwise from the chain. *)
Definition gather_header (number : Z) (h : hash) (parents : list Header) : M (Header * list Header) :=
  match last parents with
  | Some header =>
      n ← (if bool_decide (header_Hash header = h) then lift (header_number header)
           else throw ErrUnknownAncestor);
      if negb (n =? number) then throw ErrUnknownAncestor else mret (header, removelast parents)
  | None =>
      match GetHeader chain h number with
      | None => throw ErrUnknownAncestor
      | Some header => mret (header, [])
      end
  end.

(** The search loop of [snapshot]: walk back to a known snapshot.  It ends at
    block zero, so [number + 1] iterations are enough. *)
Fixpoint snapshot_loop (fuel : nat) (number : Z) (h : hash) (parents headers : list Header)
    : M (Snapshot * list Header) :=
  match fuel with
  | O => lift Panic
  | S fuel' =>
      recent ← recents_Get h;
      match recent with
      | Some s => mret (s, headers)
      | None =>
          disk ← (if number `mod` checkpointInterval =? 0 then try_load h else mret None);
          match disk with
          | Some s => mret (s, headers)
          | None =>
              if number =? 0 then (s ← genesis_snapshot; mret (s, headers))
              else
                '(header, parents') ← gather_header number h parents;
                snapshot_loop fuel' (u64 (number - 1)) (h_ParentHash header) parents' (headers ++ [header])
          end
      end
  end.

(** [snapshot] after the search; the swaps of the source reverse [headers]. *)
Definition snapshot_finish (snap : Snapshot) (headers : list Header) : M Snapshot :=
  snap' ← on_addresses (apply fresh snap (rev headers));
  recents_Add (s_Hash snap') snap';;
  (if (s_Number snap' `mod` checkpointInterval =? 0) && (zlen headers >? 0)
   then on_db (store snap') else mret tt);;
  mret snap'.

Definition snapshot_with (number : Z) (h : hash) (parents : list Header) : M Snapshot :=
  '(snap, headers) ← snapshot_loop (S (Z.to_nat number)) number h parents [];
  snapshot_finish snap headers.

End Verify.

(** The recursion through the genesis header: the header of number zero needs
    no snapshot, so one level is enough (see [genesis_ok]). *)
Fixpoint snapshot_depth (depth : nat) (number : Z) (h : hash) (parents : list Header) : M Snapshot :=
  match depth with
  | O => lift Panic
  | S d => snapshot_with (snapshot_depth d) number h parents
  end.

Definition snapshot : Z -> hash -> list Header -> M Snapshot := snapshot_depth 1.

Definition verifyHeader : Header -> list Header -> M unit := verifyHeader_with snapshot.

Definition VerifyHeader (header : Header) : M unit := verifyHeader header [].

(** [VerifyHeaders]: the results it sends, each header with the headers before
    it as parents. *)
Fixpoint VerifyHeaders_loop (before headers : list Header) : estate T DB -> list (outcome engine_err unit) * estate T DB :=
  fun s =>
  match headers with
  | [] => ([], s)
  | header :: rest =>
      let '(r, s1) := verifyHeader header before s in
      let '(rs, s2) := VerifyHeaders_loop (before ++ [header]) rest s1 in
      (r :: rs, s2)
  end.

Definition VerifyHeaders (headers : list Header) := VerifyHeaders_loop [] headers.

Definition VerifyUncles (uncles : list Header) : outcome engine_err unit :=
  if zlen uncles >? 0 then Err errInvalidUncleHash else Ok tt.

Definition VerifySeal (header : Header) : M unit :=
  number ← lift (header_number header);
  if number =? 0 then throw errUnknownBlock
  else
    d ← nonnil (h_Difficulty header);
    if negb (d =? defaultDifficulty) then throw errInvalidDifficulty
    else verifySigner snapshot header [].

(** ** Preparing and sealing blocks *)

(** [rand.Intn(n)] is a parameter, as is the order of the candidates. *)
Definition Prepare `{GoRange} (randIntn : nat -> nat) (candidates : gmap address bool) (header : Header) : M Header :=
  number ← lift (header_number header);
  match GetHeader chain (h_ParentHash header) (u64 (number - 1)) with
  | None => throw ErrUnknownAncestor
  | Some parent =>
      snap ← snapshot (u64 (number - 1)) (h_ParentHash header) [];
      let valid := filter (fun kv : address * bool => checkVote snap kv.1 kv.2 = true)
                     (go_range (map_to_list candidates)) in
      let '(coinbase, nonce) :=
        match valid !! randIntn (length valid) with
        | Some (a, true) => (a, nonceAuthVote)
        | Some (a, false) => (a, nonceDropVote)
        | None => (zero_address, emptyNonce)
        end in
      extra ← lift (prepareExtra header (snap_validators snap)).2;
      pt ← nonnil (h_Time parent);
      let t := pt + cfg_BlockPeriod config in
      let t := if big_Int64 t <? now then now else t in
      mret (mkHeader (h_ParentHash header) (h_UncleHash header) coinbase (h_Root header) (h_TxHash header)
              (h_ReceiptHash header) (h_Bloom header) (Some defaultDifficulty) (h_Number header)
              (h_GasLimit header) (h_GasUsed header) (Some t) extra IstanbulDigest nonce)
  end.

End Engine.
