(* ===== verification/BackendOps.v ===== *)
(** The backend of the core: [consensus/istanbul/backend/backend.go] and the
    sealing half of [engine.go].

    Blocks, the commit of an agreed block, the verification of a proposal, the
    sealing of our own blocks, starting and stopping, and gossip with its two
    message caches. *)
From S2P Require Import Prelude BigMath RlpEncode RlpDecode IstanbulTypes ValidatorSet ValidatorProps RoundState IstanbulCore IstanbulHeader Storage Snapshot Transaction DeriveSha Engine.

(** ** Blocks *)

Record Block (Tx : Type) := mkBlock {
  b_header : Header;
  b_uncles : list Header;
  b_transactions : list Tx
}.
Arguments mkBlock {Tx}.
Arguments b_header {Tx}.
Arguments b_uncles {Tx}.
Arguments b_transactions {Tx}.

(** The root hash of a list of transactions, for blocks over any type of
    transactions; [DeriveSha] implements it for those of [core/types]. *)
Class TxRoot (Tx : Type) := { txs_DeriveSha : list Tx -> hash }.

#[export] Instance Transactions_root `{Crypto} : TxRoot Transaction :=
  { txs_DeriveSha txs := match DeriveSha (map GetRlp txs) with Ok h => h | _ => zero_hash end }.

Section Blocks.
Context {Tx : Type} `{Crypto}.

Definition block_Header (b : Block Tx) : Header := CopyHeader (b_header b).

Definition block_Hash (b : Block Tx) : hash := header_Hash (b_header b).

Definition WithSeal (header : Header) (b : Block Tx) : Block Tx :=
  mkBlock header (b_uncles b) (b_transactions b).

End Blocks.

(** ** State of the backend *)

(** Where an agreed block went: to the waiting [Seal], to the block fetcher, or
    nowhere. *)
Inductive delivery (Tx : Type) :=
| ToSeal (b : Block Tx)
| ToFetcher (b : Block Tx)
| ToNobody.
Arguments ToSeal {Tx}.
Arguments ToFetcher {Tx}.
Arguments ToNobody {Tx}.

Record bstate := mkBstate {
  bs_coreStarted : bool;
  bs_proposedBlockHash : hash;
  bs_channel : Z           (* generation of [commitCh] *)
}.

(** What [Seal] receives while it waits. *)
Inductive seal_event (Tx : Type) := SealResult (b : Block Tx) | SealStop.
Arguments SealResult {Tx}.
Arguments SealStop {Tx}.

Section Backend.
Context {Tx : Type} `{TxRoot Tx} `{Crypto} `{SnapshotCodec} {T : Type -> Type} `{ARCCache T} {DB : Type} `{Database DB}.
Context (config : Config) (chain : ChainReader) (now fresh : Z).

Abbreviation M := (EM (estate T DB)).

(** ** Committing *)

Definition Commit (hasBroadcaster : bool) (bs : bstate) (proposal : Block Tx) (seals : list bytes)
    : outcome engine_err (delivery Tx) :=
  let! h := writeCommittedSeals (block_Header proposal) seals in
  let block := WithSeal h proposal in
  if bool_decide (bs_proposedBlockHash bs = block_Hash block) then Ok (ToSeal block)
  else if hasBroadcaster then Ok (ToFetcher block)
  else Ok ToNobody.

(** ** Verifying a proposal *)

Definition HasBadProposal (hasBadBlock : option (hash -> bool)) (h : hash) : bool :=
  match hasBadBlock with None => false | Some f => f h end.

(** [Verify]: a duration in nanoseconds and an error.  A block from the future
    is retried after its time has come. *)
Definition Verify (hasBadBlock : option (hash -> bool)) (block : Block Tx) : M (Z * option engine_err) :=
  if HasBadProposal hasBadBlock (block_Hash block) then mret (0, Some ErrBlacklistedHash)
  else if negb (bool_decide (txs_DeriveSha (b_transactions block) = h_TxHash (block_Header block)))
  then mret (0, Some errMismatchTxhashes)
  else if negb (bool_decide (CalcUncleHash (b_uncles block) = nilUncleHash))
  then mret (0, Some errInvalidUncleHash)
  else fun s =>
    match VerifyHeader config chain now fresh (block_Header block) s with
    | (Ok _, s') | (Err errEmptyCommittedSeals, s') => (Ok (0, None), s')
    | (Err (errOther ErrFutureBlock), s') =>
        (Ok (i64 ((big_Int64 (default 0 (h_Time (block_Header block))) - now) * 1000000000),
             Some (errOther ErrFutureBlock)), s')
    | (Err e, s') => (Ok (0, Some e), s')
    | (Panic, s') => (Panic, s')
    end.

Definition CheckSignature (data : bytes) (addr : address) (sig : bytes) : outcome engine_err unit :=
  match GetSignatureAddress data sig with
  | Ok signer => if negb (bool_decide (signer = addr)) then Err errInvalidSignature else Ok tt
  | Err e => Err (errOther e)
  | Panic => Panic
  end.

(** ** Queries of the core *)

Definition HasPropsal (h : hash) (number : Z) : bool :=
  match GetHeader chain h (big_Uint64 number) with Some _ => true | None => false end.

(** The address of [Author] when it fails is the zero address. *)
Definition backend_GetProposer (number : Z) : M address :=
  match GetHeaderByNumber chain number with
  | Some h => catch (Author h) (fun _ => zero_address)
  | None => mret zero_address
  end.

Definition getValidators (number : Z) (h : hash) : M defaultSet :=
  catch (snap ← snapshot config chain now fresh number h []; mret (s_ValSet snap))
    (fun _ => newDefaultSet fresh [] (cfg_ProposerPolicy config)).

Definition Validators (proposal : Block Tx) : M defaultSet :=
  n ← lift (header_number (b_header proposal));
  getValidators n (block_Hash proposal).

Definition ParentValidators (proposal : Block Tx) : M defaultSet :=
  n ← lift (header_number (b_header proposal));
  getValidators (u64 (n - 1)) (h_ParentHash (b_header proposal)).

Definition LastProposal (currentBlock : Block Tx) : M (option (Block Tx) * address) :=
  n ← nonnil (h_Number (b_header currentBlock));
  if Cmp n 0 >? 0
  then catch (proposer ← Author (block_Header currentBlock); mret (Some currentBlock, proposer))
         (fun _ => (None, zero_address))
  else mret (Some currentBlock, zero_address).

(** ** Sealing *)

(** [crypto.Sign] with the key of the node is the parameter [sign]. *)
Definition Sign (sign : bytes -> outcome engine_err bytes) (data : bytes) : outcome engine_err bytes :=
  sign (Keccak256 data).

Definition updateBlock (sign : bytes -> outcome engine_err bytes) (block : Block Tx) : outcome engine_err (Block Tx) :=
  let header := block_Header block in
  let! seal := Sign sign (sigHash header) in
  let! header' := writeSeal header seal in
  Ok (WithSeal header' block).

(** The final loop of [Seal]: wait for our block or for the stop signal. *)
Fixpoint Seal_wait (block : Block Tx) (events : list (seal_event Tx)) : option (option (Block Tx)) :=
  match events with
  | [] => None
  | SealResult result :: rest =>
      if bool_decide (block_Hash block = block_Hash result) then Some (Some result) else Seal_wait block rest
  | SealStop :: _ => Some None
  end.

(** [Seal] up to the wait: the sealed block it posts to the core and waits for. *)
Definition Seal_prepare (sign : bytes -> outcome engine_err bytes) (self : address) (block : Block Tx) : M (Block Tx) :=
  let header := block_Header block in
  number ← lift (header_number header);
  snap ← snapshot config chain now fresh (u64 (number - 1)) (h_ParentHash header) [];
  match GetByAddress (s_ValSet snap) self with
  | (_, None) => throw errUnauthorized
  | (_, Some _) =>
      match GetHeader chain (h_ParentHash header) (u64 (number - 1)) with
      | None => throw ErrUnknownAncestor
      | Some _ => lift (updateBlock sign block)
      end
  end.

(** [Seal] from there on: while it waits, [proposedBlockHash] is set; the
    deferred function clears it. *)
Definition Seal_finish (block : Block Tx) (events : list (seal_event Tx)) (bs : bstate)
    : option (option (Block Tx) * bstate) :=
  result ← Seal_wait block events;
  Some (result, mkBstate (bs_coreStarted bs) zero_hash (bs_channel bs)).

(** ** Starting and stopping

    [coreStart] and [coreStop] are the results of the core's own functions. *)

Definition Start (coreStart : outcome engine_err unit) (bs : bstate) : outcome engine_err unit * bstate :=
  if bs_coreStarted bs then (Err ErrStartedEngine, bs)
  else
    let bs1 := mkBstate false zero_hash (bs_channel bs + 1) in
    match coreStart with
    | Ok _ => (Ok tt, mkBstate true (bs_proposedBlockHash bs1) (bs_channel bs1))
    | x => (x, bs1)
    end.

Definition Stop (coreStop : outcome engine_err unit) (bs : bstate) : outcome engine_err unit * bstate :=
  if negb (bs_coreStarted bs) then (Err ErrStoppedEngine, bs)
  else
    match coreStop with
    | Ok _ => (Ok tt, mkBstate false (bs_proposedBlockHash bs) (bs_channel bs))
    | x => (x, bs)
    end.

End Backend.

(** ** Gossip: [backend.go] and [handler.go] *)

(** The message caches: what each peer is known to have, and what we have.  The
    cache of a peer is a shared object: [g_recentMessages] holds its address in
    [g_heap]. *)
Record gossip_state (T : Type -> Type) := mkGossip {
  g_recentMessages : T nat;
  g_heap : list (T bool);
  g_knownMessages : T bool
}.
Arguments mkGossip {T}.
Arguments g_recentMessages {T}.
Arguments g_heap {T}.
Arguments g_knownMessages {T}.

Definition istanbulMsg : Z := 0x11.

Section Gossip.
Context `{Crypto} {T : Type -> Type} `{ARCCache T}.

(** [istanbul.RLPHash] of a payload. *)
Definition payload_hash (payload : bytes) : hash := rlpHash (VBytes payload).

(** One peer of the loop of [Gossip]: whether the payload is sent to it. *)
Definition gossip_peer (h : hash) (addr : address) (g : gossip_state T) : bool * gossip_state T :=
  let '(ms, recent) := arc_Get addr (g_recentMessages g) in
  match ms with
  | Some p =>
      let m := default arc_New (g_heap g !! p) in
      match arc_Get h m with
      | (Some _, m') => (false, mkGossip recent (<[p := m']> (g_heap g)) (g_knownMessages g))
      | (None, m') => (true, mkGossip (arc_Add addr p recent) (<[p := arc_Add h true m']> (g_heap g)) (g_knownMessages g))
      end
  | None =>
      (true, mkGossip (arc_Add addr (length (g_heap g)) recent) (g_heap g ++ [arc_Add h true arc_New]) (g_knownMessages g))
  end.

Fixpoint gossip_loop (h : hash) (peers : list address) (g : gossip_state T) : list address * gossip_state T :=
  match peers with
  | [] => ([], g)
  | addr :: rest =>
      let '(send, g1) := gossip_peer h addr g in
      let '(sent, g2) := gossip_loop h rest g1 in
      (if send then addr :: sent else sent, g2)
  end.

Definition gossip_targets (self : address) (valSet : defaultSet) : gset address :=
  list_to_set (filter (fun a => a <> self) (map v_address (validators valSet))).

(** [Gossip]: the addresses the payload is sent to.  [findPeers] gives the
    connected peers among the targets, in the order of the range loop; it is
    nil without a broadcaster. *)
Definition Gossip (self : address) (findPeers : option (gset address -> list address)) (valSet : defaultSet)
    (payload : bytes) (g : gossip_state T) : list address * gossip_state T :=
  let h := payload_hash payload in
  let g1 := mkGossip (g_recentMessages g) (g_heap g) (arc_Add h true (g_knownMessages g)) in
  let targets := gossip_targets self valSet in
  match findPeers with
  | Some find => if Nat.ltb 0 (size targets) then gossip_loop h (find targets) g1 else ([], g1)
  | None => ([], g1)
  end.

(** [Broadcast]: to the others, and to ourselves as an event. *)
Definition Broadcast (self : address) (findPeers : option (gset address -> list address)) (valSet : defaultSet)
    (payload : bytes) (g : gossip_state T) : list address * bytes * gossip_state T :=
  let '(sent, g1) := Gossip self findPeers valSet payload g in (sent, payload, g1).

(** [HandleMsg]: whether the message was ours to handle, the error, and the
    payload posted to the core. *)
Definition HandleMsg (coreStarted : bool) (addr : address) (code size : Z) (payload : bytes) (g : gossip_state T)
    : bool * option engine_err * option bytes * gossip_state T :=
  if code =? istanbulMsg then
    if negb coreStarted then (true, Some ErrStoppedEngine, None, g)
    else
      match (decodeByteSlice (NewStream payload size)).1 with
      | inl _ => (true, Some errDecodeFailed, None, g)
      | inr data =>
          let h := payload_hash data in
          let '(ms, recent) := arc_Get addr (g_recentMessages g) in
          let '(recent, heap) :=
            match ms with
            | Some p => (recent, alter (arc_Add h true) p (g_heap g))
            | None => (arc_Add addr (length (g_heap g)) recent, g_heap g ++ [arc_Add h true arc_New])
            end in
          match arc_Get h (g_knownMessages g) with
          | (Some _, known) => (true, None, None, mkGossip recent heap known)
          | (None, known) => (true, None, Some data, mkGossip recent heap (arc_Add h true known))
          end
      end
  else (false, None, None, g).

(** [NewChainHead]: whether the core is told. *)
Definition NewChainHead (coreStarted : bool) : outcome engine_err unit :=
  if negb coreStarted then Err ErrStoppedEngine else Ok tt.

End Gossip.
