(* ===== verification/EngineInv.v ===== *)
(** The canonical snapshot: [snapshot] of [backend/engine.go] finds the
    validators of a block in memory, on disk or by replaying headers.  The
    specification [canonical] replays all votes from the genesis block and
    knows no cache; the lemmas here show that whatever the caches hold,
    [snapshot] returns the canonical validators and votes.

    The caches of the engine are sound.

    [state_ok] says that every cached signer, every snapshot in memory and
    every snapshot on disk is the canonical one.  [sound m P] and
    [succeeds m P] are the partial and total correctness of a computation of
    the engine under that invariant; the operations of [Engine] are proved
    sound bottom-up, and [snapshot] also complete. *)
From S2P Require Import Prelude RlpEncode RlpDecode RlpTheorems IstanbulTypes ValidatorSet ValidatorProps RoundState IstanbulCore IstanbulHeader Storage Snapshot HeaderHash SnapshotProps Engine.

(** ** Specification *)

Section Canonical.
Context `{Crypto} (K : Header -> Prop) (genesis : Header) (epoch : Z).

Inductive canonical : hash -> Z -> ballot -> Prop :=
| canon_genesis x :
    ExtractIstanbulExtra genesis = Ok x ->
    canonical (header_Hash genesis) 0 (mkBallot (list_to_set (x_Validators x)) [])
| canon_step h n b b' :
    canonical (h_ParentHash h) n b -> K h -> header_number h = Ok (n + 1) ->
    ballot_header epoch b h = Ok b' ->
    canonical (header_Hash h) (n + 1) b'.

Lemma canonical_nonneg h n b : canonical h n b -> 0 <= n.
Proof. induction 1; lia. Qed.

Context (HK : collision_free K) (Hhash : forall h, K h -> hashable h) (Kg : K genesis).
Context (Hg0 : header_number genesis = Ok 0).

(** What a hash determines. *)
Lemma same_hash h1 h2 :
  K h1 -> K h2 -> header_Hash h1 = header_Hash h2 ->
  h_ParentHash h1 = h_ParentHash h2 /\ header_number h1 = header_number h2 /\
  forall b, ballot_header epoch b h1 = ballot_header epoch b h2.
Proof.
  intros K1 K2 E. pose proof (header_Hash_inj K h1 h2 HK K1 K2 (Hhash _ K1) (Hhash _ K2) E) as N.
  destruct (Hhash _ K1) as (O1 & F1 & _), (Hhash _ K2) as (O2 & F2 & _).
  assert (S : set_Extra [] h1 = set_Extra [] h2)
    by (by rewrite <- (normal_fields h1 O1 F1), <- (normal_fields h2 O2 F2), N).
  assert (R : recover_signer h1 = recover_signer h2)
    by (by rewrite <- (recover_signer_normal h1), N, recover_signer_normal).
  pose proof (f_equal h_ParentHash S) as E1. pose proof (f_equal h_Number S) as E2.
  pose proof (f_equal h_Coinbase S) as E3. pose proof (f_equal h_Nonce S) as E4. cbn in E1, E2, E3, E4.
  split; [done|]. unfold ballot_header, ballot_apply, header_number. rewrite E2, E3, E4, R. done.
Qed.

(** A block has one canonical ballot. *)
Lemma canonical_fun h n b : canonical h n b -> forall n' b', canonical h n' b' -> n' = n /\ b' = b.
Proof.
  induction 1 as [x Hx|h n b b1 Hc IH Kh Hn Hb]; intros n' b' Hc'.
  - inversion Hc' as [y Hy E|h' m c c' Hp Kh' Hn' Hb' E]; subst.
    + rewrite Hx in Hy. by injection Hy as ->.
    + destruct (same_hash _ _ Kh' Kg E) as (_ & En & _). rewrite Hn', Hg0 in En. injection En as En.
      pose proof (canonical_nonneg _ _ _ Hp). lia.
  - inversion Hc' as [y Hy E|h' m c c' Hp Kh' Hn' Hb' E]; subst.
    + destruct (same_hash _ _ Kg Kh E) as (_ & En & _). rewrite Hg0, Hn in En. injection En as En.
      pose proof (canonical_nonneg _ _ _ Hc). lia.
    + destruct (same_hash _ _ Kh' Kh E) as (Ep & _ & Eb). rewrite Ep in Hp.
      destruct (IH _ _ Hp) as [-> ->]. split; [done|]. rewrite Eb, Hb in Hb'. by injection Hb'.
Qed.

(** ** Paths of headers *)

Fixpoint path (from : hash) (l : list Header) (to : hash) : Prop :=
  match l with
  | [] => from = to
  | h :: l' => h_ParentHash h = from /\ path (header_Hash h) l' to
  end.

Lemma path_snoc l h from to : path from (l ++ [h]) to <-> path from l (h_ParentHash h) /\ header_Hash h = to.
Proof.
  revert from. induction l as [|x l IH]; intros from; simpl; [naive_solver|]. rewrite IH. naive_solver.
Qed.

Lemma path_last from l to : path from l to -> from_option header_Hash from (last l) = to.
Proof.
  destruct l as [|h l] using rev_ind; simpl; [done|]. rewrite path_snoc, last_snoc. by intros [_ ?].
Qed.

(** Consecutive numbers starting at [n]. *)
Fixpoint numbered (n : Z) (l : list Header) : Prop :=
  match l with [] => True | h :: l' => header_number h = Ok n /\ numbered (n + 1) l' end.

Lemma numbered_snoc l h n : numbered n (l ++ [h]) <-> numbered n l /\ header_number h = Ok (n + zlen l).
Proof.
  revert n. induction l as [|x l IH]; intros n; simpl; [rewrite zlen_nil, Z.add_0_r; tauto|].
  rewrite IH, zlen_cons. replace (n + 1 + zlen l) with (n + (1 + zlen l)) by lia. tauto.
Qed.

Context (Hmax : forall h n, K h -> header_number h = Ok n -> n < 2 ^ 63).

Lemma check_contiguous_cons h1 h2 rest :
  check_contiguous (h1 :: h2 :: rest) =
  let! n2 := header_number h2 in
  let! n1 := header_number h1 in
  if negb (n2 =? u64 (n1 + 1)) then Err errInvalidVotingChain else check_contiguous (h2 :: rest).
Proof. done. Qed.

Lemma check_contiguous_numbered h0 rest n :
  Forall K (h0 :: rest) -> 0 <= n -> header_number h0 = Ok n ->
  check_contiguous (h0 :: rest) = Ok tt -> numbered n (h0 :: rest).
Proof.
  revert h0 n. induction rest as [|h1 rest IH]; intros h0 n HKs Hn E C; [by split|].
  inversion_clear HKs as [|? ? K0 HKs']. pose proof (Hmax _ _ K0 E).
  rewrite check_contiguous_cons, E in C.
  destruct (header_number h1) as [n2|e|] eqn:E1; cbn [obind] in C; [|done..].
  destruct (negb (n2 =? u64 (n + 1))) eqn:B; [done|]. zbool. rewrite u64_id in B by (unfold is_u64; lia).
  split; [done|]. apply IH; [done|lia|by rewrite E1, B|exact C].
Qed.

Lemma numbered_contiguous h0 rest n :
  Forall K (h0 :: rest) -> 0 <= n -> numbered n (h0 :: rest) -> check_contiguous (h0 :: rest) = Ok tt.
Proof.
  revert h0 n. induction rest as [|h1 rest IH]; intros h0 n HKs Hn [E N]; [done|].
  inversion_clear HKs as [|? ? K0 HKs']. pose proof (Hmax _ _ K0 E). destruct N as [E1 N].
  rewrite check_contiguous_cons, E, E1. cbn [obind]. rewrite u64_id by (unfold is_u64; lia).
  rewrite Z.eqb_refl. cbn [negb]. by apply (IH h1 (n + 1)); [|lia|split].
Qed.

(** Replaying a path leads from a canonical ballot to a canonical ballot. *)
Lemma canonical_replay l : forall from to n b b',
  canonical from n b -> path from l to -> Forall K l -> numbered (n + 1) l ->
  ballot_headers epoch b l = Ok b' -> canonical to (n + zlen l) b'.
Proof.
  induction l as [|h l IH]; intros from to n b b' Hc Hp HKs Hn Hb; simpl in *.
  { rewrite zlen_nil, Z.add_0_r. by simplify_eq. }
  destruct Hp as [Ep Hp]. destruct Hn as [En Hn]. inversion_clear HKs as [|? ? Kh HKs'].
  destruct (ballot_header epoch b h) as [b1|e|] eqn:B; simpl in Hb; [|done..].
  rewrite zlen_cons. replace (n + (1 + zlen l)) with (n + 1 + zlen l) by lia.
  eapply IH; eauto. subst from. by econstructor.
Qed.

(** And backwards: the ancestors of a canonical block are canonical. *)
Lemma canonical_unwind l : forall from to n b,
  canonical to n b -> path from l to -> Forall K l -> Forall (fun h => header_number h <> Ok 0) l ->
  exists n0 b0, canonical from n0 b0 /\ n = n0 + zlen l /\ numbered (n0 + 1) l /\ ballot_headers epoch b0 l = Ok b.
Proof.
  induction l as [|h l IH] using rev_ind; intros from to n b Hc Hp HKs Hz.
  { simpl in Hp. subst to. exists n, b. rewrite zlen_nil, Z.add_0_r. done. }
  apply path_snoc in Hp as [Hp <-]. apply Forall_app in HKs as [HKs Kh].
  apply Forall_app in Hz as [Hz Hh]. rewrite Forall_singleton in Kh, Hh.
  inversion Hc as [y Hy E|h' m c c' Hp' Kh' Hn' Hb' E]; subst.
  - destruct (same_hash _ _ Kg Kh E) as (_ & En & _). by rewrite Hg0 in En.
  - destruct (same_hash _ _ Kh' Kh E) as (Ep & En & Eb). rewrite Ep in Hp'.
    destruct (IH _ _ _ _ Hp' Hp HKs Hz) as (n0 & b0 & Hc0 & -> & Hnum & Hb0).
    exists n0, b0. rewrite zlen_app. change (zlen [h]) with 1. split; [done|]. split; [lia|]. split.
    + rewrite numbered_snoc. split; [done|]. rewrite <- En, Hn'. f_equal. lia.
    + clear -Hb0 Eb Hb'. revert b0 Hb0. induction l as [|x l IHl]; intros b0 Hb0; simpl in *.
      * simplify_eq. by rewrite <- Eb, Hb'.
      * destruct (ballot_header epoch b0 x) as [b1|e|]; simpl in *; [|done..]. by apply IHl.
Qed.

End Canonical.

Section Inv.
Context `{Crypto} `{SnapshotCodecLaws} {T : Type -> Type} `{ARCLaws T} {DB : Type} `{DatabaseLaws DB}.
Context (config : Config) (chain : ChainReader) (K : Header -> Prop) (genesis : Header).

(** What the engine relies on: the chain answers with the headers that were
    asked for, all headers in play are well formed with distinct hashes, and
    the headers of number one follow the genesis block. *)
Record world_ok : Prop := {
  w_free : collision_free K;
  w_hash h : K h -> hashable h;
  w_genesis : GetHeaderByNumber chain 0 = Some genesis;
  w_genesis_K : K genesis;
  w_genesis_0 : header_number genesis = Ok 0;
  w_genesis_dup x : ExtractIstanbulExtra genesis = Ok x -> NoDup (x_Validators x);
  w_get h n hd : GetHeader chain h n = Some hd -> K hd /\ header_Hash hd = h /\ header_number hd = Ok n;
  w_first hd : K hd -> header_number hd = Ok 1 -> h_ParentHash hd = header_Hash genesis;
  w_max h n : K h -> header_number h = Ok n -> n < 2 ^ 63
}.

Abbreviation canon := (canonical K genesis (cfg_Epoch config)).

(** A snapshot that is the canonical one of its block. *)
Definition snap_canon (s : Snapshot) : Prop :=
  snap_ok s /\ s_Epoch s = cfg_Epoch config /\ policy (s_ValSet s) = cfg_ProposerPolicy config /\
  canon (s_Hash s) (s_Number s) (abs s).

Definition with_Epoch (e : Z) (s : Snapshot) : Snapshot :=
  mkSnapshot e (s_Number s) (s_Hash s) (s_Votes s) (s_Tally s) (s_ValSet s).

Definition db_ok (d : DB) : Prop :=
  forall h blob j fresh, db_Get (dbKeySnapshotPrefix ++ h) d = Some blob -> json_Unmarshal blob = Some j ->
    let s := with_Epoch (cfg_Epoch config) (fromJSONStruct fresh j) in s_Hash s = h /\ snap_canon s.

Definition state_ok (st : estate T DB) : Prop :=
  signers_ok K (e_addresses st) /\
  (forall k s, arc_has (e_recents st) k s -> s_Hash s = k /\ snap_canon s) /\
  db_ok (e_db st).

(** ** Program logic *)

Abbreviation M := (EM (estate T DB)).

Definition sound {A} (m : M A) (P : A -> Prop) : Prop :=
  forall st, state_ok st -> state_ok (m st).2 /\ forall a, (m st).1 = Ok a -> P a.

Definition succeeds {A} (m : M A) (P : A -> Prop) : Prop :=
  forall st, state_ok st -> exists a st', m st = (Ok a, st') /\ state_ok st' /\ P a.

Lemma sound_ret {A} (a : A) (P : A -> Prop) : P a -> sound (mret a) P.
Proof. intros Ha st Hst. split; [done|]. by intros ? [= <-]. Qed.

Lemma sound_lift {A} (x : outcome engine_err A) (P : A -> Prop) : (forall a, x = Ok a -> P a) -> sound (lift x) P.
Proof. intros Hx st Hst. by split. Qed.

Lemma sound_throw {A} e (P : A -> Prop) : sound (throw e) P.
Proof. by apply sound_lift. Qed.

Lemma sound_bind {A B} (m : M A) (f : A -> M B) (P : A -> Prop) (Q : B -> Prop) :
  sound m P -> (forall a, P a -> sound (f a) Q) -> sound (m ≫= f) Q.
Proof.
  intros Hm Hf st Hst. destruct (Hm st Hst) as [S1 R1]. unfold mbind, EM_bind.
  destruct (m st) as [[a|e|] st1]; simpl in *; [|by split..]. by apply (Hf a (R1 a eq_refl)).
Qed.

Lemma sound_mono {A} (m : M A) (P Q : A -> Prop) : sound m P -> (forall a, P a -> Q a) -> sound m Q.
Proof. intros Hm HPQ st Hst. destruct (Hm st Hst). split; [done|]. eauto. Qed.

Lemma sound_catch {A} (m : M A) f (P : A -> Prop) : sound m P -> (forall e, P (f e)) -> sound (catch m f) P.
Proof.
  intros Hm Hf st Hst. destruct (Hm st Hst) as [S1 R1]. unfold catch.
  destruct (m st) as [[a|e|] st1]; simpl in *; (split; [done|]); [done|by intros ? [= <-]|done].
Qed.

Lemma sound_nonnil {A} (x : option A) (P : A -> Prop) : (forall a, x = Some a -> P a) -> sound (nonnil x) P.
Proof. intros Hx. unfold nonnil. destruct x as [a|]; [by apply sound_ret, Hx|]. by apply sound_lift. Qed.

Lemma succeeds_ret {A} (a : A) (P : A -> Prop) : P a -> succeeds (mret a) P.
Proof. intros Ha st Hst. by exists a, st. Qed.

Lemma succeeds_bind {A B} (m : M A) (f : A -> M B) (P : A -> Prop) (Q : B -> Prop) :
  succeeds m P -> (forall a, P a -> succeeds (f a) Q) -> succeeds (m ≫= f) Q.
Proof.
  intros Hm Hf st Hst. destruct (Hm st Hst) as (a & st1 & E & S1 & Pa). unfold mbind, EM_bind. rewrite E.
  by apply (Hf a Pa).
Qed.

(** A sound computation that returns. *)
Lemma sound_succeeds {A} (m : M A) (P : A -> Prop) :
  sound m P -> (forall st, state_ok st -> exists a, (m st).1 = Ok a) -> succeeds m P.
Proof.
  intros Hm Hr st Hst. destruct (Hm st Hst) as [S1 R1]. destruct (Hr st Hst) as [a Ea].
  exists a, (m st).2. split; [|auto]. rewrite <- Ea. by destruct (m st).
Qed.

(** ** Caches and database *)

Context (W : world_ok).

Lemma on_addresses_sound {A} (m : EM (T address) A) (P : A -> Prop) :
  (forall c, signers_ok K c -> signers_ok K (m c).2 /\ forall a, (m c).1 = Ok a -> P a) ->
  sound (on_addresses m) P.
Proof.
  intros Hm st (Hc & Hr & Hd). unfold on_addresses. destruct (Hm _ Hc) as [Hc' HP].
  destruct (m (e_addresses st)) as [r c]. simpl in *. done.
Qed.

Lemma Author_sound h : K h -> sound (Author h) (fun a => recover_signer h = Ok a).
Proof.
  intros Kh. apply on_addresses_sound. intros c Hc.
  destruct (ecrecover_ok K (w_free W) (w_hash W) h c Kh Hc) as (c' & -> & Hc'). done.
Qed.

Lemma recents_Get_succeeds h :
  succeeds (recents_Get h) (fun o => forall s, o = Some s -> s_Hash s = h /\ snap_canon s).
Proof.
  intros st (Hc & Hr & Hd). unfold recents_Get. destruct (arc_Get h (e_recents st)) as [o c] eqn:G.
  eexists o, _. split; [done|]. split.
  - split; [done|]. split; [|done]. intros k s Hs. apply Hr. by eapply arc_has_Get.
  - intros s ->. apply Hr. by eapply arc_Get_has.
Qed.

Lemma recents_Add_sound s : snap_canon s -> sound (recents_Add (s_Hash s) s) (fun _ => True).
Proof.
  intros Hs st (Hc & Hr & Hd). split; [|done]. split; [done|]. split; [|done]. simpl.
  intros k s' [[-> ->]|Hs']%arc_has_Add; auto.
Qed.

Lemma store_sound s : snap_canon s -> sound (on_db (store s)) (fun _ => True).
Proof.
  intros Hs st (Hc & Hr & Hd). split; [|done]. split; [|split].
  1, 2: unfold on_db; by destruct (store s (e_db st)).
  unfold on_db, store, MarshalJSON. destruct (json_Marshal (toJSONStruct s)) as [b|] eqn:J; [|done].
  destruct (db_Put _ b _) as [d'|] eqn:P; [|done]. simpl. intros h blob j fresh G U.
  destruct (db_Get_Put _ _ _ _ _ _ P G) as [[E ->]|[_ G']]; [|by apply (Hd h blob j fresh)].
  apply app_inv_head in E as ->. rewrite (json_roundtrip _ _ J) in U. injection U as <-.
  destruct Hs as (Hok & EE & EP & Hcan).
  destruct (json_snapshot_ok fresh s Hok) as (Hok' & EA & (_ & EN & EH) & EP').
  split; [done|]. split; [done|]. split; [done|]. split; [by rewrite <- EP|].
  change (abs (with_Epoch _ ?x)) with (abs x). rewrite EA. exact Hcan.
Qed.

Lemma try_load_succeeds fresh h :
  succeeds (try_load config fresh h) (fun o => forall s, o = Some s -> s_Hash s = h /\ snap_canon s).
Proof.
  intros st Hst. unfold try_load, catch, mbind, EM_bind, on_db, loadSnapshot, UnmarshalJSON.
  assert (E : mkEstate (e_addresses st) (e_recents st) (e_db st) = st) by (by destruct st).
  destruct (db_Get _ (e_db st)) as [blob|] eqn:G; simpl; [|exists None, st; by rewrite E].
  destruct (json_Unmarshal blob) as [j|] eqn:U; simpl; [|exists None, st; by rewrite E].
  eexists (Some _), st. split; [by rewrite E|]. split; [done|]. intros s [= <-].
  destruct Hst as (_ & _ & Hd). exact (Hd h blob j fresh G U).
Qed.

(** ** The search of [snapshot] *)

Lemma canon_lt h n b : canon h n b -> n < 2 ^ 63.
Proof. intros Hc. destruct Hc as [|h n b b' _ Kh Hn _]; [lia|]. by apply (w_max W h). Qed.

Lemma chain_replay l from to n b b' :
  l <> [] -> canon from n b -> path from l to -> Forall K l ->
  ballot_chain (cfg_Epoch config) n b l = Ok b' -> canon to (n + zlen l) b'.
Proof.
  intros Hl Hc Hp HKs B. destruct l as [|h0 rest]; [done|]. unfold ballot_chain in B.
  destruct (check_contiguous (h0 :: rest)) as [[]|e|] eqn:C; cbn [obind] in B; [|done..].
  destruct (header_number h0) as [n0|e|] eqn:N0; cbn [obind] in B; [|done..].
  destruct (negb (n0 =? u64 (n + 1))) eqn:Q; [done|]. zbool.
  pose proof (canonical_nonneg _ _ _ _ _ _ Hc). pose proof (canon_lt _ _ _ Hc).
  rewrite u64_id in Q by (unfold is_u64; lia). subst n0.
  eapply canonical_replay; eauto. eapply check_contiguous_numbered; eauto; [apply (w_max W)|lia].
Qed.

Lemma chain_complete l from to n b n0 b0 :
  canon to n b -> canon from n0 b0 -> path from l to -> Forall K l ->
  Forall (fun h => header_number h <> Ok 0) l ->
  ballot_chain (cfg_Epoch config) n0 b0 l = Ok b.
Proof.
  intros Hc Hc0 Hp HKs Hz.
  destruct (canonical_unwind K genesis (cfg_Epoch config) (w_free W) (w_hash W) (w_genesis_K W) (w_genesis_0 W) l from to n b)
    as (n1 & b1 & Hc1 & -> & Hn & Hb); auto.
  destruct (canonical_fun K genesis (cfg_Epoch config) (w_free W) (w_hash W) (w_genesis_K W) (w_genesis_0 W) _ _ _ Hc0 _ _ Hc1) as [-> ->].
  destruct l as [|h0 rest]; [done|]. unfold ballot_chain.
  pose proof (canonical_nonneg _ _ _ _ _ _ Hc0). pose proof (canon_lt _ _ _ Hc0).
  rewrite (numbered_contiguous K (w_max W) h0 rest (n0 + 1) HKs) by (auto; lia). cbn [obind].
  destruct Hn as [-> _]. cbn [obind]. rewrite u64_id, Z.eqb_refl by (unfold is_u64; lia). exact Hb.
Qed.

(** The header gathered at ([number], [h]). *)
Definition gathered (number : Z) (h : hash) (r : Header * list Header) : Prop :=
  K r.1 /\ header_Hash r.1 = h /\ header_number r.1 = Ok number /\ Forall K r.2.

Lemma gather_header_sound number h parents :
  Forall K parents -> sound (gather_header chain number h parents) (gathered number h).
Proof.
  intros HKs. unfold gather_header. destruct (last parents) as [hd|] eqn:L.
  - assert (Hl : exists l, parents = l ++ [hd]) by (by apply last_Some). destruct Hl as [l ->].
    apply Forall_app in HKs as [HKs Kh]. rewrite Forall_singleton in Kh.
    case_bool_decide as E.
    + eapply sound_bind; [apply (sound_lift _ (fun n => header_number hd = Ok n)); auto|]. intros n Hn.
      zcase; [apply sound_throw|]. apply sound_ret. rewrite removelast_last. subst. by split.
    + eapply (sound_bind _ _ (fun _ => False)); [apply sound_throw|done].
  - destruct (GetHeader chain h number) as [hd|] eqn:G; [|apply sound_throw]. apply sound_ret.
    destruct (w_get W _ _ _ G) as (? & ? & ?). by split.
Qed.

Section Verify.
Context (now fresh : Z) (snap_fn : Z -> hash -> list Header -> M Snapshot).

Definition genesis_ballot (s : Snapshot) : Prop := s_Hash s = header_Hash genesis /\ snap_canon s.

(** Number zero needs no snapshot, so the argument [snap_fn] is not called. *)
Lemma genesis_verify :
  verifyHeader_with config chain now fresh snap_fn genesis [] =
  verifyHeader_with config chain now fresh (fun _ _ _ => lift Panic) genesis [].
Proof.
  unfold verifyHeader_with, verifyCascadingFields. destruct (h_Number genesis) as [n|] eqn:N; [|done].
  rewrite (w_genesis_0 W). done.
Qed.

Lemma genesis_verify_sound : sound (verifyHeader_with config chain now fresh snap_fn genesis []) (fun _ => True).
Proof.
  unfold verifyHeader_with, verifyCascadingFields. destruct (h_Number genesis) as [n|]; [|apply sound_throw].
  eapply sound_bind; [by apply (sound_nonnil _ (fun _ => True))|]. intros t _.
  zcase; [apply sound_throw|]. destruct (ExtractIstanbulExtra genesis); [|apply sound_throw|by apply sound_lift].
  repeat (zcase; [apply sound_throw|]). rewrite (w_genesis_0 W). apply sound_ret. done.
Qed.

Lemma genesis_snapshot_sound : sound (genesis_snapshot config chain now fresh snap_fn) genesis_ballot.
Proof.
  unfold genesis_snapshot. eapply sound_bind; [apply (sound_nonnil _ (eq genesis)); rewrite (w_genesis W); congruence|].
  intros ? <-. eapply sound_bind; [apply genesis_verify_sound|]. intros _ _.
  eapply sound_bind; [apply (sound_lift _ (fun x => ExtractIstanbulExtra genesis = Ok x)); auto|]. intros x Hx.
  assert (Hg : genesis_ballot (newSnapshot (cfg_Epoch config) 0 (header_Hash genesis)
                 (newDefaultSet fresh (x_Validators x) (cfg_ProposerPolicy config)))).
  { destruct (w_hash W _ (w_genesis_K W)) as (_ & Hf & _). destruct (Extract_sound _ _ Hf Hx) as ((Ha & _ & _) & _ & _).
    destruct (newDefaultSet_ok fresh (x_Validators x) (cfg_ProposerPolicy config)) as [Hs EM];
      [by apply (w_genesis_dup W)|done|].
    split; [done|]. split; [by apply newSnapshot_ok|]. split; [done|].
    split; [cbn; unfold newDefaultSet; by zcase|]. unfold abs. cbn. rewrite EM. by constructor. }
  eapply sound_bind; [apply store_sound, Hg|]. intros _ _. by apply sound_ret.
Qed.

(** The result of the search: a canonical snapshot, and the headers from there
    to the block that was asked for. *)
Definition found (h : hash) (headers : list Header) (r : Snapshot * list Header) : Prop :=
  snap_canon r.1 /\
  exists more, r.2 = headers ++ more /\ path (s_Hash r.1) (rev more) h /\ Forall K more /\
    Forall (fun hd => header_number hd <> Ok 0) more.

Lemma found_here h headers s : s_Hash s = h -> snap_canon s -> found h headers (s, headers).
Proof. intros E Hs. split; [done|]. exists []. rewrite app_nil_r. repeat split; try done; constructor. Qed.

Lemma found_later h headers hd r :
  header_Hash hd = h -> K hd -> header_number hd <> Ok 0 ->
  found (h_ParentHash hd) (headers ++ [hd]) r -> found h headers r.
Proof.
  intros Eh Kh Hz (Hs & more & Er & Hp & HKs & Hzs). split; [done|]. exists (hd :: more).
  rewrite Er, <- app_assoc. split; [done|]. split; [simpl; by apply path_snoc|]. by split; constructor.
Qed.

Definition zero_is_genesis (number : Z) (h : hash) : Prop := number = 0 -> h = header_Hash genesis.

Lemma snapshot_loop_sound fuel : forall number h parents headers,
  is_u64 number -> zero_is_genesis number h -> Forall K parents ->
  sound (snapshot_loop config chain now fresh snap_fn fuel number h parents headers) (found h headers).
Proof.
  induction fuel as [|fuel IH]; intros number h parents headers Hn Hz HKs; simpl; [by apply sound_lift|].
  eapply sound_bind; [intros st Hst; destruct (recents_Get_succeeds h st Hst) as (o & st' & -> & S & R);
    split; [done|]; intros ? [= <-]; exact R|]. intros [s|] Hs.
  { apply sound_ret. destruct (Hs s eq_refl). by apply found_here. }
  clear Hs. eapply (sound_bind _ _ (fun o => forall s, o = Some s -> s_Hash s = h /\ snap_canon s)).
  { zcase; [|by apply sound_ret]. intros st Hst.
    destruct (try_load_succeeds fresh h st Hst) as (o & st' & -> & S & R). split; [done|]. by intros ? [= <-]. }
  intros [s|] Hs. { apply sound_ret. destruct (Hs s eq_refl). by apply found_here. }
  clear Hs. zcase.
  - eapply sound_bind; [apply genesis_snapshot_sound|]. intros s [E Hs]. apply sound_ret.
    apply found_here; [|done]. by rewrite E, (Hz Heqb).
  - eapply sound_bind; [by apply gather_header_sound|]. intros [hd parents'] (Kh & Eh & En & HKs'). simpl in *.
    assert (Eu : u64 (number - 1) = number - 1) by (apply u64_id; unfold is_u64 in *; lia).
    eapply sound_mono; [apply IH; [apply u64_range| |done]|].
    + rewrite Eu. intros E0. apply (w_first W); [done|]. rewrite En. f_equal. lia.
    + intros r. apply found_later; auto. rewrite En. congruence.
Qed.

(** The end of [snapshot]: replay the headers that were gathered. *)
Lemma snapshot_finish_sound h snap headers :
  found h [] (snap, headers) ->
  sound (snapshot_finish fresh snap headers) (fun s => snap_canon s /\ s_Hash s = h).
Proof.
  intros (Hs & more & E & Hp & HKs & Hz). simpl in *. subst headers. unfold snapshot_finish.
  pose proof Hs as (Hok & EE & EP & Hcan).
  eapply (sound_bind _ _ (fun s => snap_canon s /\ s_Hash s = h)).
  - apply on_addresses_sound. intros c Hc. destruct (decide (rev more = [])) as [R|R].
    { rewrite R in Hp |- *. cbn in Hp. split; [done|]. by intros s' [= <-]. }
    assert (HKr : Forall K (rev more)) by (by apply Forall_rev).
    destruct (apply_ok K (w_free W) (w_hash W) fresh snap (rev more) c HKr Hc Hok) as (r & c' & -> & Hc' & B & A).
    split; [done|]. simpl. intros s' ->. simpl in B. destruct (A s' eq_refl) as (Hok' & EE' & EP' & EN & EH).
    rewrite (path_last _ _ _ Hp) in EH. split; [|done]. split; [done|]. split; [congruence|]. split; [congruence|].
    rewrite EE in B. symmetry in B. pose proof (chain_replay _ _ _ _ _ _ R Hcan Hp HKr B) as Hc2.
    rewrite EN, EH, u64_id by (auto; pose proof (canon_lt _ _ _ Hc2); pose proof (canonical_nonneg _ _ _ _ _ _ Hc2);
      unfold is_u64; lia). exact Hc2.
  - intros s [Hs' <-]. eapply sound_bind; [by apply recents_Add_sound|]. intros _ _.
    eapply (sound_bind _ _ (fun _ => True)); [|by intros _ _; apply sound_ret].
    zcase; [by apply store_sound|by apply sound_ret].
Qed.

Lemma snapshot_with_sound number h parents :
  is_u64 number -> zero_is_genesis number h -> Forall K parents ->
  sound (snapshot_with config chain now fresh snap_fn number h parents) (fun s => snap_canon s /\ s_Hash s = h).
Proof.
  intros Hn Hz HKs. unfold snapshot_with. eapply sound_bind; [by apply snapshot_loop_sound|].
  intros [snap headers]. apply snapshot_finish_sound.
Qed.

(** *** Completeness: every canonical block has a snapshot *)

Context (Hfull : forall h n b, canon h n b -> n <> 0 -> exists hd, GetHeader chain h n = Some hd).
Context (Hstore : forall s (d : DB), (store s d).1 = Ok tt).
Context (Hgenesis : forall st, (verifyHeader_with config chain now fresh snap_fn genesis [] st).1 = Ok tt).

Lemma on_db_store s (st : estate T DB) : exists d, on_db (store s) st = (Ok tt, mkEstate (e_addresses st) (e_recents st) d).
Proof.
  unfold on_db. pose proof (Hstore s (e_db st)) as E. destruct (store s (e_db st)) as [r d]. simpl in E.
  subst r. by exists d.
Qed.

Lemma genesis_snapshot_succeeds b :
  canon (header_Hash genesis) 0 b -> succeeds (genesis_snapshot config chain now fresh snap_fn) genesis_ballot.
Proof.
  intros Hc. apply sound_succeeds; [apply genesis_snapshot_sound|]. intros st Hst.
  assert (Hx : exists x, ExtractIstanbulExtra genesis = Ok x).
  { inversion Hc as [x Hx|h n b0 b1 Hp Kh Hh Hb E1 En]; [eauto|]. pose proof (canonical_nonneg _ _ _ _ _ _ Hp). lia. }
  destruct Hx as [x Hx]. unfold genesis_snapshot. rewrite (w_genesis W).
  unfold mbind, EM_bind, nonnil, mret, EM_ret. pose proof (Hgenesis st) as V.
  destruct (verifyHeader_with config chain now fresh snap_fn genesis [] st) as [r st1]. simpl in V. subst r.
  unfold lift. rewrite Hx. destruct (on_db_store (newSnapshot (cfg_Epoch config) 0 (header_Hash genesis)
    (newDefaultSet fresh (x_Validators x) (cfg_ProposerPolicy config))) st1) as [d ->]. eauto.
Qed.

Lemma canon_parent h n b hd :
  canon h n b -> n <> 0 -> K hd -> header_Hash hd = h -> exists b', canon (h_ParentHash hd) (n - 1) b'.
Proof.
  intros Hc Hn Kh Eh. inversion Hc as [x Hx|h' m c c' Hp Kh' Hm Hb E]; [done|]. subst.
  destruct (same_hash K 0 (w_free W) (w_hash W) _ _ Kh' Kh) as (<- & _); [done|].
  exists c. by replace (m + 1 - 1) with m by lia.
Qed.

Lemma snapshot_loop_succeeds fuel : forall n h b headers,
  canon h n b -> (Z.to_nat n < fuel)%nat ->
  succeeds (snapshot_loop config chain now fresh snap_fn fuel n h [] headers) (found h headers).
Proof.
  induction fuel as [|fuel IH]; intros n h b headers Hc Hf; [lia|]. simpl.
  pose proof (canonical_nonneg _ _ _ _ _ _ Hc) as Hn0. pose proof (canon_lt _ _ _ Hc) as Hn1.
  eapply succeeds_bind; [apply recents_Get_succeeds|]. intros [s|] Hs.
  { apply succeeds_ret. destruct (Hs s eq_refl). by apply found_here. }
  clear Hs. eapply (succeeds_bind _ _ (fun o => forall s, o = Some s -> s_Hash s = h /\ snap_canon s)).
  { zcase; [apply try_load_succeeds|by apply succeeds_ret]. }
  intros [s|] Hs. { apply succeeds_ret. destruct (Hs s eq_refl). by apply found_here. }
  clear Hs. zcase.
  - subst n. assert (Eh : h = header_Hash genesis).
    { inversion Hc as [x Hx|h' m c c' Hp Kh Hh Hb E1 En]; [done|]. pose proof (canonical_nonneg _ _ _ _ _ _ Hp). lia. }
    subst h. eapply succeeds_bind; [by eapply genesis_snapshot_succeeds|]. intros s [E Hs]. apply succeeds_ret.
    by apply found_here.
  - destruct (Hfull h n b Hc Heqb0) as [hd G]. destruct (w_get W _ _ _ G) as (Kh & Eh & En).
    unfold gather_header. simpl. rewrite G. destruct (canon_parent h n b hd Hc Heqb0 Kh Eh) as [b' Hc'].
    eapply (succeeds_bind _ _ (eq (hd, []))); [by apply succeeds_ret|]. intros ? <-.
    rewrite u64_id by (unfold is_u64; lia).
    intros st Hst. destruct (IH (n - 1) (h_ParentHash hd) b' (headers ++ [hd]) Hc' ltac:(lia) st Hst) as (r & st' & -> & S & F).
    exists r, st'. split; [done|]. split; [done|]. apply (found_later h headers hd); auto. rewrite En. congruence.
Qed.

Lemma snapshot_finish_succeeds h n b snap headers :
  canon h n b -> found h [] (snap, headers) ->
  succeeds (snapshot_finish fresh snap headers) (fun s => snap_canon s /\ s_Hash s = h).
Proof.
  intros Hc Hf. apply sound_succeeds; [by apply snapshot_finish_sound|]. intros st (Hsig & _ & _).
  destruct Hf as ((Hok & EE & EP & Hcan) & more & E & Hp & HKs & Hz). simpl in *. subst headers.
  assert (HKr : Forall K (rev more)) by (by apply Forall_rev).
  destruct (apply_ok K (w_free W) (w_hash W) fresh snap (rev more) _ HKr Hsig Hok) as (r & c' & A & _ & B & _).
  rewrite EE, (chain_complete (rev more) _ h n b _ _ Hc Hcan Hp HKr) in B by (by apply Forall_rev).
  destruct r as [s'|e|]; [|done..]. unfold snapshot_finish, mbind, EM_bind, on_addresses. rewrite A.
  unfold recents_Add. zcase; [|by eexists].
  match goal with |- context [on_db (store s') ?st1] => destruct (on_db_store s' st1) as [d ->] end. by eexists.
Qed.

Lemma snapshot_with_succeeds h n b :
  canon h n b ->
  succeeds (snapshot_with config chain now fresh snap_fn n h [])
    (fun s => snap_canon s /\ s_Hash s = h /\ s_Number s = n /\ abs s = b).
Proof.
  intros Hc. unfold snapshot_with.
  eapply succeeds_bind; [eapply snapshot_loop_succeeds; [done|lia]|]. intros [snap headers] Hf.
  intros st Hst. destruct (snapshot_finish_succeeds h n b snap headers Hc Hf st Hst) as (s & st' & -> & S & Hs & E).
  exists s, st'. split; [done|]. split; [done|]. split; [done|]. split; [done|].
  destruct Hs as (_ & _ & _ & Hcs). rewrite E in Hcs.
  by destruct (canonical_fun K genesis (cfg_Epoch config) (w_free W) (w_hash W) (w_genesis_K W) (w_genesis_0 W) _ _ _ Hc _ _ Hcs).
Qed.

End Verify.

End Inv.
