(* ===== verification/EngineTheorems.v ===== *)
(** What an accepted block proves, and what a commit produces: theorems about
    [verifyHeader], [snapshot] and [Commit]. *)
From S2P Require Import Prelude RlpEncode RlpDecode RlpTheorems IstanbulTypes ValidatorSet ValidatorProps RoundState IstanbulCore IstanbulHeader Storage Snapshot HeaderHash SnapshotProps Engine BackendOps EngineInv.

(** ** Committed seals *)

Section Seals.
Context `{Crypto}.

(** [seal] is a signature of [a] on [data]. *)
Definition signed_by (data : bytes) (seal : bytes) (a : address) : Prop :=
  recover_address (Keccak256 data) seal = Some a.

(** A list of seals is a certificate: all are signatures on [data] of different
    members of [M], and they are more than [2F] (and not none, also for an
    empty set, whose [F] is -1). *)
Definition certificate (M : gset address) (data : bytes) (seals : list bytes) : Prop :=
  exists addrs, Forall2 (signed_by data) seals addrs /\ NoDup addrs /\ (forall a, a ∈ addrs -> a ∈ M) /\
    2 * ((Z.of_nat (size M) + 2) / 3 - 1) < zlen seals /\ seals <> [].

Lemma check_seals_sound data seals : forall vals n k,
  set_ok vals -> check_seals data vals seals n = Ok k ->
  k = n + zlen seals /\
  exists addrs, Forall2 (signed_by data) seals addrs /\ NoDup addrs /\ forall a, a ∈ addrs -> a ∈ members vals.
Proof.
  induction seals as [|seal seals IH]; intros vals n k Hv C; simpl in C.
  { injection C as <-. rewrite zlen_nil. split; [lia|]. exists []. split; [done|]. split; [constructor|].
    intros a Ha. by apply elem_of_nil in Ha. }
  unfold GetSignatureAddress in C. destruct (recover_address (Keccak256 data) seal) as [a|] eqn:R; [|done].
  destruct (RemoveValidator a vals) as [ok vals'] eqn:V. destruct (RemoveValidator_ok _ _ _ _ Hv V) as (Hv' & EM & Eb).
  destruct ok; [|done]. symmetry in Eb. apply bool_decide_eq_true in Eb.
  destruct (IH vals' (n + 1) k Hv' C) as (-> & addrs & HF & Hn & Hin). split; [rewrite zlen_cons; lia|].
  exists (a :: addrs). split; [by constructor|]. split.
  - constructor; [|done]. intros Ha%Hin. rewrite EM in Ha. set_solver.
  - intros x [->|Hx%Hin]%elem_of_cons; [done|]. rewrite EM in Hx. set_solver.
Qed.

Lemma check_seals_complete data seals addrs : Forall2 (signed_by data) seals addrs ->
  forall vals n, set_ok vals -> NoDup addrs -> (forall a, a ∈ addrs -> a ∈ members vals) ->
  check_seals data vals seals n = Ok (n + zlen seals).
Proof.
  induction 1 as [|seal a seals addrs Hs HF IH]; intros vals n Hv Hn Hin; simpl.
  { rewrite zlen_nil. f_equal. lia. }
  unfold GetSignatureAddress. rewrite Hs. inversion_clear Hn as [|? ? Ha Hn'].
  destruct (RemoveValidator a vals) as [ok vals'] eqn:V. destruct (RemoveValidator_ok _ _ _ _ Hv V) as (Hv' & EM & ->).
  rewrite bool_decide_true by (apply Hin; left). rewrite IH; [f_equal; rewrite zlen_cons; lia|done|done|].
  intros x Hx. rewrite EM. apply elem_of_difference. split; [by apply Hin; right|].
  intros ->%elem_of_singleton. done.
Qed.

Lemma F_size vs : set_ok vs -> F vs = (Z.of_nat (size (members vs)) + 2) / 3 - 1.
Proof. intros Hs. unfold F. by rewrite size_members. Qed.

(** The check of a list of seals against a validator set. *)
Lemma seals_certificate fresh vs data seals :
  set_ok vs ->
  (exists k, check_seals data (set_Copy fresh vs) seals 0 = Ok k /\ 2 * F vs < k /\ seals <> []) <->
  certificate (members vs) data seals.
Proof.
  intros Hs. destruct (set_Copy_ok fresh vs Hs) as [Hc EM]. unfold certificate. rewrite <- F_size by done. split.
  - intros (k & C & Hk & Hne). destruct (check_seals_sound _ _ _ _ _ Hc C) as (-> & addrs & HF & Hn & Hin).
    rewrite EM in Hin. exists addrs. split_and!; auto.
  - intros (addrs & HF & Hn & Hin & Hk & Hne). exists (zlen seals). rewrite <- EM in Hin.
    rewrite (check_seals_complete data seals addrs HF _ 0 Hc Hn Hin). by rewrite Z.add_0_l.
Qed.

Section Verifier.
Context {T : Type -> Type} {DB : Type}.
Context (fresh : Z) (snap_fn : Z -> hash -> list Header -> EM (estate T DB) Snapshot).

(** [verifyCommittedSeals] accepts a header exactly when its seals are a
    certificate of the parent's validators. *)
Lemma verifyCommittedSeals_spec header parents n s st st' :
  header_number header = Ok n -> n <> 0 -> set_ok (s_ValSet s) ->
  snap_fn (u64 (n - 1)) (h_ParentHash header) parents st = (Ok s, st') ->
  (verifyCommittedSeals fresh snap_fn header parents st).1 = Ok tt <->
  exists x, ExtractIstanbulExtra header = Ok x /\
    certificate (members (s_ValSet s)) (PrepareCommittedSeal (header_Hash header)) (x_CommittedSeal x).
Proof.
  intros Hn Hz Hs Hsnap. unfold verifyCommittedSeals, mbind, EM_bind, lift. rewrite Hn.
  rewrite (proj2 (Z.eqb_neq n 0)), Hsnap by done.
  destruct (ExtractIstanbulExtra header) as [x|e|]; [|split; [done|by intros (? & ? & _)]..].
  set (data := PrepareCommittedSeal (header_Hash header)).
  assert (L : (exists y, Ok (E := engine_err) x = Ok y /\ certificate (members (s_ValSet s)) data (x_CommittedSeal y)) <->
    exists k, check_seals data (set_Copy fresh (s_ValSet s)) (x_CommittedSeal x) 0 = Ok k /\ 2 * F (s_ValSet s) < k /\
      x_CommittedSeal x <> []).
  { rewrite seals_certificate by done. split; [by intros (y & [= <-] & ?)|eauto]. }
  rewrite L. clear L. zcase.
  - apply zlen_0_inv in Heqb. split; [done|]. by intros (k & _ & _ & ?).
  - destruct (check_seals _ _ _ 0) as [k|e|]; [|split; [done|by intros (? & ? & _)]..].
    zcase; simpl; split; try done; [intros (? & [= ->] & ? & _); lia|]. intros _. exists k. split_and!; auto. intros E. by rewrite E in Heqb.
Qed.

End Verifier.
End Seals.

(** ** Verification against the canonical validators *)

Section Accept.
Context `{Crypto} `{SnapshotCodecLaws} {T : Type -> Type} `{ARCLaws T} {DB : Type} `{DatabaseLaws DB}.
Context (config : Config) (chain : ChainReader) (K : Header -> Prop) (genesis : Header).
Context (W : world_ok chain K genesis) (now fresh : Z).

Abbreviation canon := (canonical K genesis (cfg_Epoch config)).
Abbreviation snapshot := (snapshot (T := T) (DB := DB) config chain now fresh).
Abbreviation sound := (sound config K genesis).

Lemma snapshot_sound number h parents :
  is_u64 number -> zero_is_genesis genesis number h -> Forall K parents ->
  sound (snapshot number h parents) (fun s => snap_canon config K genesis s /\ s_Hash s = h).
Proof. intros. by apply snapshot_with_sound. Qed.

(** The parent of a header, with its number. *)
Definition parent_query (header : Header) (n : Z) : Prop :=
  K header /\ header_number header = Ok n /\ n <> 0.

Lemma parent_query_ok header n :
  parent_query header n -> is_u64 (u64 (n - 1)) /\ zero_is_genesis genesis (u64 (n - 1)) (h_ParentHash header).
Proof.
  intros (Kh & Hn & Hz). split; [apply u64_range|]. intros E. apply (w_first _ _ _ W); [done|].
  assert (B : is_u64 n).
  { unfold header_number in Hn. destruct (h_Number header); [|done]. injection Hn as <-. apply u64_range. }
  rewrite u64_id in E by (unfold is_u64 in *; lia). rewrite Hn. f_equal. lia.
Qed.

Lemma verifySigner_sound header parents n :
  parent_query header n -> Forall K parents ->
  sound (verifySigner snapshot header parents) (fun _ =>
    exists s signer, snap_canon config K genesis s /\ s_Hash s = h_ParentHash header /\
      recover_signer header = Ok signer /\ signer ∈ members (s_ValSet s)).
Proof.
  intros Hq HKs. pose proof Hq as (Kh & Hn & Hz). destruct (parent_query_ok _ _ Hq) as [Hu Hg].
  unfold verifySigner. rewrite Hn. eapply (sound_bind _ _ _ _ _ (eq n)); [by apply sound_lift; intros ? [= <-]|].
  intros ? <-. rewrite (proj2 (Z.eqb_neq n 0)) by done.
  eapply sound_bind; [by apply snapshot_sound|]. intros s [Hs Eh].
  eapply sound_bind; [by apply (Author_sound _ _ _ _ W)|]. intros signer Hsg.
  pose proof (GetByAddress_member (s_ValSet s) signer) as G.
  destruct (GetByAddress (s_ValSet s) signer) as [k [v|]]; [|apply sound_throw].
  apply sound_ret. exists s, signer. split_and!; auto. apply G. eauto.
Qed.

Lemma verifyCommittedSeals_sound header parents n :
  parent_query header n -> Forall K parents ->
  sound (verifyCommittedSeals fresh snapshot header parents) (fun _ =>
    exists s x, snap_canon config K genesis s /\ s_Hash s = h_ParentHash header /\
      ExtractIstanbulExtra header = Ok x /\
      certificate (members (s_ValSet s)) (PrepareCommittedSeal (header_Hash header)) (x_CommittedSeal x)).
Proof.
  intros Hq HKs. pose proof Hq as (Kh & Hn & Hz). destruct (parent_query_ok _ _ Hq) as [Hu Hg].
  intros st Hst. destruct (snapshot_sound _ _ parents Hu Hg HKs st Hst) as [Hst1 R].
  destruct (snapshot (u64 (n - 1)) (h_ParentHash header) parents st) as [r st1] eqn:E. simpl in Hst1, R. split.
  - unfold verifyCommittedSeals, mbind, EM_bind, lift, throw, lift, mret, EM_ret. rewrite Hn.
    rewrite (proj2 (Z.eqb_neq n 0)), E by done. destruct r as [s|e|]; [|done..].
    destruct (ExtractIstanbulExtra header); [|done..]. zcase; [done|]. by destruct (check_seals _ _ _ 0); [zcase|..].
  - intros [] V. destruct r as [s|e|].
    + destruct (R s eq_refl) as [Hs Eh]. pose proof Hs as ((Hset & _) & _).
      apply (verifyCommittedSeals_spec fresh snapshot header parents n s st st1 Hn Hz Hset E) in V as (x & Hx & Hc).
      exists s, x. by split_and!.
    + unfold verifyCommittedSeals, mbind, EM_bind, lift in V. rewrite Hn, (proj2 (Z.eqb_neq n 0)), E in V by done. done.
    + unfold verifyCommittedSeals, mbind, EM_bind, lift in V. rewrite Hn, (proj2 (Z.eqb_neq n 0)), E in V by done. done.
Qed.

(** The number of a canonical block is the number in its header. *)
Lemma canon_number hd m b : K hd -> canon (header_Hash hd) m b -> header_number hd = Ok m.
Proof.
  intros Kh Hc. inversion Hc as [x Hx E|h n b0 b1 Hp Kh' Hn Hb E].
  - destruct (same_hash K 0 (w_free _ _ _ W) (w_hash _ _ _ W) _ _ (w_genesis_K _ _ _ W) Kh E) as (_ & <- & _).
    apply (w_genesis_0 _ _ _ W).
  - destruct (same_hash K 0 (w_free _ _ _ W) (w_hash _ _ _ W) _ _ Kh' Kh E) as (_ & <- & _). done.
Qed.

(** What acceptance of a header means. *)
Definition accepted (header : Header) (n : Z) : Prop :=
  exists b signer x,
    canon (h_ParentHash header) (n - 1) b /\
    recover_signer header = Ok signer /\ signer ∈ b_members b /\
    ExtractIstanbulExtra header = Ok x /\
    certificate (b_members b) (PrepareCommittedSeal (header_Hash header)) (x_CommittedSeal x) /\
    h_MixDigest header = IstanbulDigest /\ h_Difficulty header = Some defaultDifficulty /\
    h_UncleHash header = nilUncleHash /\ is_Some (nonce_vote (h_Nonce header)).

Lemma verifyCascadingFields_sound header parents n :
  parent_query header n -> Forall K parents ->
  sound (verifyCascadingFields config chain fresh snapshot header parents) (fun _ =>
    exists b signer x, canon (h_ParentHash header) (n - 1) b /\
      recover_signer header = Ok signer /\ signer ∈ b_members b /\ ExtractIstanbulExtra header = Ok x /\
      certificate (b_members b) (PrepareCommittedSeal (header_Hash header)) (x_CommittedSeal x)).
Proof.
  intros Hq HKs. pose proof Hq as (Kh & Hn & Hz). destruct (parent_query_ok _ _ Hq) as [Hu Hg].
  unfold verifyCascadingFields. rewrite Hn. eapply (sound_bind _ _ _ _ _ (eq n)); [by apply sound_lift; intros ? [= <-]|].
  intros ? <-. rewrite (proj2 (Z.eqb_neq n 0)) by done.
  destruct (parent_of chain header n parents) as [p|] eqn:EP; [|apply sound_throw].
  assert (Kp : K p).
  { unfold parent_of in EP. destruct (last parents) as [q|] eqn:L.
    - injection EP as ->. rewrite Forall_forall in HKs. apply HKs. apply last_Some in L as [l ->]. set_solver.
    - by apply (w_get _ _ _ W) in EP as [? _]. }
  eapply (sound_bind _ _ _ _ _ (fun m => header_number p = Ok m)); [by apply sound_lift|]. intros pn Hpn.
  destruct (negb _ || negb _) eqn:B; [apply sound_throw|]. apply orb_false_iff in B as [B1 B2]. zbool.
  apply bool_decide_eq_true in B2.
  eapply (sound_bind _ _ _ _ _ (fun _ => True)); [by apply sound_nonnil|]. intros pt _.
  eapply (sound_bind _ _ _ _ _ (fun _ => True)); [by apply sound_nonnil|]. intros ht _.
  zcase; [apply sound_throw|]. eapply sound_bind; [by apply snapshot_sound|]. intros s0 _.
  eapply sound_bind; [by apply (verifySigner_sound header parents n)|]. intros _ (s1 & signer & (_ & _ & _ & C1) & E1 & Hsg & Hin).
  eapply sound_mono; [by apply (verifyCommittedSeals_sound header parents n)|].
  intros _ (s2 & x & (_ & _ & _ & C2) & E2 & Hx & Hcert). rewrite E1 in C1. rewrite E2 in C2.
  destruct (canonical_fun K genesis _ (w_free _ _ _ W) (w_hash _ _ _ W) (w_genesis_K _ _ _ W) (w_genesis_0 _ _ _ W)
    _ _ _ C1 _ _ C2) as [EN EB].
  pose proof C1 as C1'. rewrite <- B2 in C1'. apply canon_number in C1'; [|done]. rewrite Hpn in C1'. injection C1' as C1'.
  exists (abs s1), signer, x. split; [|split; [done|split; [done|split; [done|]]]].
  - rewrite <- C1', B1 in C1.
    assert (is_u64 n) as Hu64.
    { unfold header_number in Hn. destruct (h_Number header); [|done]. injection Hn as <-. apply u64_range. }
    by rewrite u64_id in C1 by (unfold is_u64 in *; lia).
  - by rewrite <- EB.
Qed.

Lemma nonce_checked nonce :
  negb (bool_decide (nonce = emptyNonce)) && negb (bool_decide (nonce = nonceAuthVote))
    && negb (bool_decide (nonce = nonceDropVote)) = false -> is_Some (nonce_vote nonce).
Proof.
  intros B. unfold nonce_vote. change emptyNonce with nonceDropVote in B. repeat case_bool_decide; try done; eauto.
Qed.

Lemma verifyHeader_sound header parents n :
  parent_query header n -> Forall K parents ->
  sound (verifyHeader (T := T) (DB := DB) config chain now fresh header parents) (fun _ => accepted header n).
Proof.
  intros Hq HKs. unfold verifyHeader, verifyHeader_with. destruct (h_Number header); [|apply sound_throw].
  eapply (sound_bind _ _ _ _ _ (fun _ => True)); [by apply sound_nonnil|]. intros t _.
  zcase; [apply sound_throw|]. destruct (ExtractIstanbulExtra header) as [x|e|]; [|apply sound_throw|by apply sound_lift].
  destruct (negb _ && _ && _) eqn:B1; [apply sound_throw|]. apply nonce_checked in B1.
  destruct (negb (bool_decide (h_MixDigest header = _))) eqn:B2; [apply sound_throw|].
  destruct (negb (bool_decide (h_UncleHash header = _))) eqn:B3; [apply sound_throw|].
  destruct (negb (bool_decide (h_Difficulty header = _))) eqn:B4; [apply sound_throw|]. zbool.
  apply bool_decide_eq_true in B2, B3, B4.
  eapply sound_mono; [by apply (verifyCascadingFields_sound header parents n)|].
  intros _ (b & signer & y & ? & ? & ? & ? & ?). exists b, signer, y. by split_and!.
Qed.

End Accept.

(** ** Claims *)

(** C6: every accepted block is certified.  If [VerifyHeader] accepts a header
    with a positive number, whatever the caches hold, then with respect to the
    validators obtained by replaying all votes from the genesis block up to its
    parent: the block is sealed by one of them, and its committed seals are
    signatures on the block hash by more than [2F] different ones of them. *)
Theorem accepted_header_certified `{Crypto} `{SnapshotCodecLaws} {T : Type -> Type} `{ARCLaws T}
    {DB : Type} `{DatabaseLaws DB} (config : Config) (chain : ChainReader) (K : Header -> Prop) (genesis : Header)
    (now fresh n : Z) (header : Header) (st : estate T DB) :
  world_ok chain K genesis -> state_ok config K genesis st ->
  K header -> header_number header = Ok n -> n <> 0 ->
  (VerifyHeader config chain now fresh header st).1 = Ok tt ->
  exists b signer x,
    canonical K genesis (cfg_Epoch config) (h_ParentHash header) (n - 1) b /\
    recover_signer header = Ok signer /\ signer ∈ b_members b /\
    ExtractIstanbulExtra header = Ok x /\
    certificate (b_members b) (PrepareCommittedSeal (header_Hash header)) (x_CommittedSeal x).
Proof.
  intros W Hst Kh Hn Hz V.
  destruct (verifyHeader_sound config chain K genesis W now fresh header [] n ltac:(by split)
    (Forall_nil_2 _) st Hst) as [_ A].
  destruct (A tt V) as (b & signer & x & ? & ? & ? & ? & ? & _). exists b, signer, x. by split_and!.
Qed.

(** C16: snapshots are canonical.  Whatever mixture of memory cache, disk
    checkpoints and replayed headers [snapshot] uses, a snapshot it returns for
    a block has the validators and the pending votes of the replay of all
    headers from the genesis block, and the caches it leaves behind are again
    sound. *)
Theorem snapshot_canonical `{Crypto} `{SnapshotCodecLaws} {T : Type -> Type} `{ARCLaws T}
    {DB : Type} `{DatabaseLaws DB} (config : Config) (chain : ChainReader) (K : Header -> Prop) (genesis : Header)
    (now fresh number : Z) (h : hash) (parents : list Header) (st st' : estate T DB) (s : Snapshot) :
  world_ok chain K genesis -> state_ok config K genesis st -> is_u64 number ->
  (number = 0 -> h = header_Hash genesis) -> Forall K parents ->
  snapshot config chain now fresh number h parents st = (Ok s, st') ->
  state_ok config K genesis st' /\ s_Hash s = h /\ snap_ok s /\
  canonical K genesis (cfg_Epoch config) h (s_Number s) (abs s) /\
  forall n b, canonical K genesis (cfg_Epoch config) h n b -> s_Number s = n /\ abs s = b.
Proof.
  intros W Hst Hu Hz HKs E.
  destruct (snapshot_sound config chain K genesis W now fresh number h parents Hu Hz HKs st Hst) as [Hst' A].
  rewrite E in Hst', A. destruct (A s eq_refl) as [(Hok & _ & _ & Hc) <-]. split_and!; auto.
  intros n b Hb.
  by apply (canonical_fun K genesis (cfg_Epoch config) (w_free _ _ _ W) (w_hash _ _ _ W) (w_genesis_K _ _ _ W)
    (w_genesis_0 _ _ _ W) _ _ _ Hb).
Qed.

(** snapshots are found.  For a block with a canonical ballot whose ancestors
    the chain knows, [snapshot] returns, with the canonical validators and
    votes, if the database accepts writes and the genesis header is valid: the
    search ends after at most [n + 1] steps. *)
Theorem snapshot_complete `{Crypto} `{SnapshotCodecLaws} {T : Type -> Type} `{ARCLaws T}
    {DB : Type} `{DatabaseLaws DB} (config : Config) (chain : ChainReader) (K : Header -> Prop) (genesis : Header)
    (now fresh n : Z) (h : hash) (b : ballot) (st : estate T DB) :
  world_ok chain K genesis -> state_ok config K genesis st ->
  (forall h n b, canonical K genesis (cfg_Epoch config) h n b -> n <> 0 -> exists hd, GetHeader chain h n = Some hd) ->
  (forall s (d : DB), (store s d).1 = Ok tt) ->
  (forall st : estate T DB, (VerifyHeader config chain now fresh genesis st).1 = Ok tt) ->
  canonical K genesis (cfg_Epoch config) h n b ->
  exists s st', snapshot config chain now fresh n h [] st = (Ok s, st') /\
    s_Hash s = h /\ s_Number s = n /\ abs s = b.
Proof.
  intros W Hst Hfull Hstore Hgen Hc.
  assert (Hgen' : forall st, (verifyHeader_with config chain now fresh
    (snapshot_depth (T := T) (DB := DB) config chain now fresh 0) genesis [] st).1 = Ok tt).
  { intros st0. rewrite <- (Hgen st0). unfold VerifyHeader, verifyHeader.
    by rewrite (genesis_verify config chain K genesis W), <- (genesis_verify config chain K genesis W now fresh
      (snapshot config chain now fresh)). }
  destruct (snapshot_with_succeeds config chain K genesis W now fresh _ Hfull Hstore Hgen' h n b Hc st Hst)
    as (s & st' & E & _ & _ & ? & ? & ?). by exists s, st'.
Qed.

(** the seals check is exact: with the snapshot of the parent at hand,
    [verifyCommittedSeals] accepts a header if and only if its committed seals
    are signatures on its hash by more than [2F] different validators and by
    nobody else. *)
Theorem committed_seals_iff `{Crypto} {T : Type -> Type} {DB : Type} (fresh : Z)
    (snap_fn : Z -> hash -> list Header -> EM (estate T DB) Snapshot)
    (header : Header) (parents : list Header) (n : Z) (s : Snapshot) (st st' : estate T DB) :
  header_number header = Ok n -> n <> 0 -> set_ok (s_ValSet s) ->
  snap_fn (u64 (n - 1)) (h_ParentHash header) parents st = (Ok s, st') ->
  (verifyCommittedSeals fresh snap_fn header parents st).1 = Ok tt <->
  exists x, ExtractIstanbulExtra header = Ok x /\
    certificate (members (s_ValSet s)) (PrepareCommittedSeal (header_Hash header)) (x_CommittedSeal x).
Proof. apply verifyCommittedSeals_spec. Qed.

(** C22: agreement becomes a valid block.  When the core commits a proposal with
    seals of more than [2F] different validators, [Commit] delivers a block
    with the same hash and body whose seals every node accepts; and if one of
    the seals was not made by a validator, [Commit] delivers the block just the
    same, and no node accepts it. *)
Theorem commit_verifies `{Crypto} {Tx : Type} {T : Type -> Type} {DB : Type} (fresh : Z)
    (snap_fn : Z -> hash -> list Header -> EM (estate T DB) Snapshot)
    (bs : bstate) (proposal : Block Tx) (seals : list bytes) (parents : list Header)
    (n : Z) (x : IstanbulExtra) (s : Snapshot) (st st' : estate T DB) :
  let h := b_header proposal in
  header_ok h -> extra_fits h -> h_MixDigest h = IstanbulDigest -> ExtractIstanbulExtra h = Ok x ->
  seals <> [] -> Forall seal_sized seals ->
  zlen (extra_enc (mkExtra (x_Validators x) (x_Seal x) seals)) < 2 ^ 62 - 32 ->
  header_number h = Ok n -> n <> 0 -> set_ok (s_ValSet s) ->
  snap_fn (u64 (n - 1)) (h_ParentHash h) parents st = (Ok s, st') ->
  exists block,
    Commit true bs proposal seals =
      Ok (if bool_decide (bs_proposedBlockHash bs = block_Hash proposal) then ToSeal block else ToFetcher block) /\
    block_Hash block = block_Hash proposal /\ b_transactions block = b_transactions proposal /\
    ((verifyCommittedSeals fresh snap_fn (b_header block) parents st).1 = Ok tt <->
     certificate (members (s_ValSet s)) (PrepareCommittedSeal (block_Hash proposal)) seals).
Proof.
  intros h Hok Hf Hm Hx Hne Hs Hz Hn Hn0 Hset Hsnap.
  pose proof (writeCommittedSeals_ok h x seals Hf Hx Hne Hs Hz) as Wr.
  destruct (committed_invisible h x seals _ Hf Hx Hm Hne Hs Hz Wr) as (_ & EH & _ & _ & Ex).
  set (h' := set_Extra _ h) in *. exists (WithSeal h' proposal).
  unfold Commit, block_Header. rewrite CopyHeader_id by done. fold h. rewrite Wr. cbn [obind].
  assert (EB : block_Hash (WithSeal h' proposal) = block_Hash proposal) by exact EH.
  rewrite EB. split; [by case_bool_decide|]. split; [done|]. split; [done|]. cbn [b_header WithSeal].
  rewrite (verifyCommittedSeals_spec fresh snap_fn h' parents n s st st' Hn Hn0 Hset Hsnap).
  rewrite EH, Ex. fold (block_Hash proposal).
  split; [by intros (y & [= <-] & ?)|]. intros Hc. by exists (mkExtra (x_Validators x) (x_Seal x) seals).
Qed.
