(* ===== verification/EngineWitness.v ===== *)
(** A concrete engine: a chain of three headers with four validators, a cache
    that forgets nothing, an in-memory database, and the claims about
    snapshots and the engine at that chain. *)
From S2P Require Import Prelude RlpEncode RlpDecode RlpTheorems IstanbulTypes ValidatorSet ValidatorProps RoundState IstanbulCore IstanbulHeader Storage Snapshot HeaderHash SnapshotProps Engine BackendOps EngineInv EngineTheorems.

(** ** Instances of the interfaces *)

Definition map_cache (V : Type) : Type := gmap bytes V.

#[export] Instance map_cache_ops : ARCCache map_cache := {
  arc_New V := (∅ : gmap bytes V);
  arc_Get V k c := ((c : gmap bytes V) !! k, c);
  arc_Add V k v c := <[k := v]> (c : gmap bytes V)
}.

#[export] Instance map_cache_laws : ARCLaws map_cache.
Proof.
  refine {| arc_has V c k v := (c : gmap bytes V) !! k = Some v |}; cbn.
  - intros V k v E. by rewrite lookup_empty in E.
  - intros V k v c c' E. by simplify_eq.
  - intros V k k' v o c c' E. by simplify_eq.
  - intros V k v k' v' c E. destruct (decide (k' = k)) as [->|Hne].
    + rewrite lookup_insert_eq in E. simplify_eq. by left.
    + rewrite lookup_insert_ne in E by done. by right.
Qed.

(** A codec through the countability of snapshots. *)
#[export] Instance Vote_countable : Countable Vote.
Proof.
  refine (inj_countable' (fun v => (vt_Validator v, vt_Block v, vt_Address v, vt_Authorize v))
    (fun '(a, b, c, d) => mkVote a b c d) _). by intros [].
Defined.

#[export] Instance Tally_countable : Countable Tally.
Proof. refine (inj_countable' (fun t => (ty_Authorize t, ty_Votes t)) (fun '(a, b) => mkTally a b) _). by intros []. Defined.

#[export] Instance snapshotJSON_eq_dec : EqDecision snapshotJSON.
Proof. solve_decision. Defined.

#[export] Instance snapshotJSON_countable : Countable snapshotJSON.
Proof.
  refine (inj_countable' (fun j => (j_Epoch j, j_Number j, j_Hash j, j_Votes j, j_Tally j, j_Validators j, j_Policy j))
    (fun '(a, b, c, d, e, f, g) => mkSnapshotJSON a b c d e f g) _). by intros [].
Defined.

Definition count_codec : SnapshotCodec := {|
  json_Marshal j := Some [Z.pos (encode j)];
  json_Unmarshal b := match b with [Z.pos p] => decode p | _ => None end
|}.

Lemma count_codec_laws : @SnapshotCodecLaws count_codec.
Proof. constructor. intros j b [= <-]. cbn. apply decode_encode. Qed.

(** A checksum as hash; a signature starts with the address of its signer. *)
Definition checksum (b : bytes) : Z :=
  let '(s1, s2) := fold_left (fun '(s1, s2) x => (s1 + x + 1, s2 + s1 + x + 1)) b (0, 0) in s2 * 2 ^ 32 + s1.

Definition demo_crypto : Crypto := {|
  Keccak256 b := be_pad 32 (checksum b);
  recover_address _ sig := if zlen sig =? 65 then Some (take 20 sig) else None
|}.
#[local] Existing Instance demo_crypto.
#[local] Existing Instance count_codec.
#[local] Existing Instance count_codec_laws.

Definition demo_seal (n : Z) : bytes := sample_address n ++ replicate 45 0.

(** ** The chain *)

Definition demo_header (parent : hash) (n : Z) (coinbase : address) (nonce : bytes) (vals : list address)
    (seal : bytes) (seals : list bytes) : Header :=
  mkHeader parent nilUncleHash coinbase zero_hash zero_hash zero_hash (replicate 256 0)
    (Some 1) (Some n) (Some 0) (Some 0) (Some (10 * n))
    (replicate 32 0 ++ extra_enc (mkExtra vals seal seals)) IstanbulDigest nonce.

Definition demo_validators : list address := [sample_address 1; sample_address 2; sample_address 3; sample_address 4].

Definition demo_genesis : Header := Eval vm_compute in
  demo_header zero_hash 0 zero_address nonceDropVote demo_validators [] [].

(** Blocks 1, 2 and 3 vote for a fifth validator. *)
Definition demo_1 : Header := Eval vm_compute in
  demo_header (header_Hash demo_genesis) 1 (sample_address 5) nonceAuthVote demo_validators (demo_seal 1)
    [demo_seal 1; demo_seal 2; demo_seal 3].
Definition demo_2 : Header := Eval vm_compute in
  demo_header (header_Hash demo_1) 2 (sample_address 5) nonceAuthVote demo_validators (demo_seal 2)
    [demo_seal 4; demo_seal 2; demo_seal 3].
Definition demo_3 : Header := Eval vm_compute in
  demo_header (header_Hash demo_2) 3 (sample_address 5) nonceAuthVote demo_validators (demo_seal 3)
    [demo_seal 1; demo_seal 2; demo_seal 3; demo_seal 4].

Definition demo_headers : list Header := [demo_genesis; demo_1; demo_2; demo_3].

Definition demo_known (h : Header) : Prop := h ∈ demo_headers.

Definition demo_config : Config := mkConfig 10000 1 RoundRobin 30000.

Definition number_is (n : Z) (h : Header) : bool := match header_number h with Ok m => m =? n | _ => false end.

Definition chain_of (l : list Header) : ChainReader := {|
  GetHeader h n := find (fun hd => bool_decide (header_Hash hd = h) && number_is n hd) l;
  GetHeaderByNumber n := find (number_is n) l
|}.

Definition demo_chain : ChainReader := chain_of demo_headers.

Definition demo_state : estate map_cache MemDatabase := mkEstate arc_New arc_New (∅ : MemDatabase).

(** ** The assumptions hold *)

Definition collision_freeb (l : list Header) : bool :=
  forallb (fun h1 => forallb (fun h2 =>
    negb (bool_decide (Keccak256 (header_enc (normal h1)) = Keccak256 (header_enc (normal h2))))
    || bool_decide (header_enc (normal h1) = header_enc (normal h2))) l) l.

Lemma collision_freeb_ok l : collision_freeb l = true -> collision_free (fun h => h ∈ l).
Proof.
  unfold collision_freeb. intros E h1 h2 K1 K2 HE. rewrite forallb_forall in E.
  apply list_elem_of_In in K1, K2. specialize (E h1 K1). rewrite forallb_forall in E. specialize (E h2 K2).
  apply orb_true_iff in E as [E|E]; [apply negb_true_iff, bool_decide_eq_false in E; done|by apply bool_decide_eq_true in E].
Qed.

Lemma demo_free : collision_free demo_known.
Proof. apply collision_freeb_ok. vm_compute. reflexivity. Qed.

Lemma demo_hashable h : demo_known h -> hashable h.
Proof.
  intros Hh. apply hashableb_ok. revert h Hh.
  assert (E : forallb hashableb demo_headers = true) by (vm_compute; reflexivity).
  rewrite forallb_forall in E. intros h Hh. by apply E, list_elem_of_In.
Qed.

Lemma demo_numbers h : demo_known h -> exists n, header_number h = Ok n /\ 0 <= n <= 3.
Proof.
  intros Hh. assert (E : forallb (fun h => match header_number h with Ok n => (0 <=? n) && (n <=? 3) | _ => false end)
    demo_headers = true) by (vm_compute; reflexivity).
  rewrite forallb_forall in E. specialize (E h (proj1 (list_elem_of_In _ _) Hh)).
  destruct (header_number h) as [n|e|]; [|done..]. exists n. split; [done|]. zbool. lia.
Qed.

Lemma forallb_implb {A} (p q : A -> bool) (l : list A) x :
  forallb (fun y => implb (p y) (q y)) l = true -> x ∈ l -> p x = true -> q x = true.
Proof.
  rewrite forallb_forall. intros E Hx%list_elem_of_In Hp. specialize (E x Hx). rewrite Hp in E. done.
Qed.

Definition parent_isb (p : hash) (h : Header) : bool := bool_decide (h_ParentHash h = p).

Lemma number_is_spec n h : number_is n h = true <-> header_number h = Ok n.
Proof.
  unfold number_is. destruct (header_number h) as [m|e|]; [|done..]. rewrite Z.eqb_eq. naive_solver.
Qed.

Lemma find_header l h n hd :
  GetHeader (chain_of l) h n = Some hd ->
  hd ∈ l /\ header_Hash hd = h /\ header_number hd = Ok n.
Proof.
  intros F. cbn in F. apply find_some in F as [Hin E]. apply andb_true_iff in E as [E1 E2].
  apply bool_decide_eq_true in E1. apply number_is_spec in E2. by rewrite <- list_elem_of_In in Hin.
Qed.

Lemma header_find l hd n :
  hd ∈ l -> header_number hd = Ok n ->
  exists hd', GetHeader (chain_of l) (header_Hash hd) n = Some hd'.
Proof.
  intros Hin Hn. cbn. destruct (find _ l) as [hd'|] eqn:F; [eauto|]. exfalso.
  pose proof (find_none _ _ F hd (proj1 (list_elem_of_In _ _) Hin)) as E. cbn beta in E.
  rewrite bool_decide_true in E by done. by rewrite (proj2 (number_is_spec n hd) Hn) in E.
Qed.

Lemma canonical_found l genesis epoch h n b :
  canonical (fun x => x ∈ l) genesis epoch h n b -> n <> 0 -> exists hd, GetHeader (chain_of l) h n = Some hd.
Proof. intros [x Hx|hd m c c' _ Kh Hm _] Hn; [congruence|]. by apply header_find. Qed.

Lemma demo_world : world_ok demo_chain demo_known demo_genesis.
Proof.
  constructor.
  - apply demo_free.
  - apply demo_hashable.
  - vm_compute. reflexivity.
  - left.
  - vm_compute. reflexivity.
  - intros x Hx. assert (E : match ExtractIstanbulExtra demo_genesis with Ok y => bool_decide (NoDup (x_Validators y)) | _ => true end = true)
      by (vm_compute; reflexivity).
    rewrite Hx in E. by apply bool_decide_eq_true in E.
  - intros h n hd F. exact (find_header demo_headers h n hd F).
  - intros hd Hhd Hn. apply number_is_spec in Hn.
    assert (E : parent_isb (header_Hash demo_genesis) hd = true); [|by apply bool_decide_eq_true in E].
    apply (forallb_implb (number_is 1) (parent_isb (header_Hash demo_genesis)) demo_headers);
      [vm_compute; reflexivity|exact Hhd|exact Hn].
  - intros h n Hh Hn. destruct (demo_numbers h Hh) as (m & E & Hm). rewrite Hn in E. injection E as ->. lia.
Qed.

Lemma demo_state_ok : state_ok demo_config demo_known demo_genesis demo_state.
Proof. split; [|split]; [intros k a h E; by apply arc_has_New in E|intros k s E; by apply arc_has_New in E|done]. Qed.

(** ** Witnesses *)

Lemma forall_known (l : list Header) : forallb (fun h => bool_decide (h ∈ demo_headers)) l = true -> Forall demo_known l.
Proof.
  intros E. rewrite forallb_forall in E. apply Forall_forall. intros h Hh%list_elem_of_In.
  by apply E, bool_decide_eq_true in Hh.
Qed.

Definition demo_genesis_snapshot : Snapshot :=
  newSnapshot 30000 0 (header_Hash demo_genesis) (newDefaultSet 0 demo_validators RoundRobin).

Lemma demo_genesis_snapshot_ok : snap_ok demo_genesis_snapshot.
Proof.
  apply newSnapshot_ok, newDefaultSet_ok.
  - apply (bool_decide_unpack _). vm_compute. exact I.
  - repeat (apply Forall_cons; split; [apply sample_address_ok|]). apply Forall_nil_2.
Qed.

(** The third vote adds the fifth validator. *)
Lemma apply_refines_witness :
  exists r c', apply 100 demo_genesis_snapshot [demo_1; demo_2; demo_3] (arc_New (T := map_cache)) = (r, c') /\
    outcome_map abs r = ballot_chain 30000 0 (abs demo_genesis_snapshot) [demo_1; demo_2; demo_3].
Proof.
  destruct (apply_refines (T := map_cache) demo_known 100 demo_genesis_snapshot [demo_1; demo_2; demo_3] arc_New)
    as (r & c' & E & _ & B & _).
  - exact demo_free.
  - exact demo_hashable.
  - apply forall_known. vm_compute. reflexivity.
  - intros k a h E. by apply arc_has_New in E.
  - exact demo_genesis_snapshot_ok.
  - exists r, c'. split; [exact E|exact B].
Defined.

Definition ok_or {A} (d : A) (x : outcome engine_err A) : A := match x with Ok a => a | _ => d end.
Definition is_ok {A} (x : outcome engine_err A) : bool := match x with Ok _ => true | _ => false end.

Lemma ok_or_eq {A S} (d : A) (x : outcome engine_err A * S) : is_ok x.1 = true -> x = (Ok (ok_or d x.1), x.2).
Proof. by destruct x as [[a|e|] s]. Qed.

Definition demo_run_2 := apply 100 demo_genesis_snapshot [demo_1; demo_2] (arc_New (T := map_cache)).
Definition demo_snapshot_2 : Snapshot := ok_or demo_genesis_snapshot demo_run_2.1.

Lemma demo_snapshot_2_ok : snap_ok demo_snapshot_2 /\ signers_ok demo_known demo_run_2.2.
Proof.
  destruct (apply_ok (T := map_cache) demo_known demo_free demo_hashable 100 demo_genesis_snapshot [demo_1; demo_2] arc_New)
    as (r & c' & E & Hc & _ & A).
  - apply forall_known. vm_compute. reflexivity.
  - intros k a h E. by apply arc_has_New in E.
  - exact demo_genesis_snapshot_ok.
  - assert (O : demo_run_2 = (Ok demo_snapshot_2, demo_run_2.2)) by (apply ok_or_eq; vm_compute; reflexivity).
    destruct (proj1 (pair_equal_spec _ _ _ _) (eq_trans (eq_sym E) O)) as [Er Ec].
    split; [exact (proj1 (A demo_snapshot_2 Er))|rewrite <- Ec; exact Hc].
Qed.

Lemma validator_change_majority_witness :
  exists S : gset address, S ⊆ members (s_ValSet demo_snapshot_2) /\
    (size (members (s_ValSet demo_snapshot_2)) < 2 * size S)%nat.
Proof.
  destruct (validator_change_majority (T := map_cache) demo_known 200 demo_snapshot_2
    (ok_or demo_snapshot_2 (apply 200 demo_snapshot_2 [demo_3] demo_run_2.2).1) demo_3 demo_run_2.2
    (apply 200 demo_snapshot_2 [demo_3] demo_run_2.2).2) as (signer & S & _ & _ & HS & Hz & _).
  - exact demo_free.
  - exact demo_hashable.
  - unfold demo_known. apply (bool_decide_unpack _). vm_compute. exact I.
  - apply demo_snapshot_2_ok.
  - apply demo_snapshot_2_ok.
  - apply ok_or_eq. vm_compute. reflexivity.
  - intros E.
    assert (X : bool_decide (sample_address 5 ∈ members (s_ValSet (ok_or demo_snapshot_2
        (apply 200 demo_snapshot_2 [demo_3] demo_run_2.2).1))) = true) by (vm_compute; reflexivity).
    rewrite E in X. vm_compute in X. discriminate X.
  - exists S. split; [exact HS|exact Hz].
Defined.

Lemma snap_validators_sorted_witness :
  StronglySorted (fun a b => str_ltb a b = true) (snap_validators demo_genesis_snapshot).
Proof. apply (snap_validators_sorted demo_genesis_snapshot). apply demo_genesis_snapshot_ok. Defined.

Lemma store_load_witness :
  let d' := (store demo_genesis_snapshot (∅ : MemDatabase)).2 in
  let s' := ok_or demo_snapshot_2 (loadSnapshot 50 30000 (s_Hash demo_genesis_snapshot) d').1 in
  snap_ok s' /\ abs s' = abs demo_genesis_snapshot.
Proof.
  intros d' s'.
  destruct (store_load 50 30000 demo_genesis_snapshot (∅ : MemDatabase) d' s') as (H1 & H2 & _).
  - exact demo_genesis_snapshot_ok.
  - vm_compute. reflexivity.
  - vm_compute. reflexivity.
  - split; [exact H1|exact H2].
Defined.

Lemma accepted_header_certified_witness :
  exists b, canonical demo_known demo_genesis 30000 (h_ParentHash demo_2) 1 b /\
    certificate (b_members b) (PrepareCommittedSeal (header_Hash demo_2)) [demo_seal 4; demo_seal 2; demo_seal 3].
Proof.
  destruct (accepted_header_certified demo_config demo_chain demo_known demo_genesis 1000 0 2 demo_2 demo_state)
    as (b & signer & x & Hc & _ & _ & Hx & Hcert).
  - exact demo_world.
  - exact demo_state_ok.
  - unfold demo_known. apply (bool_decide_unpack _). vm_compute. exact I.
  - vm_compute. reflexivity.
  - discriminate.
  - vm_compute. reflexivity.
  - exists b. split; [exact Hc|].
    assert (E : ExtractIstanbulExtra demo_2 = Ok (mkExtra demo_validators (demo_seal 2) [demo_seal 4; demo_seal 2; demo_seal 3]))
      by (vm_compute; reflexivity).
    rewrite E in Hx. injection Hx as Hx. rewrite <- Hx in Hcert. exact Hcert.
Defined.

Lemma snapshot_canonical_witness :
  let r := snapshot demo_config demo_chain 1000 0 2 (header_Hash demo_2) [] demo_state in
  state_ok demo_config demo_known demo_genesis r.2 /\ snap_ok (ok_or demo_genesis_snapshot r.1).
Proof.
  intros r.
  destruct (snapshot_canonical demo_config demo_chain demo_known demo_genesis 1000 0 2 (header_Hash demo_2) []
    demo_state r.2 (ok_or demo_genesis_snapshot r.1)) as (H1 & _ & H2 & _).
  - exact demo_world.
  - exact demo_state_ok.
  - split; [discriminate|reflexivity].
  - discriminate.
  - apply Forall_nil_2.
  - apply ok_or_eq. vm_compute. reflexivity.
  - split; [exact H1|exact H2].
Defined.

Definition demo_ballot_0 : ballot := mkBallot (list_to_set demo_validators) [].
Definition demo_ballot_1 : ballot := ok_or demo_ballot_0 (ballot_header 30000 demo_ballot_0 demo_1).

Lemma demo_canonical_1 : canonical demo_known demo_genesis 30000 (header_Hash demo_1) 1 demo_ballot_1.
Proof.
  apply (canon_step demo_known demo_genesis 30000 demo_1 0 demo_ballot_0 demo_ballot_1).
  - assert (Ep : h_ParentHash demo_1 = header_Hash demo_genesis) by (vm_compute; reflexivity). rewrite Ep.
    apply (canon_genesis demo_known demo_genesis 30000 (mkExtra demo_validators [] [])). vm_compute. reflexivity.
  - unfold demo_known. apply (bool_decide_unpack _). vm_compute. exact I.
  - vm_compute. reflexivity.
  - vm_compute. reflexivity.
Qed.

Lemma snapshot_complete_witness :
  exists s st', snapshot demo_config demo_chain 1000 0 1 (header_Hash demo_1) [] demo_state = (Ok s, st') /\
    abs s = demo_ballot_1.
Proof.
  destruct (snapshot_complete demo_config demo_chain demo_known demo_genesis 1000 0 1 (header_Hash demo_1) demo_ballot_1
    demo_state) as (s & st' & E & _ & _ & A).
  - exact demo_world.
  - exact demo_state_ok.
  - exact (canonical_found demo_headers demo_genesis 30000).
  - intros s d. reflexivity.
  - intros st. vm_compute. reflexivity.
  - exact demo_canonical_1.
  - exists s, st'. split; [exact E|exact A].
Defined.

Definition demo_snap_fn (_ : Z) (_ : hash) (_ : list Header) : EM (estate map_cache MemDatabase) Snapshot :=
  mret demo_genesis_snapshot.

Lemma committed_seals_iff_witness :
  certificate (members (s_ValSet demo_genesis_snapshot)) (PrepareCommittedSeal (header_Hash demo_1))
    [demo_seal 1; demo_seal 2; demo_seal 3].
Proof.
  destruct (proj1 (committed_seals_iff 0 demo_snap_fn demo_1 [] 1 demo_genesis_snapshot demo_state demo_state
    ltac:(vm_compute; reflexivity) ltac:(discriminate) (proj1 demo_genesis_snapshot_ok) eq_refl)
    ltac:(vm_compute; reflexivity)) as (x & Hx & Hc).
  assert (E : ExtractIstanbulExtra demo_1 = Ok (mkExtra demo_validators (demo_seal 1) [demo_seal 1; demo_seal 2; demo_seal 3]))
    by (vm_compute; reflexivity).
  rewrite E in Hx. injection Hx as Hx. rewrite <- Hx in Hc. exact Hc.
Defined.

Definition demo_proposed : Header := Eval vm_compute in
  demo_header (header_Hash demo_genesis) 1 zero_address nonceDropVote demo_validators (demo_seal 1) [].

Definition demo_proposal : Block unit := mkBlock demo_proposed [] [].

(** A fifth seal of nobody's validator spoils a complete certificate. *)
Lemma commit_verifies_witness :
  exists block,
    Commit true (mkBstate true zero_hash 0) demo_proposal [demo_seal 1; demo_seal 2; demo_seal 3; demo_seal 77] =
      Ok (ToFetcher block) /\
    block_Hash block = block_Hash demo_proposal /\
    ((verifyCommittedSeals 0 demo_snap_fn (b_header block) [] demo_state).1 = Ok tt <->
     certificate (members (s_ValSet demo_genesis_snapshot)) (PrepareCommittedSeal (block_Hash demo_proposal))
       [demo_seal 1; demo_seal 2; demo_seal 3; demo_seal 77]).
Proof.
  destruct (commit_verifies 0 demo_snap_fn (mkBstate true zero_hash 0) demo_proposal
    [demo_seal 1; demo_seal 2; demo_seal 3; demo_seal 77] [] 1 (mkExtra demo_validators (demo_seal 1) [])
    demo_genesis_snapshot demo_state demo_state) as (block & E1 & E2 & _ & E3).
  - apply header_okb_ok. vm_compute. reflexivity.
  - split; [|vm_compute; reflexivity].
    refine (proj1 (bytesb_ok _ (zlen (h_Extra (b_header demo_proposal))) _)). vm_compute. reflexivity.
  - vm_compute. reflexivity.
  - vm_compute. reflexivity.
  - discriminate.
  - repeat (apply Forall_cons; split; [split; [refine (proj1 (bytesb_ok _ 65 _)); vm_compute; reflexivity|reflexivity]|]).
    apply Forall_nil_2.
  - vm_compute. reflexivity.
  - vm_compute. reflexivity.
  - discriminate.
  - apply demo_genesis_snapshot_ok.
  - reflexivity.
  - exists block. split; [|split; [exact E2|exact E3]]. rewrite E1. vm_compute. reflexivity.
Defined.
